(* ===== verification/_CoqProject ===== *)
-Q . S2P
Prelude.v
GuestMem.v
Bus.v
Virtqueue.v
Arch.v
Runner.v
Transport.v
Drain.v
Device.v
Block.v
Peripherals.v
RateLimit.v
Text.v
Prog.v
Paths.v
Disk.v
SnapError.v
Dirty.v
Schemas.v
Controller.v
Api.v
Pl011.v
Pdu.v
Http.v
MmdsTcp.v
Mmds.v
SnapState.v
Envelope.v
Snapshot.v
VcpuSave.v
Pager.v
Net.v
NetHost.v
Vsock.v
Muxer.v
Loader.v
Replay.v
Facade.v
Fdt.v
Boot.v
Hv.v
Machine.v
Start.v
Launch.v
Cli.v
Jail.v
