(* ===== verification/Prelude.v ===== *)
(** * squib: a verification development of the squib microVM monitor

    squib runs one Linux microVM on Apple's hypervisor framework behind the
    Firecracker API.  A command or an embedding program builds a runtime; its API
    server validates requests and sends them as actions over a bounded channel to a
    single event loop; the loop gathers a configuration and, on [InstanceStart],
    plans the boot, creates guest memory, an interrupt controller, an MMIO bus with
    its devices, a device tree and a vCPU thread.  The vCPU loop runs the guest,
    decodes every exit from its syndrome, forwards data aborts to the bus and answers
    PSCI calls.  Behind the bus sit a serial console and virtio-MMIO transports, which
    drive virtio devices over split virtqueues in guest memory; network frames go to
    vmnet, to a helper process or to a metadata service, socket streams to Unix
    sockets.  Snapshots save vCPU, device state and dirty memory; a pager restores
    memory on demand.  A jailer confines the command.

    ** Files

    Foundations:
    - [Prelude] (this file): results with [let?], the state-and-error monad with
      [let!], machine integers as [Z] with explicit wrapping, bytes, slices, bit
      lemmas, bounded loops, tactics and the hint databases.
    - [Text], [Paths]: what the sources use of [str] and [std::path].
    - [Prog]: programs with state, errors and loops ([let*]) and their weakest
      preconditions, which give total correctness.
    - [Disk]: [std::fs] and [std::io] on a store of names and inodes; a script chooses
      the outcome of every system call, and the store keeps its past images.

    The machine ([src/crates/core], [bus], [arch], [hv], [legacy], [vmm]):
    - [GuestMem]: addresses, ranges, the [GuestMemory] trait as a class with laws, the
      slice-backed memory.  [Bus]: ranges, builder, lookup, dispatch.
    - [Arch]: Modules [Layout], [Gic], [Slots], [Esr], [Psci].  [Runner]: exit decoding
      and the vCPU loop; one iteration is [loop_step].
    - [Pl011]: the serial console.
    - [Loader], [Fdt], [Boot]: kernel images, boot arguments and device tree, planning
      the boot and staging the images.  [Machine]: all devices on one bus, and what
      guest accesses do to them.  [Start]: the boot half of [start_microvm].
    - [Hv]: the interrupt shadow, thread affinity, the hotplug backend.

    virtio ([src/crates/virtio]):
    - [Virtqueue]: rings and descriptor chains.  [Transport]: the register block as a
      state machine over guest accesses, against the class [VirtioDevice].
    - [Drain], [Device]: the queue loop and the frontend that all devices share.
    - [Block], [RateLimit]: the block device with both file engines, its token bucket.
      [Peripherals]: rng, console, pmem, memory, balloon, boot timer.  [Net], [Vsock].

    Host services ([src/crates/net], [mmds], [squib], [host]):
    - [Pdu], [Http], [MmdsTcp], [Mmds]: packets, HTTP parser, TCP server, metadata
      store, tokens and interceptor.
    - [NetHost]: vmnet interface and gvproxy backend.  [Muxer]: Unix sockets behind the
      vsock device, as interleaved tasks.  [Pager]: pages of a snapshot on demand.

    Control ([src/crates/api], [squib], [src/apps]):
    - [Schemas]: request bodies and their validation.  [Controller]: actions, admission,
      limits, time-outs and the event loop; a request is several steps of [sys_step], so
      clients interleave.  [Api]: handlers and router.  [Replay]: configuration files.
    - [Facade]: builder, [spawn], [shutdown].  [Launch]: the rest of [start_microvm],
      with the host backends.  [Cli]: the command.  [Jail]: the jailer.

    Snapshots ([src/crates/snapshot], [hv]):
    - [Dirty]: bitmap, adaptive controller, tracked region.  [SnapError], [SnapState],
      [Envelope], [Snapshot]: errors, state, framing, saving and loading.  [VcpuSave]:
      capturing and restoring a vCPU.

    ** What the theorems show

    - From a file to a guest: a configuration file that replays successfully is valid,
      is launched exactly as it says, and the guest finds kernel, device tree and initrd
      where its registers say and behind every node the device it names ([Launch],
      composing [Replay], [Loader], [Fdt], [Boot], [Machine], [Start]); a failed start
      leaves no helper process.
    - Guest memory and devices: no device touches guest memory before its driver went
      through the handshake ([Transport], [Machine]); lookups agree with a linear search;
      chains are walked completely or refused; every published request is answered in
      order; written blocks are read back; the plugged-block bitmap is the memory map of
      any backend that keeps the laws.
    - vCPU: emulated accesses move exactly the addressed bytes; restoring a captured
      vCPU gives the same registers.
    - Metadata: a guest that queues the frames of a request finds the response in its
      buffers; data is only handed out against a live token; the token store refines a
      map with expiry.
    - Host streams: bytes cross the socket muxer and the gvproxy link in order, within
      the peer's credit, and no wake-up is lost; vmnet frames keep their order.
    - Control: in all interleavings requests are answered, the configuration is valid and
      agrees with the phase; routing is exact; [spawn] is all or nothing and [shutdown]
      ends; replay is characterised exactly.
    - Snapshots: no marked page is lost in a sequential history, a save is crash safe, a
      diff completes its base, loading inverts saving, lazy restore shows the same bytes.
    - Jail: whatever fails and whatever other processes do, a program only runs confined.

    Lemmas and examples that are not stated as properties record where the code differs
    from its comments or from what it means to do.

    ** Conventions, bounds and parameters

    Machine integers are [Z]; [wadd] and [wrap] write wrap-around out and [usize] has 64
    bits.  Unchecked additions follow a release build.  A panic is [None] where the code
    does not rule it out.  Atomics and locks are plain state where one thread uses a
    component at a time; where the interleaving matters it is a sequence of steps.

    Loops that are not structural take fuel that is proved to suffice: the queue size plus
    one for a chain, 65536 for the drain loop (the available index has 16 bits), 64 for
    the bits of a word, 3 for checksum folding, the number of digits for printing, the
    length of a path for its components and parents; [Prog] loops run for a power of two
    of rounds above the measure that every round lowers.  The vCPU loop and the servers
    are step functions; what they do is stated per step and over any finite run.

    Code outside the sources is a class, with laws where a theorem needs its documented
    behaviour: the hypervisor ([Vcpu], [AppleVisor], [VirtualCpu], [GicStateApi],
    [MemoryApi]), the interrupt controller ([Gic]), decoders and host files ([Decoders],
    [HostFs]), the device-tree writer ([FdtWriter]), JSON ([SerdeJson], [JsonLib],
    [ConfigParser]) and base64, the web framework ([Axum], [JsonBodies]), the serializer
    and checksum ([Codec], [Crc]), wake-ups ([NotifyLib]), vmnet ([Vmnet], [Xpc],
    [Uuid5]), processes and sockets ([ProcessHost], [LaunchHost], [SocketFs],
    [PageSocket], [Mach]), links and sandbox texts ([JailHost]).  Traits of the sources
    are classes too.  Each class a property uses has a concrete instance in its witness.

    ** Not modelled

    Log output and tracing; argument parsing by [clap]; JSON, bitcode, gzip, zstd and
    device-tree encodings (parameters above); the HTTP protocol under the router, HEAD
    requests; the unsafe calls into Hypervisor.framework, vmnet, libdispatch and Mach
    beyond the outcomes the classes give them; block callbacks of [net/src/sys/block.rs];
    thread creation and scheduling other than as interleavings; the printed form of a
    snapshot description; [Display] texts that only reach a log; the stubs compiled on
    other hosts, except the event loop's.  Weak memory orderings are not modelled: an
    atomic access is one step. *)

From stdpp Require Import base numbers list option gmap strings.
From Stdlib Require Import ZArith Lia.

Local Open Scope Z_scope.

(** ** Results and the state-and-error monad *)

(** [core::result::Result<A, E>]: every fallible operation of the sources
    returns one of these. *)
Inductive result (E A : Type) : Type :=
| Ok (a : A)
| Err (e : E).
Arguments Ok {E A} a.
Arguments Err {E A} e.

Declare Scope squib_scope.
Delimit Scope squib_scope with squib.

(** The [?] operator: [let? x := c in k] returns early with the error of [c]. *)
Notation "'let?' x := c 'in' k" :=
  (match c with Ok x => k | Err e => Err e end)
  (at level 10, x pattern, c at level 100, k at level 200) : squib_scope.

(** Code that mutates [&mut self] or shared memory and may fail half-way: the
    state at the point of failure is kept. *)
Definition stm (S E A : Type) : Type := S -> S * result E A.

Definition st_ret {S E A} (a : A) : stm S E A := fun s => (s, Ok a).

Definition st_fail {S E A} (e : E) : stm S E A := fun s => (s, Err e).

Definition st_bind {S E A B} (c : stm S E A) (k : A -> stm S E B) : stm S E B :=
  fun s => match c s with
           | (s', Ok a) => k a s'
           | (s', Err e) => (s', Err e)
           end.

Definition st_get {S E} : stm S E S := fun s => (s, Ok s).

Definition st_put {S E} (s : S) : stm S E unit := fun _ => (s, Ok tt).

Notation "'let!' x := c 'in' k" := (st_bind c (fun x => k))
  (at level 10, x pattern, c at level 100, k at level 200) : squib_scope.

Definition is_ok {E A} (r : result E A) : bool :=
  match r with Ok _ => true | Err _ => false end.

(** [Result::map_err]. *)
Definition map_err {E F A} (f : E -> F) (r : result E A) : result F A :=
  match r with Ok a => Ok a | Err e => Err (f e) end.

(** ** Machine integers

    A [uN] value is a [Z] in [0, 2^N).  [+], [-] and [*] of the shipping
    (release) build wrap; [checked_*] and [saturating_*] are written out. *)

Definition in_u (w x : Z) : Prop := 0 <= x < 2 ^ w.

Definition in_ub (w x : Z) : bool := (0 <=? x) && (x <? 2 ^ w).

(** [x as uN]. *)
Definition wrap (w x : Z) : Z := x mod 2 ^ w.

Definition wadd (w a b : Z) : Z := wrap w (a + b).
Definition wmul (w a b : Z) : Z := wrap w (a * b).

Definition checked_add (w a b : Z) : option Z :=
  if a + b <? 2 ^ w then Some (a + b) else None.

Definition checked_sub (a b : Z) : option Z :=
  if a <? b then None else Some (a - b).

Definition checked_mul (w a b : Z) : option Z :=
  if a * b <? 2 ^ w then Some (a * b) else None.

Definition saturating_add (w a b : Z) : Z := Z.min (a + b) (2 ^ w - 1).

Definition saturating_sub (a b : Z) : Z := Z.max (a - b) 0.

Definition saturating_mul (w a b : Z) : Z := Z.min (a * b) (2 ^ w - 1).

(** [u64::is_power_of_two]. *)
Definition is_power_of_two (x : Z) : bool := (0 <? x) && (2 ^ Z.log2 x =? x).

(** [uN::checked_next_power_of_two]: the smallest power of two [>= x]. *)
Definition checked_next_power_of_two (w x : Z) : option Z :=
  let p := if x <=? 1 then 1 else 2 ^ Z.log2_up x in
  if p <? 2 ^ w then Some p else None.

(** [u64::div_ceil]. *)
Definition div_ceil (a b : Z) : Z :=
  if a mod b =? 0 then a / b else a / b + 1.

(** [!x] on a [w]-bit integer. *)
Definition wnot (w x : Z) : Z := 2 ^ w - 1 - x.

(** ** Bytes *)

Definition byte_ok (b : Z) : Prop := 0 <= b < 256.

Definition bytes_ok (bs : list Z) : Prop := Forall byte_ok bs.

Definition zlen {A} (l : list A) : Z := Z.of_nat (length l).

(** [uN::to_le_bytes] with [n = N / 8]. *)
Fixpoint le_bytes (n : nat) (x : Z) : list Z :=
  match n with
  | O => []
  | S n' => x mod 256 :: le_bytes n' (x / 256)
  end.

(** [uN::from_le_bytes]. *)
Fixpoint le_val (bs : list Z) : Z :=
  match bs with
  | [] => 0
  | b :: bs' => b + 256 * le_val bs'
  end.

(** [uN::to_be_bytes] and [uN::from_be_bytes]. *)
Definition be_bytes (n : nat) (x : Z) : list Z := rev (le_bytes n x).

Definition be_val (bs : list Z) : Z := le_val (rev bs).

(** [&l[off..off + n]] and [l[off..off + bs.len()].copy_from_slice(bs)], for
    ranges inside the list. *)
Definition slice {A} (off n : nat) (l : list A) : list A := take n (drop off l).

Definition splice {A} (off : nat) (bs l : list A) : list A :=
  take off l ++ bs ++ drop (off + length bs) l.

(** [l.get(i).copied().unwrap_or(0)]. *)
Definition byte_at (l : list Z) (i : nat) : Z := default 0 (l !! i).

(** ** Automation *)

Create HintDb squib discriminated.

(** Case analysis on every match of the context, closing the branches the
    hypotheses contradict. *)
Ltac inv_matches :=
  repeat (case_match; simplify_eq/=); try done.

(** Split boolean comparisons of the code into linear facts. *)
Ltac bool_to_prop :=
  repeat match goal with
  | H : _ && _ = true |- _ => apply andb_true_iff in H as [? ?]
  | H : _ || _ = false |- _ => apply orb_false_iff in H as [? ?]
  | H : negb _ = true |- _ => apply negb_true_iff in H
  | H : negb _ = false |- _ => apply negb_false_iff in H
  | H : (_ <? _) = true |- _ => apply Z.ltb_lt in H
  | H : (_ <? _) = false |- _ => apply Z.ltb_ge in H
  | H : (_ <=? _) = true |- _ => apply Z.leb_le in H
  | H : (_ <=? _) = false |- _ => apply Z.leb_gt in H
  | H : (_ =? _) = true |- _ => apply Z.eqb_eq in H
  | H : (_ =? _) = false |- _ => apply Z.eqb_neq in H
  end.

(** Range goals on machine integers. *)
Ltac solve_u := unfold in_u, byte_ok in *; lia.

(** Weaken a [Forall] hypothesis by linear arithmetic. *)
Ltac weaken_Forall H :=
  eapply Forall_impl; [exact H | intros ? ?; simpl in *; lia].

(** ** Lemmas on results and the monad *)

Lemma let_ok_inv {E A B} (c : result E A) (k : A -> result E B) b :
  (match c with Ok x => k x | Err e => Err e end) = Ok b ->
  exists a, c = Ok a /\ k a = Ok b.
Proof. destruct c; [eauto | done]. Qed.

Lemma map_err_ok {E F A} (f : E -> F) (r : result E A) a : map_err f r = Ok a <-> r = Ok a.
Proof. destruct r; naive_solver. Qed.

Lemma st_bind_ok {S E A B} (c : stm S E A) (k : A -> stm S E B) s s' b :
  st_bind c k s = (s', Ok b) <->
  exists a s1, c s = (s1, Ok a) /\ k a s1 = (s', Ok b).
Proof.
  unfold st_bind. split.
  - destruct (c s) as [s1 [a|e]] eqn:?; naive_solver.
  - intros (a & s1 & -> & ?); done.
Qed.

(** Computations that behave alike from every state. *)
Definition st_eq {S E A} (c d : stm S E A) : Prop := forall s, c s = d s.

#[export] Instance st_eq_equivalence {S E A} : Equivalence (@st_eq S E A).
Proof. split; [by intros c s|by intros c d H s|by intros c d e H K s; rewrite H]. Qed.

#[export] Instance st_bind_proper {S E A B} :
  Proper (st_eq ==> pointwise_relation A st_eq ==> st_eq) (@st_bind S E A B).
Proof. intros c d H k l K s. unfold st_bind. rewrite H. destruct (d s) as [s' [a|e]]; [apply K|done]. Qed.

Lemma st_bind_assoc {S E A B C} (c : stm S E A) (k : A -> stm S E B) (l : B -> stm S E C) :
  st_eq (st_bind (st_bind c k) l) (st_bind c (fun a => st_bind (k a) l)).
Proof. intros s. unfold st_bind. by destruct (c s) as [s' [a|e]]. Qed.

Lemma st_bind_ret {S E A B} (a : A) (k : A -> stm S E B) : st_eq (st_bind (st_ret a) k) (k a).
Proof. by intros s. Qed.

(** ** Loops *)

(** At most [n] rounds of a loop whose body continues with [inl] and returns with [inr]. *)
Fixpoint iter_n {S B} (n : nat) (f : S -> S + B) (s : S) : S + B :=
  match n with
  | O => inl s
  | Datatypes.S n => match f s with inl s' => iter_n n f s' | inr b => inr b end
  end.

(** At most [2 ^ d] rounds, with a recursion only [d] deep. *)
Fixpoint iter_pow2 {S B} (d : nat) (f : S -> S + B) (s : S) : S + B :=
  match d with
  | O => f s
  | Datatypes.S d => match iter_pow2 d f s with inl s' => iter_pow2 d f s' | inr b => inr b end
  end.

Lemma iter_n_add {S B} m n (f : S -> S + B) s :
  iter_n (m + n) f s = match iter_n m f s with inl s' => iter_n n f s' | inr b => inr b end.
Proof. revert s. induction m as [|m IH]; intros s; cbn; [done|]. by destruct (f s). Qed.

Lemma iter_pow2_n {S B} d (f : S -> S + B) s : iter_pow2 d f s = iter_n (2 ^ d) f s.
Proof.
  revert s. induction d as [|d IH]; intros s; cbn [iter_pow2]; [cbn; by destruct (f s)|].
  rewrite Nat.pow_succ_r', <- Nat.double_twice. unfold Nat.double. rewrite iter_n_add, IH.
  destruct (iter_n (2 ^ d) f s); [apply IH|done].
Qed.

(** Enough rounds for a loop over a budget. *)
Definition rounds (budget : Z) : nat := Datatypes.S (Z.to_nat (Z.log2 budget)).

Lemma rounds_spec budget : 0 <= budget -> budget < Z.of_nat (2 ^ rounds budget).
Proof.
  intros Hb. unfold rounds. rewrite Nat2Z.inj_pow. change (Z.of_nat 2) with 2.
  rewrite Nat2Z.inj_succ, Z2Nat.id by apply Z.log2_nonneg.
  destruct (decide (budget = 0)) as [->|]; [done|]. apply Z.log2_spec. lia.
Qed.

(** ** Lemmas on machine integers *)

Lemma pow2_pos w : 0 <= w -> 0 < 2 ^ w.
Proof. intros; apply Z.pow_pos_nonneg; lia. Qed.

Lemma wrap_small w x : in_u w x -> wrap w x = x.
Proof. intros; apply Z.mod_small; done. Qed.

Lemma wrap_in_u w x : 0 <= w -> in_u w (wrap w x).
Proof. intros; apply Z.mod_pos_bound, pow2_pos; done. Qed.

Lemma in_ub_spec w x : in_ub w x = true <-> in_u w x.
Proof. unfold in_ub, in_u. rewrite andb_true_iff, Z.leb_le, Z.ltb_lt. done. Qed.

Lemma wrap_eq_sub w x y :
  0 <= w -> in_u w x -> in_u w y -> wrap w (x - y) = 0 -> x = y.
Proof.
  intros Hw Hx Hy H. unfold wrap, in_u in *.
  apply Z.mod_divide in H; [|pose proof (pow2_pos w Hw); lia].
  destruct H as [k Hk]. assert (k = 0) by nia. lia.
Qed.

Lemma is_power_of_two_spec x :
  is_power_of_two x = true <-> exists k, 0 <= k /\ x = 2 ^ k.
Proof.
  unfold is_power_of_two. rewrite andb_true_iff, Z.ltb_lt, Z.eqb_eq. split.
  - intros [? Hx]. exists (Z.log2 x). split; [apply Z.log2_nonneg | lia].
  - intros (k & ? & ->). split; [apply pow2_pos; lia|]. by rewrite Z.log2_pow2.
Qed.

Lemma div_ceil_spec a b :
  0 <= a -> 0 < b -> (div_ceil a b - 1) * b < a <= div_ceil a b * b \/ (a = 0 /\ div_ceil a b = 0).
Proof.
  intros Ha Hb. unfold div_ceil.
  pose proof (Z.div_mod a b ltac:(lia)). pose proof (Z.mod_pos_bound a b Hb).
  destruct (Z.eqb_spec (a mod b) 0); nia.
Qed.

Lemma land_ones_wrap w x : 0 <= w -> Z.land x (2 ^ w - 1) = wrap w x.
Proof. intros. unfold wrap. rewrite <- Z.land_ones, Z.ones_equiv by done. f_equal; lia. Qed.

(** Testing a bit with the usual [x & (1 << n) != 0]. *)
Lemma land_pow2_testbit x n :
  0 <= n -> (Z.land x (2 ^ n) =? 0) = negb (Z.testbit x n).
Proof.
  intros Hn. destruct (Z.testbit x n) eqn:Hb; simpl.
  - apply Z.eqb_neq. intros H.
    apply (f_equal (fun z => Z.testbit z n)) in H.
    rewrite Z.land_spec, Hb, Z.pow2_bits_true, Z.bits_0 in H; done.
  - apply Z.eqb_eq. apply Z.bits_inj_0. intros i.
    rewrite Z.land_spec. destruct (decide (i = n)) as [->|].
    + by rewrite Hb.
    + rewrite Z.pow2_bits_false by done. apply andb_false_r.
Qed.

Lemma wnot_testbit w x i :
  0 <= w -> in_u w x -> 0 <= i < w -> Z.testbit (wnot w x) i = negb (Z.testbit x i).
Proof.
  intros Hw Hx Hi. unfold wnot.
  replace (2 ^ w - 1 - x) with (Z.lnot x + 1 * 2 ^ w) by (unfold Z.lnot; lia).
  rewrite <- (Z.mod_pow2_bits_low _ w) by lia.
  rewrite Z_mod_plus_full, Z.mod_pow2_bits_low by lia.
  apply Z.lnot_spec; lia.
Qed.

Lemma in_u_testbit_high w x i : 0 <= w -> in_u w x -> w <= i -> Z.testbit x i = false.
Proof.
  intros Hw [H0 H1] Hi. rewrite <- (Z.mod_small x (2 ^ w)) by lia.
  apply Z.mod_pow2_bits_high. lia.
Qed.

Lemma in_u_bits w x :
  0 <= w -> 0 <= x -> (forall i, w <= i -> Z.testbit x i = false) -> in_u w x.
Proof.
  intros Hw Hx Hbits. split; [done|].
  destruct (decide (x = 0)) as [->|]; [by apply pow2_pos|].
  apply Z.log2_lt_pow2; [lia|].
  destruct (decide (w <= Z.log2 x)) as [Hle|]; [|lia].
  specialize (Hbits _ Hle). rewrite Z.bit_log2 in Hbits by lia. done.
Qed.

(** [x & !(align - 1)] rounds down to a multiple of a power of two. *)
Lemma land_wnot_align w x k :
  0 <= k < w -> in_u w x -> Z.land x (wnot w (2 ^ k - 1)) = x - x mod 2 ^ k.
Proof.
  intros Hk Hx.
  assert (Hu : in_u w (2 ^ k - 1)).
  { pose proof (pow2_pos k). pose proof (Z.pow_lt_mono_r 2 k w). unfold in_u. lia. }
  replace (x - x mod 2 ^ k) with (Z.shiftl (Z.shiftr x k) k).
  2:{ rewrite Z.shiftl_mul_pow2, Z.shiftr_div_pow2 by lia.
      pose proof (Z.div_mod x (2 ^ k) ltac:(apply Z.pow_nonzero; lia)). lia. }
  apply Z.bits_inj. intros i. rewrite Z.land_spec.
  destruct (decide (i < 0)); [by rewrite !Z.testbit_neg_r by lia|].
  rewrite Z.shiftl_spec by lia. destruct (decide (i < w)) as [Hi|Hi].
  - rewrite wnot_testbit by (done || lia).
    replace (2 ^ k - 1) with (Z.ones k) by (rewrite Z.ones_equiv; lia).
    destruct (decide (i < k)).
    + rewrite Z.ones_spec_low, (Z.testbit_neg_r _ (i - k)) by lia. apply andb_false_r.
    + rewrite Z.ones_spec_high, Z.shiftr_spec by lia.
      rewrite andb_true_r. f_equal; lia.
  - rewrite Z.shiftr_spec by lia. replace (i - k + k) with i by lia.
    by rewrite (in_u_testbit_high w x) by (done || lia).
Qed.

Lemma in_u_land w x y : 0 <= w -> in_u w x -> 0 <= y -> in_u w (Z.land x y).
Proof.
  intros Hw Hx Hy. apply in_u_bits; [done| |].
  - apply Z.land_nonneg. left. apply Hx.
  - intros i Hi. rewrite Z.land_spec, (in_u_testbit_high w x) by done. done.
Qed.

Lemma in_u_lor w x y : 0 <= w -> in_u w x -> in_u w y -> in_u w (Z.lor x y).
Proof.
  intros Hw Hx Hy. apply in_u_bits; [done| |].
  - apply Z.lor_nonneg. split; [apply Hx | apply Hy].
  - intros i Hi. rewrite Z.lor_spec, !(in_u_testbit_high w) by done. done.
Qed.

(** Or-ing a value into the free low bits adds it. *)
Lemma lor_mul_pow2 k h l :
  0 <= k -> 0 <= l < 2 ^ k -> Z.lor (h * 2 ^ k) l = h * 2 ^ k + l.
Proof.
  intros Hk Hl.
  assert (Hd : Z.land (h * 2 ^ k) l = 0).
  { apply Z.bits_inj_0. intros i. rewrite Z.land_spec.
    destruct (decide (i < k)).
    - rewrite Z.mul_pow2_bits_low by lia. done.
    - rewrite (in_u_testbit_high k l) by (done || lia). apply andb_false_r. }
  rewrite <- Z.lxor_lor by done. symmetry. by apply Z.add_nocarry_lxor.
Qed.

(** ** Lemmas on bytes *)

Lemma le_bytes_length n x : length (le_bytes n x) = n.
Proof. revert x; induction n; simpl; auto. Qed.

Lemma le_bytes_ok n x : bytes_ok (le_bytes n x).
Proof.
  revert x; induction n; intros x; simpl; constructor; [|apply IHn].
  apply Z.mod_pos_bound; lia.
Qed.

Lemma le_val_bytes n x : le_val (le_bytes n x) = x mod 256 ^ Z.of_nat n.
Proof.
  revert x; induction n as [|n IH]; intros x.
  - by rewrite Z.mod_1_r.
  - cbn [le_bytes le_val]. rewrite IH, Nat2Z.inj_succ, Z.pow_succ_r by lia.
    rewrite Z.rem_mul_r by (try apply Z.pow_nonzero; lia). lia.
Qed.

Lemma le_val_app a b : le_val (a ++ b) = le_val a + 256 ^ zlen a * le_val b.
Proof.
  unfold zlen. induction a as [|x a IH]; cbn [app le_val length]; [lia|].
  rewrite IH, Nat2Z.inj_succ, Z.pow_succ_r by lia. lia.
Qed.

Lemma le_val_zeros l : Forall (eq 0) l -> le_val l = 0.
Proof. induction 1 as [|? ? <- _ IH]; cbn [le_val]; lia. Qed.

Lemma le_val_bound bs : bytes_ok bs -> 0 <= le_val bs < 256 ^ zlen bs.
Proof.
  unfold zlen. induction 1 as [|b bs Hb _ IH]; [done|].
  cbn [le_val length]. rewrite Nat2Z.inj_succ, Z.pow_succ_r by lia.
  unfold byte_ok in Hb. lia.
Qed.

Lemma le_bytes_val bs : bytes_ok bs -> le_bytes (length bs) (le_val bs) = bs.
Proof.
  induction 1 as [|b bs Hb _ IH]; [done|]. cbn [le_bytes le_val length].
  unfold byte_ok in Hb. f_equal.
  - rewrite Z.mul_comm, Z_mod_plus_full. apply Z.mod_small; lia.
  - rewrite Z.mul_comm, Z_div_plus_full by lia.
    rewrite Z.div_small by lia. rewrite Z.add_0_l. apply IH.
Qed.

Lemma pow256_in_u n x : in_u (8 * Z.of_nat n) x -> 0 <= x < 256 ^ Z.of_nat n.
Proof. unfold in_u. rewrite Z.pow_mul_r by lia. done. Qed.

Lemma le_val_bytes_id n x : in_u (8 * Z.of_nat n) x -> le_val (le_bytes n x) = x.
Proof. intros. rewrite le_val_bytes. by apply Z.mod_small, pow256_in_u. Qed.

Lemma le_val_in_u bs : bytes_ok bs -> in_u (8 * zlen bs) (le_val bs).
Proof.
  intros H%le_val_bound. unfold in_u. rewrite Z.pow_mul_r by (unfold zlen; lia). done.
Qed.

Lemma be_bytes_length n x : length (be_bytes n x) = n.
Proof. unfold be_bytes. by rewrite length_rev, le_bytes_length. Qed.

Lemma be_bytes_ok n x : bytes_ok (be_bytes n x).
Proof. apply Forall_rev, le_bytes_ok. Qed.

Lemma be_val_bytes_id n x : in_u (8 * Z.of_nat n) x -> be_val (be_bytes n x) = x.
Proof. intros. unfold be_val, be_bytes. rewrite rev_involutive. by apply le_val_bytes_id. Qed.

Lemma be_bytes_val bs : bytes_ok bs -> be_bytes (length bs) (be_val bs) = bs.
Proof.
  intros H. unfold be_val, be_bytes.
  rewrite <- (length_rev bs), le_bytes_val by (by apply Forall_rev).
  apply rev_involutive.
Qed.

Lemma be_val_in_u bs : bytes_ok bs -> in_u (8 * zlen bs) (be_val bs).
Proof.
  intros H. unfold be_val, zlen. rewrite <- length_rev. by apply le_val_in_u, Forall_rev.
Qed.

(** ** Lemmas on slices *)

Section slices.
Context {A : Type}.
Implicit Types (l bs : list A) (off n : nat).

Lemma slice_length off n l : (off + n <= length l)%nat -> length (slice off n l) = n.
Proof. intros. unfold slice. rewrite length_take, length_drop. lia. Qed.

Lemma splice_length off bs l :
  (off + length bs <= length l)%nat -> length (splice off bs l) = length l.
Proof.
  intros. unfold splice. rewrite !length_app, length_take, length_drop. lia.
Qed.

Lemma slice_splice_same off bs l :
  (off + length bs <= length l)%nat -> slice off (length bs) (splice off bs l) = bs.
Proof.
  intros. unfold slice, splice.
  rewrite drop_app_ge, length_take by (rewrite length_take; lia).
  replace (off - off `min` length l)%nat with O by lia.
  by rewrite drop_0, take_app_length.
Qed.

Lemma splice_lookup off bs l i :
  (off + length bs <= length l)%nat ->
  splice off bs l !! i =
  if decide (off <= i < off + length bs)%nat then bs !! (i - off)%nat else l !! i.
Proof.
  intros. unfold splice. case_decide.
  - rewrite lookup_app_r by (rewrite length_take; lia).
    rewrite length_take, lookup_app_l by lia. f_equal; lia.
  - destruct (decide (i < off)%nat).
    + rewrite lookup_app_l by (rewrite length_take; lia). by apply lookup_take_lt.
    + rewrite !lookup_app_r by (rewrite ?length_take; lia).
      rewrite lookup_drop, length_take. f_equal; lia.
Qed.

Lemma slice_lookup off n l i :
  slice off n l !! i = if decide (i < n)%nat then l !! (off + i)%nat else None.
Proof.
  unfold slice. case_decide.
  - by rewrite lookup_take_lt, lookup_drop by done.
  - apply lookup_take_ge. lia.
Qed.

Lemma slice_splice_disjoint off off' n bs l :
  (off + length bs <= length l)%nat ->
  (off' + n <= off \/ off + length bs <= off')%nat ->
  slice off' n (splice off bs l) = slice off' n l.
Proof.
  intros Hb Hd. apply list_eq. intros i.
  rewrite !slice_lookup. case_decide; [|done].
  rewrite splice_lookup by done. case_decide; [lia|done].
Qed.

Lemma slice_app off n1 n2 l :
  slice off (n1 + n2) l = slice off n1 l ++ slice (off + n1) n2 l.
Proof.
  unfold slice. rewrite <- (drop_drop l).
  by rewrite take_take_drop.
Qed.

Lemma slice_slice off k off' n l :
  (off + k <= n)%nat -> slice off k (slice off' n l) = slice (off' + off) k l.
Proof.
  intros. apply list_eq. intros i. rewrite !slice_lookup.
  case_decide; [|done]. case_decide; [|lia]. f_equal; lia.
Qed.

Lemma splice_Forall (P : A -> Prop) off bs l :
  Forall P bs -> Forall P l -> Forall P (splice off bs l).
Proof.
  intros. unfold splice. repeat apply Forall_app_2; auto using Forall_take, Forall_drop.
Qed.

Lemma slice_Forall (P : A -> Prop) off n l : Forall P l -> Forall P (slice off n l).
Proof. intros. by apply Forall_take, Forall_drop. Qed.
End slices.

#[export] Hint Resolve pow2_pos wrap_in_u in_u_land in_u_lor le_bytes_ok be_bytes_ok : squib.
Create Rewrite HintDb lengths.
#[export] Hint Rewrite le_bytes_length be_bytes_length @length_app @length_take @length_drop : lengths.
