(* ===== verification/GuestMem.v ===== *)
(** * Guest-physical memory

    Models [src/crates/core/src/memory.rs] and the errors of
    [src/crates/core/src/error.rs]: guest addresses and half-open guest ranges,
    the [GuestMemory] trait as a class with the little-endian accessors every
    virtio device goes through, the contract the trait documents as the laws
    [GuestMemoryLaws], and the in-process implementation [SliceGuestMemory],
    which is proved to satisfy the contract.  The device files only use the
    class and its laws. *)

From stdpp Require Import base numbers list option.
From Stdlib Require Import ZArith Lia.
From S2P Require Import Prelude.

Local Open Scope Z_scope.
Local Open Scope squib_scope.

(** ** Errors *)

(** [squib_core::Error].  A formatted message is kept as the data it is
    formatted from. *)
Inductive Error :=
| Backend (code : Z)
| MemoryOutOfRange (addr len : Z)
| InvalidProtection
| Unsupported
| InvalidVcpuState
| InvalidArgument (a b : Z).

(** ** Addresses and ranges *)

(** [GuestAddress::align_down]. *)
Definition align_down (addr align : Z) : result Error Z :=
  if negb (is_power_of_two align) then Err (InvalidArgument align 0)
  else Ok (Z.land addr (wnot 64 (align - 1))).

(** [GuestAddress::saturating_add]. *)
Definition addr_saturating_add (addr offset : Z) : Z := saturating_add 64 addr offset.

(** [GuestRange]. *)
Record GuestRange := mkGuestRange { gr_base : Z; gr_size : Z }.

(** [GuestRange::new]. *)
Definition GuestRange_new (base size : Z) : result Error GuestRange :=
  match checked_add 64 base size with
  | Some _ => Ok (mkGuestRange base size)
  | None => Err (InvalidArgument base size)
  end.

(** [GuestRange::end]. *)
Definition gr_end (r : GuestRange) : Z := wadd 64 (gr_base r) (gr_size r).

(** [GuestRange::contains]. *)
Definition gr_contains (r : GuestRange) (addr : Z) : bool :=
  (gr_base r <=? addr) && (addr <? wadd 64 (gr_base r) (gr_size r)).

(** ** The [GuestMemory] trait *)

(** [read] fills a buffer of the given length; [write] stores a slice.  The
    memory is shared by every device, so a write returns the new contents. *)
Class GuestMemory (M : Type) := {
  gm_read : M -> Z -> nat -> result Error (list Z);
  gm_write : M -> Z -> list Z -> result Error M
}.

Section accessors.
Context {M : Type} `{!GuestMemory M}.

Definition read_u16_le (m : M) (addr : Z) : result Error Z :=
  let? b := gm_read m addr 2 in Ok (le_val b).

Definition read_u32_le (m : M) (addr : Z) : result Error Z :=
  let? b := gm_read m addr 4 in Ok (le_val b).

Definition read_u64_le (m : M) (addr : Z) : result Error Z :=
  let? b := gm_read m addr 8 in Ok (le_val b).

Definition write_u16_le (m : M) (addr value : Z) : result Error M :=
  gm_write m addr (le_bytes 2 value).

Definition write_u32_le (m : M) (addr value : Z) : result Error M :=
  gm_write m addr (le_bytes 4 value).

Definition write_u64_le (m : M) (addr value : Z) : result Error M :=
  gm_write m addr (le_bytes 8 value).
End accessors.

(** The ranges [[a, a + n)] and [[b, b + k)] share no byte. *)
Definition disjoint_range (a n b k : Z) : Prop := a + n <= b \/ b + k <= a.

(** The contract of the trait: accesses are byte-accurate (never a partial
    transfer), an access is refused for the same ranges in both directions,
    and a write changes the written range and nothing else. *)
Class GuestMemoryLaws (M : Type) `{!GuestMemory M} := {
  gm_wf : M -> Prop;
  gm_read_length : forall m a n bs, gm_read m a n = Ok bs -> length bs = n;
  gm_read_bytes : forall m a n bs, gm_wf m -> gm_read m a n = Ok bs -> bytes_ok bs;
  gm_write_wf : forall m m' a bs,
    gm_wf m -> bytes_ok bs -> gm_write m a bs = Ok m' -> gm_wf m';
  gm_write_total : forall m a bs v,
    gm_read m a (length bs) = Ok v -> exists m', gm_write m a bs = Ok m';
  gm_write_readable : forall m m' a bs,
    gm_write m a bs = Ok m' -> exists v, gm_read m a (length bs) = Ok v;
  gm_read_write_same : forall m m' a bs,
    gm_write m a bs = Ok m' -> gm_read m' a (length bs) = Ok bs;
  gm_read_write_disjoint : forall m m' a bs b n,
    gm_write m a bs = Ok m' ->
    disjoint_range a (zlen bs) b (Z.of_nat n) ->
    gm_read m' b n = gm_read m b n;
  gm_write_domain : forall m m' a bs b n,
    gm_write m a bs = Ok m' -> is_ok (gm_read m' b n) = is_ok (gm_read m b n);
  gm_read_sub : forall m a n bs off k,
    gm_read m a n = Ok bs -> (off + k <= n)%nat ->
    gm_read m (a + Z.of_nat off) k = Ok (slice off k bs)
}.

(** ** [SliceGuestMemory] *)

Record SliceGuestMemory := mkSlice { sg_base : Z; sg_bytes : list Z }.

(** [SliceGuestMemory::new]: a zero-filled region. *)
Definition SliceGuestMemory_new (base : Z) (size : nat) : SliceGuestMemory :=
  mkSlice base (replicate size 0).

(** [SliceGuestMemory::offset_of]; [usize] is 64 bits wide on the only
    supported target, so both [try_from]s succeed. *)
Definition offset_of (m : SliceGuestMemory) (addr len : Z) : result Error Z :=
  let base := sg_base m in
  let end_ := saturating_add 64 base (zlen (sg_bytes m)) in
  match checked_add 64 addr len with
  | None => Err (MemoryOutOfRange addr len)
  | Some req_end =>
      if (addr <? base) || (end_ <? req_end) then Err (MemoryOutOfRange addr len)
      else Ok (addr - base)
  end.

Definition slice_read (m : SliceGuestMemory) (addr : Z) (n : nat) : result Error (list Z) :=
  let? off := offset_of m addr (Z.of_nat n) in
  Ok (slice (Z.to_nat off) n (sg_bytes m)).

Definition slice_write (m : SliceGuestMemory) (addr : Z) (bs : list Z)
  : result Error SliceGuestMemory :=
  let? off := offset_of m addr (zlen bs) in
  Ok (mkSlice (sg_base m) (splice (Z.to_nat off) bs (sg_bytes m))).

#[export] Instance SliceGuestMemory_GuestMemory : GuestMemory SliceGuestMemory := {
  gm_read := slice_read;
  gm_write := slice_write
}.

(** ** Lemmas *)

(** A granted access lies inside the region: the computed offset is in
    bounds, so neither slice expression of [read] and [write] can panic. *)
Lemma offset_of_ok m addr len off :
  0 <= len -> offset_of m addr len = Ok off ->
  off = addr - sg_base m /\ 0 <= off /\ off + len <= zlen (sg_bytes m) /\ addr + len < 2 ^ 64.
Proof.
  unfold offset_of, checked_add, saturating_add. intros Hl H.
  inv_matches. bool_to_prop. lia.
Qed.

(** Whether an access is granted depends only on the extent of the region. *)
Lemma offset_of_ext m m' addr len :
  sg_base m = sg_base m' -> length (sg_bytes m) = length (sg_bytes m') ->
  offset_of m addr len = offset_of m' addr len.
Proof. unfold offset_of, zlen. by intros -> ->. Qed.

Lemma offset_of_nat m addr n off :
  offset_of m addr (Z.of_nat n) = Ok off -> (Z.to_nat off + n <= length (sg_bytes m))%nat.
Proof.
  intros (_ & ? & ? & _)%offset_of_ok; [|lia]. unfold zlen in *. lia.
Qed.

Lemma slice_write_extent m m' a bs :
  slice_write m a bs = Ok m' ->
  sg_base m = sg_base m' /\ length (sg_bytes m) = length (sg_bytes m').
Proof.
  unfold slice_write. intros (off & Hoff & [= <-])%let_ok_inv. simpl.
  split; [done|]. symmetry. by apply splice_length, (offset_of_nat m a).
Qed.

Lemma slice_read_domain m a n :
  is_ok (slice_read m a n) = is_ok (offset_of m a (Z.of_nat n)).
Proof. unfold slice_read. by destruct (offset_of _ _ _). Qed.

Lemma offset_of_sub m a n off k b :
  offset_of m a (Z.of_nat n) = Ok off -> (b + k <= n)%nat ->
  offset_of m (a + Z.of_nat b) (Z.of_nat k) = Ok (off + Z.of_nat b).
Proof.
  unfold offset_of, checked_add, saturating_add. intros H Hb.
  repeat (case_match; simplify_eq/=); bool_to_prop;
    rewrite ?orb_true_iff in *; rewrite ?Z.ltb_lt in *; try (f_equal; lia); lia.
Qed.

Lemma slice_read_write_disjoint m m' a bs b n :
  slice_write m a bs = Ok m' ->
  disjoint_range a (zlen bs) b (Z.of_nat n) ->
  slice_read m' b n = slice_read m b n.
Proof.
  intros Hw Hd. destruct (slice_write_extent _ _ _ _ Hw) as [Hb Hl].
  unfold slice_read. rewrite <- (offset_of_ext m m') by done.
  destruct (offset_of m b (Z.of_nat n)) as [offb|] eqn:Eb; [|done].
  unfold slice_write in Hw. apply let_ok_inv in Hw as (off & Eo & [= <-]).
  simpl. f_equal. apply slice_splice_disjoint; [by apply (offset_of_nat m a)|].
  apply offset_of_ok in Eb as (-> & ? & ? & _); [|lia].
  apply offset_of_ok in Eo as (-> & ? & ? & _); [|unfold zlen; lia].
  unfold disjoint_range, zlen in *. lia.
Qed.

#[export] Program Instance SliceGuestMemory_laws : GuestMemoryLaws SliceGuestMemory := {
  gm_wf m := bytes_ok (sg_bytes m)
}.
Next Obligation.
  intros m a n bs (off & Eo & [= <-])%let_ok_inv.
  by apply slice_length, (offset_of_nat m a).
Qed.
Next Obligation.
  intros m a n bs Hm (off & Eo & [= <-])%let_ok_inv. by apply slice_Forall.
Qed.
Next Obligation.
  intros m m' a bs Hm Hbs (off & Eo & [= <-])%let_ok_inv. by apply splice_Forall.
Qed.
Next Obligation.
  intros m a bs v (off & Eo & _)%let_ok_inv. simpl. unfold slice_write.
  fold (zlen bs) in Eo. rewrite Eo. eauto.
Qed.
Next Obligation.
  intros m m' a bs (off & Eo & _)%let_ok_inv. simpl. unfold slice_read.
  fold (zlen bs). rewrite Eo. eauto.
Qed.
Next Obligation.
  intros m m' a bs Hw. pose proof (slice_write_extent _ _ _ _ Hw) as [? ?].
  simpl in *. unfold slice_read. fold (zlen bs).
  rewrite <- (offset_of_ext m m') by done.
  unfold slice_write in Hw. apply let_ok_inv in Hw as (off & Eo & [= <-]).
  rewrite Eo. simpl. f_equal.
  by apply slice_splice_same, (offset_of_nat m a).
Qed.
Next Obligation. intros; by eapply slice_read_write_disjoint. Qed.
Next Obligation.
  intros m m' a bs b n Hw. simpl in *. rewrite !slice_read_domain.
  destruct (slice_write_extent _ _ _ _ Hw). by rewrite <- (offset_of_ext m m').
Qed.
Next Obligation.
  intros m a n bs off k (o & Eo & [= <-])%let_ok_inv Hle. simpl. unfold slice_read.
  rewrite (offset_of_sub m a n o k off Eo Hle). f_equal.
  apply offset_of_ok in Eo as (_ & ? & _); [|lia].
  rewrite slice_slice by done. f_equal; lia.
Qed.

(** ** Consequences of the contract for the typed accessors *)

Section typed.
Context {M : Type} `{!GuestMemory M, !GuestMemoryLaws M}.
Implicit Types (m : M).

Lemma gm_read_le_in_u m a n bs :
  gm_wf m -> gm_read m a n = Ok bs -> in_u (8 * Z.of_nat n) (le_val bs).
Proof.
  intros Hm Hr. pose proof (gm_read_length _ _ _ _ Hr) as <-.
  apply le_val_in_u. by eapply gm_read_bytes.
Qed.

Lemma read_u16_in_u m a v : gm_wf m -> read_u16_le m a = Ok v -> in_u 16 v.
Proof. intros Hm (b & Hr & [= <-])%let_ok_inv. by apply (gm_read_le_in_u m a 2). Qed.

Lemma read_u32_in_u m a v : gm_wf m -> read_u32_le m a = Ok v -> in_u 32 v.
Proof. intros Hm (b & Hr & [= <-])%let_ok_inv. by apply (gm_read_le_in_u m a 4). Qed.

Lemma read_u64_in_u m a v : gm_wf m -> read_u64_le m a = Ok v -> in_u 64 v.
Proof. intros Hm (b & Hr & [= <-])%let_ok_inv. by apply (gm_read_le_in_u m a 8). Qed.

Lemma gm_read_le_same m m' a n x :
  in_u (8 * Z.of_nat n) x -> gm_write m a (le_bytes n x) = Ok m' ->
  (let? b := gm_read m' a n in Ok (le_val b)) = Ok x.
Proof.
  intros Hx Hw. apply gm_read_write_same in Hw. rewrite le_bytes_length in Hw.
  rewrite Hw. by rewrite le_val_bytes_id.
Qed.

Lemma read_write_u16 m m' a x : in_u 16 x -> write_u16_le m a x = Ok m' -> read_u16_le m' a = Ok x.
Proof. apply (gm_read_le_same m m' a 2). Qed.

Lemma read_write_u32 m m' a x : in_u 32 x -> write_u32_le m a x = Ok m' -> read_u32_le m' a = Ok x.
Proof. apply (gm_read_le_same m m' a 4). Qed.

Lemma read_write_u64 m m' a x : in_u 64 x -> write_u64_le m a x = Ok m' -> read_u64_le m' a = Ok x.
Proof. apply (gm_read_le_same m m' a 8). Qed.

Lemma gm_write_le_disjoint m m' a k x b n :
  gm_write m a (le_bytes k x) = Ok m' ->
  disjoint_range a (Z.of_nat k) b (Z.of_nat n) ->
  gm_read m' b n = gm_read m b n.
Proof.
  intros Hw Hd. eapply gm_read_write_disjoint; [done|].
  unfold zlen. by rewrite le_bytes_length.
Qed.

Lemma gm_write_le_total m a k x v :
  gm_read m a k = Ok v -> exists m', gm_write m a (le_bytes k x) = Ok m'.
Proof. intros Hr. eapply (gm_write_total m a _ v). by rewrite le_bytes_length. Qed.

Lemma gm_write_le_wf m m' a k x :
  gm_wf m -> gm_write m a (le_bytes k x) = Ok m' -> gm_wf m'.
Proof. intros. eapply gm_write_wf; eauto using le_bytes_ok. Qed.
End typed.

(** ** Address arithmetic *)

(** [align_down] rejects an alignment that is not a power of two and
    otherwise returns the greatest multiple of the alignment that is at most
    the address. *)
Theorem align_down_correct addr align :
  in_u 64 addr -> in_u 64 align ->
  match align_down addr align with
  | Ok r => is_power_of_two align = true /\ r mod align = 0 /\ r <= addr < r + align
  | Err _ => is_power_of_two align = false
  end.
Proof.
  intros Ha Hal. unfold align_down.
  destruct (is_power_of_two align) eqn:Hp; [|done]. simpl. split; [done|].
  apply is_power_of_two_spec in Hp as (k & Hk & ->).
  assert (k < 64). { apply (Z.pow_lt_mono_r_iff 2); [lia|lia|apply Hal]. }
  rewrite land_wnot_align by (done || lia).
  pose proof (Z.mod_pos_bound addr (2 ^ k) ltac:(apply pow2_pos; lia)).
  split; [|lia].
  rewrite Zminus_mod, Z.mod_mod by (apply Z.pow_nonzero; lia).
  by rewrite Z.sub_diag, Z.mod_0_l by (apply Z.pow_nonzero; lia).
Qed.

Lemma align_down_correct_witness :
  align_down 0x12345 0x1000 = Ok 0x12000 /\ 0x12000 mod 0x1000 = 0.
Proof.
  pose proof (align_down_correct 0x12345 0x1000
    ltac:(solve_u) ltac:(solve_u)) as H.
  split; [reflexivity|]. vm_compute in H. vm_compute. apply H.
Defined.
