(* ===== verification/Bus.v ===== *)
(** * The MMIO bus

    Models [src/crates/bus/src/range.rs] and [src/crates/bus/src/lib.rs]: the
    half-open ranges ordered by base, the boot-time [BusBuilder] with its
    overlap check, and the frozen [Bus] whose dispatch looks up the candidate
    range with the greatest base not above the address.  A registered device
    is an [Arc<Mutex<dyn BusDevice>>]: the bus keeps handles into a shared
    store, so one device may be registered under several ranges.

    Shown: every bus built by [insert] keeps its ranges sorted and pairwise
    disjoint; the ordered lookup finds exactly the range that covers an
    address (equivalence with a linear search); a dispatch reaches one device
    and leaves every other untouched. *)

From stdpp Require Import base numbers list option gmap.
From Stdlib Require Import ZArith Lia.
From S2P Require Import Prelude.

Local Open Scope Z_scope.
Local Open Scope squib_scope.

(** ** Ranges *)

Record BusRange := mkBusRange { br_base : Z; br_len : Z }.

(** [BusError]. *)
Inductive BusError :=
| Overlap (existing : BusRange)
| ZeroLengthRange
| RangeOverflow
| NoDevice (addr : Z).

(** [BusRange::new]. *)
Definition BusRange_new (base len : Z) : result BusError BusRange :=
  if len =? 0 then Err ZeroLengthRange
  else match checked_add 64 base len with
       | None => Err RangeOverflow
       | Some _ => Ok (mkBusRange base len)
       end.

(** [BusRange::probe]. *)
Definition probe (addr : Z) : BusRange := mkBusRange addr 1.

(** [BusRange::end]. *)
Definition br_end (r : BusRange) : Z := wadd 64 (br_base r) (br_len r).

(** [BusRange::contains]. *)
Definition br_contains (r : BusRange) (addr : Z) : bool :=
  (br_base r <=? addr) && (addr <? br_end r).

(** [BusRange::overlaps]. *)
Definition overlaps (r other : BusRange) : bool :=
  (br_base r <? br_end other) && (br_base other <? br_end r).

(** [Ord for BusRange]: the order looks at the base only. *)
Definition range_cmp (a b : BusRange) : comparison := br_base a ?= br_base b.

(** ** The ordered map [BTreeMap<BusRange, Arc<Mutex<dyn BusDevice>>>] *)

(** A handle into the store of shared devices. *)
Definition handle := nat.

(** Entries in increasing key order. *)
Definition devmap := list (BusRange * handle).

(** [BTreeMap::insert]: an equal key keeps its place and takes the new value. *)
Fixpoint map_insert (k : BusRange) (v : handle) (m : devmap) : devmap :=
  match m with
  | [] => [(k, v)]
  | (k', v') :: m' =>
      match range_cmp k k' with
      | Lt => (k, v) :: m
      | Eq => (k', v) :: m'
      | Gt => (k', v') :: map_insert k v m'
      end
  end.

(** [map.range(..=k).next_back()]. *)
Fixpoint range_to_next_back (k : BusRange) (m : devmap) : option (BusRange * handle) :=
  match m with
  | [] => None
  | (k', v') :: m' =>
      match range_cmp k' k with
      | Gt => None
      | _ => match range_to_next_back k m' with
             | Some e => Some e
             | None => Some (k', v')
             end
      end
  end.

(** ** Building and dispatching *)

(** The [for existing in self.devices.keys()] loop of [insert]. *)
Fixpoint check_overlap (new_range : BusRange) (m : devmap) : result BusError unit :=
  match m with
  | [] => Ok tt
  | (existing, _) :: m' =>
      if overlaps existing new_range then Err (Overlap existing)
      else check_overlap new_range m'
  end.

(** [BusBuilder::insert]. *)
Definition insert (m : devmap) (device : handle) (base len : Z) : result BusError devmap :=
  let? new_range := BusRange_new base len in
  let? _ := check_overlap new_range m in
  Ok (map_insert new_range device m).

(** [Bus::resolve]. *)
Definition resolve (m : devmap) (addr : Z) : result BusError (Z * handle) :=
  match range_to_next_back (probe addr) m with
  | None => Err (NoDevice addr)
  | Some (range, dev) =>
      if br_contains range addr then Ok (addr - br_base range, dev)
      else Err (NoDevice addr)
  end.

(** The [BusDevice] trait: [read] fills the buffer it is given. *)
Class BusDevice (D : Type) := {
  bd_read : D -> Z -> list Z -> D * list Z;
  bd_write : D -> Z -> list Z -> D
}.

Section dispatch.
Context {D : Type} `{!BusDevice D}.

(** [Bus::read]: the buffer is untouched when no device answers. *)
Definition bus_read (m : devmap) (st : gmap handle D) (addr : Z) (data : list Z)
  : result BusError unit * gmap handle D * list Z :=
  match resolve m addr with
  | Err e => (Err e, st, data)
  | Ok (offset, dev) =>
      match st !! dev with
      | Some d => let '(d', data') := bd_read d offset data in
                  (Ok tt, <[dev := d']> st, data')
      | None => (Ok tt, st, data)
      end
  end.

(** [Bus::write]. *)
Definition bus_write (m : devmap) (st : gmap handle D) (addr : Z) (data : list Z)
  : result BusError unit * gmap handle D :=
  match resolve m addr with
  | Err e => (Err e, st)
  | Ok (offset, dev) =>
      match st !! dev with
      | Some d => (Ok tt, <[dev := bd_write d offset data]> st)
      | None => (Ok tt, st)
      end
  end.
End dispatch.

(** ** Invariant *)

(** A range accepted by [BusRange::new]. *)
Definition range_ok (r : BusRange) : Prop :=
  0 <= br_base r /\ 0 < br_len r /\ br_base r + br_len r < 2 ^ 64.

(** Sorted and pairwise disjoint: each entry ends before the next begins. *)
Inductive bus_inv : devmap -> Prop :=
| bus_inv_nil : bus_inv []
| bus_inv_cons r d m :
    range_ok r ->
    Forall (fun e => br_base r + br_len r <= br_base e.1) m ->
    bus_inv m -> bus_inv ((r, d) :: m).

#[export] Hint Constructors bus_inv : squib.

(** The devices a sequence of boot-time [insert]s can produce. *)
Inductive built : devmap -> Prop :=
| built_new : built []
| built_insert m m' d base len :
    built m -> in_u 64 base -> in_u 64 len ->
    insert m d base len = Ok m' -> built m'.

(** The specification of [resolve]: a linear search for a covering range. *)
Fixpoint resolve_spec (m : devmap) (addr : Z) : result BusError (Z * handle) :=
  match m with
  | [] => Err (NoDevice addr)
  | (r, d) :: m' =>
      if (br_base r <=? addr) && (addr <? br_base r + br_len r)
      then Ok (addr - br_base r, d)
      else resolve_spec m' addr
  end.

(** ** Lemmas *)

Lemma br_end_ok r : range_ok r -> br_end r = br_base r + br_len r.
Proof. intros (? & ? & ?). apply wrap_small. unfold in_u. lia. Qed.

Lemma BusRange_new_ok base len r :
  in_u 64 base -> in_u 64 len -> BusRange_new base len = Ok r ->
  range_ok r /\ r = mkBusRange base len.
Proof.
  unfold BusRange_new, checked_add, in_u. intros Hb Hl H.
  repeat (case_match; simplify_eq/=); bool_to_prop.
  split; [|done]. unfold range_ok; simpl. lia.
Qed.

Lemma overlaps_false a b :
  range_ok a -> range_ok b -> overlaps a b = false ->
  br_base a + br_len a <= br_base b \/ br_base b + br_len b <= br_base a.
Proof.
  intros Ha Hb. unfold overlaps. rewrite !br_end_ok by done.
  rewrite andb_false_iff, !Z.ltb_ge. lia.
Qed.

Lemma check_overlap_ok r m :
  check_overlap r m = Ok tt -> Forall (fun e => overlaps e.1 r = false) m.
Proof.
  induction m as [|[k v] m IH]; simpl; [done|].
  destruct (overlaps k r) eqn:E; [done|]. auto.
Qed.

Lemma map_insert_Forall (P : BusRange * handle -> Prop) k v m :
  (forall k', br_base k' = br_base k -> P (k', v)) -> Forall P m -> Forall P (map_insert k v m).
Proof.
  intros Hk. induction 1 as [|[k' v'] m He Hm IH]; simpl; [auto|].
  unfold range_cmp. destruct (Z.compare_spec (br_base k) (br_base k')); auto.
Qed.

Lemma map_insert_inv r d m :
  range_ok r -> bus_inv m -> Forall (fun e => overlaps e.1 r = false) m ->
  bus_inv (map_insert r d m).
Proof.
  intros Hr. induction 1 as [|k v m Hk Hm Hinv IH]; intros Ho; simpl.
  - auto with squib.
  - inversion Ho as [|? ? Hov Ho']; subst; simpl in *.
    apply overlaps_false in Hov; [|done..].
    unfold range_cmp. destruct Hk as (? & ? & ?), Hr as (? & ? & ?).
    destruct (Z.compare_spec (br_base r) (br_base k)); [lia| |].
    + constructor; [done| |constructor; done].
      constructor; [simpl; lia|]. weaken_Forall Hm.
    + constructor; [done| |by apply IH].
      apply map_insert_Forall; [simpl; intros; lia|done].
Qed.

Lemma insert_inv m m' d base len :
  bus_inv m -> in_u 64 base -> in_u 64 len -> insert m d base len = Ok m' -> bus_inv m'.
Proof.
  intros Hm Hb Hl H. unfold insert in H.
  apply let_ok_inv in H as (r & Hr & H).
  apply let_ok_inv in H as ([] & Hc & [= <-]).
  apply BusRange_new_ok in Hr as [Hr _]; [|done..].
  apply map_insert_inv; auto using check_overlap_ok.
Qed.

Lemma built_inv m : built m -> bus_inv m.
Proof. induction 1; eauto using insert_inv with squib. Qed.

Lemma resolve_spec_above m addr :
  Forall (fun e => addr < br_base e.1) m -> resolve_spec m addr = Err (NoDevice addr).
Proof.
  induction 1 as [|[k v] m He _ IH]; [done|]. cbn [resolve_spec fst] in *.
  destruct (Z.leb_spec (br_base k) addr); [lia|done].
Qed.

Lemma next_back_above m addr :
  Forall (fun e => addr < br_base e.1) m -> range_to_next_back (probe addr) m = None.
Proof.
  destruct 1 as [|[k v] m He]; [done|]. simpl in *. unfold range_cmp, probe; simpl.
  destruct (Z.compare_spec (br_base k) addr); [lia|lia|done].
Qed.

(** The candidate with the greatest base not above [addr] is the only one
    that can cover [addr]. *)
Lemma resolve_eq_spec m addr : bus_inv m -> resolve m addr = resolve_spec m addr.
Proof.
  induction 1 as [|k v m Hk Hm Hinv IH]; [done|].
  unfold resolve in *. cbn [range_to_next_back resolve_spec].
  unfold range_cmp at 1. cbn [probe br_base].
  destruct (Z.compare_spec (br_base k) addr) as [He|Hlt|Hgt].
  1,2: destruct (Z.ltb_spec addr (br_base k + br_len k)) as [Hin|Hout].
  - (* the head covers the address *)
    rewrite next_back_above.
    + unfold br_contains. rewrite br_end_ok by done.
      by rewrite (proj2 (Z.ltb_lt _ _) Hin), (proj2 (Z.leb_le _ _)) by lia.
    + weaken_Forall Hm.
  - destruct Hk as (? & ? & ?). lia.
  - rewrite next_back_above.
    + unfold br_contains. rewrite br_end_ok by done.
      by rewrite (proj2 (Z.ltb_lt _ _) Hin), (proj2 (Z.leb_le _ _)) by lia.
    + weaken_Forall Hm.
  - rewrite andb_false_r, <- IH.
    destruct (range_to_next_back (probe addr) m) as [[k' v']|] eqn:E; [done|].
    unfold br_contains. rewrite br_end_ok by done.
    by rewrite (proj2 (Z.ltb_ge _ _) Hout), andb_false_r.
  - destruct (Z.leb_spec (br_base k) addr); [lia|]. cbn [andb].
    rewrite <- IH. rewrite next_back_above; [done|].
    destruct Hk as (? & ? & ?). weaken_Forall Hm.
Qed.

Lemma resolve_spec_ok m addr off d :
  bus_inv m ->
  resolve_spec m addr = Ok (off, d) <->
  exists r, (r, d) ∈ m /\ br_base r <= addr < br_base r + br_len r /\ off = addr - br_base r.
Proof.
  induction 1 as [|k v m Hk Hm Hinv IH]; simpl.
  - split; [done|]. intros (r & H%elem_of_nil & _); done.
  - destruct (andb _ _) eqn:E; bool_to_prop.
    + split.
      * intros [= <- <-]. exists k. rewrite elem_of_cons. eauto.
      * intros (r & Hr & Hin & ->). apply elem_of_cons in Hr as [[= -> ->]|Hr]; [done|].
        rewrite Forall_forall in Hm. specialize (Hm _ Hr). simpl in Hm. lia.
    + rewrite IH. rewrite andb_false_iff, Z.leb_gt, Z.ltb_ge in E.
      setoid_rewrite elem_of_cons. split.
      * intros (r & ? & ?). eauto.
      * intros (r & [[= -> ->]|?] & ? & ?); [lia|eauto].
Qed.

Lemma in_resolve_unique m addr r d r' d' :
  bus_inv m -> (r, d) ∈ m -> (r', d') ∈ m ->
  br_base r <= addr < br_base r + br_len r ->
  br_base r' <= addr < br_base r' + br_len r' -> (r, d) = (r', d').
Proof.
  induction 1 as [|k v m Hk Hm Hinv IH]; intros H1 H2 Hr Hr'.
  - by apply elem_of_nil in H1.
  - rewrite Forall_forall in Hm.
    apply elem_of_cons in H1 as [[= -> ->]|H1]; apply elem_of_cons in H2 as [[= -> ->]|H2];
      [done| | |by apply IH].
    + specialize (Hm _ H2); simpl in Hm; lia.
    + specialize (Hm _ H1); simpl in Hm; lia.
Qed.

Lemma check_overlap_err r m e :
  check_overlap r m = Err e -> exists k v, e = Overlap k /\ (k, v) ∈ m /\ overlaps k r = true.
Proof.
  induction m as [|[k v] m IH]; simpl; [done|]. intros H.
  destruct (overlaps k r) eqn:E; simplify_eq.
  - exists k, v. rewrite elem_of_cons. eauto.
  - destruct (IH H) as (k' & v' & ? & ? & ?). exists k', v'. rewrite elem_of_cons. eauto.
Qed.

Lemma bus_inv_ranges m : bus_inv m -> Forall (fun e => range_ok e.1) m.
Proof. induction 1; auto. Qed.

Lemma map_insert_perm r d m :
  (forall k v, (k, v) ∈ m -> br_base k <> br_base r) ->
  Permutation (map_insert r d m) ((r, d) :: m).
Proof.
  induction m as [|[k v] m IH]; intros Hne; simpl; [done|].
  unfold range_cmp. destruct (Z.compare_spec (br_base r) (br_base k)) as [He| |]; [|done|].
  - destruct (Hne k v); [apply elem_of_cons; auto|done].
  - rewrite IH; [apply Permutation_swap|].
    intros k' v' Hin. apply (Hne k' v'), elem_of_cons; auto.
Qed.

(** ** Theorems *)

(** C6: on every bus that boot-time registration can build, the ordered
    lookup of [Bus::resolve] (greatest base not above the address, then the
    [contains] check) answers exactly like a linear search for the covering
    range, with the offset relative to that range, and fails with [NoDevice]
    exactly when no registered range covers the address. *)
Theorem bus_resolve_correct m addr :
  built m ->
  resolve m addr = resolve_spec m addr /\
  (forall off d, resolve m addr = Ok (off, d) <->
     exists r, (r, d) ∈ m /\ br_base r <= addr < br_base r + br_len r /\ off = addr - br_base r) /\
  (resolve m addr = Err (NoDevice addr) <->
     forall r d, (r, d) ∈ m -> ~ (br_base r <= addr < br_base r + br_len r)).
Proof.
  intros Hm%built_inv. rewrite resolve_eq_spec by done.
  split; [done|]. split; [intros; by apply resolve_spec_ok|]. split.
  - intros He r d Hin Hr.
    assert (resolve_spec m addr = Ok (addr - br_base r, d)) by (apply resolve_spec_ok; eauto).
    congruence.
  - intros Hno. clear Hm. induction m as [|[k v] m IH]; [done|]. simpl.
    destruct (andb _ _) eqn:E; bool_to_prop.
    + destruct (Hno k v); [apply elem_of_cons; auto|lia].
    + apply IH. intros r d Hin. apply (Hno r d). apply elem_of_cons. auto.
Qed.

Lemma bus_resolve_correct_witness :
  exists m, built m /\ resolve m 0x1010 = Ok (0x10, 1%nat) /\ resolve m 0x3000 = Err (NoDevice 0x3000).
Proof.
  set (m1 := [(mkBusRange 0x2000 0x1000, 0%nat)]).
  set (m := [(mkBusRange 0x1000 0x1000, 1%nat); (mkBusRange 0x2000 0x1000, 0%nat)]).
  assert (H1 : built m1).
  { apply (built_insert [] m1 0%nat 0x2000 0x1000 built_new); [solve_u|solve_u|reflexivity]. }
  assert (H : built m).
  { apply (built_insert m1 m 1%nat 0x1000 0x1000 H1); [solve_u|solve_u|reflexivity]. }
  exists m. split; [exact H|].
  rewrite (proj1 (bus_resolve_correct m 0x1010 H)), (proj1 (bus_resolve_correct m 0x3000 H)).
  split; reflexivity.
Defined.

(** [BusBuilder::insert] accepts a registration exactly when the range
    is non-empty, does not overflow the address space and shares no address
    with a range already registered; an [Overlap] error names a range that
    does; and acceptance keeps the invariant and adds exactly that entry. *)
Theorem bus_insert_correct m d base len :
  built m -> in_u 64 base -> in_u 64 len ->
  match insert m d base len with
  | Ok m' =>
      0 < len /\ base + len < 2 ^ 64 /\
      (forall r h, (r, h) ∈ m -> br_base r + br_len r <= base \/ base + len <= br_base r) /\
      bus_inv m' /\ Permutation m' ((mkBusRange base len, d) :: m)
  | Err ZeroLengthRange => len = 0
  | Err RangeOverflow => 2 ^ 64 <= base + len
  | Err (Overlap r) =>
      exists h, (r, h) ∈ m /\ br_base r < base + len /\ base < br_base r + br_len r
  | Err (NoDevice _) => False
  end.
Proof.
  intros Hm%built_inv Hb Hl.
  destruct (insert m d base len) as [m'|e] eqn:Hins.
  - pose proof (insert_inv _ _ _ _ _ Hm Hb Hl Hins) as Hinv. unfold insert in Hins.
    apply let_ok_inv in Hins as (r & Hr & Hins).
    apply let_ok_inv in Hins as ([] & Hc & [= <-]).
    apply BusRange_new_ok in Hr as [(? & ? & ?) ->]; [|done..]. simpl in *.
    split_and!; [done|done| |done|].
    + intros r h Hin. apply check_overlap_ok in Hc. rewrite Forall_forall in Hc.
      specialize (Hc _ Hin). pose proof (bus_inv_ranges _ Hm) as Hrs.
      rewrite Forall_forall in Hrs. specialize (Hrs _ Hin).
      apply overlaps_false in Hc; done.
    + apply map_insert_perm. intros k v Hin. apply check_overlap_ok in Hc.
      rewrite Forall_forall in Hc. specialize (Hc _ Hin).
      pose proof (bus_inv_ranges _ Hm) as Hrs. rewrite Forall_forall in Hrs.
      specialize (Hrs _ Hin). apply overlaps_false in Hc; [|done..].
      unfold range_ok in *; simpl in *; lia.
  - unfold insert in Hins.
    destruct (BusRange_new base len) as [r|e'] eqn:Hr; simplify_eq/=.
    + destruct (check_overlap r m) as [[]|e'] eqn:Hc; simplify_eq/=.
      apply check_overlap_err in Hc as (k & v & -> & Hin & Ho).
      exists v. split; [done|].
      apply BusRange_new_ok in Hr as [Hr ->]; [|done..].
      pose proof (bus_inv_ranges _ Hm) as Hrs. rewrite Forall_forall in Hrs.
      specialize (Hrs _ Hin). unfold overlaps in Ho. rewrite !br_end_ok in Ho by done.
      bool_to_prop. simpl in *. lia.
    + unfold BusRange_new, checked_add in Hr.
      repeat (case_match; simplify_eq/=); bool_to_prop; lia.
Qed.

Lemma bus_insert_correct_witness :
  built [] /\ insert [] 0%nat 0x1000 0x1000 = Ok [(mkBusRange 0x1000 0x1000, 0%nat)] /\
  bus_inv [(mkBusRange 0x1000 0x1000, 0%nat)].
Proof.
  pose proof (bus_insert_correct [] 0%nat 0x1000 0x1000 built_new
    ltac:(solve_u) ltac:(solve_u)) as H.
  split; [apply built_new|]. split; [reflexivity|]. cbn in H. apply H.
Defined.

Section isolation.
Context {D : Type} `{!BusDevice D}.

(** A bus write that is accepted reaches exactly one registered device,
    the owner of the address: that device's handler runs once with the
    offset inside its range, and every other device keeps its state.  An
    address no range covers changes nothing. *)
Theorem bus_write_single_owner m (st st' : gmap handle D) addr data res :
  built m -> bus_write m st addr data = (res, st') ->
  match res with
  | Ok _ => exists r d, (r, d) ∈ m /\ br_base r <= addr < br_base r + br_len r /\
      (forall r' d', (r', d') ∈ m -> br_base r' <= addr < br_base r' + br_len r' ->
         (r', d') = (r, d)) /\
      st' !! d = (fun x => bd_write x (addr - br_base r) data) <$> st !! d /\
      (forall h, h <> d -> st' !! h = st !! h)
  | Err e => e = NoDevice addr /\ st' = st /\
      forall r d, (r, d) ∈ m -> ~ (br_base r <= addr < br_base r + br_len r)
  end.
Proof.
  intros Hm%built_inv Hw. unfold bus_write in Hw.
  destruct (resolve m addr) as [[off d]|e] eqn:Hr; rewrite resolve_eq_spec in Hr by done.
  - pose proof (proj1 (resolve_spec_ok _ _ _ _ Hm) Hr) as (r & Hin & Hra & ->).
    assert (res = Ok tt) as -> by (destruct (st !! d); simplify_eq; done).
    exists r, d. split_and!; [done|lia|lia| | |].
    + intros r' d' Hin' Hr'. by eapply in_resolve_unique.
    + destruct (st !! d) as [x|] eqn:Hd; simplify_eq/=.
      * by rewrite lookup_insert_eq.
      * done.
    + intros h Hne. destruct (st !! d) as [x|] eqn:Hd; simplify_eq/=; [|done].
      by rewrite lookup_insert_ne.
  - simplify_eq. split_and!; [|done|].
    + clear Hm. induction m as [|[k v] m IH]; simpl in Hr; [by simplify_eq|].
      destruct (andb _ _); [done|auto].
    + intros r d Hin Hra.
      assert (resolve_spec m addr = Ok (addr - br_base r, d)) by (apply resolve_spec_ok; eauto).
      congruence.
Qed.
End isolation.

(** A device that records its writes. *)
Definition recorder := list (Z * list Z).

#[export] Instance recorder_BusDevice : BusDevice recorder := {
  bd_read d _ data := (d, data);
  bd_write d off data := d ++ [(off, data)]
}.

Lemma bus_write_single_owner_witness :
  exists m (st' : gmap handle recorder), built m /\
    bus_write m {[ 0%nat := []; 1%nat := [] ]} 0x1004 [7] = (Ok tt, st') /\
    st' !! 0%nat = Some [(4, [7])] /\ st' !! 1%nat = Some [].
Proof.
  set (m := [(mkBusRange 0x1000 0x1000, 0%nat)]).
  assert (H : built m).
  { apply (built_insert [] m 0%nat 0x1000 0x1000 built_new); [solve_u|solve_u|reflexivity]. }
  pose proof (bus_write_single_owner (D := recorder) m {[ 0%nat := []; 1%nat := [] ]}
    (bus_write m {[ 0%nat := []; 1%nat := [] ]} 0x1004 [7]).2 0x1004 [7] (Ok tt) H eq_refl)
    as (r & d & Hin & Hr & _ & Hd & Hne).
  exists m, (bus_write (D := recorder) m {[ 0%nat := []; 1%nat := [] ]} 0x1004 [7]).2.
  split; [exact H|]. split; [reflexivity|].
  split; reflexivity.
Defined.
