(* ===== verification/Virtqueue.v ===== *)
(** * Split-ring virtqueues

    Models [src/crates/virtio/src/queue.rs]: the queue setup state and its two
    cursors, the available ring the guest driver produces into, the used ring
    the device produces into, and the bounded descriptor-chain iterator.  All
    accesses go through the [GuestMemory] interface; the additions on ring
    addresses are the wrapping [u64] additions of the release build.

    Shown: size negotiation; [pop_avail] is a FIFO dequeue of the driver's
    pending heads; [collect] always terminates and returns exactly the chain
    the descriptor table encodes when it has at most [queue_size] descriptors;
    [push_used] appends to the used ring, publishes the cursor last and touches
    nothing else; a run of completions lands in ring order across the wrap of
    the 16-bit cursor. *)

From stdpp Require Import base numbers list option.
From Stdlib Require Import ZArith Lia.
From S2P Require Import Prelude GuestMem.

Local Open Scope Z_scope.
Local Open Scope squib_scope.

(** ** Constants *)

Definition VIRTQ_DESC_F_NEXT : Z := 1.
Definition VIRTQ_DESC_F_WRITE : Z := 2.
Definition VIRTQ_DESC_F_INDIRECT : Z := 4.

(** ** State *)

Record Queue := mkQueue {
  max_size : Z;
  size : Z;
  ready : bool;
  desc_table_addr : Z;
  avail_ring_addr : Z;
  used_ring_addr : Z;
  next_avail_idx : Z;
  next_used_idx : Z
}.

Record DescriptorChain := mkChain {
  dc_table : Z;
  dc_queue_size : Z;
  dc_head_index : Z;
  dc_current : Z;
  dc_length : Z;
  dc_done : bool
}.

Record Descriptor := mkDesc {
  d_addr : Z;
  d_len : Z;
  d_flags : Z;
  d_next : Z
}.

Inductive QueueError :=
| QueueNotReady
| DescriptorOutOfRange (head size : Z)
| ChainTooLong (size : Z)
| QueueMemory (e : Error).

(** ** Setup operations *)

(** [Queue::new]. *)
Definition Queue_new (max : Z) : Queue := mkQueue max max false 0 0 0 0 0.

(** [Queue::set_size]. *)
Definition set_size (q : Queue) (requested : Z) : Queue :=
  let clamped := Z.min requested (max_size q) in
  let sz :=
    if clamped =? 0 then 1
    else if is_power_of_two clamped then clamped
    else match checked_next_power_of_two 16 clamped with
         | None => Z.shiftl 1 15
         | Some p => Z.max (Z.shiftr p 1) 1
         end in
  mkQueue (max_size q) sz (ready q) (desc_table_addr q) (avail_ring_addr q)
    (used_ring_addr q) (next_avail_idx q) (next_used_idx q).

(** [Queue::is_valid]. *)
Definition is_valid (q : Queue) : bool :=
  ready q && (0 <? size q) && (size q <=? max_size q)
  && negb (desc_table_addr q =? 0) && negb (avail_ring_addr q =? 0)
  && negb (used_ring_addr q =? 0).

(** [Queue::reset]. *)
Definition queue_reset (q : Queue) : Queue :=
  mkQueue (max_size q) (max_size q) false 0 0 0 0 0.

(** [self.next_avail_idx = ..] and [self.next_used_idx = ..]. *)
Definition set_next_avail (q : Queue) (i : Z) : Queue :=
  mkQueue (max_size q) (size q) (ready q) (desc_table_addr q) (avail_ring_addr q)
    (used_ring_addr q) i (next_used_idx q).

Definition set_next_used (q : Queue) (i : Z) : Queue :=
  mkQueue (max_size q) (size q) (ready q) (desc_table_addr q) (avail_ring_addr q)
    (used_ring_addr q) (next_avail_idx q) i.

(** [Descriptor::is_write_only] and [Descriptor::has_next]. *)
Definition is_write_only (d : Descriptor) : bool :=
  negb (Z.land (d_flags d) VIRTQ_DESC_F_WRITE =? 0).

Definition has_next (d : Descriptor) : bool :=
  negb (Z.land (d_flags d) VIRTQ_DESC_F_NEXT =? 0).

(** ** Ring operations *)

Section rings.
Context {M : Type} `{!GuestMemory M}.

(** [Queue::avail_idx]. *)
Definition avail_idx (q : Queue) (m : M) : result QueueError Z :=
  map_err QueueMemory (read_u16_le m (wadd 64 (avail_ring_addr q) 2)).

(** [Queue::avail_ring_entry]. *)
Definition avail_ring_entry (q : Queue) (m : M) (i : Z) : result QueueError Z :=
  let off := (i mod size q) * 2 in
  map_err QueueMemory (read_u16_le m (wadd 64 (wadd 64 (avail_ring_addr q) 4) off)).

(** [Queue::pop_avail]: on an error the queue is left as it was. *)
Definition pop_avail (q : Queue) (m : M)
  : result QueueError (Queue * option DescriptorChain) :=
  if negb (is_valid q) then Err QueueNotReady
  else
    let? driver_idx := avail_idx q m in
    if driver_idx =? next_avail_idx q then Ok (q, None)
    else
      let? head_idx := avail_ring_entry q m (next_avail_idx q) in
      if size q <=? head_idx then Err (DescriptorOutOfRange head_idx (size q))
      else
        Ok (set_next_avail q (wadd 16 (next_avail_idx q) 1),
            Some (mkChain (desc_table_addr q) (size q) head_idx head_idx 0 false)).

(** A [write_*_le(..)?] on the shared memory inside [push_used]. *)
Definition mem_step (f : M -> result Error M) : stm (Queue * M) QueueError unit :=
  fun '(q, m) => match f m with
                 | Ok m' => ((q, m'), Ok tt)
                 | Err e => ((q, m), Err (QueueMemory e))
                 end.

(** [self.next_used_idx = self.next_used_idx.wrapping_add(1)]. *)
Definition bump_used : stm (Queue * M) QueueError unit :=
  fun '(q, m) => ((set_next_used q (wadd 16 (next_used_idx q) 1), m), Ok tt).

(** [Queue::push_used].  The element is written before the cursor is
    published; a failing write leaves what the earlier ones did. *)
Definition push_used (head_index bytes_written : Z) : stm (Queue * M) QueueError unit :=
  let! s := st_get in
  let q := s.1 in
  if negb (is_valid q) then st_fail QueueNotReady
  else
    let slot := next_used_idx q mod size q in
    let elem_addr := wadd 64 (wadd 64 (used_ring_addr q) 4) (slot * 8) in
    let! _ := mem_step (fun m => write_u32_le m elem_addr head_index) in
    let! _ := mem_step (fun m => write_u32_le m (wadd 64 elem_addr 4) bytes_written) in
    let! _ := bump_used in
    let! s' := st_get in
    mem_step (fun m => write_u16_le m (wadd 64 (used_ring_addr q) 2) (next_used_idx s'.1)).

(** The four reads of a descriptor-table entry. *)
Definition read_descriptor (table : Z) (m : M) (i : Z) : result Error Descriptor :=
  let base := wadd 64 table (i * 16) in
  let? addr := read_u64_le m base in
  let? len := read_u32_le m (wadd 64 base 8) in
  let? flags := read_u16_le m (wadd 64 base 12) in
  let? next := read_u16_le m (wadd 64 base 14) in
  Ok (mkDesc addr len flags next).

(** [DescriptorChain::next_descriptor]. *)
Definition next_descriptor (c : DescriptorChain) (m : M)
  : result QueueError (DescriptorChain * option Descriptor) :=
  if dc_done c then Ok (c, None)
  else if dc_queue_size c <=? dc_current c then
    Err (DescriptorOutOfRange (dc_current c) (dc_queue_size c))
  else if dc_queue_size c <=? dc_length c then Err (ChainTooLong (dc_queue_size c))
  else
    let? desc := map_err QueueMemory (read_descriptor (dc_table c) m (dc_current c)) in
    let length' := wadd 16 (dc_length c) 1 in
    let c' :=
      if has_next desc
      then mkChain (dc_table c) (dc_queue_size c) (dc_head_index c) (d_next desc) length' (dc_done c)
      else mkChain (dc_table c) (dc_queue_size c) (dc_head_index c) (dc_current c) length' true in
    Ok (c', Some desc).

(** The [while let Some(d) = self.next_descriptor(mem)?] loop of [collect];
    [None] is running out of fuel. *)
Fixpoint collect_loop (fuel : nat) (c : DescriptorChain) (m : M) (out : list Descriptor)
  : option (result QueueError (list Descriptor)) :=
  match fuel with
  | O => None
  | S fuel' =>
      match next_descriptor c m with
      | Err e => Some (Err e)
      | Ok (_, None) => Some (Ok out)
      | Ok (c', Some d) => collect_loop fuel' c' m (out ++ [d])
      end
  end.

(** [DescriptorChain::collect].  [queue_size + 1] iterations always suffice. *)
Definition collect (c : DescriptorChain) (m : M) : option (result QueueError (list Descriptor)) :=
  collect_loop (S (Z.to_nat (dc_queue_size c))) c m [].
End rings.

(** ** Well-formedness and specifications *)

(** Field ranges of a queue whose device exposes at least one descriptor. *)
Definition queue_wf (q : Queue) : Prop :=
  in_u 16 (max_size q) /\ in_u 16 (size q) /\
  in_u 64 (desc_table_addr q) /\ in_u 64 (avail_ring_addr q) /\ in_u 64 (used_ring_addr q) /\
  in_u 16 (next_avail_idx q) /\ in_u 16 (next_used_idx q).

(** The three rings of a queue do not run past the end of the address space. *)
Definition rings_fit (q : Queue) : Prop :=
  avail_ring_addr q + 6 + 2 * size q <= 2 ^ 64 /\
  used_ring_addr q + 6 + 8 * size q <= 2 ^ 64.

Section specs.
Context {M : Type} `{!GuestMemory M}.

(** The descriptor heads the driver has made available and the device has
    not consumed yet, oldest first: the abstract FIFO. *)
Definition pending (q : Queue) (m : M) (hs : list Z) : Prop :=
  exists idx, avail_idx q m = Ok idx /\
    zlen hs = wrap 16 (idx - next_avail_idx q) /\
    forall i h, hs !! i = Some h ->
      avail_ring_entry q m (wrap 16 (next_avail_idx q + Z.of_nat i)) = Ok h.

(** The chain a descriptor table encodes from index [i]: follow [next] while
    the [NEXT] flag is set, every index being inside the table. *)
Inductive chain_from (table qsize : Z) (m : M) : Z -> list Descriptor -> Prop :=
| chain_last i d :
    i < qsize -> read_descriptor table m i = Ok d -> has_next d = false ->
    chain_from table qsize m i [d]
| chain_next i d ds :
    i < qsize -> read_descriptor table m i = Ok d -> has_next d = true ->
    chain_from table qsize m (d_next d) ds ->
    chain_from table qsize m i (d :: ds).

(** The used-ring element in ring slot [slot]. *)
Definition used_elem (q : Queue) (m : M) (slot : Z) : result Error (Z * Z) :=
  let? h := read_u32_le m (used_ring_addr q + 4 + slot * 8) in
  let? n := read_u32_le m (used_ring_addr q + 8 + slot * 8) in
  Ok (h, n).

(** The cursor the driver reads. *)
Definition used_idx (q : Queue) (m : M) : result Error Z :=
  read_u16_le m (used_ring_addr q + 2).

(** Completing a list of chains, one [push_used] after the other. *)
Fixpoint push_all (es : list (Z * Z)) : stm (Queue * M) QueueError unit :=
  match es with
  | [] => st_ret tt
  | (h, n) :: es' => let! _ := push_used h n in push_all es'
  end.
End specs.

(** ** Size negotiation *)

Lemma pow2_of_bounds c r k :
  0 <= k -> r = 2 ^ k -> r < c -> c <= 2 * r -> is_power_of_two c = false -> c < 2 * r.
Proof.
  intros Hk -> Hlt Hle Hnp.
  destruct (decide (c = 2 * 2 ^ k)) as [->|]; [|lia].
  rewrite <- Z.pow_succ_r in Hnp by done.
  assert (is_power_of_two (2 ^ Z.succ k) = true)
    by (apply is_power_of_two_spec; exists (Z.succ k); lia).
  congruence.
Qed.

(** The round-down branch of [set_size]. *)
Lemma round_down_pow2 c :
  0 < c < 2 ^ 16 -> is_power_of_two c = false ->
  let r := match checked_next_power_of_two 16 c with
           | None => Z.shiftl 1 15
           | Some p => Z.max (Z.shiftr p 1) 1
           end in
  (exists k, 0 <= k /\ r = 2 ^ k) /\ r <= c < 2 * r.
Proof.
  intros Hc Hnp.
  assert (1 < c) as H1.
  { destruct (decide (c = 1)) as [->|]; [by vm_compute in Hnp|lia]. }
  destruct (Z.log2_up_spec c H1) as [Hlo Hhi].
  pose proof (Z.log2_up_pos c H1) as Hup. set (u := Z.log2_up c) in *.
  assert (Hpu : 2 ^ u = 2 * 2 ^ Z.pred u).
  { rewrite <- Z.pow_succ_r by lia. f_equal; lia. }
  pose proof (pow2_pos (Z.pred u) ltac:(lia)).
  pose proof (pow2_of_bounds c (2 ^ Z.pred u) (Z.pred u)
    ltac:(lia) eq_refl ltac:(lia) ltac:(lia) Hnp).
  unfold checked_next_power_of_two. fold u.
  destruct (Z.leb_spec c 1); [lia|].
  destruct (Z.ltb_spec (2 ^ u) (2 ^ 16)) as [Hu|Hu]; cbv zeta.
  - rewrite Z.shiftr_div_pow2, Hpu by lia. change (2 ^ 1) with 2.
    rewrite Z.mul_comm, Z.div_mul by lia.
    rewrite Z.max_l by lia. split; [exists (Z.pred u)|]; lia.
  - assert (Hpred : Z.pred u = 15).
    { apply Z.pow_le_mono_r_iff in Hu; [|lia..].
      assert (Z.pred u < 16) by (apply (Z.pow_lt_mono_r_iff 2); lia). lia. }
    rewrite Hpred in *. change (Z.shiftl 1 15) with (2 ^ 15).
    split; [exists 15|]; lia.
Qed.

Lemma set_size_spec q requested :
  in_u 16 requested -> 1 <= max_size q < 2 ^ 16 ->
  (exists k, 0 <= k /\ size (set_size q requested) = 2 ^ k) /\
  1 <= size (set_size q requested) <= max_size q /\
  (requested <> 0 ->
     size (set_size q requested) <= Z.min requested (max_size q) < 2 * size (set_size q requested)).
Proof.
  unfold in_u. intros Hr Hm. cbn [set_size size].
  set (c := Z.min requested (max_size q)).
  destruct (Z.eqb_spec c 0).
  - split; [exists 0; lia|]. lia.
  - destruct (is_power_of_two c) eqn:Hp.
    + apply is_power_of_two_spec in Hp as (k & Hk & Hc).
      split; [exists k; lia|]. lia.
    + destruct (round_down_pow2 c ltac:(lia) Hp) as [Hk Hb]. split; [exact Hk|].
      cbv zeta in Hb. lia.
Qed.

(** ** The available ring *)

Lemma wrap16_sub_succ a b :
  in_u 16 a -> in_u 16 b -> a <> b ->
  wrap 16 (a - wadd 16 b 1) = wrap 16 (a - b) - 1.
Proof.
  intros Ha Hb Hne. unfold wadd, wrap.
  rewrite Zminus_mod_idemp_r. replace (a - (b + 1)) with (a - b - 1) by lia.
  pose proof (Z.mod_pos_bound (a - b) (2 ^ 16) ltac:(lia)).
  assert ((a - b) mod 2 ^ 16 <> 0) by (intros H0; apply Hne, (wrap_eq_sub 16); done || lia).
  rewrite <- (Zminus_mod_idemp_l (a - b)). apply Z.mod_small. lia.
Qed.

Section proofs.
Context {M : Type} `{!GuestMemory M, !GuestMemoryLaws M}.
Implicit Types (m : M) (q : Queue).

Lemma avail_idx_in_u q m i : gm_wf m -> avail_idx q m = Ok i -> in_u 16 i.
Proof. intros Hm H%map_err_ok. by eapply read_u16_in_u. Qed.

(** [pop_avail] takes the oldest pending head. *)
Lemma pop_avail_pending q m h hs :
  gm_wf m -> queue_wf q -> is_valid q = true -> pending q m (h :: hs) -> h < size q ->
  let q' := set_next_avail q (wadd 16 (next_avail_idx q) 1) in
  pop_avail q m =
    Ok (q', Some (mkChain (desc_table_addr q) (size q) h h 0 false)) /\
  pending q' m hs.
Proof.
  intros Hm Hq Hv (idx & Hidx & Hlen & Hent) Hh q'.
  assert (Hi : in_u 16 idx) by eauto using avail_idx_in_u.
  assert (Hn : in_u 16 (next_avail_idx q)) by apply Hq.
  assert (Hne : idx <> next_avail_idx q).
  { intros ->. rewrite Z.sub_diag in Hlen. unfold zlen, wrap in Hlen. cbn [length] in Hlen.
    rewrite Z.mod_0_l in Hlen by lia. lia. }
  split.
  - unfold pop_avail. rewrite Hv, Hidx. cbn [negb].
    rewrite (proj2 (Z.eqb_neq _ _) Hne).
    specialize (Hent O h eq_refl). rewrite Z.add_0_r, wrap_small in Hent by done.
    rewrite Hent. by rewrite (proj2 (Z.leb_gt _ _) Hh).
  - exists idx. split; [done|]. split.
    + cbn [q' set_next_avail next_avail_idx]. rewrite wrap16_sub_succ by done.
      rewrite <- Hlen. unfold zlen. simpl. lia.
    + intros i h' Hi'. specialize (Hent (S i) h' Hi').
      change (avail_ring_entry q' m) with (avail_ring_entry q m).
      change (next_avail_idx q') with (wadd 16 (next_avail_idx q) 1).
      rewrite <- Hent. f_equal. unfold wadd, wrap.
      rewrite Zplus_mod_idemp_l. f_equal. lia.
Qed.

Lemma pop_avail_empty q m :
  gm_wf m -> queue_wf q -> is_valid q = true -> pending q m [] ->
  pop_avail q m = Ok (q, None).
Proof.
  intros Hm Hq Hv (idx & Hidx & Hlen & _). unfold pop_avail. rewrite Hv, Hidx. simpl.
  assert (idx = next_avail_idx q) as ->.
  { apply (wrap_eq_sub 16); [lia|by eapply avail_idx_in_u|apply Hq|].
    rewrite <- Hlen. done. }
  by rewrite Z.eqb_refl.
Qed.

(** *** Descriptor chains *)

(** Iterations [collect] still needs. *)
Definition chain_fuel (c : DescriptorChain) : nat :=
  if dc_done c then 1 else S (Z.to_nat (dc_queue_size c - dc_length c)).

Definition chain_wf (c : DescriptorChain) : Prop :=
  in_u 16 (dc_queue_size c) /\ 0 <= dc_length c <= dc_queue_size c.

(** One successful step of the iterator. *)
Lemma next_descriptor_some c m c' d :
  chain_wf c -> next_descriptor c m = Ok (c', Some d) ->
  dc_done c = false /\ dc_current c < dc_queue_size c /\ dc_length c < dc_queue_size c /\
  read_descriptor (dc_table c) m (dc_current c) = Ok d /\
  dc_table c' = dc_table c /\ dc_queue_size c' = dc_queue_size c /\
  dc_length c' = dc_length c + 1 /\ dc_done c' = negb (has_next d) /\
  (has_next d = true -> dc_current c' = d_next d).
Proof.
  intros [Hq Hl] H. unfold next_descriptor in H.
  destruct (dc_done c) eqn:Hd; [done|].
  destruct (Z.leb_spec (dc_queue_size c) (dc_current c)); [done|].
  destruct (Z.leb_spec (dc_queue_size c) (dc_length c)); [done|].
  apply let_ok_inv in H as (d' & Hr%map_err_ok & [= <- <-]).
  assert (wadd 16 (dc_length c) 1 = dc_length c + 1) as ->
    by (apply wrap_small; solve_u).
  destruct (has_next d') eqn:Hn; cbn; rewrite ?Hd; split_and!; done.
Qed.

Lemma next_descriptor_none c m c' :
  next_descriptor c m = Ok (c', None) -> dc_done c = true.
Proof.
  unfold next_descriptor. intros H. destruct (dc_done c); [done|].
  repeat (case_match; simplify_eq/=); done.
Qed.

Lemma next_descriptor_wf c m c' d :
  chain_wf c -> next_descriptor c m = Ok (c', Some d) -> chain_wf c'.
Proof.
  intros Hc H. pose proof Hc as [Hq Hl].
  apply next_descriptor_some in H as (_ & _ & ? & _ & _ & Hs & Hn & _); [|done].
  unfold chain_wf. rewrite Hs, Hn. split; [done|lia].
Qed.

Lemma collect_loop_terminates fuel c m out :
  chain_wf c -> (chain_fuel c <= fuel)%nat -> collect_loop fuel c m out <> None.
Proof.
  revert c out. induction fuel as [|fuel IH]; intros c out Hc Hf.
  - unfold chain_fuel in Hf. destruct (dc_done c); lia.
  - simpl. destruct (next_descriptor c m) as [[c' [d|]]|e] eqn:E; [|done|done].
    apply IH; [by eapply next_descriptor_wf|].
    apply next_descriptor_some in E as (Hd & _ & Hlt & _ & _ & Hs & Hn & Hd' & _); [|done].
    unfold chain_fuel in *. rewrite Hd in Hf. rewrite Hs, Hn, Hd'.
    destruct Hc. destruct (has_next d); simpl; lia.
Qed.

Lemma collect_loop_sound fuel c m out ds :
  chain_wf c -> collect_loop fuel c m out = Some (Ok ds) ->
  if dc_done c then ds = out
  else exists ds', ds = out ++ ds' /\
    chain_from (dc_table c) (dc_queue_size c) m (dc_current c) ds' /\
    dc_length c + zlen ds' <= dc_queue_size c.
Proof.
  revert c out. induction fuel as [|fuel IH]; intros c out Hc H; [done|]. simpl in H.
  destruct (next_descriptor c m) as [[c' [d|]]|e] eqn:E; simplify_eq.
  2:{ apply next_descriptor_none in E as ->. done. }
  specialize (IH c' _ (next_descriptor_wf _ _ _ _ Hc E) H).
  apply next_descriptor_some in E
    as (Hd & Hcur & Hlt & Hr & Ht & Hs & Hn & Hd' & Hnext); [|done].
  rewrite Hd, Hd' in *. destruct (has_next d) eqn:Hhn; simpl in IH.
  - destruct IH as (ds' & -> & Hch & Hlen). exists (d :: ds').
    rewrite Ht, Hs, Hn, Hnext in * by done.
    split; [by rewrite <- app_assoc|]. split; [by apply chain_next|].
    unfold zlen in *. simpl. lia.
  - exists [d]. split; [done|]. split; [by apply chain_last|]. unfold zlen. simpl. lia.
Qed.

(** A step of the iterator on a readable in-range descriptor. *)
Lemma next_descriptor_step c m d :
  chain_wf c -> dc_done c = false -> dc_current c < dc_queue_size c ->
  dc_length c < dc_queue_size c ->
  read_descriptor (dc_table c) m (dc_current c) = Ok d ->
  exists c', next_descriptor c m = Ok (c', Some d).
Proof.
  intros Hc Hd Hcur Hl Hr. unfold next_descriptor.
  rewrite Hd, (proj2 (Z.leb_gt _ _) Hcur), (proj2 (Z.leb_gt _ _) Hl), Hr. simpl. eauto.
Qed.

Lemma collect_loop_complete t qs m i ds :
  chain_from t qs m i ds -> forall c fuel out,
  dc_table c = t -> dc_queue_size c = qs -> dc_current c = i ->
  chain_wf c -> dc_done c = false -> dc_length c + zlen ds <= qs ->
  (length ds < fuel)%nat -> collect_loop fuel c m out = Some (Ok (out ++ ds)).
Proof.
  induction 1 as [i d Hi Hr Hn|i d ds Hi Hr Hn Hch IH];
    intros c fuel out Ht Hs Hcur Hc Hd Hlen Hf; subst t qs i; unfold zlen in Hlen;
    cbn [length] in Hlen, Hf; (destruct fuel as [|fuel]; [lia|]);
    destruct (next_descriptor_step c m d Hc Hd Hi ltac:(lia) Hr) as [c' E];
    cbn [collect_loop]; rewrite E;
    pose proof (next_descriptor_wf _ _ _ _ Hc E) as Hc';
    apply next_descriptor_some in E
      as (_ & _ & _ & _ & Ht & Hs & Hl & Hd' & Hnext); [|done| |done];
    rewrite Hn in Hd'; simpl in Hd'.
  - destruct fuel as [|fuel]; [lia|]. cbn [collect_loop]. unfold next_descriptor.
    by rewrite Hd'.
  - rewrite (IH c' fuel); [by rewrite <- app_assoc|done..|by apply Hnext|done|done| |lia].
    unfold zlen. lia.
Qed.

Lemma collect_iff c m :
  chain_wf c -> dc_done c = false -> dc_length c = 0 ->
  collect c m <> None /\
  forall ds, collect c m = Some (Ok ds) <->
    chain_from (dc_table c) (dc_queue_size c) m (dc_current c) ds /\
    zlen ds <= dc_queue_size c.
Proof.
  intros Hc Hd Hl. unfold collect. split.
  - apply collect_loop_terminates; [done|]. unfold chain_fuel. rewrite Hd, Hl. lia.
  - intros ds. split.
    + intros H. apply collect_loop_sound in H; [|done]. rewrite Hd, Hl in H.
      destruct H as (ds' & -> & ? & ?). simpl. split; [done|lia].
    + intros [Hch Hlen]. erewrite collect_loop_complete; eauto; [by rewrite Hl|].
      unfold zlen in Hlen. lia.
Qed.

(** *** The used ring *)

Lemma is_valid_size q : is_valid q = true -> 0 < size q <= max_size q.
Proof. unfold is_valid. intros H. bool_to_prop. lia. Qed.

Lemma wadd64_small a b : 0 <= a -> 0 <= b -> a + b < 2 ^ 64 -> wadd 64 a b = a + b.
Proof. intros. apply wrap_small. solve_u. Qed.

Lemma used_slot_bound q : is_valid q = true -> 0 <= next_used_idx q mod size q < size q.
Proof. intros ?%is_valid_size. apply Z.mod_pos_bound. lia. Qed.

(** The three stores of [push_used], with their addresses. *)
Lemma push_used_unfold q m h n :
  queue_wf q -> rings_fit q -> is_valid q = true ->
  let ea := used_ring_addr q + 4 + (next_used_idx q mod size q) * 8 in
  let q' := set_next_used q (wadd 16 (next_used_idx q) 1) in
  push_used h n (q, m) =
    match write_u32_le m ea h with
    | Err e => ((q, m), Err (QueueMemory e))
    | Ok m1 =>
        match write_u32_le m1 (ea + 4) n with
        | Err e => ((q, m1), Err (QueueMemory e))
        | Ok m2 =>
            match write_u16_le m2 (used_ring_addr q + 2) (next_used_idx q') with
            | Err e => ((q', m2), Err (QueueMemory e))
            | Ok m3 => ((q', m3), Ok tt)
            end
        end
    end.
Proof.
  intros (_ & _ & _ & _ & Hu & _ & _) [_ Hfit] Hv ea q'.
  pose proof (used_slot_bound q Hv). pose proof (is_valid_size q Hv). destruct Hu as [Hu0 _].
  unfold push_used, st_bind, st_get, mem_step, bump_used. cbn [fst]. rewrite Hv. cbn [negb].
  rewrite (wadd64_small (used_ring_addr q) 4) by lia.
  rewrite (wadd64_small (used_ring_addr q + 4)) by lia. fold ea.
  rewrite (wadd64_small ea 4) by lia.
  rewrite (wadd64_small (used_ring_addr q) 2) by lia.
  destruct (write_u32_le m ea h) as [m1|]; [|done].
  destruct (write_u32_le m1 (ea + 4) n) as [m2|]; [|done]. cbn [fst].
  destruct (write_u16_le m2 _ _); done.
Qed.

Lemma read_u32_frame m m' a k x b :
  gm_write m a (le_bytes k x) = Ok m' -> disjoint_range a (Z.of_nat k) b 4 ->
  read_u32_le m' b = read_u32_le m b.
Proof. intros Hw Hd. unfold read_u32_le. by rewrite (gm_write_le_disjoint m m' a k x b 4 Hw Hd). Qed.

Lemma read_u16_frame m m' a k x b :
  gm_write m a (le_bytes k x) = Ok m' -> disjoint_range a (Z.of_nat k) b 2 ->
  read_u16_le m' b = read_u16_le m b.
Proof. intros Hw Hd. unfold read_u16_le. by rewrite (gm_write_le_disjoint m m' a k x b 2 Hw Hd). Qed.

(** Everything a successful [push_used] does. *)
Lemma push_used_effect q m h n q' m' :
  gm_wf m -> queue_wf q -> rings_fit q -> is_valid q = true -> in_u 32 h -> in_u 32 n ->
  push_used h n (q, m) = ((q', m'), Ok tt) ->
  q' = set_next_used q (wadd 16 (next_used_idx q) 1) /\ gm_wf m' /\
  used_elem q m' (next_used_idx q mod size q) = Ok (h, n) /\
  used_idx q m' = Ok (next_used_idx q') /\
  (forall slot, 0 <= slot < size q -> slot <> next_used_idx q mod size q ->
     used_elem q m' slot = used_elem q m slot) /\
  (forall b k, disjoint_range (used_ring_addr q + 2) (2 + 8 * size q) b (Z.of_nat k) ->
     gm_read m' b k = gm_read m b k).
Proof.
  intros Hm Hq Hfit Hv Hh Hn Hp. rewrite push_used_unfold in Hp by done. cbv zeta in Hp.
  pose proof (used_slot_bound q Hv) as Hslot. set (slot := next_used_idx q mod size q) in *.
  set (u := used_ring_addr q) in *.
  destruct (write_u32_le m _ h) as [m1|] eqn:W1; [|done].
  destruct (write_u32_le m1 _ n) as [m2|] eqn:W2; [|done].
  destruct (write_u16_le m2 _ _) as [m3|] eqn:W3; simplify_eq/=.
  assert (Hcur : in_u 16 (wadd 16 (next_used_idx q) 1)) by (apply wrap_in_u; lia).
  split_and!; [done| | | | |].
  - eauto using gm_write_le_wf.
  - unfold used_elem. fold u.
    replace (u + 8 + slot * 8) with (u + 4 + slot * 8 + 4) by lia.
    rewrite (read_u32_frame _ _ _ _ _ _ W3), (read_u32_frame _ _ _ _ _ _ W2)
      by (unfold disjoint_range; lia).
    rewrite (read_write_u32 _ _ _ _ Hh W1).
    rewrite (read_u32_frame _ _ _ _ _ _ W3) by (unfold disjoint_range; lia).
    by rewrite (read_write_u32 _ _ _ _ Hn W2).
  - unfold used_idx. fold u. by rewrite (read_write_u16 _ _ _ _ Hcur W3).
  - intros s Hs Hne. unfold used_elem. fold u.
    rewrite !(read_u32_frame _ _ _ _ _ _ W3), !(read_u32_frame _ _ _ _ _ _ W2),
      !(read_u32_frame _ _ _ _ _ _ W1) by (unfold disjoint_range; lia). done.
  - intros b k Hd. unfold disjoint_range in Hd.
    rewrite (gm_write_le_disjoint _ _ _ _ _ _ _ W3), (gm_write_le_disjoint _ _ _ _ _ _ _ W2),
      (gm_write_le_disjoint _ _ _ _ _ _ _ W1) by (unfold disjoint_range; lia). done.
Qed.

(** A sub-range of a readable range can be written, also after earlier writes. *)
Lemma readable_write_le m0 m a n v b k x :
  gm_read m0 a n = Ok v -> a <= b -> b + Z.of_nat k <= a + Z.of_nat n ->
  (forall c j, is_ok (gm_read m c j) = is_ok (gm_read m0 c j)) ->
  exists m', gm_write m b (le_bytes k x) = Ok m' /\
    forall c j, is_ok (gm_read m' c j) = is_ok (gm_read m0 c j).
Proof.
  intros Hr Hab Hb Hdom.
  pose proof (gm_read_sub m0 a n v (Z.to_nat (b - a)) k Hr ltac:(lia)) as Hs.
  replace (a + Z.of_nat (Z.to_nat (b - a))) with b in Hs by lia.
  specialize (Hdom b k) as Hd. rewrite Hs in Hd.
  destruct (gm_read m b k) as [w|] eqn:E; [|done].
  destruct (gm_write_le_total m b k x w E) as [m' Hw]. exists m'. split; [done|].
  intros c j. rewrite (gm_write_domain _ _ _ _ _ _ Hw). apply Hdom.
Qed.

(** A mapped used ring always accepts a completion. *)
Lemma push_used_total q m h n v :
  queue_wf q -> rings_fit q -> is_valid q = true ->
  gm_read m (used_ring_addr q) (Z.to_nat (4 + 8 * size q)) = Ok v ->
  exists q' m', push_used h n (q, m) = ((q', m'), Ok tt).
Proof.
  intros Hq Hfit Hv Hr. rewrite push_used_unfold by done. cbv zeta.
  pose proof (used_slot_bound q Hv). pose proof (is_valid_size q Hv).
  unfold write_u32_le, write_u16_le.
  destruct (readable_write_le m m _ _ _
    (used_ring_addr q + 4 + next_used_idx q mod size q * 8) 4 h Hr) as (m1 & -> & D1); [lia..|done|].
  destruct (readable_write_le m m1 _ _ _
    (used_ring_addr q + 4 + next_used_idx q mod size q * 8 + 4) 4 n Hr) as (m2 & -> & D2); [lia..|done|].
  destruct (readable_write_le m m2 _ _ _ (used_ring_addr q + 2) 2
    (next_used_idx (set_next_used q (wadd 16 (next_used_idx q) 1))) Hr) as (m3 & -> & D3); [lia..|done|].
  eauto.
Qed.

Lemma wrap16_mod_pow2 x k : 0 <= k <= 16 -> wrap 16 x mod 2 ^ k = x mod 2 ^ k.
Proof.
  intros Hk. unfold wrap. apply Z.mod_mod_divide.
  exists (2 ^ (16 - k)). rewrite <- Z.pow_add_r by lia. f_equal; lia.
Qed.

Lemma mod_add_ne a i n : 0 < i < n -> (a + i) mod n <> a mod n.
Proof.
  intros Hi Heq.
  pose proof (Z.div_mod (a + i) n ltac:(lia)). pose proof (Z.div_mod a n ltac:(lia)).
  assert (Hd : n * ((a + i) / n - a / n) = i) by lia.
  destruct (Z.le_gt_cases ((a + i) / n - a / n) 0); nia.
Qed.

(** The slot of the [i]-th completion after the current cursor. *)
Definition used_slot (q : Queue) (i : nat) : Z := (next_used_idx q + Z.of_nat i) mod size q.

Lemma used_slot_next q k i :
  0 <= k <= 16 -> size q = 2 ^ k ->
  used_slot (set_next_used q (wadd 16 (next_used_idx q) 1)) i = used_slot q (S i).
Proof.
  intros Hk Hs. unfold used_slot. cbn [set_next_used next_used_idx size]. rewrite Hs.
  unfold wadd. rewrite Zplus_mod, wrap16_mod_pow2, <- Zplus_mod by done. f_equal; lia.
Qed.

Lemma set_next_avail_wf q i : queue_wf q -> in_u 16 i -> queue_wf (set_next_avail q i).
Proof. unfold queue_wf. cbn. tauto. Qed.

Lemma set_next_used_wf q i : queue_wf q -> in_u 16 i -> queue_wf (set_next_used q i).
Proof. unfold queue_wf. cbn. tauto. Qed.

Lemma push_all_effect k es : forall q m q' m',
  gm_wf m -> queue_wf q -> rings_fit q -> is_valid q = true ->
  0 <= k <= 16 -> size q = 2 ^ k -> zlen es <= size q ->
  Forall (fun e => in_u 32 e.1 /\ in_u 32 e.2) es ->
  push_all es (q, m) = ((q', m'), Ok tt) ->
  q' = set_next_used q (wrap 16 (next_used_idx q + zlen es)) /\
  (forall i e, es !! i = Some e -> used_elem q m' (used_slot q i) = Ok e) /\
  (forall slot, 0 <= slot < size q -> (forall i, (i < length es)%nat -> slot <> used_slot q i) ->
     used_elem q m' slot = used_elem q m slot) /\
  (es <> [] -> used_idx q m' = Ok (next_used_idx q')).
Proof.
  induction es as [|[h n] es IH]; intros q m q' m' Hm Hq Hfit Hv Hk Hs Hlen Hes Hp.
  - injection Hp as <- <-. split; [|split; [by intros ? ? ?|split; [by intros|by intros []]]].
    unfold zlen. cbn [length Z.of_nat]. rewrite Z.add_0_r, wrap_small by apply Hq. by destruct q.
  - inversion Hes as [|? ? [Hh Hn] Hes']; subst. cbn [push_all] in Hp.
    apply st_bind_ok in Hp as ([] & [q1 m1] & Hp1 & Hp2).
    pose proof (push_used_effect q m h n q1 m1 Hm Hq Hfit Hv Hh Hn Hp1)
      as (-> & Hm1 & He & Hi & Hother & _).
    unfold zlen in Hlen. cbn [length] in Hlen.
    set (q1 := set_next_used q (wadd 16 (next_used_idx q) 1)) in *.
    assert (Hq1 : queue_wf q1) by (apply set_next_used_wf; [done|apply wrap_in_u; lia]).
    destruct (IH q1 m1 q' m') as (-> & Hents & Hrest & Hidx);
      [done..|unfold zlen; cbn; lia|done|done|].
    change (used_elem q1) with (used_elem q) in *. change (used_idx q1) with (used_idx q) in *.
    split_and!.
    + unfold q1, set_next_used. cbn. f_equal. unfold wadd, wrap, zlen.
      rewrite Zplus_mod_idemp_l. f_equal. cbn [length]. lia.
    + intros [|i] e Hlk; cbn in Hlk.
      * simplify_eq. rewrite Hrest.
        -- unfold used_slot. cbn [Z.of_nat]. by rewrite Z.add_0_r.
        -- apply Z.mod_pos_bound. pose proof (is_valid_size q Hv). cbn. lia.
        -- intros i Hlt. unfold q1. rewrite (used_slot_next q k) by done.
           unfold used_slot. cbn [Z.of_nat]. rewrite Z.add_0_r.
           intros Heq. symmetry in Heq. revert Heq. apply mod_add_ne. lia.
      * rewrite <- (used_slot_next q k) by done. by apply Hents.
    + intros slot Hb Hne. rewrite Hrest.
      * apply Hother; [done|]. specialize (Hne O ltac:(cbn; lia)).
        unfold used_slot in Hne. cbn [Z.of_nat] in Hne. by rewrite Z.add_0_r in Hne.
      * done.
      * intros i Hlt. unfold q1. rewrite (used_slot_next q k) by done.
        apply Hne. cbn. lia.
    + intros _. destruct es as [|e es']; [|by apply Hidx].
      injection Hp2 as Hq2 <-. rewrite Hi. f_equal. cbn [set_next_used next_used_idx q1].
      unfold zlen. cbn [length Z.of_nat]. rewrite Z.add_0_r.
      symmetry. apply wrap_small, wrap_in_u. lia.
Qed.
End proofs.

(** ** Theorems *)

(** Whatever the driver writes to [QueueNum], the negotiated size is a
    power of two between 1 and the device's maximum; a power of two within the
    maximum is taken as it is, any other non-zero request is rounded down to
    the nearest power of two (after clamping), and no other field changes. *)
Theorem set_size_correct q requested :
  in_u 16 requested -> 1 <= max_size q < 2 ^ 16 ->
  let q' := set_size q requested in
  is_power_of_two (size q') = true /\ 1 <= size q' <= max_size q /\
  (is_power_of_two requested = true -> requested <= max_size q -> size q' = requested) /\
  (requested <> 0 -> size q' <= Z.min requested (max_size q) < 2 * size q') /\
  q' = mkQueue (max_size q) (size q') (ready q) (desc_table_addr q) (avail_ring_addr q)
         (used_ring_addr q) (next_avail_idx q) (next_used_idx q).
Proof.
  intros Hr Hm q'. destruct (set_size_spec q requested Hr Hm) as (Hk & Hb & Hround).
  split; [|split; [exact Hb|split; [|split; [exact Hround|done]]]].
  - apply is_power_of_two_spec. done.
  - intros Hp Hle. unfold q'. cbn [set_size size]. rewrite Z.min_l, Hp by lia.
    destruct (Z.eqb_spec requested 0) as [->|]; [by vm_compute in Hp|done].
Qed.

Lemma set_size_correct_witness :
  size (set_size (Queue_new 256) 100) = 64 /\ is_power_of_two 64 = true.
Proof.
  pose proof (set_size_correct (Queue_new 256) 100 ltac:(solve_u) ltac:(cbn; lia)) as (H & _).
  split; [reflexivity|]. exact H.
Defined.

Section theorems.
Context {M : Type} `{!GuestMemory M, !GuestMemoryLaws M}.

(** [pop_avail] implements a FIFO dequeue.  With the driver's pending
    heads [hs] (the available-ring entries from the device cursor up to
    [avail.idx], modulo the 16-bit wrap), an empty queue yields no chain, a
    head inside the table yields a fresh chain for the oldest head and leaves
    the rest pending, and a head outside the table is refused. *)
Theorem pop_avail_fifo (q : Queue) (m : M) hs :
  gm_wf m -> queue_wf q -> is_valid q = true -> pending q m hs ->
  match hs with
  | [] => pop_avail q m = Ok (q, None)
  | h :: hs' =>
      if h <? size q then
        exists q', pop_avail q m =
            Ok (q', Some (mkChain (desc_table_addr q) (size q) h h 0 false)) /\
          pending q' m hs' /\ queue_wf q' /\ is_valid q' = true /\
          next_used_idx q' = next_used_idx q
      else pop_avail q m = Err (DescriptorOutOfRange h (size q))
  end.
Proof.
  intros Hm Hq Hv Hp. destruct hs as [|h hs]; [by apply pop_avail_empty|].
  destruct (Z.ltb_spec h (size q)).
  - destruct (pop_avail_pending q m h hs Hm Hq Hv Hp) as [H1 H2]; [done|].
    eexists. split; [exact H1|]. split; [exact H2|]. split_and!; [|exact Hv|done].
    apply set_next_avail_wf; [done|]. apply wrap_in_u. lia.
  - destruct Hp as (idx & Hidx & Hlen & Hent). unfold pop_avail. rewrite Hv, Hidx. cbn [negb].
    destruct (Z.eqb_spec idx (next_avail_idx q)) as [->|].
    + rewrite Z.sub_diag in Hlen. unfold zlen, wrap in Hlen. cbn [length] in Hlen.
      rewrite Z.mod_0_l in Hlen by lia. lia.
    + specialize (Hent O h eq_refl). rewrite Z.add_0_r, wrap_small in Hent by apply Hq.
      rewrite Hent. by rewrite (proj2 (Z.leb_le _ _)) by lia.
Qed.


(** A completion on a mapped used ring always succeeds: the element
    (head, bytes) lands in the slot of the device cursor, the cursor advances
    by one modulo 2^16 and its new value is what the driver reads back,
    every other ring slot keeps its element and no byte outside the ring is
    touched. *)
Theorem push_used_correct (q : Queue) (m : M) h n v :
  gm_wf m -> queue_wf q -> rings_fit q -> is_valid q = true ->
  gm_read m (used_ring_addr q) (Z.to_nat (4 + 8 * size q)) = Ok v ->
  in_u 32 h -> in_u 32 n ->
  exists m', push_used h n (q, m) =
      ((set_next_used q (wadd 16 (next_used_idx q) 1), m'), Ok tt) /\
    gm_wf m' /\
    used_elem q m' (next_used_idx q mod size q) = Ok (h, n) /\
    used_idx q m' = Ok (wadd 16 (next_used_idx q) 1) /\
    (forall slot, 0 <= slot < size q -> slot <> next_used_idx q mod size q ->
       used_elem q m' slot = used_elem q m slot) /\
    (forall b k, disjoint_range (used_ring_addr q + 2) (2 + 8 * size q) b (Z.of_nat k) ->
       gm_read m' b k = gm_read m b k).
Proof.
  intros Hm Hq Hfit Hv Hr Hh Hn.
  destruct (push_used_total q m h n v Hq Hfit Hv Hr) as (q' & m' & Hp).
  destruct (push_used_effect q m h n q' m') as (-> & Hrest); [done..|].
  exists m'. split; [exact Hp|]. exact Hrest.
Qed.

(** Up to one ring of completions lands in ring order.  For a queue
    whose size is a power of two, completing [es] from cursor [c] puts the
    [i]-th element in slot [(c + i) mod size] even when the 16-bit cursor
    wraps in between, publishes the cursor [(c + length es) mod 2^16] and
    leaves every other slot alone. *)
Theorem used_ring_order (q q' : Queue) (m m' : M) es :
  gm_wf m -> queue_wf q -> rings_fit q -> is_valid q = true ->
  is_power_of_two (size q) = true -> zlen es <= size q ->
  Forall (fun e => in_u 32 e.1 /\ in_u 32 e.2) es ->
  push_all es (q, m) = ((q', m'), Ok tt) ->
  next_used_idx q' = wrap 16 (next_used_idx q + zlen es) /\
  (forall i e, es !! i = Some e ->
     used_elem q m' ((next_used_idx q + Z.of_nat i) mod size q) = Ok e) /\
  (forall slot, 0 <= slot < size q ->
     (forall i, (i < length es)%nat -> slot <> (next_used_idx q + Z.of_nat i) mod size q) ->
     used_elem q m' slot = used_elem q m slot) /\
  (es <> [] -> used_idx q m' = Ok (next_used_idx q')).
Proof.
  intros Hm Hq Hfit Hv Hp2 Hlen Hes Hp.
  apply is_power_of_two_spec in Hp2 as (k & Hk & Hs).
  assert (k < 16).
  { apply (Z.pow_lt_mono_r_iff 2); [lia|lia|]. rewrite <- Hs. apply Hq. }
  destruct (push_all_effect k es q m q' m') as (-> & H1 & H2 & H3);
    done || lia.
Qed.
End theorems.

(** ** A concrete queue

    Two descriptors at 16, the available ring at 64, the used ring at 96, the
    device cursor about to wrap; the driver has published the chain 1 -> 0. *)
Definition ex_queue : Queue := mkQueue 2 2 true 16 64 96 65535 65535.

Definition ex_bytes : list Z :=
  replicate 16 0
  ++ (le_bytes 8 200 ++ le_bytes 4 4 ++ le_bytes 2 2 ++ le_bytes 2 0)
  ++ (le_bytes 8 180 ++ le_bytes 4 16 ++ le_bytes 2 1 ++ le_bytes 2 0)
  ++ replicate 16 0
  ++ (le_bytes 2 0 ++ le_bytes 2 0 ++ le_bytes 2 0 ++ le_bytes 2 1)
  ++ replicate 184 0.

Definition ex_mem : SliceGuestMemory := mkSlice 0 ex_bytes.

Lemma ex_bytes_ok : bytes_ok ex_bytes.
Proof.
  repeat first [apply Forall_app_2 | apply le_bytes_ok | (apply Forall_replicate; solve_u) ].
Qed.

Lemma ex_mem_wf : gm_wf ex_mem.
Proof. exact ex_bytes_ok. Qed.

Lemma ex_queue_wf : queue_wf ex_queue.
Proof. repeat split; cbn; lia. Qed.

Lemma ex_rings_fit : rings_fit ex_queue.
Proof. split; cbn; lia. Qed.

Lemma ex_pending : pending ex_queue ex_mem [1].
Proof.
  exists 0. split; [reflexivity|]. split; [reflexivity|].
  intros [|i] h H; [|done]. cbn in H. simplify_eq. reflexivity.
Qed.

Lemma pop_avail_fifo_witness :
  exists q', pop_avail ex_queue ex_mem = Ok (q', Some (mkChain 16 2 1 1 0 false)) /\
    next_avail_idx q' = 0 /\ pending q' ex_mem [].
Proof.
  destruct (pop_avail_fifo ex_queue ex_mem [1] ex_mem_wf ex_queue_wf eq_refl ex_pending)
    as (q' & H & Hp & _).
  exists q'. split; [exact H|]. split; [|exact Hp]. vm_compute in H. by simplify_eq.
Defined.


Lemma push_used_correct_witness :
  exists m', push_used 1 5 (ex_queue, ex_mem) = ((set_next_used ex_queue 0, m'), Ok tt) /\
    used_elem ex_queue m' 1 = Ok (1, 5) /\ used_idx ex_queue m' = Ok 0.
Proof.
  destruct (push_used_correct ex_queue ex_mem 1 5 (slice 96 20 ex_bytes)
    ex_mem_wf ex_queue_wf ex_rings_fit eq_refl eq_refl ltac:(solve_u) ltac:(solve_u))
    as (m' & H & _ & He & Hi & _).
  exists m'. split; [exact H|]. split; [exact He|exact Hi].
Defined.

Lemma used_ring_order_witness :
  exists q' m', push_all [(1, 5); (0, 7)] (ex_queue, ex_mem) = ((q', m'), Ok tt) /\
    next_used_idx q' = 1 /\ used_elem ex_queue m' 1 = Ok (1, 5) /\
    used_elem ex_queue m' 0 = Ok (0, 7).
Proof.
  destruct (push_all [(1, 5); (0, 7)] (ex_queue, ex_mem)) as [[q' m'] r] eqn:E.
  assert (r = Ok tt) as -> by (vm_compute in E; by simplify_eq).
  pose proof (used_ring_order ex_queue q' ex_mem m' [(1, 5); (0, 7)]
    ex_mem_wf ex_queue_wf ex_rings_fit eq_refl eq_refl ltac:(vm_compute; discriminate)
    ltac:(do 2 (apply Forall_cons_2; [cbn; solve_u|]); apply Forall_nil_2) E) as (Hn & He & _).
  exists q', m'. split; [reflexivity|]. split; [exact Hn|].
  split; [exact (He 0%nat _ eq_refl)|exact (He 1%nat _ eq_refl)].
Defined.
