(* ===== verification/Arch.v ===== *)
(** * Arch: the aarch64 machine description

    Models [src/crates/arch/src]: the fixed memory layout and its run-time
    overlap check ([layout.rs]), GIC interrupt identifiers and their device-tree
    cells ([gic.rs]), the ESR_EL2 syndrome decoder ([esr.rs]) and the PSCI 1.1
    dispatch table ([psci.rs]); and the virtio-MMIO slot allocator
    ([src/crates/virtio/src/slot.rs]), which places devices in that layout. *)

From stdpp Require Import base numbers list option gmap.
From Stdlib Require Import ZArith Lia.
From S2P Require Import Prelude.

Local Open Scope Z_scope.
Local Open Scope squib_scope.

(** ** Memory layout *)

Module Layout.

Definition MAX_SUPPORTED_VCPUS : Z := 32.
Definition MSI_REGION_BASE : Z := 0x05000000.
Definition GICD_BASE : Z := 0x08000000.
Definition GICD_RESERVED_SIZE : Z := 0x00010000.
Definition GICR_BASE : Z := 0x080A0000.
Definition GICR_RESERVED_END : Z := 0x0E0A0000.
Definition PL011_BASE : Z := 0x0E0A0000.
Definition PL011_SIZE : Z := 0x1000.
Definition VIRTIO_MMIO_BASE : Z := 0x0F000000.
Definition VIRTIO_MMIO_SIZE : Z := 32 * 0x1000.
Definition DRAM_BASE : Z := 0x80000000.
Definition DRAM_MAX_END : Z := 0x00FF80000000 + DRAM_BASE.
Definition KERNEL_LOAD_OFFSET : Z := 0x00200000.
Definition FDT_MAX_SIZE : Z := 0x00200000.
Definition GICR_REDISTRIBUTOR_SIZE_PER_VCPU : Z := 0x00020000.

Inductive LayoutOverlap :=
  | LayoutOk
  | GicrOverlapsMmio (vcpu_count live_gicr_end boundary : Z).

Definition overlap_check (vcpu_count redistributor_size_per_vcpu : Z) : LayoutOverlap :=
  let live_end :=
    saturating_add 64 GICR_BASE
      (saturating_mul 64 vcpu_count redistributor_size_per_vcpu) in
  if PL011_BASE <? live_end
  then GicrOverlapsMmio vcpu_count live_end PL011_BASE
  else LayoutOk.

End Layout.

(** ** GIC interrupt identifiers *)

Module Gic.

Definition SPI_INTID_MAX : Z := 1019.
Definition PPI_INTID_MIN : Z := 16.
Definition PPI_INTID_MAX : Z := 31.
Definition SPI_INTID_MIN : Z := 32.
Definition FDT_CELL_TYPE_SPI : Z := 0.
Definition FDT_CELL_TYPE_PPI : Z := 1.

Inductive Trigger := EdgeRising | LevelHigh | LevelLow.

Definition fdt_flags (t : Trigger) : Z :=
  match t with EdgeRising => 1 | LevelHigh => 4 | LevelLow => 8 end.

Inductive IntIdError :=
  | SpiOutOfRange (i : Z)
  | PpiOutOfRange (i : Z)
  | SpiCellOffsetOutOfRange (i : Z)
  | PpiCellOffsetOutOfRange (i : Z).

(** The raw INTID, as the private field of the newtype. *)
Record IntId := mkIntId { as_raw : Z }.

Definition from_spi_intid (intid : Z) : result IntIdError IntId :=
  if (intid <? SPI_INTID_MIN) || (SPI_INTID_MAX <? intid)
  then Err (SpiOutOfRange intid) else Ok (mkIntId intid).

Definition from_ppi_intid (intid : Z) : result IntIdError IntId :=
  if (intid <? PPI_INTID_MIN) || (PPI_INTID_MAX <? intid)
  then Err (PpiOutOfRange intid) else Ok (mkIntId intid).

Definition from_spi_cell (cell_offset : Z) : result IntIdError IntId :=
  match checked_add 32 SPI_INTID_MIN cell_offset with
  | None => Err (SpiCellOffsetOutOfRange cell_offset)
  | Some intid =>
      if SPI_INTID_MAX <? intid then Err (SpiCellOffsetOutOfRange cell_offset)
      else Ok (mkIntId intid)
  end.

Definition from_ppi_cell (cell_offset : Z) : result IntIdError IntId :=
  if 15 <? cell_offset then Err (PpiCellOffsetOutOfRange cell_offset)
  else Ok (mkIntId (wadd 32 PPI_INTID_MIN cell_offset)).

Definition is_spi (i : IntId) : bool :=
  (SPI_INTID_MIN <=? as_raw i) && (as_raw i <=? SPI_INTID_MAX).

Definition is_ppi (i : IntId) : bool :=
  (PPI_INTID_MIN <=? as_raw i) && (as_raw i <=? PPI_INTID_MAX).

Definition fdt_cell_type (i : IntId) : Z :=
  if is_ppi i then FDT_CELL_TYPE_PPI else FDT_CELL_TYPE_SPI.

Definition fdt_cell_offset (i : IntId) : Z :=
  if is_ppi i then wrap 32 (as_raw i - PPI_INTID_MIN)
  else wrap 32 (as_raw i - SPI_INTID_MIN).

Definition PL011 : IntId := mkIntId (SPI_INTID_MIN + 1).
Definition VIRTIO_MMIO_SLOT0 : IntId := mkIntId (SPI_INTID_MIN + 16).

End Gic.

(** ** virtio-MMIO slots *)

Module Slots.
Import Gic.

Definition VIRTIO_MMIO_BASE : Z := 0x0F000000.
Definition VIRTIO_MMIO_REGION_SIZE : Z := 0x1000.
Definition MMIO_SLOT_COUNT : Z := 32.

Inductive SlotError :=
  | Exhausted
  | SlotIntId (e : IntIdError).

Record Slot := mkSlot { sl_index : Z; sl_base : Z; sl_intid : IntId }.

Definition from_index (index : Z) : result SlotError Slot :=
  if MMIO_SLOT_COUNT <=? index then Err Exhausted
  else
    let? intid := map_err SlotIntId (from_spi_cell (wadd 32 16 index)) in
    Ok (mkSlot index (wadd 64 VIRTIO_MMIO_BASE (wrap 64 (index * VIRTIO_MMIO_REGION_SIZE))) intid).

(** [SlotAllocator]: the index of the next free slot. *)
Record SlotAllocator := mkAlloc { sa_next : Z }.

Definition SlotAllocator_new : SlotAllocator := mkAlloc 0.

Definition allocate : stm SlotAllocator SlotError Slot :=
  fun a =>
    match from_index (sa_next a) with
    | Err e => (a, Err e)
    | Ok slot => (mkAlloc (wadd 32 (sa_next a) 1), Ok slot)
    end.

Definition allocated (a : SlotAllocator) : Z := sa_next a.

Definition remaining (a : SlotAllocator) : Z := wrap 32 (MMIO_SLOT_COUNT - sa_next a).

(** [n] allocations in sequence, stopping at the first error. *)
Fixpoint allocate_n (n : nat) : stm SlotAllocator SlotError (list Slot) :=
  match n with
  | O => st_ret []
  | S n => let! s := allocate in let! rest := allocate_n n in st_ret (s :: rest)
  end.

End Slots.

(** ** ESR_EL2 syndrome decoder *)

Module Esr.

Definition WFX : Z := 0x01.
Definition HVC : Z := 0x16.
Definition SMC : Z := 0x17.
Definition SYSTEM_REGISTER : Z := 0x18.
Definition DATA_ABORT_LOWER_EL : Z := 0x24.
Definition DATA_ABORT_SAME_EL : Z := 0x25.
Definition BRK_AARCH64 : Z := 0x3C.

Inductive EsrDecoded :=
  | DataAbort (is_write : bool) (sas srt : Z) (sf : bool)
  | Hvc (imm16 : Z)
  | Smc (imm16 : Z)
  | SystemRegister (read : bool) (op0 op1 crn crm op2 xt : Z)
  | Wfi
  | Wfe
  | Brk (imm16 : Z)
  | Other (ec raw : Z).

Definition decode_data_abort (iss : Z) : EsrDecoded :=
  let is_write := negb (Z.land iss (Z.shiftl 1 6) =? 0) in
  let sas := Z.land (Z.shiftr iss 22) 0x3 in
  let srt := Z.land (Z.shiftr iss 16) 0x1F in
  let sf := negb (Z.land iss (Z.shiftl 1 15) =? 0) in
  DataAbort is_write sas srt sf.

Definition decode_system_register (iss : Z) : EsrDecoded :=
  let op0 := Z.land (Z.shiftr iss 20) 0x3 in
  let op2 := Z.land (Z.shiftr iss 17) 0x7 in
  let op1 := Z.land (Z.shiftr iss 14) 0x7 in
  let crn := Z.land (Z.shiftr iss 10) 0xF in
  let xt := Z.land (Z.shiftr iss 5) 0x1F in
  let crm := Z.land (Z.shiftr iss 1) 0xF in
  let read := Z.land iss 0x1 =? 1 in
  SystemRegister read op0 op1 crn crm op2 xt.

Definition decode_wfx (iss : Z) : EsrDecoded :=
  if Z.land iss 0x1 =? 1 then Wfe else Wfi.

Definition decode (esr : Z) : EsrDecoded :=
  let ec := Z.land (Z.shiftr esr 26) 0x3F in
  let iss := Z.land esr 0x01FFFFFF in
  if (ec =? DATA_ABORT_LOWER_EL) || (ec =? DATA_ABORT_SAME_EL) then decode_data_abort iss
  else if ec =? HVC then Hvc (Z.land iss 0xFFFF)
  else if ec =? SMC then Smc (Z.land iss 0xFFFF)
  else if ec =? SYSTEM_REGISTER then decode_system_register iss
  else if ec =? WFX then decode_wfx iss
  else if ec =? BRK_AARCH64 then Brk (Z.land iss 0xFFFF)
  else Other ec esr.

End Esr.

(** ** PSCI *)

Module Psci.

Definition PSCI_VERSION : Z := 0x84000000.
Definition CPU_OFF : Z := 0x84000002.
Definition CPU_ON : Z := 0xC4000003.
Definition AFFINITY_INFO : Z := 0xC4000004.
Definition MIGRATE_INFO_TYPE : Z := 0x84000006.
Definition SYSTEM_OFF : Z := 0x84000008.
Definition SYSTEM_RESET : Z := 0x84000009.
Definition PSCI_FEATURES : Z := 0x8400000A.
Definition PSCI_RET_SUCCESS : Z := 0.
Definition PSCI_RET_NOT_SUPPORTED : Z := -1.
Definition PSCI_RET_INVALID_PARAMETERS : Z := -2.
Definition PSCI_VERSION_VALUE : Z := 0x00010001.

Inductive PsciReturn :=
  | Success
  | NotSupported
  | InvalidParameters
  | Word (w : Z).

Inductive PsciOutcome :=
  | Return (r : PsciReturn)
  | ParkCallerCpuOff
  | BringUpSecondary (target_cpu entry_point context_id : Z)
  | QueryAffinityInfo (target_cpu lowest_affinity_level : Z)
  | SystemOff
  | SystemReset.

(** [as u64] of an [i32] sign-extends: the bit pattern is the value mod 2^64. *)
Definition as_x0 (r : PsciReturn) : Z :=
  match r with
  | Success => wrap 64 PSCI_RET_SUCCESS
  | NotSupported => wrap 64 PSCI_RET_NOT_SUPPORTED
  | InvalidParameters => wrap 64 PSCI_RET_INVALID_PARAMETERS
  | Word w => w
  end.

(** The [matches!] of the [PSCI_FEATURES] arm. *)
Definition supported (queried : Z) : bool :=
  existsb (Z.eqb queried)
    [PSCI_VERSION; CPU_OFF; CPU_ON; AFFINITY_INFO; MIGRATE_INFO_TYPE; SYSTEM_OFF;
     SYSTEM_RESET; PSCI_FEATURES].

Definition dispatch (func_id a0 a1 a2 : Z) : PsciOutcome :=
  if func_id =? PSCI_VERSION then Return (Word PSCI_VERSION_VALUE)
  else if func_id =? CPU_OFF then ParkCallerCpuOff
  else if func_id =? CPU_ON then BringUpSecondary a0 a1 a2
  else if func_id =? AFFINITY_INFO then QueryAffinityInfo a0 (wrap 32 a1)
  else if func_id =? MIGRATE_INFO_TYPE then Return (Word 2)
  else if func_id =? SYSTEM_OFF then SystemOff
  else if func_id =? SYSTEM_RESET then SystemReset
  else if func_id =? PSCI_FEATURES then
    if supported (wrap 32 a0) then Return Success else Return NotSupported
  else Return NotSupported.

End Psci.

(** ** Layout and slots: correctness *)

Import Layout Gic.

(** The check compares the mathematical end of the redistributor window: the
    saturating arithmetic never hides an overflow. *)
Lemma overlap_check_ok n sz :
  in_u 32 n -> in_u 64 sz ->
  overlap_check n sz = LayoutOk <-> GICR_BASE + n * sz <= PL011_BASE.
Proof.
  intros [Hn _] [Hs _]. unfold overlap_check, saturating_add, saturating_mul.
  assert (0 <= n * sz) by nia.
  set (p := n * sz) in *. change (2 ^ 64) with 18446744073709551616.
  unfold GICR_BASE, PL011_BASE. case_match; bool_to_prop; split; intros; done || lia.
Qed.

Lemma from_spi_cell_ok c :
  in_u 32 c ->
  from_spi_cell c = if c <=? 987 then Ok (mkIntId (32 + c)) else Err (SpiCellOffsetOutOfRange c).
Proof.
  intros [? ?]. unfold from_spi_cell, checked_add, SPI_INTID_MIN, SPI_INTID_MAX.
  change (2 ^ 32) with 4294967296 in *.
  destruct (Z.leb_spec c 987); inv_matches; bool_to_prop; lia.
Qed.

Lemma slot_from_index i :
  0 <= i < 32 ->
  Slots.from_index i = Ok (Slots.mkSlot i (0x0F000000 + i * 0x1000) (mkIntId (48 + i))).
Proof.
  intros Hi. unfold Slots.from_index, Slots.MMIO_SLOT_COUNT, wadd.
  destruct (Z.leb_spec 32 i); [lia|].
  rewrite (wrap_small 32) by (unfold in_u; lia).
  rewrite from_spi_cell_ok by (unfold in_u; lia).
  destruct (Z.leb_spec (16 + i) 987); [|lia]. cbn.
  unfold Slots.VIRTIO_MMIO_BASE, Slots.VIRTIO_MMIO_REGION_SIZE.
  rewrite (wrap_small 64 (i * _)) by (unfold in_u; lia).
  rewrite wrap_small by (unfold in_u; lia). do 2 f_equal; f_equal; lia.
Qed.

(** [n] allocations from slot [k] on hand out slots [k, k + 1, ..., k + n - 1]. *)
Lemma allocate_n_from n k :
  0 <= k -> k + Z.of_nat n <= 32 ->
  exists ss, Slots.allocate_n n (Slots.mkAlloc k)
             = (Slots.mkAlloc (k + Z.of_nat n), Ok ss) /\
    length ss = n /\
    forall j s, ss !! j = Some s -> Slots.from_index (k + Z.of_nat j) = Ok s.
Proof.
  revert k; induction n as [|n IH]; intros k Hk Hn.
  - exists []. rewrite Z.add_0_r. done.
  - destruct (IH (k + 1)) as (ss & Hss & Hlen & Hj); [lia..|].
    exists (Slots.mkSlot k (0x0F000000 + k * 0x1000) (mkIntId (48 + k)) :: ss).
    cbn [Slots.allocate_n]. unfold st_bind, Slots.allocate; cbn [Slots.sa_next].
    rewrite slot_from_index by lia. unfold wadd. rewrite wrap_small by (unfold in_u; lia).
    rewrite Hss. split; [unfold st_ret; f_equal; f_equal; lia|]. split; [cbn; lia|].
    intros [|j] s Hs; cbn in Hs; simplify_eq.
    + rewrite Z.add_0_r. apply slot_from_index; lia.
    + rewrite <- (Hj j s Hs). f_equal; lia.
Qed.

(** The slots of a fully populated allocator. *)
Definition all_slots : list Slots.Slot :=
  match snd (Slots.allocate_n 32 Slots.SlotAllocator_new) with Ok ss => ss | Err _ => [] end.

(** The guest-physical windows of a machine with [n] vCPUs whose host reports
    [sz] bytes per redistributor, in address order, as (base, size). *)
Definition windows (n sz : Z) : list (Z * Z) :=
  (GICD_BASE, GICD_RESERVED_SIZE) :: (GICR_BASE, n * sz) :: (PL011_BASE, PL011_SIZE) ::
  map (fun s => (Slots.sl_base s, Slots.VIRTIO_MMIO_REGION_SIZE)) all_slots ++
  [(DRAM_BASE, DRAM_MAX_END - DRAM_BASE)].

Definition below (a b : Z * Z) : Prop := fst a + snd a <= fst b.

Fixpoint all_belowb (a : Z * Z) (l : list (Z * Z)) : bool :=
  match l with [] => true | b :: l => (fst a + snd a <=? fst b) && all_belowb a l end.

Fixpoint orderedb (l : list (Z * Z)) : bool :=
  match l with [] => true | a :: l => all_belowb a l && orderedb l end.

Lemma all_belowb_spec a l : all_belowb a l = true <-> Forall (below a) l.
Proof.
  induction l as [|b l IH]; cbn; [done|].
  rewrite Forall_cons_iff, andb_true_iff, IH, Z.leb_le. done.
Qed.

Lemma orderedb_spec l : orderedb l = true <-> ForallOrdPairs below l.
Proof.
  induction l as [|a l IH]; cbn; [by split; intros; [constructor|]|].
  rewrite andb_true_iff, all_belowb_spec, IH. split.
  - intros [? ?]. by constructor.
  - by inversion 1.
Qed.

Lemma orderedb_sound l : orderedb l = true -> ForallOrdPairs below l.
Proof. apply orderedb_spec. Qed.

(** The run-time layout check accepts a machine exactly when none of its
    guest-physical windows overlap: distributor, live redistributors, UART, the
    32 virtio-MMIO slots the allocator hands out, and DRAM. *)
Theorem overlap_check_exact n sz :
  in_u 32 n -> in_u 64 sz ->
  overlap_check n sz = LayoutOk <-> ForallOrdPairs below (windows n sz).
Proof.
  intros Hn Hs. rewrite overlap_check_ok by done. unfold windows.
  set (rest := (PL011_BASE, PL011_SIZE) :: _).
  assert (Hrest : ForallOrdPairs below rest) by (apply orderedb_sound; by vm_compute).
  assert (Hall : Forall (fun b => PL011_BASE <= fst b) rest).
  { subst rest. repeat constructor; by vm_compute. }
  split.
  - intros Hle. constructor; [|constructor; [|done]].
    + constructor; [by vm_compute|]. eapply Forall_impl; [exact Hall|].
      intros [b ?]; unfold below, GICD_BASE, GICD_RESERVED_SIZE, PL011_BASE; cbn; lia.
    + eapply Forall_impl; [exact Hall|].
      intros [b ?]; unfold below; cbn in *; lia.
  - intros Hord. inversion Hord as [|? ? _ Hord']; subst.
    inversion Hord' as [|? ? Hb _]; subst. inversion Hb; subst. done.
Qed.

Lemma overlap_check_exact_witness :
  ForallOrdPairs below (windows 32 GICR_REDISTRIBUTOR_SIZE_PER_VCPU).
Proof. apply overlap_check_exact; vm_compute; intuition discriminate. Defined.

(** The slot allocator hands out exactly 32 slots: the [n]-th allocation of
    a fresh allocator is slot [n], its 4 KiB window lies in the virtio-MMIO
    region and its interrupt is the SPI of device-tree cell [16 + n], so two
    slots never share an address or an interrupt; the 33rd allocation reports
    exhaustion and changes nothing. *)
Theorem slot_allocator_exact (n : nat) :
  match Slots.allocate_n n Slots.SlotAllocator_new with
  | (a, Ok ss) =>
      (n <= 32)%nat /\ Slots.allocated a = Z.of_nat n /\
      Slots.remaining a = 32 - Z.of_nat n /\
      forall i s, ss !! i = Some s ->
        (i < n)%nat /\
        Slots.sl_base s = VIRTIO_MMIO_BASE + 0x1000 * Z.of_nat i /\
        Slots.sl_base s + 0x1000 <= VIRTIO_MMIO_BASE + VIRTIO_MMIO_SIZE /\
        fdt_cell_type (Slots.sl_intid s) = FDT_CELL_TYPE_SPI /\
        fdt_cell_offset (Slots.sl_intid s) = 16 + Z.of_nat i
  | (a, Err e) =>
      (32 < n)%nat /\ e = Slots.Exhausted /\ a = Slots.mkAlloc 32
  end.
Proof.
  change Slots.SlotAllocator_new with (Slots.mkAlloc 0).
  destruct (decide (n <= 32)%nat) as [Hn|Hn].
  - destruct (allocate_n_from n 0) as (ss & -> & Hlen & Hj); [lia..|].
    split; [done|]. split; [cbn; lia|].
    split; [cbn; unfold Slots.MMIO_SLOT_COUNT; apply wrap_small; unfold in_u; lia|].
    intros i s Hs. pose proof (lookup_lt_Some _ _ _ Hs).
    specialize (Hj _ _ Hs). rewrite slot_from_index in Hj by lia. simplify_eq. cbn [Slots.sl_base Slots.sl_intid].
    unfold VIRTIO_MMIO_BASE, VIRTIO_MMIO_SIZE, fdt_cell_type, fdt_cell_offset, is_ppi,
      PPI_INTID_MAX, PPI_INTID_MIN, SPI_INTID_MIN; cbn [as_raw].
    destruct (Z.leb_spec (48 + (0 + Z.of_nat i)) 31); [lia|]. rewrite andb_false_r.
    rewrite wrap_small by (unfold in_u; lia). repeat split; lia.
  - assert (Herr : forall m, Slots.allocate_n (32 + S m) (Slots.mkAlloc 0)
              = (Slots.mkAlloc 32, Err Slots.Exhausted)) by reflexivity.
    replace n with (32 + S (n - 33))%nat by lia. rewrite Herr. split; [lia | done].
Qed.

(** Device-tree cells and raw INTIDs are inverse to each other. *)
Lemma intid_cell_roundtrip c i :
  in_u 32 c ->
  (from_spi_cell c = Ok i -> is_spi i = true /\ fdt_cell_type i = FDT_CELL_TYPE_SPI /\
                             fdt_cell_offset i = c) /\
  (from_ppi_cell c = Ok i -> is_ppi i = true /\ fdt_cell_type i = FDT_CELL_TYPE_PPI /\
                             fdt_cell_offset i = c).
Proof.
  intros Hc. split; intros H.
  - rewrite from_spi_cell_ok in H by done. case_match; [|done]. simplify_eq. bool_to_prop.
    destruct Hc. unfold is_spi, fdt_cell_type, fdt_cell_offset, is_ppi, PPI_INTID_MAX,
      PPI_INTID_MIN, SPI_INTID_MIN, SPI_INTID_MAX; cbn [as_raw].
    destruct (Z.leb_spec (32 + c) 31); [lia|]. rewrite andb_false_r.
    rewrite wrap_small by (unfold in_u; lia).
    rewrite (proj2 (Z.leb_le 32 _)), (proj2 (Z.leb_le _ 1019)) by lia. repeat split; lia.
  - unfold from_ppi_cell in H. case_match; [done|]. simplify_eq. bool_to_prop. destruct Hc.
    unfold fdt_cell_type, fdt_cell_offset, is_ppi, PPI_INTID_MAX, PPI_INTID_MIN, wadd; cbn [as_raw].
    rewrite !(wrap_small 32) by (unfold in_u; lia).
    rewrite (proj2 (Z.leb_le 16 _)), (proj2 (Z.leb_le _ 31)) by lia. cbn [andb].
    repeat split; lia.
Qed.

(** ** Syndrome decoder: correctness *)

(** Extracting the field of [n] bits at [a] from a number given as low part,
    field and high part. *)
Lemma field_eq x a n lo f hi :
  0 <= a -> 0 <= n -> x = lo + f * 2 ^ a + hi * 2 ^ (a + n) ->
  0 <= lo < 2 ^ a -> 0 <= f < 2 ^ n ->
  Z.land (Z.shiftr x a) (2 ^ n - 1) = f.
Proof.
  intros Ha Hn -> Hlo Hf.
  rewrite land_ones_wrap, Z.shiftr_div_pow2 by done. unfold wrap.
  pose proof (pow2_pos a Ha). rewrite Z.pow_add_r by done.
  replace (lo + f * 2 ^ a + hi * (2 ^ a * 2 ^ n)) with (lo + (f + hi * 2 ^ n) * 2 ^ a) by ring.
  rewrite Z.div_add, (Z.div_small lo), Z.add_0_l by lia.
  rewrite Z.mod_add by (apply Z.pow_nonzero; lia). by apply Z.mod_small.
Qed.

(** One-bit fields tested with [x & (1 << a) != 0]. *)
Lemma flag_eq x a lo (b : bool) hi :
  0 <= a -> x = lo + Z.b2z b * 2 ^ a + hi * 2 ^ (a + 1) -> 0 <= lo < 2 ^ a ->
  negb (Z.land x (Z.shiftl 1 a) =? 0) = b.
Proof.
  intros Ha Hx Hlo. rewrite Z.shiftl_1_l, land_pow2_testbit, negb_involutive by done.
  apply Z.b2z_inj. rewrite Z.testbit_spec' by done.
  pose proof (field_eq x a 1 lo (Z.b2z b) hi Ha ltac:(lia) Hx Hlo) as H.
  rewrite land_ones_wrap, Z.shiftr_div_pow2 in H by lia. unfold wrap in H.
  change (2 ^ 1) with 2 in H. apply H. destruct b; cbn; lia.
Qed.

(** The 25-bit ISS under the exception class and the IL bit. *)
Lemma iss_eq x iss hi : x = iss + hi * 2 ^ 25 -> 0 <= iss < 2 ^ 25 -> Z.land x 0x01FFFFFF = iss.
Proof.
  intros -> Hi. change 0x01FFFFFF with (2 ^ 25 - 1).
  rewrite land_ones_wrap by lia. unfold wrap. rewrite Z.mod_add by lia. by apply Z.mod_small.
Qed.

(** A data-abort ISS assembled from its architectural fields. *)
Definition data_abort_iss (isv : bool) (sas : Z) (sse : bool) (srt : Z) (sf ar : bool)
  (mid : Z) (wnr : bool) (low : Z) : Z :=
  Z.b2z isv * 2 ^ 24 + sas * 2 ^ 22 + Z.b2z sse * 2 ^ 21 + srt * 2 ^ 16 + Z.b2z sf * 2 ^ 15 +
  Z.b2z ar * 2 ^ 14 + mid * 2 ^ 7 + Z.b2z wnr * 2 ^ 6 + low.

(** A trapped MSR/MRS ISS assembled from its architectural fields. *)
Definition sysreg_iss (res op0 op2 op1 crn rt crm : Z) (read : bool) : Z :=
  res * 2 ^ 22 + op0 * 2 ^ 20 + op2 * 2 ^ 17 + op1 * 2 ^ 14 + crn * 2 ^ 10 + rt * 2 ^ 5 +
  crm * 2 ^ 1 + Z.b2z read.

(** ESR_EL2 from the upper word, the exception class, the IL bit and the ISS. *)
Definition esr_word (hi ec : Z) (il : bool) (iss : Z) : Z :=
  hi * 2 ^ 32 + ec * 2 ^ 26 + Z.b2z il * 2 ^ 25 + iss.

Lemma b2z_range b : 0 <= Z.b2z b <= 1.
Proof. destruct b; cbn; lia. Qed.

Lemma esr_word_ec hi ec il iss :
  0 <= ec < 2 ^ 6 -> 0 <= iss < 2 ^ 25 -> Z.land (Z.shiftr (esr_word hi ec il iss) 26) 0x3F = ec.
Proof.
  intros. change 0x3F with (2 ^ 6 - 1). pose proof (b2z_range il).
  apply (field_eq _ 26 6 (Z.b2z il * 2 ^ 25 + iss) ec hi); unfold esr_word; lia.
Qed.

Lemma esr_word_iss hi ec il iss :
  0 <= iss < 2 ^ 25 -> Z.land (esr_word hi ec il iss) 0x01FFFFFF = iss.
Proof.
  intros. apply (iss_eq _ iss (hi * 2 ^ 7 + ec * 2 + Z.b2z il)); unfold esr_word; lia.
Qed.

Lemma decode_data_abort_fields isv sas sse srt sf ar mid wnr low :
  0 <= sas < 4 -> 0 <= srt < 32 -> 0 <= mid < 2 ^ 7 -> 0 <= low < 2 ^ 6 ->
  Esr.decode_data_abort (data_abort_iss isv sas sse srt sf ar mid wnr low)
  = Esr.DataAbort wnr sas srt sf.
Proof.
  intros. unfold Esr.decode_data_abort. set (x := data_abort_iss _ _ _ _ _ _ _ _ _).
  pose proof (b2z_range isv). pose proof (b2z_range sse). pose proof (b2z_range sf).
  pose proof (b2z_range ar). pose proof (b2z_range wnr).
  assert (Hx : x = data_abort_iss isv sas sse srt sf ar mid wnr low) by done.
  unfold data_abort_iss in Hx. f_equal.
  - eapply (flag_eq x 6 low wnr); [lia | | lia]. rewrite Hx.
    instantiate (1 := Z.b2z isv * 2 ^ 17 + sas * 2 ^ 15 + Z.b2z sse * 2 ^ 14 + srt * 2 ^ 9 +
      Z.b2z sf * 2 ^ 8 + Z.b2z ar * 2 ^ 7 + mid). lia.
  - change 0x3 with (2 ^ 2 - 1).
    apply (field_eq x 22 2 (x - Z.b2z isv * 2 ^ 24 - sas * 2 ^ 22) sas (Z.b2z isv)); lia.
  - change 0x1F with (2 ^ 5 - 1).
    apply (field_eq x 16 5 (Z.b2z sf * 2 ^ 15 + Z.b2z ar * 2 ^ 14 + mid * 2 ^ 7 +
      Z.b2z wnr * 2 ^ 6 + low) srt (Z.b2z isv * 2 ^ 3 + sas * 2 + Z.b2z sse)); lia.
  - apply (flag_eq x 15 (Z.b2z ar * 2 ^ 14 + mid * 2 ^ 7 + Z.b2z wnr * 2 ^ 6 + low) sf
      (Z.b2z isv * 2 ^ 8 + sas * 2 ^ 6 + Z.b2z sse * 2 ^ 5 + srt)); lia.
Qed.

Lemma decode_system_register_fields res op0 op2 op1 crn rt crm read :
  0 <= op0 < 4 -> 0 <= op2 < 8 -> 0 <= op1 < 8 -> 0 <= crn < 16 -> 0 <= rt < 32 ->
  0 <= crm < 16 ->
  Esr.decode_system_register (sysreg_iss res op0 op2 op1 crn rt crm read)
  = Esr.SystemRegister read op0 op1 crn crm op2 rt.
Proof.
  intros. unfold Esr.decode_system_register. set (x := sysreg_iss _ _ _ _ _ _ _ _).
  pose proof (b2z_range read).
  assert (Hx : x = sysreg_iss res op0 op2 op1 crn rt crm read) by done.
  unfold sysreg_iss in Hx.
  change 0x3 with (2 ^ 2 - 1); change 0x1F with (2 ^ 5 - 1); change 0x7 with (2 ^ 3 - 1);
    change 0xF with (2 ^ 4 - 1). f_equal.
  - change 1 with (2 ^ 1 - 1) at 1. rewrite land_ones_wrap by lia. unfold wrap.
    rewrite Hx. replace (_ mod _) with (Z.b2z read); [by destruct read|].
    apply (Z.mod_unique _ _ (res * 2 ^ 21 + op0 * 2 ^ 19 + op2 * 2 ^ 16 + op1 * 2 ^ 13 +
      crn * 2 ^ 9 + rt * 2 ^ 4 + crm)); lia.
  - apply (field_eq x 20 2 (x - res * 2 ^ 22 - op0 * 2 ^ 20) op0 res); lia.
  - apply (field_eq x 14 3 (crn * 2 ^ 10 + rt * 2 ^ 5 + crm * 2 + Z.b2z read) op1
      (res * 2 ^ 5 + op0 * 2 ^ 3 + op2)); lia.
  - apply (field_eq x 10 4 (rt * 2 ^ 5 + crm * 2 + Z.b2z read) crn
      (res * 2 ^ 8 + op0 * 2 ^ 6 + op2 * 2 ^ 3 + op1)); lia.
  - apply (field_eq x 1 4 (Z.b2z read) crm (res * 2 ^ 17 + op0 * 2 ^ 15 + op2 * 2 ^ 12 +
      op1 * 2 ^ 9 + crn * 2 ^ 5 + rt)); lia.
  - apply (field_eq x 17 3 (op1 * 2 ^ 14 + crn * 2 ^ 10 + rt * 2 ^ 5 + crm * 2 + Z.b2z read) op2
      (res * 2 ^ 2 + op0)); lia.
  - apply (field_eq x 5 5 (crm * 2 + Z.b2z read) rt (res * 2 ^ 12 + op0 * 2 ^ 10 + op2 * 2 ^ 7 +
      op1 * 2 ^ 4 + crn)); lia.
Qed.

Lemma data_abort_iss_range isv sas sse srt sf ar mid wnr low :
  0 <= sas < 4 -> 0 <= srt < 32 -> 0 <= mid < 2 ^ 7 -> 0 <= low < 2 ^ 6 ->
  0 <= data_abort_iss isv sas sse srt sf ar mid wnr low < 2 ^ 25.
Proof.
  intros. pose proof (b2z_range isv). pose proof (b2z_range sse). pose proof (b2z_range sf).
  pose proof (b2z_range ar). pose proof (b2z_range wnr). unfold data_abort_iss. lia.
Qed.

(** [decode] looks at the class and the ISS only. *)
Lemma decode_word hi ec il iss :
  0 <= ec < 2 ^ 6 -> 0 <= iss < 2 ^ 25 ->
  Esr.decode (esr_word hi ec il iss) =
  if (ec =? Esr.DATA_ABORT_LOWER_EL) || (ec =? Esr.DATA_ABORT_SAME_EL)
  then Esr.decode_data_abort iss
  else if ec =? Esr.HVC then Esr.Hvc (iss mod 2 ^ 16)
  else if ec =? Esr.SMC then Esr.Smc (iss mod 2 ^ 16)
  else if ec =? Esr.SYSTEM_REGISTER then Esr.decode_system_register iss
  else if ec =? Esr.WFX then if Z.odd iss then Esr.Wfe else Esr.Wfi
  else if ec =? Esr.BRK_AARCH64 then Esr.Brk (iss mod 2 ^ 16)
  else Esr.Other ec (esr_word hi ec il iss).
Proof.
  intros Hec Hiss. unfold Esr.decode. rewrite esr_word_ec, esr_word_iss by done.
  change 0xFFFF with (2 ^ 16 - 1). rewrite land_ones_wrap by lia. unfold wrap.
  unfold Esr.decode_wfx. change 0x1 with (2 ^ 1 - 1) at 1.
  rewrite land_ones_wrap by lia. unfold wrap. change (2 ^ 1) with 2.
  rewrite Zmod_odd. by destruct (Z.odd iss).
Qed.

(** The classes the decoder knows. *)
Definition known_ec : list Z :=
  [Esr.DATA_ABORT_LOWER_EL; Esr.DATA_ABORT_SAME_EL; Esr.HVC; Esr.SMC; Esr.SYSTEM_REGISTER;
   Esr.WFX; Esr.BRK_AARCH64].

Lemma decode_other_iff hi ec il iss :
  0 <= ec < 2 ^ 6 -> 0 <= iss < 2 ^ 25 ->
  (exists c raw, Esr.decode (esr_word hi ec il iss) = Esr.Other c raw) <-> ec ∉ known_ec.
Proof.
  intros Hec Hiss. rewrite decode_word by done. split.
  - intros (c & raw & H) Hin. unfold known_ec in Hin.
    repeat (apply elem_of_cons in Hin as [->|Hin]; [cbn in H; by try case_match|]).
    by apply elem_of_nil in Hin.
  - intros Hin. unfold known_ec in Hin. rewrite !not_elem_of_cons in Hin.
    destruct Hin as (?&?&?&?&?&?&?&_).
    rewrite !(proj2 (Z.eqb_neq ec _)) by done. cbn. eauto.
Qed.

(** The syndrome decoder recovers every architectural field it reports: a
    data abort's direction, access size, register and width, a system-register
    trap's operands, an HVC/SMC/BRK immediate, whatever the other bits of the
    64-bit register hold; and it reports [Other] for exactly the remaining
    exception classes. *)
Theorem esr_decode_exact hi ec il :
  0 <= ec < 2 ^ 6 ->
  (forall isv sas sse srt sf ar mid wnr low,
     ec = Esr.DATA_ABORT_LOWER_EL \/ ec = Esr.DATA_ABORT_SAME_EL ->
     0 <= sas < 4 -> 0 <= srt < 32 -> 0 <= mid < 2 ^ 7 -> 0 <= low < 2 ^ 6 ->
     Esr.decode (esr_word hi ec il (data_abort_iss isv sas sse srt sf ar mid wnr low))
     = Esr.DataAbort wnr sas srt sf) /\
  (forall res op0 op2 op1 crn rt crm read,
     ec = Esr.SYSTEM_REGISTER -> 0 <= res < 8 ->
     0 <= op0 < 4 -> 0 <= op2 < 8 -> 0 <= op1 < 8 -> 0 <= crn < 16 -> 0 <= rt < 32 ->
     0 <= crm < 16 ->
     Esr.decode (esr_word hi ec il (sysreg_iss res op0 op2 op1 crn rt crm read))
     = Esr.SystemRegister read op0 op1 crn crm op2 rt) /\
  (forall top imm, 0 <= top < 2 ^ 9 -> in_u 16 imm ->
     let d := Esr.decode (esr_word hi ec il (top * 2 ^ 16 + imm)) in
     (ec = Esr.HVC -> d = Esr.Hvc imm) /\ (ec = Esr.SMC -> d = Esr.Smc imm) /\
     (ec = Esr.BRK_AARCH64 -> d = Esr.Brk imm)) /\
  (forall iss, 0 <= iss < 2 ^ 25 ->
     (exists c raw, Esr.decode (esr_word hi ec il iss) = Esr.Other c raw) <->
     ec ∉ known_ec).
Proof.
  intros Hec. split; [|split; [|split]].
  - intros isv sas sse srt sf ar mid wnr low Hcls ????.
    rewrite decode_word; [|done|by apply data_abort_iss_range].
    rewrite decode_data_abort_fields by done.
    by destruct Hcls as [-> | ->].
  - intros res op0 op2 op1 crn rt crm read -> ???????.
    rewrite decode_word; [|done|pose proof (b2z_range read); unfold sysreg_iss; lia].
    by rewrite decode_system_register_fields.
  - intros top imm ? Himm. cbn zeta. unfold in_u in Himm. rewrite decode_word by lia.
    replace ((top * 2 ^ 16 + imm) mod 2 ^ 16) with imm
      by (rewrite Z.add_comm, Z.mod_add by lia; symmetry; apply Z.mod_small; lia).
    split_and!; intros ->; reflexivity.
  - intros iss Hiss. by apply decode_other_iff.
Qed.

Lemma esr_decode_exact_witness :
  Esr.decode (esr_word 0 Esr.DATA_ABORT_LOWER_EL true
    (data_abort_iss true 2 false 5 false false 0 true 7))
  = Esr.DataAbort true 2 5 false.
Proof.
  apply (proj1 (esr_decode_exact 0 Esr.DATA_ABORT_LOWER_EL true ltac:(by vm_compute)));
    first [by left | by vm_compute].
Defined.

(** The decoder does not look at the ISV and SSE bits of a data abort: a
    syndrome whose access fields are architecturally invalid, or a
    sign-extending load, decodes to the same access as a plain one. *)
Lemma data_abort_ignores_isv_sse hi il sas srt sf ar mid wnr low :
  0 <= sas < 4 -> 0 <= srt < 32 -> 0 <= mid < 2 ^ 7 -> 0 <= low < 2 ^ 6 ->
  forall isv sse isv' sse',
  Esr.decode (esr_word hi Esr.DATA_ABORT_LOWER_EL il
    (data_abort_iss isv sas sse srt sf ar mid wnr low))
  = Esr.decode (esr_word hi Esr.DATA_ABORT_LOWER_EL il
    (data_abort_iss isv' sas sse' srt sf ar mid wnr low)).
Proof.
  intros. rewrite !decode_word by first [by apply data_abort_iss_range | by vm_compute].
  rewrite Z.eqb_refl. cbn [orb]. rewrite !decode_data_abort_fields by assumption. reflexivity.
Qed.

(** ** PSCI: correctness *)

Lemma dispatch_supported f :
  Psci.supported f = true ->
  Psci.dispatch f Psci.PSCI_VERSION 0 0 <> Psci.Return Psci.NotSupported.
Proof.
  intros H. apply existsb_exists in H as (g & Hg & ->%Z.eqb_eq).
  repeat (destruct Hg as [<-|Hg]; [vm_compute; discriminate|]). destruct Hg.
Qed.

Lemma dispatch_unsupported f a0 a1 a2 :
  Psci.supported f = false -> Psci.dispatch f a0 a1 a2 = Psci.Return Psci.NotSupported.
Proof.
  unfold Psci.supported, Psci.dispatch. cbn [existsb].
  rewrite !orb_false_iff. by intros (-> & -> & -> & -> & -> & -> & -> & -> & _).
Qed.

(** [PSCI_FEATURES] tells the truth: it answers success for a function
    exactly when the dispatcher implements that function for some arguments,
    and every function the dispatcher does not implement returns
    [NOT_SUPPORTED], -1 in X0. *)
Theorem psci_features_exact f a1 a2 :
  in_u 32 f ->
  (Psci.dispatch Psci.PSCI_FEATURES f a1 a2 = Psci.Return Psci.Success <->
     exists b0 b1 b2, Psci.dispatch f b0 b1 b2 <> Psci.Return Psci.NotSupported) /\
  (Psci.dispatch Psci.PSCI_FEATURES f a1 a2 <> Psci.Return Psci.Success ->
     forall b0 b1 b2, Psci.dispatch f b0 b1 b2 = Psci.Return Psci.NotSupported /\
     Psci.as_x0 Psci.NotSupported = 2 ^ 64 - 1).
Proof.
  intros Hf.
  assert (Hd : Psci.dispatch Psci.PSCI_FEATURES f a1 a2
    = Psci.Return (if Psci.supported f then Psci.Success else Psci.NotSupported)).
  { change (Psci.dispatch Psci.PSCI_FEATURES f a1 a2) with
      (if Psci.supported (wrap 32 f) then Psci.Return Psci.Success
       else Psci.Return Psci.NotSupported).
    rewrite wrap_small by done. by destruct (Psci.supported f). }
  rewrite Hd. destruct (Psci.supported f) eqn:Hs; split.
  - split; [|done]. intros _. exists Psci.PSCI_VERSION, 0, 0. by apply dispatch_supported.
  - done.
  - split; [done|]. intros (b0 & b1 & b2 & H). by rewrite dispatch_unsupported in H.
  - intros _ b0 b1 b2. split; [by apply dispatch_unsupported | reflexivity].
Qed.

Lemma psci_features_exact_witness :
  exists b0 b1 b2,
    Psci.dispatch Psci.CPU_ON b0 b1 b2 <> Psci.Return Psci.NotSupported.
Proof. apply (psci_features_exact Psci.CPU_ON 0 0); by vm_compute. Defined.
