(* ===== verification/Runner.v ===== *)
(** * Runner: exits of a vCPU and the loop that handles them

    Models [src/crates/hv/src/run_loop.rs] (decoding an exception into an exit,
    resolving a PSCI call) and [run_vcpu0_thread] of
    [src/crates/vmm/src/runner.rs] (boot registers, the run loop, MMIO
    emulation against the bus, PSCI, shutdown).

    The hypervisor framework is outside the repository: a vCPU is any type with
    the operations of the class [Vcpu].  The wall clock and the shutdown flag
    are observed once per iteration; a run is driven by the list of those
    observations. *)

From stdpp Require Import base numbers list option gmap.
From Stdlib Require Import ZArith Lia.
From S2P Require Import Prelude Bus Arch.

Local Open Scope Z_scope.

(** ** Decoding an exception ([run_loop.rs]) *)

Inductive Exit :=
  | EMmio (addr : Z) (write : bool) (sas srt : Z) (sf : bool)
  | EHvc (imm16 : Z) (args : Z * Z * Z * Z)
  | ESmcHandledAsPsciNotSupported (imm16 : Z)
  | ESystemRegister (read : bool) (op0 op1 crn crm op2 xt : Z)
  | EWfi
  | EWfe
  | EVtimerActivated
  | EBrk (imm16 : Z)
  | ECancelled
  | EUnknownExceptionClass (ec raw : Z).

Record RunLoopDispatch := mkDispatch { rd_exit : Exit; rd_advance_pc : bool }.

Definition decode_exception (esr far : Z) (gp_read : Z -> Z) : RunLoopDispatch :=
  match Esr.decode esr with
  | Esr.DataAbort is_write sas srt sf => mkDispatch (EMmio far is_write sas srt sf) true
  | Esr.Hvc imm16 =>
      mkDispatch (EHvc imm16 (gp_read 0, gp_read 1, gp_read 2, gp_read 3)) false
  | Esr.Smc imm16 => mkDispatch (ESmcHandledAsPsciNotSupported imm16) false
  | Esr.SystemRegister read op0 op1 crn crm op2 xt =>
      mkDispatch (ESystemRegister read op0 op1 crn crm op2 xt) true
  | Esr.Wfi => mkDispatch EWfi false
  | Esr.Wfe => mkDispatch EWfe false
  | Esr.Brk imm16 => mkDispatch (EBrk imm16) false
  | Esr.Other ec raw => mkDispatch (EUnknownExceptionClass ec raw) false
  end.

Definition resolve_hvc_psci (args : Z * Z * Z * Z) : Z * Psci.PsciOutcome :=
  let '(a0, a1, a2, a3) := args in
  let outcome := Psci.dispatch (wrap 32 a0) a1 a2 a3 in
  let x0 := match outcome with
            | Psci.Return ret => Psci.as_x0 ret
            | _ => Psci.as_x0 Psci.Success
            end in
  (x0, outcome).

(** ** The vCPU interface *)

Inductive Reg := X (n : Z) | PC | CPSR.

#[export] Instance Reg_eq_dec : EqDecision Reg.
Proof. solve_decision. Defined.

(** What the loop uses of a vCPU: register access, MPIDR, and a run that ends in
    an exit with its syndrome and faulting guest-physical address. *)
Class Vcpu (V : Type) := {
  vc_get_reg : V -> Reg -> option Z;
  vc_set_reg : V -> Reg -> Z -> option V;
  vc_set_mpidr : V -> Z -> option V;
  vc_run : V -> option (V * (Z * Z))
}.

(** Registers behave like storage: a write that is accepted is read back and
    leaves the other registers alone, and registers hold 64-bit values. *)
Class VcpuLaws (V : Type) `{!Vcpu V} := {
  vc_get_set : forall v r x v',
    in_u 64 x -> vc_set_reg v r x = Some v' -> vc_get_reg v' r = Some x;
  vc_get_set_ne : forall v r x v' r',
    vc_set_reg v r x = Some v' -> r' <> r -> vc_get_reg v' r' = vc_get_reg v r';
  vc_get_range : forall v r x, vc_get_reg v r = Some x -> in_u 64 x
}.

(** [av_reg_from_index]. *)
Definition av_reg_from_index (index : Z) : option Reg :=
  if (0 <=? index) && (index <=? 30) then Some (X index) else None.

Inductive ShutdownReason :=
  | ReasonSystemOff
  | ReasonSystemReset
  | OperatorRequest
  | GuestFault
  | HvfError
  | VcpuPanic.

(** [RunResult] without the elapsed wall-clock time. *)
Record Counters := mkCounters { mmio_exits : Z; hvc_exits : Z; wfi_exits : Z }.

Section runner.
Context {V : Type} `{!Vcpu V} {D : Type} `{!BusDevice D}.
Variable bus : devmap.

(** What the loop carries from one iteration to the next. *)
Record LoopState := mkLoop {
  ls_vcpu : V;
  ls_devices : gmap handle D;
  ls_counters : Counters;
  ls_pending_advance_pc : bool
}.

(** [let _ = vcpu.set_reg(..)]: a failure is ignored. *)
Definition set_reg_ignore (v : V) (r : Reg) (x : Z) : V := default v (vc_set_reg v r x).

(** The [gp_read] closure of the loop: XZR reads as zero, and so does a register
    the framework cannot read. *)
Definition gp_read (v : V) (reg_idx : Z) : Z :=
  if 31 <=? reg_idx then 0
  else match av_reg_from_index reg_idx with
       | Some reg => default 0 (vc_get_reg v reg)
       | None => 0
       end.

(** The [Exit::Mmio] arm: emulate one load or store against the bus. *)
Definition handle_mmio (v : V) (devs : gmap handle D) (addr : Z) (write : bool) (sas srt : Z)
  : V * gmap handle D :=
  let len := Z.to_nat (Z.min (Z.shiftl 1 sas) 8) in
  if write then
    let value := if 31 <=? srt then 0
                 else default 0 (r ← av_reg_from_index srt; vc_get_reg v r) in
    let buf := splice 0 (take len (le_bytes 8 value)) (repeat 0 8) in
    let '(_, devs') := bus_write bus devs addr (take len buf) in
    (v, devs')
  else
    let buf := repeat 0 8 in
    let '(_, devs', data) := bus_read bus devs addr (take len buf) in
    let value := splice 0 data (repeat 0 8) in
    let x := le_val value in
    match (if srt <? 31 then av_reg_from_index srt else None) with
    | Some r => (set_reg_ignore v r x, devs')
    | None => (v, devs')
    end.

Definition bump_mmio (c : Counters) : Counters :=
  mkCounters (saturating_add 64 (mmio_exits c) 1) (hvc_exits c) (wfi_exits c).

Definition bump_hvc (c : Counters) : Counters :=
  mkCounters (mmio_exits c) (saturating_add 64 (hvc_exits c) 1) (wfi_exits c).

Definition bump_wfi (c : Counters) : Counters :=
  mkCounters (mmio_exits c) (hvc_exits c) (saturating_add 64 (wfi_exits c) 1).

(** The [match dispatch.exit]: the next state and, when the loop breaks, why. *)
Definition handle_exit (s : LoopState) (e : Exit) : LoopState * option ShutdownReason :=
  let v := ls_vcpu s in
  let c := ls_counters s in
  let p := ls_pending_advance_pc s in
  match e with
  | EMmio addr write sas srt _ =>
      let '(v', devs') := handle_mmio v (ls_devices s) addr write sas srt in
      (mkLoop v' devs' (bump_mmio c) p, None)
  | EHvc _ args =>
      let '(x0, outcome) := resolve_hvc_psci args in
      let s' := mkLoop (set_reg_ignore v (X 0) x0) (ls_devices s) (bump_hvc c) p in
      (s', match outcome with
           | Psci.SystemOff => Some ReasonSystemOff
           | Psci.SystemReset => Some ReasonSystemReset
           | Psci.ParkCallerCpuOff => Some ReasonSystemOff
           | Psci.Return _ | Psci.BringUpSecondary _ _ _ | Psci.QueryAffinityInfo _ _ => None
           end)
  | ESmcHandledAsPsciNotSupported _ =>
      (mkLoop (set_reg_ignore v (X 0) (Psci.as_x0 Psci.NotSupported)) (ls_devices s) c p, None)
  | EWfi | EWfe => (mkLoop v (ls_devices s) (bump_wfi c) p, None)
  | ESystemRegister _ _ _ _ _ _ _ | EVtimerActivated => (s, None)
  | EBrk _ => (s, Some GuestFault)
  | ECancelled => (s, Some OperatorRequest)
  | EUnknownExceptionClass _ _ => (s, Some GuestFault)
  end.

(** The deferred advance at the top of an iteration: [None] when a register
    access fails. *)
Definition advance_pc (v : V) (pending : bool) : option V :=
  if pending then pc ← vc_get_reg v PC; vc_set_reg v PC (wadd 64 pc 4) else Some v.

(** One iteration: [shutdown] and [expired] are what the flag and the clock show
    at its start. *)
Definition loop_step (shutdown expired : bool) (s : LoopState)
  : LoopState * option ShutdownReason :=
  if shutdown then (s, Some OperatorRequest)
  else if expired then (s, Some OperatorRequest)
  else
    match advance_pc (ls_vcpu s) (ls_pending_advance_pc s) with
    | None => (s, Some HvfError)
    | Some v1 =>
        match vc_run v1 with
        | None => (mkLoop v1 (ls_devices s) (ls_counters s) false, Some HvfError)
        | Some (v2, (esr, far)) =>
            let d := decode_exception esr far (gp_read v2) in
            handle_exit (mkLoop v2 (ls_devices s) (ls_counters s) (rd_advance_pc d)) (rd_exit d)
        end
    end.

(** The loop over a sequence of observations; [None] when it is still running
    after the last of them. *)
Fixpoint run_loop (env : list (bool * bool)) (s : LoopState)
  : LoopState * option ShutdownReason :=
  match env with
  | [] => (s, None)
  | (shutdown, expired) :: env' =>
      match loop_step shutdown expired s with
      | (s', None) => run_loop env' s'
      | (s', Some r) => (s', Some r)
      end
  end.

(** Setting the boot registers one after the other. *)
Fixpoint set_regs (v : V) (regs : list (Reg * Z)) : option V :=
  match regs with
  | [] => Some v
  | (r, x) :: regs' => v' ← vc_set_reg v r x; set_regs v' regs'
  end.

Definition boot_regs (entry_pc fdt_addr : Z) : list (Reg * Z) :=
  [(PC, entry_pc); (X 0, fdt_addr); (X 1, 0); (X 2, 0); (X 3, 0); (CPSR, 0x3C5)].

(** [run_vcpu0_thread], given the outcome of creating the vCPU. *)
Definition run_vcpu0_thread (created : option V) (devs : gmap handle D) (entry_pc fdt_addr : Z)
  (env : list (bool * bool)) : Counters * option ShutdownReason :=
  let zero := mkCounters 0 0 0 in
  match created with
  | None => (zero, Some HvfError)
  | Some v =>
      match vc_set_mpidr v 0x80000000 with
      | None => (zero, Some HvfError)
      | Some v1 =>
          match set_regs v1 (boot_regs entry_pc fdt_addr) with
          | None => (zero, Some HvfError)
          | Some v2 =>
              let '(s, r) := run_loop env (mkLoop v2 devs zero false) in (ls_counters s, r)
          end
      end
  end.
End runner.

Arguments LoopState V D : clear implicits.

(** A device fills the buffer it is given with bytes and keeps its length. *)
Class BusDeviceLaws (D : Type) `{!BusDevice D} := {
  bd_read_length : forall d off data, length (bd_read d off data).2 = length data;
  bd_read_bytes : forall d off data, bytes_ok data -> bytes_ok (bd_read d off data).2
}.

(** ** Properties of the decoder *)

Lemma advance_pc_classes hi ec il iss far gp :
  0 <= ec < 2 ^ 6 -> 0 <= iss < 2 ^ 25 ->
  rd_advance_pc (decode_exception (esr_word hi ec il iss) far gp) = true <->
  ec ∈ [Esr.DATA_ABORT_LOWER_EL; Esr.DATA_ABORT_SAME_EL; Esr.SYSTEM_REGISTER].
Proof.
  intros Hec Hiss. unfold decode_exception. rewrite decode_word by assumption.
  rewrite !elem_of_cons, elem_of_nil.
  destruct (Z.eqb_spec ec Esr.DATA_ABORT_LOWER_EL); [cbn; tauto|].
  destruct (Z.eqb_spec ec Esr.DATA_ABORT_SAME_EL); [cbn; tauto|]. cbn [orb].
  destruct (Z.eqb_spec ec Esr.HVC) as [->|]; [cbn; intuition discriminate|].
  destruct (Z.eqb_spec ec Esr.SMC) as [->|]; [cbn; intuition discriminate|].
  destruct (Z.eqb_spec ec Esr.SYSTEM_REGISTER); [cbn; tauto|].
  destruct (ec =? Esr.WFX); [destruct (Z.odd iss); cbn; intuition discriminate|].
  destruct (ec =? Esr.BRK_AARCH64); cbn; intuition discriminate.
Qed.

(** ** Properties of the loop *)

Section loop_properties.
Context {V : Type} `{!Vcpu V} `{!VcpuLaws V} {D : Type} `{!BusDevice D} `{!BusDeviceLaws D}.
Variable bus : devmap.
Implicit Types (s : LoopState V D) (v : V).

Lemma gp_read_in_u v i : in_u 64 (gp_read v i).
Proof.
  unfold gp_read. destruct (31 <=? i); [solve_u|].
  destruct (av_reg_from_index i) as [r|]; [|solve_u]. cbn.
  destruct (vc_get_reg v r) as [x|] eqn:Hr; cbn; [by eapply vc_get_range | solve_u].
Qed.

Lemma gp_read_X v i : 0 <= i < 31 -> gp_read v i = default 0 (vc_get_reg v (X i)).
Proof.
  intros Hi. unfold gp_read, av_reg_from_index.
  rewrite (proj2 (Z.leb_gt 31 i)), (proj2 (Z.leb_le 0 i)), (proj2 (Z.leb_le i 30)) by lia. done.
Qed.

(** The value a store of [2 ^ sas] bytes puts on the bus. *)
Lemma store_bytes_eq len x :
  (len <= 8)%nat ->
  take len (splice 0 (take len (le_bytes 8 x)) (repeat 0 8)) = le_bytes len x.
Proof.
  intros Hl. do 9 (destruct len as [|len]; [reflexivity|]). lia.
Qed.

(** A load of [len] bytes is zero-extended. *)
Lemma load_value_eq data :
  (length data <= 8)%nat -> le_val (splice 0 data (repeat 0 8)) = le_val data.
Proof.
  intros Hl. unfold splice. cbn [take]. rewrite app_nil_l, Nat.add_0_l, le_val_app.
  rewrite (le_val_zeros (drop _ _)); [lia|]. apply Forall_drop. by repeat constructor.
Qed.

Lemma bus_read_data devs addr data res devs' data' :
  bytes_ok data -> bus_read (D := D) bus devs addr data = (res, devs', data') ->
  length data' = length data /\ bytes_ok data'.
Proof.
  intros Hok H. unfold bus_read in H. destruct (resolve bus addr) as [[off h]|e]; [|by simplify_eq].
  destruct (devs !! h) as [d|]; [|by simplify_eq].
  destruct (bd_read d off data) as [d' dat] eqn:Hr. simplify_eq.
  pose proof (bd_read_length d off data). pose proof (bd_read_bytes d off data Hok).
  by rewrite Hr in *.
Qed.

(** Width of an access: [1 << sas] bytes, at most 8. *)
Lemma access_len sas :
  0 <= sas < 4 -> Z.to_nat (Z.min (Z.shiftl 1 sas) 8) = Z.to_nat (2 ^ sas) /\
                  (Z.to_nat (2 ^ sas) <= 8)%nat.
Proof.
  intros. rewrite Z.shiftl_1_l.
  assert (2 ^ sas <= 2 ^ 3) by (apply Z.pow_le_mono_r; lia).
  rewrite Z.min_l by lia. split; [done | lia].
Qed.

Lemma handle_mmio_store v devs addr sas srt :
  0 <= sas < 4 -> 0 <= srt < 32 ->
  handle_mmio bus v devs addr true sas srt =
  (v, (bus_write bus devs addr (le_bytes (Z.to_nat (2 ^ sas)) (gp_read v srt))).2).
Proof.
  intros Hs Hr. unfold handle_mmio. destruct (access_len sas Hs) as [-> Hl].
  rewrite store_bytes_eq by done.
  replace (if 31 <=? srt then 0 else _) with (gp_read v srt).
  - by destruct (bus_write _ _ _ _).
  - unfold gp_read, av_reg_from_index. destruct (31 <=? srt); [done|].
    by destruct (_ && _).
Qed.

Lemma take_zeros n : (n <= 8)%nat -> take n (repeat 0 8) = repeat 0 n.
Proof. intros. do 9 (destruct n as [|n]; [reflexivity|]). lia. Qed.

Lemma handle_mmio_load v devs addr sas srt res devs' data :
  0 <= sas < 4 -> 0 <= srt < 32 ->
  bus_read bus devs addr (repeat 0 (Z.to_nat (2 ^ sas))) = (res, devs', data) ->
  handle_mmio bus v devs addr false sas srt =
  (if srt <? 31 then set_reg_ignore v (X srt) (le_val data) else v, devs') /\
  in_u 64 (le_val data) /\ le_val data < 2 ^ (8 * 2 ^ sas).
Proof.
  intros Hs Hr Hb. unfold handle_mmio. destruct (access_len sas Hs) as [-> Hl].
  rewrite take_zeros, Hb by done.
  assert (bytes_ok (repeat 0 (Z.to_nat (2 ^ sas)))) as Hz
    by (apply List.Forall_forall; intros x ->%repeat_spec; unfold byte_ok; lia).
  destruct (bus_read_data _ _ _ _ _ _ Hz Hb) as [Hlen Hok]. rewrite repeat_length in Hlen.
  rewrite load_value_eq by lia. split.
  - destruct (Z.ltb_spec srt 31); [|done]. unfold av_reg_from_index.
    rewrite (proj2 (Z.leb_le 0 srt)), (proj2 (Z.leb_le srt 30)) by lia. done.
  - pose proof (le_val_in_u data Hok) as Hv. unfold zlen in Hv. rewrite Hlen in Hv.
    rewrite Z2Nat.id in Hv by (apply Z.pow_nonneg; lia).
    assert (2 ^ (8 * 2 ^ sas) <= 2 ^ 64).
    { apply Z.pow_le_mono_r; [lia|]. assert (2 ^ sas <= 2 ^ 3) by (apply Z.pow_le_mono_r; lia).
      lia. }
    unfold in_u in *. lia.
Qed.

(** An iteration that runs the guest: the vCPU it enters with and the exit. *)
Definition iteration s (v1 v2 : V) (esr far : Z) : Prop :=
  advance_pc (ls_vcpu s) (ls_pending_advance_pc s) = Some v1 /\ vc_run v1 = Some (v2, (esr, far)).

Lemma loop_step_iteration s v1 v2 esr far :
  iteration s v1 v2 esr far ->
  loop_step bus false false s =
  handle_exit bus (mkLoop v2 (ls_devices s) (ls_counters s)
    (rd_advance_pc (decode_exception esr far (gp_read v2))))
    (rd_exit (decode_exception esr far (gp_read v2))).
Proof. intros [H1 H2]. unfold loop_step. by rewrite H1, H2. Qed.

(** C30: emulating a guest access.  A store puts the low [2^sas] bytes of the
    named register (zero for XZR) on the bus at the faulting address and leaves
    the vCPU alone; a load zero-extends the bytes the bus returns (zero where no
    device answers) into the named register and leaves every other register
    alone, or discards them for XZR; either way exactly one MMIO exit is
    counted and the instruction is stepped over. *)
Theorem mmio_emulation s v1 v2 far hi il isv sas sse srt sf ar mid wnr low :
  0 <= sas < 4 -> 0 <= srt < 32 -> 0 <= mid < 2 ^ 7 -> 0 <= low < 2 ^ 6 ->
  iteration s v1 v2 (esr_word hi Esr.DATA_ABORT_LOWER_EL il
    (data_abort_iss isv sas sse srt sf ar mid wnr low)) far ->
  (forall x, is_Some (vc_set_reg v2 (X srt) x)) ->
  exists s', loop_step bus false false s = (s', None) /\
    ls_pending_advance_pc s' = true /\ ls_counters s' = bump_mmio (ls_counters s) /\
    if wnr then
      ls_vcpu s' = v2 /\
      ls_devices s' = (bus_write bus (ls_devices s) far
        (le_bytes (Z.to_nat (2 ^ sas)) (if srt =? 31 then 0 else default 0 (vc_get_reg v2 (X srt))))).2
    else
      exists res data,
      bus_read bus (ls_devices s) far (repeat 0 (Z.to_nat (2 ^ sas))) = (res, ls_devices s', data) /\
      le_val data < 2 ^ (8 * 2 ^ sas) /\
      (srt < 31 -> vc_get_reg (ls_vcpu s') (X srt) = Some (le_val data) /\
         forall r, r <> X srt -> vc_get_reg (ls_vcpu s') r = vc_get_reg v2 r) /\
      (srt = 31 -> ls_vcpu s' = v2).
Proof.
  intros Hs Hr Hm Hl Hit Hset. rewrite (loop_step_iteration _ _ _ _ _ Hit). clear Hit.
  assert (Hd : decode_exception (esr_word hi Esr.DATA_ABORT_LOWER_EL il
      (data_abort_iss isv sas sse srt sf ar mid wnr low)) far (gp_read v2)
    = mkDispatch (EMmio far wnr sas srt sf) true).
  { unfold decode_exception. rewrite decode_word by first [by apply data_abort_iss_range | by vm_compute].
    rewrite Z.eqb_refl. cbn [orb]. by rewrite decode_data_abort_fields by assumption. }
  rewrite Hd. cbn [rd_exit rd_advance_pc handle_exit ls_vcpu ls_devices ls_counters
    ls_pending_advance_pc]. clear Hd.
  destruct wnr.
  - rewrite handle_mmio_store by done. eexists. split; [reflexivity|].
    split_and!; [done|done|done|]. cbn [ls_devices]. do 3 f_equal.
    destruct (Z.eqb_spec srt 31) as [->|]; [done|]. apply gp_read_X; lia.
  - destruct (bus_read bus (ls_devices s) far (repeat 0 (Z.to_nat (2 ^ sas))))
      as [[res devs'] data] eqn:Hb.
    destruct (handle_mmio_load v2 _ _ _ srt _ _ _ Hs Hr Hb) as (-> & Hv & Hlt).
    eexists. split; [reflexivity|]. split; [done|]. split; [done|].
    exists res, data. cbn [ls_devices ls_vcpu]. split; [done|]. split; [done|].
    destruct (Z.ltb_spec srt 31); split; intros; try lia; [|done].
    unfold set_reg_ignore. destruct (Hset (le_val data)) as [v' Hv']. rewrite Hv'. cbn.
    split; [by eapply vc_get_set | intros; by eapply vc_get_set_ne].
Qed.

Lemma set_reg_ignore_pc v n x : vc_get_reg (set_reg_ignore v (X n) x) PC = vc_get_reg v PC.
Proof.
  unfold set_reg_ignore. destruct (vc_set_reg v (X n) x) as [v'|] eqn:H; [|done]. cbn.
  by apply (vc_get_set_ne _ _ _ _ _ H).
Qed.

Lemma handle_exit_pc s e s' r :
  handle_exit bus s e = (s', r) ->
  vc_get_reg (ls_vcpu s') PC = vc_get_reg (ls_vcpu s) PC /\
  ls_pending_advance_pc s' = ls_pending_advance_pc s.
Proof.
  intros H. destruct e; cbn [handle_exit] in H; try by simplify_eq.
  - unfold handle_mmio in H. destruct write.
    + destruct (bus_write _ _ _ _). by simplify_eq.
    + destruct (bus_read _ _ _ _) as [[? ?] ?].
      destruct (if srt <? 31 then _ else _) as [rg|] eqn:Hg; simplify_eq; [|done].
      destruct (srt <? 31); [|done]. unfold av_reg_from_index in Hg.
      destruct (_ && _); [|done]. simplify_eq. cbn. by rewrite set_reg_ignore_pc.
  - destruct (resolve_hvc_psci args). simplify_eq. cbn. by rewrite set_reg_ignore_pc.
  - simplify_eq. cbn. by rewrite set_reg_ignore_pc.
Qed.

(** Where the guest resumes.  After an exit that does not stop the loop the
    next guest entry happens at the program counter the hypervisor reported,
    plus 4 exactly for data aborts and system-register traps (whose reported
    address is that of the trapping instruction), never twice, and no other
    iteration step moves it. *)
Theorem resume_pc_exact s v1 v2 far hi ec il iss s' v1' v2' esr' far' pc :
  0 <= ec < 2 ^ 6 -> 0 <= iss < 2 ^ 25 ->
  iteration s v1 v2 (esr_word hi ec il iss) far -> vc_get_reg v2 PC = Some pc ->
  loop_step bus false false s = (s', None) -> iteration s' v1' v2' esr' far' ->
  vc_get_reg v1' PC =
    Some (if bool_decide (ec ∈ [Esr.DATA_ABORT_LOWER_EL; Esr.DATA_ABORT_SAME_EL;
                                Esr.SYSTEM_REGISTER])
          then (pc + 4) mod 2 ^ 64 else pc).
Proof.
  intros Hec Hiss Hit Hpc Hstep [Hadv _].
  rewrite (loop_step_iteration _ _ _ _ _ Hit) in Hstep.
  apply handle_exit_pc in Hstep as [Hp Hpend]. cbn [ls_vcpu ls_pending_advance_pc] in *.
  pose proof (advance_pc_classes hi ec il iss far (gp_read v2) Hec Hiss) as Hcls.
  rewrite Hpend in Hadv. unfold advance_pc in Hadv.
  destruct (rd_advance_pc _).
  - rewrite bool_decide_true by (by apply Hcls).
    rewrite Hp, Hpc in Hadv. cbn in Hadv.
    eapply vc_get_set; [|done]. apply wrap_in_u. lia.
  - rewrite bool_decide_false by (intros H%Hcls; discriminate).
    simplify_eq. by rewrite Hp.
Qed.

Lemma psci_stop_off f a1 a2 a3 :
  Psci.dispatch f a1 a2 a3 = Psci.SystemOff \/ Psci.dispatch f a1 a2 a3 = Psci.ParkCallerCpuOff <->
  f = Psci.CPU_OFF \/ f = Psci.SYSTEM_OFF.
Proof.
  unfold Psci.dispatch. split.
  - intros H.
    destruct (Z.eqb_spec f Psci.PSCI_VERSION); [by destruct H|].
    destruct (Z.eqb_spec f Psci.CPU_OFF); [by left|].
    destruct (f =? Psci.CPU_ON); [by destruct H|].
    destruct (f =? Psci.AFFINITY_INFO); [by destruct H|].
    destruct (f =? Psci.MIGRATE_INFO_TYPE); [by destruct H|].
    destruct (Z.eqb_spec f Psci.SYSTEM_OFF); [by right|].
    destruct (f =? Psci.SYSTEM_RESET); [by destruct H|].
    destruct (f =? Psci.PSCI_FEATURES); [|by destruct H].
    by destruct (Psci.supported _); destruct H.
  - intros [-> | ->]; [by right | by left].
Qed.

Lemma psci_stop_reset f a1 a2 a3 :
  Psci.dispatch f a1 a2 a3 = Psci.SystemReset <-> f = Psci.SYSTEM_RESET.
Proof.
  unfold Psci.dispatch. split; [|by intros ->].
  intros H.
  destruct (f =? Psci.PSCI_VERSION); [done|]. destruct (f =? Psci.CPU_OFF); [done|].
  destruct (f =? Psci.CPU_ON); [done|]. destruct (f =? Psci.AFFINITY_INFO); [done|].
  destruct (f =? Psci.MIGRATE_INFO_TYPE); [done|]. destruct (f =? Psci.SYSTEM_OFF); [done|].
  destruct (Z.eqb_spec f Psci.SYSTEM_RESET); [done|].
  destruct (f =? Psci.PSCI_FEATURES); [|done]. by destruct (Psci.supported _).
Qed.

(** The reason an iteration that ran the guest stops with, from its syndrome. *)
Definition stop_reason (esr : Z) (v2 : V) : option ShutdownReason :=
  match Esr.decode esr with
  | Esr.Hvc _ =>
      let f := wrap 32 (gp_read v2 0) in
      if bool_decide (f = Psci.CPU_OFF \/ f = Psci.SYSTEM_OFF) then Some ReasonSystemOff
      else if bool_decide (f = Psci.SYSTEM_RESET) then Some ReasonSystemReset
      else None
  | Esr.Brk _ | Esr.Other _ _ => Some GuestFault
  | _ => None
  end.

Lemma handle_exit_reason s v2 esr far :
  (handle_exit bus s (rd_exit (decode_exception esr far (gp_read v2)))).2 = stop_reason esr v2.
Proof.
  unfold decode_exception, stop_reason.
  destruct (Esr.decode esr); cbn [rd_exit handle_exit snd]; try done.
  - by destruct (handle_mmio _ _ _ _ _ _ _).
  - unfold resolve_hvc_psci. cbn [snd].
    set (f := wrap 32 (gp_read v2 0)). set (o := Psci.dispatch f _ _ _).
    pose proof (psci_stop_off f (gp_read v2 1) (gp_read v2 2) (gp_read v2 3)) as Hoff.
    pose proof (psci_stop_reset f (gp_read v2 1) (gp_read v2 2) (gp_read v2 3)) as Hres.
    fold o in Hoff, Hres.
    destruct (bool_decide_reflect (f = Psci.CPU_OFF \/ f = Psci.SYSTEM_OFF)) as [H1|H1].
    { apply Hoff in H1 as [-> | ->]; done. }
    destruct (bool_decide_reflect (f = Psci.SYSTEM_RESET)) as [H2|H2].
    { by rewrite (proj2 Hres H2). }
    destruct o; try done; exfalso; tauto.
Qed.

(** An iteration that runs the guest stops the loop exactly for a PSCI
    power call on the single vCPU ([CPU_OFF], [SYSTEM_OFF], [SYSTEM_RESET]), a
    BRK or an unknown exception class, with the matching reason; it never ends
    with the operator-request reason, not even when the vCPU was cancelled. *)
Theorem exit_reason_exact s v1 v2 esr far :
  iteration s v1 v2 esr far ->
  (loop_step bus false false s).2 = stop_reason esr v2 /\
  (loop_step bus false false s).2 <> Some OperatorRequest.
Proof.
  intros Hit. rewrite (loop_step_iteration _ _ _ _ _ Hit), handle_exit_reason.
  split; [done|]. unfold stop_reason. destruct (Esr.decode esr); try done.
  by repeat case_bool_decide.
Qed.

(** The loop stops: once the shutdown flag or the wall-clock budget shows
    at the start of some iteration, the run has ended by that iteration,
    whatever the guest does; and a run stops with the operator-request reason
    only because of one of these two observations. *)
Theorem run_loop_stops env s k o :
  env !! k = Some o -> (o.1 || o.2) = true ->
  exists s' r, run_loop bus (take (S k) env) s = (s', Some r) /\
    run_loop bus env s = (s', Some r) /\
    (r = OperatorRequest ->
     exists j o', (j <= k)%nat /\ env !! j = Some o' /\ (o'.1 || o'.2) = true).
Proof.
  revert s k. induction env as [|[sh ex] env IH]; intros s k Hk Ho; [done|].
  destruct k as [|k]; cbn in Hk.
  - simplify_eq. cbn in Ho. exists s, OperatorRequest. cbn [take run_loop]. unfold loop_step.
    assert (Hq : exists j o', (j <= 0)%nat /\ ((sh, ex) :: env) !! j = Some o' /\
      (o'.1 || o'.2) = true) by (exists 0%nat, (sh, ex); done).
    destruct sh; [done|]. by destruct ex.
  - change (take (S (S k)) ((sh, ex) :: env)) with ((sh, ex) :: take (S k) env).
    cbn [run_loop]. destruct (loop_step bus sh ex s) as [s1 [r|]] eqn:Hst.
    + exists s1, r. split_and!; [done|done|]. intros ->. exists 0%nat, (sh, ex).
      split_and!; [lia|done|]. unfold loop_step in Hst.
      destruct sh; [done|]. destruct ex; [done|].
      destruct (advance_pc _ _) as [v1|]; [|by simplify_eq].
      destruct (vc_run v1) as [[v2 [esr far]]|]; [|by simplify_eq].
      apply (f_equal snd) in Hst. rewrite handle_exit_reason in Hst. unfold stop_reason in Hst.
      cbn [snd] in Hst. destruct (Esr.decode esr); try done.
      by repeat case_bool_decide.
    + destruct (IH s1 k Hk Ho) as (s' & r & Ht & Hr & Hop). exists s', r.
      split_and!; [done|done|]. intros Hre. destruct (Hop Hre) as (j & o' & Hj & ? & ?).
      exists (S j), o'. split; [lia | done].
Qed.

Lemma set_regs_get v regs v' :
  NoDup regs.*1 -> Forall (fun p => in_u 64 p.2) regs -> set_regs v regs = Some v' ->
  (forall r x, (r, x) ∈ regs -> vc_get_reg v' r = Some x) /\
  (forall r, r ∉ regs.*1 -> vc_get_reg v' r = vc_get_reg v r).
Proof.
  revert v. induction regs as [|[r x] regs IH]; intros v Hnd Hu H; cbn in H.
  { simplify_eq. split; [|done]. by intros ? ? ?%elem_of_nil. }
  destruct (vc_set_reg v r x) as [v1|] eqn:Hs; [|done]. cbn in H.
  cbn in Hnd. apply NoDup_cons in Hnd as [Hnin Hnd]. inversion Hu as [|? ? Hx Hu']; subst.
  destruct (IH v1 Hnd Hu' H) as [Hin Hout]. split.
  - intros r' x' [[= -> ->]|Hrx]%elem_of_cons; [|by apply Hin].
    rewrite Hout by done. by eapply vc_get_set.
  - intros r' [? ?]%not_elem_of_cons. rewrite Hout by done. by eapply vc_get_set_ne.
Qed.
End loop_properties.

(** ** A scripted vCPU *)

(** Registers as a function and the exits the guest will take. *)
Record script_vcpu := mkScript { sv_regs : Reg -> Z; sv_exits : list (Z * Z) }.

#[export] Instance script_Vcpu : Vcpu script_vcpu := {
  vc_get_reg v r := Some (wrap 64 (sv_regs v r));
  vc_set_reg v r x :=
    Some (mkScript (fun r' => if decide (r' = r) then x else sv_regs v r') (sv_exits v));
  vc_set_mpidr v _ := Some v;
  vc_run v := match sv_exits v with
              | [] => None
              | e :: es => Some (mkScript (sv_regs v) es, e)
              end
}.

#[export] Instance script_VcpuLaws : VcpuLaws script_vcpu.
Proof.
  split; cbn.
  - intros v r x v' Hx [= <-]. cbn. rewrite decide_True by done. by rewrite wrap_small.
  - intros v r x v' r' [= <-] Hne. cbn. by rewrite decide_False.
  - intros v r x [= <-]. apply wrap_in_u; lia.
Qed.

#[export] Instance recorder_BusDeviceLaws : BusDeviceLaws recorder.
Proof. split; intros; done. Qed.

Definition ex_store_esr : Z :=
  esr_word 0 Esr.DATA_ABORT_LOWER_EL true (data_abort_iss true 2 false 5 false false 0 true 7).

Definition ex_hvc_esr : Z := esr_word 0 Esr.HVC true 0.

(** A guest that stores the low word of X5 to [0x1004], then calls
    [SYSTEM_OFF]. *)
Definition ex_vcpu : script_vcpu :=
  mkScript (fun r => if decide (r = X 5) then 0x11223344AABBCCDD
                     else if decide (r = X 0) then Psci.SYSTEM_OFF else 0x1000)
    [(ex_store_esr, 0x1004); (ex_hvc_esr, 0)].

Definition ex_bus : devmap := [(mkBusRange 0x1000 0x1000, 0%nat)].

Definition ex_loop : LoopState script_vcpu recorder :=
  mkLoop ex_vcpu {[ 0%nat := [] ]} (mkCounters 0 0 0) false.

Lemma mmio_emulation_witness :
  exists s', loop_step ex_bus false false ex_loop = (s', None) /\
    ls_devices s' !! 0%nat = Some [(4, [0xDD; 0xCC; 0xBB; 0xAA])].
Proof.
  destruct (mmio_emulation ex_bus ex_loop ex_vcpu
    (mkScript (sv_regs ex_vcpu) [(ex_hvc_esr, 0)]) 0x1004 0 true true 2 false 5 false false 0 true 7)
    as (s' & Hs & _ & _ & _ & Hd); try (by vm_compute).
  - intros x. cbn. by eexists.
  - exists s'. split; [exact Hs|]. rewrite Hd. by vm_compute.
Defined.

Lemma resume_pc_exact_witness :
  exists v1', vc_get_reg v1' PC = Some 0x1004 /\
    advance_pc (ls_vcpu (loop_step ex_bus false false ex_loop).1) true = Some v1'.
Proof.
  eexists. split; [|reflexivity].
  rewrite (resume_pc_exact ex_bus ex_loop ex_vcpu (mkScript (sv_regs ex_vcpu) [(ex_hvc_esr, 0)])
    0x1004 0 Esr.DATA_ABORT_LOWER_EL true (data_abort_iss true 2 false 5 false false 0 true 7)
    (loop_step ex_bus false false ex_loop).1 _
    (mkScript (fun r' => if decide (r' = PC) then 0x1004 else sv_regs ex_vcpu r') [])
    ex_hvc_esr 0 0x1000); first [by vm_compute | split; reflexivity].
Defined.

Definition ex_off_loop : LoopState script_vcpu recorder :=
  mkLoop (mkScript (sv_regs ex_vcpu) [(ex_hvc_esr, 0)]) ∅ (mkCounters 0 0 0) false.

Lemma exit_reason_exact_witness :
  (loop_step ex_bus false false ex_off_loop).2 = Some ReasonSystemOff.
Proof.
  rewrite (proj1 (exit_reason_exact ex_bus ex_off_loop
    (mkScript (sv_regs ex_vcpu) [(ex_hvc_esr, 0)])
    (mkScript (sv_regs ex_vcpu) []) ex_hvc_esr 0 ltac:(split; reflexivity))).
  by vm_compute.
Defined.

Lemma run_loop_stops_witness :
  exists s' r, run_loop ex_bus [(false, false); (true, false)] ex_loop = (s', Some r).
Proof.
  destruct (run_loop_stops ex_bus [(false, false); (true, false)] ex_loop 1 (true, false))
    as (s' & r & _ & H & _); [reflexivity..|]. by exists s', r.
Defined.
