(* ===== verification/Transport.v ===== *)
(** * Transport: interrupt lines, the virtio device interface and the
      virtio-MMIO register block

    Models [src/crates/virtio/src/interrupt.rs] ([IrqLine]), the [Gic] trait of
    [src/crates/gic/src/lib.rs], the [VirtioDevice] trait of
    [src/crates/virtio/src/device.rs] and the transport of
    [src/crates/virtio/src/transport.rs] with its status and feature constants
    ([device_status.rs], [feature_bits.rs]).

    A transport owns its device; guest memory and the interrupt line are shared
    with it and form the [World] that operations thread through.  The client
    theorems are proved against [VirtioDevice] and its laws. *)

From stdpp Require Import base numbers list option gmap.
From Stdlib Require Import ZArith Lia.
From S2P Require Import Prelude GuestMem Bus Arch Virtqueue.

Local Open Scope Z_scope.

(** ** Interrupt delivery *)

Inductive GicError := Hvf | UnsupportedHost.

(** The [Gic] trait: what devices use of the interrupt controller. *)
Class Gic (G : Type) := {
  pulse_spi : G -> Gic.IntId -> G * result GicError unit;
  set_spi_level : G -> Gic.IntId -> bool -> G * result GicError unit
}.

Definition INT_VRING : Z := 1.
Definition INT_CONFIG : Z := 2.

(** [IrqLine]: the shared controller, the line's INTID and the atomic
    [InterruptStatus] word. *)
Record IrqLine (G : Type) := mkIrq {
  irq_gic : G;
  irq_intid : Gic.IntId;
  irq_status : Z
}.
Arguments mkIrq {G}.
Arguments irq_gic {G}.
Arguments irq_intid {G}.
Arguments irq_status {G}.

Section irq.
Context {G : Type} `{!Gic G}.

Definition IrqLine_new (gic : G) (intid : Gic.IntId) : IrqLine G := mkIrq gic intid 0.

Definition trigger_queue (l : IrqLine G) : IrqLine G * result GicError unit :=
  let status := Z.lor (irq_status l) INT_VRING in
  let '(g, r) := pulse_spi (irq_gic l) (irq_intid l) in
  (mkIrq g (irq_intid l) status, r).

Definition trigger_config (l : IrqLine G) : IrqLine G * result GicError unit :=
  let status := Z.lor (irq_status l) INT_CONFIG in
  let '(g, r) := pulse_spi (irq_gic l) (irq_intid l) in
  (mkIrq g (irq_intid l) status, r).

Definition irq_ack (l : IrqLine G) (mask : Z) : IrqLine G :=
  mkIrq (irq_gic l) (irq_intid l) (Z.land (irq_status l) (wnot 32 mask)).
End irq.

(** What a device shares with the rest of the machine. *)
Record World (M G : Type) := mkWorld { w_mem : M; w_irq : IrqLine G }.
Arguments mkWorld {M G}.
Arguments w_mem {M G}.
Arguments w_irq {M G}.

(** ** The [VirtioDevice] trait *)

Inductive ActivateError := BackendUnavailable | IncompatibleFeatures | ActivateOther.

Class VirtioDevice (W D : Type) := {
  vd_device_id : D -> Z;
  vd_avail_features : D -> Z;
  vd_acked_features : D -> Z;
  vd_set_acked_features : D -> Z -> D;
  vd_queues : D -> list Queue;
  vd_set_queues : D -> list Queue -> D;
  vd_read_config : D -> Z -> list Z -> list Z;
  vd_write_config : D -> Z -> list Z -> D;
  vd_activate : D -> W -> D * result ActivateError unit;
  vd_is_activated : D -> bool;
  vd_process_queue : D -> W -> Z -> D * W
}.

(** What the transport relies on: feature and queue state are fields of their
    own, the offered features never change, and a device that is activated
    stays so. *)
Class VirtioDeviceLaws (W D : Type) `{!VirtioDevice W D} := {
  vd_avail_u64 : forall d, in_u 64 (vd_avail_features d);
  vd_acked_set : forall d x, vd_acked_features (vd_set_acked_features d x) = x;
  vd_acked_queues : forall d qs, vd_acked_features (vd_set_queues d qs) = vd_acked_features d;
  vd_acked_config : forall d o bs, vd_acked_features (vd_write_config d o bs) = vd_acked_features d;
  vd_acked_activate : forall d w, vd_acked_features (vd_activate d w).1 = vd_acked_features d;
  vd_acked_process : forall d w i, vd_acked_features (vd_process_queue d w i).1 = vd_acked_features d;
  vd_avail_set : forall d x, vd_avail_features (vd_set_acked_features d x) = vd_avail_features d;
  vd_avail_queues : forall d qs, vd_avail_features (vd_set_queues d qs) = vd_avail_features d;
  vd_avail_config : forall d o bs, vd_avail_features (vd_write_config d o bs) = vd_avail_features d;
  vd_avail_activate : forall d w, vd_avail_features (vd_activate d w).1 = vd_avail_features d;
  vd_avail_process : forall d w i, vd_avail_features (vd_process_queue d w i).1 = vd_avail_features d;
  vd_queues_set : forall d qs, length qs = length (vd_queues d) -> vd_queues (vd_set_queues d qs) = qs;
  vd_queues_acked : forall d x, vd_queues (vd_set_acked_features d x) = vd_queues d;
  vd_queues_activate : forall d w, vd_queues (vd_activate d w).1 = vd_queues d;
  vd_activated_ok : forall d w d', vd_activate d w = (d', Ok tt) -> vd_is_activated d' = true;
  vd_activated_err : forall d w d' e, vd_activate d w = (d', Err e) -> vd_is_activated d' = vd_is_activated d;
  vd_activated_set : forall d x, vd_is_activated (vd_set_acked_features d x) = vd_is_activated d;
  vd_activated_queues : forall d qs, vd_is_activated (vd_set_queues d qs) = vd_is_activated d;
  vd_activated_config : forall d o bs, vd_is_activated (vd_write_config d o bs) = vd_is_activated d;
  vd_activated_process : forall d w i, vd_is_activated (vd_process_queue d w i).1 = vd_is_activated d
}.

(** ** Constants *)

Definition INIT : Z := 0.
Definition ACKNOWLEDGE : Z := 1.
Definition DRIVER : Z := 2.
Definition DRIVER_OK : Z := 4.
Definition FEATURES_OK : Z := 8.
Definition DEVICE_NEEDS_RESET : Z := 64.
Definition FAILED : Z := 128.

Definition VERSION_1 : Z := Z.shiftl 1 32.

Definition MMIO_MAGIC_VALUE : Z := 0x74726976.
Definition MMIO_VERSION : Z := 2.
Definition VENDOR_ID : Z := 0.

(** [is_valid_transition]. *)
Definition is_valid_transition (from to : Z) : bool :=
  existsb (fun ft => (fst ft =? from) && (snd ft =? to))
    [(INIT, ACKNOWLEDGE);
     (ACKNOWLEDGE, Z.lor ACKNOWLEDGE DRIVER);
     (Z.lor ACKNOWLEDGE DRIVER, Z.lor (Z.lor ACKNOWLEDGE DRIVER) FEATURES_OK);
     (Z.lor (Z.lor ACKNOWLEDGE DRIVER) FEATURES_OK,
      Z.lor (Z.lor (Z.lor ACKNOWLEDGE DRIVER) FEATURES_OK) DRIVER_OK)].

(** Writing the low or high word of a 64-bit ring address. *)
Definition set_low (addr value : Z) : Z := Z.lor (Z.land addr (wnot 64 0xFFFFFFFF)) value.

Definition set_high (addr value : Z) : Z :=
  Z.lor (wrap 64 (Z.shiftl value 32)) (Z.land addr 0xFFFFFFFF).

Definition q_set_ready (q : Queue) (b : bool) : Queue :=
  mkQueue (max_size q) (size q) b (desc_table_addr q) (avail_ring_addr q) (used_ring_addr q)
    (next_avail_idx q) (next_used_idx q).

Definition q_set_desc (q : Queue) (a : Z) : Queue :=
  mkQueue (max_size q) (size q) (ready q) a (avail_ring_addr q) (used_ring_addr q)
    (next_avail_idx q) (next_used_idx q).

Definition q_set_avail (q : Queue) (a : Z) : Queue :=
  mkQueue (max_size q) (size q) (ready q) (desc_table_addr q) a (used_ring_addr q)
    (next_avail_idx q) (next_used_idx q).

Definition q_set_used (q : Queue) (a : Z) : Queue :=
  mkQueue (max_size q) (size q) (ready q) (desc_table_addr q) (avail_ring_addr q) a
    (next_avail_idx q) (next_used_idx q).

(** ** The transport *)

Record VirtioMmioTransport (D : Type) := mkTransport {
  t_device : D;
  t_device_features_sel : Z;
  t_driver_features_sel : Z;
  t_driver_features : Z;
  t_queue_select : Z;
  t_status : Z;
  t_config_generation : Z
}.
Arguments mkTransport {D}.
Arguments t_device {D}.
Arguments t_device_features_sel {D}.
Arguments t_driver_features_sel {D}.
Arguments t_driver_features {D}.
Arguments t_queue_select {D}.
Arguments t_status {D}.
Arguments t_config_generation {D}.

Section transport.
Context {M G D : Type} `{!GuestMemory M} `{!Gic G} `{!VirtioDevice (World M G) D}.

Local Abbreviation W := (World M G).
Local Abbreviation T := (VirtioMmioTransport D).
Local Abbreviation vd_activate := (@vd_activate W D _).
Local Abbreviation vd_process_queue := (@vd_process_queue W D _).

Definition Transport_new (device : D) : T := mkTransport device 0 0 0 0 INIT 0.

Definition with_device (t : T) (d : D) : T :=
  mkTransport d (t_device_features_sel t) (t_driver_features_sel t) (t_driver_features t)
    (t_queue_select t) (t_status t) (t_config_generation t).

Definition with_status (t : T) (s : Z) : T :=
  mkTransport (t_device t) (t_device_features_sel t) (t_driver_features_sel t)
    (t_driver_features t) (t_queue_select t) s (t_config_generation t).

Definition accept_config_write (t : T) : bool := Z.land (t_status t) DRIVER_OK =? 0.

Definition device_features_page (t : T) : Z :=
  let features := Z.lor (vd_avail_features (W := W) (t_device t)) VERSION_1 in
  if t_device_features_sel t =? 0 then wrap 32 features
  else if t_device_features_sel t =? 1 then wrap 32 (Z.shiftr features 32)
  else 0.

Definition queue_field (t : T) (f : Queue -> Z) : Z :=
  default 0 (f <$> vd_queues (W := W) (t_device t) !! Z.to_nat (t_queue_select t)).

Definition read_u32_register (t : T) (w : W) (offset : Z) : Z :=
  if offset =? 0x00 then MMIO_MAGIC_VALUE
  else if offset =? 0x04 then MMIO_VERSION
  else if offset =? 0x08 then vd_device_id (W := W) (t_device t)
  else if offset =? 0x0C then VENDOR_ID
  else if offset =? 0x10 then device_features_page t
  else if offset =? 0x34 then queue_field t max_size
  else if offset =? 0x38 then queue_field t size
  else if offset =? 0x44 then queue_field t (fun q => if ready q then 1 else 0)
  else if offset =? 0x60 then irq_status (w_irq w)
  else if offset =? 0x70 then t_status t
  else if offset =? 0xFC then t_config_generation t
  else 0.

Definition handle_driver_features_write (t : T) (value : Z) : T :=
  let avail := Z.lor (vd_avail_features (W := W) (t_device t)) VERSION_1 in
  let apply shifted :=
    let driver_features := Z.lor (t_driver_features t) (Z.land shifted avail) in
    mkTransport (vd_set_acked_features (W := W) (t_device t) driver_features)
      (t_device_features_sel t) (t_driver_features_sel t) driver_features
      (t_queue_select t) (t_status t) (t_config_generation t) in
  if t_driver_features_sel t =? 0 then apply value
  else if t_driver_features_sel t =? 1 then apply (wrap 64 (Z.shiftl value 32))
  else t.

Definition update_queue_field (t : T) (f : Queue -> Queue) : T :=
  if negb (Z.land (t_status t) DRIVER_OK =? 0) then t
  else
    let i := Z.to_nat (t_queue_select t) in
    let qs := vd_queues (W := W) (t_device t) in
    match qs !! i with
    | Some q => with_device t (vd_set_queues (W := W) (t_device t) (<[i := f q]> qs))
    | None => t
    end.

Definition handle_queue_notify (t : T) (w : W) (queue_index : Z) : T * W :=
  if Z.land (t_status t) DRIVER_OK =? 0 then (t, w)
  else
    let '(d, w') := vd_process_queue (t_device t) w queue_index in
    (with_device t d, w').

Definition activate_device (t : T) (w : W) : T :=
  if vd_is_activated (W := W) (t_device t) then t
  else
    match vd_activate (t_device t) w with
    | (d, Ok _) => with_device t d
    | (d, Err _) => with_status (with_device t d) (Z.lor (t_status t) DEVICE_NEEDS_RESET)
    end.

Definition reset (t : T) : T :=
  let d := vd_set_queues (W := W) (t_device t) (queue_reset <$> vd_queues (W := W) (t_device t)) in
  mkTransport (vd_set_acked_features (W := W) d 0) 0 0 0 0 INIT (t_config_generation t).

Definition set_status (t : T) (w : W) (value : Z) : T :=
  if value =? INIT then reset t
  else if negb (Z.land value FAILED =? 0) then with_status t (Z.lor (t_status t) FAILED)
  else if negb (is_valid_transition (t_status t) value) then t
  else
    let t' := with_status t value in
    if negb (Z.land value DRIVER_OK =? 0) then activate_device t' w else t'.

Definition write_register (t : T) (w : W) (offset value : Z) : T * W :=
  let keep t' := (t', w) in
  if offset =? 0x14 then
    keep (mkTransport (t_device t) value (t_driver_features_sel t) (t_driver_features t)
            (t_queue_select t) (t_status t) (t_config_generation t))
  else if offset =? 0x20 then keep (handle_driver_features_write t value)
  else if offset =? 0x24 then
    keep (mkTransport (t_device t) (t_device_features_sel t) value (t_driver_features t)
            (t_queue_select t) (t_status t) (t_config_generation t))
  else if offset =? 0x30 then
    keep (mkTransport (t_device t) (t_device_features_sel t) (t_driver_features_sel t)
            (t_driver_features t) value (t_status t) (t_config_generation t))
  else if offset =? 0x38 then keep (update_queue_field t (fun q => set_size q (wrap 16 value)))
  else if offset =? 0x44 then keep (update_queue_field t (fun q => q_set_ready q (value =? 1)))
  else if offset =? 0x50 then handle_queue_notify t w (wrap 16 value)
  else if offset =? 0x64 then (t, mkWorld (w_mem w) (irq_ack (w_irq w) value))
  else if offset =? 0x70 then keep (set_status t w value)
  else if offset =? 0x80 then
    keep (update_queue_field t (fun q => q_set_desc q (set_low (desc_table_addr q) value)))
  else if offset =? 0x84 then
    keep (update_queue_field t (fun q => q_set_desc q (set_high (desc_table_addr q) value)))
  else if offset =? 0x90 then
    keep (update_queue_field t (fun q => q_set_avail q (set_low (avail_ring_addr q) value)))
  else if offset =? 0x94 then
    keep (update_queue_field t (fun q => q_set_avail q (set_high (avail_ring_addr q) value)))
  else if offset =? 0xA0 then
    keep (update_queue_field t (fun q => q_set_used q (set_low (used_ring_addr q) value)))
  else if offset =? 0xA4 then
    keep (update_queue_field t (fun q => q_set_used q (set_high (used_ring_addr q) value)))
  else keep t.

(** The [BusDevice] methods of the transport. *)
Definition transport_read (t : T) (w : W) (offset : Z) (data : list Z) : list Z :=
  if (0 <=? offset) && (offset <=? 0xFF) && (zlen data =? 4)
  then le_bytes 4 (read_u32_register t w offset)
  else if (0x100 <=? offset) && (offset <=? 0xFFF)
  then vd_read_config (W := W) (t_device t) (offset - 0x100) data
  else repeat 0 (length data).

Definition transport_write (t : T) (w : W) (offset : Z) (data : list Z) : T * W :=
  if (0 <=? offset) && (offset <=? 0xFF) && (zlen data =? 4)
  then write_register t w offset (le_val data)
  else if (0x100 <=? offset) && (offset <=? 0xFFF)
  then if accept_config_write t
       then (with_device t (vd_write_config (W := W) (t_device t) (offset - 0x100) data), w)
       else (t, w)
  else (t, w).

(** A sequence of guest writes to the block. *)
Fixpoint transport_writes (t : T) (w : W) (ops : list (Z * list Z)) : T * W :=
  match ops with
  | [] => (t, w)
  | (offset, data) :: ops' =>
      let '(t', w') := transport_write t w offset data in transport_writes t' w' ops'
  end.
End transport.

(** The two halves of a ring address can be written in either order. *)
Lemma set_low_eq a lo : in_u 64 a -> in_u 32 lo -> set_low a lo = a / 2 ^ 32 * 2 ^ 32 + lo.
Proof.
  intros Ha Hlo. unfold set_low. change 0xFFFFFFFF with (2 ^ 32 - 1).
  rewrite land_wnot_align by (done || lia).
  replace (a - a mod 2 ^ 32) with (a / 2 ^ 32 * 2 ^ 32)
    by (pose proof (Z.div_mod a (2 ^ 32)); lia).
  apply lor_mul_pow2; [lia | exact Hlo].
Qed.

Lemma set_high_eq a hi : in_u 64 a -> in_u 32 hi -> set_high a hi = hi * 2 ^ 32 + a mod 2 ^ 32.
Proof.
  intros Ha Hhi. unfold set_high. change 0xFFFFFFFF with (2 ^ 32 - 1).
  rewrite land_ones_wrap, Z.shiftl_mul_pow2 by lia. rewrite wrap_small by solve_u.
  apply lor_mul_pow2; [lia | apply wrap_in_u; lia].
Qed.

Lemma set_low_high a lo hi :
  in_u 64 a -> in_u 32 lo -> in_u 32 hi ->
  set_high (set_low a lo) hi = hi * 2 ^ 32 + lo /\ set_low (set_high a hi) lo = hi * 2 ^ 32 + lo.
Proof.
  intros Ha Hlo Hhi.
  assert (0 <= a / 2 ^ 32 < 2 ^ 32)
    by (split; [apply Z.div_pos | apply Z.div_lt_upper_bound]; solve_u).
  pose proof (Z.mod_pos_bound a (2 ^ 32) ltac:(lia)).
  rewrite (set_low_eq a lo), (set_high_eq a hi) by done. unfold in_u in *. split.
  - rewrite set_high_eq by (unfold in_u; lia).
    by rewrite (Z.add_comm (_ * _) lo), Z.mod_add, Z.mod_small by lia.
  - rewrite set_low_eq by (unfold in_u; lia).
    by rewrite Z.div_add_l, Z.div_small, Z.add_0_r by lia.
Qed.

(** ** Steps of the transport

    Every guest write is one of these steps; invariants are proved by cases on
    them. *)

Section steps.
Context {M G D : Type} `{!GuestMemory M} `{!Gic G} `{!VirtioDevice (World M G) D}.
Local Abbreviation W := (World M G).
Local Abbreviation T := (VirtioMmioTransport D).

(** The updates the queue registers can make. *)
Inductive queue_update : (Queue -> Queue) -> Prop :=
| qu_size v : queue_update (fun q => set_size q (wrap 16 v))
| qu_ready b : queue_update (fun q => q_set_ready q b)
| qu_desc f : queue_update (fun q => q_set_desc q (f (desc_table_addr q)))
| qu_avail f : queue_update (fun q => q_set_avail q (f (avail_ring_addr q)))
| qu_used f : queue_update (fun q => q_set_used q (f (used_ring_addr q))).

(** [tstep t w l t' w']: one write, with its value in [l] if it is a write to
    the status register. *)
Inductive tstep (t : T) (w : W) : option Z -> T -> W -> Prop :=
| ts_status v : tstep t w (Some v) (set_status t w v) w
| ts_notify i t' w' : handle_queue_notify t w i = (t', w') -> tstep t w None t' w'
| ts_features v : in_u 32 v -> tstep t w None (handle_driver_features_write t v) w
| ts_queue f : queue_update f -> tstep t w None (update_queue_field t f) w
| ts_ack mask : tstep t w None t (mkWorld (w_mem w) (irq_ack (w_irq w) mask))
| ts_select a b c :
    tstep t w None (mkTransport (t_device t) a b (t_driver_features t) c (t_status t)
                      (t_config_generation t)) w
| ts_config o bs :
    accept_config_write t = true ->
    tstep t w None (with_device t (vd_write_config (W := W) (t_device t) o bs)) w
| ts_ignored : tstep t w None t w.

(** The value of a write to the status register. *)
Definition status_value (op : Z * list Z) : option Z :=
  if (fst op =? 0x70) && (zlen (snd op) =? 4) then Some (le_val (snd op)) else None.

Lemma write_register_step t w off v t' w' :
  in_u 32 v -> write_register t w off v = (t', w') ->
  tstep t w (if off =? 0x70 then Some v else None) t' w'.
Proof.
  intros Hv H. unfold write_register in H.
  repeat match type of H with
  | (if ?o =? ?c then _ else _) = _ =>
      destruct (Z.eqb_spec o c) as [->|]; [injection H as <- <- || cbn in H; cbn|]
  end; try (by econstructor); try (by eapply ts_notify).
  all: try (apply ts_queue; first
    [ constructor
    | apply (qu_desc (fun a => set_low a v)) | apply (qu_desc (fun a => set_high a v))
    | apply (qu_avail (fun a => set_low a v)) | apply (qu_avail (fun a => set_high a v))
    | apply (qu_used (fun a => set_low a v)) | apply (qu_used (fun a => set_high a v)) ]).
  injection H as <- <-. constructor.
Qed.

Lemma transport_write_step t w off data t' w' :
  bytes_ok data -> transport_write t w off data = (t', w') ->
  tstep t w (status_value (off, data)) t' w'.
Proof.
  intros Hok H. unfold transport_write in H. unfold status_value; cbn [fst snd].
  destruct (zlen data =? 4) eqn:Hl.
  - rewrite andb_true_r in H |- *. apply Z.eqb_eq in Hl.
    destruct ((0 <=? off) && (off <=? 0xFF)) eqn:Hr.
    + apply write_register_step in H; [done|].
      pose proof (le_val_in_u data Hok) as Hu. by rewrite Hl in Hu.
    + destruct (Z.eqb_spec off 0x70) as [->|_]; [done|].
      destruct ((0x100 <=? off) && (off <=? 0xFFF)); [|injection H as <- <-; constructor].
      destruct (accept_config_write t) eqn:?; injection H as <- <-; by constructor.
  - rewrite !andb_false_r in *.
    destruct ((0x100 <=? off) && (off <=? 0xFFF)); [|injection H as <- <-; constructor].
    destruct (accept_config_write t) eqn:?; injection H as <- <-; by constructor.
Qed.
End steps.

(** ** The driver-initialisation protocol *)

Inductive phase := PReset | PAck | PDriver | PFeatures | PLive.

Definition phase_bits (p : phase) : Z :=
  match p with PReset => 0 | PAck => 1 | PDriver => 3 | PFeatures => 11 | PLive => 15 end.

(** The status writes that lead from reset to a phase. *)
Definition handshake (p : phase) : list Z :=
  match p with
  | PReset => []
  | PAck => [1]
  | PDriver => [1; 3]
  | PFeatures => [1; 3; 11]
  | PLive => [1; 3; 11; 15]
  end.

Definition next_phase (p : phase) : option phase :=
  match p with
  | PReset => Some PAck
  | PAck => Some PDriver
  | PDriver => Some PFeatures
  | PFeatures => Some PLive
  | PLive => None
  end.

(** The abstract state behind the status register. *)
Record drv := mkDrv { dv_phase : phase; dv_needs_reset : bool; dv_failed : bool }.

Definition status_of (a : drv) : Z :=
  phase_bits (dv_phase a) + 64 * Z.b2z (dv_needs_reset a) + 128 * Z.b2z (dv_failed a).

(** Status writes since the last reset. *)
Definition after_reset (hist : list Z) : list Z :=
  foldl (fun acc v => if v =? 0 then [] else acc ++ [v]) [] hist.

Lemma after_reset_snoc hist v :
  after_reset (hist ++ [v]) = if v =? 0 then [] else after_reset hist ++ [v].
Proof. unfold after_reset. by rewrite foldl_app. Qed.

Lemma valid_transition_next a v :
  is_valid_transition (status_of a) v = true ->
  dv_needs_reset a = false /\ dv_failed a = false /\
  exists p, next_phase (dv_phase a) = Some p /\ v = phase_bits p.
Proof.
  destruct a as [p nr f]. unfold is_valid_transition. cbn [existsb fst snd].
  rewrite !orb_true_iff, !andb_true_iff, !Z.eqb_eq. cbn [dv_phase dv_needs_reset dv_failed].
  intros H. destruct p, nr, f; vm_compute in H;
    try (exfalso; intuition discriminate);
    (split; [done|]; split; [done|]; eexists; split; [reflexivity|];
     cbn; intuition (subst; discriminate || done)).
Qed.

Lemma driver_ok_live a : (Z.land (status_of a) DRIVER_OK =? 0) = false <-> dv_phase a = PLive.
Proof. destruct a as [[] [] []]; vm_compute; split; congruence. Qed.

Section init_protocol.
Context {M G D : Type} `{!GuestMemory M} `{!Gic G} `{!VirtioDevice (World M G) D}.
Local Abbreviation W := (World M G).
Local Abbreviation T := (VirtioMmioTransport D).

(** Everything but a status write keeps the status. *)
Lemma tstep_status_eq (t : T) (w : W) t' w' : tstep t w None t' w' -> t_status t' = t_status t.
Proof.
  inversion 1 as [|i ? ? Hn| | | | | |]; subst; try done.
  - unfold handle_queue_notify in Hn. destruct (_ =? _); [by simplify_eq|].
    destruct (vd_process_queue _ _ _). by simplify_eq.
  - unfold handle_driver_features_write. by repeat case_match.
  - unfold update_queue_field. by repeat case_match.
Qed.

Lemma activate_device_status (t : T) (w : W) :
  t_status (activate_device t w) = t_status t \/
  t_status (activate_device t w) = Z.lor (t_status t) DEVICE_NEEDS_RESET.
Proof.
  unfold activate_device. destruct (vd_is_activated _); [by left|].
  destruct (vd_activate _ _) as [d [u|e]]; [by left | by right].
Qed.

(** The simulation relation: the status register shows [a], and the driver
    wrote the handshake of its phase since the last reset. *)
Definition init_inv (hist : list Z) (t : T) : Prop :=
  exists a, t_status t = status_of a /\ handshake (dv_phase a) `sublist_of` after_reset hist /\
    (dv_needs_reset a = true -> dv_phase a = PLive).

Lemma init_inv_set_status hist (t : T) (w : W) v :
  init_inv hist t -> init_inv (hist ++ [v]) (set_status t w v).
Proof.
  intros (a & Ha & Hh & Hn). unfold init_inv. rewrite after_reset_snoc. unfold set_status.
  change INIT with 0. destruct (Z.eqb_spec v 0) as [->|Hv].
  { exists (mkDrv PReset false false). by repeat split. }
  assert (Hk : handshake (dv_phase a) `sublist_of` after_reset hist ++ [v])
    by (etrans; [exact Hh | by apply sublist_inserts_r]).
  destruct (Z.land v FAILED =? 0) eqn:Hf; cbn [negb].
  2:{ exists (mkDrv (dv_phase a) (dv_needs_reset a) true). cbn [t_status with_status]. rewrite Ha.
      split; [by destruct a as [[] [] []] | by split]. }
  rewrite Ha. destruct (is_valid_transition (status_of a) v) eqn:Ht; cbn [negb].
  2:{ exists a. by rewrite Ha. }
  destruct (valid_transition_next a v Ht) as (Hnr & Hfl & p & Hp & ->).
  assert (Hhs : handshake p `sublist_of` after_reset hist ++ [phase_bits p]).
  { replace (handshake p) with (handshake (dv_phase a) ++ [phase_bits p])
      by (destruct (dv_phase a); simplify_eq/=; done).
    by apply sublist_app. }
  destruct (Z.land (phase_bits p) DRIVER_OK =? 0) eqn:Hok; cbn [negb].
  { exists (mkDrv p false false). split; [|done]. destruct p; done. }
  assert (p = PLive) as -> by (destruct p; done).
  destruct (activate_device_status (with_status t (phase_bits PLive)) w) as [-> | ->].
  - by exists (mkDrv PLive false false).
  - by exists (mkDrv PLive true false).
Qed.

Lemma init_inv_writes ops hist (t : T) (w : W) :
  Forall (fun op => bytes_ok (snd op)) ops -> init_inv hist t ->
  init_inv (hist ++ omap status_value ops) (transport_writes t w ops).1.
Proof.
  revert hist t w. induction ops as [|[off data] ops IH]; intros hist t w Hok Hi; cbn.
  { by rewrite app_nil_r. }
  inversion Hok as [|? ? Hd Hok']; subst. cbn in Hd.
  destruct (transport_write t w off data) as [t' w'] eqn:Hw.
  apply transport_write_step in Hw; [|done].
  destruct (status_value (off, data)) as [v|] eqn:Hv.
  - change (v :: omap status_value ops) with ([v] ++ omap status_value ops).
    rewrite app_assoc. apply IH; [done|]. inversion Hw; subst. by apply init_inv_set_status.
  - apply IH; [done|]. destruct Hi as (a & Ha & ?). exists a.
    by rewrite (tstep_status_eq _ _ _ _ Hw).
Qed.
End init_protocol.

(** ** Invariants of the device behind the transport *)

Section device_invariants.
Context {M G D : Type} `{!GuestMemory M} `{!Gic G} `{!VirtioDevice (World M G) D}.
Context `{!VirtioDeviceLaws (World M G) D}.
Local Abbreviation W := (World M G).
Local Abbreviation T := (VirtioMmioTransport D).
Local Abbreviation offered d := (Z.lor (vd_avail_features (W := W) d) VERSION_1).

(** The device knows exactly the features the transport recorded, and they are
    among the offered ones. *)
Definition feat_inv (t : T) : Prop :=
  vd_acked_features (W := W) (t_device t) = t_driver_features t /\
  Z.land (t_driver_features t) (offered (t_device t)) = t_driver_features t.

Lemma activate_device_feat (t : T) (w : W) :
  t_driver_features (activate_device t w) = t_driver_features t /\
  vd_acked_features (W := W) (t_device (activate_device t w))
  = vd_acked_features (W := W) (t_device t) /\
  vd_avail_features (W := W) (t_device (activate_device t w))
  = vd_avail_features (W := W) (t_device t).
Proof.
  unfold activate_device. destruct (vd_is_activated _); [done|].
  pose proof (vd_acked_activate (t_device t) w). pose proof (vd_avail_activate (t_device t) w).
  by destruct (vd_activate _ _) as [d [u|e]].
Qed.

Lemma reset_feat (t : T) :
  feat_inv (reset t) /\
  vd_avail_features (W := W) (t_device (reset t)) = vd_avail_features (W := W) (t_device t).
Proof.
  unfold feat_inv, reset; cbn.
  by rewrite vd_acked_set, vd_avail_set, vd_avail_queues, Z.land_0_l.
Qed.

Lemma tstep_feat (t : T) (w : W) l t' w' :
  tstep t w l t' w' -> feat_inv t ->
  feat_inv t' /\
  vd_avail_features (W := W) (t_device t') = vd_avail_features (W := W) (t_device t).
Proof.
  intros Hs [Ha Hm]. inversion Hs as [v|i ? ? Hn|v Hv|f Hf| | |o bs Hc|]; subst; try done.
  - unfold set_status. destruct (_ =? _); [apply reset_feat|].
    destruct (negb _); [done|]. destruct (negb _); [done|]. destruct (negb _); [|done].
    destruct (activate_device_feat (with_status t v) w') as (H1 & H2 & H3).
    unfold feat_inv. by rewrite H1, H2, H3.
  - unfold handle_queue_notify in Hn. destruct (_ =? _); [by simplify_eq|].
    pose proof (vd_acked_process (t_device t) w i). pose proof (vd_avail_process (t_device t) w i).
    destruct (vd_process_queue _ _ _) as [d w1]. simplify_eq/=. unfold feat_inv; cbn. by split_and!; congruence.
  - assert (Happ : forall s, feat_inv (mkTransport
      (vd_set_acked_features (W := W) (t_device t)
         (Z.lor (t_driver_features t) (Z.land s (offered (t_device t)))))
      (t_device_features_sel t) (t_driver_features_sel t)
      (Z.lor (t_driver_features t) (Z.land s (offered (t_device t))))
      (t_queue_select t) (t_status t) (t_config_generation t))).
    { intros s. unfold feat_inv; cbn. rewrite vd_acked_set, vd_avail_set. split; [done|].
      by rewrite Z.land_lor_distr_l, Hm, <- Z.land_assoc, Z.land_diag. }
    unfold handle_driver_features_write.
    destruct (_ =? 0); [by split; [apply Happ | cbn; rewrite vd_avail_set]|].
    destruct (_ =? 1); [by split; [apply Happ | cbn; rewrite vd_avail_set]|done].
  - unfold update_queue_field. destruct (negb _); [done|]. destruct (_ !! _); [|done].
    unfold feat_inv; cbn. by rewrite vd_acked_queues, vd_avail_queues.
  - unfold feat_inv; cbn. by rewrite vd_acked_config, vd_avail_config.
Qed.

Lemma feat_inv_writes ops (t : T) (w : W) :
  Forall (fun op => bytes_ok (snd op)) ops -> feat_inv t ->
  feat_inv (transport_writes t w ops).1 /\
  vd_avail_features (W := W) (t_device (transport_writes t w ops).1)
  = vd_avail_features (W := W) (t_device t).
Proof.
  revert t w. induction ops as [|[off data] ops IH]; intros t w Hok Hi; [done|]. cbn.
  inversion Hok as [|? ? Hd Hok']; subst.
  destruct (transport_write t w off data) as [t' w'] eqn:Hw.
  apply transport_write_step in Hw; [|done]. apply tstep_feat in Hw as [Hf Hav]; [|done].
  destruct (IH t' w' Hok' Hf) as [? ->]. done.
Qed.
End device_invariants.

(** ** Properties of the transport *)

Section transport_properties.
Context {M G D : Type} `{!GuestMemory M} `{!Gic G} `{!VirtioDevice (World M G) D}.
Context `{!VirtioDeviceLaws (World M G) D}.
Local Abbreviation W := (World M G).
Local Abbreviation T := (VirtioMmioTransport D).
Implicit Types (t : T) (w : W) (d : D) (ops : list (Z * list Z)).

(** A successful activation of the device by this write. *)
Definition activates t w (op : Z * list Z) : bool :=
  match status_value op with
  | Some v =>
      negb (v =? INIT) && (Z.land v FAILED =? 0) && is_valid_transition (t_status t) v &&
      negb (Z.land v DRIVER_OK =? 0) && negb (vd_is_activated (W := W) (t_device t)) &&
      is_ok (vd_activate (t_device t) w).2
  | None => false
  end.

(** How many writes of a sequence activate the device. *)
Fixpoint activations t w ops : nat :=
  match ops with
  | [] => 0
  | op :: ops' =>
      let '(t', w') := transport_write t w (fst op) (snd op) in
      (if activates t w op then 1 else 0) + activations t' w' ops'
  end.

Lemma activate_device_activated t w :
  vd_is_activated (W := W) (t_device (activate_device t w)) =
  vd_is_activated (W := W) (t_device t) || is_ok (vd_activate (t_device t) w).2.
Proof.
  unfold activate_device. destruct (vd_is_activated (t_device t)) eqn:Ha; [done|].
  destruct (vd_activate (t_device t) w) as [d [[]|e]] eqn:Hv; cbn.
  - by eapply vd_activated_ok.
  - by rewrite (vd_activated_err _ _ _ _ Hv).
Qed.

Lemma tstep_activated t w op t' w' :
  bytes_ok (snd op) -> transport_write t w (fst op) (snd op) = (t', w') ->
  vd_is_activated (W := W) (t_device t') =
  vd_is_activated (W := W) (t_device t) || activates t w op.
Proof.
  intros Hok Hw. apply transport_write_step in Hw; [|done]. unfold activates.
  destruct op as [off data]; cbn [fst snd] in *.
  inversion Hw as [v Hv|i ? ? Hn Hv|v Hv|f Hf Hv| Hv|a b c Hv|o bs Hc Hv|Hv]; subst;
    try rewrite <- Hv; try rewrite orb_false_r; try done.
  - unfold set_status. destruct (v =? INIT); cbn [negb andb].
    { rewrite orb_false_r. unfold reset; cbn. by rewrite vd_activated_set, vd_activated_queues. }
    destruct (Z.land v FAILED =? 0); cbn [negb andb]; [|by rewrite orb_false_r].
    destruct (is_valid_transition (t_status t) v); cbn [negb andb]; [|by rewrite orb_false_r].
    destruct (Z.land v DRIVER_OK =? 0); cbn [negb andb]; [by rewrite orb_false_r|].
    rewrite activate_device_activated. cbn [t_device with_status].
    by destruct (vd_is_activated (t_device t)).
  - unfold handle_queue_notify in Hn. destruct (_ =? _); [by simplify_eq|].
    pose proof (vd_activated_process (t_device t) w i).
    destruct (vd_process_queue _ _ _) as [d w1]. by simplify_eq/=.
  - unfold handle_driver_features_write.
    repeat case_match; cbn; rewrite ?vd_activated_set; done.
  - unfold update_queue_field. repeat case_match; cbn; rewrite ?vd_activated_queues; done.
  - cbn. apply vd_activated_config.
Qed.

Lemma activations_zero t w ops :
  Forall (fun op => bytes_ok (snd op)) ops ->
  vd_is_activated (W := W) (t_device t) = true -> activations t w ops = 0%nat.
Proof.
  revert t w. induction ops as [|op ops IH]; intros t w Hok Ha; [done|]. cbn [activations].
  inversion Hok as [|? ? Hd Hok']; subst.
  destruct (transport_write t w (fst op) (snd op)) as [t' w'] eqn:Hw.
  pose proof (tstep_activated _ _ _ _ _ Hd Hw) as Hac. rewrite Ha in Hac.
  rewrite IH by done. unfold activates. rewrite Ha. cbn [negb].
  destruct (status_value op); [|done]. by rewrite andb_false_r.
Qed.

(** C3: the device goes live only through the handshake.  After any sequence of
    guest writes the status register shows one of the protocol's states, and if
    it shows [DRIVER_OK] then since the last reset the driver wrote
    ACKNOWLEDGE, DRIVER, FEATURES_OK and DRIVER_OK in this order. *)
Theorem driver_ok_handshake d w ops :
  Forall (fun op => bytes_ok (snd op)) ops ->
  exists a, t_status (transport_writes (Transport_new d) w ops).1 = status_of a /\
    (Z.land (t_status (transport_writes (Transport_new d) w ops).1) DRIVER_OK <> 0 ->
     dv_phase a = PLive /\ [1; 3; 11; 15] `sublist_of` after_reset (omap status_value ops)).
Proof.
  intros Hok.
  destruct (init_inv_writes ops [] (Transport_new d) w Hok) as (a & Ha & Hh & _).
  { exists (mkDrv PReset false false). done. }
  exists a. rewrite Ha. split; [done|]. intros Hn.
  assert (Hl : dv_phase a = PLive) by (apply driver_ok_live; by apply Z.eqb_neq).
  rewrite Hl in Hh. done.
Qed.

(** The negotiated features are always among the offered ones, and the
    device is told exactly the set the transport recorded. *)
Theorem acked_subset_offered d w ops :
  Forall (fun op => bytes_ok (snd op)) ops -> vd_acked_features (W := W) d = 0 ->
  let t := (transport_writes (Transport_new d) w ops).1 in
  vd_acked_features (W := W) (t_device t) = t_driver_features t /\
  forall i, Z.testbit (t_driver_features t) i = true ->
    Z.testbit (vd_avail_features (W := W) d) i = true \/ i = 32.
Proof.
  intros Hok Hd t.
  destruct (feat_inv_writes ops (Transport_new d) w Hok) as [[Ha Hm] Hav].
  { by unfold feat_inv, Transport_new; cbn; rewrite Z.land_0_l. }
  fold t in Ha, Hm, Hav. split; [done|]. intros i Hi. rewrite Hav in Hm. cbn [t_device Transport_new] in Hm.
  rewrite <- Hm, Z.land_spec, Z.lor_spec, andb_true_iff, orb_true_iff in Hi.
  destruct Hi as [_ [Hi|Hi]]; [by left|]. right. unfold VERSION_1 in Hi.
  rewrite Z.shiftl_1_l, Z.pow2_bits_eqb in Hi by lia. by apply Z.eqb_eq in Hi.
Qed.

(** Whatever the driver writes, resets included, the device is activated at
    most once, and a device handed over activated never again. *)
Theorem activated_at_most_once d w ops :
  Forall (fun op => bytes_ok (snd op)) ops ->
  (activations (Transport_new d) w ops <= 1)%nat /\
  (vd_is_activated (W := W) d = true -> activations (Transport_new d) w ops = 0%nat).
Proof.
  intros Hok. split; [|intros; by apply activations_zero].
  generalize (Transport_new d) as t. revert w.
  induction ops as [|op ops IH]; intros w t; [cbn; lia|]. cbn [activations].
  inversion Hok as [|? ? Hd Hok']; subst.
  destruct (transport_write t w (fst op) (snd op)) as [t' w'] eqn:Hw.
  pose proof (tstep_activated _ _ _ _ _ Hd Hw) as Hac.
  destruct (activates t w op); [|apply IH; done].
  rewrite orb_true_r in Hac. rewrite activations_zero by done. lia.
Qed.

(** A write to [QueueNotify]. *)
Definition is_notify (op : Z * list Z) : bool := (fst op =? 0x50) && (zlen (snd op) =? 4).

Lemma transport_write_quiet t w op t' w' :
  transport_write t w (fst op) (snd op) = (t', w') ->
  (Z.land (t_status t) DRIVER_OK = 0 \/ is_notify op = false) ->
  w_mem w' = w_mem w /\ irq_gic (w_irq w') = irq_gic (w_irq w).
Proof.
  destruct op as [off data]. unfold is_notify; cbn [fst snd]. intros H Hq.
  unfold transport_write, write_register in H.
  destruct ((0 <=? off) && (off <=? 0xFF) && (zlen data =? 4)) eqn:Hc.
  2:{ repeat case_match; by simplify_eq. }
  apply andb_true_iff in Hc as [_ Hl]. rewrite Hl, andb_true_r in Hq.
  destruct (off =? 0x50).
  2:{ repeat case_match; by simplify_eq/=. }
  destruct Hq as [Hq|]; [|done]. unfold handle_queue_notify in H. rewrite Hq in H.
  repeat case_match; by simplify_eq/=.
Qed.

(** No device I/O without the handshake.  If a sequence of guest writes
    changes guest memory or touches the interrupt controller, then one of the
    writes was a queue notification issued when the driver had completed the
    whole handshake since the last reset. *)
Theorem no_io_without_handshake d w ops t' w' :
  Forall (fun op => bytes_ok (snd op)) ops ->
  transport_writes (Transport_new d) w ops = (t', w') ->
  (w_mem w' = w_mem w /\ irq_gic (w_irq w') = irq_gic (w_irq w)) \/
  exists ops1 op ops2, ops = ops1 ++ op :: ops2 /\ is_notify op = true /\
    [1; 3; 11; 15] `sublist_of` after_reset (omap status_value ops1).
Proof.
  intros Hok.
  assert (Hgen : forall t w0 hist, init_inv (omap status_value hist) t ->
    transport_writes t w0 ops = (t', w') ->
    (w_mem w' = w_mem w0 /\ irq_gic (w_irq w') = irq_gic (w_irq w0)) \/
    exists ops1 op ops2, ops = ops1 ++ op :: ops2 /\ is_notify op = true /\
      [1; 3; 11; 15] `sublist_of` after_reset (omap status_value (hist ++ ops1))).
  2:{ intros H. apply (Hgen _ w []) in H; [exact H|]. by exists (mkDrv PReset false false). }
  induction ops as [|op ops IH]; intros t w0 hist Hi H; cbn in H.
  { left. by simplify_eq. }
  inversion Hok as [|? ? Hd Hok']; subst. destruct op as [off data]; cbn [fst snd] in *.
  destruct (transport_write t w0 off data) as [t1 w1] eqn:Hw.
  destruct (decide (Z.land (t_status t) DRIVER_OK <> 0 /\ is_notify (off, data) = true))
    as [[Hl Hn]|Hq].
  - right. exists [], (off, data), ops. rewrite app_nil_r. split_and!; [done|done|].
    destruct Hi as (a & Ha & Hh & _). rewrite Ha in Hl.
    assert (Hp : dv_phase a = PLive) by (apply driver_ok_live; by apply Z.eqb_neq).
    by rewrite Hp in Hh.
  - destruct (transport_write_quiet t w0 (off, data) t1 w1 Hw) as [Hm Hg].
    { destruct (decide (Z.land (t_status t) DRIVER_OK = 0)); [by left|right].
      destruct (is_notify (off, data)); tauto. }
    pose proof (init_inv_writes [(off, data)] (omap status_value hist) t w0
      ltac:(by repeat constructor) Hi) as Hi1.
    cbn [transport_writes] in Hi1. rewrite Hw in Hi1. cbn [fst] in Hi1.
    rewrite <- omap_app in Hi1.
    destruct (IH Hok' t1 w1 _ Hi1 H) as [[Hm' Hg'] | (o1 & op & o2 & -> & Hn & Hs)].
    + left. by rewrite Hm', Hg'.
    + right. exists ((off, data) :: o1), op, o2. split_and!; [done|done|].
      by rewrite <- app_assoc in Hs.
Qed.

Lemma live_update_queue t f :
  Z.land (t_status t) DRIVER_OK <> 0 -> update_queue_field t f = t.
Proof. intros H. unfold update_queue_field. by rewrite (proj2 (Z.eqb_neq _ _) H). Qed.

Lemma live_write_device t w op t' w' :
  Z.land (t_status t) DRIVER_OK <> 0 -> status_value op = None -> is_notify op = false ->
  transport_write t w (fst op) (snd op) = (t', w') ->
  t_status t' = t_status t /\
  (t_device t' = t_device t \/
   exists x, t_device t' = vd_set_acked_features (W := W) (t_device t) x).
Proof.
  destruct op as [off data]. unfold is_notify, status_value; cbn [fst snd]. intros Hl Hs Hn H.
  unfold transport_write, write_register, accept_config_write in H.
  rewrite (proj2 (Z.eqb_neq _ _) Hl), !live_update_queue in H by done.
  destruct ((0 <=? off) && (off <=? 0xFF) && (zlen data =? 4)) eqn:Hc.
  2:{ destruct ((0x100 <=? off) && (off <=? 0xFFF)); simplify_eq; auto. }
  apply andb_true_iff in Hc as [_ Hz]. rewrite Hz, andb_true_r in Hs, Hn. rewrite Hn in H.
  destruct (off =? 0x70); [done|].
  destruct (Z.eqb_spec off 0x20) as [->|_].
  - cbn in H. injection H as <- _. unfold handle_driver_features_write. repeat case_match; cbn; eauto.
  - repeat case_match; simplify_eq/=; auto.
Qed.

(** While [DRIVER_OK] shows, the rings and the device configuration are
    frozen: a write that is neither a status write nor a notification leaves
    every queue as it was and changes nothing of the device but the
    acknowledged features. *)
Theorem live_config_frozen t w op t' w' :
  bytes_ok (snd op) -> Z.land (t_status t) DRIVER_OK <> 0 ->
  status_value op = None -> is_notify op = false ->
  transport_write t w (fst op) (snd op) = (t', w') ->
  vd_queues (W := W) (t_device t') = vd_queues (W := W) (t_device t) /\
  t_status t' = t_status t /\ w_mem w' = w_mem w /\
  (t_device t' = t_device t \/
   exists x, t_device t' = vd_set_acked_features (W := W) (t_device t) x).
Proof.
  intros Hok Hl Hsv Hn Hw.
  destruct (transport_write_quiet _ _ _ _ _ Hw (or_intror Hn)) as [Hm _].
  destruct op as [off data]; cbn [fst snd] in *.
  destruct (live_write_device t w (off, data) t' w' Hl Hsv Hn Hw) as [Hst Hd].
  split_and!; [|done|done|done]. destruct Hd as [-> | [x ->]]; [done | apply vd_queues_acked].
Qed.

(** Writing zero to the status register resets the transport to its initial
    registers and every queue to its power-on state, and clears the negotiated
    features; the interrupt status word is left as it was. *)
Theorem reset_exact t w t' w' :
  transport_write t w 0x70 [0; 0; 0; 0] = (t', w') ->
  t_status t' = INIT /\ t_driver_features t' = 0 /\ t_queue_select t' = 0 /\
  t_device_features_sel t' = 0 /\ t_driver_features_sel t' = 0 /\
  vd_acked_features (W := W) (t_device t') = 0 /\
  vd_queues (W := W) (t_device t')
  = (fun q => Queue_new (max_size q)) <$> vd_queues (W := W) (t_device t) /\
  vd_is_activated (W := W) (t_device t') = vd_is_activated (W := W) (t_device t) /\
  irq_status (w_irq w') = irq_status (w_irq w).
Proof.
  intros H. change (transport_write t w 0x70 [0; 0; 0; 0]) with (reset t, w) in H.
  injection H as <- <-. unfold reset; cbn.
  rewrite vd_acked_set, vd_queues_acked, vd_queues_set by (by rewrite length_fmap).
  rewrite vd_activated_set, vd_activated_queues. split_and!; try done.
Qed.

(** The registers of one ring address: descriptor table, available and used. *)
Inductive ring := RDesc | RAvail | RUsed.

Definition ring_low (r : ring) : Z :=
  match r with RDesc => 0x80 | RAvail => 0x90 | RUsed => 0xA0 end.

Definition ring_high (r : ring) : Z :=
  match r with RDesc => 0x84 | RAvail => 0x94 | RUsed => 0xA4 end.

Definition ring_addr (r : ring) (q : Queue) : Z :=
  match r with
  | RDesc => desc_table_addr q
  | RAvail => avail_ring_addr q
  | RUsed => used_ring_addr q
  end.

Definition set_ring (r : ring) (q : Queue) (a : Z) : Queue :=
  match r with
  | RDesc => q_set_desc q a
  | RAvail => q_set_avail q a
  | RUsed => q_set_used q a
  end.

Lemma le_val_le_bytes4 v : in_u 32 v -> le_val (le_bytes 4 v) = v.
Proof. intros. by apply (le_val_bytes_id 4). Qed.

Lemma write_reg4 t w off v :
  0 <= off <= 0xFF -> in_u 32 v ->
  transport_write t w off (le_bytes 4 v) = write_register t w off v.
Proof.
  intros Ho Hv. unfold transport_write.
  rewrite (proj2 (Z.leb_le 0 off)), (proj2 (Z.leb_le off 0xFF)) by lia.
  unfold zlen. rewrite le_bytes_length. cbn [andb Z.of_nat Z.eqb Pos.eqb].
  change (Z.of_nat 4 =? 4) with true. cbv iota. by rewrite le_val_le_bytes4.
Qed.

Lemma write_ring_low t w r v :
  in_u 32 v ->
  transport_write t w (ring_low r) (le_bytes 4 v)
  = (update_queue_field t (fun q => set_ring r q (set_low (ring_addr r q) v)), w).
Proof. intros. destruct r; by rewrite write_reg4 by (cbn; lia || done). Qed.

Lemma write_ring_high t w r v :
  in_u 32 v ->
  transport_write t w (ring_high r) (le_bytes 4 v)
  = (update_queue_field t (fun q => set_ring r q (set_high (ring_addr r q) v)), w).
Proof. intros. destruct r; by rewrite write_reg4 by (cbn; lia || done). Qed.

Lemma update_queue_field_queues t f q :
  Z.land (t_status t) DRIVER_OK = 0 ->
  vd_queues (W := W) (t_device t) !! Z.to_nat (t_queue_select t) = Some q ->
  let t' := update_queue_field t f in
  t_status t' = t_status t /\ t_queue_select t' = t_queue_select t /\
  vd_queues (W := W) (t_device t')
  = <[Z.to_nat (t_queue_select t) := f q]> (vd_queues (W := W) (t_device t)).
Proof.
  intros Hs Hq. unfold update_queue_field. rewrite Hs. cbn [negb Z.eqb]. rewrite Hq. cbn.
  rewrite vd_queues_set by (by rewrite length_insert). done.
Qed.

(** Programming a ring.  Before [DRIVER_OK], selecting a queue and writing
    the low and the high word of one of its ring addresses, in either order,
    leaves that ring at exactly the 64-bit address written, whatever it held
    before, and changes no other field and no other queue. *)
Theorem ring_address_programming t w r i lo hi (low_first : bool) q t' w' :
  in_u 32 i -> in_u 32 lo -> in_u 32 hi -> Z.land (t_status t) DRIVER_OK = 0 ->
  vd_queues (W := W) (t_device t) !! Z.to_nat i = Some q -> in_u 64 (ring_addr r q) ->
  transport_writes t w
    ((0x30, le_bytes 4 i) ::
     (if low_first then [(ring_low r, le_bytes 4 lo); (ring_high r, le_bytes 4 hi)]
      else [(ring_high r, le_bytes 4 hi); (ring_low r, le_bytes 4 lo)])) = (t', w') ->
  w' = w /\
  vd_queues (W := W) (t_device t')
  = <[Z.to_nat i := set_ring r q (hi * 2 ^ 32 + lo)]> (vd_queues (W := W) (t_device t)).
Proof.
  intros Hi Hlo Hhi Hs Hq Hr H. cbn [transport_writes] in H.
  rewrite write_reg4 in H by (done || lia). cbn [write_register Z.eqb Pos.eqb] in H.
  set (t1 := mkTransport (t_device t) _ _ _ i _ _) in H.
  assert (Hsel : forall q (a : Z), ring_addr r (set_ring r q a) = a) by (by destruct r).
  assert (Hset : forall q (a b : Z), set_ring r (set_ring r q a) b = set_ring r q b)
    by (by destruct r).
  destruct (set_low_high (ring_addr r q) lo hi Hr Hlo Hhi) as [Hlh Hhl].
  assert (Htwo : forall f g, vd_queues (W := W) (t_device (update_queue_field (update_queue_field t1 f) g))
    = <[Z.to_nat i := g (f q)]> (vd_queues (W := W) (t_device t))).
  { intros f g.
    destruct (update_queue_field_queues t1 f q Hs Hq) as (Hs1 & Hsel1 & Hq1).
    destruct (update_queue_field_queues (update_queue_field t1 f) g (f q)) as (_ & _ & ->).
    - rewrite Hs1. exact Hs.
    - rewrite Hsel1, Hq1. apply list_lookup_insert_eq. by apply lookup_lt_Some in Hq.
    - rewrite Hsel1, Hq1. apply list_insert_insert_eq. }
  destruct low_first; cbn [transport_writes] in H.
  - rewrite write_ring_low, write_ring_high in H by done. injection H as <- <-.
    split; [done|]. by rewrite Htwo, Hsel, Hset, Hlh.
  - rewrite write_ring_high, write_ring_low in H by done. injection H as <- <-.
    split; [done|]. by rewrite Htwo, Hsel, Hset, Hhl.
Qed.
End transport_properties.

(** ** A minimal device *)

(** A controller that records the lines it pulsed. *)
Definition pulse_log := list Gic.IntId.

#[export] Instance pulse_log_Gic : Gic pulse_log := {
  pulse_spi g i := (g ++ [i], Ok tt);
  set_spi_level g i _ := (g, Ok tt)
}.

(** A device with queues and features and an empty queue handler. *)
Record null_device := mkNull {
  nd_avail : Z;
  nd_acked : Z;
  nd_queues : list Queue;
  nd_activated : bool
}.

Local Abbreviation NW := (World SliceGuestMemory pulse_log).

#[export] Instance null_VirtioDevice : VirtioDevice NW null_device := {
  vd_device_id _ := 4;
  vd_avail_features d := wrap 64 (nd_avail d);
  vd_acked_features := nd_acked;
  vd_set_acked_features d x := mkNull (nd_avail d) x (nd_queues d) (nd_activated d);
  vd_queues := nd_queues;
  vd_set_queues d qs := mkNull (nd_avail d) (nd_acked d) qs (nd_activated d);
  vd_read_config _ _ data := data;
  vd_write_config d _ _ := d;
  vd_activate d _ := (mkNull (nd_avail d) (nd_acked d) (nd_queues d) true, Ok tt);
  vd_is_activated := nd_activated;
  vd_process_queue d w _ := (d, w)
}.

#[export] Instance null_VirtioDeviceLaws : VirtioDeviceLaws NW null_device.
Proof.
  split; intros; try done.
  - apply wrap_in_u; lia.
  - by simplify_eq/=.
Qed.

Definition ex_null : null_device := mkNull 2 0 [Queue_new 256] false.

Definition ex_world : NW := mkWorld (mkSlice 0 []) (IrqLine_new [] Gic.VIRTIO_MMIO_SLOT0).

(** Negotiate feature bit 1, program the descriptor table, go live, reset. *)
Definition ex_ops : list (Z * list Z) :=
  [(0x70, [1; 0; 0; 0]); (0x70, [3; 0; 0; 0]); (0x20, [6; 0; 0; 0]); (0x70, [11; 0; 0; 0]);
   (0x80, [0; 16; 0; 0]); (0x70, [15; 0; 0; 0])].

Lemma ex_ops_ok : Forall (fun op : Z * list Z => bytes_ok (snd op)) ex_ops.
Proof. by repeat constructor. Qed.

Lemma driver_ok_handshake_witness :
  [1; 3; 11; 15] `sublist_of` after_reset (omap status_value ex_ops).
Proof.
  destruct (driver_ok_handshake ex_null ex_world ex_ops ex_ops_ok) as (a & _ & H).
  apply H. by vm_compute.
Defined.

Lemma acked_subset_offered_witness :
  vd_acked_features (W := NW) (t_device (transport_writes (Transport_new ex_null) ex_world ex_ops).1) = 2.
Proof.
  assert (H : vd_acked_features (W := NW) ex_null = 0) by reflexivity.
  rewrite (proj1 (acked_subset_offered ex_null ex_world ex_ops ex_ops_ok H)). by vm_compute.
Defined.

Definition ex_ops_twice : list (Z * list Z) := ex_ops ++ (0x70, [0; 0; 0; 0]) :: ex_ops.

Lemma activated_at_most_once_witness :
  (activations (Transport_new ex_null) ex_world ex_ops_twice <= 1)%nat.
Proof.
  apply activated_at_most_once. unfold ex_ops_twice. apply Forall_app; split; [apply ex_ops_ok|].
  constructor; [by repeat constructor | apply ex_ops_ok].
Defined.

Lemma no_io_without_handshake_witness :
  exists ops1 op ops2, ex_ops ++ [(0x50, [0; 0; 0; 0])] = ops1 ++ op :: ops2 /\
    transport_writes (Transport_new ex_null) ex_world (ex_ops ++ [(0x50, [0; 0; 0; 0])])
    = ((transport_writes (Transport_new ex_null) ex_world ex_ops).1, ex_world) /\
    is_notify op = true.
Proof.
  assert (Hok : Forall (fun op : Z * list Z => bytes_ok (snd op)) (ex_ops ++ [(0x50, [0; 0; 0; 0])]))
    by (apply Forall_app; split; [apply ex_ops_ok | by repeat constructor]).
  assert (Hw : transport_writes (Transport_new ex_null) ex_world (ex_ops ++ [(0x50, [0; 0; 0; 0])])
    = ((transport_writes (Transport_new ex_null) ex_world ex_ops).1, ex_world)) by reflexivity.
  destruct (no_io_without_handshake ex_null ex_world _ _ _ Hok Hw)
    as [_|(o1 & op & o2 & He & Hn & _)].
  - exists ex_ops, (0x50, [0; 0; 0; 0]), []. by split_and!.
  - exists o1, op, o2. by split_and!.
Defined.

Definition ex_live : VirtioMmioTransport null_device :=
  (transport_writes (Transport_new ex_null) ex_world ex_ops).1.

Lemma live_config_frozen_witness :
  vd_queues (W := NW) (t_device (transport_write ex_live ex_world 0x44 [1; 0; 0; 0]).1)
  = vd_queues (W := NW) (t_device ex_live).
Proof.
  apply (live_config_frozen ex_live ex_world (0x44, [1; 0; 0; 0])
    (transport_write ex_live ex_world 0x44 [1; 0; 0; 0]).1 ex_world);
    [by repeat constructor | by vm_compute | by vm_compute | by vm_compute | by vm_compute].
Defined.

Lemma reset_exact_witness :
  irq_status (w_irq (transport_write ex_live
    (mkWorld (w_mem ex_world) (trigger_queue (w_irq ex_world)).1) 0x70 [0; 0; 0; 0]).2) = 1.
Proof.
  destruct (transport_write ex_live (mkWorld (w_mem ex_world) (trigger_queue (w_irq ex_world)).1)
    0x70 [0; 0; 0; 0]) as [t' w'] eqn:Hw.
  destruct (reset_exact _ _ _ _ Hw) as (_ & _ & _ & _ & _ & _ & _ & _ & H). exact H.
Defined.

Definition ex_ring_ops : list (Z * list Z) :=
  [(0x30, le_bytes 4 0); (0x80, le_bytes 4 0x1000); (0x84, le_bytes 4 8)].

Lemma ring_address_programming_witness :
  vd_queues (W := NW) (t_device (transport_writes (Transport_new ex_null) ex_world ex_ring_ops).1)
  = [q_set_desc (Queue_new 256) 0x800001000].
Proof.
  destruct (transport_writes (Transport_new ex_null) ex_world ex_ring_ops) as [t' w'] eqn:Hw.
  destruct (ring_address_programming (Transport_new ex_null) ex_world RDesc 0 0x1000 8 true
    (Queue_new 256) t' w') as [_ H];
    first [exact Hw | exact H | by vm_compute].
Defined.
