(* ===== verification/Drain.v ===== *)
(** * Drain: the queue loops of the virtio devices

    Every device under [src/crates/virtio/src/devices] runs the same loop over a
    queue: pop a chain, collect it, act on its buffers, return it through the
    used ring, and interrupt the driver at the end if anything completed.  This
    file holds that loop once, parametric in what the device does with a chain,
    with the driver's side of the contract and the two facts each device
    inherits: the loop ends, and it answers every published request in order.
    It also holds the two ways of moving bytes through a chain that the network
    and socket devices share. *)

From stdpp Require Import base numbers list option gmap.
From Stdlib Require Import ZArith Lia.
From S2P Require Import Prelude GuestMem Virtqueue.

Local Open Scope Z_scope.
Local Open Scope squib_scope.

(** What the body of a loop decides for a popped chain: leave the loop, go on
    without returning the chain, return it with a byte count (leaving the loop
    when the used ring cannot be written), or return it ignoring that error. *)
Inductive action := Stop | Skip | Push (written : Z) | PushQuiet.

Section loop.
Context {M D : Type} `{!GuestMemory M}.
Context (serve : D -> M -> result QueueError (list Descriptor) -> D * M * action).

(** One pass; the flag tells whether the loop goes on. *)
Definition loop_step (s : Queue * M * D * bool) : (Queue * M * D * bool) * bool :=
  let '(q, m, d, completed) := s in
  match pop_avail q m with
  | Err _ => (s, false)
  | Ok (q1, None) => ((q1, m, d, completed), false)
  | Ok (q1, Some chain) =>
      match collect chain m with
      | None => ((q1, m, d, completed), false)
      | Some r =>
          match serve d m r with
          | (d', m', Stop) => ((q1, m', d', completed), false)
          | (d', m', Skip) => ((q1, m', d', completed), true)
          | (d', m', Push written) =>
              match push_used (dc_head_index chain) written (q1, m') with
              | ((q2, m2), Err _) => ((q2, m2, d', completed), false)
              | ((q2, m2), Ok _) => ((q2, m2, d', true), true)
              end
          | (d', m', PushQuiet) =>
              let '((q2, m2), _) := push_used (dc_head_index chain) 0 (q1, m') in
              ((q2, m2, d', true), true)
          end
      end
  end.

(** The loop, with fuel; the flag tells whether it ended. *)
Fixpoint queue_loop (fuel : nat) (s : Queue * M * D * bool) : (Queue * M * D * bool) * bool :=
  match fuel with
  | O => (s, false)
  | S fuel' =>
      match loop_step s with
      | (s', true) => queue_loop fuel' s'
      | (s', false) => (s', true)
      end
  end.
End loop.

(** More chains than a 16-bit index can have pending. *)
Definition drain_fuel : nat := Z.to_nat 65536.

(** A body that only acts on chains it could collect. *)
Definition on_chain {M D} (f : D -> M -> list Descriptor -> D * M * action)
  (d : D) (m : M) (r : result QueueError (list Descriptor)) : D * M * action :=
  match r with
  | Ok ds => f d m ds
  | Err _ => (d, m, Stop)
  end.

Section buffers.
Context {M : Type} `{!GuestMemory M}.

(** Concatenating the device-readable buffers of a chain; a buffer that cannot
    be read is left out. *)
Fixpoint concat_readable (m : M) (ds : list Descriptor) : list Z :=
  match ds with
  | [] => []
  | desc :: rest =>
      if is_write_only desc then concat_readable m rest
      else
        match gm_read m (d_addr desc) (Z.to_nat (d_len desc)) with
        | Ok buf => buf ++ concat_readable m rest
        | Err _ => concat_readable m rest
        end
  end.

(** Spreading [wire] from offset [off] over the device-writable buffers: memory
    and bytes written. *)
Fixpoint scatter (m : M) (wire : list Z) (off : nat) (written : Z) (ds : list Descriptor) : M * Z :=
  match ds with
  | [] => (m, written)
  | desc :: rest =>
      if negb (is_write_only desc) then scatter m wire off written rest
      else
        let len := Nat.min (Z.to_nat (d_len desc)) (length wire - off) in
        if (len =? 0)%nat then scatter m wire off written rest
        else
          match gm_write m (d_addr desc) (slice off len wire) with
          | Err _ => (m, written)
          | Ok m' =>
              let off' := (off + len)%nat in
              let written' := saturating_add 32 written (wrap 32 (Z.of_nat len)) in
              if (length wire <=? off')%nat then (m', written')
              else scatter m' wire off' written' rest
          end
  end.
End buffers.

(** Delivering a list of packets, one chain each; the flag of [deliver_step]
    tells whether the next packet is tried.  [rest] receives the packets for
    which the queue was empty. *)
Section delivery.
Context {M : Type} `{!GuestMemory M}.

Inductive delivery := Delivered | NoChain | Broken.

Definition deliver_step (q : Queue) (m : M) (wire : list Z) : Queue * M * delivery :=
  match pop_avail q m with
  | Err _ => (q, m, Broken)
  | Ok (q1, None) => (q1, m, NoChain)
  | Ok (q1, Some chain) =>
      match collect chain m with
      | None | Some (Err _) => (q1, m, Broken)
      | Some (Ok ds) =>
          let '(m1, written) := scatter m wire 0 0 ds in
          match push_used (dc_head_index chain) written (q1, m1) with
          | ((q2, m2), Err _) => (q2, m2, Broken)
          | ((q2, m2), Ok _) => (q2, m2, Delivered)
          end
      end
  end.

(** The loop over the packets: the packet that found no chain, if any, and
    whether anything was delivered. *)
Fixpoint deliver_all {P} (wire_of : P -> list Z) (q : Queue) (m : M) (completed : bool) (ps : list P)
  : Queue * M * bool * option P :=
  match ps with
  | [] => (q, m, completed, None)
  | p :: ps' =>
      match deliver_step q m (wire_of p) with
      | (q', m', Delivered) => deliver_all wire_of q' m' true ps'
      | (q', m', NoChain) => (q', m', completed, Some p)
      | (q', m', Broken) => (q', m', completed, None)
      end
  end.
End delivery.

(** ** The driver's side of the contract *)

Definition any_desc (d : Descriptor) : Prop := True.

(** Descriptors with a 32-bit length. *)
Definition desc_ok (d : Descriptor) : Prop := in_u 32 (d_len d).

(** The range [[a, a + n)] avoids every device-writable buffer. *)
Definition untouched (ds : list Descriptor) (a : Z) (n : nat) : Prop :=
  Forall (fun d => is_write_only d = true -> disjoint_range (d_addr d) (d_len d) a (Z.of_nat n)) ds.

Section contract.
Context {M : Type} `{!GuestMemory M}.

(** No device-writable buffer of the table overlaps the descriptor table or the
    index of the available ring. *)
Definition protected (q : Queue) (m : M) : Prop :=
  forall i d, 0 <= i < size q -> read_descriptor (desc_table_addr q) m i = Ok d ->
    is_write_only d = true ->
    disjoint_range (d_addr d) (d_len d) (desc_table_addr q) (16 * size q) /\
    disjoint_range (d_addr d) (d_len d) (avail_ring_addr q + 2) 2.

(** Every entry of the table satisfies [okd], what a device asks of the
    driver's descriptors. *)
Definition table_ok (okd : Descriptor -> Prop) (q : Queue) (m : M) : Prop :=
  forall i d, 0 <= i < size q -> read_descriptor (desc_table_addr q) m i = Ok d -> okd d.

(** Neither does the part of the used ring the device writes. *)
Definition rings_apart (q : Queue) : Prop :=
  disjoint_range (used_ring_addr q + 2) (2 + 8 * size q) (desc_table_addr q) (16 * size q) /\
  disjoint_range (used_ring_addr q + 2) (2 + 8 * size q) (avail_ring_addr q + 2) 2 /\
  desc_table_addr q + 16 * size q <= 2 ^ 64.

(** Chains the driver has published and the loop has not popped. *)
Definition backlog (q : Queue) (m : M) : Z :=
  match avail_idx q m with Ok idx => wrap 16 (idx - next_avail_idx q) | Err _ => 0 end.

Lemma backlog_bound q m : 0 <= backlog q m < 65536.
Proof. unfold backlog. destruct (avail_idx q m); [|lia]. apply (wrap_in_u 16). lia. Qed.

Lemma backlog_next q idx :
  in_u 16 idx -> in_u 16 (next_avail_idx q) -> idx <> next_avail_idx q ->
  0 < wrap 16 (idx - next_avail_idx q) /\
  wrap 16 (idx - wadd 16 (next_avail_idx q) 1) = wrap 16 (idx - next_avail_idx q) - 1.
Proof.
  intros Hi Hn Hne. set (n := next_avail_idx q) in *.
  assert (H0 : wrap 16 (idx - n) <> 0) by (intros H; apply wrap_eq_sub in H; [done|lia|done|done]).
  pose proof (wrap_in_u 16 (idx - n) ltac:(lia)) as [? ?]. split; [lia|].
  unfold wadd, wrap in *. rewrite Zminus_mod_idemp_r.
  replace (idx - (n + 1)) with (idx - n - 1) by lia.
  rewrite <- (Zminus_mod_idemp_l (idx - n)). apply Z.mod_small. lia.
Qed.
End contract.

Section frames.
Context {M : Type} `{!GuestMemory M, !GuestMemoryLaws M}.
Implicit Types (m : M) (q : Queue) (okd : Descriptor -> Prop).

(** What every iteration starts from. *)
Record drain_inv okd q m : Prop := mkDrainInv {
  di_mem : gm_wf m;
  di_queue : queue_wf q;
  di_valid : is_valid q = true;
  di_fit : rings_fit q;
  di_apart : rings_apart q;
  di_protected : protected q m;
  di_table : table_ok okd q m
}.

Lemma gm_write_untouched m m' d bs a n :
  gm_write m (d_addr d) bs = Ok m' -> zlen bs <= d_len d ->
  disjoint_range (d_addr d) (d_len d) a (Z.of_nat n) -> 0 <= d_len d ->
  gm_read m' a n = gm_read m a n.
Proof.
  intros Hw Hl Hd H0. eapply gm_read_write_disjoint; [done|]. unfold disjoint_range in *. lia.
Qed.

Lemma read_descriptor_in_u m table i d :
  gm_wf m -> read_descriptor table m i = Ok d -> desc_ok d /\ 0 <= d_next d.
Proof.
  intros Hwf H. unfold read_descriptor in H.
  destruct (read_u64_le m _) as [a|]; [|done]. destruct (read_u32_le m _) as [l|] eqn:Hl; [|done].
  destruct (read_u16_le m _) as [f|]; [|done]. destruct (read_u16_le m _) as [nx|] eqn:Hn; [|done].
  simplify_eq. apply read_u32_in_u in Hl; [|done]. apply read_u16_in_u in Hn as [? _]; done.
Qed.

Lemma chain_from_Forall (P : Descriptor -> Prop) table qsize m i ds :
  gm_wf m -> (forall j d, 0 <= j < qsize -> read_descriptor table m j = Ok d -> P d) ->
  0 <= i -> chain_from table qsize m i ds -> Forall P ds.
Proof.
  intros Hwf HP Hi Hc. induction Hc as [i d Hlt Hr Hn|i d ds Hlt Hr Hn Hc IH].
  - constructor; [|done]. by apply (HP i).
  - constructor; [by apply (HP i)|]. apply IH.
    by apply read_descriptor_in_u in Hr as [_ ?].
Qed.

Lemma chain_desc_ok table qsize m i ds :
  gm_wf m -> 0 <= i -> chain_from table qsize m i ds -> Forall desc_ok ds.
Proof.
  intros Hwf Hi Hc. eapply chain_from_Forall; [exact Hwf| |exact Hi|exact Hc].
  intros j d _ Hr. by eapply read_descriptor_in_u.
Qed.

(** Reads of the table and of the index survive a change that avoids them. *)
Lemma read_descriptor_frame table qsize m m' i :
  0 <= table -> table + 16 * qsize <= 2 ^ 64 -> 0 <= i < qsize ->
  (forall a n, table <= a -> a + Z.of_nat n <= table + 16 * qsize -> gm_read m' a n = gm_read m a n) ->
  read_descriptor table m' i = read_descriptor table m i.
Proof.
  intros Ht Hf Hi H. unfold read_descriptor, read_u64_le, read_u32_le, read_u16_le.
  rewrite (wadd64_small table) by lia. rewrite !wadd64_small by lia.
  rewrite (H (table + i * 16)) by lia. rewrite (H (table + i * 16 + 8)) by lia.
  rewrite (H (table + i * 16 + 12)) by lia. by rewrite (H (table + i * 16 + 14)) by lia.
Qed.

(** A popped chain starts inside the table and leaves the rings where they are. *)
Lemma pop_avail_some q m q1 c :
  gm_wf m -> pop_avail q m = Ok (q1, Some c) ->
  q1 = set_next_avail q (wadd 16 (next_avail_idx q) 1) /\
  dc_table c = desc_table_addr q /\ dc_queue_size c = size q /\ dc_done c = false /\
  dc_length c = 0 /\ dc_current c = dc_head_index c /\ in_u 16 (dc_head_index c) /\
  dc_head_index c < size q /\
  exists idx, avail_idx q m = Ok idx /\ idx <> next_avail_idx q.
Proof.
  intros Hwf H. unfold pop_avail in H. destruct (negb _); [done|].
  destruct (avail_idx q m) as [idx|] eqn:Hi; [|done].
  destruct (Z.eqb_spec idx (next_avail_idx q)); [done|].
  destruct (avail_ring_entry q m _) as [h|] eqn:Hh; [|done].
  destruct (Z.leb_spec (size q) h); [done|]. simplify_eq/=.
  unfold avail_ring_entry in Hh. destruct (read_u16_le m _) as [x|] eqn:Hx; [|done].
  cbn in Hh. simplify_eq. apply read_u16_in_u in Hx; [|done].
  split_and!; try done. by exists idx.
Qed.

(** A change of memory that avoids the descriptor table and the available
    index keeps the driver's contract and the backlog. *)
Lemma ring_frame q m m' :
  queue_wf q -> rings_fit q -> rings_apart q -> 0 < size q ->
  (forall a n, desc_table_addr q <= a -> a + Z.of_nat n <= desc_table_addr q + 16 * size q ->
     gm_read m' a n = gm_read m a n) ->
  gm_read m' (avail_ring_addr q + 2) 2 = gm_read m (avail_ring_addr q + 2) 2 ->
  (forall okd, protected q m /\ table_ok okd q m -> protected q m' /\ table_ok okd q m') /\
  avail_idx q m' = avail_idx q m.
Proof.
  intros Hq Hfit Hap Hsz Ht Hi. destruct Hq as (_ & _ & [Hd0 _] & [Ha0 _] & _).
  destruct Hap as (_ & _ & Hdt). destruct Hfit as [Hfa _]. split.
  - intros okd [Hp Htab]. split; intros i d Hir Hr;
      rewrite (read_descriptor_frame (desc_table_addr q) (size q) m m' i) in Hr by done;
      [by apply (Hp i)|by apply (Htab i)].
  - unfold avail_idx, read_u16_le. rewrite wadd64_small by lia. by rewrite Hi.
Qed.

(** [push_used] with any outcome: only the used ring is written. *)
Lemma push_used_any q m h n q' m' r :
  gm_wf m -> queue_wf q -> rings_fit q -> is_valid q = true ->
  push_used h n (q, m) = ((q', m'), r) ->
  (q' = q \/ q' = set_next_used q (wadd 16 (next_used_idx q) 1)) /\ gm_wf m' /\
  (forall b k, disjoint_range (used_ring_addr q + 2) (2 + 8 * size q) b (Z.of_nat k) ->
     gm_read m' b k = gm_read m b k) /\
  (forall b k, is_ok (gm_read m' b k) = is_ok (gm_read m b k)).
Proof.
  intros Hm Hq Hfit Hv Hp. rewrite push_used_unfold in Hp by done. cbv zeta in Hp.
  pose proof (used_slot_bound q Hv) as Hslot.
  unfold write_u32_le, write_u16_le in Hp.
  destruct (gm_write m _ _) as [m1|] eqn:W1; [|injection Hp as <- <- <-; by split; [left|]].
  assert (F1 : gm_wf m1 /\ (forall b k, disjoint_range (used_ring_addr q + 2) (2 + 8 * size q) b (Z.of_nat k) ->
     gm_read m1 b k = gm_read m b k) /\ (forall b k, is_ok (gm_read m1 b k) = is_ok (gm_read m b k))).
  { split; [eauto using gm_write_le_wf|]. split; [|intros; by eapply gm_write_domain].
    intros b k Hd. eapply gm_write_le_disjoint; [exact W1|]. unfold disjoint_range in *. lia. }
  destruct F1 as (Hm1 & F1 & D1).
  destruct (gm_write m1 _ _) as [m2|] eqn:W2; [|injection Hp as <- <- <-; by split; [left|]].
  assert (F2 : gm_wf m2 /\ (forall b k, disjoint_range (used_ring_addr q + 2) (2 + 8 * size q) b (Z.of_nat k) ->
     gm_read m2 b k = gm_read m b k) /\ (forall b k, is_ok (gm_read m2 b k) = is_ok (gm_read m b k))).
  { split; [eauto using gm_write_le_wf|]. split.
    - intros b k Hd. rewrite <- F1 by done. eapply gm_write_le_disjoint; [exact W2|]. unfold disjoint_range in *. lia.
    - intros b k. rewrite <- D1. by eapply gm_write_domain. }
  destruct F2 as (Hm2 & F2 & D2).
  destruct (gm_write m2 _ _) as [m3|] eqn:W3; injection Hp as <- <- <-; (split; [by right|]); [|done].
  split; [eauto using gm_write_le_wf|]. split.
  - intros b k Hd. rewrite <- F2 by done. eapply gm_write_le_disjoint; [exact W3|]. unfold disjoint_range in *. lia.
  - intros b k. rewrite <- D2. by eapply gm_write_domain.
Qed.
End frames.

(** ** What a loop body promises *)

Section serving.
Context {M D : Type} `{!GuestMemory M, !GuestMemoryLaws M}.
Context (serve : D -> M -> result QueueError (list Descriptor) -> D * M * action).
Implicit Types (m : M) (q : Queue) (d : D).

(** Memory changes only inside the device-writable buffers of the chain, and no
    page appears or disappears. *)
Definition stays_within (ds : list Descriptor) m m' : Prop :=
  gm_wf m' /\
  (forall a n, untouched ds a n -> gm_read m' a n = gm_read m a n) /\
  (forall a n, is_ok (gm_read m' a n) = is_ok (gm_read m a n)).

Record serve_laws (okd : Descriptor -> Prop) (inv : D -> Prop) : Prop := {
  sl_ok : forall d m ds d' m' act,
    gm_wf m -> inv d -> Forall desc_ok ds -> Forall okd ds -> serve d m (Ok ds) = (d', m', act) ->
    inv d' /\ stays_within ds m m' /\ (forall w, act = Push w -> in_u 32 w);
  sl_err : forall d m e d' m' act,
    inv d -> serve d m (Err e) = (d', m', act) ->
    inv d' /\ m' = m /\ (forall w, act = Push w -> in_u 32 w)
}.

Context (okd : Descriptor -> Prop) (inv : D -> Prop) (laws : serve_laws okd inv).

(** The popped chain is what the table encodes, and its buffers keep the
    contract. *)
Lemma popped_chain q m q1 ch ds :
  drain_inv okd q m -> pop_avail q m = Ok (q1, Some ch) -> collect ch m = Some (Ok ds) ->
  chain_from (desc_table_addr q) (size q) m (dc_head_index ch) ds /\ Forall desc_ok ds /\ Forall okd ds /\
  untouched ds (avail_ring_addr q + 2) 2 /\
  (forall a n, desc_table_addr q <= a -> a + Z.of_nat n <= desc_table_addr q + 16 * size q -> untouched ds a n).
Proof.
  intros [Hwf Hq Hv Hfit Hap Hpr Htb] Hpop Hcol.
  destruct (pop_avail_some _ _ _ _ Hwf Hpop) as (_ & Htab & Hqs & Hdone & Hlen & Hcur & Hhd & Hlt & _).
  assert (Hcf : chain_from (desc_table_addr q) (size q) m (dc_head_index ch) ds).
  { rewrite <- Htab, <- Hqs, <- Hcur. apply (collect_iff ch m); [|done..].
    split; rewrite Hqs; [apply Hq | pose proof (is_valid_size q Hv); lia]. }
  pose proof (chain_from_Forall _ _ _ _ _ _ Hwf Hpr (proj1 Hhd) Hcf) as Hds. split_and!; [done| | | |].
  - by eapply chain_desc_ok; [| apply Hhd|].
  - by eapply chain_from_Forall, Hcf; [| |apply Hhd].
  - eapply Forall_impl; [exact Hds|]. cbn. intros d Hd Hw. by destruct (Hd Hw).
  - intros a n Hlo Hhi. eapply Forall_impl; [exact Hds|]. cbn. intros d Hd Hw.
    destruct (Hd Hw) as [? _]. unfold disjoint_range in *. lia.
Qed.

(** The state after a chain has been served: popped, memory as the body left it,
    the used ring perhaps written. *)
Lemma served_inv q m m1 q2 m2 r h w :
  drain_inv okd q m -> gm_wf m1 ->
  (forall a n, desc_table_addr q <= a -> a + Z.of_nat n <= desc_table_addr q + 16 * size q ->
     gm_read m1 a n = gm_read m a n) ->
  gm_read m1 (avail_ring_addr q + 2) 2 = gm_read m (avail_ring_addr q + 2) 2 ->
  let q1 := set_next_avail q (wadd 16 (next_avail_idx q) 1) in
  (q2 = q1 /\ m2 = m1 \/ push_used h w (q1, m1) = ((q2, m2), r)) ->
  drain_inv okd q2 m2 /\ avail_idx q2 m2 = avail_idx q m /\
  next_avail_idx q2 = wadd 16 (next_avail_idx q) 1.
Proof.
  intros [Hwf Hq Hv Hfit Hap Hpr Htb] Hwf1 Ht Hi q1 Hcase.
  assert (Hq1 : queue_wf q1) by (apply set_next_avail_wf; [done|apply wrap_in_u; lia]).
  pose proof (is_valid_size q Hv) as [Hsz _].
  assert (H2 : (q2 = q1 \/ q2 = set_next_used q1 (wadd 16 (next_used_idx q1) 1)) /\ gm_wf m2 /\
    (forall a n, desc_table_addr q <= a -> a + Z.of_nat n <= desc_table_addr q + 16 * size q ->
       gm_read m2 a n = gm_read m a n) /\
    gm_read m2 (avail_ring_addr q + 2) 2 = gm_read m (avail_ring_addr q + 2) 2).
  { destruct Hcase as [[-> ->]|Hp]; [split; [by left|done]|].
    destruct (push_used_any q1 m1 h w q2 m2 r Hwf1 Hq1 Hfit Hv Hp) as (Hq2 & Hwf2 & Hfr & _).
    destruct Hap as (Ha1 & Ha2 & _). split_and!; [done|done| |].
    - intros a n Hlo Hhi. rewrite Hfr, Ht by (done || unfold disjoint_range in *; cbn in *; lia). done.
    - rewrite Hfr by exact Ha2. done. }
  destruct H2 as (Hq2 & Hwf2 & Ht2 & Hi2).
  destruct (ring_frame q m m2 Hq Hfit Hap Hsz Ht2 Hi2) as [Hp' Hai]. destruct (Hp' okd ltac:(done)).
  assert (Hq2wf : queue_wf q2).
  { destruct Hq2 as [-> | ->]; [done|]. apply set_next_used_wf; [done|apply wrap_in_u; lia]. }
  destruct Hq2 as [-> | ->]; (split; [by constructor|]); by split.
Qed.

Lemma loop_step_more q m d c q' m' d' c' :
  drain_inv okd q m -> inv d -> loop_step serve (q, m, d, c) = ((q', m', d', c'), true) ->
  drain_inv okd q' m' /\ inv d' /\ 0 < backlog q m /\ backlog q' m' = backlog q m - 1 /\ (c = true -> c' = true).
Proof.
  intros Hinv Hd H. pose proof Hinv as [Hwf Hq Hv Hfit Hap Hpr Htb]. unfold loop_step in H.
  destruct (pop_avail q m) as [[q1 [ch|]]|e] eqn:Hpop; [|done|done].
  destruct (pop_avail_some _ _ _ _ Hwf Hpop) as (Eq1 & _ & _ & _ & _ & _ & _ & _ & idx & Hidx & Hne).
  destruct (collect ch m) as [r|] eqn:Hcol; [|done].
  destruct (serve d m r) as [[d1 m1] act] eqn:Hs.
  assert (Hf : inv d1 /\ gm_wf m1 /\
    (forall a n, desc_table_addr q <= a -> a + Z.of_nat n <= desc_table_addr q + 16 * size q ->
       gm_read m1 a n = gm_read m a n) /\
    gm_read m1 (avail_ring_addr q + 2) 2 = gm_read m (avail_ring_addr q + 2) 2).
  { destruct r as [ds|e].
    - destruct (popped_chain q m q1 ch ds Hinv Hpop Hcol) as (_ & Hok & Hokd & Hu1 & Hu2).
      destruct (sl_ok _ _ laws _ _ _ _ _ _ Hwf Hd Hok Hokd Hs) as (Hd1 & (Hwf1 & Hfr & _) & _).
      split_and!; [done|done| |by apply Hfr]. intros a n Hlo Hhi. by apply Hfr, Hu2.
    - by destruct (sl_err _ _ laws _ _ _ _ _ _ Hd Hs) as (Hd1 & -> & _). }
  destruct Hf as (Hd1 & Hwf1 & Ht & Hi).
  assert (Hnext : d' = d1 /\ (c = true -> c' = true) /\ exists w rr,
    (q' = q1 /\ m' = m1 \/ push_used (dc_head_index ch) w (q1, m1) = ((q', m'), rr))).
  { destruct act as [| |w|]; [done| | |].
    - injection H as <- <- <- <-. split; [done|]. split; [done|]. exists 0, (Ok tt). by left.
    - destruct (push_used _ _ _) as [[q2 m2] [u|e]] eqn:Hp; [|done]. injection H as <- <- <- <-.
      split; [done|]. split; [done|]. exists w, (Ok u). by right.
    - destruct (push_used _ _ _) as [[q2 m2] rr] eqn:Hp. injection H as <- <- <- <-.
      split; [done|]. split; [done|]. exists 0, rr. by right. }
  destruct Hnext as (-> & Hc & w & rr & Hcase). subst q1.
  destruct (served_inv q m m1 q' m' rr (dc_head_index ch) w Hinv Hwf1 Ht Hi Hcase) as (Hinv' & Hai & Hna).
  destruct (backlog_next q idx) as [Hb1 Hb2]; [exact (avail_idx_in_u _ _ _ Hwf Hidx)|apply Hq|done|].
  unfold backlog. rewrite Hai, Hna, Hidx. done.
Qed.

(** An iteration that stops leaves the completion flag alone. *)
Lemma loop_step_stop q m d c q' m' d' c' :
  loop_step serve (q, m, d, c) = ((q', m', d', c'), false) -> c' = c.
Proof.
  unfold loop_step. intros H.
  destruct (pop_avail q m) as [[q1 [ch|]]|e]; [|by simplify_eq..].
  destruct (collect ch m) as [r|]; [|by simplify_eq..].
  destruct (serve d m r) as [[d1 m1] []]; [by simplify_eq|by simplify_eq| |].
  - by destruct (push_used _ _ _) as [[q2 m2] [u|e]]; simplify_eq.
  - by destruct (push_used _ _ _) as [[q2 m2] rr]; simplify_eq.
Qed.

(** The loop pops at most the backlog. *)
Lemma queue_loop_ends fuel : forall q m d c,
  drain_inv okd q m -> inv d -> backlog q m < Z.of_nat fuel ->
  exists q' m' d' c', queue_loop serve fuel (q, m, d, c) = ((q', m', d', c'), true) /\ (c = true -> c' = true).
Proof.
  induction fuel as [|fuel IH]; intros q m d c Hinv Hd Hf; [pose proof (backlog_bound q m); lia|].
  cbn [queue_loop]. destruct (loop_step serve (q, m, d, c)) as [[[[q1 m1] d1] c1] [|]] eqn:Hst.
  - destruct (loop_step_more _ _ _ _ _ _ _ _ Hinv Hd Hst) as (Hi1 & Hd1 & Hb0 & Hb1 & Hc1).
    destruct (IH q1 m1 d1 c1 Hi1 Hd1 ltac:(lia)) as (q' & m' & d' & c' & Hl & Hc).
    exists q', m', d', c'. split; [done|auto].
  - exists q1, m1, d1, c1. split; [done|]. intros ->. by eapply loop_step_stop.
Qed.

Lemma queue_loop_terminates q m d c :
  drain_inv okd q m -> inv d ->
  exists q' m' d' c', queue_loop serve drain_fuel (q, m, d, c) = ((q', m', d', c'), true) /\ (c = true -> c' = true).
Proof.
  intros Hinv Hd. apply queue_loop_ends; [done|done|]. pose proof (backlog_bound q m). unfold drain_fuel. lia.
Qed.
End serving.

(** ** Safety for any guest

    Nothing is assumed of the driver here: whatever the rings and buffers hold,
    the loop keeps what its body keeps. *)

Section any_guest.
Context {M D : Type} `{!GuestMemory M, !GuestMemoryLaws M}.

Lemma push_used_wf h w q (m : M) q' m' r :
  gm_wf m -> push_used h w (q, m) = ((q', m'), r) -> gm_wf m'.
Proof.
  intros Hwf H. unfold push_used, st_bind, st_get, st_fail, mem_step, bump_used, write_u32_le, write_u16_le in H.
  cbn [fst] in H. destruct (negb (is_valid q)); [by simplify_eq|].
  destruct (gm_write m _ _) as [m1|] eqn:W1; [|by simplify_eq].
  destruct (gm_write m1 _ _) as [m2|] eqn:W2; [|simplify_eq; eauto using gm_write_le_wf].
  cbn [fst] in H. destruct (gm_write m2 _ _) as [m3|] eqn:W3; simplify_eq; eauto 6 using gm_write_le_wf.
Qed.

Definition serve_keeps (serve : D -> M -> result QueueError (list Descriptor) -> D * M * action)
  (inv : D -> Prop) : Prop :=
  forall d m r d' m' act, gm_wf m -> inv d -> serve d m r = (d', m', act) -> gm_wf m' /\ inv d'.

Lemma loop_step_keeps serve inv q m d c q' m' d' c' f :
  serve_keeps serve inv -> gm_wf m -> inv d -> loop_step serve (q, m, d, c) = ((q', m', d', c'), f) ->
  gm_wf m' /\ inv d'.
Proof.
  intros Hk Hwf Hd H. unfold loop_step in H.
  destruct (pop_avail q m) as [[q1 [ch|]]|e]; [|by simplify_eq..].
  destruct (collect ch m) as [r|]; [|by simplify_eq].
  destruct (serve d m r) as [[d1 m1] act] eqn:Hs. destruct (Hk _ _ _ _ _ _ Hwf Hd Hs) as [Hwf1 Hd1].
  destruct act; [by simplify_eq..| |].
  - destruct (push_used _ _ _) as [[q2 m2] [u|e]] eqn:Hp; apply push_used_wf in Hp; by simplify_eq.
  - destruct (push_used _ _ _) as [[q2 m2] rr] eqn:Hp; apply push_used_wf in Hp; by simplify_eq.
Qed.

Lemma queue_loop_keeps serve inv fuel : forall q m d c q' m' d' c' f,
  serve_keeps serve inv -> gm_wf m -> inv d -> queue_loop serve fuel (q, m, d, c) = ((q', m', d', c'), f) ->
  gm_wf m' /\ inv d'.
Proof.
  induction fuel as [|fuel IH]; intros q m d c q' m' d' c' f Hk Hwf Hd H; cbn [queue_loop] in H; [by simplify_eq|].
  destruct (loop_step serve (q, m, d, c)) as [[[[q1 m1] d1] c1] g] eqn:Hst.
  destruct (loop_step_keeps _ _ _ _ _ _ _ _ _ _ _ Hk Hwf Hd Hst) as [Hwf1 Hd1].
  destruct g; [by eapply IH|by simplify_eq].
Qed.
End any_guest.

(** ** Completeness of the loop *)

Section layout.
Context {M : Type} `{!GuestMemory M, !GuestMemoryLaws M}.
Implicit Types (m : M) (q : Queue).
Context (okd : Descriptor -> Prop).

(** A buffer the device may write avoids the three rings. *)
Definition off_rings q (d : Descriptor) : Prop :=
  is_write_only d = true ->
  disjoint_range (d_addr d) (d_len d) (desc_table_addr q) (16 * size q) /\
  disjoint_range (d_addr d) (d_len d) (avail_ring_addr q) (4 + 2 * size q) /\
  disjoint_range (d_addr d) (d_len d) (used_ring_addr q + 2) (2 + 8 * size q).

(** The memory layout of a driver that keeps the virtqueue rules: rings apart,
    buffers off the rings, the used ring mapped. *)
Record layout q m : Prop := {
  ly_mem : gm_wf m;
  ly_queue : queue_wf q;
  ly_valid : is_valid q = true;
  ly_fit : rings_fit q;
  ly_table : desc_table_addr q + 16 * size q <= 2 ^ 64;
  ly_apart : disjoint_range (used_ring_addr q + 2) (2 + 8 * size q) (desc_table_addr q) (16 * size q);
  ly_apart_avail : disjoint_range (used_ring_addr q + 2) (2 + 8 * size q) (avail_ring_addr q) (4 + 2 * size q);
  ly_buffers : forall i d, 0 <= i < size q -> read_descriptor (desc_table_addr q) m i = Ok d -> off_rings q d;
  ly_mapped : is_ok (gm_read m (used_ring_addr q) (Z.to_nat (4 + 8 * size q))) = true;
  ly_descs : table_ok okd q m
}.

Lemma layout_drain_inv q m : layout q m -> drain_inv okd q m.
Proof.
  intros [Hm Hq Hv Hf Ht Ha1 Ha2 Hb _ Hd]. pose proof (is_valid_size q Hv). constructor; [done..| | |done].
  - split_and!; [done| |done]. unfold disjoint_range in *. lia.
  - intros i d Hi Hr Hw. destruct (Hb i d Hi Hr Hw) as (H1 & H2 & _). split; [done|].
    unfold disjoint_range in *. lia.
Qed.

(** The ranges the device reads, and the memory they are unchanged in. *)
Definition driver_range q (a : Z) (n : nat) : Prop :=
  desc_table_addr q <= a /\ a + Z.of_nat n <= desc_table_addr q + 16 * size q \/
  avail_ring_addr q <= a /\ a + Z.of_nat n <= avail_ring_addr q + (4 + 2 * size q).

Record rings_kept q m m' : Prop := {
  rk_mem : gm_wf m';
  rk_same : forall a n, driver_range q a n -> gm_read m' a n = gm_read m a n;
  rk_domain : forall a n, is_ok (gm_read m' a n) = is_ok (gm_read m a n)
}.

Definition same_rings q q' : Prop :=
  max_size q' = max_size q /\ size q' = size q /\ ready q' = ready q /\
  desc_table_addr q' = desc_table_addr q /\ avail_ring_addr q' = avail_ring_addr q /\
  used_ring_addr q' = used_ring_addr q.

Lemma kept_descriptor q m m' i :
  layout q m -> rings_kept q m m' -> 0 <= i < size q ->
  read_descriptor (desc_table_addr q) m' i = read_descriptor (desc_table_addr q) m i.
Proof.
  intros L K Hi. apply (read_descriptor_frame _ (size q)); [apply (ly_queue _ _ L)|apply L|done|].
  intros a n ? ?. apply K. left. lia.
Qed.

Lemma kept_layout q m m' q' :
  layout q m -> rings_kept q m m' -> same_rings q q' -> queue_wf q' -> layout q' m'.
Proof.
  intros L K (E1 & E2 & E3 & E4 & E5 & E6) Hq'. pose proof L as [? ? ? ? ? ? ? ? ? ?].
  constructor; unfold table_ok, rings_fit, is_valid, off_rings in *; rewrite ?E1, ?E2, ?E3, ?E4, ?E5, ?E6; try done.
  - apply K.
  - intros i d Hi Hr. rewrite (kept_descriptor q m m' i L K Hi) in Hr. eauto.
  - by rewrite (rk_domain _ _ _ K).
  - intros i d Hi Hr. rewrite (kept_descriptor q m m' i L K Hi) in Hr. eauto.
Qed.

Lemma kept_chain q m m' i ds :
  layout q m -> rings_kept q m m' -> 0 <= i ->
  chain_from (desc_table_addr q) (size q) m i ds -> chain_from (desc_table_addr q) (size q) m' i ds.
Proof.
  intros L K Hi Hc. induction Hc as [i d Hlt Hr Hn|i d ds Hlt Hr Hn Hc IH].
  - constructor; [done| |done]. by rewrite (kept_descriptor q m m' i L K).
  - apply chain_next; [done| |done|].
    + by rewrite (kept_descriptor q m m' i L K).
    + apply IH. by apply (read_descriptor_in_u _ _ _ _ (ly_mem _ _ L)) in Hr as [_ ?].
Qed.

Lemma kept_pending q m m' hs : layout q m -> rings_kept q m m' -> pending q m hs -> pending q m' hs.
Proof.
  intros L K (idx & Hi & Hl & He). pose proof (ly_queue _ _ L) as (_ & _ & _ & [Ha _] & _).
  pose proof (is_valid_size q (ly_valid _ _ L)) as [Hs _]. destruct (ly_fit _ _ L) as [Hfa _].
  assert (Hk : forall a, 0 <= a -> a + 2 <= 4 + 2 * size q ->
    read_u16_le m' (wadd 64 (avail_ring_addr q) a) = read_u16_le m (wadd 64 (avail_ring_addr q) a)).
  { intros a H0 H1. unfold read_u16_le. rewrite wadd64_small by lia.
    rewrite (rk_same _ _ _ K); [done|]. right. lia. }
  exists idx. split; [|split; [done|]].
  - unfold avail_idx in *. rewrite Hk by lia. done.
  - intros i h Hlk. rewrite <- (He i h Hlk). unfold avail_ring_entry. f_equal.
    pose proof (Z.mod_pos_bound (wrap 16 (next_avail_idx q + Z.of_nat i)) (size q) Hs).
    rewrite (wadd64_small (avail_ring_addr q) 4) by lia. rewrite wadd64_small by lia.
    specialize (Hk (4 + wrap 16 (next_avail_idx q + Z.of_nat i) mod size q * 2) ltac:(lia) ltac:(lia)).
    rewrite wadd64_small in Hk by lia. by rewrite Z.add_assoc in Hk.
Qed.

Lemma kept_same q q' m m' : same_rings q q' -> rings_kept q m m' -> rings_kept q' m m'.
Proof.
  intros (_ & E2 & _ & E4 & E5 & _) [? Hs ?]. constructor; [done| |done].
  intros a n. unfold driver_range. rewrite E2, E4, E5. apply Hs.
Qed.

Lemma kept_refl q m : gm_wf m -> rings_kept q m m.
Proof. by constructor. Qed.

Lemma kept_trans q m m1 m2 : rings_kept q m m1 -> rings_kept q m1 m2 -> rings_kept q m m2.
Proof.
  intros [? S1 D1] [? S2 D2]. constructor; [done| |].
  - intros a n Hr. rewrite S2, S1; done.
  - intros a n. by rewrite D2, D1.
Qed.

(** Serving a chain keeps the driver's ranges, and the used ring. *)
Lemma served_kept q m m' i ds :
  layout q m -> 0 <= i -> chain_from (desc_table_addr q) (size q) m i ds -> stays_within ds m m' ->
  rings_kept q m m' /\
  forall a n, used_ring_addr q + 2 <= a -> a + Z.of_nat n <= used_ring_addr q + 4 + 8 * size q ->
    gm_read m' a n = gm_read m a n.
Proof.
  intros L Hi Hc (Hwf & Hfr & Hdom).
  pose proof (chain_from_Forall _ _ _ _ _ _ (ly_mem _ _ L) (ly_buffers _ _ L) Hi Hc) as Hds. split.
  - constructor; [done| |done]. intros a n Hr. apply Hfr. eapply Forall_impl; [exact Hds|].
    cbn. intros d Hd Hw. destruct (Hd Hw) as (H1 & H2 & _). unfold driver_range, disjoint_range in *. lia.
  - intros a n H1 H2. apply Hfr. eapply Forall_impl; [exact Hds|].
    cbn. intros d Hd Hw. destruct (Hd Hw) as (_ & _ & H3). unfold disjoint_range in *. lia.
Qed.

Lemma pushed_kept q m h w q' m' r :
  layout q m -> push_used h w (q, m) = ((q', m'), r) -> rings_kept q m m'.
Proof.
  intros [] Hp. destruct (push_used_any q m h w q' m' r) as (_ & Hwf & Hfr & Hdom); [done..|].
  constructor; [done| |done]. intros a n Hr. apply Hfr. unfold driver_range, disjoint_range in *. lia.
Qed.
End layout.

Section complete.
Context {M D : Type} `{!GuestMemory M, !GuestMemoryLaws M}.
Context (serve : D -> M -> result QueueError (list Descriptor) -> D * M * action).
Context (okd : Descriptor -> Prop) (inv : D -> Prop) (laws : serve_laws serve okd inv).
Implicit Types (m : M) (q : Queue) (d : D).

(** The service the loop stands for: each published chain, in order, is served
    in the memory its predecessors left and returned with its byte count. *)
Inductive drained : Queue * M * D -> list (Z * list Descriptor) -> list (Z * Z) -> Queue * M * D -> Prop :=
| drained_nil s : drained s [] [] s
| drained_cons q m d h ds cs d1 m1 w q2 m2 es s' :
    serve d m (Ok ds) = (d1, m1, Push w) ->
    push_used h w (set_next_avail q (wadd 16 (next_avail_idx q) 1), m1) = ((q2, m2), Ok tt) ->
    drained (q2, m2, d1) cs es s' ->
    drained (q, m, d) ((h, ds) :: cs) ((h, w) :: es) s'.

(** The chains of the published heads. *)
Definition published q m (cs : list (Z * list Descriptor)) : Prop :=
  pending q m cs.*1 /\
  Forall (fun c => in_u 16 c.1 /\ chain_from (desc_table_addr q) (size q) m c.1 c.2 /\ zlen c.2 <= size q) cs.

Lemma published_pop q m h ds cs :
  layout okd q m -> published q m ((h, ds) :: cs) ->
  let q1 := set_next_avail q (wadd 16 (next_avail_idx q) 1) in
  let ch := mkChain (desc_table_addr q) (size q) h h 0 false in
  pop_avail q m = Ok (q1, Some ch) /\ collect ch m = Some (Ok ds) /\ published q1 m cs.
Proof.
  intros [] [Hp Hcs] q1 ch. inversion Hcs as [|? ? (Hh & Hch & Hl) Hcs']; subst. cbn [fst snd] in *.
  assert (Hlt : h < size q) by (by inversion Hch).
  destruct (pop_avail_pending q m h cs.*1) as [Hpop Hp']; [done..|].
  split; [done|]. split; [|by split].
  apply collect_iff; [|done..]. split; cbn; [apply ly_queue0|].
  pose proof (is_valid_size q ly_valid0). lia.
Qed.

Lemma published_kept q m m' q' cs :
  layout okd q m -> rings_kept q m m' -> same_rings q q' -> next_avail_idx q' = next_avail_idx q ->
  published q m cs -> published q' m' cs.
Proof.
  intros L K (E1 & E2 & E3 & E4 & E5 & E6) En [Hp Hcs]. split.
  - pose proof (kept_pending okd q m m' _ L K Hp) as Hp'. unfold pending, avail_idx, avail_ring_entry in *.
    by rewrite E2, E5, En.
  - eapply Forall_impl; [exact Hcs|]. cbn. intros c (Hh & Hc & Hl). rewrite E2, E4. split_and!; [done| |done].
    by apply (kept_chain okd q m m'); [..|apply Hh|].
Qed.

(** The body returns every chain the driver publishes. *)
Definition returns (good : list Descriptor -> Prop) : Prop :=
  forall d m ds, gm_wf m -> inv d -> Forall desc_ok ds -> good ds ->
    exists d' m' w, serve d m (Ok ds) = (d', m', Push w).

(** A published chain, served: the layout is kept for the next one. *)
Lemma serve_kept q m d h ds cs d1 m1 w :
  layout okd q m -> inv d -> published q m ((h, ds) :: cs) -> serve d m (Ok ds) = (d1, m1, Push w) ->
  let q1 := set_next_avail q (wadd 16 (next_avail_idx q) 1) in
  layout okd q1 m1 /\ inv d1 /\ published q1 m1 cs /\ in_u 16 h /\ in_u 32 w /\
  (forall slot, 0 <= slot < size q -> used_elem q m1 slot = used_elem q m slot).
Proof.
  intros L Hd Hpub Hs q1. pose proof Hpub as [_ Hcs].
  inversion Hcs as [|? ? (Hh & Hch & Hl) Hcs']; subst. cbn [fst snd] in *.
  destruct (published_pop q m h ds cs L Hpub) as (_ & _ & Hpub1).
  pose proof (chain_desc_ok _ _ _ _ _ (ly_mem _ _ _ L) (proj1 Hh) Hch) as Hok.
  pose proof (chain_from_Forall _ _ _ _ _ _ (ly_mem _ _ _ L) (ly_descs _ _ _ L) (proj1 Hh) Hch) as Hokd.
  destruct (sl_ok _ _ _ laws _ _ _ _ _ _ (ly_mem _ _ _ L) Hd Hok Hokd Hs) as (Hd1 & Hin & Hw).
  destruct (served_kept okd q m m1 h ds L (proj1 Hh) Hch Hin) as [K1 Hu].
  assert (Hq1 : queue_wf q1) by (apply set_next_avail_wf; [apply L|apply wrap_in_u; lia]).
  split_and!; [by apply (kept_layout okd q m m1)|done| |done..|by apply Hw|].
  - apply (published_kept q1 m m1); [|by apply (kept_same q q1)|done..].
    apply (kept_layout okd q m m); [done|apply kept_refl, L|done..].
  - intros slot Hslot. unfold used_elem, read_u32_le. by rewrite !Hu by lia.
Qed.

Lemma push_kept q m h w cs q2 m2 :
  layout okd q m -> published q m cs -> in_u 16 h -> in_u 32 w ->
  push_used h w (q, m) = ((q2, m2), Ok tt) ->
  layout okd q2 m2 /\ published q2 m2 cs /\
  q2 = set_next_used q (wadd 16 (next_used_idx q) 1) /\
  used_elem q m2 (used_slot q 0) = Ok (h, w) /\ used_idx q m2 = Ok (next_used_idx q2) /\
  (forall slot, 0 <= slot < size q -> slot <> used_slot q 0 -> used_elem q m2 slot = used_elem q m slot).
Proof.
  intros L Hpub Hh Hw Hp. pose proof L as [].
  destruct (push_used_effect q m h w q2 m2) as (-> & Hwf & He & Hi & Ho & _); [done..|unfold in_u in *; lia|done|done|].
  assert (K : rings_kept q m m2) by (by eapply pushed_kept).
  assert (Hq : queue_wf (set_next_used q (wadd 16 (next_used_idx q) 1))).
  { apply set_next_used_wf; [done|apply wrap_in_u; lia]. }
  unfold used_slot. rewrite Z.add_0_r.
  split_and!; [by apply (kept_layout okd q m m2)|by apply (published_kept q m m2)|done..].
Qed.

(** One pass over a published chain that the body returns. *)
Lemma drain_pushed q m d c h ds cs d1 m1 w :
  layout okd q m -> inv d -> published q m ((h, ds) :: cs) -> serve d m (Ok ds) = (d1, m1, Push w) ->
  exists q2 m2,
    push_used h w (set_next_avail q (wadd 16 (next_avail_idx q) 1), m1) = ((q2, m2), Ok tt) /\
    loop_step serve (q, m, d, c) = ((q2, m2, d1, true), true) /\
    layout okd q2 m2 /\ inv d1 /\ published q2 m2 cs.
Proof.
  intros L Hd Hpub Hs. destruct (published_pop q m h ds cs L Hpub) as (Hpop & Hcol & _).
  destruct (serve_kept q m d h ds cs d1 m1 w L Hd Hpub Hs) as (L1 & Hd1 & Hpub1 & Hh & Hw & _).
  set (q1 := set_next_avail q (wadd 16 (next_avail_idx q) 1)) in *.
  destruct (gm_read m1 (used_ring_addr q1) (Z.to_nat (4 + 8 * size q1))) as [v|] eqn:Hv;
    [|by pose proof (ly_mapped _ _ _ L1) as Hm; rewrite Hv in Hm].
  destruct (push_used_total q1 m1 h w v (ly_queue _ _ _ L1) (ly_fit _ _ _ L1) (ly_valid _ _ _ L1) Hv) as (q2 & m2 & Hp).
  destruct (push_kept q1 m1 h w cs q2 m2 L1 Hpub1 Hh Hw Hp) as (L2 & Hpub2 & _).
  exists q2, m2. split_and!; try done.
  unfold loop_step. rewrite Hpop, Hcol, Hs. cbn [dc_head_index]. by rewrite Hp.
Qed.

Lemma drain_one good q m d c h ds cs :
  returns good -> layout okd q m -> inv d -> published q m ((h, ds) :: cs) -> good ds ->
  exists d1 m1 w q2 m2,
    serve d m (Ok ds) = (d1, m1, Push w) /\
    push_used h w (set_next_avail q (wadd 16 (next_avail_idx q) 1), m1) = ((q2, m2), Ok tt) /\
    loop_step serve (q, m, d, c) = ((q2, m2, d1, true), true) /\
    layout okd q2 m2 /\ inv d1 /\ published q2 m2 cs.
Proof.
  intros Hret L Hd Hpub Hg. pose proof Hpub as [_ Hcs].
  inversion Hcs as [|? ? (Hh & Hch & Hl) Hcs']; subst. cbn [fst snd] in *.
  pose proof (chain_desc_ok _ _ _ _ _ (ly_mem _ _ _ L) (proj1 Hh) Hch) as Hok.
  destruct (Hret d m ds (ly_mem _ _ _ L) Hd Hok Hg) as (d1 & m1 & w & Hs).
  destruct (drain_pushed q m d c h ds cs d1 m1 w L Hd Hpub Hs) as (q2 & m2 & ?).
  by exists d1, m1, w, q2, m2.
Qed.

(** The loop serves exactly the published chains, in order, and then finds the
    queue empty. *)
Lemma queue_loop_complete good cs : forall fuel q m d c,
  returns good -> layout okd q m -> inv d -> published q m cs -> Forall (fun x => good x.2) cs ->
  (length cs < fuel)%nat ->
  exists es q' m' d', drained (q, m, d) cs es (q', m', d') /\
    queue_loop serve fuel (q, m, d, c) = ((q', m', d', c || negb (bool_decide (cs = []))), true) /\
    layout okd q' m' /\ inv d' /\ pop_avail q' m' = Ok (q', None).
Proof.
  induction cs as [|[h ds] cs IH]; intros [|fuel] q m d c Hret L Hd Hpub Hg Hf; cbn [length] in Hf; try lia.
  - assert (Hpop : pop_avail q m = Ok (q, None)).
    { apply pop_avail_empty; [apply L..|]. apply Hpub. }
    exists [], q, m, d. split; [constructor|]. cbn [queue_loop loop_step]. rewrite Hpop.
    rewrite bool_decide_eq_true_2 by done. by rewrite orb_false_r.
  - inversion Hg as [|? ? Hg1 Hg']; subst.
    destruct (drain_one good q m d c h ds cs Hret L Hd Hpub Hg1)
      as (d1 & m1 & w & q2 & m2 & Hs & Hp & Hst & L2 & Hd1 & Hpub2).
    destruct (IH fuel q2 m2 d1 true Hret L2 Hd1 Hpub2 Hg' ltac:(lia)) as (es & q' & m' & d' & Hdr & Hl & Hrest).
    exists ((h, w) :: es), q', m', d'. split; [by econstructor|]. cbn [queue_loop]. rewrite Hst, Hl.
    split; [|done]. by rewrite orb_true_r.
Qed.

(** What the driver finds in the used ring afterwards: the heads in the order
    it published them, each with the byte count of its service. *)
Lemma drained_used k rest cs : forall es q m d q' m' d',
  layout okd q m -> inv d -> published q m (cs ++ rest) -> 0 <= k <= 16 -> size q = 2 ^ k -> zlen cs <= size q ->
  drained (q, m, d) cs es (q', m', d') ->
  es.*1 = cs.*1 /\ next_used_idx q' = wrap 16 (next_used_idx q + zlen cs) /\
  (forall i e, es !! i = Some e -> used_elem q m' (used_slot q i) = Ok e) /\
  (forall slot, 0 <= slot < size q -> (forall i, (i < length es)%nat -> slot <> used_slot q i) ->
     used_elem q m' slot = used_elem q m slot) /\
  (cs <> [] -> used_idx q m' = Ok (next_used_idx q')).
Proof.
  induction cs as [|[h ds] cs IH]; intros es q m d q' m' d' L Hd Hpub Hk Hs Hlen Hdr;
    inversion Hdr as [|? ? ? ? ? ? d1 m1 w q2 m2 es' ? Hsv Hp Hdr']; subst.
  - split; [done|]. unfold zlen. cbn [length Z.of_nat]. rewrite Z.add_0_r, wrap_small by apply (ly_queue _ _ _ L).
    split_and!; [done|by intros ? ? ?|by intros|by intros []].
  - destruct (serve_kept q m d h ds (cs ++ rest) d1 m1 w L Hd Hpub Hsv) as (L1 & Hd1 & Hpub1 & Hh & Hw & Hu).
    destruct (push_kept _ m1 h w (cs ++ rest) q2 m2 L1 Hpub1 Hh Hw Hp) as (L2 & Hpub2 & -> & He & Hi & Ho).
    unfold zlen in Hlen. cbn [length] in Hlen.
    change (used_elem (set_next_avail q _)) with (used_elem q) in *.
    match goal with H : drained (?x, _, _) cs _ _ |- _ => set (q2 := x) in * end.
    destruct (IH es' q2 m2 d1 q' m' d' L2 Hd1 Hpub2 Hk Hs ltac:(unfold zlen; cbn; lia) Hdr')
      as (E1 & E2 & Hents & Hrest & Hidx).
    change (used_elem q2) with (used_elem q) in *. change (used_idx q2) with (used_idx q) in *.
    change (size q2) with (size q) in *.
    assert (Hsl : forall i, used_slot q2 i = used_slot q (S i)) by (intros i; apply (used_slot_next q k i Hk Hs)).
    assert (Hl : length es' = length cs) by (rewrite <- (length_fmap fst es'), E1; apply length_fmap).
    split_and!.
    + cbn. by rewrite E1.
    + rewrite E2. unfold q2, zlen. cbn [next_used_idx set_next_used set_next_avail length].
      unfold wadd, wrap. rewrite Zplus_mod_idemp_l. f_equal. lia.
    + intros [|i] e Hlk; cbn in Hlk; [simplify_eq|rewrite <- Hsl; by apply Hents].
      rewrite Hrest; [exact He|apply Z.mod_pos_bound; pose proof (is_valid_size q (ly_valid _ _ _ L)); lia|].
      intros i Hlt. rewrite Hsl. unfold used_slot. cbn [Z.of_nat]. rewrite Z.add_0_r.
      intros Heq. symmetry in Heq. revert Heq. apply mod_add_ne. lia.
    + intros slot Hb Hne. rewrite Hrest, (Ho slot), Hu; [done|done|done| |done|].
      * apply (Hne O). cbn. lia.
      * intros i Hlt. rewrite Hsl. apply Hne. cbn. lia.
    + intros _. destruct cs as [|c cs']; [|by apply Hidx].
      inversion Hdr'; subst. exact Hi.
Qed.

(** Memory as it was, up to the used ring of [q]. *)
Definition same_outside q m0 m : Prop :=
  forall a n, disjoint_range (used_ring_addr q + 2) (2 + 8 * size q) a (Z.of_nat n) ->
    gm_read m a n = gm_read m0 a n.

(** The buffers of a chain avoid the used ring. *)
Definition clear_of_used q (ds : list Descriptor) : Prop :=
  Forall (fun x => disjoint_range (used_ring_addr q + 2) (2 + 8 * size q) (d_addr x) (d_len x)) ds.

(** A body that only reads memory, and what it does with a chain as it was in
    the memory [m0]. *)
Definition reads_only (step : D -> list Descriptor -> D * action) (good : list Descriptor -> Prop) q0 m0 : Prop :=
  forall d m ds, same_outside q0 m0 m -> Forall desc_ok ds -> good ds ->
    serve d m (Ok ds) = ((step d ds).1, m, (step d ds).2).

(** It returns each of the chains, one after the other. *)
Fixpoint all_pushed (step : D -> list Descriptor -> D * action) (d : D) (dss : list (list Descriptor)) : Prop :=
  match dss with
  | [] => True
  | ds :: rest => (exists w, (step d ds).2 = Push w) /\ all_pushed step (step d ds).1 rest
  end.

(** Such a body sees every chain as the driver published it, so its effect is a
    fold over the chains, and memory changes in the used ring only. *)
Lemma reader_complete step good q0 m0 cs : forall fuel q m d c,
  reads_only step good q0 m0 -> layout okd q m -> inv d -> published q m cs ->
  same_rings q0 q -> same_outside q0 m0 m ->
  Forall (fun x => good x.2) cs -> all_pushed step d cs.*2 -> (length cs < fuel)%nat ->
  exists es q' m' d', drained (q, m, d) cs es (q', m', d') /\
    queue_loop serve fuel (q, m, d, c) = ((q', m', d', c || negb (bool_decide (cs = []))), true) /\
    d' = foldl (fun d ds => (step d ds).1) d cs.*2 /\
    layout okd q' m' /\ inv d' /\ pop_avail q' m' = Ok (q', None) /\ same_outside q0 m0 m' /\
    (forall a n, is_ok (gm_read m' a n) = is_ok (gm_read m a n)).
Proof.
  induction cs as [|[h ds] cs IH]; intros [|fuel] q m d c Hro L Hd Hpub Hr Hs Hg Hpu Hf; cbn [length] in Hf; try lia.
  { assert (Hpop : pop_avail q m = Ok (q, None)) by (apply pop_avail_empty; [apply L..|apply Hpub]).
    exists [], q, m, d. split; [constructor|]. cbn [queue_loop loop_step]. rewrite Hpop.
    rewrite bool_decide_eq_true_2 by done. by rewrite orb_false_r. }
  inversion Hg as [|? ? Hg1 Hg']; subst. cbn [fst snd fmap list_fmap all_pushed] in *. destruct Hpu as [[w Hw] Hpu].
  pose proof Hpub as [_ Hcs]. inversion Hcs as [|? ? (Hh & Hch & _) _]; subst. cbn [fst snd] in *.
  pose proof (chain_desc_ok _ _ _ _ _ (ly_mem _ _ _ L) (proj1 Hh) Hch) as Hok.
  pose proof (Hro d m ds Hs Hok Hg1) as Hsv. rewrite Hw in Hsv. set (d1 := (step d ds).1) in *.
  destruct (drain_pushed q m d c h ds cs d1 m w L Hd Hpub Hsv) as (q2 & m2 & Hp & Hst & L2 & Hd1 & Hpub2).
  set (q1 := set_next_avail q (wadd 16 (next_avail_idx q) 1)) in *.
  assert (Hq1 : queue_wf q1) by (apply set_next_avail_wf; [apply L|apply wrap_in_u; lia]).
  destruct (push_used_any q1 m h w q2 m2 (Ok tt) (ly_mem _ _ _ L) Hq1 (ly_fit _ _ _ L) (ly_valid _ _ _ L) Hp)
    as (Hq2 & _ & Hfr & Hdom).
  destruct Hr as (R1 & R2 & R3 & R4 & R5 & R6).
  change (used_ring_addr q1) with (used_ring_addr q) in Hfr. change (size q1) with (size q) in Hfr. rewrite R2, R6 in Hfr.
  destruct (IH fuel q2 m2 d1 true Hro L2 Hd1 Hpub2) as (es & q' & m' & d' & Hdr & Hl & Hd' & L' & Hi' & Hpop & Hso & Hdom'); try done.
  { by destruct Hq2 as [-> | ->]. }
  { intros a n Ha. by rewrite Hfr, Hs. }
  { lia. }
  exists ((h, w) :: es), q', m', d'. split; [by econstructor|]. cbn [queue_loop]. rewrite Hst, Hl.
  split_and!; try done; [by rewrite orb_true_r|]. intros a n. by rewrite Hdom', Hdom.
Qed.

(** Both together: every published chain is answered, in order. *)
Lemma loop_answers good q m d cs :
  returns good -> layout okd q m -> inv d -> published q m cs -> Forall (fun x => good x.2) cs ->
  is_power_of_two (size q) = true -> zlen cs <= size q ->
  exists es q' m' d',
    queue_loop serve drain_fuel (q, m, d, false) = ((q', m', d', negb (bool_decide (cs = []))), true) /\
    drained (q, m, d) cs es (q', m', d') /\ es.*1 = cs.*1 /\
    next_used_idx q' = wrap 16 (next_used_idx q + zlen cs) /\
    (forall i e, es !! i = Some e -> used_elem q m' (used_slot q i) = Ok e) /\
    (cs <> [] -> used_idx q m' = Ok (next_used_idx q')) /\
    inv d' /\ pop_avail q' m' = Ok (q', None).
Proof.
  intros Hret L Hd Hpub Hg Hp2 Hlen. apply is_power_of_two_spec in Hp2 as (k & Hk & Hs).
  pose proof (ly_queue _ _ _ L) as (_ & [_ Hsz] & _).
  assert (Hk16 : k < 16) by (apply (Z.pow_lt_mono_r_iff 2); lia).
  destruct (queue_loop_complete good cs drain_fuel q m d false Hret L Hd Hpub Hg)
    as (es & q' & m' & d' & Hdr & Hl & L' & Hd' & Hpop).
  { unfold drain_fuel, zlen in *. lia. }
  rewrite <- (app_nil_r cs) in Hpub.
  destruct (drained_used k [] cs es q m d q' m' d' L Hd Hpub ltac:(lia) Hs Hlen Hdr) as (E1 & E2 & He & _ & Hi).
  by exists es, q', m', d'.
Qed.
End complete.

(** ** Bodies that move bytes *)

Section bodies.
Context {M : Type} `{!GuestMemory M, !GuestMemoryLaws M}.
Implicit Types (m : M) (ds : list Descriptor).

Lemma stays_refl ds m : gm_wf m -> stays_within ds m m.
Proof. by split. Qed.

Lemma stays_trans ds m m1 m2 : stays_within ds m m1 -> stays_within ds m1 m2 -> stays_within ds m m2.
Proof.
  intros (_ & F1 & D1) (W2 & F2 & D2). split; [done|]. split.
  - intros a n Hu. by rewrite F2, F1.
  - intros a n. by rewrite D2, D1.
Qed.

Lemma stays_cons d ds m m' : stays_within ds m m' -> stays_within (d :: ds) m m'.
Proof. intros (W & F & D). split; [done|]. split; [|done]. intros a n Hu. apply F. by inversion Hu. Qed.

(** A write inside a device-writable buffer of the chain. *)
Lemma stays_write ds d m m' bs :
  gm_wf m -> d ∈ ds -> is_write_only d = true -> desc_ok d -> zlen bs <= d_len d -> bytes_ok bs ->
  gm_write m (d_addr d) bs = Ok m' -> stays_within ds m m'.
Proof.
  intros Hwf Hin Hw Hok Hl Hb Hwr. split; [by eapply gm_write_wf|]. split.
  - intros a n Hu. eapply gm_write_untouched; [exact Hwr|done| |apply Hok].
    by apply (proj1 (Forall_forall _ _) Hu d Hin).
  - intros a n. by eapply gm_write_domain.
Qed.

Lemma scatter_within wire ds : forall m off written m' w,
  gm_wf m -> bytes_ok wire -> Forall desc_ok ds -> in_u 32 written ->
  scatter m wire off written ds = (m', w) -> stays_within ds m m' /\ in_u 32 w.
Proof.
  induction ds as [|d ds IH]; intros m off written m' w Hwf Hb Hds Hwn H; cbn [scatter] in H.
  { simplify_eq. by split; [apply stays_refl|]. }
  inversion Hds as [|? ? Hd Hds']; subst.
  destruct (is_write_only d) eqn:Hw; cbn [negb] in H;
    [|destruct (IH _ _ _ _ _ Hwf Hb Hds' Hwn H); by split; [apply stays_cons|]].
  set (len := Nat.min (Z.to_nat (d_len d)) (length wire - off)) in *.
  destruct (len =? 0)%nat; [destruct (IH _ _ _ _ _ Hwf Hb Hds' Hwn H); by split; [apply stays_cons|]|].
  destruct (gm_write m (d_addr d) (slice off len wire)) as [m1|] eqn:Hg;
    [|simplify_eq; by split; [apply stays_refl|]].
  assert (Hl : zlen (slice off len wire) <= d_len d).
  { unfold zlen, slice. rewrite length_take, length_drop. destruct Hd. lia. }
  assert (Hs1 : stays_within (d :: ds) m m1).
  { eapply (stays_write (d :: ds) d); [done|by left|done|done|exact Hl|by apply slice_Forall|done]. }
  assert (Hw1 : in_u 32 (saturating_add 32 written (wrap 32 (Z.of_nat len)))).
  { pose proof (wrap_in_u 32 (Z.of_nat len) ltac:(lia)). unfold saturating_add, in_u in *. lia. }
  destruct (length wire <=? off + len)%nat; [simplify_eq; by split|].
  destruct (IH _ _ _ _ _ (proj1 Hs1) Hb Hds' Hw1 H) as [Hs2 ?].
  split; [|done]. by eapply stays_trans, stays_cons.
Qed.

Lemma concat_readable_same q m0 m ds :
  same_outside q m0 m -> Forall desc_ok ds -> clear_of_used q ds -> concat_readable m ds = concat_readable m0 ds.
Proof.
  intros Hs. induction ds as [|d ds IH]; intros Hok Hc; [done|].
  inversion Hok as [|? ? [Hd _] Hok']; inversion Hc as [|? ? Hc1 Hc']; subst. cbn [concat_readable].
  rewrite IH by done. destruct (is_write_only d); [done|].
  rewrite Hs; [done|]. by rewrite Z2Nat.id.
Qed.

(** The device-readable and device-writable buffers of a chain. *)
Definition readable ds : list Descriptor := List.filter (fun d => negb (is_write_only d)) ds.

Definition writable ds : list Descriptor := List.filter is_write_only ds.

Definition total_len ds : Z := fold_right (fun d n => d_len d + n) 0 ds.

Definition buffers_disjoint ds : Prop :=
  ForallOrdPairs (fun d e => disjoint_range (d_addr d) (d_len d) (d_addr e) (d_len e)) ds.

(** The first [n] bytes the driver finds in the device-writable buffers. *)
Fixpoint received m (n : nat) ds : list Z :=
  match ds with
  | [] => []
  | d :: ds' =>
      if is_write_only d then
        let k := Nat.min (Z.to_nat (d_len d)) n in
        match gm_read m (d_addr d) k with Ok bs => bs | Err _ => [] end ++ received m (n - k) ds'
      else received m n ds'
  end.

Lemma received_0 m ds : received m 0 ds = [].
Proof.
  induction ds as [|d ds IH]; [done|]. cbn [received]. destruct (is_write_only d); [|done].
  rewrite Nat.min_0_r. cbn. rewrite IH, app_nil_r.
  destruct (gm_read m (d_addr d) 0) as [bs|] eqn:E; [|done].
  apply gm_read_length in E. by apply nil_length_inv.
Qed.

Lemma untouched_of_disjoint d ds :
  Forall (fun e => disjoint_range (d_addr d) (d_len d) (d_addr e) (d_len e)) (writable ds) ->
  0 <= d_len d -> untouched ds (d_addr d) (Z.to_nat (d_len d)).
Proof.
  intros H H0. unfold untouched, writable in *. induction ds as [|e ds IH]; [done|].
  cbn [List.filter] in H. destruct (is_write_only e) eqn:He.
  - inversion H as [|? ? Hd H']; subst. constructor; [|by apply IH].
    intros _. unfold disjoint_range in *. rewrite Z2Nat.id by done. lia.
  - constructor; [congruence | by apply IH].
Qed.

Lemma total_len_nonneg ds : Forall desc_ok ds -> 0 <= total_len ds.
Proof. induction 1 as [|d ds [? ?] _ IH]; cbn; [lia|]. fold (total_len ds). lia. Qed.

Lemma writable_ok ds : Forall desc_ok ds -> Forall desc_ok (writable ds).
Proof.
  intros H. apply List.Forall_forall. intros d [Hd _]%filter_In.
  by apply (proj1 (List.Forall_forall _ _) H).
Qed.

Definition mapped m ds : Prop :=
  Forall (fun d => is_ok (gm_read m (d_addr d) (Z.to_nat (d_len d))) = true) (writable ds).

Lemma mapped_write m d bs :
  is_ok (gm_read m (d_addr d) (Z.to_nat (d_len d))) = true -> (length bs <= Z.to_nat (d_len d))%nat ->
  exists m', gm_write m (d_addr d) bs = Ok m'.
Proof.
  intros Hok Hl. destruct (gm_read m (d_addr d) _) as [v|] eqn:E; [|done].
  pose proof (gm_read_sub m _ _ v 0 (length bs) E Hl) as Hs. rewrite Z.add_0_r in Hs.
  by eapply gm_write_total.
Qed.

(** Mapped, disjoint buffers with enough room receive the whole wire image. *)
Lemma scatter_all wire ds : forall m off written,
  gm_wf m -> bytes_ok wire -> Forall desc_ok ds -> mapped m ds -> buffers_disjoint (writable ds) ->
  (off <= length wire)%nat -> zlen wire - Z.of_nat off <= total_len (writable ds) ->
  0 <= written -> written + (zlen wire - Z.of_nat off) < 2 ^ 32 ->
  exists m', scatter m wire off written ds = (m', written + (zlen wire - Z.of_nat off)) /\
    received m' (length wire - off) ds = drop off wire.
Proof.
  unfold zlen, mapped, buffers_disjoint, writable.
  induction ds as [|d ds IH]; intros m off written Hwf Hb Hds Hmp Hdj Hoff Hcap Hw0 Hw1; cbn [scatter received List.filter] in *.
  { exists m. cbn in Hcap. rewrite drop_ge by lia. split; [f_equal; lia|done]. }
  inversion Hds as [|? ? Hd Hds']; subst.
  destruct (is_write_only d) eqn:Hw; cbn [negb]; [|by apply IH].
  cbn [total_len fold_right] in Hcap. inversion Hmp as [|? ? Hm1 Hmp']; subst. inversion Hdj as [|? ? Hdj1 Hdj']; subst.
  destruct Hd as [Hd0 Hd1]. fold (total_len (List.filter is_write_only ds)) in Hcap.
  pose proof (total_len_nonneg _ (writable_ok _ Hds')) as Htl. unfold writable in Htl.
  set (len := Nat.min (Z.to_nat (d_len d)) (length wire - off)) in *.
  assert (Hlen : length (slice off len wire) = len) by (apply slice_length; lia).
  destruct (Nat.eqb_spec len 0) as [Hz|Hz].
  { destruct (IH m off written) as (m' & Hs & Hr); [done..|lia|done|done|]. exists m'. split; [done|].
    rewrite Hz, Nat.sub_0_r, Hr. destruct (gm_read m' (d_addr d) 0) as [bs|] eqn:E; [|done].
    apply gm_read_length in E. by apply nil_length_inv in E as ->. }
  destruct (mapped_write m d (slice off len wire) Hm1 ltac:(lia)) as [m1 Hg]. rewrite Hg.
  assert (Hs1 : stays_within (d :: ds) m m1).
  { apply (stays_write _ d m m1 (slice off len wire)); [done|by left|done|done|unfold zlen; lia|by apply slice_Forall|done]. }
  pose proof (gm_read_write_same _ _ _ _ Hg) as Hsame. rewrite Hlen in Hsame.
  rewrite (wrap_small 32) by (split; lia).
  replace (saturating_add 32 written (Z.of_nat len)) with (written + Z.of_nat len) by (unfold saturating_add; lia).
  destruct (Nat.leb_spec (length wire) (off + len)).
  { exists m1. split; [f_equal; lia|]. rewrite Hsame. replace (length wire - off - len)%nat with O by lia.
    rewrite received_0, app_nil_r. unfold slice. apply take_ge. rewrite length_drop. lia. }
  destruct (IH m1 (off + len)%nat (written + Z.of_nat len)) as (m' & Hs & Hr); [apply Hs1|done|done| |done|lia..|].
  { eapply Forall_impl; [exact Hmp'|]. intros e He. rewrite <- He. apply Hs1. }
  exists m'. split; [rewrite Hs; f_equal; lia|].
  destruct (scatter_within wire ds m1 (off + len) (written + Z.of_nat len) m' _ (proj1 Hs1) Hb Hds' ltac:(split; lia) Hs) as [(_ & Hfr & _) _].
  replace len with (Z.to_nat (d_len d)) in * by lia.
  rewrite Hfr, Hsame by (by apply untouched_of_disjoint).
  rewrite <- Nat.sub_add_distr, Hr. unfold slice. rewrite <- drop_drop. apply take_drop.
Qed.
End bodies.

(** ** Delivering packets *)

Section deliveries.
Context {M P : Type} `{!GuestMemory M, !GuestMemoryLaws M}.
Context (wire_of : P -> list Z).
Implicit Types (m : M) (q : Queue) (ds : list Descriptor).

(** The delivery loop as a queue loop whose state is the packets to deliver. *)
Definition deliver_serve (ps : list P) m (r : result QueueError (list Descriptor)) : list P * M * action :=
  match r, ps with
  | Err _, _ => (ps, m, Stop)
  | Ok ds, p :: ps' => let '(m1, w) := scatter m (wire_of p) 0 0 ds in (ps', m1, Push w)
  | Ok ds, [] => ([], m, Push 0)
  end.

Definition wires_ok (ps : list P) : Prop := Forall (fun p => bytes_ok (wire_of p)) ps.

Lemma deliver_serve_laws : serve_laws deliver_serve any_desc wires_ok.
Proof.
  constructor.
  - intros [|p ps] m ds d' m' act Hwf Hps Hds _ H; cbn in H.
    { simplify_eq. split_and!; [done|by apply stays_refl|by intros w [= <-]]. }
    inversion Hps; subst. destruct (scatter m (wire_of p) 0 0 ds) as [m1 w] eqn:Hs. simplify_eq.
    destruct (scatter_within _ _ _ _ _ _ _ Hwf H2 Hds ltac:(done) Hs) as [? ?].
    split_and!; [done..|by intros ? [= <-]].
  - intros d m e d' m' act Hd H. by destruct d; cbn in H; simplify_eq.
Qed.

(** A chain with room for [p]: mapped, disjoint buffers. *)
Definition fits m (p : P) ds : Prop :=
  mapped m ds /\ buffers_disjoint (writable ds) /\ zlen (wire_of p) <= total_len (writable ds) /\
  zlen (wire_of p) < 2 ^ 32.

Definition avoids ds ds' : Prop :=
  Forall (fun d => is_write_only d = true -> untouched ds' (d_addr d) (Z.to_nat (d_len d))) ds.

Lemma mapped_domain m m' ds :
  (forall a n, is_ok (gm_read m' a n) = is_ok (gm_read m a n)) -> mapped m ds -> mapped m' ds.
Proof. intros Hd Hm. eapply Forall_impl; [exact Hm|]. cbn. intros d <-. apply Hd. Qed.

Lemma untouched_shorter ds a n k : (k <= n)%nat -> untouched ds a n -> untouched ds a k.
Proof.
  intros Hk Hu. eapply Forall_impl; [exact Hu|]. cbn. intros d Hd Hw. specialize (Hd Hw).
  unfold disjoint_range in *. lia.
Qed.

Lemma received_frame m m' ds : forall n,
  (forall d k, d ∈ ds -> is_write_only d = true -> (k <= Z.to_nat (d_len d))%nat ->
     gm_read m' (d_addr d) k = gm_read m (d_addr d) k) ->
  received m' n ds = received m n ds.
Proof.
  induction ds as [|d ds IH]; intros n H; [done|]. cbn [received].
  rewrite (IH n), (IH (n - Nat.min (Z.to_nat (d_len d)) n)%nat) by (intros; apply H; [by right|done..]).
  destruct (is_write_only d) eqn:Hw; [|done]. rewrite H; [done|by left|done|lia].
Qed.

(** The chains a list of packets goes to: each has room, and none overlaps a
    later one. *)
Inductive assigned m : list P -> list (Z * list Descriptor) -> Prop :=
| assigned_nil cs : assigned m [] cs
| assigned_cons p ps h ds cs :
    fits m p ds -> Forall (fun c => avoids ds c.2) cs -> assigned m ps cs ->
    assigned m (p :: ps) ((h, ds) :: cs).

Lemma assigned_domain m m' ps cs :
  (forall a n, is_ok (gm_read m' a n) = is_ok (gm_read m a n)) -> assigned m ps cs -> assigned m' ps cs.
Proof.
  intros Hd. induction 1 as [|p ps h ds cs (Hm & Hf) Ha _ IH]; [constructor|].
  constructor; [|done..]. split; [by eapply mapped_domain|done].
Qed.

(** One packet, one chain. *)
Lemma deliver_step_ok q m p ps h ds cs :
  layout any_desc q m -> wires_ok (p :: ps) -> published q m ((h, ds) :: cs) -> fits m p ds ->
  exists m1 q2 m2,
    deliver_serve (p :: ps) m (Ok ds) = (ps, m1, Push (zlen (wire_of p))) /\
    push_used h (zlen (wire_of p)) (set_next_avail q (wadd 16 (next_avail_idx q) 1), m1) = ((q2, m2), Ok tt) /\
    deliver_step q m (wire_of p) = (q2, m2, Delivered) /\
    received m1 (length (wire_of p)) ds = wire_of p /\
    layout any_desc q2 m2 /\ published q2 m2 cs /\ used_ring_addr q2 = used_ring_addr q /\ size q2 = size q /\
    stays_within ds m m1 /\
    (forall a n, disjoint_range (used_ring_addr q + 2) (2 + 8 * size q) a (Z.of_nat n) ->
       gm_read m2 a n = gm_read m1 a n) /\
    (forall a n, is_ok (gm_read m2 a n) = is_ok (gm_read m1 a n)).
Proof.
  intros L Hps Hpub (Hmp & Hdj & Hcap & H32). pose proof Hpub as [_ Hcs].
  inversion Hcs as [|? ? (Hh & Hch & Hl) Hcs']; subst. cbn [fst snd] in *.
  inversion Hps as [|? ? Hp Hps']; subst.
  destruct (published_pop _ q m h ds cs L Hpub) as (Hpop & Hcol & _).
  pose proof (chain_desc_ok _ _ _ _ _ (ly_mem _ _ _ L) (proj1 Hh) Hch) as Hok.
  destruct (scatter_all (wire_of p) ds m 0 0 (ly_mem _ _ _ L) Hp Hok Hmp Hdj) as (m1 & Hs & Hr); [lia..|].
  replace (0 + (zlen (wire_of p) - Z.of_nat 0)) with (zlen (wire_of p)) in Hs by lia.
  rewrite Nat.sub_0_r in Hr.
  assert (Hsv : deliver_serve (p :: ps) m (Ok ds) = (ps, m1, Push (zlen (wire_of p)))) by (cbn; by rewrite Hs).
  destruct (serve_kept _ _ _ deliver_serve_laws q m (p :: ps) h ds cs ps m1 _ L Hps Hpub Hsv)
    as (L1 & _ & Hpub1 & _ & Hw & _).
  set (q1 := set_next_avail q (wadd 16 (next_avail_idx q) 1)) in *.
  destruct (gm_read m1 (used_ring_addr q1) (Z.to_nat (4 + 8 * size q1))) as [v|] eqn:Hv;
    [|by pose proof (ly_mapped _ _ _ L1) as Hm; rewrite Hv in Hm].
  destruct (push_used_total q1 m1 h (zlen (wire_of p)) v (ly_queue _ _ _ L1) (ly_fit _ _ _ L1) (ly_valid _ _ _ L1) Hv) as (q2 & m2 & Hpu).
  destruct (push_kept _ q1 m1 h _ cs q2 m2 L1 Hpub1 Hh Hw Hpu) as (L2 & Hpub2 & Eq & _).
  destruct (push_used_any q1 m1 h _ q2 m2 (Ok tt) (ly_mem _ _ _ L1) (ly_queue _ _ _ L1) (ly_fit _ _ _ L1) (ly_valid _ _ _ L1) Hpu)
    as (_ & _ & Hfr & Hdom).
  exists m1, q2, m2. split_and!; try done; [|by subst q2..|].
  - unfold deliver_step. rewrite Hpop, Hcol, Hs. cbn [dc_head_index]. fold q1. by rewrite Hpu.
  - by eapply scatter_within, Hs; [apply L|..].
Qed.

(** Packets reach the chains in order, each complete, and its chain is returned
    with its length. *)
Lemma deliver_all_ok ps : forall q m c cs,
  layout any_desc q m -> wires_ok ps -> published q m cs -> assigned m ps cs ->
  exists es q' m',
    deliver_all wire_of q m c ps = (q', m', c || negb (bool_decide (length ps = O)), None) /\
    drained deliver_serve (q, m, ps) (take (length ps) cs) es (q', m', []) /\
    es = zip cs.*1 (map (fun p => zlen (wire_of p)) ps) /\
    (forall i p h ds, ps !! i = Some p -> cs !! i = Some (h, ds) ->
       received m' (length (wire_of p)) ds = wire_of p) /\
    layout any_desc q' m' /\ published q' m' (drop (length ps) cs) /\
    (forall a n, Forall (fun c => untouched c.2 a n) (take (length ps) cs) ->
       disjoint_range (used_ring_addr q + 2) (2 + 8 * size q) a (Z.of_nat n) ->
       gm_read m' a n = gm_read m a n).
Proof.
  induction ps as [|p ps IH]; intros q m c cs L Hps Hpub Has.
  { exists [], q, m. cbn. rewrite orb_false_r. destruct (cs.*1); split_and!; try done; constructor. }
  inversion Has as [|? ? h ds cs' Hf Hav Has']; subst.
  destruct (deliver_step_ok q m p ps h ds cs' L Hps Hpub Hf)
    as (m1 & q2 & m2 & Hsv & Hpu & Hst & Hr & L2 & Hpub2 & Eu & Es & Hin & Hfr & Hdom).
  assert (Hps' : wires_ok ps) by (by inversion Hps).
  assert (Has2 : assigned m2 ps cs').
  { eapply (assigned_domain m); [|done]. intros a n. rewrite Hdom. apply Hin. }
  destruct (IH q2 m2 true cs' L2 Hps' Hpub2 Has2) as (es & q' & m' & Hd & Hdr & He & Hc & L' & Hpub' & Hfr').
  rewrite Eu, Es in Hfr'.
  exists ((h, zlen (wire_of p)) :: es), q', m'. cbn [deliver_all length take drop]. rewrite Hst, Hd.
  split_and!; [by rewrite orb_true_r|by econstructor|by rewrite He| |done|done|].
  - intros [|i] p' h' ds' Hp' Hc'; cbn in Hp', Hc'; [|by eapply Hc]. simplify_eq.
    rewrite <- Hr at 2. apply received_frame. intros d k Hd' Hw Hk.
    assert (Hu : disjoint_range (used_ring_addr q + 2) (2 + 8 * size q) (d_addr d) (Z.of_nat k)).
    { pose proof Hpub as [_ Hcs]. inversion Hcs as [|? ? (Hh & Hch & _) _]; subst. cbn [fst snd] in *.
      pose proof (chain_from_Forall _ _ _ _ _ _ (ly_mem _ _ _ L) (ly_buffers _ _ _ L) (proj1 Hh) Hch) as Hb.
      pose proof (chain_desc_ok _ _ _ _ _ (ly_mem _ _ _ L) (proj1 Hh) Hch) as Hok.
      destruct (proj1 (Forall_forall _ _) Hok d Hd') as [Hd0 _].
      destruct (proj1 (Forall_forall _ _) Hb d Hd' Hw) as (_ & _ & Hd3). unfold disjoint_range in *. lia. }
    rewrite Hfr', Hfr; [done|done| |done].
    eapply Forall_take, Forall_impl; [exact Hav|]. cbn. intros x Hx. eapply untouched_shorter; [exact Hk|].
    by apply (proj1 (Forall_forall _ _) Hx d Hd').
  - intros a n Hun Hus. inversion Hun; subst. rewrite Hfr', Hfr by done. by apply Hin.
Qed.

Lemma assigned_length m ps cs : assigned m ps cs -> (length ps <= length cs)%nat.
Proof. induction 1; cbn; lia. Qed.

(** What the driver finds after a delivery: its buffers hold the packets and
    the used ring says how long they are. *)
Lemma deliver_all_exact q m ps cs :
  layout any_desc q m -> wires_ok ps -> published q m cs -> assigned m ps cs ->
  is_power_of_two (size q) = true -> zlen ps <= size q ->
  exists q' m',
    deliver_all wire_of q m false ps = (q', m', negb (bool_decide (length ps = O)), None) /\
    (forall j p h ds, ps !! j = Some p -> cs !! j = Some (h, ds) ->
       received m' (length (wire_of p)) ds = wire_of p /\
       used_elem q m' (used_slot q j) = Ok (h, zlen (wire_of p))) /\
    (ps <> [] -> used_idx q m' = Ok (wrap 16 (next_used_idx q + zlen ps))) /\
    layout any_desc q' m' /\ published q' m' (drop (length ps) cs).
Proof.
  intros L Hps Hpub Has Hp2 Hlen. apply is_power_of_two_spec in Hp2 as (k & Hk & Hs).
  pose proof (ly_queue _ _ _ L) as (_ & [_ Hsz] & _).
  assert (Hk16 : k < 16) by (apply (Z.pow_lt_mono_r_iff 2); lia).
  destruct (deliver_all_ok ps q m false cs L Hps Hpub Has) as (es & q' & m' & Hd & Hdr & He & Hr & L' & Hpub' & _).
  pose proof (assigned_length _ _ _ Has) as Hal.
  assert (Hpub0 : published q m (take (length ps) cs ++ drop (length ps) cs)) by (by rewrite take_drop).
  assert (Hlt : zlen (take (length ps) cs) = zlen ps) by (unfold zlen; rewrite length_take; lia).
  destruct (drained_used _ _ _ deliver_serve_laws k (drop (length ps) cs) (take (length ps) cs) es q m ps q' m' []
    L Hps Hpub0 ltac:(lia) Hs ltac:(lia) Hdr) as (_ & E2 & Hu & _ & Hi).
  exists q', m'. split_and!; try done.
  - intros j p h ds Hp Hc. split; [by eapply Hr|]. apply Hu. subst es.
    apply lookup_zip_with_Some. exists h, (zlen (wire_of p)).
    split_and!; [done|by rewrite list_lookup_fmap, Hc|by rewrite list_lookup_fmap, Hp].
  - intros Hne. rewrite <- Hlt, <- E2. apply Hi. intros E. apply (f_equal length) in E.
    rewrite length_take in E. change (length []) with O in E. apply Hne, nil_length_inv. lia.
Qed.
End deliveries.

(** ** The concrete queue, as a driver sets it up *)

Definition ex_chain : list Descriptor := [mkDesc 180 16 1 0; mkDesc 200 4 2 0].

Lemma ex_layout : layout any_desc ex_queue ex_mem.
Proof.
  constructor; [exact ex_mem_wf|exact ex_queue_wf|reflexivity|exact ex_rings_fit|by vm_compute| | | |reflexivity|done].
  1, 2: vm_compute; intuition discriminate.
  intros i d Hi Hr. assert (i = 0 \/ i = 1) as [-> | ->] by (cbn in Hi; lia);
    vm_compute in Hr; injection Hr as <-; vm_compute; intuition discriminate.
Qed.

Lemma ex_chain_from : chain_from 16 2 ex_mem 1 ex_chain.
Proof. apply chain_next; [done|by vm_compute|done|]. by apply chain_last. Qed.

Lemma ex_published : published ex_queue ex_mem [(1, ex_chain)].
Proof. split; [exact ex_pending|]. apply Forall_singleton. split_and!; [done|exact ex_chain_from|done]. Qed.
