(* ===== verification/Device.v ===== *)
(** * Device: what every virtio device frontend repeats

    The device structs under [src/crates/virtio/src/devices] all hold the
    offered and acknowledged features, their queues and an [ActiveState], and
    implement the same nine small methods of [VirtioDevice] on them.  [Frontend]
    is that part; [DeviceModel] is what differs (identifier, configuration
    space, queue processing).  Every model gives a [VirtioDevice] that keeps the
    promises the transport relies on.  [service_queue] is the shape of every
    [process_queue]: check activation, run the loop, interrupt once. *)

From stdpp Require Import base numbers list option.
From Stdlib Require Import ZArith Lia.
From S2P Require Import Prelude GuestMem Arch Virtqueue Drain Transport.

Local Open Scope Z_scope.
Local Open Scope squib_scope.

(** [VirtioDeviceType], with the identifiers of the [DeviceID] register. *)
Inductive VirtioDeviceType :=
  | DevNet | DevBlock | DevConsole | DevRng | DevBalloon | DevVsock | DevPmem | DevMem | DevBootTimer.

Definition const_id (t : VirtioDeviceType) : Z :=
  match t with
  | DevNet => 1
  | DevBlock => 2
  | DevConsole => 3
  | DevRng => 4
  | DevBalloon => 5
  | DevVsock => 19
  | DevPmem => 27
  | DevMem => 24
  | DevBootTimer => 0xFFFFFF00
  end.

(** [ActiveState]: whether memory and interrupt line have been handed over. *)
Record ActiveState := mkActive { as_mem : bool; as_irq : bool; as_activated : bool }.

Definition ActiveState_default : ActiveState := mkActive false false false.

(** The fields the device structs share, and the rest of the struct. *)
Record Frontend (C : Type) := mkFrontend {
  fe_avail : Z;
  fe_acked : Z;
  fe_queues : list Queue;
  fe_state : ActiveState;
  fe_own : C
}.
Arguments mkFrontend {C}.
Arguments fe_avail {C}.
Arguments fe_acked {C}.
Arguments fe_queues {C}.
Arguments fe_state {C}.
Arguments fe_own {C}.

Section frontend.
Context {C : Type}.

Definition fe_set_acked (d : Frontend C) (x : Z) : Frontend C :=
  mkFrontend (fe_avail d) x (fe_queues d) (fe_state d) (fe_own d).

Definition fe_set_queues (d : Frontend C) (qs : list Queue) : Frontend C :=
  mkFrontend (fe_avail d) (fe_acked d) qs (fe_state d) (fe_own d).

Definition fe_activate (d : Frontend C) : Frontend C * result ActivateError unit :=
  (mkFrontend (fe_avail d) (fe_acked d) (fe_queues d) (mkActive true true true) (fe_own d), Ok tt).

Definition fe_update (d : Frontend C) (qs : list Queue) (own : C) : Frontend C :=
  mkFrontend (fe_avail d) (fe_acked d) qs (fe_state d) own.
End frontend.

(** Reading a fixed configuration space; bytes past its end are zero. *)
Definition config_read (full : list Z) (offset : Z) (data : list Z) : list Z :=
  imap (fun i _ => byte_at full (Z.to_nat offset + i)) data.

(** What differs between devices.  [dm_process] is [None] where the code
    panics. *)
Class DeviceModel (M G C : Type) := {
  dm_type : VirtioDeviceType;
  dm_read_config : C -> Z -> list Z -> list Z;
  dm_process : Frontend C -> World M G -> Z -> option (Frontend C * World M G)
}.

(** Processing a queue leaves negotiation and activation alone. *)
Class DeviceModelLaws (M G C : Type) `{!DeviceModel M G C} := {
  dm_process_keeps : forall (d d' : Frontend C) (w w' : World M G) i,
    dm_process d w i = Some (d', w') ->
    fe_avail d' = fe_avail d /\ fe_acked d' = fe_acked d /\ fe_state d' = fe_state d /\
    length (fe_queues d') = length (fe_queues d)
}.

Section instance.
Context {M G C : Type} `{!DeviceModel M G C}.

(** The state a panicking call leaves behind is the one it found. *)
Definition fe_process (d : Frontend C) (w : World M G) (i : Z) : Frontend C * World M G :=
  default (d, w) (dm_process d w i).

#[export] Instance Frontend_VirtioDevice : VirtioDevice (World M G) (Frontend C) := {
  vd_device_id _ := const_id (dm_type (DeviceModel := DeviceModel0));
  vd_avail_features d := wrap 64 (fe_avail d);
  vd_acked_features := fe_acked;
  vd_set_acked_features := fe_set_acked;
  vd_queues := fe_queues;
  vd_set_queues := fe_set_queues;
  vd_read_config d := dm_read_config (fe_own d);
  vd_write_config d _ _ := d;
  vd_activate d _ := fe_activate d;
  vd_is_activated d := as_activated (fe_state d);
  vd_process_queue := fe_process
}.

#[export] Instance Frontend_VirtioDeviceLaws `{!DeviceModelLaws M G C} :
  VirtioDeviceLaws (World M G) (Frontend C).
Proof.
  assert (Hp : forall (d : Frontend C) (w : World M G) i, let d' := (fe_process d w i).1 in
    fe_avail d' = fe_avail d /\ fe_acked d' = fe_acked d /\ fe_state d' = fe_state d).
  { intros d w i. unfold fe_process. destruct (dm_process d w i) as [[d' w']|] eqn:E; [|done].
    apply dm_process_keeps in E. cbn. tauto. }
  split; intros; cbn; try done.
  - apply wrap_in_u; lia.
  - apply Hp.
  - f_equal. apply Hp.
  - cbn in *. unfold fe_activate in *. by simplify_eq/=.
  - f_equal. apply Hp.
Qed.
End instance.

(** ** Servicing one queue *)

Section service.
Context {M G D : Type} `{!GuestMemory M} `{!Gic G}.

(** The prologue, the loop on queue [i] and the interrupt that every device
    shares; [None] when the queue does not exist. *)
Definition service_queue (serve : D -> M -> result QueueError (list Descriptor) -> D * M * action)
  (st : ActiveState) (qs : list Queue) (i : nat) (d : D) (w : World M G)
  : option (list Queue * D * World M G) :=
  if as_mem st && as_irq st then
    match qs !! i with
    | None => None
    | Some q =>
        let '((q', m', d', completed), _) := queue_loop serve drain_fuel (q, w_mem w, d, false) in
        let irq' := if completed then (trigger_queue (w_irq w)).1 else w_irq w in
        Some (<[i := q']> qs, d', mkWorld m' irq')
    end
  else Some (qs, d, w).

Lemma service_queue_length serve st qs i d w qs' d' w' :
  service_queue serve st qs i d w = Some (qs', d', w') -> length qs' = length qs.
Proof.
  unfold service_queue. destruct (_ && _); [|by intros [= <- <- <-]].
  destruct (qs !! i) as [q|]; [|done]. destruct (queue_loop _ _ _) as [[[[q' m'] d1] c] f].
  intros [= <- <- <-]. apply length_insert.
Qed.

Lemma service_queue_total serve st qs i d w :
  (i < length qs)%nat -> is_Some (service_queue serve st qs i d w).
Proof.
  intros Hi. unfold service_queue. destruct (_ && _); [|done].
  destruct (lookup_lt_is_Some_2 qs i Hi) as [q ->].
  by destruct (queue_loop _ _ _) as [[[[q' m'] d1] c] f].
Qed.

Lemma service_queue_keeps `{!GuestMemoryLaws M} serve inv st qs i d (w : World M G) qs' d' w' :
  serve_keeps serve inv -> gm_wf (w_mem w) -> inv d ->
  service_queue serve st qs i d w = Some (qs', d', w') -> gm_wf (w_mem w') /\ inv d'.
Proof.
  intros Hk Hwf Hd. unfold service_queue. destruct (_ && _); [|by intros [= <- <- <-]].
  destruct (qs !! i) as [q|]; [|done].
  destruct (queue_loop serve drain_fuel _) as [[[[q' m'] d1] c] f] eqn:E. intros [= <- <- <-].
  by eapply queue_loop_keeps in E.
Qed.

(** What a notification of queue [i] achieves when the driver keeps the rules:
    all published chains are served in order and the guest is interrupted when
    there were any. *)
Lemma service_queue_answers `{!GuestMemoryLaws M} serve okd inv good qs i q d (w : World M G) cs :
  serve_laws serve okd inv -> returns serve inv good ->
  qs !! i = Some q -> layout okd q (w_mem w) -> inv d -> published q (w_mem w) cs ->
  Forall (fun x => good x.2) cs -> is_power_of_two (size q) = true -> zlen cs <= size q ->
  exists es q' m' d',
    service_queue serve (mkActive true true true) qs i d w
      = Some (<[i := q']> qs, d', mkWorld m' (if bool_decide (cs = []) then w_irq w else (trigger_queue (w_irq w)).1)) /\
    drained serve (q, w_mem w, d) cs es (q', m', d') /\ es.*1 = cs.*1 /\
    (forall j e, es !! j = Some e -> used_elem q m' (used_slot q j) = Ok e) /\
    (cs <> [] -> used_idx q m' = Ok (wrap 16 (next_used_idx q + zlen cs))) /\
    inv d' /\ pop_avail q' m' = Ok (q', None).
Proof.
  intros Hlaws Hret Hq L Hd Hpub Hg Hp2 Hlen.
  destruct (loop_answers serve okd inv Hlaws good q (w_mem w) d cs Hret L Hd Hpub Hg Hp2 Hlen)
    as (es & q' & m' & d' & Hl & Hdr & He & Hn & Hu & Hi & Hd' & Hpop).
  exists es, q', m', d'. unfold service_queue. cbn [as_mem as_irq andb]. rewrite Hq, Hl, <- Hn.
  split_and!; try done. by destruct (bool_decide (cs = [])).
Qed.

(** The same for a body that only reads memory: its effect is a fold over the
    chains as they were published, and memory changes in the used ring only. *)
Lemma service_queue_reads `{!GuestMemoryLaws M} serve okd good step qs i q d (w : World M G) cs :
  serve_laws serve okd (fun _ => True) -> reads_only serve step good q (w_mem w) ->
  qs !! i = Some q -> layout okd q (w_mem w) -> published q (w_mem w) cs ->
  Forall (fun x => good x.2) cs -> all_pushed step d cs.*2 -> is_power_of_two (size q) = true -> zlen cs <= size q ->
  exists q' m',
    service_queue serve (mkActive true true true) qs i d w
      = Some (<[i := q']> qs, foldl (fun d ds => (step d ds).1) d cs.*2,
              mkWorld m' (if bool_decide (cs = []) then w_irq w else (trigger_queue (w_irq w)).1)) /\
    (forall j h, cs.*1 !! j = Some h -> exists n, used_elem q m' (used_slot q j) = Ok (h, n)) /\
    (cs <> [] -> used_idx q m' = Ok (wrap 16 (next_used_idx q + zlen cs))) /\
    pop_avail q' m' = Ok (q', None) /\ gm_wf m' /\ same_outside q (w_mem w) m' /\
    (forall a n, is_ok (gm_read m' a n) = is_ok (gm_read (w_mem w) a n)).
Proof.
  intros Hlaws Hro Hq L Hpub Hg Hpu Hp2 Hlen. apply is_power_of_two_spec in Hp2 as (k & Hk & Hs).
  pose proof (ly_queue _ _ _ L) as (_ & [_ Hsz] & _).
  assert (Hk16 : k < 16) by (apply (Z.pow_lt_mono_r_iff 2); lia).
  destruct (reader_complete serve okd _ Hlaws step good q (w_mem w) cs drain_fuel q (w_mem w) d false Hro L I Hpub)
    as (es & q' & m' & d' & Hdr & Hl & Hd' & L' & _ & Hpop & Hso & Hdom); try done.
  { unfold drain_fuel, zlen in *. lia. }
  rewrite <- (app_nil_r cs) in Hpub.
  destruct (drained_used serve okd _ Hlaws k [] cs es q (w_mem w) d q' m' d' L I Hpub ltac:(lia) Hs Hlen Hdr)
    as (E1 & E2 & He & _ & Hi).
  exists q', m'. unfold service_queue. cbn [as_mem as_irq andb]. rewrite Hq, Hl, <- Hd', <- E2.
  split_and!; try done; [by destruct (bool_decide (cs = []))| |apply L'].
  intros j h Hj. rewrite <- E1, list_lookup_fmap in Hj.
  destruct (es !! j) as [[h' n]|] eqn:E; [|done]. cbn in Hj. simplify_eq. exists n. by apply He.
Qed.
End service.

(** ** Devices with a receive queue 0 and a transmit queue 1 *)

(** A driver that has set up both queues by the rules, with [txs] published for
    transmission and [rxs] for reception. *)
Record driver_ready {M G C} `{!GuestMemory M, !GuestMemoryLaws M} (d : Frontend C) (w : World M G)
  (qt qr : Queue) (txs rxs : list (Z * list Descriptor)) : Prop := {
  dr_state : fe_state d = mkActive true true true;
  dr_tx : fe_queues d !! 1%nat = Some qt;
  dr_rx : fe_queues d !! 0%nat = Some qr;
  dr_tx_layout : layout any_desc qt (w_mem w);
  dr_rx_layout : layout any_desc qr (w_mem w);
  dr_tx_published : published qt (w_mem w) txs;
  dr_rx_published : published qr (w_mem w) rxs;
  dr_tx_clear : Forall (fun c => clear_of_used qt c.2) txs;
  dr_apart_table : disjoint_range (used_ring_addr qt + 2) (2 + 8 * size qt) (desc_table_addr qr) (16 * size qr);
  dr_apart_avail : disjoint_range (used_ring_addr qt + 2) (2 + 8 * size qt) (avail_ring_addr qr) (4 + 2 * size qr);
  dr_tx_size : is_power_of_two (size qt) = true;
  dr_rx_size : is_power_of_two (size qr) = true;
  dr_tx_count : zlen txs <= size qt
}.

Section two_queues.
Context {M G : Type} `{!GuestMemory M, !GuestMemoryLaws M} `{!Gic G}.

(** The receive ring survives what transmitting does to memory. *)
Lemma rings_survive {C} (d : Frontend C) (w w' : World M G) qt qr txs rxs :
  driver_ready d w qt qr txs rxs -> gm_wf (w_mem w') -> same_outside qt (w_mem w) (w_mem w') ->
  (forall a n, is_ok (gm_read (w_mem w') a n) = is_ok (gm_read (w_mem w) a n)) ->
  layout any_desc qr (w_mem w') /\ published qr (w_mem w') rxs.
Proof.
  intros R Hwf Hso Hdom.
  assert (K : rings_kept qr (w_mem w) (w_mem w')).
  { constructor; [done| |done]. intros a n Hr. apply Hso.
    pose proof (dr_apart_table _ _ _ _ _ _ R). pose proof (dr_apart_avail _ _ _ _ _ _ R).
    unfold driver_range, disjoint_range in *. lia. }
  pose proof (dr_rx_layout _ _ _ _ _ _ R) as L. split.
  - apply (kept_layout _ qr (w_mem w) (w_mem w')); [done|done|done|apply L].
  - apply (published_kept any_desc qr (w_mem w) (w_mem w')); [done..|]. apply R.
Qed.

End two_queues.
