(* ===== verification/Block.v ===== *)
(** * Block: the virtio block device

    Models [src/crates/virtio/src/devices/block.rs]: the backend trait and its
    two file engines, the token-bucket rate limiter, request handling and the
    queue drain loop, and the [VirtioDevice] implementation.  Files are byte
    lists with POSIX semantics: a read past the end fails, a write past the end
    extends the file with zeros. *)

From stdpp Require Import base numbers list option gmap.
From Stdlib Require Import ZArith Lia.
From S2P Require Import Prelude GuestMem Bus Arch Virtqueue Drain Transport Device.

Local Open Scope Z_scope.
Local Open Scope squib_scope.

Definition SECTOR_SIZE : Z := 512.
Definition REQ_TYPE_IN : Z := 0.
Definition REQ_TYPE_OUT : Z := 1.
Definition REQ_TYPE_FLUSH : Z := 4.
Definition REQ_TYPE_GET_ID : Z := 8.
Definition STATUS_OK : Z := 0.
Definition STATUS_IOERR : Z := 1.
Definition STATUS_UNSUPP : Z := 2.
Definition F_RO : Z := Z.shiftl 1 5.
Definition F_BLK_SIZE : Z := Z.shiftl 1 6.
Definition F_FLUSH : Z := Z.shiftl 1 9.
Definition QUEUE_MAX_SIZE : Z := 256.

Inductive CacheType := Unsafe | Writeback.

(** The fields of [BlockConfig] the device reads; [drive_id] as its bytes. *)
Record BlockConfig := mkBlockConfig {
  bc_drive_id : list Z;
  bc_is_read_only : bool;
  bc_cache_type : CacheType
}.

(** ** Backends *)

Inductive IoError := PermissionDenied | UnexpectedEof | InvalidInput | IoOther.

(** The [BlockBackend] trait; a backend serialises its own state. *)
Class BlockBackend (B : Type) := {
  bb_size_bytes : B -> Z;
  bb_read_at : B -> Z -> nat -> B * result IoError (list Z);
  bb_write_at : B -> Z -> list Z -> B * result IoError unit;
  bb_flush : B -> B * result IoError unit;
  bb_read_only : B -> bool
}.

(** Overwriting a file at [off]; a hole is filled with zeros, and writing
    nothing does nothing. *)
Definition file_write (off : nat) (bs content : list Z) : list Z :=
  match bs with
  | [] => content
  | _ => take off (content ++ replicate (off - length content) 0) ++ bs ++
         drop (off + length bs) content
  end.

(** [std::fs::File]: contents and cursor.  Offsets are signed 64-bit. *)
Record File := mkFile { f_content : list Z; f_pos : Z }.

Definition file_seek (f : File) (off : Z) : result IoError File :=
  if off <? 2 ^ 63 then Ok (mkFile (f_content f) off) else Err InvalidInput.

Definition file_pread (content : list Z) (off : Z) (n : nat) : result IoError (list Z) :=
  if off <? 2 ^ 63 then
    if off + Z.of_nat n <=? zlen content then Ok (slice (Z.to_nat off) n content)
    else Err UnexpectedEof
  else Err InvalidInput.

Definition file_pwrite (content : list Z) (off : Z) (bs : list Z) : list Z * result IoError unit :=
  if off <? 2 ^ 63 then
    if off + zlen bs <? 2 ^ 63 then (file_write (Z.to_nat off) bs content, Ok tt)
    else (content, Err IoOther)
  else (content, Err InvalidInput).

(** [read_exact] and [write_all] at the cursor. *)
Definition file_read_exact (f : File) (n : nat) : File * result IoError (list Z) :=
  match file_pread (f_content f) (f_pos f) n with
  | Ok bs => (mkFile (f_content f) (f_pos f + Z.of_nat n), Ok bs)
  | Err e => (mkFile (f_content f) (zlen (f_content f)), Err e)
  end.

Definition file_write_all (f : File) (bs : list Z) : File * result IoError unit :=
  let '(c, r) := file_pwrite (f_content f) (f_pos f) bs in
  match r with
  | Ok _ => (mkFile c (f_pos f + zlen bs), Ok tt)
  | Err e => (mkFile c (f_pos f), Err e)
  end.

Record SyncFileBackend := mkSync { sy_file : File; sy_size : Z; sy_read_only : bool }.

Definition sync_open (content : list Z) (read_only : bool) : SyncFileBackend :=
  mkSync (mkFile content 0) (zlen content) read_only.

Definition sync_read_at (b : SyncFileBackend) (off : Z) (n : nat)
  : SyncFileBackend * result IoError (list Z) :=
  match file_seek (sy_file b) off with
  | Err e => (b, Err e)
  | Ok f =>
      let '(f', r) := file_read_exact f n in
      (mkSync f' (sy_size b) (sy_read_only b), r)
  end.

Definition sync_write_at (b : SyncFileBackend) (off : Z) (bs : list Z)
  : SyncFileBackend * result IoError unit :=
  if sy_read_only b then (b, Err PermissionDenied)
  else
    match file_seek (sy_file b) off with
    | Err e => (b, Err e)
    | Ok f =>
        let '(f', r) := file_write_all f bs in
        (mkSync f' (sy_size b) (sy_read_only b), r)
    end.

#[export] Instance SyncFileBackend_BlockBackend : BlockBackend SyncFileBackend := {
  bb_size_bytes := sy_size;
  bb_read_at := sync_read_at;
  bb_write_at := sync_write_at;
  bb_flush b := (b, Ok tt);
  bb_read_only := sy_read_only
}.

Record AsyncFileBackend := mkAsync { ay_content : list Z; ay_size : Z; ay_read_only : bool }.

Definition async_open (content : list Z) (read_only : bool) : AsyncFileBackend :=
  mkAsync content (zlen content) read_only.

Definition async_read_at (b : AsyncFileBackend) (off : Z) (n : nat)
  : AsyncFileBackend * result IoError (list Z) := (b, file_pread (ay_content b) off n).

Definition async_write_at (b : AsyncFileBackend) (off : Z) (bs : list Z)
  : AsyncFileBackend * result IoError unit :=
  if ay_read_only b then (b, Err PermissionDenied)
  else
    let '(c, r) := file_pwrite (ay_content b) off bs in
    (mkAsync c (ay_size b) (ay_read_only b), r).

#[export] Instance AsyncFileBackend_BlockBackend : BlockBackend AsyncFileBackend := {
  bb_size_bytes := ay_size;
  bb_read_at := async_read_at;
  bb_write_at := async_write_at;
  bb_flush b := (b, Ok tt);
  bb_read_only := ay_read_only
}.

(** What the device relies on: reads return the stored bytes and change nothing,
    writes change the written range only (and fill it when they succeed), and a
    read-only backend refuses every write. *)
Class BlockBackendLaws (B : Type) `{!BlockBackend B} := {
  bb_content : B -> list Z;
  bb_read_content : forall b off n b' r,
    bb_read_at b off n = (b', r) -> bb_content b' = bb_content b /\ bb_read_only b' = bb_read_only b;
  bb_read_ok : forall b off n b' bs, 0 <= off ->
    bb_read_at b off n = (b', Ok bs) ->
    off + Z.of_nat n <= zlen (bb_content b) /\ bs = slice (Z.to_nat off) n (bb_content b);
  bb_write_ok : forall b off bs b', 0 <= off ->
    bb_write_at b off bs = (b', Ok tt) ->
    bb_content b' = file_write (Z.to_nat off) bs (bb_content b);
  bb_write_frame : forall b off bs i, 0 <= off ->
    (Z.of_nat i < off \/ off + zlen bs <= Z.of_nat i) -> (i < length (bb_content b))%nat ->
    bb_content (bb_write_at b off bs).1 !! i = bb_content b !! i;
  bb_write_bytes : forall b off bs,
    bytes_ok bs -> bytes_ok (bb_content b) -> bytes_ok (bb_content (bb_write_at b off bs).1);
  bb_write_const : forall b off bs,
    bb_read_only (bb_write_at b off bs).1 = bb_read_only b;
  bb_write_refused : forall b off bs,
    bb_read_only b = true -> bb_write_at b off bs = (b, Err PermissionDenied);
  bb_flush_content : forall b,
    bb_content (bb_flush b).1 = bb_content b /\ bb_read_only (bb_flush b).1 = bb_read_only b
}.

(** ** The device *)

Record BlockDevice (B : Type) := mkBlock {
  bk_avail : Z;
  bk_acked : Z;
  bk_queues : list Queue;
  bk_config : BlockConfig;
  bk_backend : B;
  bk_state : ActiveState
}.
Arguments mkBlock {B}.
Arguments bk_avail {B}.
Arguments bk_acked {B}.
Arguments bk_queues {B}.
Arguments bk_config {B}.
Arguments bk_backend {B}.
Arguments bk_state {B}.

Section device.
Context {B M G : Type} `{!BlockBackend B} `{!GuestMemory M} `{!Gic G}.

Definition BlockDevice_new (config : BlockConfig) (backend : B) : BlockDevice B :=
  let avail := F_BLK_SIZE in
  let avail := if bc_is_read_only config || bb_read_only backend then Z.lor avail F_RO else avail in
  let avail := match bc_cache_type config with
               | Writeback => Z.lor avail F_FLUSH
               | Unsafe => avail
               end in
  mkBlock avail 0 [Queue_new QUEUE_MAX_SIZE] config backend (mkActive false false false).

Definition capacity_sectors (d : BlockDevice B) : Z := bb_size_bytes (bk_backend d) / SECTOR_SIZE.

(** The loop of [do_read]; a failure keeps what was already copied. *)
Fixpoint do_read_loop (b : B) (m : M) (payload : list Descriptor) (byte_off total : Z)
  : B * M * result IoError Z :=
  match payload with
  | [] => (b, m, Ok total)
  | desc :: rest =>
      if negb (is_write_only desc) then do_read_loop b m rest byte_off total
      else
        match bb_read_at b byte_off (Z.to_nat (d_len desc)) with
        | (b', Err e) => (b', m, Err e)
        | (b', Ok buf) =>
            match gm_write m (d_addr desc) buf with
            | Err _ => (b', m, Err IoOther)
            | Ok m' =>
                match checked_add 64 byte_off (d_len desc) with
                | None => (b', m', Err IoOther)
                | Some off' => do_read_loop b' m' rest off' (saturating_add 32 total (d_len desc))
                end
            end
        end
  end.

Definition do_read (b : B) (m : M) (payload : list Descriptor) (sector : Z)
  : B * M * result IoError Z :=
  match checked_mul 64 sector SECTOR_SIZE with
  | None => (b, m, Err IoOther)
  | Some byte_off => do_read_loop b m payload byte_off 0
  end.

Fixpoint do_write_loop (b : B) (m : M) (payload : list Descriptor) (byte_off : Z)
  : B * result IoError unit :=
  match payload with
  | [] => (b, Ok tt)
  | desc :: rest =>
      if is_write_only desc then do_write_loop b m rest byte_off
      else
        match gm_read m (d_addr desc) (Z.to_nat (d_len desc)) with
        | Err _ => (b, Err IoOther)
        | Ok buf =>
            match bb_write_at b byte_off buf with
            | (b', Err e) => (b', Err e)
            | (b', Ok _) =>
                match checked_add 64 byte_off (d_len desc) with
                | None => (b', Err IoOther)
                | Some off' => do_write_loop b' m rest off'
                end
            end
        end
  end.

Definition do_write (b : B) (m : M) (payload : list Descriptor) (sector : Z)
  : B * result IoError unit :=
  match checked_mul 64 sector SECTOR_SIZE with
  | None => (b, Err IoOther)
  | Some byte_off => do_write_loop b m payload byte_off
  end.

(** The 20-byte identifier, zero-padded. *)
Definition id_bytes (drive_id : list Z) : list Z :=
  splice 0 (take (Nat.min (length drive_id) 20) drive_id) (repeat 0 20).

Definition do_get_id (drive_id : list Z) (m : M) (payload : list Descriptor)
  : M * result IoError Z :=
  match payload with
  | [] => (m, Ok 0)
  | desc :: _ =>
      if negb (is_write_only desc) then (m, Ok 0)
      else
        let len := Nat.min (Z.to_nat (d_len desc)) 20 in
        match gm_write m (d_addr desc) (take len (id_bytes drive_id)) with
        | Err _ => (m, Err IoOther)
        | Ok m' => (m', Ok (Z.of_nat len))
        end
  end.

(** The [match req_type] of [handle_request_inner]: backend, memory, status and
    bytes written. *)
Definition run_request (b : B) (drive_id : list Z) (m : M) (payload : list Descriptor)
  (req_type sector : Z) : B * M * (Z * Z) :=
  if req_type =? REQ_TYPE_IN then
    match do_read b m payload sector with
    | (b', m', Ok written) => (b', m', (STATUS_OK, written))
    | (b', m', Err _) => (b', m', (STATUS_IOERR, 0))
    end
  else if req_type =? REQ_TYPE_OUT then
    match do_write b m payload sector with
    | (b', Ok _) => (b', m, (STATUS_OK, 0))
    | (b', Err _) => (b', m, (STATUS_IOERR, 0))
    end
  else if req_type =? REQ_TYPE_FLUSH then
    match bb_flush b with
    | (b', Ok _) => (b', m, (STATUS_OK, 0))
    | (b', Err _) => (b', m, (STATUS_IOERR, 0))
    end
  else if req_type =? REQ_TYPE_GET_ID then
    match do_get_id drive_id m payload with
    | (m', Ok written) => (b, m', (STATUS_OK, written))
    | (m', Err _) => (b, m', (STATUS_IOERR, 0))
    end
  else (b, m, (STATUS_UNSUPP, 0)).

Definition handle_request_inner (b : B) (drive_id : list Z) (m : M) (descs : list Descriptor)
  : B * M * (Z * Z) :=
  match descs, last descs with
  | header :: _ :: _, Some status_desc =>
      if is_write_only header || (d_len header <? 16) then (b, m, (STATUS_IOERR, 0))
      else
        match read_u32_le m (d_addr header), read_u64_le m (wadd 64 (d_addr header) 8) with
        | Ok req_type, Ok sector =>
            let payload := slice 1 (length descs - 2) descs in
            if negb (is_write_only status_desc) || (d_len status_desc <? 1)
            then (b, m, (STATUS_IOERR, 0))
            else
              let '(b', m', (status, written)) := run_request b drive_id m payload req_type sector in
              match gm_write m' (d_addr status_desc) [status] with
              | Err _ => (b', m', (STATUS_IOERR, written))
              | Ok m'' => (b', m'', (status, saturating_add 32 written 1))
              end
        | _, _ => (b, m, (STATUS_IOERR, 0))
        end
  | _, _ => (b, m, (STATUS_IOERR, 0))
  end.

(** The body of the loop in [drain_requests]: the chain goes back with the
    bytes written, whatever the status. *)
Definition serve_request (drive_id : list Z) : B -> M -> result QueueError (list Descriptor) -> B * M * action :=
  on_chain (fun b m descs =>
    let '(b', m', (_, written)) := handle_request_inner b drive_id m descs in (b', m', Push written)).

Definition drain_requests (d : BlockDevice B) (w : World M G) : BlockDevice B * World M G :=
  if as_mem (bk_state d) && as_irq (bk_state d) then
    match bk_queues d with
    | [] => (d, w)
    | q :: qs =>
        let '((q', m', b', completed), _) :=
          queue_loop (serve_request (bc_drive_id (bk_config d))) drain_fuel (q, w_mem w, bk_backend d, false) in
        let d' := mkBlock (bk_avail d) (bk_acked d) (q' :: qs) (bk_config d) b' (bk_state d) in
        let irq' := if completed then (trigger_queue (w_irq w)).1 else w_irq w in
        (d', mkWorld m' irq')
    end
  else (d, w).

(** The 64-byte configuration space. *)
Definition config_space (d : BlockDevice B) : list Z :=
  splice 20 (le_bytes 4 SECTOR_SIZE)
    (splice 12 (le_bytes 4 (QUEUE_MAX_SIZE - 2))
       (splice 0 (le_bytes 8 (capacity_sectors d)) (repeat 0 64))).

Definition block_read_config (d : BlockDevice B) (offset : Z) (data : list Z) : list Z :=
  imap (fun i _ => byte_at (config_space d) (Z.to_nat offset + i)) data.

Definition block_set_acked (d : BlockDevice B) (x : Z) : BlockDevice B :=
  mkBlock (bk_avail d) x (bk_queues d) (bk_config d) (bk_backend d) (bk_state d).

Definition block_set_queues (d : BlockDevice B) (qs : list Queue) : BlockDevice B :=
  mkBlock (bk_avail d) (bk_acked d) qs (bk_config d) (bk_backend d) (bk_state d).

Definition block_activate (d : BlockDevice B) : BlockDevice B * result ActivateError unit :=
  (mkBlock (bk_avail d) (bk_acked d) (bk_queues d) (bk_config d) (bk_backend d)
     (mkActive true true true), Ok tt).

Definition block_process_queue (d : BlockDevice B) (w : World M G) (queue_index : Z)
  : BlockDevice B * World M G :=
  if queue_index =? 0 then drain_requests d w else (d, w).

#[export] Instance BlockDevice_VirtioDevice : VirtioDevice (World M G) (BlockDevice B) := {
  vd_device_id _ := 2;
  vd_avail_features d := wrap 64 (bk_avail d);
  vd_acked_features := bk_acked;
  vd_set_acked_features := block_set_acked;
  vd_queues := bk_queues;
  vd_set_queues := block_set_queues;
  vd_read_config := block_read_config;
  vd_write_config d _ _ := d;
  vd_activate d _ := block_activate d;
  vd_is_activated d := as_activated (bk_state d);
  vd_process_queue := block_process_queue
}.

(** The block device keeps the promises the transport relies on. *)
#[export] Instance BlockDevice_VirtioDeviceLaws :
  VirtioDeviceLaws (World M G) (BlockDevice B).
Proof.
  assert (Hp : forall d (w : World M G) i, let d' := (block_process_queue d w i).1 in
    bk_acked d' = bk_acked d /\ bk_avail d' = bk_avail d /\ bk_state d' = bk_state d).
  { intros d w i. unfold block_process_queue, drain_requests.
    destruct (i =? 0); [|done]. destruct (_ && _); [|done].
    destruct (bk_queues d) as [|q qs]; [done|].
    by destruct (queue_loop _ _ _) as [[[[q' m'] b'] c] f]. }
  split; intros; cbn; try done.
  - apply wrap_in_u; lia.
  - apply Hp.
  - f_equal. apply Hp.
  - cbn in *. unfold block_activate in *. by simplify_eq/=.
  - f_equal. apply Hp.
Qed.
End device.

(** ** Backends: laws and equivalence *)

Lemma file_write_nonempty off bs c :
  bs <> [] ->
  file_write off bs c =
  take off (c ++ replicate (off - length c) 0) ++ bs ++ drop (off + length bs) c.
Proof. by destruct bs. Qed.

Lemma file_write_prefix_length off (c : list Z) :
  length (take off (c ++ replicate (off - length c) 0)) = off.
Proof. rewrite length_take, length_app, length_replicate. lia. Qed.

Lemma file_write_length off bs c :
  bs <> [] -> length (file_write off bs c) = Nat.max (length c) (off + length bs).
Proof.
  intros Hb. rewrite file_write_nonempty by done.
  rewrite !length_app, file_write_prefix_length, length_drop. lia.
Qed.

Lemma file_write_lookup_out off bs c i :
  (i < off \/ off + length bs <= i)%nat -> (i < length c)%nat ->
  file_write off bs c !! i = c !! i.
Proof.
  intros Hi Hl. destruct (decide (bs = [])) as [->|Hb]; [done|].
  rewrite file_write_nonempty by done. pose proof (file_write_prefix_length off c) as Ht.
  destruct Hi as [Hi|Hi].
  - rewrite lookup_app_l by lia. rewrite lookup_take_lt by done. by apply lookup_app_l.
  - rewrite lookup_app_r, lookup_app_r by lia. rewrite lookup_drop, Ht. f_equal. lia.
Qed.

Lemma file_write_slice off bs c : slice off (length bs) (file_write off bs c) = bs.
Proof.
  destruct (decide (bs = [])) as [->|Hb]; [done|].
  rewrite file_write_nonempty by done. unfold slice.
  rewrite drop_app_ge by (rewrite file_write_prefix_length; lia).
  rewrite file_write_prefix_length, Nat.sub_diag, drop_0. by rewrite take_app_length.
Qed.

(** Two adjacent writes are one write of the concatenation. *)
Lemma file_write_write off a b c :
  file_write (off + length a) b (file_write off a c) = file_write off (a ++ b) c.
Proof.
  destruct (decide (a = [])) as [->|Ha]; [by rewrite Nat.add_0_r|].
  destruct (decide (b = [])) as [->|Hb]; [by rewrite app_nil_r|].
  rewrite (file_write_nonempty (off + length a) b), !(file_write_nonempty off) by
    (done || by destruct a).
  set (p := take off (c ++ replicate (off - length c) 0)).
  assert (Hp : length p = off) by apply file_write_prefix_length.
  assert (Hz : (off + length a - length (p ++ a ++ drop (off + length a) c) = 0)%nat)
    by (rewrite !length_app, Hp; lia).
  rewrite Hz. cbn [replicate]. rewrite app_nil_r.
  rewrite (app_assoc p a), take_app_le by (rewrite length_app; lia).
  rewrite take_ge by (rewrite length_app; lia).
  rewrite drop_app_ge by (rewrite length_app; lia).
  rewrite drop_drop, length_app, <- !app_assoc. do 3 f_equal.
  rewrite length_app. f_equal. lia.
Qed.

Lemma file_pwrite_frame c off bs i :
  0 <= off -> (Z.of_nat i < off \/ off + zlen bs <= Z.of_nat i) -> (i < length c)%nat ->
  (file_pwrite c off bs).1 !! i = c !! i.
Proof.
  intros Ho Hi Hl. unfold file_pwrite, zlen in *. destruct (_ <? _); [|done].
  destruct (_ <? _); [|done]. cbn. apply file_write_lookup_out; lia.
Qed.

Lemma file_write_bytes off bs c : bytes_ok bs -> bytes_ok c -> bytes_ok (file_write off bs c).
Proof.
  intros Hb Hc. destruct (decide (bs = [])) as [->|]; [done|].
  rewrite file_write_nonempty by done. apply Forall_app. split.
  - apply Forall_take, Forall_app. split; [done|]. apply Forall_replicate. unfold byte_ok; lia.
  - apply Forall_app. split; [done | by apply Forall_drop].
Qed.

Lemma file_pwrite_bytes c off bs : bytes_ok bs -> bytes_ok c -> bytes_ok (file_pwrite c off bs).1.
Proof.
  intros. unfold file_pwrite. destruct (_ <? _); [|done]. destruct (_ <? _); [|done].
  by apply file_write_bytes.
Qed.

#[export] Instance AsyncFileBackend_Laws : BlockBackendLaws AsyncFileBackend.
Proof.
  refine {| bb_content := ay_content |}; cbn; unfold async_read_at, async_write_at.
  - intros. by simplify_eq.
  - intros b off n b' bs Ho [= <- H]. unfold file_pread in H.
    destruct (_ <? _); [|done]. destruct (Z.leb_spec (off + Z.of_nat n) (zlen (ay_content b)));
      by simplify_eq.
  - intros b off bs b' Ho H. destruct (ay_read_only b); [done|]. unfold file_pwrite in H.
    destruct (_ <? _); [|done]. destruct (_ <? _); by simplify_eq/=.
  - intros b off bs i Ho Hi Hl. destruct (ay_read_only b); [done|].
    rewrite <- (file_pwrite_frame (ay_content b) off bs i) by done.
    by destruct (file_pwrite (ay_content b) off bs).
  - intros b off bs Hbs Hc. destruct (ay_read_only b); [done|].
    pose proof (file_pwrite_bytes (ay_content b) off bs Hbs Hc).
    by destruct (file_pwrite (ay_content b) off bs).
  - intros b off bs. destruct (ay_read_only b) eqn:Hr; [done|].
    by destruct (file_pwrite (ay_content b) off bs).
  - intros b off bs ->. done.
  - done.
Defined.

(** ** The two engines *)

Inductive bb_op := OpRead (off : Z) (n : nat) | OpWrite (off : Z) (bs : list Z) | OpFlush.

Inductive bb_reply := ReplyRead (r : result IoError (list Z)) | ReplyUnit (r : result IoError unit).

Definition bb_run_op {B} `{!BlockBackend B} (b : B) (op : bb_op) : B * bb_reply :=
  match op with
  | OpRead off n => let '(b', r) := bb_read_at b off n in (b', ReplyRead r)
  | OpWrite off bs => let '(b', r) := bb_write_at b off bs in (b', ReplyUnit r)
  | OpFlush => let '(b', r) := bb_flush b in (b', ReplyUnit r)
  end.

Fixpoint bb_run {B} `{!BlockBackend B} (b : B) (ops : list bb_op) : B * list bb_reply :=
  match ops with
  | [] => (b, [])
  | op :: ops' =>
      let '(b1, r) := bb_run_op b op in
      let '(b2, rs) := bb_run b1 ops' in (b2, r :: rs)
  end.

(** Same file, same size, same mode; the cursor is the only difference. *)
Definition engines_agree (s : SyncFileBackend) (a : AsyncFileBackend) : Prop :=
  f_content (sy_file s) = ay_content a /\ sy_size s = ay_size a /\ sy_read_only s = ay_read_only a.

Lemma engines_agree_op s a op :
  engines_agree s a ->
  engines_agree (bb_run_op s op).1 (bb_run_op a op).1 /\ (bb_run_op s op).2 = (bb_run_op a op).2.
Proof.
  destruct s as [[c p] sz ro], a as [c' sz' ro']. intros (Hc & Hs & Hr); cbn in *; subst.
  destruct op as [off n|off bs|]; cbn; [| |done].
  - unfold sync_read_at, file_seek, file_read_exact, file_pread; cbn.
    destruct (off <? 2 ^ 63) eqn:Ho; cbn; rewrite ?Ho; [|done].
    by destruct (_ <=? _).
  - unfold sync_write_at, async_write_at, file_seek, file_write_all, file_pwrite; cbn.
    destruct ro'; [done|]. destruct (off <? 2 ^ 63) eqn:Ho; cbn; rewrite ?Ho; [|done].
    destruct (off + zlen bs <? 2 ^ 63); cbn; (split; [by split|done]).
Qed.

(** The mutex-and-seek engine and the positioned-I/O engine are
    interchangeable: opened on the same file they answer every sequence of
    requests alike and leave the same file contents. *)
Theorem engines_equivalent content read_only ops :
  (bb_run (sync_open content read_only) ops).2 = (bb_run (async_open content read_only) ops).2 /\
  f_content (sy_file (bb_run (sync_open content read_only) ops).1)
  = ay_content (bb_run (async_open content read_only) ops).1.
Proof.
  assert (H : engines_agree (sync_open content read_only) (async_open content read_only)) by done.
  revert H. generalize (sync_open content read_only) (async_open content read_only).
  induction ops as [|op ops IH]; intros s a H; cbn.
  { split; [done | apply H]. }
  destruct (engines_agree_op s a op H) as [H1 H2].
  destruct (bb_run_op s op) as [s1 r1], (bb_run_op a op) as [a1 r2]. cbn in H1, H2. subst.
  destruct (IH s1 a1 H1) as [IH1 IH2].
  destruct (bb_run s1 ops) as [s2 rs], (bb_run a1 ops) as [a2 rs']. cbn in *. by subst.
Qed.

(** ** Requests *)

Section requests.
Context {B M : Type} `{!BlockBackend B} `{!BlockBackendLaws B} `{!GuestMemory M}.
Context `{!GuestMemoryLaws M}.
Implicit Types (b : B) (m : M) (d : Descriptor) (ds : list Descriptor).

Lemma bb_read_len b off n b' bs :
  0 <= off -> bb_read_at b off n = (b', Ok bs) -> length bs = n.
Proof.
  intros Ho H. apply bb_read_ok in H as [Hr ->]; [|done]. apply slice_length.
  unfold zlen in Hr. lia.
Qed.

Lemma do_read_loop_frame ds b m off tot b' m' r a n :
  Forall desc_ok ds -> 0 <= off -> untouched ds a n ->
  do_read_loop b m ds off tot = (b', m', r) ->
  gm_read m' a n = gm_read m a n.
Proof.
  revert b m off tot. induction ds as [|d ds IH]; intros b m off tot Hok Ho Hu H; cbn in H.
  { by simplify_eq. }
  inversion Hok as [|? ? Hd Hok']; subst. inversion Hu as [|? ? Hd1 Hu']; subst.
  destruct (is_write_only d) eqn:Hw; cbn [negb] in H; [|by eapply IH].
  destruct (bb_read_at b off (Z.to_nat (d_len d))) as [b1 [buf|e]] eqn:Hr.
  2:{ by simplify_eq. }
  pose proof (bb_read_len _ _ _ _ _ Ho Hr) as Hlen.
  destruct (gm_write m (d_addr d) buf) as [m1|e] eqn:Hm; [|by simplify_eq].
  assert (Hf : gm_read m1 a n = gm_read m a n).
  { destruct Hd. eapply gm_write_untouched; [done| |by apply Hd1|done]. unfold zlen. lia. }
  unfold checked_add in H. destruct (_ <? _); [|by simplify_eq].
  rewrite <- Hf. eapply (IH b1 m1 (off + d_len d)); [done| |done|exact H]. destruct Hd; lia.
Qed.

Lemma do_read_loop_backend ds b m off tot b' m' r :
  do_read_loop b m ds off tot = (b', m', r) ->
  bb_content b' = bb_content b /\ bb_read_only b' = bb_read_only b.
Proof.
  revert b m off tot. induction ds as [|d ds IH]; intros b m off tot H; cbn in H.
  { by simplify_eq. }
  destruct (negb _); [by eapply IH|].
  destruct (bb_read_at b off _) as [b1 [buf|e]] eqn:Hr; destruct (bb_read_content _ _ _ _ _ Hr) as [Hc Hro];
    [|by simplify_eq].
  destruct (gm_write _ _ _); [|by simplify_eq]. unfold checked_add in H.
  destruct (_ <? _); [|by simplify_eq]. apply IH in H as [-> ->]. done.
Qed.

Lemma id_bytes_length drive_id : length (id_bytes drive_id) = 20%nat.
Proof.
  unfold id_bytes. rewrite splice_length; [by rewrite repeat_length|].
  rewrite length_take, repeat_length. lia.
Qed.

Lemma do_get_id_frame drive_id m ds m' r a n :
  Forall desc_ok ds -> untouched ds a n -> do_get_id drive_id m ds = (m', r) ->
  gm_read m' a n = gm_read m a n.
Proof.
  intros Hok Hu H. unfold do_get_id in H. destruct ds as [|d ds]; [by simplify_eq|].
  inversion Hok as [|? ? Hd Hok']; subst. inversion Hu as [|? ? Hd1 Hu']; subst.
  destruct (is_write_only d) eqn:Hw; cbn [negb] in H; [|by simplify_eq].
  destruct (gm_write m (d_addr d) _) as [m1|e] eqn:Hm; simplify_eq; [|done].
  destruct Hd. eapply gm_write_untouched; [done| |by apply Hd1|done].
  unfold zlen. rewrite length_take, id_bytes_length. lia.
Qed.

Lemma run_request_frame b drive_id m ds ty sector b' m' r a n :
  Forall desc_ok ds -> 0 <= sector -> untouched ds a n ->
  run_request b drive_id m ds ty sector = (b', m', r) ->
  gm_read m' a n = gm_read m a n.
Proof.
  intros Hok Hs Hu H. unfold run_request in H.
  destruct (ty =? REQ_TYPE_IN).
  { unfold do_read, checked_mul in H. destruct (_ <? _); [|by simplify_eq].
    destruct (do_read_loop b m ds _ 0) as [[b1 m1] r1] eqn:Hd.
    assert (gm_read m1 a n = gm_read m a n)
      by (eapply do_read_loop_frame; [done| |done|done]; unfold SECTOR_SIZE; lia).
    by destruct r1; simplify_eq. }
  destruct (ty =? REQ_TYPE_OUT). { repeat case_match; by simplify_eq. }
  destruct (ty =? REQ_TYPE_FLUSH). { repeat case_match; by simplify_eq. }
  destruct (ty =? REQ_TYPE_GET_ID); [|by simplify_eq].
  destruct (do_get_id drive_id m ds) as [m1 r1] eqn:Hd.
  apply (do_get_id_frame _ _ _ _ _ a n Hok Hu) in Hd. by destruct r1; simplify_eq.
Qed.

Lemma slice_untouched ds k j a n : untouched ds a n -> untouched (slice k j ds) a n.
Proof. apply slice_Forall. Qed.

Lemma handle_request_frame b drive_id m ds b' m' r a n :
  gm_wf m -> Forall desc_ok ds -> untouched ds a n ->
  handle_request_inner b drive_id m ds = (b', m', r) ->
  gm_read m' a n = gm_read m a n.
Proof.
  intros Hwf Hok Hu H. unfold handle_request_inner in H.
  destruct ds as [|h [|d1 ds]]; [by simplify_eq..|]. set (all := h :: d1 :: ds) in *.
  destruct (last all) as [sd|] eqn:Hl; [|by simplify_eq].
  destruct (_ || _); [by simplify_eq|].
  destruct (read_u32_le m (d_addr h)) as [ty|]; [|by simplify_eq].
  destruct (read_u64_le m (wadd 64 (d_addr h) 8)) as [sector|] eqn:Hsec; [|by simplify_eq].
  destruct (is_write_only sd) eqn:Hsw; cbn [negb orb] in H; [|by simplify_eq].
  destruct (Z.ltb_spec (d_len sd) 1) as [|Hl1]; [by simplify_eq|].
  destruct (run_request b drive_id m _ ty sector) as [[b1 m1] [st wr]] eqn:Hrun.
  apply (read_u64_in_u m) in Hsec as [Hs0 _]; [|done].
  assert (Hf : gm_read m1 a n = gm_read m a n).
  { eapply run_request_frame; [|exact Hs0| |exact Hrun]; [by apply slice_Forall|].
    by apply slice_untouched. }
  destruct (gm_write m1 (d_addr sd) [st]) as [m2|] eqn:Hw; simplify_eq; [|done].
  rewrite <- Hf. apply last_Some in Hl as [l' Hl]. rewrite Hl in Hu.
  apply Forall_app in Hu as [_ Hu]. inversion Hu as [|? ? Hd _]; subst.
  eapply gm_write_untouched; [done|change (zlen [st]) with 1; lia|by apply Hd|lia].
Qed.

(** A block request touches only the memory the driver handed over for
    writing.  Whatever the request, its fields and the outcome, every guest
    range that avoids the device-writable buffers of the chain reads the same
    afterwards. *)
Theorem request_frame b drive_id m ds b' m' r a n :
  gm_wf m -> Forall desc_ok ds -> untouched ds a n ->
  handle_request_inner b drive_id m ds = (b', m', r) ->
  gm_read m' a n = gm_read m a n.
Proof. apply handle_request_frame. Qed.

(** The bytes in a list of buffers, in order. *)
Fixpoint gather m ds : result Error (list Z) :=
  match ds with
  | [] => Ok []
  | d :: ds' =>
      let? bs := gm_read m (d_addr d) (Z.to_nat (d_len d)) in
      let? rest := gather m ds' in Ok (bs ++ rest)
  end.

Definition payload ds : list Descriptor := slice 1 (length ds - 2) ds.

Lemma do_write_loop_ok ds b m off b' :
  Forall desc_ok ds -> 0 <= off -> do_write_loop b m ds off = (b', Ok tt) ->
  exists data, gather m (readable ds) = Ok data /\ zlen data = total_len (readable ds) /\
    bb_content b' = file_write (Z.to_nat off) data (bb_content b).
Proof.
  revert b off. induction ds as [|d ds IH]; intros b off Hok Ho H; cbn in H.
  { simplify_eq. by exists []. }
  inversion Hok as [|? ? Hd Hok']; subst. unfold readable; cbn [List.filter].
  destruct (is_write_only d) eqn:Hw; cbn [negb]; [by apply IH|].
  destruct (gm_read m (d_addr d) (Z.to_nat (d_len d))) as [buf|e] eqn:Hr; [|done].
  pose proof (gm_read_length _ _ _ _ Hr) as Hl.
  destruct (bb_write_at b off buf) as [b1 [[]|e]] eqn:Hbw; [|done].
  apply bb_write_ok in Hbw; [|done]. unfold checked_add in H.
  destruct (_ <? _); [|done]. destruct Hd as [Hd0 _].
  destruct (IH b1 (off + d_len d) Hok' ltac:(lia) H) as (data & Hg & Hz & Hc).
  exists (buf ++ data). cbn [gather]. fold (readable ds). rewrite Hr, Hg. split; [done|].
  split; [cbn; fold (total_len (readable ds)); unfold zlen in *; rewrite length_app; lia|].
  rewrite Hc, Hbw. replace (Z.to_nat (off + d_len d)) with (Z.to_nat off + length buf)%nat by lia.
  apply file_write_write.
Qed.

Lemma do_read_loop_ok ds b m off tot b' m' tot' :
  Forall desc_ok ds -> 0 <= off -> in_u 32 tot -> buffers_disjoint (writable ds) ->
  do_read_loop b m ds off tot = (b', m', Ok tot') ->
  gather m' (writable ds)
  = Ok (slice (Z.to_nat off) (Z.to_nat (total_len (writable ds))) (bb_content b)) /\
  tot' = Z.min (tot + total_len (writable ds)) (2 ^ 32 - 1).
Proof.
  revert b m off tot. induction ds as [|d ds IH]; intros b m off tot Hok Ho Ht Hdj H; cbn in H.
  { simplify_eq. split; [done|]. cbn. unfold in_u in Ht. lia. }
  inversion Hok as [|? ? Hd Hok']; subst. unfold writable in *; cbn [List.filter] in *.
  destruct (is_write_only d) eqn:Hw; cbn [negb] in H; [|by apply IH in H].
  fold (writable ds) in *. inversion Hdj as [|? ? Hdj1 Hdj']; subst.
  destruct (bb_read_at b off (Z.to_nat (d_len d))) as [b1 [buf|e]] eqn:Hr; [|done].
  destruct (bb_read_content _ _ _ _ _ Hr) as [Hc _].
  pose proof (bb_read_len _ _ _ _ _ Ho Hr) as Hlen.
  apply bb_read_ok in Hr as [_ ->]; [|done].
  destruct (gm_write m (d_addr d) _) as [m1|e] eqn:Hm; [|done].
  unfold checked_add in H. destruct (_ <? _); [|done].
  destruct Hd as [Hd0 Hd1]. unfold saturating_add in H.
  pose proof (total_len_nonneg _ (writable_ok _ Hok')) as Hn.
  assert (Ho' : 0 <= off + d_len d) by lia.
  assert (Ht' : in_u 32 (Z.min (tot + d_len d) (2 ^ 32 - 1))) by (unfold in_u in *; lia).
  pose proof (do_read_loop_frame ds _ _ _ _ _ _ _ (d_addr d) (Z.to_nat (d_len d)) Hok' Ho'
    (untouched_of_disjoint _ _ Hdj1 Hd0) H) as Hf.
  destruct (IH _ _ _ _ Hok' Ho' Ht' Hdj' H) as [Hg Htot].
  cbn [gather total_len fold_right]. fold (total_len (writable ds)).
  apply gm_read_write_same in Hm. rewrite Hlen in Hm.
  rewrite Hf, Hm, Hg, Hc. split; [|lia]. f_equal.
  rewrite (Z2Nat.inj_add off), (Z2Nat.inj_add (d_len d)) by lia. symmetry. apply slice_app.
Qed.

(** A request that reports success went through every step. *)
Lemma handle_request_ok b drive_id m ds b' m' wr :
  handle_request_inner b drive_id m ds = (b', m', (STATUS_OK, wr)) ->
  exists h sd ty sector m1 wr0,
    ds = h :: payload ds ++ [sd] /\ read_u32_le m (d_addr h) = Ok ty /\
    read_u64_le m (wadd 64 (d_addr h) 8) = Ok sector /\ is_write_only sd = true /\
    1 <= d_len sd /\
    run_request b drive_id m (payload ds) ty sector = (b', m1, (STATUS_OK, wr0)) /\
    gm_write m1 (d_addr sd) [STATUS_OK] = Ok m' /\ wr = saturating_add 32 wr0 1.
Proof.
  intros H. unfold handle_request_inner in H. fold (payload ds) in H.
  destruct ds as [|h [|d1 ds]]; [by simplify_eq..|]. set (all := h :: d1 :: ds) in *.
  destruct (last all) as [sd|] eqn:Hl; [|by simplify_eq].
  destruct (_ || _); [by simplify_eq|].
  destruct (read_u32_le m (d_addr h)) as [ty|] eqn:Hty; [|by simplify_eq].
  destruct (read_u64_le m (wadd 64 (d_addr h) 8)) as [sector|] eqn:Hsec; [|by simplify_eq].
  destruct (is_write_only sd) eqn:Hsw; cbn [negb orb] in H; [|by simplify_eq].
  destruct (Z.ltb_spec (d_len sd) 1) as [|Hl1]; [by simplify_eq|].
  destruct (run_request b drive_id m (payload all) ty sector) as [[b1 m1] [st wr0]] eqn:Hrun.
  destruct (gm_write m1 (d_addr sd) [st]) as [m2|] eqn:Hw; simplify_eq.
  exists h, sd, ty, sector, m1, wr0. split; [|done].
  apply last_Some in Hl as [l' Hl]. destruct l' as [|h' l']; [done|].
  assert (h' = h) as -> by (subst all; cbn in Hl; congruence).
  unfold payload. rewrite Hl, length_app. cbn [length].
  replace (S (length l') + 1 - 2)%nat with (length l') by lia.
  unfold slice. change (drop 1 ((h :: l') ++ [sd])) with (l' ++ [sd]).
  by rewrite take_app_length.
Qed.

Lemma buffers_disjoint_snoc ds d :
  buffers_disjoint (ds ++ [d]) ->
  buffers_disjoint ds /\
  Forall (fun e => disjoint_range (d_addr e) (d_len e) (d_addr d) (d_len d)) ds.
Proof.
  unfold buffers_disjoint. induction ds as [|e ds IH]; intros H.
  { by split; constructor. }
  cbn [app] in H. inversion H as [|? ? Hf Hr]; subst.
  apply Forall_app in Hf as [Hf He]. inversion He as [|? ? Hed _]; subst.
  destruct (IH Hr) as [? ?]. by split; constructor.
Qed.

Lemma gather_write_disjoint m m' a bs ds :
  gm_write m a bs = Ok m' ->
  Forall (fun e => disjoint_range a (zlen bs) (d_addr e) (d_len e)) ds -> Forall desc_ok ds ->
  gather m' ds = gather m ds.
Proof.
  intros Hw. induction 1 as [|e ds He _ IH]; intros Hok; [done|].
  inversion Hok as [|? ? [Hd0 _] Hok']; subst. cbn [gather].
  rewrite (gm_read_write_disjoint _ _ _ _ _ _ Hw) by (by rewrite Z2Nat.id).
  by rewrite IH.
Qed.

Lemma payload_ok ds : Forall desc_ok ds -> Forall desc_ok (payload ds).
Proof. apply slice_Forall. Qed.

(** A successful write request stores its readable payload at its sector. *)
Lemma write_request_ok b drive_id m ds h sector b' m' wr :
  Forall desc_ok ds -> gm_wf m -> hd_error ds = Some h ->
  read_u32_le m (d_addr h) = Ok REQ_TYPE_OUT -> read_u64_le m (wadd 64 (d_addr h) 8) = Ok sector ->
  handle_request_inner b drive_id m ds = (b', m', (STATUS_OK, wr)) ->
  exists data, gather m (readable (payload ds)) = Ok data /\
    zlen data = total_len (readable (payload ds)) /\
    bb_content b' = file_write (Z.to_nat (sector * SECTOR_SIZE)) data (bb_content b) /\ 0 <= sector.
Proof.
  intros Hok Hwf Hh Hty Hsec H.
  apply handle_request_ok in H as (h' & sd & ty & sec' & m1 & wr0 & Hds & Hty' & Hsec' & _ & _ & Hrun & _).
  assert (h' = h) as -> by (rewrite Hds in Hh; cbn in Hh; congruence).
  pose proof (read_u64_in_u m _ _ Hwf Hsec) as [Hs0 _].
  rewrite Hty in Hty'. rewrite Hsec in Hsec'. simplify_eq. unfold run_request in Hrun.
  cbn [Z.eqb REQ_TYPE_IN REQ_TYPE_OUT Pos.eqb] in Hrun. unfold do_write, checked_mul in Hrun.
  destruct (_ <? _); [|done].
  destruct (do_write_loop b m (payload ds) (sec' * SECTOR_SIZE)) as [b1 [[]|e]] eqn:Hd; [|done].
  simplify_eq. unfold SECTOR_SIZE in *.
  destruct (do_write_loop_ok (payload ds) b _ (sec' * 512) b' (payload_ok _ Hok) ltac:(lia) Hd)
    as (data & ? & ? & ?). by exists data.
Qed.

(** A successful read request fills its writable payload from its sector. *)
Lemma read_request_ok b drive_id m ds h sector b' m' wr :
  Forall desc_ok ds -> 0 <= sector -> hd_error ds = Some h ->
  read_u32_le m (d_addr h) = Ok REQ_TYPE_IN -> read_u64_le m (wadd 64 (d_addr h) 8) = Ok sector ->
  handle_request_inner b drive_id m ds = (b', m', (STATUS_OK, wr)) ->
  buffers_disjoint (writable (tail ds)) ->
  gather m' (writable (payload ds))
  = Ok (slice (Z.to_nat (sector * SECTOR_SIZE)) (Z.to_nat (total_len (writable (payload ds))))
          (bb_content b)) /\
  wr = Z.min (total_len (writable (payload ds)) + 1) (2 ^ 32 - 1).
Proof.
  intros Hok Hs0 Hh Hty Hsec H Hdj.
  apply handle_request_ok in H
    as (h' & sd & ty & sec' & m1 & wr0 & Hds & Hty' & Hsec' & Hsw & Hsl & Hrun & Hm & Hwr).
  assert (h' = h) as -> by (rewrite Hds in Hh; cbn in Hh; congruence).
  rewrite Hty in Hty'. rewrite Hsec in Hsec'. simplify_eq. unfold run_request in Hrun.
  cbn [Z.eqb REQ_TYPE_IN] in Hrun. unfold do_read, checked_mul in Hrun.
  destruct (_ <? _); [|done].
  destruct (do_read_loop b m (payload ds) (sec' * SECTOR_SIZE) 0) as [[b1 m2] [tot|e]] eqn:Hd; [|done].
  simplify_eq. pose proof (payload_ok _ Hok) as Hpok.
  rewrite Hds in Hdj. cbn [tail] in Hdj. unfold writable in Hdj.
  rewrite List.filter_app in Hdj. cbn [List.filter] in Hdj. rewrite Hsw in Hdj.
  fold (writable (payload ds)) in Hdj. apply buffers_disjoint_snoc in Hdj as [Hdj Hlast].
  destruct (do_read_loop_ok (payload ds) b m (sec' * 512) 0 b' m1 wr0 Hpok ltac:(lia)
    ltac:(unfold in_u; lia) Hdj Hd) as [Hg ->].
  split; [|pose proof (total_len_nonneg _ (writable_ok _ Hpok)); unfold saturating_add; lia].
  unfold SECTOR_SIZE. rewrite <- Hg. apply (gather_write_disjoint _ _ (d_addr sd) [STATUS_OK]); [done| |by apply writable_ok].
  eapply Forall_impl; [exact Hlast|]. cbn. intros e He. unfold disjoint_range in *.
  change (zlen [STATUS_OK]) with 1. lia.
Qed.

(** C25: what a guest writes it reads back.  If a write request and a later read
    request for the same sector and the same number of bytes both report
    success, the read's buffers hold, in order, exactly the bytes that were in
    the write's buffers. *)
Theorem block_write_read b drive_id m1 ds1 b1 m1' w1 m2 ds2 b2 m2' w2 h1 h2 sector :
  Forall desc_ok ds1 -> Forall desc_ok ds2 -> gm_wf m1 ->
  hd_error ds1 = Some h1 -> read_u32_le m1 (d_addr h1) = Ok REQ_TYPE_OUT ->
  read_u64_le m1 (wadd 64 (d_addr h1) 8) = Ok sector ->
  handle_request_inner b drive_id m1 ds1 = (b1, m1', (STATUS_OK, w1)) ->
  hd_error ds2 = Some h2 -> read_u32_le m2 (d_addr h2) = Ok REQ_TYPE_IN ->
  read_u64_le m2 (wadd 64 (d_addr h2) 8) = Ok sector ->
  handle_request_inner b1 drive_id m2 ds2 = (b2, m2', (STATUS_OK, w2)) ->
  buffers_disjoint (writable (tail ds2)) ->
  total_len (writable (payload ds2)) = total_len (readable (payload ds1)) ->
  exists data, gather m1 (readable (payload ds1)) = Ok data /\
    gather m2' (writable (payload ds2)) = Ok data /\
    w2 = Z.min (zlen data + 1) (2 ^ 32 - 1).
Proof.
  intros Hok1 Hok2 Hwf Hh1 Hty1 Hsec1 H1 Hh2 Hty2 Hsec2 H2 Hdj Hlen.
  destruct (write_request_ok _ _ _ _ _ _ _ _ _ Hok1 Hwf Hh1 Hty1 Hsec1 H1)
    as (data & Hg & Hz & Hc & Hs0).
  destruct (read_request_ok _ _ _ _ _ _ _ _ _ Hok2 Hs0 Hh2 Hty2 Hsec2 H2 Hdj) as [Hg2 ->].
  exists data. rewrite Hlen, <- Hz in *. split_and!; [done| |done].
  rewrite Hg2, Hc. f_equal. unfold zlen. rewrite Nat2Z.id. apply file_write_slice.
Qed.

(** *** The disk side *)

Lemma do_write_loop_disk ds b m off b' r i :
  Forall desc_ok ds -> 0 <= off ->
  Z.of_nat i < off \/ off + total_len (readable ds) <= Z.of_nat i ->
  (i < length (bb_content b))%nat ->
  do_write_loop b m ds off = (b', r) -> bb_content b' !! i = bb_content b !! i.
Proof.
  revert b off. induction ds as [|d ds IH]; intros b off Hok Ho Hi Hl H; cbn in H.
  { by simplify_eq. }
  inversion Hok as [|? ? Hd Hok']; subst. unfold readable in Hi; cbn [List.filter] in Hi.
  destruct (is_write_only d) eqn:Hw; cbn [negb] in *; [by eapply IH|].
  fold (readable ds) in Hi. cbn [total_len fold_right] in Hi. fold (total_len (readable ds)) in Hi.
  assert (Hn : 0 <= total_len (readable ds)).
  { apply total_len_nonneg. apply List.Forall_forall. intros e [He _]%filter_In.
    by apply (proj1 (List.Forall_forall _ _) Hok'). }
  destruct Hd as [Hd0 _].
  destruct (gm_read m (d_addr d) (Z.to_nat (d_len d))) as [buf|e] eqn:Hr; [|by simplify_eq].
  pose proof (gm_read_length _ _ _ _ Hr) as Hlen.
  pose proof (bb_write_frame b off buf i Ho ltac:(unfold zlen; lia) Hl) as Hf.
  destruct (bb_write_at b off buf) as [b1 [[]|e]] eqn:Hbw; [|by simplify_eq].
  cbn in Hf. unfold checked_add in H. destruct (_ <? _); [|by simplify_eq].
  rewrite <- Hf. eapply (IH b1 (off + d_len d)); [done|lia|lia| |exact H].
  apply lookup_lt_is_Some. rewrite Hf. by apply lookup_lt_is_Some.
Qed.

Lemma do_write_loop_read_only ds b m off b' r :
  bb_read_only b = true -> do_write_loop b m ds off = (b', r) -> b' = b.
Proof.
  intros Hro. revert off. induction ds as [|d ds IH]; intros off H; cbn in H; [by simplify_eq|].
  destruct (is_write_only d); [by eapply IH|]. destruct (gm_read _ _ _); [|by simplify_eq].
  rewrite bb_write_refused in H by done. by simplify_eq.
Qed.

(** The disk is only changed by write requests, and only inside their
    extent.  Whatever the outcome of a request: on a read-only backend, or when
    the request is not a write, the contents stay; a write request changes no
    stored byte outside the [total_len] bytes from its sector on. *)
Theorem disk_frame b drive_id m ds h ty sector b' m' r :
  Forall desc_ok ds -> gm_wf m -> hd_error ds = Some h ->
  read_u32_le m (d_addr h) = Ok ty -> read_u64_le m (wadd 64 (d_addr h) 8) = Ok sector ->
  handle_request_inner b drive_id m ds = (b', m', r) ->
  (ty <> REQ_TYPE_OUT \/ bb_read_only b = true -> bb_content b' = bb_content b) /\
  forall i, (i < length (bb_content b))%nat ->
    Z.of_nat i < sector * SECTOR_SIZE \/
    sector * SECTOR_SIZE + total_len (readable (payload ds)) <= Z.of_nat i ->
    bb_content b' !! i = bb_content b !! i.
Proof.
  intros Hok Hwf Hh Hty Hsec H.
  pose proof (read_u64_in_u m _ _ Hwf Hsec) as [Hs0 _].
  assert (Hcase : b' = b \/ exists m1 r1,
    run_request b drive_id m (payload ds) ty sector = (b', m1, r1)).
  { unfold handle_request_inner in H. fold (payload ds) in H.
    destruct ds as [|h' [|d1 ds]]; [left; by simplify_eq..|]. cbn in Hh. injection Hh as ->.
    rewrite Hty, Hsec in H.
    destruct (last _); [|left; by simplify_eq]. destruct (_ || _); [left; by simplify_eq|].
    destruct (_ || _); [left; by simplify_eq|]. right.
    destruct (run_request _ _ _ _ _ _) as [[b1 m1] [st w0]].
    exists m1, (st, w0). by destruct (gm_write _ _ _); simplify_eq. }
  destruct Hcase as [->|(m1 & r1 & Hrun)]; [done|]. clear H. unfold run_request in Hrun.
  destruct (Z.eqb_spec ty REQ_TYPE_IN) as [->|].
  { unfold do_read, checked_mul in Hrun. destruct (_ <? _); [|by simplify_eq].
    destruct (do_read_loop _ _ _ _ _) as [[b1 m2] r2] eqn:Hd.
    apply do_read_loop_backend in Hd as [Hc _]. destruct r2; simplify_eq; by rewrite Hc. }
  destruct (Z.eqb_spec ty REQ_TYPE_OUT) as [->|].
  { unfold do_write, checked_mul in Hrun. destruct (_ <? _); [|by simplify_eq].
    destruct (do_write_loop _ _ _ _) as [b1 r2] eqn:Hd.
    assert (b1 = b') as -> by (destruct r2; by simplify_eq). split.
    - intros [?|Hro]; [done|]. by rewrite (do_write_loop_read_only _ _ _ _ _ _ Hro Hd).
    - intros i Hi Hout. assert (Hoff : 0 <= sector * SECTOR_SIZE) by (unfold SECTOR_SIZE; lia).
      by apply (do_write_loop_disk _ _ _ _ _ _ i (payload_ok _ Hok) Hoff Hout Hi) in Hd. }
  destruct (ty =? REQ_TYPE_FLUSH).
  { destruct (bb_flush_content b) as [Hc _]. destruct (bb_flush b) as [b1 [u|e]]; simplify_eq/=;
      by rewrite Hc. }
  destruct (ty =? REQ_TYPE_GET_ID); [|by simplify_eq].
  destruct (do_get_id _ _ _) as [m2 [w|e]]; by simplify_eq.
Qed.

(** *** Well-formedness through a request *)

Lemma do_read_loop_wf ds b m off tot b' m' r :
  gm_wf m -> bytes_ok (bb_content b) -> 0 <= off -> Forall desc_ok ds ->
  do_read_loop b m ds off tot = (b', m', r) -> gm_wf m'.
Proof.
  revert b m off tot. induction ds as [|d ds IH]; intros b m off tot Hwf Hc Ho Hok H; cbn in H.
  { by simplify_eq. }
  inversion Hok as [|? ? [Hd0 _] Hok']; subst. destruct (negb _); [by apply (IH b m off tot)|].
  destruct (bb_read_at b off _) as [b1 [buf|e]] eqn:Hr; [|by simplify_eq].
  destruct (bb_read_content _ _ _ _ _ Hr) as [Hc1 _].
  apply bb_read_ok in Hr as [_ ->]; [|done].
  destruct (gm_write m (d_addr d) _) as [m1|] eqn:Hm; [|by simplify_eq].
  assert (gm_wf m1) by (eapply gm_write_wf; [exact Hwf| |exact Hm]; by apply slice_Forall).
  unfold checked_add in H. destruct (_ <? _); [|by simplify_eq].
  eapply (IH b1 m1 (off + d_len d)); [done|by rewrite Hc1|lia|done|exact H].
Qed.

Lemma do_write_loop_wf ds b m off b' r :
  gm_wf m -> bytes_ok (bb_content b) -> do_write_loop b m ds off = (b', r) ->
  bytes_ok (bb_content b').
Proof.
  revert b off. induction ds as [|d ds IH]; intros b off Hwf Hc H; cbn in H; [by simplify_eq|].
  destruct (is_write_only d); [by eapply IH|].
  destruct (gm_read m (d_addr d) _) as [buf|e] eqn:Hr; [|by simplify_eq].
  apply gm_read_bytes in Hr; [|done]. pose proof (bb_write_bytes b off buf Hr Hc) as Hc1.
  destruct (bb_write_at b off buf) as [b1 [u|e]]; [|by simplify_eq].
  unfold checked_add in H. destruct (_ <? _); [|by simplify_eq]. by eapply IH.
Qed.

Lemma id_bytes_ok drive_id n : bytes_ok drive_id -> bytes_ok (take n (id_bytes drive_id)).
Proof.
  intros H. apply Forall_take. unfold id_bytes. apply splice_Forall; [by apply Forall_take|].
  by repeat constructor.
Qed.

(** Status byte, request fields and disk bytes keep memory and disk well-formed. *)
Lemma handle_request_wf b drive_id m ds b' m' r :
  gm_wf m -> bytes_ok (bb_content b) -> bytes_ok drive_id -> Forall desc_ok ds ->
  handle_request_inner b drive_id m ds = (b', m', r) -> gm_wf m' /\ bytes_ok (bb_content b').
Proof.
  intros Hwf Hc Hid Hok H. unfold handle_request_inner in H. fold (payload ds) in H.
  destruct ds as [|h [|d1 ds]]; [by simplify_eq..|]. set (all := h :: d1 :: ds) in *.
  destruct (last all) as [sd|]; [|by simplify_eq]. destruct (_ || _); [by simplify_eq|].
  destruct (read_u32_le m (d_addr h)) as [ty|]; [|by simplify_eq].
  destruct (read_u64_le m (wadd 64 (d_addr h) 8)) as [sector|] eqn:Hsec; [|by simplify_eq].
  apply (read_u64_in_u m) in Hsec as [Hs0 _]; [|done].
  destruct (_ || _); [by simplify_eq|].
  destruct (run_request b drive_id m (payload all) ty sector) as [[b1 m1] [st w0]] eqn:Hrun.
  assert (Hrw : gm_wf m1 /\ bytes_ok (bb_content b1) /\ byte_ok st).
  { unfold run_request in Hrun. unfold byte_ok.
    destruct (ty =? REQ_TYPE_IN).
    { unfold do_read, checked_mul in Hrun. destruct (_ <? _); [|by simplify_eq].
      destruct (do_read_loop _ _ _ _ _) as [[b2 m2] r2] eqn:Hd.
      pose proof (do_read_loop_wf _ _ _ _ _ _ _ _ Hwf Hc
        (Z.mul_nonneg_nonneg sector SECTOR_SIZE Hs0 ltac:(done)) (payload_ok _ Hok) Hd).
      apply do_read_loop_backend in Hd as [Hc2 _].
      destruct r2; simplify_eq; rewrite Hc2; by split. }
    destruct (ty =? REQ_TYPE_OUT).
    { unfold do_write, checked_mul in Hrun. destruct (_ <? _); [|by simplify_eq].
      destruct (do_write_loop _ _ _ _) as [b2 r2] eqn:Hd.
      apply do_write_loop_wf in Hd; [|done|done]. destruct r2; by simplify_eq. }
    destruct (ty =? REQ_TYPE_FLUSH).
    { destruct (bb_flush_content b) as [Hf _]. rewrite <- Hf in Hc.
      destruct (bb_flush b) as [b2 [u|e]]; by simplify_eq/=. }
    destruct (ty =? REQ_TYPE_GET_ID); [|by simplify_eq].
    unfold do_get_id in Hrun. destruct (payload all) as [|d ds']; [by simplify_eq|].
    destruct (negb _); [by simplify_eq|].
    destruct (gm_write m (d_addr d) _) as [m2|] eqn:Hm; simplify_eq; [|done].
    split; [|done]. eapply gm_write_wf; [exact Hwf| |exact Hm]. by apply id_bytes_ok. }
  destruct Hrw as (Hw1 & Hc1 & Hst).
  destruct (gm_write m1 (d_addr sd) [st]) as [m2|] eqn:Hm; simplify_eq; [|done].
  split; [|done]. eapply gm_write_wf; [exact Hw1| |exact Hm]. by apply Forall_singleton.
Qed.

Lemma do_read_loop_total ds b m off tot b' m' tot' :
  in_u 32 tot -> Forall desc_ok ds -> do_read_loop b m ds off tot = (b', m', Ok tot') -> in_u 32 tot'.
Proof.
  revert b m off tot. induction ds as [|d ds IH]; intros b m off tot Ht Hok H; cbn in H.
  { by simplify_eq. }
  inversion Hok as [|? ? [Hd0 _] Hok']; subst. destruct (negb _); [by apply IH in H|].
  destruct (bb_read_at _ _ _) as [b1 [buf|e]]; [|done]. destruct (gm_write _ _ _); [|done].
  destruct (checked_add _ _ _); [|done]. apply IH in H; [done| |done].
  unfold saturating_add, in_u in *. lia.
Qed.

Lemma handle_request_written b drive_id m ds b' m' st wr :
  Forall desc_ok ds -> handle_request_inner b drive_id m ds = (b', m', (st, wr)) -> in_u 32 wr.
Proof.
  intros Hok H. assert (Hz : in_u 32 0) by (unfold in_u; lia).
  unfold handle_request_inner in H. fold (payload ds) in H.
  destruct ds as [|h [|d1 ds]]; [by simplify_eq..|]. set (all := h :: d1 :: ds) in *.
  destruct (last all) as [sd|]; [|by simplify_eq]. destruct (_ || _); [by simplify_eq|].
  destruct (read_u32_le m (d_addr h)) as [ty|]; [|by simplify_eq].
  destruct (read_u64_le m (wadd 64 (d_addr h) 8)) as [sector|] eqn:Hsec; [|by simplify_eq].
  destruct (_ || _); [by simplify_eq|].
  destruct (run_request b drive_id m (payload all) ty sector) as [[b1 m1] [st0 w0]] eqn:Hrun.
  assert (Hw : in_u 32 w0).
  { unfold run_request, do_read, do_write, do_get_id in Hrun.
    destruct (ty =? REQ_TYPE_IN).
    { destruct (checked_mul _ _ _); [|by simplify_eq].
      destruct (do_read_loop _ _ _ _ _) as [[b2 m2] [t|e]] eqn:Hd; simplify_eq; [|done].
      exact (do_read_loop_total _ _ _ _ _ _ _ _ Hz (payload_ok _ Hok) Hd). }
    repeat case_match; simplify_eq; first [done | unfold in_u; lia]. }
  unfold saturating_add in H. destruct (gm_write _ _ _); simplify_eq; [|done].
  unfold in_u in *. lia.
Qed.

Lemma do_read_loop_domain ds b m off tot b' m' r a n :
  do_read_loop b m ds off tot = (b', m', r) -> is_ok (gm_read m' a n) = is_ok (gm_read m a n).
Proof.
  revert b m off tot. induction ds as [|d ds IH]; intros b m off tot H; cbn in H; [by simplify_eq|].
  destruct (negb _); [by apply IH in H|]. destruct (bb_read_at _ _ _) as [b1 [buf|e]]; [|by simplify_eq].
  destruct (gm_write m _ _) as [m1|] eqn:Hm; [|by simplify_eq].
  rewrite <- (gm_write_domain _ _ _ _ a n Hm). destruct (checked_add _ _ _); [by apply IH in H|by simplify_eq].
Qed.

Lemma handle_request_domain b drive_id m ds b' m' r a n :
  handle_request_inner b drive_id m ds = (b', m', r) -> is_ok (gm_read m' a n) = is_ok (gm_read m a n).
Proof.
  intros H. unfold handle_request_inner in H. destruct ds as [|h [|d1 ds]]; [by simplify_eq..|].
  destruct (last _) as [sd|]; [|by simplify_eq]. destruct (_ || _); [by simplify_eq|].
  destruct (read_u32_le m _) as [ty|]; [|by simplify_eq].
  destruct (read_u64_le m _) as [sector|]; [|by simplify_eq]. destruct (_ || _); [by simplify_eq|].
  destruct (run_request _ _ _ _ _ _) as [[b1 m1] [st wr]] eqn:Hrun.
  assert (Hd : is_ok (gm_read m1 a n) = is_ok (gm_read m a n)).
  { unfold run_request in Hrun. destruct (ty =? REQ_TYPE_IN).
    { unfold do_read in Hrun. destruct (checked_mul _ _ _); [|by simplify_eq].
      destruct (do_read_loop _ _ _ _ _) as [[b2 m2] r2] eqn:Hl. apply do_read_loop_domain with (a := a) (n := n) in Hl.
      by destruct r2; simplify_eq. }
    destruct (ty =? REQ_TYPE_OUT). { repeat case_match; by simplify_eq. }
    destruct (ty =? REQ_TYPE_FLUSH). { repeat case_match; by simplify_eq. }
    destruct (ty =? REQ_TYPE_GET_ID); [|by simplify_eq]. unfold do_get_id in Hrun.
    destruct (slice _ _ _) as [|d ds']; [by simplify_eq|]. destruct (negb _); [by simplify_eq|].
    destruct (gm_write m _ _) as [m2|] eqn:Hm; simplify_eq; [|done]. by eapply gm_write_domain. }
  rewrite <- Hd. destruct (gm_write m1 _ _) as [m2|] eqn:Hm; simplify_eq; [|done]. by eapply gm_write_domain.
Qed.

(** *** The drain loop *)

Definition disk_ok b : Prop := bytes_ok (bb_content b).

Lemma serve_request_laws drive_id : bytes_ok drive_id -> serve_laws (serve_request (M := M) drive_id) any_desc disk_ok.
Proof.
  intros Hid. constructor; unfold serve_request, on_chain.
  - intros b m ds b' m' act Hwf Hc Hok _ H.
    destruct (handle_request_inner b drive_id m ds) as [[b1 m1] [st wr]] eqn:Hreq. injection H as <- <- <-.
    destruct (handle_request_wf _ _ _ _ _ _ _ Hwf Hc Hid Hok Hreq) as [Hwf1 Hc1].
    split_and!; [done| |intros w [= <-]; by eapply handle_request_written].
    split_and!; [done| |].
    + intros a n Hu. by eapply handle_request_frame.
    + intros a n. by eapply handle_request_domain.
  - intros b m e b' m' act Hc [= <- <- <-]. done.
Qed.

Lemma serve_request_returns drive_id : returns (serve_request (M := M) drive_id) disk_ok (fun _ => True).
Proof.
  intros b m ds _ _ _ _. unfold serve_request, on_chain.
  destruct (handle_request_inner b drive_id m ds) as [[b1 m1] [st wr]]. by eexists _, _, _.
Qed.

(** A pass that goes on has completed a request. *)
Lemma serve_request_more drive_id q m b c q' m' b' c' :
  loop_step (serve_request drive_id) (q, m, b, c) = ((q', m', b', c'), true) -> c' = true.
Proof.
  unfold loop_step, serve_request, on_chain. intros H.
  destruct (pop_avail q m) as [[q1 [ch|]]|e]; [|done..].
  destruct (collect ch m) as [[ds|e]|]; [|done..].
  destruct (handle_request_inner b drive_id m ds) as [[b1 m1] [st wr]].
  by destruct (push_used _ _ _) as [[q2 m2] [u|e]]; simplify_eq.
Qed.

(** The drain loop ends.  As long as the driver keeps its buffers off the
    descriptor table and the available index, the loop pops at most the
    published backlog, so 65536 iterations always suffice; and it reports a
    completion (which interrupts the guest) exactly when the first request
    could be completed. *)
Theorem drain_terminates drive_id q m b :
  bytes_ok drive_id -> drain_inv any_desc q m -> bytes_ok (bb_content b) ->
  exists q' m' b' c',
    queue_loop (serve_request drive_id) drain_fuel (q, m, b, false) = ((q', m', b', c'), true) /\
    (c' = true <-> exists s', loop_step (serve_request drive_id) (q, m, b, false) = (s', true)).
Proof.
  intros Hid Hinv Hb. pose proof (backlog_bound q m) as Hbl.
  pose proof (serve_request_laws drive_id Hid) as Hlaws.
  replace drain_fuel with (S (Z.to_nat 65535)) by (unfold drain_fuel; lia). cbn [queue_loop].
  destruct (loop_step _ (q, m, b, false)) as [[[[q1 m1] b1] c1] [|]] eqn:Hst.
  - destruct (loop_step_more _ _ _ Hlaws _ _ _ _ _ _ _ _ Hinv Hb Hst) as (Hi1 & Hb1 & Hb0 & Hbk & _).
    pose proof (serve_request_more _ _ _ _ _ _ _ _ _ Hst) as ->.
    destruct (queue_loop_ends _ _ _ Hlaws (Z.to_nat 65535) q1 m1 b1 true Hi1 Hb1 ltac:(lia))
      as (q' & m' & b' & c' & Hl & Hc).
    exists q', m', b', c'. split; [done|]. split; [by eexists | auto].
  - exists q1, m1, b1, c1. split; [done|]. rewrite (loop_step_stop _ _ _ _ _ _ _ _ _ Hst).
    split; [done|]. by intros [s' ?].
Qed.

End requests.

(** ** Concrete requests *)

(** A write request (header at 0, four bytes at 16, status at 20) and a read
    request for the same sector (header at 32, buffer at 48, status at 52). *)
Definition ex_req_mem : SliceGuestMemory :=
  mkSlice 0 ([1; 0; 0; 0; 0; 0; 0; 0; 0; 0; 0; 0; 0; 0; 0; 0; 10; 20; 30; 40; 7] ++
             repeat 0 43).

Definition ex_write_descs : list Descriptor :=
  [mkDesc 0 16 1 1; mkDesc 16 4 1 2; mkDesc 20 1 2 0].

Definition ex_read_descs : list Descriptor :=
  [mkDesc 32 16 1 4; mkDesc 48 4 3 5; mkDesc 52 1 2 0].

Definition ex_disk : AsyncFileBackend := async_open (repeat 0 512) false.

Lemma ex_req_mem_wf : gm_wf ex_req_mem.
Proof. vm_compute. repeat constructor; discriminate. Qed.

Lemma ex_write_descs_ok : Forall desc_ok ex_write_descs.
Proof. repeat constructor; by vm_compute. Qed.

Lemma ex_read_descs_ok : Forall desc_ok ex_read_descs.
Proof. repeat constructor; by vm_compute. Qed.

Definition ex_after_write : AsyncFileBackend * SliceGuestMemory * (Z * Z) :=
  handle_request_inner ex_disk [] ex_req_mem ex_write_descs.

Definition ex_after_read : AsyncFileBackend * SliceGuestMemory * (Z * Z) :=
  handle_request_inner ex_after_write.1.1 [] ex_after_write.1.2 ex_read_descs.

Lemma request_frame_witness : gm_read ex_after_write.1.2 0 20 = gm_read ex_req_mem 0 20.
Proof.
  apply (request_frame ex_disk [] ex_req_mem ex_write_descs ex_after_write.1.1 ex_after_write.1.2
    ex_after_write.2 0 20 ex_req_mem_wf ex_write_descs_ok); [|by vm_compute].
  repeat constructor; vm_compute; (discriminate || intros; intuition discriminate).
Defined.

Lemma block_write_read_witness :
  exists data, gather ex_req_mem (readable (payload ex_write_descs)) = Ok data /\
    gather ex_after_read.1.2 (writable (payload ex_read_descs)) = Ok data /\
    data = [10; 20; 30; 40].
Proof.
  destruct (block_write_read ex_disk [] ex_req_mem ex_write_descs ex_after_write.1.1
    ex_after_write.1.2 1 ex_after_write.1.2 ex_read_descs ex_after_read.1.1 ex_after_read.1.2 5
    (mkDesc 0 16 1 1) (mkDesc 32 16 1 4) 0 ex_write_descs_ok ex_read_descs_ok ex_req_mem_wf)
    as (data & H1 & H2 & _); try (by vm_compute).
  - repeat constructor; vm_compute; intuition discriminate.
  - exists data. split; [exact H1|]. split; [exact H2|]. vm_compute in H1. by injection H1.
Defined.

Lemma disk_frame_witness : bb_content ex_after_write.1.1 !! 4%nat = Some 0.
Proof.
  rewrite (proj2 (disk_frame ex_disk [] ex_req_mem ex_write_descs (mkDesc 0 16 1 1) 1 0
    ex_after_write.1.1 ex_after_write.1.2 ex_after_write.2 ex_write_descs_ok ex_req_mem_wf
    ltac:(by vm_compute) ltac:(by vm_compute) ltac:(by vm_compute) ltac:(by vm_compute)) 4%nat);
    [by vm_compute | vm_compute; lia | right; by vm_compute].
Defined.


Lemma ex_disk_ok : bytes_ok (bb_content ex_disk).
Proof. vm_compute. repeat constructor; discriminate. Qed.

Lemma drain_terminates_witness :
  exists s c, queue_loop (serve_request []) drain_fuel (ex_queue, ex_mem, ex_disk, false) = ((s, c), true).
Proof.
  destruct (drain_terminates [] ex_queue ex_mem ex_disk (Forall_nil_2 _) (layout_drain_inv _ _ _ ex_layout) ex_disk_ok)
    as (q' & m' & b' & c' & H & _).
  exists (q', m', b'), c'. exact H.
Defined.


(** A guest write is never compared with the advertised capacity: on a writable
    file of any size it succeeds at any sector and makes the file longer. *)
Lemma write_past_capacity b m d sector buf :
  ay_read_only b = false -> is_write_only d = false ->
  gm_read m (d_addr d) 512 = Ok buf -> d_len d = 512 -> length buf = 512%nat ->
  0 <= sector < 2 ^ 53 -> ay_size b <= sector * SECTOR_SIZE ->
  exists b', do_write (M := SliceGuestMemory) b m [d] sector = (b', Ok tt) /\
    bb_size_bytes b' = ay_size b /\ (sector + 1) * SECTOR_SIZE <= zlen (ay_content b').
Proof.
  intros Hro Hw Hr Hl Hb Hs Hcap. unfold do_write, checked_mul, SECTOR_SIZE in *.
  destruct (Z.ltb_spec (sector * 512) (2 ^ 64)); [|lia].
  cbn [do_write_loop]. rewrite Hw, Hl. change (Z.to_nat 512) with 512%nat. rewrite Hr.
  cbn [bb_write_at AsyncFileBackend_BlockBackend]. unfold async_write_at, file_pwrite. rewrite Hro.
  destruct (Z.ltb_spec (sector * 512) (2 ^ 63)); [|lia].
  unfold zlen. rewrite Hb. destruct (Z.ltb_spec (sector * 512 + Z.of_nat 512) (2 ^ 63)); [|lia].
  unfold checked_add. destruct (Z.ltb_spec (sector * 512 + 512) (2 ^ 64)); [|lia].
  eexists. split; [reflexivity|]. cbn [bb_size_bytes ay_size ay_content]. split; [done|].
  rewrite file_write_length by (by destruct buf). rewrite Hb. lia.
Qed.
