(* ===== verification/Peripherals.v ===== *)
(** * Peripherals: the entropy, console, persistent-memory, memory-hotplug,
    balloon and boot-timer devices

    Models the files of [src/crates/virtio/src/devices] with one queue loop per
    queue and little state.  Each device is a [DeviceModel]: a loop body for
    [Drain.queue_loop], its own state and its configuration space.  The host
    side (entropy source, console writer, hotplug backend) is a class, because
    it is a trait object in the code. *)

From stdpp Require Import base numbers list option.
From Stdlib Require Import ZArith Lia.
From S2P Require Import Prelude GuestMem Arch Virtqueue Drain Transport Device.

Local Open Scope Z_scope.
Local Open Scope squib_scope.

(** ** virtio-rng *)

(** [EntropySource::fill] on a buffer of the given length. *)
Class EntropySource (S : Type) := es_fill : S -> nat -> S * list Z.

Class EntropySourceLaws (S : Type) `{!EntropySource S} := {
  es_length : forall s n, length (es_fill s n).2 = n;
  es_bytes : forall s n, bytes_ok (es_fill s n).2
}.

Definition RNG_QUEUE_MAX_SIZE : Z := 256.

Section rng.
Context {M G S : Type} `{!GuestMemory M} `{!Gic G} `{!EntropySource S}.

Definition rng_with_source (source : S) : Frontend S :=
  mkFrontend 0 0 [Queue_new RNG_QUEUE_MAX_SIZE] ActiveState_default source.

(** The loop over the descriptors of a chain. *)
Fixpoint rng_fill (s : S) (m : M) (descs : list Descriptor) (bytes_written : Z) : S * M * Z :=
  match descs with
  | [] => (s, m, bytes_written)
  | desc :: rest =>
      if Z.land (d_flags desc) VIRTQ_DESC_F_WRITE =? 0 then rng_fill s m rest bytes_written
      else
        let '(s', buf) := es_fill s (Z.to_nat (d_len desc)) in
        match gm_write m (d_addr desc) buf with
        | Err _ => (s', m, bytes_written)
        | Ok m' => rng_fill s' m' rest (saturating_add 32 bytes_written (d_len desc))
        end
  end.

Definition rng_serve : S -> M -> result QueueError (list Descriptor) -> S * M * action :=
  on_chain (fun s m descs => let '(s', m', n) := rng_fill s m descs 0 in (s', m', Push n)).

Definition rng_process_queue (d : Frontend S) (w : World M G) (queue_index : Z) : option (Frontend S * World M G) :=
  if negb (queue_index =? 0) then Some (d, w)
  else
    '(qs, s, w') ← service_queue rng_serve (fe_state d) (fe_queues d) 0 (fe_own d) w;
    Some (fe_update d qs s, w').

#[export] Instance rng_model : DeviceModel M G S := {
  dm_type := DevRng;
  dm_read_config _ _ data := map (fun _ => 0) data;
  dm_process := rng_process_queue
}.
End rng.

(** ** virtio-console *)

(** [Write::write_all] on the console's host side; an error is only logged. *)
Class HostWriter (S : Type) := hw_write_all : S -> list Z -> S.

Inductive ConsoleSink (S : Type) := SinkDiscard | SinkWriter (w : S).
Arguments SinkDiscard {S}.
Arguments SinkWriter {S}.

Definition CONSOLE_RX_QUEUE : Z := 0.
Definition CONSOLE_TX_QUEUE : Z := 1.
Definition CONSOLE_QUEUE_MAX_SIZE : Z := 64.

Section console.
Context {M G S : Type} `{!GuestMemory M} `{!Gic G} `{!HostWriter S}.

Definition console_new (sink : ConsoleSink S) : Frontend (ConsoleSink S) :=
  mkFrontend 0 0 [Queue_new CONSOLE_QUEUE_MAX_SIZE; Queue_new CONSOLE_QUEUE_MAX_SIZE] ActiveState_default sink.

Definition sink_write (sink : ConsoleSink S) (buf : list Z) : ConsoleSink S :=
  match sink with
  | SinkDiscard => SinkDiscard
  | SinkWriter w => SinkWriter (hw_write_all w buf)
  end.

(** The loop over the descriptors of a transmitted chain. *)
Fixpoint console_tx (sink : ConsoleSink S) (m : M) (descs : list Descriptor) (written : Z) : ConsoleSink S * Z :=
  match descs with
  | [] => (sink, written)
  | desc :: rest =>
      if is_write_only desc then console_tx sink m rest written
      else if d_len desc =? 0 then console_tx sink m rest written
      else
        match gm_read m (d_addr desc) (Z.to_nat (d_len desc)) with
        | Err _ => console_tx sink m rest written
        | Ok buf => console_tx (sink_write sink buf) m rest (saturating_add 32 written (d_len desc))
        end
  end.

Definition console_serve
  : ConsoleSink S -> M -> result QueueError (list Descriptor) -> ConsoleSink S * M * action :=
  on_chain (fun sink m descs => let '(sink', n) := console_tx sink m descs 0 in (sink', m, Push n)).

Definition console_drain_tx (d : Frontend (ConsoleSink S)) (w : World M G)
  : option (Frontend (ConsoleSink S) * World M G) :=
  '(qs, s, w') ← service_queue console_serve (fe_state d) (fe_queues d) (Z.to_nat CONSOLE_TX_QUEUE) (fe_own d) w;
  Some (fe_update d qs s, w').

Definition console_process_queue (d : Frontend (ConsoleSink S)) (w : World M G) (queue_index : Z)
  : option (Frontend (ConsoleSink S) * World M G) :=
  if queue_index =? CONSOLE_TX_QUEUE then console_drain_tx d w else Some (d, w).

#[export] Instance console_model : DeviceModel M G (ConsoleSink S) := {
  dm_type := DevConsole;
  dm_read_config _ _ data := map (fun _ => 0) data;
  dm_process := console_process_queue
}.
End console.

(** ** virtio-pmem *)

Definition PMEM_REQ_TYPE_FLUSH : Z := 0.
Definition PMEM_RESP_TYPE_OK : Z := 0.
Definition PMEM_RESP_TYPE_EIO : Z := 1.
Definition PMEM_QUEUE_MAX_SIZE : Z := 64.

Record PmemConfig := mkPmemConfig {
  pm_id : list Z;
  pm_path_on_host : list Z;
  pm_guest_base : Z;
  pm_size_bytes : Z;
  pm_read_only : bool
}.

(** [descs.iter().find(..)] for the request and the response descriptor. *)
Definition first_readable (descs : list Descriptor) : option Descriptor :=
  List.find (fun d => negb (is_write_only d)) descs.

Definition first_writable (descs : list Descriptor) : option Descriptor :=
  List.find is_write_only descs.

Definition unwrap_or {E} (r : result E Z) (x : Z) : Z := match r with Ok v => v | Err _ => x end.

Section pmem.
Context {M G : Type} `{!GuestMemory M} `{!Gic G}.

Definition pmem_new (config : PmemConfig) : Frontend PmemConfig :=
  mkFrontend 0 0 [Queue_new PMEM_QUEUE_MAX_SIZE] ActiveState_default config.

Definition pmem_respond (m : M) (descs : list Descriptor) : M * Z :=
  match first_readable descs, first_writable descs with
  | Some req, Some resp =>
      let req_type := unwrap_or (read_u32_le m (d_addr req)) (2 ^ 32 - 1) in
      let res := if req_type =? PMEM_REQ_TYPE_FLUSH then PMEM_RESP_TYPE_OK else PMEM_RESP_TYPE_EIO in
      match write_u32_le m (d_addr resp) res with
      | Ok m' => (m', 4)
      | Err _ => (m, 0)
      end
  | _, _ => (m, 0)
  end.

Definition pmem_serve : unit -> M -> result QueueError (list Descriptor) -> unit * M * action :=
  on_chain (fun _ m descs => let '(m', n) := pmem_respond m descs in (tt, m', Push n)).

Definition pmem_drain_requests (d : Frontend PmemConfig) (w : World M G)
  : option (Frontend PmemConfig * World M G) :=
  '(qs, _, w') ← service_queue pmem_serve (fe_state d) (fe_queues d) 0 tt w;
  Some (fe_update d qs (fe_own d), w').

Definition pmem_process_queue (d : Frontend PmemConfig) (w : World M G) (queue_index : Z)
  : option (Frontend PmemConfig * World M G) :=
  if queue_index =? 0 then pmem_drain_requests d w else Some (d, w).

Definition pmem_config_space (c : PmemConfig) : list Z :=
  splice 8 (le_bytes 8 (pm_size_bytes c)) (splice 0 (le_bytes 8 (pm_guest_base c)) (repeat 0 16)).

#[export] Instance pmem_model : DeviceModel M G PmemConfig := {
  dm_type := DevPmem;
  dm_read_config c := config_read (pmem_config_space c);
  dm_process := pmem_process_queue
}.
End pmem.

(** ** virtio-mem *)

Definition REQ_PLUG : Z := 0.
Definition REQ_UNPLUG : Z := 1.
Definition REQ_UNPLUG_ALL : Z := 2.
Definition REQ_STATE : Z := 3.
Definition RESP_ACK : Z := 0.
Definition RESP_NACK : Z := 1.
Definition RESP_BUSY : Z := 2.
Definition RESP_ERROR : Z := 3.
Definition BLOCK_SIZE : Z := 2 * 1024 * 1024.
Definition MEM_QUEUE_MAX_SIZE : Z := 64.

Record MemConfig := mkMemConfig {
  mc_id : list Z;
  mc_region_base : Z;
  mc_region_size : Z;
  mc_requested_size : Z
}.

(** [MemHotplugBackend]; the error text only reaches the log. *)
Class MemHotplugBackend (B : Type) := {
  mh_plug : B -> Z -> Z -> B * result unit unit;
  mh_unplug : B -> Z -> Z -> B * result unit unit
}.

(** [InMemoryHotplugBackend]: the calls in order. *)
Definition InMemoryHotplugBackend : Type := list (bool * Z * Z).

#[export] Instance InMemoryHotplugBackend_backend : MemHotplugBackend InMemoryHotplugBackend := {
  mh_plug calls base len := (calls ++ [(true, base, len)], Ok tt);
  mh_unplug calls base len := (calls ++ [(false, base, len)], Ok tt)
}.

Record MemOwn (B : Type) := mkMemOwn { mo_config : MemConfig; mo_plugged : list bool; mo_backend : B }.
Arguments mkMemOwn {B}.
Arguments mo_config {B}.
Arguments mo_plugged {B}.
Arguments mo_backend {B}.

Definition block_index_of (region_base guest_addr : Z) : option nat :=
  if guest_addr <? region_base then None
  else
    let offset := guest_addr - region_base in
    if negb (offset mod BLOCK_SIZE =? 0) then None else Some (Z.to_nat (offset / BLOCK_SIZE)).

(** [for slot in &mut p[start..end] { *slot = v }]. *)
Definition set_blocks (p : list bool) (start n : nat) (v : bool) : list bool :=
  splice start (replicate n v) p.

Section mem.
Context {M G B : Type} `{!GuestMemory M} `{!Gic G} `{!MemHotplugBackend B}.

Definition mem_new (config : MemConfig) (backend : B) : Frontend (MemOwn B) :=
  mkFrontend 0 0 [Queue_new MEM_QUEUE_MAX_SIZE] ActiveState_default
    (mkMemOwn config (replicate (Z.to_nat (mc_region_size config / BLOCK_SIZE)) false) backend).

Definition plugged_block_count (p : list bool) : nat := length (List.filter id p).

Definition plug_inner (b : B) (p : list bool) (region_base guest_base nb_blocks : Z) : B * list bool * Z :=
  if nb_blocks =? 0 then (b, p, RESP_ACK)
  else
    let len := wmul 64 nb_blocks BLOCK_SIZE in
    match block_index_of region_base guest_base with
    | None => (b, p, RESP_NACK)
    | Some start =>
        if (length p <? start + Z.to_nat nb_blocks)%nat then (b, p, RESP_NACK)
        else
          match mh_plug b guest_base len with
          | (b', Err _) => (b', p, RESP_ERROR)
          | (b', Ok _) => (b', set_blocks p start (Z.to_nat nb_blocks) true, RESP_ACK)
          end
    end.

Definition unplug_inner (b : B) (p : list bool) (region_base guest_base nb_blocks : Z) : B * list bool * Z :=
  if nb_blocks =? 0 then (b, p, RESP_ACK)
  else
    let len := wmul 64 nb_blocks BLOCK_SIZE in
    match block_index_of region_base guest_base with
    | None => (b, p, RESP_NACK)
    | Some start =>
        if (length p <? start + Z.to_nat nb_blocks)%nat then (b, p, RESP_NACK)
        else
          match mh_unplug b guest_base len with
          | (b', Err _) => (b', p, RESP_ERROR)
          | (b', Ok _) => (b', set_blocks p start (Z.to_nat nb_blocks) false, RESP_ACK)
          end
    end.

(** The loop of [unplug_all_inner] from block [idx] on. *)
Fixpoint unplug_all_loop (b : B) (p : list bool) (region_base : Z) (idx : nat) : B * list bool * bool :=
  match p with
  | [] => (b, [], false)
  | slot :: rest =>
      let '(b1, slot', failed) :=
        if slot then
          match mh_unplug b (wadd 64 region_base (wmul 64 (Z.of_nat idx) BLOCK_SIZE)) BLOCK_SIZE with
          | (b1, Err _) => (b1, true, true)
          | (b1, Ok _) => (b1, false, false)
          end
        else (b, false, false) in
      let '(b2, rest', any) := unplug_all_loop b1 rest region_base (S idx) in
      (b2, slot' :: rest', failed || any)
  end.

Definition unplug_all_inner (b : B) (p : list bool) (region_base : Z) : B * list bool * Z :=
  let '(b', p', any_failed) := unplug_all_loop b p region_base 0 in
  (b', p', if any_failed then RESP_ERROR else RESP_ACK).

Definition dispatch_request (b : B) (p : list bool) (region_base req_type req_addr nb_blocks : Z)
  : B * list bool * Z :=
  if req_type =? REQ_PLUG then plug_inner b p region_base req_addr nb_blocks
  else if req_type =? REQ_UNPLUG then unplug_inner b p region_base req_addr nb_blocks
  else if req_type =? REQ_UNPLUG_ALL then unplug_all_inner b p region_base
  else if req_type =? REQ_STATE then (b, p, RESP_NACK)
  else (b, p, RESP_ERROR).

Definition issue_request (o : MemOwn B) (req_type req_addr nb_blocks : Z) : MemOwn B * Z :=
  let '(b, p, r) :=
    dispatch_request (mo_backend o) (mo_plugged o) (mc_region_base (mo_config o)) req_type req_addr nb_blocks in
  (mkMemOwn (mo_config o) p b, r).

Definition mem_respond (o : MemOwn B) (m : M) (descs : list Descriptor) : MemOwn B * M * Z :=
  match first_readable descs, first_writable descs with
  | Some req, Some resp =>
      let req_type := unwrap_or (read_u16_le m (d_addr req)) (2 ^ 16 - 1) in
      let req_addr := unwrap_or (read_u64_le m (wadd 64 (d_addr req) 8)) 0 in
      let nb_blocks := unwrap_or (read_u16_le m (wadd 64 (d_addr req) 16)) 0 in
      let '(o', resp_type) := issue_request o req_type req_addr nb_blocks in
      match write_u16_le m (d_addr resp) resp_type with
      | Ok m' => (o', m', 2)
      | Err _ => (o', m, 0)
      end
  | _, _ => (o, m, 0)
  end.

Definition mem_serve : MemOwn B -> M -> result QueueError (list Descriptor) -> MemOwn B * M * action :=
  on_chain (fun o m descs => let '(o', m', n) := mem_respond o m descs in (o', m', Push n)).

Definition mem_drain_requests (d : Frontend (MemOwn B)) (w : World M G)
  : option (Frontend (MemOwn B) * World M G) :=
  '(qs, o, w') ← service_queue mem_serve (fe_state d) (fe_queues d) 0 (fe_own d) w;
  Some (fe_update d qs o, w').

Definition mem_process_queue (d : Frontend (MemOwn B)) (w : World M G) (queue_index : Z)
  : option (Frontend (MemOwn B) * World M G) :=
  if queue_index =? 0 then mem_drain_requests d w else Some (d, w).

Definition mem_config_space (o : MemOwn B) : list Z :=
  let c := mo_config o in
  let plugged := wmul 64 (Z.of_nat (plugged_block_count (mo_plugged o))) BLOCK_SIZE in
  splice 48 (le_bytes 8 (mc_requested_size c))
    (splice 40 (le_bytes 8 plugged)
       (splice 32 (le_bytes 8 (mc_region_size c))
          (splice 24 (le_bytes 8 (mc_region_size c))
             (splice 16 (le_bytes 8 (mc_region_base c))
                (splice 0 (le_bytes 8 BLOCK_SIZE) (repeat 0 56)))))).

#[export] Instance mem_model : DeviceModel M G (MemOwn B) := {
  dm_type := DevMem;
  dm_read_config o := config_read (mem_config_space o);
  dm_process := mem_process_queue
}.
End mem.

(** ** virtio-balloon *)

Definition INFLATE_QUEUE : Z := 0.
Definition DEFLATE_QUEUE : Z := 1.
Definition STATS_QUEUE : Z := 2.
Definition F_STATS_VQ : Z := Z.shiftl 1 1.
Definition F_DEFLATE_ON_OOM : Z := Z.shiftl 1 2.
Definition BALLOON_QUEUE_MAX_SIZE : Z := 128.

Record BalloonConfig := mkBalloonConfig {
  ba_target_mib : Z;
  ba_deflate_on_oom : bool;
  ba_stats_polling_interval_s : Z
}.

(** The configuration and the page numbers parked in the balloon. *)
Record BalloonOwn := mkBalloonOwn { bo_config : BalloonConfig; bo_inflated : list Z }.

(** [Vec::swap_remove] at a valid index: the last element takes the place of
    the removed one. *)
Definition swap_remove (l : list Z) (i : nat) : list Z :=
  take (length l - 1) (<[i := List.last l 0]> l).

Fixpoint position (l : list Z) (x : Z) : option nat :=
  match l with
  | [] => None
  | y :: rest => if y =? x then Some O else S <$> position rest x
  end.

Section balloon.
Context {M G : Type} `{!GuestMemory M} `{!Gic G}.

Definition balloon_new (config : BalloonConfig) : Frontend BalloonOwn :=
  let stats := 0 <? ba_stats_polling_interval_s config in
  mkFrontend
    (if stats then Z.lor F_DEFLATE_ON_OOM F_STATS_VQ else F_DEFLATE_ON_OOM) 0
    ([Queue_new BALLOON_QUEUE_MAX_SIZE; Queue_new BALLOON_QUEUE_MAX_SIZE] ++
     (if stats then [Queue_new BALLOON_QUEUE_MAX_SIZE] else []))
    ActiveState_default (mkBalloonOwn config []).

(** One page number read from the inflate or the deflate queue. *)
Definition balloon_pfn (queue_index : Z) (pfns : list Z) (pfn : Z) : list Z :=
  if queue_index =? INFLATE_QUEUE then pfns ++ [pfn]
  else match position pfns pfn with Some pos => swap_remove pfns pos | None => pfns end.

(** The loop over the [entries] page numbers of a descriptor, from [i] on. *)
Fixpoint balloon_entries (queue_index : Z) (m : M) (addr : Z) (i : Z) (entries : nat) (pfns : list Z) : list Z :=
  match entries with
  | O => pfns
  | S n =>
      let pfns' :=
        match read_u32_le m (wadd 64 addr (i * 4)) with
        | Ok pfn => balloon_pfn queue_index pfns pfn
        | Err _ => pfns
        end in
      balloon_entries queue_index m addr (i + 1) n pfns'
  end.

Fixpoint balloon_descs (queue_index : Z) (m : M) (descs : list Descriptor) (pfns : list Z) : list Z :=
  match descs with
  | [] => pfns
  | desc :: rest =>
      balloon_descs queue_index m rest
        (balloon_entries queue_index m (d_addr desc) 0 (Z.to_nat (d_len desc / 4)) pfns)
  end.

Definition balloon_serve (queue_index : Z)
  : list Z -> M -> result QueueError (list Descriptor) -> list Z * M * action :=
  on_chain (fun pfns m descs => (balloon_descs queue_index m descs pfns, m, Push 0)).

Definition drain_pfn_queue (d : Frontend BalloonOwn) (w : World M G) (queue_index : Z)
  : option (Frontend BalloonOwn * World M G) :=
  '(qs, pfns, w') ← service_queue (balloon_serve queue_index) (fe_state d) (fe_queues d) (Z.to_nat queue_index)
     (bo_inflated (fe_own d)) w;
  Some (fe_update d qs (mkBalloonOwn (bo_config (fe_own d)) pfns), w').

(** The statistics queue: the chain is returned whatever it holds. *)
Definition stats_serve (u : unit) (m : M) (r : result QueueError (list Descriptor)) : unit * M * action :=
  (tt, m, Push 0).

Definition drain_stats_queue (d : Frontend BalloonOwn) (w : World M G) : option (Frontend BalloonOwn * World M G) :=
  '(qs, _, w') ← service_queue stats_serve (fe_state d) (fe_queues d) (Z.to_nat STATS_QUEUE) tt w;
  Some (fe_update d qs (fe_own d), w').

Definition balloon_process_queue (d : Frontend BalloonOwn) (w : World M G) (qi : Z)
  : option (Frontend BalloonOwn * World M G) :=
  if (qi =? INFLATE_QUEUE) || (qi =? DEFLATE_QUEUE) then drain_pfn_queue d w qi
  else if qi =? STATS_QUEUE then drain_stats_queue d w
  else Some (d, w).

Definition balloon_config_space (o : BalloonOwn) : list Z :=
  let target_pages := Z.min (ba_target_mib (bo_config o) * 256) (2 ^ 32 - 1) in
  let actual_pages := Z.min (zlen (bo_inflated o)) (2 ^ 32 - 1) in
  splice 4 (le_bytes 4 actual_pages) (splice 0 (le_bytes 4 target_pages) (repeat 0 16)).

#[export] Instance balloon_model : DeviceModel M G BalloonOwn := {
  dm_type := DevBalloon;
  dm_read_config o := config_read (balloon_config_space o);
  dm_process := balloon_process_queue
}.
End balloon.

(** ** The boot timer *)

(** [bt_elapsed] is the reading of the monotonic clock since construction, in
    microseconds, at the moment of the call. *)
Record BootTimer := mkBootTimer { bt_elapsed : Z }.

Definition boot_timer_new : Frontend BootTimer :=
  mkFrontend 0 0 [] ActiveState_default (mkBootTimer 0).

Definition elapsed_us (t : BootTimer) : Z := Z.min (bt_elapsed t) (2 ^ 32 - 1).

Definition boot_timer_read_config (t : BootTimer) (offset : Z) (data : list Z) : list Z :=
  if (offset =? 0) && (length data =? 4)%nat then le_bytes 4 (elapsed_us t) else map (fun _ => 0) data.

#[export] Instance boot_timer_model {M G} : DeviceModel M G BootTimer := {
  dm_type := DevBootTimer;
  dm_read_config := boot_timer_read_config;
  dm_process d w _ := Some (d, w)
}.

(** ** Loop bodies keep the laws of the loop *)

(** A response buffer with room for the answer. *)
Definition resp_room (n : Z) (d : Descriptor) : Prop := is_write_only d = true -> n <= d_len d.

Section laws.
Context {M G : Type} `{!GuestMemory M, !GuestMemoryLaws M} `{!Gic G}.
Implicit Types (m : M) (ds : list Descriptor).

Lemma write_flag_test d : (Z.land (d_flags d) VIRTQ_DESC_F_WRITE =? 0) = negb (is_write_only d).
Proof. unfold is_write_only. by rewrite negb_involutive. Qed.

Lemma saturating_in_u w a b : 0 < w -> in_u w a -> 0 <= b -> in_u w (saturating_add w a b).
Proof. intros Hw [? ?] ?. unfold saturating_add, in_u. pose proof (Z.pow_pos_nonneg 2 w). lia. Qed.

Lemma rng_fill_within {S} `{!EntropySource S, !EntropySourceLaws S} ds : forall (s : S) m n s' m' w,
  gm_wf m -> Forall desc_ok ds -> in_u 32 n -> rng_fill s m ds n = (s', m', w) ->
  stays_within ds m m' /\ in_u 32 w.
Proof.
  induction ds as [|d ds IH]; intros s m n s' m' w Hwf Hok Hn H; cbn [rng_fill] in H.
  { simplify_eq. by split; [apply stays_refl|]. }
  inversion Hok as [|? ? Hd Hok']; subst. rewrite write_flag_test in H.
  destruct (is_write_only d) eqn:Hw; cbn [negb] in H;
    [|destruct (IH _ _ _ _ _ _ Hwf Hok' Hn H); by split; [apply stays_cons|]].
  pose proof (es_length s (Z.to_nat (d_len d))) as Hl. pose proof (es_bytes s (Z.to_nat (d_len d))) as Hb.
  destruct (es_fill s _) as [s1 buf]. cbn [snd] in *.
  destruct (gm_write m (d_addr d) buf) as [m1|] eqn:Hg; [|simplify_eq; by split; [apply stays_refl|]].
  assert (Hs1 : stays_within (d :: ds) m m1).
  { apply (stays_write _ d m m1 buf); [done|by left|done|done| |done|done]. unfold zlen. destruct Hd. lia. }
  destruct (IH _ _ _ _ _ _ (proj1 Hs1) Hok' (saturating_in_u 32 n (d_len d) ltac:(lia) Hn (proj1 Hd)) H) as [Hs2 ?].
  split; [|done]. by eapply stays_trans, stays_cons.
Qed.

Lemma rng_laws {S} `{!EntropySource S, !EntropySourceLaws S} :
  serve_laws (rng_serve (M := M) (S := S)) any_desc (fun _ => True).
Proof.
  constructor.
  - intros s m ds s' m' act Hwf _ Hok _ H. unfold rng_serve, on_chain in H.
    destruct (rng_fill s m ds 0) as [[s1 m1] n] eqn:Hf. injection H as <- <- <-.
    destruct (rng_fill_within ds s m 0 s1 m1 n Hwf Hok ltac:(done) Hf) as [? ?].
    split_and!; [done..|by intros w [= <-]].
  - by intros s m e s' m' act _ [= <- <- <-].
Qed.

Lemma console_tx_written {S} `{!HostWriter S} ds : forall (sink : ConsoleSink S) m n sink' w,
  Forall desc_ok ds -> in_u 32 n -> console_tx sink m ds n = (sink', w) -> in_u 32 w.
Proof.
  induction ds as [|d ds IH]; intros sink m n sink' w Hok Hn H; cbn [console_tx] in H; [by simplify_eq|].
  inversion Hok as [|? ? [Hd _] Hok']; subst.
  destruct (is_write_only d); [by eapply IH, H|]. destruct (d_len d =? 0); [by eapply IH, H|].
  destruct (gm_read m _ _); [|by eapply IH, H]. eapply IH, H; [done|]. by apply saturating_in_u.
Qed.

Lemma console_laws {S} `{!HostWriter S} :
  serve_laws (console_serve (M := M) (S := S)) any_desc (fun _ => True).
Proof.
  constructor.
  - intros s m ds s' m' act Hwf _ Hok _ H. unfold console_serve, on_chain in H.
    destruct (console_tx s m ds 0) as [s1 n] eqn:Hf. injection H as <- <- <-.
    split_and!; [done|by apply stays_refl|intros w [= <-]]. by eapply console_tx_written.
  - by intros s m e s' m' act _ [= <- <- <-].
Qed.

(** A little-endian answer in the first device-writable buffer. *)
Lemma answer_within ds m m' k x resp :
  gm_wf m -> Forall desc_ok ds -> Forall (resp_room (Z.of_nat k)) ds -> first_writable ds = Some resp ->
  gm_write m (d_addr resp) (le_bytes k x) = Ok m' -> stays_within ds m m'.
Proof.
  intros Hwf Hok Hroom Hf Hw. apply List.find_some in Hf as [Hin Hwo].
  pose proof (proj1 (List.Forall_forall _ _) Hok resp Hin) as Hd.
  pose proof (proj1 (List.Forall_forall _ _) Hroom resp Hin Hwo) as Hr.
  eapply (stays_write ds resp m m' (le_bytes k x)); [done|by apply list_elem_of_In|done|done| |apply le_bytes_ok|done].
  unfold zlen. rewrite le_bytes_length. lia.
Qed.

Lemma pmem_laws : serve_laws (pmem_serve (M := M)) (resp_room 4) (fun _ => True).
Proof.
  constructor.
  - intros s m ds s' m' act Hwf _ Hok Hroom H. unfold pmem_serve, on_chain in H.
    destruct (pmem_respond m ds) as [m1 n] eqn:Hp. injection H as <- <- <-. split; [done|].
    unfold pmem_respond in Hp. destruct (first_readable ds) as [req|]; [|simplify_eq; split; [by apply stays_refl|by intros w [= <-]]].
    destruct (first_writable ds) as [resp|] eqn:Hf; [|simplify_eq; split; [by apply stays_refl|by intros w [= <-]]].
    unfold write_u32_le in Hp. destruct (gm_write m _ _) as [m2|] eqn:Hw; simplify_eq;
      (split; [|by intros w [= <-]]); [by eapply (answer_within ds m m1 4)|by apply stays_refl].
  - by intros s m e s' m' act _ [= <- <- <-].
Qed.

Lemma mem_laws {B} `{!MemHotplugBackend B} (inv : MemOwn B -> Prop) :
  (forall o ty addr nb, inv o -> inv (issue_request o ty addr nb).1) ->
  serve_laws (mem_serve (M := M) (B := B)) (resp_room 2) inv.
Proof.
  intros Hinv. constructor.
  - intros o m ds o' m' act Hwf Ho Hok Hroom H. unfold mem_serve, on_chain in H.
    destruct (mem_respond o m ds) as [[o1 m1] n] eqn:Hp. injection H as <- <- <-.
    unfold mem_respond in Hp.
    destruct (first_readable ds) as [req|];
      [|simplify_eq; split_and!; [done|by apply stays_refl|by intros w [= <-]]].
    destruct (first_writable ds) as [resp|] eqn:Hf;
      [|simplify_eq; split_and!; [done|by apply stays_refl|by intros w [= <-]]].
    match type of Hp with context [issue_request o ?t ?a ?n] => pose proof (Hinv o t a n Ho) as Hi end.
    destruct (issue_request _ _ _ _) as [o2 r]. cbn [fst] in Hi. unfold write_u16_le in Hp.
    destruct (gm_write m _ _) as [m2|] eqn:Hw; simplify_eq; (split_and!; [done| |by intros w [= <-]]);
      [by eapply (answer_within ds m m1 2)|by apply stays_refl].
  - by intros o m e o' m' act Ho [= <- <- <-].
Qed.

Lemma balloon_laws qi : serve_laws (balloon_serve (M := M) qi) any_desc (fun _ => True).
Proof.
  constructor.
  - intros s m ds s' m' act Hwf _ _ _ [= <- <- <-]. split_and!; [done|by apply stays_refl|by intros w [= <-]].
  - by intros s m e s' m' act _ [= <- <- <-].
Qed.

Lemma stats_laws : serve_laws (stats_serve (M := M)) any_desc (fun _ => True).
Proof.
  constructor.
  - intros s m ds s' m' act Hwf _ _ _ [= <- <- <-]. split_and!; [done|by apply stays_refl|by intros w [= <-]].
  - intros s m e s' m' act _ [= <- <- <-]. split_and!; [done..|by intros w [= <-]].
Qed.
End laws.

(** ** The devices keep the promises of the transport's interface *)

Section models.
Context {M G : Type} `{!GuestMemory M} `{!Gic G}.

Lemma update_keeps {C D} (d d' : Frontend C) (w w' : World M G) i (x : D) serve (f : D -> C) :
  ('(qs, s, w1) ← service_queue serve (fe_state d) (fe_queues d) i x w; Some (fe_update d qs (f s), w1)) = Some (d', w') ->
  fe_avail d' = fe_avail d /\ fe_acked d' = fe_acked d /\ fe_state d' = fe_state d /\
  length (fe_queues d') = length (fe_queues d).
Proof.
  destruct (service_queue serve _ _ i x w) as [[[qs s] w1]|] eqn:E; [|done]. cbn. intros [= <- <-].
  apply service_queue_length in E. done.
Qed.

#[export] Instance rng_model_laws {S} `{!EntropySource S} : DeviceModelLaws M G S.
Proof.
  split. intros d d' w w' i. cbn. unfold rng_process_queue. destruct (negb _); [by intros [= <- <-]|].
  apply (update_keeps d d' w w' 0 (fe_own d) rng_serve id).
Qed.

#[export] Instance console_model_laws {S} `{!HostWriter S} : DeviceModelLaws M G (ConsoleSink S).
Proof.
  split. intros d d' w w' i. cbn. unfold console_process_queue, console_drain_tx.
  destruct (_ =? _); [|by intros [= <- <-]]. apply (update_keeps d d' w w' _ (fe_own d) console_serve id).
Qed.

#[export] Instance pmem_model_laws : DeviceModelLaws M G PmemConfig.
Proof.
  split. intros d d' w w' i. cbn. unfold pmem_process_queue, pmem_drain_requests.
  destruct (_ =? _); [|by intros [= <- <-]]. apply (update_keeps d d' w w' 0 tt pmem_serve (fun _ => fe_own d)).
Qed.

#[export] Instance mem_model_laws {B} `{!MemHotplugBackend B} : DeviceModelLaws M G (MemOwn B).
Proof.
  split. intros d d' w w' i. cbn. unfold mem_process_queue, mem_drain_requests.
  destruct (_ =? _); [|by intros [= <- <-]]. apply (update_keeps d d' w w' 0 (fe_own d) mem_serve id).
Qed.

#[export] Instance balloon_model_laws : DeviceModelLaws M G BalloonOwn.
Proof.
  split. intros d d' w w' i. cbn. unfold balloon_process_queue, drain_pfn_queue, drain_stats_queue.
  destruct (_ || _).
  { apply (update_keeps d d' w w' _ (bo_inflated (fe_own d)) (balloon_serve i) (mkBalloonOwn (bo_config (fe_own d)))). }
  destruct (i =? STATS_QUEUE); [|by intros [= <- <-]].
  apply (update_keeps d d' w w' _ tt stats_serve (fun _ => fe_own d)).
Qed.

#[export] Instance boot_timer_model_laws : DeviceModelLaws M G BootTimer.
Proof. split. by intros d d' w w' i [= <- <-]. Qed.

(** ** Panics *)

(** The number of queues each constructor creates is what [process_queue]
    indexes, except for the balloon: notifying the statistics queue of a
    balloon built without one indexes past the end of the vector. *)
Lemma balloon_panics_iff d (w : World M G) i :
  (2 <= length (fe_queues d))%nat ->
  balloon_process_queue d w i = None <->
  i = STATS_QUEUE /\ length (fe_queues d) = 2%nat /\ as_mem (fe_state d) = true /\ as_irq (fe_state d) = true.
Proof.
  intros Hlen. unfold balloon_process_queue, drain_pfn_queue, drain_stats_queue, INFLATE_QUEUE, DEFLATE_QUEUE, STATS_QUEUE.
  assert (Hsome : forall (x : option (list Queue * list Z * World M G)) c,
    is_Some x -> ('(qs, pfns, w') ← x; Some (fe_update d qs (mkBalloonOwn c pfns), w')) = None -> False).
  { by intros ? c [[[qs s] w1] ->]. }
  destruct (Z.eqb_spec i 0) as [->|H0]; cbn [orb].
  { split; [|by intros [? _]]. intros H. exfalso. eapply Hsome, H. apply service_queue_total. cbn. lia. }
  destruct (Z.eqb_spec i 1) as [->|H1].
  { split; [|by intros [? _]]. intros H. exfalso. eapply Hsome, H. apply service_queue_total. cbn. lia. }
  destruct (Z.eqb_spec i 2) as [->|H2]; [|split; [done|by intros [? _]]].
  unfold service_queue. destruct (as_mem (fe_state d)), (as_irq (fe_state d)); cbn [andb]; try (split; [done|by intros (_ & _ & ? & ?)]).
  change (Z.to_nat 2) with 2%nat. destruct (fe_queues d !! 2%nat) as [q|] eqn:E.
  - apply lookup_lt_Some in E. destruct (queue_loop _ _ _) as [[[[q' m'] d1] c] f]. cbn.
    split; [done|]. intros (_ & E2 & _). lia.
  - apply lookup_ge_None in E. split; [|done]. intros _. split_and!; [done|lia|done..].
Qed.
End models.

(** ** Memory hotplug *)

(** What a backend that really maps memory promises: a successful call maps or
    unmaps its range, a refused one changes nothing. *)
Class HotplugLaws (B : Type) `{!MemHotplugBackend B} := {
  mh_mapped : B -> Z -> bool;
  mh_plug_effect : forall b base len b' r, mh_plug b base len = (b', r) ->
    forall a, mh_mapped b' a =
      match r with Ok _ => (base <=? a) && (a <? base + len) || mh_mapped b a | Err _ => mh_mapped b a end;
  mh_unplug_effect : forall b base len b' r, mh_unplug b base len = (b', r) ->
    forall a, mh_mapped b' a =
      match r with Ok _ => negb ((base <=? a) && (a <? base + len)) && mh_mapped b a | Err _ => mh_mapped b a end
}.

(** The recording backend, read as a memory map: the last call that covers an
    address decides. *)
Definition replay_calls (calls : InMemoryHotplugBackend) (a : Z) : bool :=
  foldl (fun acc '(plug, base, len) => if (base <=? a) && (a <? base + len) then plug else acc) false calls.

#[export] Instance InMemoryHotplugBackend_laws : HotplugLaws InMemoryHotplugBackend.
Proof.
  refine {| mh_mapped := replay_calls |}; cbn; intros calls base len b' r [= <- <-] a;
    unfold replay_calls; rewrite foldl_app; cbn; by destruct (_ && _).
Defined.

Section hotplug.
Context {B : Type} `{!MemHotplugBackend B, !HotplugLaws B}.
Implicit Types (o : MemOwn B) (b : B) (p : list bool).

Definition block_base o (i : nat) : Z := mc_region_base (mo_config o) + Z.of_nat i * BLOCK_SIZE.

(** The bitmap is the memory map of the region. *)
Record hotplug_inv o : Prop := {
  hi_base : 0 <= mc_region_base (mo_config o);
  hi_fit : block_base o (length (mo_plugged o)) <= 2 ^ 64;
  hi_track : forall i slot, mo_plugged o !! i = Some slot -> mh_mapped (mo_backend o) (block_base o i) = slot
}.

Lemma block_index_exact base addr i :
  block_index_of base addr = Some i <-> addr = base + Z.of_nat i * BLOCK_SIZE.
Proof.
  unfold block_index_of, BLOCK_SIZE. destruct (Z.ltb_spec addr base); [split; [done|lia]|].
  destruct (Z.eqb_spec ((addr - base) mod (2 * 1024 * 1024)) 0) as [E|E]; cbn [negb].
  - pose proof (Z.div_mod (addr - base) (2 * 1024 * 1024) ltac:(lia)) as Hd.
    assert (0 <= (addr - base) / (2 * 1024 * 1024)) by (apply Z.div_pos; lia).
    split; [intros [= <-]; lia|]. intros ->. f_equal.
    replace (base + Z.of_nat i * (2 * 1024 * 1024) - base) with (Z.of_nat i * (2 * 1024 * 1024)) by lia.
    rewrite Z.div_mul by lia. lia.
  - split; [done|]. intros ->. exfalso. apply E.
    replace (base + Z.of_nat i * (2 * 1024 * 1024) - base) with (Z.of_nat i * (2 * 1024 * 1024)) by lia.
    apply Z.mod_mul. lia.
Qed.

Lemma set_blocks_lookup p start n v i :
  (start + n <= length p)%nat ->
  set_blocks p start n v !! i = if decide (start <= i < start + n)%nat then Some v else p !! i.
Proof.
  intros Hl. unfold set_blocks. rewrite splice_lookup by (rewrite length_replicate; lia).
  rewrite length_replicate. case_decide; [|done]. rewrite lookup_replicate_2; [done|lia].
Qed.

(** Whether block [j] lies in a mapped or unmapped range of [n] blocks. *)
Lemma block_in_range base start n j :
  ((base + Z.of_nat start * BLOCK_SIZE <=? base + Z.of_nat j * BLOCK_SIZE) &&
   (base + Z.of_nat j * BLOCK_SIZE <? base + Z.of_nat start * BLOCK_SIZE + n * BLOCK_SIZE))
  = bool_decide (start <= j < start + Z.to_nat n)%nat.
Proof.
  unfold BLOCK_SIZE. destruct (bool_decide_reflect (start <= j < start + Z.to_nat n)%nat);
    destruct (Z.leb_spec (base + Z.of_nat start * (2 * 1024 * 1024)) (base + Z.of_nat j * (2 * 1024 * 1024)));
    destruct (Z.ltb_spec (base + Z.of_nat j * (2 * 1024 * 1024))
                (base + Z.of_nat start * (2 * 1024 * 1024) + n * (2 * 1024 * 1024))); cbn; try done; lia.
Qed.

(** What a plug or unplug request does, by outcome. *)
Definition range_outcome (v : bool) o (addr nb : Z) (o' : MemOwn B) (r : Z) : Prop :=
  mo_config o' = mo_config o /\
  (nb = 0 /\ r = RESP_ACK /\ o' = o \/
   nb <> 0 /\ r = RESP_NACK /\ o' = o /\
     (forall start, addr = block_base o start -> (length (mo_plugged o) < start + Z.to_nat nb)%nat) \/
   nb <> 0 /\ exists start, addr = block_base o start /\ (start + Z.to_nat nb <= length (mo_plugged o))%nat /\
     (r = RESP_ERROR /\ mo_plugged o' = mo_plugged o \/
      r = RESP_ACK /\ mo_plugged o' = set_blocks (mo_plugged o) start (Z.to_nat nb) v)).

Lemma range_request_exact (v : bool) o addr nb :
  hotplug_inv o -> in_u 16 nb ->
  let '(b', p', r) := (if v then plug_inner else unplug_inner)
     (mo_backend o) (mo_plugged o) (mc_region_base (mo_config o)) addr nb in
  hotplug_inv (mkMemOwn (mo_config o) p' b') /\ range_outcome v o addr nb (mkMemOwn (mo_config o) p' b') r.
Proof.
  intros [Hb Hf Ht] [Hn0 Hn1]. unfold range_outcome, block_base in *. set (base := mc_region_base (mo_config o)) in *.
  assert (Hlen : wmul 64 nb BLOCK_SIZE = nb * BLOCK_SIZE) by (apply wrap_small; unfold BLOCK_SIZE in *; split; lia).
  assert (Ho : forall b p, mo_backend o = b -> mo_plugged o = p -> mkMemOwn (mo_config o) p b = o) by (intros; subst; by destruct o).
  assert (Hstart : forall start b', (start + Z.to_nat nb <= length (mo_plugged o))%nat ->
    (forall a, mh_mapped b' a = if (base + Z.of_nat start * BLOCK_SIZE <=? a) && (a <? base + Z.of_nat start * BLOCK_SIZE + nb * BLOCK_SIZE)
       then v else mh_mapped (mo_backend o) a) ->
    hotplug_inv (mkMemOwn (mo_config o) (set_blocks (mo_plugged o) start (Z.to_nat nb) v) b')).
  { intros start b' Hs Hm. constructor; unfold block_base; cbn [mo_config mo_plugged mo_backend]; fold base; [done| |].
    - unfold set_blocks. rewrite splice_length; [done|rewrite length_replicate; lia].
    - intros i slot. rewrite set_blocks_lookup, Hm, block_in_range by done.
      case_decide; [rewrite bool_decide_eq_true_2 by done; by intros [= <-]|].
      rewrite bool_decide_eq_false_2 by done. apply Ht. }
  assert (Herr : forall b', (forall a, mh_mapped b' a = mh_mapped (mo_backend o) a) ->
    hotplug_inv (mkMemOwn (mo_config o) (mo_plugged o) b')).
  { intros b' Hm. constructor; cbn; [done..|]. intros i slot Hl. rewrite Hm. by apply Ht. }
  assert (Hi : forall start, block_index_of base addr = Some start <-> addr = base + Z.of_nat start * BLOCK_SIZE)
    by (intros; apply block_index_exact).
  destruct v; unfold plug_inner, unplug_inner; fold base; rewrite Hlen.
  all: destruct (Z.eqb_spec nb 0) as [->|Hnz]; [split; [by apply Herr|]; split; [done|]; left; by rewrite Ho|].
  all: destruct (block_index_of base addr) as [start|] eqn:E;
    [|split; [by apply Herr|]; split; [done|]; right; left; rewrite Ho by done; split_and!; try done;
      intros start Hs; apply Hi in Hs; done].
  all: pose proof (proj1 (Hi start) eq_refl) as Ha.
  all: destruct (Nat.ltb_spec (length (mo_plugged o)) (start + Z.to_nat nb));
    [split; [by apply Herr|]; split; [done|]; right; left; rewrite Ho by done; split_and!; try done;
      intros start' Hs; apply Hi in Hs; by simplify_eq|].
  1: destruct (mh_plug _ _ _) as [b' r] eqn:Hp; pose proof (mh_plug_effect _ _ _ _ _ Hp) as Hm.
  2: destruct (mh_unplug _ _ _) as [b' r] eqn:Hp; pose proof (mh_unplug_effect _ _ _ _ _ Hp) as Hm.
  all: destruct r as [u|e]; (split; [|split; [done|]; right; right; split; [done|]; exists start; auto]);
    [|by apply Herr].
  all: apply Hstart; [done|]; intros a; rewrite Hm, <- Ha; by destruct ((addr <=? a) && (a <? addr + nb * BLOCK_SIZE)).
Qed.

Lemma unplug_all_exact base p : forall b idx b' p' any,
  0 <= base -> base + Z.of_nat (idx + length p) * BLOCK_SIZE <= 2 ^ 64 ->
  (forall i slot, p !! i = Some slot -> mh_mapped b (base + Z.of_nat (idx + i) * BLOCK_SIZE) = slot) ->
  unplug_all_loop b p base idx = (b', p', any) ->
  length p' = length p /\
  (forall i slot, p' !! i = Some slot -> mh_mapped b' (base + Z.of_nat (idx + i) * BLOCK_SIZE) = slot) /\
  (forall a, a < base + Z.of_nat idx * BLOCK_SIZE -> mh_mapped b' a = mh_mapped b a) /\
  (any = false -> p' = replicate (length p) false).
Proof.
  induction p as [|slot p IH]; intros b idx b' p' any Hb Hf Ht H; cbn [unplug_all_loop] in H; [by simplify_eq|].
  cbn [length] in Hf. pose proof (Ht O slot eq_refl) as Ht0. rewrite Nat.add_0_r in Ht0.
  assert (Ea : wadd 64 base (wmul 64 (Z.of_nat idx) BLOCK_SIZE) = base + Z.of_nat idx * BLOCK_SIZE).
  { unfold wmul, BLOCK_SIZE in *. rewrite (wrap_small 64 (Z.of_nat idx * _)) by (split; lia). apply wrap_small. split; lia. }
  rewrite Ea in H.
  assert (Hstep : forall b1 slot' failed,
    (if slot then match mh_unplug b (base + Z.of_nat idx * BLOCK_SIZE) BLOCK_SIZE with
       (b1, Ok _) => (b1, false, false) | (b1, Err _) => (b1, true, true) end else (b, false, false)) = (b1, slot', failed) ->
    (forall a, a < base + Z.of_nat idx * BLOCK_SIZE \/ base + Z.of_nat (S idx) * BLOCK_SIZE <= a -> mh_mapped b1 a = mh_mapped b a) /\
    mh_mapped b1 (base + Z.of_nat idx * BLOCK_SIZE) = slot' /\ (failed = false -> slot' = false)).
  { intros b1 slot' failed. destruct slot; [|by intros [= <- <- <-]].
    destruct (mh_unplug _ _ _) as [b2 r] eqn:Hu. pose proof (mh_unplug_effect _ _ _ _ _ Hu) as Hm.
    destruct r as [u|e]; intros [= <- <- <-]; cbn in Hm; (split; [|split; [|done]]).
    - intros a Ha. rewrite Hm. unfold BLOCK_SIZE in *.
      destruct (Z.leb_spec (base + Z.of_nat idx * (2 * 1024 * 1024)) a), (Z.ltb_spec a (base + Z.of_nat idx * (2 * 1024 * 1024) + 2 * 1024 * 1024)); cbn; try done; lia.
    - rewrite Hm, Z.leb_refl, (proj2 (Z.ltb_lt _ _)); [done|unfold BLOCK_SIZE; lia].
    - done.
    - by rewrite Hm. }
  destruct (if slot then _ else _) as [[b1 slot'] failed]. destruct (Hstep b1 slot' failed eq_refl) as (Hm & H0 & Hfl).
  destruct (unplug_all_loop b1 p base (S idx)) as [[b2 p2] any2] eqn:Hl. simplify_eq.
  destruct (IH b1 (S idx) b' p2 any2 Hb) as (L1 & L2 & L3 & L4).
  { unfold BLOCK_SIZE in *. lia. }
  { intros i s Hi. rewrite Hm by (right; unfold BLOCK_SIZE; lia).
    replace (S idx + i)%nat with (idx + S i)%nat by lia. by apply Ht. }
  { done. }
  split_and!; [cbn; by rewrite L1| | |].
  - intros [|i] s Hi; cbn in Hi.
    + simplify_eq. rewrite Nat.add_0_r, L3 by (unfold BLOCK_SIZE; lia). done.
    + replace (idx + S i)%nat with (S idx + i)%nat by lia. by apply L2.
  - intros a Ha. rewrite L3 by (unfold BLOCK_SIZE in *; lia). apply Hm. by left.
  - intros [Hf1 Hf2]%orb_false_elim. cbn. f_equal; [by apply Hfl|by apply L4].
Qed.

(** Every request keeps the bitmap and the memory map in step. *)
Lemma issue_request_inv o ty addr nb :
  hotplug_inv o -> in_u 16 nb -> hotplug_inv (issue_request o ty addr nb).1.
Proof.
  intros Ho Hn. unfold issue_request, dispatch_request.
  pose proof (range_request_exact true o addr nb Ho Hn) as Hp. pose proof (range_request_exact false o addr nb Ho Hn) as Hu.
  cbv iota in Hp, Hu.
  assert (Hid : forall r, hotplug_inv (let '(b, p, r) := (mo_backend o, mo_plugged o, r : Z) in (mkMemOwn (mo_config o) p b, r)).1)
    by (intros r; by destruct o).
  destruct (ty =? REQ_PLUG); [destruct (plug_inner _ _ _ _ _) as [[b p] r]; apply Hp|].
  destruct (ty =? REQ_UNPLUG); [destruct (unplug_inner _ _ _ _ _) as [[b p] r]; apply Hu|].
  destruct (ty =? REQ_UNPLUG_ALL); [|by destruct (ty =? REQ_STATE)].
  unfold unplug_all_inner. destruct (unplug_all_loop _ _ _ _) as [[b p] any] eqn:Hl.
  destruct Ho as [Hb Hf Ht]. apply unplug_all_exact in Hl as (L1 & L2 & _); [|done|done|done].
  constructor; unfold block_base in *; cbn; [done|by rewrite L1|done].
Qed.

Lemma mem_serve_keeps {M} `{!GuestMemory M, !GuestMemoryLaws M} : serve_keeps (mem_serve (M := M) (B := B)) hotplug_inv.
Proof.
  intros o m r o' m' act Hwf Ho H. unfold mem_serve, on_chain in H. destruct r as [ds|e]; [|by simplify_eq].
  unfold mem_respond in H.
  destruct (first_readable ds) as [req|]; [|by simplify_eq]. destruct (first_writable ds) as [resp|]; [|by simplify_eq].
  set (ty := unwrap_or (read_u16_le m _) _) in *. set (addr := unwrap_or (read_u64_le m _) _) in *.
  assert (Hnb : in_u 16 (unwrap_or (read_u16_le m (wadd 64 (d_addr req) 16)) 0)).
  { destruct (read_u16_le m (wadd 64 (d_addr req) 16)) eqn:E; cbn; [exact (read_u16_in_u m _ _ Hwf E)|done]. }
  pose proof (issue_request_inv o ty addr _ Ho Hnb) as Hi.
  destruct (issue_request _ _ _ _) as [o1 r]. cbn [fst] in Hi. unfold write_u16_le in H.
  destruct (gm_write m _ _) as [m1|] eqn:Hw; simplify_eq; [|done]. split; [|done]. by eapply gm_write_le_wf.
Qed.

Lemma mem_new_inv config b :
  0 <= mc_region_base config -> 0 <= mc_region_size config ->
  mc_region_base config + mc_region_size config <= 2 ^ 64 -> (forall a, mh_mapped b a = false) ->
  hotplug_inv (fe_own (mem_new config b)).
Proof.
  intros Hb Hs Hf Hm. constructor; unfold block_base; cbn; [done| |].
  - rewrite length_replicate. pose proof (Z.mul_div_le (mc_region_size config) BLOCK_SIZE ltac:(done)).
    pose proof (Z.div_pos (mc_region_size config) BLOCK_SIZE Hs ltac:(done)). lia.
  - intros i slot [-> _]%lookup_replicate. apply Hm.
Qed.

End hotplug.

(** ** The balloon as a multiset of page numbers *)

Definition pfn_count (l : list Z) (p : Z) : nat := count_occ Z.eq_dec l p.

Lemma pfn_count_cons l x p : pfn_count (x :: l) p = ((if decide (x = p) then 1 else 0) + pfn_count l p)%nat.
Proof. unfold pfn_count. cbn. destruct (Z.eq_dec x p); case_decide; done. Qed.

Lemma pfn_count_app l1 l2 p : pfn_count (l1 ++ l2) p = (pfn_count l1 p + pfn_count l2 p)%nat.
Proof. apply count_occ_app. Qed.

Lemma position_split l x i :
  position l x = Some i -> exists l1 l2, l = l1 ++ x :: l2 /\ length l1 = i.
Proof.
  revert i. induction l as [|y l IH]; intros i H; cbn in H; [done|].
  destruct (Z.eqb_spec y x) as [->|]; [injection H as <-; by exists [], l|].
  destruct (position l x) as [j|]; [|done]. cbn in H. injection H as <-.
  destruct (IH j eq_refl) as (l1 & l2 & -> & <-). by exists (y :: l1), l2.
Qed.

Lemma position_none l x : position l x = None -> pfn_count l x = O.
Proof.
  induction l as [|y l IH]; intros H; cbn in H; [done|]. rewrite pfn_count_cons.
  destruct (Z.eqb_spec y x); [done|]. destruct (position l x); [done|]. by rewrite IH, decide_False.
Qed.

(** Removing by swapping with the last element removes one occurrence. *)
Lemma swap_remove_perm l1 x l2 : swap_remove (l1 ++ x :: l2) (length l1) ≡ₚ l1 ++ l2.
Proof.
  unfold swap_remove. rewrite insert_app_r_alt, Nat.sub_diag by lia. cbn [insert list_insert].
  replace (length (l1 ++ x :: l2) - 1)%nat with (length l1 + length l2)%nat by (rewrite length_app; cbn; lia).
  rewrite take_app_ge, Nat.add_sub' by lia. apply Permutation_app_head.
  destruct l2 as [|z l2] using rev_ind; [done|].
  replace (List.last (l1 ++ x :: l2 ++ [z]) 0) with z
    by (rewrite app_comm_cons, app_assoc; symmetry; apply List.last_last).
  rewrite length_app, Nat.add_1_r. cbn [length take].
  rewrite take_app_le by lia. rewrite take_ge by lia. apply Permutation_cons_append.
Qed.

Lemma balloon_pfn_count qi l x p :
  pfn_count (balloon_pfn qi l x) p =
  if qi =? INFLATE_QUEUE then (pfn_count l p + pfn_count [x] p)%nat else (pfn_count l p - pfn_count [x] p)%nat.
Proof.
  unfold balloon_pfn. destruct (qi =? INFLATE_QUEUE); [apply pfn_count_app|].
  destruct (position l x) as [i|] eqn:Hp.
  - apply position_split in Hp as (l1 & l2 & -> & <-).
    rewrite (proj1 (Permutation_count_occ Z.eq_dec _ _) (swap_remove_perm l1 x l2) p : pfn_count _ p = _).
    change (pfn_count (l1 ++ l2) p = (pfn_count (l1 ++ x :: l2) p - pfn_count [x] p)%nat).
    rewrite !pfn_count_app, !pfn_count_cons. cbn. lia.
  - rewrite pfn_count_cons. case_decide as E; [|cbn; lia]. subst p. apply position_none in Hp. lia.
Qed.

Section balloon_proofs.
Context {M : Type} `{!GuestMemory M}.

(** The page numbers a chain carries, in order. *)
Definition desc_pfns (m : M) (d : Descriptor) : list Z :=
  omap (fun i => match read_u32_le m (wadd 64 (d_addr d) (Z.of_nat i * 4)) with Ok p => Some p | Err _ => None end)
    (seq 0 (Z.to_nat (d_len d / 4))).

Definition chain_pfns (m : M) (ds : list Descriptor) : list Z := concat (map (desc_pfns m) ds).

Lemma balloon_entries_fold qi m addr n : forall i pfns,
  balloon_entries qi m addr (Z.of_nat i) n pfns =
  foldl (balloon_pfn qi) pfns
    (omap (fun i => match read_u32_le m (wadd 64 addr (Z.of_nat i * 4)) with Ok p => Some p | Err _ => None end) (seq i n)).
Proof.
  induction n as [|n IH]; intros i pfns; [done|]. cbn [balloon_entries seq].
  replace (Z.of_nat i + 1) with (Z.of_nat (S i)) by lia. rewrite IH. cbn.
  by destruct (read_u32_le m _).
Qed.

Lemma balloon_descs_fold qi m ds : forall pfns,
  balloon_descs qi m ds pfns = foldl (balloon_pfn qi) pfns (chain_pfns m ds).
Proof.
  induction ds as [|d ds IH]; intros pfns; [done|]. cbn [balloon_descs]. rewrite IH.
  change 0 with (Z.of_nat 0). rewrite balloon_entries_fold. unfold chain_pfns. cbn [map concat].
  by rewrite foldl_app.
Qed.

Lemma balloon_fold_count qi ps : forall l p,
  pfn_count (foldl (balloon_pfn qi) l ps) p =
  if qi =? INFLATE_QUEUE then (pfn_count l p + pfn_count ps p)%nat else (pfn_count l p - pfn_count ps p)%nat.
Proof.
  induction ps as [|x ps IH]; intros l p; cbn [foldl]; [cbn; destruct (_ =? _); lia|].
  rewrite IH, balloon_pfn_count. change (x :: ps) with ([x] ++ ps). rewrite pfn_count_app.
  destruct (_ =? _); lia.
Qed.
End balloon_proofs.

(** ** What the devices do with the chains a driver publishes *)

(** Buffers inside the address space and off the used ring. *)
Definition plain_buffers (q : Queue) (ds : list Descriptor) : Prop :=
  clear_of_used q ds /\ Forall (fun d => 0 <= d_addr d /\ d_addr d + d_len d <= 2 ^ 64) ds.

(** A host writer that keeps everything it is given. *)
#[export] Instance buffer_writer : HostWriter (list Z) := app.

Section published.
Context {M G : Type} `{!GuestMemory M, !GuestMemoryLaws M} `{!Gic G}.
Implicit Types (m : M) (q : Queue) (w : World M G).

Lemma chain_pfns_same q m0 m ds :
  same_outside q m0 m -> Forall desc_ok ds -> plain_buffers q ds -> chain_pfns m ds = chain_pfns m0 ds.
Proof.
  intros Hs Hok [Hc Hb]. unfold chain_pfns. f_equal. apply map_ext_in. intros d Hd.
  unfold clear_of_used in Hc. rewrite Forall_forall in Hok, Hc, Hb.
  destruct (Hok d Hd) as [Hl _]. specialize (Hc d Hd). specialize (Hb d Hd). cbn in Hc, Hb.
  unfold desc_pfns. apply list_omap_ext, Forall_Forall2_diag, Forall_forall. intros i Hi%in_seq. pose proof (Z.mul_div_le (d_len d) 4 ltac:(lia)).
  unfold read_u32_le. rewrite wadd64_small by lia. rewrite Hs; [done|]. unfold disjoint_range in *. lia.
Qed.

Lemma console_tx_same {S} `{!HostWriter S} q m0 m ds : forall (s : ConsoleSink S) n,
  same_outside q m0 m -> Forall desc_ok ds -> clear_of_used q ds ->
  console_tx s m ds n = console_tx s m0 ds n.
Proof.
  induction ds as [|d ds IH]; intros s n Hs Hok Hc; [done|].
  inversion Hok as [|? ? [Hd _] Hok']; inversion Hc as [|? ? Hc1 Hc']; subst. cbn [console_tx].
  destruct (is_write_only d); [by apply IH|]. destruct (d_len d =? 0); [by apply IH|].
  rewrite Hs by (by rewrite Z2Nat.id). destruct (gm_read m0 _ _); by apply IH.
Qed.

(** The balloon holds what the guest parked.  For the chains a driver has
    published on the inflate or the deflate queue, processing the queue adds, or
    removes as far as present, each page number as often as the chains name it,
    returns every chain and interrupts the guest if there were any. *)
Theorem balloon_exact (d : Frontend BalloonOwn) w qi q cs :
  fe_state d = mkActive true true true -> (qi = INFLATE_QUEUE \/ qi = DEFLATE_QUEUE) ->
  fe_queues d !! Z.to_nat qi = Some q -> layout any_desc q (w_mem w) -> published q (w_mem w) cs ->
  Forall (fun c => plain_buffers q c.2) cs -> is_power_of_two (size q) = true -> zlen cs <= size q ->
  exists d' w', balloon_process_queue d w qi = Some (d', w') /\
    (forall p, let named := pfn_count (concat (map (chain_pfns (w_mem w)) cs.*2)) p in
       pfn_count (bo_inflated (fe_own d')) p =
       if qi =? INFLATE_QUEUE then (pfn_count (bo_inflated (fe_own d)) p + named)%nat
       else (pfn_count (bo_inflated (fe_own d)) p - named)%nat) /\
    (forall j h, cs.*1 !! j = Some h -> exists n, used_elem q (w_mem w') (used_slot q j) = Ok (h, n)) /\
    (cs <> [] -> used_idx q (w_mem w') = Ok (wrap 16 (next_used_idx q + zlen cs))) /\
    w_irq w' = (if bool_decide (cs = []) then w_irq w else (trigger_queue (w_irq w)).1).
Proof.
  intros Hst Hqi Hq L Hpub Hg Hp2 Hlen.
  destruct (service_queue_reads (balloon_serve qi) any_desc (plain_buffers q)
    (fun l ds => (foldl (balloon_pfn qi) l (chain_pfns (w_mem w) ds), Push 0)) (fe_queues d) (Z.to_nat qi) q
    (bo_inflated (fe_own d)) w cs (balloon_laws qi)) as (q' & m' & Hs & Hu & Hi & Hpop & _); try done.
  { intros l m ds Hso Hok Hpl. cbn. by rewrite balloon_descs_fold, (chain_pfns_same q (w_mem w)). }
  { clear. generalize (bo_inflated (fe_own d)). induction cs as [|c cs IH]; intros l; cbn; eauto. }
  assert (Hb : (qi =? INFLATE_QUEUE) || (qi =? DEFLATE_QUEUE) = true) by (by destruct Hqi as [-> | ->]).
  unfold balloon_process_queue, drain_pfn_queue. rewrite Hb, Hst, Hs. cbn.
  eexists _, _. split; [reflexivity|]. cbn. split_and!; try done.
  intros p. rewrite <- balloon_fold_count. f_equal. clear. generalize (bo_inflated (fe_own d)).
  induction cs as [|c cs IH]; intros l; [done|]. cbn [fmap list_fmap foldl map concat].
  by rewrite IH, foldl_app.
Qed.

Lemma console_tx_stream out ds : forall m n,
  exists n', console_tx (SinkWriter out) m ds n = (SinkWriter (out ++ concat_readable m ds), n').
Proof.
  revert out. induction ds as [|d ds IH]; intros out m n; cbn [console_tx concat_readable].
  { exists n. by rewrite app_nil_r. }
  destruct (is_write_only d); [apply IH|]. destruct (Z.eqb_spec (d_len d) 0) as [E|E].
  - rewrite E. destruct (gm_read m (d_addr d) _) as [buf|] eqn:Hr; [|apply IH].
    apply gm_read_length, nil_length_inv in Hr as ->. apply IH.
  - destruct (gm_read m (d_addr d) _) as [buf|]; [|apply IH]. cbn [sink_write].
    destruct (IH (out ++ buf) m (saturating_add 32 n (d_len d))) as [n' Hn]. exists n'.
    rewrite app_assoc. exact Hn.
Qed.

(** The console prints what the guest transmits.  For the chains a driver
    has published on the transmit queue, the bytes of their readable buffers
    reach the host writer in publication order, nothing else does, and every
    chain is returned. *)
Theorem console_stream (d : Frontend (ConsoleSink (list Z))) w q cs out :
  fe_state d = mkActive true true true -> fe_own d = SinkWriter out ->
  fe_queues d !! Z.to_nat CONSOLE_TX_QUEUE = Some q -> layout any_desc q (w_mem w) -> published q (w_mem w) cs ->
  Forall (fun c => clear_of_used q c.2) cs -> is_power_of_two (size q) = true -> zlen cs <= size q ->
  exists d' w', console_process_queue d w CONSOLE_TX_QUEUE = Some (d', w') /\
    fe_own d' = SinkWriter (out ++ concat (map (concat_readable (w_mem w)) cs.*2)) /\
    (forall j h, cs.*1 !! j = Some h -> exists n, used_elem q (w_mem w') (used_slot q j) = Ok (h, n)) /\
    (cs <> [] -> used_idx q (w_mem w') = Ok (wrap 16 (next_used_idx q + zlen cs))) /\
    w_irq w' = (if bool_decide (cs = []) then w_irq w else (trigger_queue (w_irq w)).1).
Proof.
  intros Hst Ho Hq L Hpub Hg Hp2 Hlen.
  destruct (service_queue_reads console_serve any_desc (clear_of_used q)
    (fun s ds => ((console_tx s (w_mem w) ds 0).1, Push (console_tx s (w_mem w) ds 0).2))
    (fe_queues d) (Z.to_nat CONSOLE_TX_QUEUE) q
    (fe_own d) w cs console_laws) as (q' & m' & Hs & Hu & Hi & Hpop & _); try done.
  { intros s m ds Hso Hok Hc. unfold console_serve, on_chain. rewrite (console_tx_same q (w_mem w)) by done.
    by destruct (console_tx s (w_mem w) ds 0) as [s' n']. }
  { clear. generalize (fe_own d). induction cs as [|c cs IH]; intros l; cbn; eauto. }
  unfold console_process_queue, console_drain_tx. cbn [Z.eqb]. rewrite Hst, Hs, Ho. cbn.
  eexists _, _. split; [reflexivity|]. cbn. split_and!; try done.
  clear -GuestMemoryLaws0. revert out. induction cs as [|c cs IH]; intros out; [by rewrite app_nil_r|].
  cbn [fmap list_fmap foldl map concat]. destruct (console_tx_stream out c.2 (w_mem w) 0) as [n ->]. cbn [fst].
  by rewrite IH, app_assoc.
Qed.

(** The one notification that panics.  A guest write to [QueueNotify]
    reaches [process_queue] with any 16-bit index; on an activated balloon the
    call panics exactly for the statistics queue when statistics polling is
    off, because the queue vector then has two entries. *)
Theorem balloon_notify_panics c (d : Frontend BalloonOwn) w i :
  length (fe_queues d) = length (fe_queues (balloon_new c)) -> fe_state d = mkActive true true true ->
  balloon_process_queue d w i = None <-> i = STATS_QUEUE /\ ba_stats_polling_interval_s c <= 0.
Proof.
  intros Hl Hs. unfold balloon_new in Hl. cbn [fe_queues] in Hl. rewrite length_app in Hl. cbn [length] in Hl.
  rewrite balloon_panics_iff, Hs by lia. cbn.
  destruct (Z.ltb_spec 0 (ba_stats_polling_interval_s c)); cbn [length] in Hl;
    (split; [intros (-> & ? & _)|intros [-> ?]]); split_and!; try done; lia.
Qed.
End published.

(** *** Entropy *)

Section entropy.
Context {M S : Type} `{!GuestMemory M, !GuestMemoryLaws M} `{!EntropySource S, !EntropySourceLaws S}.
Implicit Types (m : M) (ds : list Descriptor).

(** The source's output for a list of buffer lengths. *)
Fixpoint draws (s : S) (lens : list nat) : list Z :=
  match lens with
  | [] => []
  | n :: rest => (es_fill s n).2 ++ draws (es_fill s n).1 rest
  end.

(** Mapped, disjoint buffers are filled completely with the source's output and
    the driver is told how much that is. *)
Lemma rng_fill_exact ds : forall (s : S) m n,
  gm_wf m -> Forall desc_ok ds -> mapped m ds -> buffers_disjoint (writable ds) ->
  0 <= n -> n + total_len (writable ds) < 2 ^ 32 ->
  exists s' m', rng_fill s m ds n = (s', m', n + total_len (writable ds)) /\
    received m' (Z.to_nat (total_len (writable ds))) ds = draws s (map (fun d => Z.to_nat (d_len d)) (writable ds)).
Proof.
  induction ds as [|d ds IH]; intros s m n Hwf Hok Hmp Hdj H0 H1; cbn [rng_fill received].
  { eexists _, _. split; [f_equal; cbn; lia|done]. }
  inversion Hok as [|? ? Hd Hok']; subst. rewrite write_flag_test.
  unfold mapped, buffers_disjoint, writable in *. cbn [List.filter] in *.
  destruct (is_write_only d) eqn:Hw; cbn [negb map total_len fold_right draws] in *; [|by apply IH].
  fold (total_len (List.filter is_write_only ds)) in *.
  inversion Hmp as [|? ? Hm1 Hmp']; subst. inversion Hdj as [|? ? Hdj1 Hdj']; subst. destruct Hd as [Hd0 Hd1].
  pose proof (total_len_nonneg _ (writable_ok _ Hok')) as Htl. unfold writable in Htl.
  pose proof (es_length s (Z.to_nat (d_len d))) as Hl. pose proof (es_bytes s (Z.to_nat (d_len d))) as Hb.
  destruct (es_fill s (Z.to_nat (d_len d))) as [s1 buf]. cbn [fst snd] in *.
  destruct (mapped_write m d buf Hm1 ltac:(lia)) as [m1 Hg]. rewrite Hg.
  assert (Hs1 : stays_within (d :: ds) m m1).
  { apply (stays_write _ d m m1 buf); [done|by left|done|done|unfold zlen; lia|done|done]. }
  replace (saturating_add 32 n (d_len d)) with (n + d_len d) by (unfold saturating_add; lia).
  destruct (IH s1 m1 (n + d_len d)) as (s' & m' & Hf & Hr); [apply Hs1|done| |done|lia|lia|].
  { eapply Forall_impl; [|exact Hmp']. intros e <-. apply Hs1. }
  exists s', m'. split; [rewrite Hf; f_equal; lia|].
  destruct (rng_fill_within ds s1 m1 (n + d_len d) s' m' _ (proj1 Hs1) Hok' ltac:(split; lia) Hf) as [(_ & Hfr & _) _].
  replace (Nat.min (Z.to_nat (d_len d)) (Z.to_nat (d_len d + total_len (List.filter is_write_only ds))))
    with (Z.to_nat (d_len d)) by lia.
  replace (Z.to_nat (d_len d + total_len (List.filter is_write_only ds)) - Z.to_nat (d_len d))%nat
    with (Z.to_nat (total_len (List.filter is_write_only ds))) by lia.
  rewrite Hr, Hfr by (by apply untouched_of_disjoint). f_equal.
  pose proof (gm_read_write_same _ _ _ _ Hg) as Hsame. rewrite Hl in Hsame. by rewrite Hsame.
Qed.
End entropy.

(** ** Concrete devices *)

Local Abbreviation PW := (World SliceGuestMemory pulse_log).

Definition ex_pworld : PW := mkWorld ex_mem (IrqLine_new [] Gic.VIRTIO_MMIO_SLOT0).

Definition ex_active {C} (qs : list Queue) (own : C) : Frontend C := mkFrontend 0 0 qs (mkActive true true true) own.

Lemma ex_plain : Forall (fun c => plain_buffers ex_queue c.2) [(1, ex_chain)].
Proof.
  apply Forall_singleton. split.
  - repeat apply Forall_cons; try apply Forall_nil; left; cbn; lia.
  - repeat apply Forall_cons; try apply Forall_nil; cbn; lia.
Qed.

Lemma balloon_exact_witness :
  exists d' w', balloon_process_queue (ex_active [ex_queue; ex_queue] (mkBalloonOwn (mkBalloonConfig 1 false 0) [7]))
      ex_pworld INFLATE_QUEUE = Some (d', w') /\
    pfn_count (bo_inflated (fe_own d')) 0 = 5%nat.
Proof.
  destruct (balloon_exact (ex_active [ex_queue; ex_queue] (mkBalloonOwn (mkBalloonConfig 1 false 0) [7]))
    ex_pworld INFLATE_QUEUE ex_queue [(1, ex_chain)] eq_refl (or_introl eq_refl) eq_refl ex_layout ex_published
    ex_plain eq_refl ltac:(done)) as (d' & w' & H & Hc & _).
  exists d', w'. split; [exact H|]. rewrite (Hc 0). by vm_compute.
Defined.

Lemma console_stream_witness :
  exists d' w', console_process_queue (ex_active [ex_queue; ex_queue] (SinkWriter [1])) ex_pworld CONSOLE_TX_QUEUE
      = Some (d', w') /\ fe_own d' = SinkWriter (1 :: replicate 16 0).
Proof.
  destruct (console_stream (ex_active [ex_queue; ex_queue] (SinkWriter [1])) ex_pworld ex_queue [(1, ex_chain)] [1]
    eq_refl eq_refl eq_refl ex_layout ex_published) as (d' & w' & H & Ho & _); [|done|done|].
  { eapply Forall_impl; [|exact ex_plain]. by intros c []. }
  exists d', w'. split; [exact H|]. rewrite Ho. by vm_compute.
Defined.

Lemma balloon_notify_panics_witness :
  balloon_process_queue (ex_active [ex_queue; ex_queue] (mkBalloonOwn (mkBalloonConfig 1 false 0) []))
    ex_pworld STATS_QUEUE = None.
Proof.
  apply (balloon_notify_panics (mkBalloonConfig 1 false 0)); [reflexivity|reflexivity|]. by split.
Defined.

(** A plug request for one block at 1 GiB: request at 152, answer at 200. *)
Definition ex_plug_mem : SliceGuestMemory :=
  mkSlice 0 (replicate 16 0
    ++ (le_bytes 8 200 ++ le_bytes 4 4 ++ le_bytes 2 2 ++ le_bytes 2 0)
    ++ (le_bytes 8 152 ++ le_bytes 4 24 ++ le_bytes 2 1 ++ le_bytes 2 0)
    ++ replicate 16 0
    ++ (le_bytes 2 0 ++ le_bytes 2 0 ++ le_bytes 2 0 ++ le_bytes 2 1)
    ++ replicate 80 0
    ++ (le_bytes 8 REQ_PLUG ++ le_bytes 8 (2 ^ 30) ++ le_bytes 8 1)
    ++ replicate 80 0).

Definition ex_mem_config : MemConfig := mkMemConfig [] (2 ^ 30) (4 * BLOCK_SIZE) 0.

Definition ex_mem_device : Frontend (MemOwn InMemoryHotplugBackend) :=
  ex_active [ex_queue] (fe_own (mem_new ex_mem_config [])).


(** The answer is written without looking at the length of the response
    buffer: with a one-byte buffer the three bytes after it are overwritten. *)
Lemma pmem_overruns_short_buffer :
  let ds := [mkDesc 0 4 1 1; mkDesc 8 1 2 0] in
  let m := mkSlice 0 [0; 0; 0; 0; 0; 0; 0; 0; 9; 9; 9; 9] in
  untouched ds 9 3 /\ gm_read (pmem_respond m ds).1 9 3 <> gm_read m 9 3.
Proof.
  split; [|by vm_compute].
  apply Forall_cons; [done|]. apply Forall_cons; [|apply Forall_nil]. intros _. left. cbn. lia.
Qed.
