(* ===== verification/RateLimit.v ===== *)
(** * RateLimit: the token bucket in front of a block backend

    Models [RateLimit], [TokenBucket] and the [refill]/[acquire] pair of
    [RateLimitedBackend] in [src/crates/virtio/src/devices/block.rs].  Instants
    are nanosecond counts read by the caller: an acquisition reads the clock
    once, and a second time after it slept. *)

From stdpp Require Import base numbers list option.
From Stdlib Require Import ZArith Lia.
From S2P Require Import Prelude.

Local Open Scope Z_scope.

Definition U64_MAX : Z := 2 ^ 64 - 1.

Record RateLimit := mkRate { bytes_per_sec : Z; burst_bytes : Z }.

Definition unlimited : RateLimit := mkRate U64_MAX U64_MAX.

Definition steady (bps : Z) : RateLimit := mkRate bps (bps / 10).

Record TokenBucket := mkBucket { tokens : Z; last_refill : Z }.

Definition bucket_new (c : RateLimit) (now : Z) : TokenBucket := mkBucket (burst_bytes c) now.

Definition refill (s : TokenBucket) (c : RateLimit) (ceiling now : Z) : TokenBucket :=
  if bytes_per_sec c =? U64_MAX then mkBucket ceiling (last_refill s)
  else
    let elapsed := saturating_sub now (last_refill s) in
    let earned_u128 := saturating_mul 128 (bytes_per_sec c) elapsed / 1000000000 in
    let earned := if earned_u128 <=? U64_MAX then earned_u128 else U64_MAX in
    mkBucket (Z.min (saturating_add 64 (tokens s) earned) ceiling) now.

(** The sleep of an acquisition that finds [t] of [n] tokens, in nanoseconds. *)
Definition wait_nanos (c : RateLimit) (n t : Z) : Z :=
  let nanos := (n - t) * 1000000000 / Z.max (bytes_per_sec c) 1 in
  if nanos <=? U64_MAX then nanos else U64_MAX.

(** [acquire]: [now1] is the clock on entry, [now2] after the sleep. *)
Definition acquire (s : TokenBucket) (c : RateLimit) (n now1 now2 : Z) : TokenBucket :=
  if bytes_per_sec c =? U64_MAX then s
  else
    let ceiling := Z.max n (burst_bytes c) in
    let s1 := refill s c ceiling now1 in
    if n <=? tokens s1 then mkBucket (tokens s1 - n) (last_refill s1)
    else
      let s2 := refill s1 c ceiling now2 in
      mkBucket (saturating_sub (tokens s2) n) (last_refill s2).

(** ** Throughput *)

(** A run of acquisitions: sizes with their clock readings. *)
Inductive acquired (c : RateLimit) : TokenBucket -> list (Z * Z * Z) -> TokenBucket -> Prop :=
| acq_nil s : acquired c s [] s
| acq_cons s n now1 now2 rest s' :
    0 <= n -> last_refill s <= now1 ->
    (let s1 := refill s c (Z.max n (burst_bytes c)) now1 in
     now1 + (if n <=? tokens s1 then 0 else wait_nanos c n (tokens s1)) <= now2) ->
    (now2 - last_refill s) * bytes_per_sec c < 2 ^ 64 * 1000000000 ->
    n * 1000000000 <= U64_MAX ->
    acquired c (acquire s c n now1 now2) rest s' ->
    acquired c s ((n, now1, now2) :: rest) s'.

Definition granted (ops : list (Z * Z * Z)) : Z := fold_right (fun op g => op.1.1 + g) 0 ops.

(** A refill earns at most what the elapsed time is worth. *)
Lemma refill_earns s c ceiling now :
  0 <= bytes_per_sec c < U64_MAX -> 0 <= tokens s -> 0 <= ceiling -> last_refill s <= now ->
  let s' := refill s c ceiling now in
  0 <= tokens s' <= ceiling /\ last_refill s' = now /\
  1000000000 * tokens s' <= 1000000000 * tokens s + bytes_per_sec c * (now - last_refill s).
Proof.
  intros Hb Ht Hc Hn. unfold refill. destruct (Z.eqb_spec (bytes_per_sec c) U64_MAX); [lia|].
  cbn [tokens last_refill]. unfold saturating_sub, saturating_mul, saturating_add.
  rewrite (Z.max_l (now - _)) by lia. set (el := now - last_refill s) in *.
  set (e := Z.min (bytes_per_sec c * el) (2 ^ 128 - 1) / 1000000000).
  assert (He : 0 <= e) by (apply Z.div_pos; [apply Z.min_glb; nia | lia]).
  assert (He2 : 1000000000 * e <= bytes_per_sec c * el).
  { subst e. etrans; [apply Z.mul_div_le; lia | lia]. }
  split; [|split; [done|]]; destruct (e <=? U64_MAX) eqn:Hle; bool_to_prop; unfold U64_MAX in *; lia.
Qed.

(** After sleeping, a refill has earned the missing tokens up to one byte and one
    nanosecond's worth. *)
Lemma refill_after_wait s c n now now2 :
  0 < bytes_per_sec c < U64_MAX -> 0 <= tokens s < n -> n * 1000000000 <= U64_MAX ->
  last_refill s = now -> now + wait_nanos c n (tokens s) <= now2 ->
  (now2 - now) * bytes_per_sec c < 2 ^ 64 * 1000000000 ->
  1000000000 * n <= 1000000000 * tokens (refill s c (Z.max n (burst_bytes c)) now2)
                    + 1000000000 + bytes_per_sec c.
Proof.
  intros Hb Ht Hn Hl Hw Hov. unfold refill.
  destruct (Z.eqb_spec (bytes_per_sec c) U64_MAX); [lia|]. cbn [tokens].
  unfold wait_nanos in Hw. rewrite Z.max_l in Hw by lia.
  set (b := bytes_per_sec c) in *. set (t := tokens s) in *.
  set (nn := (n - t) * 1000000000 / b) in *.
  assert (Hnn : b * nn <= (n - t) * 1000000000 < b * nn + b).
  { subst nn. pose proof (Z.mul_div_le ((n - t) * 1000000000) b ltac:(lia)).
    pose proof (Z.mul_succ_div_gt ((n - t) * 1000000000) b ltac:(lia)). lia. }
  assert (Hnb : nn <= U64_MAX) by nia.
  destruct (Z.leb_spec nn U64_MAX); [|lia].
  unfold saturating_sub, saturating_mul, saturating_add. rewrite Hl.
  assert (0 <= nn) by (apply Z.div_pos; lia).
  rewrite (Z.max_l (now2 - now)) by lia. set (el := now2 - now) in *.
  assert (Hbel : b * nn <= b * el) by nia.
  rewrite (Z.min_l (b * el)) by lia. set (e := b * el / 1000000000).
  assert (He : b * el < 1000000000 * e + 1000000000).
  { subst e. pose proof (Z.mul_succ_div_gt (b * el) 1000000000 ltac:(lia)). lia. }
  assert (He3 : 1000000000 * e <= b * el) by (apply Z.mul_div_le; lia).
  assert (He4 : e < 2 ^ 64) by nia.
  destruct (Z.leb_spec e U64_MAX) as [_|]; [|unfold U64_MAX in *; lia].
  assert (n < 2 ^ 64) by (unfold U64_MAX in *; lia).
  lia.
Qed.

Lemma acquire_potential s c n now1 now2 :
  0 < bytes_per_sec c < U64_MAX -> 0 <= burst_bytes c -> 0 <= tokens s -> 0 <= n ->
  last_refill s <= now1 ->
  (let s1 := refill s c (Z.max n (burst_bytes c)) now1 in
   now1 + (if n <=? tokens s1 then 0 else wait_nanos c n (tokens s1)) <= now2) ->
  (now2 - last_refill s) * bytes_per_sec c < 2 ^ 64 * 1000000000 -> n * 1000000000 <= U64_MAX ->
  let s' := acquire s c n now1 now2 in
  0 <= tokens s' /\ last_refill s <= last_refill s' <= now2 /\
  1000000000 * (n + tokens s') <=
  1000000000 * tokens s + bytes_per_sec c * (last_refill s' - last_refill s)
  + 1000000000 + bytes_per_sec c.
Proof.
  intros Hb Hbu Ht Hn Hl Hw Hov Hnn. unfold acquire. cbv zeta in Hw.
  destruct (Z.eqb_spec (bytes_per_sec c) U64_MAX); [lia|].
  assert (Hc : 0 <= Z.max n (burst_bytes c)) by lia.
  destruct (refill_earns s c _ now1 ltac:(lia) Ht Hc Hl) as (Hr1 & Hr2 & Hr3). cbv zeta in *.
  set (s1 := refill s c _ now1) in *.
  destruct (Z.leb_spec n (tokens s1)); cbn [tokens last_refill].
  - rewrite Hr2 in *. lia.
  - assert (Hwn : 0 <= wait_nanos c n (tokens s1)).
    { unfold wait_nanos. assert (0 <= (n - tokens s1) * 1000000000 / Z.max (bytes_per_sec c) 1)
        by (apply Z.div_pos; lia). destruct (_ <=? _); unfold U64_MAX; lia. }
    assert (Hle : last_refill s1 <= now2) by lia.
    destruct (refill_earns s1 c _ now2 ltac:(lia) (proj1 Hr1) Hc Hle) as (Hq1 & Hq2 & Hq3).
    pose proof (refill_after_wait s1 c n now1 now2 Hb ltac:(lia) Hnn Hr2 Hw ltac:(nia)) as Hq4.
    cbv zeta in *. set (s2 := refill s1 c _ now2) in *. rewrite Hq2, Hr2 in *.
    unfold saturating_sub. nia.
Qed.

(** The limiter bounds throughput.  Over any run of acquisitions that waits
    as the code does, the bytes granted are at most the burst plus the
    configured rate times the elapsed time, plus a rounding slack of one byte
    and one nanosecond's worth per acquisition. *)
Theorem rate_limited c now ops s' :
  0 < bytes_per_sec c < U64_MAX -> 0 <= burst_bytes c ->
  acquired c (bucket_new c now) ops s' ->
  1000000000 * granted ops <=
  1000000000 * burst_bytes c + bytes_per_sec c * (last_refill s' - now) +
  zlen ops * (1000000000 + bytes_per_sec c).
Proof.
  intros Hb Hbu H.
  assert (Hgen : forall s, acquired c s ops s' -> 0 <= tokens s ->
    0 <= tokens s' /\
    1000000000 * (granted ops + tokens s') <=
    1000000000 * tokens s + bytes_per_sec c * (last_refill s' - last_refill s) +
    zlen ops * (1000000000 + bytes_per_sec c)).
  2:{ destruct (Hgen _ H) as [? ?]; cbn in *; lia. }
  clear H now. intros s H. induction H as [s|s n now1 now2 rest s' H1 H2 H3 H4 H5 H6 IH]; intros Ht.
  { unfold zlen; cbn [granted fold_right length]. rewrite Z.sub_diag. split; lia. }
  destruct (acquire_potential s c n now1 now2 Hb Hbu Ht H1 H2 H3 H4 H5) as (Hp1 & Hp2 & Hp3).
  destruct (IH Hp1) as [Hq1 Hq2]. split; [done|]. cbn [granted fold_right fst]. fold (granted rest).
  unfold zlen in *. cbn [length]. rewrite Nat2Z.inj_succ. nia.
Qed.

Lemma rate_limited_witness :
  1000000000 * granted [(50, 0, 0); (100, 0, 50000000)] <=
  1000000000 * 100 + 1000 * (50000000 - 0) + 2 * (1000000000 + 1000).
Proof.
  apply (rate_limited (mkRate 1000 100) 0 [(50, 0, 0); (100, 0, 50000000)]
    (mkBucket 0 50000000)); [by vm_compute|by vm_compute|].
  repeat (eapply acq_cons; [by vm_compute..|]). apply acq_nil.
Defined.
