(* ===== verification/Text.v ===== *)
(** * Text: the string routines of the standard library

    What the sources use of [str] and [char]: UTF-8, whitespace, splitting,
    trimming, parsing and printing of unsigned integers, with their lemmas.  A
    [&str] is the list of its Unicode scalar values, a [String] the list of its
    UTF-8 bytes. *)

From stdpp Require Import base numbers list option gmap strings.
From Stdlib Require Import ZArith Lia.
From S2P Require Import Prelude.

Local Open Scope Z_scope.
Local Open Scope squib_scope.

(** ** Text *)

(** The bytes of an ASCII literal. *)
Fixpoint lit (s : string) : list Z :=
  match s with
  | EmptyString => []
  | String a s' => Z.of_N (Ascii.N_of_ascii a) :: lit s'
  end.

Definition CR : Z := 13.
Definition LF : Z := 10.

(** A continuation byte [10xxxxxx]. *)
Definition is_cont (b : Z) : bool := (0x80 <=? b) && (b <? 0xC0).

Definition cont_bits (b : Z) : Z := Z.land b 0x3F.

(** [std::str::from_utf8]: the well-formed sequences of RFC 3629, without
    overlong forms, surrogates or values above U+10FFFF. *)
Fixpoint from_utf8 (bs : list Z) : option (list Z) :=
  match bs with
  | [] => Some []
  | b0 :: r0 =>
      if b0 <? 0x80 then cons b0 <$> from_utf8 r0
      else if (0xC2 <=? b0) && (b0 <=? 0xDF) then
        match r0 with
        | b1 :: r1 =>
            if is_cont b1 then cons ((b0 - 0xC0) * 64 + cont_bits b1) <$> from_utf8 r1 else None
        | [] => None
        end
      else if (0xE0 <=? b0) && (b0 <=? 0xEF) then
        match r0 with
        | b1 :: b2 :: r2 =>
            let c := ((b0 - 0xE0) * 64 + cont_bits b1) * 64 + cont_bits b2 in
            if is_cont b1 && is_cont b2 && (0x800 <=? c) && negb ((0xD800 <=? c) && (c <=? 0xDFFF))
            then cons c <$> from_utf8 r2 else None
        | _ => None
        end
      else if (0xF0 <=? b0) && (b0 <=? 0xF4) then
        match r0 with
        | b1 :: b2 :: b3 :: r3 =>
            let c := (((b0 - 0xF0) * 64 + cont_bits b1) * 64 + cont_bits b2) * 64 + cont_bits b3 in
            if is_cont b1 && is_cont b2 && is_cont b3 && (0x10000 <=? c) && (c <=? 0x10FFFF)
            then cons c <$> from_utf8 r3 else None
        | _ => None
        end
      else None
  end.

(** [char::encode_utf8] and [str::to_string]. *)
Definition encode_char (c : Z) : list Z :=
  if c <? 0x80 then [c]
  else if c <? 0x800 then [0xC0 + c / 64; 0x80 + c mod 64]
  else if c <? 0x10000 then [0xE0 + c / 4096; 0x80 + c / 64 mod 64; 0x80 + c mod 64]
  else [0xF0 + c / 262144; 0x80 + c / 4096 mod 64; 0x80 + c / 64 mod 64; 0x80 + c mod 64].

Definition to_string (s : list Z) : list Z := mjoin (map encode_char s).

(** [char::is_whitespace]: the Unicode [White_Space] property. *)
Definition is_whitespace (c : Z) : bool :=
  ((9 <=? c) && (c <=? 13)) || (c =? 32) || (c =? 0x85) || (c =? 0xA0) || (c =? 0x1680) ||
  ((0x2000 <=? c) && (c <=? 0x200A)) || (c =? 0x2028) || (c =? 0x2029) || (c =? 0x202F) ||
  (c =? 0x205F) || (c =? 0x3000).

(** [s.split("\r\n")], [cur] being the piece under construction. *)
Fixpoint split_crlf_from (cur s : list Z) : list (list Z) :=
  match s with
  | [] => [cur]
  | c :: s' =>
      match s' with
      | d :: s'' =>
          if (c =? CR) && (d =? LF) then cur :: split_crlf_from [] s''
          else split_crlf_from (cur ++ [c]) s'
      | [] => split_crlf_from (cur ++ [c]) s'
      end
  end.

Definition split_crlf (s : list Z) : list (list Z) := split_crlf_from [] s.

(** [s.split_whitespace()]. *)
Fixpoint split_whitespace_from (cur s : list Z) : list (list Z) :=
  match s with
  | [] => if decide (cur = []) then [] else [cur]
  | c :: s' =>
      if is_whitespace c then
        if decide (cur = []) then split_whitespace_from [] s'
        else cur :: split_whitespace_from [] s'
      else split_whitespace_from (cur ++ [c]) s'
  end.

Definition split_whitespace (s : list Z) : list (list Z) := split_whitespace_from [] s.

(** [s.trim()]. *)
Fixpoint trim_start (s : list Z) : list Z :=
  match s with
  | [] => []
  | c :: s' => if is_whitespace c then trim_start s' else s
  end.

Definition trim (s : list Z) : list Z := rev (trim_start (rev (trim_start s))).

Definition ascii_lower (c : Z) : Z := if (65 <=? c) && (c <=? 90) then c + 32 else c.

Definition eq_ignore_ascii_case (a b : list Z) : bool :=
  bool_decide (map ascii_lower a = map ascii_lower b).

(** [str::parse] for a [w]-bit unsigned integer: an optional plus sign, then
    decimal digits, without overflow. *)
Fixpoint parse_digits (w acc : Z) (s : list Z) : option Z :=
  match s with
  | [] => Some acc
  | c :: s' =>
      if (48 <=? c) && (c <=? 57) then
        match checked_mul w acc 10 with
        | Some a =>
            match checked_add w a (c - 48) with
            | Some a' => parse_digits w a' s'
            | None => None
            end
        | None => None
        end
      else None
  end.

Definition parse_uint (w : Z) (s : list Z) : option Z :=
  match s with
  | [] => None
  | [_] => parse_digits w 0 s
  | c :: s' => parse_digits w 0 (if c =? 43 then s' else s)
  end.

(** The decimal digits [format!] prints for an unsigned integer; a number has at
    most one digit more than bits. *)
Fixpoint decimal_loop (fuel : nat) (n : Z) (acc : list Z) : list Z :=
  match fuel with
  | O => acc
  | S fuel' =>
      let acc' := 48 + n mod 10 :: acc in
      if n <? 10 then acc' else decimal_loop fuel' (n / 10) acc'
  end.

Definition decimal (n : Z) : list Z := decimal_loop (S (Z.to_nat (Z.log2 n))) n [].

(** [{:#x}]: the lower-case hexadecimal digits after [0x]. *)
Fixpoint hex_loop (fuel : nat) (n : Z) (acc : list Z) : list Z :=
  match fuel with
  | O => acc
  | S fuel' =>
      let d := n mod 16 in
      let acc' := (if d <? 10 then 48 + d else 87 + d) :: acc in
      if n <? 16 then acc' else hex_loop fuel' (n / 16) acc'
  end.

Definition hex_digits (n : Z) : list Z := hex_loop (S (Z.to_nat (Z.log2 n))) n [].

Definition hex (n : Z) : list Z := lit "0x" ++ hex_digits n.

(** ** I/O errors *)

(** An [io::Error], known by its code. *)
Record IoError := mkIoError { io_code : Z }.

#[export] Instance IoError_eq_dec : EqDecision IoError.
Proof. solve_decision. Defined.

(** ** Numbers *)

Definition is_digit (c : Z) : Prop := 48 <= c <= 57.

Lemma parse_digits_step w a c s :
  0 <= a -> is_digit c -> a * 10 + (c - 48) < 2 ^ w ->
  parse_digits w a (c :: s) = parse_digits w (a * 10 + (c - 48)) s.
Proof.
  unfold is_digit. intros Ha Hc Hw. cbn [parse_digits].
  replace ((48 <=? c) && (c <=? 57)) with true by (symmetry; apply andb_true_iff; split; lia).
  unfold checked_mul, checked_add.
  by rewrite (proj2 (Z.ltb_lt (a * 10) _)), (proj2 (Z.ltb_lt (a * 10 + _) _)) by lia.
Qed.

(** The printed digits read back as the number, from any accumulator. *)
Lemma decimal_loop_parse fuel : forall n acc, 0 <= n < 2 ^ Z.of_nat fuel -> (0 < fuel)%nat ->
  exists ds, decimal_loop fuel n acc = ds ++ acc /\ ds <> [] /\ Forall is_digit ds /\
    forall w a s, 0 <= a -> a * 10 ^ zlen ds + n < 2 ^ w ->
      parse_digits w a (ds ++ s) = parse_digits w (a * 10 ^ zlen ds + n) s.
Proof.
  induction fuel as [|fuel IH]; intros n acc Hn Hf; [lia|]. cbn [decimal_loop].
  pose proof (Z.mod_pos_bound n 10 ltac:(lia)) as Hm. pose proof (Z.div_mod n 10 ltac:(lia)) as Hd.
  assert (Hdig : is_digit (48 + n mod 10)) by (unfold is_digit; lia).
  destruct (Z.ltb_spec n 10) as [Hlt|Hge].
  - exists [48 + n mod 10]. split_and!; [done|done|by constructor|]. intros w a s Ha Hw.
    change (zlen [48 + n mod 10]) with 1 in *. cbn [app]. rewrite Z.mod_small in * by lia.
    rewrite parse_digits_step by (done || lia). f_equal. lia.
  - rewrite Nat2Z.inj_succ, Z.pow_succ_r in Hn by lia.
    destruct (IH (n / 10) (48 + n mod 10 :: acc)) as (ds & He & Hne & Hall & Hp).
    { split; [apply Z.div_pos; lia|]. apply Z.div_lt_upper_bound; lia. }
    { destruct fuel; [cbn in Hn; lia|lia]. }
    exists (ds ++ [48 + n mod 10]). rewrite He, <- app_assoc. split_and!; [done|by destruct ds| |].
    + apply Forall_app. split; [done|by constructor].
    + intros w a s Ha Hw. unfold zlen in *. rewrite length_app, Nat2Z.inj_add in *.
      change (Z.of_nat (length [48 + n mod 10])) with 1 in *. rewrite Z.pow_add_r in * by lia.
      pose proof (Z.pow_pos_nonneg 10 (Z.of_nat (length ds)) ltac:(lia) ltac:(lia)).
      pose proof (Z.div_pos n 10 ltac:(lia) ltac:(lia)).
      rewrite <- app_assoc, Hp by (try lia; nia). cbn [app].
      rewrite parse_digits_step by (try done; nia). f_equal. nia.
Qed.

Lemma decimal_fuel n : 0 <= n -> 0 <= n < 2 ^ Z.of_nat (S (Z.to_nat (Z.log2 n))).
Proof.
  intros Hn. split; [done|]. rewrite Nat2Z.inj_succ, Z2Nat.id by apply Z.log2_nonneg.
  destruct (decide (n = 0)) as [->|]; [done|]. apply Z.log2_spec. lia.
Qed.

Lemma decimal_digits n : 0 <= n -> Forall is_digit (decimal n) /\ decimal n <> [].
Proof.
  intros Hn. destruct (decimal_loop_parse _ n [] (decimal_fuel n Hn)) as (ds & He & Hne & Hall & _);
    [lia|]. unfold decimal. rewrite He, app_nil_r. done.
Qed.

Lemma parse_uint_digits w s : Forall is_digit s -> s <> [] -> parse_uint w s = parse_digits w 0 s.
Proof.
  intros Hs Hne. destruct s as [|c [|d s]]; [done|done|]. cbn [parse_uint].
  apply Forall_cons_iff in Hs as [Hc _]. unfold is_digit in Hc.
  by rewrite (proj2 (Z.eqb_neq c 43)) by lia.
Qed.

Lemma parse_decimal w n : in_u w n -> parse_uint w (decimal n) = Some n.
Proof.
  intros [Hn Hw]. destruct (decimal_digits n Hn) as [Hd Hne]. rewrite parse_uint_digits by done.
  destruct (decimal_loop_parse _ n [] (decimal_fuel n Hn)) as (ds & He & _ & _ & Hp); [lia|].
  unfold decimal. rewrite He, Hp by lia. done.
Qed.

(** ** UTF-8 *)

(** Unicode scalar values. *)
Definition scalar (c : Z) : Prop := 0 <= c <= 0x10FFFF /\ ~ 0xD800 <= c <= 0xDFFF.

Lemma cont_byte x : 0 <= x < 64 -> is_cont (0x80 + x) = true /\ cont_bits (0x80 + x) = x.
Proof.
  intros Hx. split.
  - unfold is_cont. apply andb_true_iff. split; lia.
  - unfold cont_bits. change 0x3F with (2 ^ 6 - 1). rewrite land_ones_wrap by lia.
    unfold wrap. change (2 ^ 6) with 64. replace (0x80 + x) with (x + 2 * 64) by lia.
    rewrite Z.mod_add by lia. apply Z.mod_small. lia.
Qed.

Lemma div_mod_64 c : 0 <= c -> 64 * (c / 64) + c mod 64 = c /\ 0 <= c mod 64 < 64 /\ 0 <= c / 64.
Proof. intros. pose proof (Z.div_mod c 64). pose proof (Z.mod_pos_bound c 64). lia. Qed.

(** Decide the comparisons of a goal that are linear. *)
Ltac utf8_guard := repeat match goal with
  | |- context [?a <? ?b] => first [rewrite (proj2 (Z.ltb_lt a b)) by lia | rewrite (proj2 (Z.ltb_ge a b)) by lia]
  | |- context [?a <=? ?b] => first [rewrite (proj2 (Z.leb_le a b)) by lia | rewrite (proj2 (Z.leb_gt a b)) by lia]
  end.

Lemma from_utf8_char c s : scalar c -> from_utf8 (encode_char c ++ s) = cons c <$> from_utf8 s.
Proof.
  intros [Hc Hs]. unfold encode_char.
  replace (c / 4096) with (c / 64 / 64) by (rewrite Z.div_div by lia; done).
  replace (c / 262144) with (c / 64 / 64 / 64) by (rewrite !Z.div_div by lia; done).
  pose proof (div_mod_64 c ltac:(lia)) as (E1 & B1 & P1).
  pose proof (div_mod_64 (c / 64) P1) as (E2 & B2 & P2).
  pose proof (div_mod_64 (c / 64 / 64) P2) as (E3 & B3 & P3).
  destruct (cont_byte _ B1) as [C1 V1], (cont_byte _ B2) as [C2 V2], (cont_byte _ B3) as [C3 V3].
  destruct (Z.ltb_spec c 0x80); [cbn [app from_utf8]; by rewrite (proj2 (Z.ltb_lt c 0x80))|].
  destruct (Z.ltb_spec c 0x800); [|destruct (Z.ltb_spec c 0x10000)]; cbn [app from_utf8];
    rewrite ?C1, ?C2, ?C3, ?V1, ?V2, ?V3.
  - utf8_guard. cbn [andb]. do 2 f_equal. lia.
  - match goal with |- context [cons ?x <$> _] => replace x with c by lia end.
    utf8_guard. cbn [andb]. destruct (Z.leb_spec 0xD800 c), (Z.leb_spec c 0xDFFF); (done || lia).
  - match goal with |- context [cons ?x <$> _] => replace x with c by lia end.
    utf8_guard. done.
Qed.

Lemma utf8_roundtrip s : Forall scalar s -> from_utf8 (to_string s) = Some s.
Proof.
  induction 1 as [|c s Hc _ IH]; [done|].
  change (from_utf8 (encode_char c ++ to_string s) = Some (c :: s)). by rewrite from_utf8_char, IH.
Qed.

(** ** Lines and words *)

Definition no_cr (l : list Z) : Prop := Forall (fun c => c <> CR) l.

(** Lines separated by CR LF. *)
Fixpoint join_lines (ls : list (list Z)) : list Z :=
  match ls with
  | [] => []
  | [l] => l
  | l :: ls' => l ++ [CR; LF] ++ join_lines ls'
  end.

Lemma split_crlf_skip cur c s :
  c <> CR -> split_crlf_from cur (c :: s) = split_crlf_from (cur ++ [c]) s.
Proof. intros Hc. cbn [split_crlf_from]. rewrite (proj2 (Z.eqb_neq c CR)) by done. by destruct s. Qed.

Lemma split_crlf_line l : forall cur rest, no_cr l ->
  split_crlf_from cur (l ++ [CR; LF] ++ rest) = (cur ++ l) :: split_crlf_from [] rest.
Proof.
  induction l as [|c l IH]; intros cur rest Hl; [by rewrite app_nil_r|].
  apply Forall_cons_iff in Hl as [Hc Hl].
  rewrite <- app_comm_cons, split_crlf_skip, IH by done. by rewrite <- app_assoc.
Qed.

Lemma split_crlf_last l : forall cur, no_cr l -> split_crlf_from cur l = [cur ++ l].
Proof.
  induction l as [|c l IH]; intros cur Hl; [by rewrite app_nil_r|].
  apply Forall_cons_iff in Hl as [Hc Hl]. rewrite split_crlf_skip, IH by done.
  by rewrite <- app_assoc.
Qed.

Lemma split_join ls : Forall no_cr ls -> ls <> [] -> split_crlf (join_lines ls) = ls.
Proof.
  unfold split_crlf. intros Hls. induction Hls as [|l [|l' ls] Hl Hls IH]; intros Hne; [done| |].
  - by apply (split_crlf_last l []).
  - change (join_lines (l :: l' :: ls)) with (l ++ [CR; LF] ++ join_lines (l' :: ls)).
    rewrite split_crlf_line by done. by rewrite IH.
Qed.

Definition no_space (l : list Z) : Prop := Forall (fun c => is_whitespace c = false) l.

Lemma split_word l : forall cur rest, no_space l -> cur ++ l <> [] ->
  split_whitespace_from cur (l ++ 32 :: rest) = (cur ++ l) :: split_whitespace_from [] rest.
Proof.
  induction l as [|c l IH]; intros cur rest Hl Hne.
  - rewrite app_nil_r in *. cbn. by destruct (decide (cur = [])).
  - apply Forall_cons_iff in Hl as [Hc Hl]. cbn [app split_whitespace_from]. rewrite Hc.
    rewrite IH; [by rewrite <- app_assoc|done|by destruct cur].
Qed.

Definition trimmed (v : list Z) : Prop := trim_start v = v /\ trim_start (rev v) = rev v.

Lemma trim_space v : trimmed v -> trim (32 :: v) = v.
Proof. intros [H1 H2]. unfold trim. cbn. by rewrite H1, H2, rev_involutive. Qed.

Lemma no_space_trimmed v : no_space v -> trimmed v.
Proof.
  intros H. assert (Ht : forall l, no_space l -> trim_start l = l).
  { intros [|c l] Hl; [done|]. apply Forall_cons_iff in Hl as [Hc _]. cbn. by rewrite Hc. }
  split; [by apply Ht|]. apply Ht. by apply Forall_rev.
Qed.

Lemma is_digit_plain c : is_digit c -> is_whitespace c = false /\ c <> CR /\ scalar c.
Proof.
  unfold is_digit, CR, scalar. intros Hc. split; [|lia]. unfold is_whitespace.
  repeat (apply orb_false_iff; split); try (apply andb_false_iff); lia.
Qed.

Lemma no_space_no_cr v : no_space v -> no_cr v.
Proof. intros H. eapply Forall_impl; [exact H|]. by intros c Hc ->. Qed.

Lemma to_string_app a b : to_string (a ++ b) = to_string a ++ to_string b.
Proof.
  induction a as [|c a IH]; [done|].
  change (to_string ((c :: a) ++ b)) with (encode_char c ++ to_string (a ++ b)).
  rewrite IH, app_assoc. done.
Qed.

Lemma to_string_join ls : to_string (join_lines ls) = join_lines (map to_string ls).
Proof.
  induction ls as [|l [|l' ls] IH]; [done|done|].
  change (join_lines (l :: l' :: ls)) with (l ++ [CR; LF] ++ join_lines (l' :: ls)).
  rewrite !to_string_app, IH. done.
Qed.

Lemma encode_char_no_cr c : scalar c -> c <> CR -> no_cr (encode_char c).
Proof.
  intros [Hc _] Hn. unfold encode_char, CR in *.
  assert (Hm : forall x, 0x80 + x mod 64 <> 13) by (intros x; pose proof (Z.mod_pos_bound x 64); lia).
  assert (Hd : forall k, 0 < k -> 0 <= c / k) by (intros; apply Z.div_pos; lia).
  pose proof (Hd 64). pose proof (Hd 4096). pose proof (Hd 262144).
  repeat case_match; repeat apply Forall_cons_2; try apply Forall_nil_2; unfold CR; auto; lia.
Qed.

Lemma to_string_line l :
  Forall scalar l -> no_cr l -> l <> [] -> to_string l <> [] /\ no_cr (to_string l).
Proof.
  intros Hs Hc Hne. split.
  - destruct l as [|c l]; [done|]. change (to_string (c :: l)) with (encode_char c ++ to_string l).
    unfold encode_char. by repeat case_match.
  - clear Hne. induction Hs as [|c l Hcs Hs IH]; [apply Forall_nil_2|].
    apply Forall_cons_iff in Hc as [Hcc Hc].
    change (to_string (c :: l)) with (encode_char c ++ to_string l).
    apply Forall_app. split; [by apply encode_char_no_cr|by apply IH].
Qed.

Lemma lit_plain s :
  forallb (fun c => (32 <=? c) && (c <? 127)) (lit s) = true -> Forall scalar (lit s) /\ no_cr (lit s).
Proof.
  intros H. rewrite forallb_forall in H. split; apply Forall_forall; intros c Hc;
    apply list_elem_of_In, H in Hc; bool_to_prop; unfold scalar, CR; lia.
Qed.

Lemma decimal_plain n : 0 <= n -> Forall scalar (decimal n) /\ no_space (decimal n).
Proof.
  intros [Hd _]%decimal_digits. split; eapply Forall_impl; try exact Hd; intros c Hc;
    cbn in Hc; destruct (is_digit_plain c Hc) as (? & _ & ?); done.
Qed.
