(* ===== verification/Prog.v ===== *)
(** * Prog: programs with state, errors and loops

    The effect of code that mutates a store, may fail half-way and may loop: a
    function from the store to nothing (the loop has not ended within its
    budget) or to the store and a [Result].  Weakest preconditions give total
    correctness: a program that satisfies one returns. *)

From stdpp Require Import base numbers list option.
From Stdlib Require Import ZArith Lia.
From S2P Require Import Prelude.

Local Open Scope Z_scope.
Local Open Scope squib_scope.

(** ** Programs *)

Definition prog (S E A : Type) : Type := S -> option (S * result E A).

Definition p_ret {S E A} (a : A) : prog S E A := fun s => Some (s, Ok a).

Definition p_fail {S E A} (e : E) : prog S E A := fun s => Some (s, Err e).

Definition p_lift {S E A} (r : result E A) : prog S E A := fun s => Some (s, r).

Definition p_bind {S E A B} (c : prog S E A) (k : A -> prog S E B) : prog S E B :=
  fun s => match c s with
           | None => None
           | Some (s', Ok a) => k a s'
           | Some (s', Err e) => Some (s', Err e)
           end.

Notation "'let*' x := c 'in' k" := (p_bind c (fun x => k))
  (at level 10, x pattern, c at level 100, k at level 200) : squib_scope.

(** [.map_err(f)] on the result. *)
Definition p_map_err {S E F A} (f : E -> F) (c : prog S E A) : prog S F A :=
  fun s => match c s with None => None | Some (s', r) => Some (s', map_err f r) end.

(** What runs when [c] returns early with an error: the [Drop] of a value that
    [c] borrows. *)
Definition p_on_err {S E A} (cleanup : S -> S) (c : prog S E A) : prog S E A :=
  fun s => match c s with
           | Some (s', Err e) => Some (cleanup s', Err e)
           | other => other
           end.

(** A program over one component of a larger store. *)
Definition p_zoom {S T E A} (c : prog S E A) : prog (S * T) E A :=
  fun st => match c st.1 with None => None | Some (s', r) => Some ((s', st.2), r) end.

(** [loop { body }] with a budget of [2 ^ budget] rounds: the body continues with
    [inl] and breaks with [inr]. *)
Definition loop_round {S T E B} (body : T -> prog S E (T + B)) (st : S * T)
  : (S * T) + option (S * result E B) :=
  match body st.2 st.1 with
  | None => inr None
  | Some (s', Err e) => inr (Some (s', Err e))
  | Some (s', Ok (inl t)) => inl (s', t)
  | Some (s', Ok (inr b)) => inr (Some (s', Ok b))
  end.

Definition p_loop {S T E B} (budget : nat) (body : T -> prog S E (T + B)) (t : T) : prog S E B :=
  fun s => match iter_pow2 budget (loop_round body) (s, t) with
           | inl _ => None
           | inr r => r
           end.

(** ** Total correctness *)

Definition wp {S E A} (c : prog S E A) (Q : S -> result E A -> Prop) (s : S) : Prop :=
  match c s with
  | Some (s', r) => Q s' r
  | None => False
  end.

Section rules.
Context {S E : Type}.

Lemma wp_mono {A} (c : prog S E A) (P Q : S -> result E A -> Prop) s :
  wp c P s -> (forall s' r, P s' r -> Q s' r) -> wp c Q s.
Proof. unfold wp. destruct (c s) as [[s' r]|]; eauto. Qed.

Lemma wp_ret {A} (a : A) (Q : S -> result E A -> Prop) s : Q s (Ok a) -> wp (p_ret a) Q s.
Proof. done. Qed.

Lemma wp_fail {A} e (Q : S -> result E A -> Prop) s : Q s (Err e) -> wp (p_fail e) Q s.
Proof. done. Qed.

Lemma wp_lift {A} (r : result E A) (Q : S -> result E A -> Prop) s : Q s r -> wp (p_lift r) Q s.
Proof. done. Qed.

Lemma wp_bind {A B} (c : prog S E A) (k : A -> prog S E B) Q s :
  wp c (fun s' r => match r with Ok a => wp (k a) Q s' | Err e => Q s' (Err e) end) s ->
  wp (p_bind c k) Q s.
Proof. unfold wp, p_bind. destruct (c s) as [[s' [a|e]]|]; done. Qed.

Lemma wp_map_err {F A} (f : E -> F) (c : prog S E A) Q s :
  wp c (fun s' r => Q s' (map_err f r)) s -> wp (p_map_err f c) Q s.
Proof. unfold wp, p_map_err. destruct (c s) as [[s' r]|]; done. Qed.

Lemma wp_on_err {A} cleanup (c : prog S E A) Q s :
  wp c (fun s' r => match r with Ok a => Q s' (Ok a) | Err e => Q (cleanup s') (Err e) end) s ->
  wp (p_on_err cleanup c) Q s.
Proof. unfold wp, p_on_err. destruct (c s) as [[s' [a|e]]|]; done. Qed.

Lemma wp_zoom {T A} (c : prog S E A) (Q : S * T -> result E A -> Prop) st :
  wp c (fun s' r => Q (s', st.2) r) st.1 -> wp (p_zoom c) Q st.
Proof. unfold wp, p_zoom. destruct (c st.1) as [[s' r]|]; done. Qed.

Lemma wp_total {A} (c : prog S E A) Q s : wp c Q s -> exists s' r, c s = Some (s', r) /\ Q s' r.
Proof. unfold wp. destruct (c s) as [[s' r]|]; [eauto|done]. Qed.

Lemma wp_intro {A} (c : prog S E A) (Q : S -> result E A -> Prop) s s' r :
  c s = Some (s', r) -> Q s' r -> wp c Q s.
Proof. unfold wp. by intros ->. Qed.

(** A loop whose body keeps an invariant and lowers a measure. *)
Lemma wp_loop {T B} (I : T -> S -> Prop) (m : T -> S -> Z) budget (body : T -> prog S E (T + B)) Q t s :
  (forall t s, I t s -> 0 <= m t s /\
    wp (body t) (fun s' r => match r with
                             | Ok (inl t') => I t' s' /\ m t' s' < m t s
                             | Ok (inr b) => Q s' (Ok b)
                             | Err e => Q s' (Err e)
                             end) s) ->
  I t s -> m t s < Z.of_nat (2 ^ budget) ->
  wp (p_loop budget body t) Q s.
Proof.
  intros Hbody HI Hm. unfold wp, p_loop. rewrite iter_pow2_n.
  revert t s HI Hm. induction (2 ^ budget)%nat as [|n IH]; intros t s HI Hm.
  { destruct (Hbody t s HI). lia. }
  destruct (Hbody t s HI) as [Hpos Hr]. cbn [iter_n]. unfold loop_round at 1. cbn [fst snd].
  unfold wp in Hr. destruct (body t s) as [[s' [[t'|b]|e]]|]; [|done|done|done].
  destruct Hr as [HI' Hlt]. apply IH; [done|lia].
Qed.

End rules.

Ltac wp_step :=
  lazymatch goal with
  | |- wp (p_bind _ _) _ _ => apply wp_bind
  | |- wp (p_ret _) _ _ => apply wp_ret
  | |- wp (p_fail _) _ _ => apply wp_fail
  | |- wp (p_lift _) _ _ => apply wp_lift
  | |- wp (p_map_err _ _) _ _ => apply wp_map_err
  | |- wp (p_on_err _ _) _ _ => apply wp_on_err
  | |- wp (p_zoom _) _ _ => apply wp_zoom
  end.

(** Use the specification [H] of the program in focus. *)
Ltac wp_use H := eapply wp_mono; [eapply H|cbn beta].
