(* ===== verification/Paths.v ===== *)
(** * Paths: [std::path] on Unix

    What the sources use of [Path] and [PathBuf]: the last component, the parent,
    the extension and its replacement, on the bytes of the path, with the
    normalisation [Components] does (repeated slashes and inner [.] components
    are skipped, the slices keep the original bytes). *)

From stdpp Require Import base numbers list option strings.
From Stdlib Require Import ZArith Lia.
From S2P Require Import Prelude Text.

Local Open Scope Z_scope.

Definition SLASH : Z := 47.
Definition DOT : Z := 46.

Inductive Component := RootDir | CurDir | ParentDir | Normal (name : list Z).

Definition has_root (p : list Z) : bool := match p with c :: _ => c =? SLASH | [] => false end.

Definition include_cur_dir (p : list Z) : bool :=
  if has_root p then false
  else match p with
       | [c] => c =? DOT
       | c :: d :: _ => (c =? DOT) && (d =? SLASH)
       | [] => false
       end.

Definition len_before_body (p : list Z) : nat :=
  (if has_root p then 1 else 0) + (if include_cur_dir p then 1 else 0).

(** The bytes before and after the last slash. *)
Fixpoint split_last (body : list Z) : option (list Z * list Z) :=
  match body with
  | [] => None
  | c :: body' =>
      match split_last body' with
      | Some (pre, post) => Some (c :: pre, post)
      | None => if c =? SLASH then Some ([], body') else None
      end
  end.

(** [parse_next_component_back]: the path without its last piece, and the piece. *)
Definition next_piece_back (p : list Z) : list Z * list Z :=
  let n := len_before_body p in
  match split_last (drop n p) with
  | Some (pre, post) => (take n p ++ pre, post)
  | None => (take n p, drop n p)
  end.

(** A piece that [Components] skips. *)
Definition skipped (piece : list Z) : bool := bool_decide (piece = [] \/ piece = [DOT]).

(** [trim_right]: every skipped piece is at least one byte shorter than its path. *)
Fixpoint trim_right_loop (fuel : nat) (p : list Z) : list Z :=
  match fuel with
  | O => p
  | S fuel' =>
      if (len_before_body p <? length p)%nat then
        let (rest, piece) := next_piece_back p in
        if skipped piece then trim_right_loop fuel' rest else p
      else p
  end.

Definition trim_right (p : list Z) : list Z := trim_right_loop (length p) p.

(** [Components::next_back]. *)
Definition next_back (p : list Z) : option (list Z * Component) :=
  let p := trim_right p in
  if (len_before_body p <? length p)%nat then
    let (rest, piece) := next_piece_back p in
    Some (rest, if decide (piece = [DOT; DOT]) then ParentDir else Normal piece)
  else if has_root p then Some ([], RootDir)
  else if include_cur_dir p then Some ([], CurDir)
  else None.

(** [Path::parent]. *)
Definition parent (p : list Z) : option (list Z) :=
  match next_back p with
  | Some (_, RootDir) | None => None
  | Some (rest, CurDir) => Some rest
  | Some (rest, _) => Some (trim_right rest)
  end.

(** [Path::file_name], with the bytes of the path before it. *)
Definition file_name (p : list Z) : option (list Z * list Z) :=
  match next_back p with
  | Some (_, Normal name) =>
      let p := trim_right p in Some (take (length p - length name) p, name)
  | _ => None
  end.

(** The last dot of a file name, with what is before and after it. *)
Fixpoint rsplit_dot (name : list Z) : option (list Z * list Z) :=
  match name with
  | [] => None
  | c :: name' =>
      match rsplit_dot name' with
      | Some (before, after) => Some (c :: before, after)
      | None => if c =? DOT then Some ([], name') else None
      end
  end.

(** [rsplit_file_at_dot]: stem and extension of a file name. *)
Definition stem_extension (name : list Z) : list Z * option (list Z) :=
  match rsplit_dot name with
  | None | Some ([], _) => (name, None)
  | Some (before, after) => (before, Some after)
  end.

(** [Path::extension]. *)
Definition extension (p : list Z) : option (list Z) :=
  match file_name p with
  | Some (_, name) => snd (stem_extension name)
  | None => None
  end.

(** [PathBuf::set_extension] with a non-empty extension. *)
Definition set_extension (p ext : list Z) : list Z :=
  match file_name p with
  | Some (before, name) => before ++ fst (stem_extension name) ++ DOT :: ext
  | None => p
  end.

(** ** Paths that end in a file name *)

Definition no_slash (name : list Z) : Prop := Forall (fun c => c <> SLASH) name.

(** A piece that names a file: neither empty nor a single dot. *)
Definition names_file (name : list Z) : Prop := no_slash name /\ skipped name = false.

Lemma split_last_no_slash name : no_slash name -> split_last name = None.
Proof.
  induction 1 as [|c name Hc _ IH]; [done|]. cbn. rewrite IH. by rewrite (proj2 (Z.eqb_neq c _)).
Qed.

Lemma split_last_app pre name : no_slash name -> split_last (pre ++ SLASH :: name) = Some (pre, name).
Proof.
  intros Hn. induction pre as [|c pre IH]; cbn; [by rewrite split_last_no_slash|]. by rewrite IH.
Qed.

Lemma len_before_body_le p : (len_before_body p <= 1)%nat.
Proof. unfold len_before_body, include_cur_dir. destruct (has_root p); [done|]. case_match; lia. Qed.

Lemma next_piece_back_in d name :
  no_slash name ->
  next_piece_back (d ++ SLASH :: name) = (if decide (d = []) then [SLASH] else d, name).
Proof.
  intros Hn. unfold next_piece_back. destruct d as [|c d].
  - cbn [app]. unfold len_before_body, include_cur_dir. cbn [has_root]. change (SLASH =? SLASH) with true.
    cbn [Nat.add drop take]. by rewrite split_last_no_slash.
  - pose proof (len_before_body_le ((c :: d) ++ SLASH :: name)) as Hl.
    destruct (len_before_body _) as [|[|n]]; [| |lia].
    + rewrite drop_0. by pose proof (split_last_app (c :: d) name Hn) as ->.
    + change (drop 1 ((c :: d) ++ SLASH :: name)) with (drop 0 (d ++ SLASH :: name)).
      rewrite drop_0, split_last_app by done. done.
Qed.

Lemma next_piece_back_bare name :
  names_file name -> len_before_body name = 0%nat /\ next_piece_back name = ([], name).
Proof.
  intros [Hn Hs]. assert (len_before_body name = 0%nat) as Hl.
  { unfold len_before_body, include_cur_dir, has_root. destruct name as [|c name]; [done|].
    apply Forall_cons_iff in Hn as [Hc Hn]. rewrite (proj2 (Z.eqb_neq c SLASH)) by done.
    destruct name as [|e name].
    - destruct (Z.eqb_spec c DOT) as [->|]; [done|done].
    - apply Forall_cons_iff in Hn as [He _]. rewrite (proj2 (Z.eqb_neq e SLASH)) by done.
      by rewrite andb_false_r. }
  split; [done|]. unfold next_piece_back. rewrite Hl. cbn [drop take].
  by rewrite split_last_no_slash.
Qed.

Lemma names_file_nonempty name : names_file name -> (0 < length name)%nat.
Proof. intros [_ H]. destruct name; [done|cbn; lia]. Qed.

Lemma trim_right_stop p piece rest :
  (len_before_body p < length p)%nat -> next_piece_back p = (rest, piece) -> skipped piece = false ->
  trim_right p = p.
Proof.
  intros Hl Hp Hs. unfold trim_right. destruct (length p) as [|n] eqn:E; [lia|]. cbn [trim_right_loop].
  rewrite E, (proj2 (Nat.ltb_lt _ _) Hl), Hp. cbn. by rewrite Hs.
Qed.

(** A file's parent: its directory, the root, or the empty path for a bare name. *)
Lemma parent_in d name :
  names_file name ->
  parent (d ++ SLASH :: name) = Some (trim_right (if decide (d = []) then [SLASH] else d)).
Proof.
  intros Hf. pose proof (names_file_nonempty _ Hf). destruct Hf as [Hn Hs].
  pose proof (next_piece_back_in d name Hn) as Hp.
  assert ((len_before_body (d ++ SLASH :: name) < length (d ++ SLASH :: name))%nat) as Hl.
  { pose proof (len_before_body_le (d ++ SLASH :: name)). rewrite length_app. cbn. lia. }
  unfold parent, next_back. rewrite (trim_right_stop _ _ _ Hl Hp Hs), (proj2 (Nat.ltb_lt _ _) Hl), Hp.
  by destruct (decide (name = [DOT; DOT])).
Qed.

Lemma parent_bare name : names_file name -> parent name = Some [].
Proof.
  intros Hf. destruct (next_piece_back_bare name Hf) as [Hl Hp]. pose proof (names_file_nonempty _ Hf).
  assert ((len_before_body name < length name)%nat) as Hlt by lia.
  unfold parent, next_back. rewrite (trim_right_stop _ _ _ Hlt Hp (proj2 Hf)), (proj2 (Nat.ltb_lt _ _) Hlt), Hp.
  by destruct (decide (name = [DOT; DOT])).
Qed.

Lemma names_file_app name suffix :
  names_file name -> no_slash suffix -> names_file (name ++ suffix).
Proof.
  intros [Hn Hs] Hx. split; [by apply Forall_app|]. unfold skipped in *.
  apply bool_decide_eq_false in Hs. apply bool_decide_eq_false. intros [He|He]; apply Hs.
  - left. by apply app_eq_nil in He as [-> _].
  - destruct name as [|c [|e name]]; [by left| |done]. injection He as -> _. by right.
Qed.

(** ** Taking a path apart *)

Lemma split_last_spec body :
  match split_last body with
  | Some (pre, post) => body = pre ++ SLASH :: post /\ no_slash post
  | None => no_slash body
  end.
Proof.
  induction body as [|c body IH]; cbn; [constructor|]. destruct (split_last body) as [[pre post]|].
  - destruct IH as [-> Hn]. by split.
  - destruct (Z.eqb_spec c SLASH) as [->|Hc]; [done|by constructor].
Qed.

Lemma next_piece_back_spec p rest piece :
  next_piece_back p = (rest, piece) -> (len_before_body p < length p)%nat ->
  (length rest < length p)%nat /\ no_slash piece.
Proof.
  unfold next_piece_back. pose proof (split_last_spec (drop (len_before_body p) p)) as Hs. intros H Hl.
  destruct (split_last _) as [[pre post]|]; injection H as <- <-.
  - destruct Hs as [Hd Hn]. split; [|done]. apply (f_equal length) in Hd.
    rewrite length_drop, length_app in Hd. cbn in Hd. rewrite length_app, length_take. lia.
  - split; [|done]. rewrite length_take. lia.
Qed.

Lemma trim_right_loop_spec fuel p :
  (length p <= fuel)%nat ->
  let q := trim_right_loop fuel p in
  (length q <= length p)%nat /\
  ((len_before_body q < length q)%nat -> skipped (next_piece_back q).2 = false).
Proof.
  revert p. induction fuel as [|fuel IH]; intros p Hf; cbn [trim_right_loop]; [split; lia|].
  destruct (Nat.ltb_spec (len_before_body p) (length p)) as [Hl|Hl]; [|split; lia].
  destruct (next_piece_back p) as [rest piece] eqn:Hp. destruct (next_piece_back_spec _ _ _ Hp Hl) as [Hr _].
  destruct (skipped piece) eqn:Hs; [|rewrite Hp; split; [lia|done]]. destruct (IH rest ltac:(lia)) as [Hle Hk]. split; [lia|done].
Qed.

Lemma parent_shorter p q : parent p = Some q -> (length q < length p)%nat.
Proof.
  unfold parent, next_back. destruct (trim_right_loop_spec (length p) p ltac:(lia)) as [Hle _].
  fold (trim_right p) in Hle. destruct (Nat.ltb_spec (len_before_body (trim_right p)) (length (trim_right p))) as [Hl|_].
  - destruct (next_piece_back (trim_right p)) as [rest piece] eqn:Hp.
    destruct (next_piece_back_spec _ _ _ Hp Hl) as [Hr _].
    destruct (trim_right_loop_spec (length rest) rest ltac:(lia)) as [Hle' _]. fold (trim_right rest) in Hle'.
    by destruct (decide (piece = [DOT; DOT])); intros [= <-]; lia.
  - destruct (has_root (trim_right p)); [done|]. destruct (include_cur_dir (trim_right p)) eqn:Hc; [|done].
    intros [= <-]. destruct (trim_right p); [done|]. cbn in *. lia.
Qed.

(** A file name has no slash and is not a skipped piece. *)
Lemma file_name_names p before name : file_name p = Some (before, name) -> names_file name.
Proof.
  unfold file_name, next_back. destruct (trim_right_loop_spec (length p) p ltac:(lia)) as [_ Hk].
  fold (trim_right p) in Hk. destruct (Nat.ltb_spec (len_before_body (trim_right p)) (length (trim_right p))) as [Hl|_].
  - destruct (next_piece_back (trim_right p)) as [rest piece] eqn:Hp.
    destruct (next_piece_back_spec _ _ _ Hp Hl) as [_ Hn]. specialize (Hk Hl). cbn in Hk.
    destruct (decide (piece = [DOT; DOT])); [done|]. by intros [= _ <-].
  - by destruct (has_root (trim_right p)), (include_cur_dir (trim_right p)).
Qed.

(** [PathBuf::push]. *)
Definition path_push (dir name : list Z) : list Z :=
  if has_root name then name
  else match last dir with
       | None => name
       | Some c => if c =? SLASH then dir ++ name else dir ++ SLASH :: name
       end.

Lemma names_file_relative name : names_file name -> has_root name = false.
Proof. intros [Hn _]. destruct Hn as [|c name Hc _]; [done|]. by apply Z.eqb_neq. Qed.

(** Pushing a name onto a directory that itself ends in a name. *)
Lemma path_push_in d dir name :
  names_file dir -> names_file name -> path_push (d ++ dir) name = (d ++ dir) ++ SLASH :: name.
Proof.
  intros Hd Hn. unfold path_push. rewrite names_file_relative by done.
  destruct (last (d ++ dir)) as [c|] eqn:Hl.
  - rewrite last_app in Hl. destruct Hd as [Hd Hs]. destruct (last dir) as [c'|] eqn:Hl'.
    + injection Hl as ->. apply last_Some in Hl' as [l ->]. apply Forall_app in Hd as [_ Hd].
      inversion_clear Hd as [|? ? Hc]. by rewrite (proj2 (Z.eqb_neq c SLASH)).
    + by apply last_None in Hl' as ->.
  - apply last_None in Hl. apply app_eq_nil in Hl as [_ ->]. by destruct Hd.
Qed.
