(* ===== verification/Disk.v ===== *)
(** * Disk: [std::fs] and [std::io] on the files of one host

    The file operations the sources use, on a store of directories, names and
    inodes.  A script chooses the outcome of every system call: it fails, it
    takes part of a write, or it proceeds; when the script is exhausted every
    call proceeds.  The store keeps every image it passed through, so that what
    a crash would leave behind can be stated. *)

From stdpp Require Import base numbers list option gmap strings.
From Stdlib Require Import ZArith Lia.
From S2P Require Import Prelude Text Prog Paths.

Local Open Scope Z_scope.
Local Open Scope squib_scope.

(** ** The store *)

(** A file, and whether its bytes are known to be on stable storage. *)
Record File := mkFile { f_bytes : list Z; f_synced : bool }.

(** Names and the inodes they lead to. *)
Record Image := mkImage { im_dir : gmap (list Z) nat; im_inodes : list File }.

Definition at_path (im : Image) (path : list Z) : option File := im_dir im !! path ≫= (im_inodes im !!.).

(** A directory's [st_dev] and [st_size]. *)
Record DirMeta := mkDirMeta { dm_dev : Z; dm_len : Z }.

Record Fd := mkFd { fd_ino : nat; fd_pos : Z }.

Inductive Outcome := Proceeds | Takes (n : nat) | Fails (e : IoError).

Record Disk := mkDisk {
  dk_now : Image;
  dk_past : list Image;
  dk_dirs : gmap (list Z) DirMeta;
  dk_fds : list Fd;
  dk_script : list Outcome
}.

Definition ENOENT : IoError := mkIoError 2.
Definition EINTR : IoError := mkIoError 4.
Definition EBADF : IoError := mkIoError 9.
Definition EISDIR : IoError := mkIoError 21.

(** [ErrorKind]s the library and the sources make up: no code of the system. *)
Definition WRITE_ZERO : IoError := mkIoError (-1).
Definition INVALID_INPUT : IoError := mkIoError (-2).
Definition UNEXPECTED_EOF : IoError := mkIoError (-3).

Definition set_image (im : Image) (d : Disk) : Disk :=
  mkDisk im (im :: dk_past d) (dk_dirs d) (dk_fds d) (dk_script d).

Definition set_fds (fds : list Fd) (d : Disk) : Disk :=
  mkDisk (dk_now d) (dk_past d) (dk_dirs d) fds (dk_script d).

Definition set_file (i : nat) (f : File) (d : Disk) : Disk :=
  set_image (mkImage (im_dir (dk_now d)) (<[i := f]> (im_inodes (dk_now d)))) d.

(** ** System calls *)

Definition next_outcome (d : Disk) : Disk * Outcome :=
  match dk_script d with
  | [] => (d, Proceeds)
  | o :: script => (mkDisk (dk_now d) (dk_past d) (dk_dirs d) (dk_fds d) script, o)
  end.

Definition sys {A} (act : Disk -> Disk * result IoError A) : prog Disk IoError A :=
  fun d => let (d, o) := next_outcome d in
           match o with
           | Fails e => Some (d, Err e)
           | _ => Some (act d)
           end.

(** Where the kernel looks a name up; a relative name is in the working directory [.]. *)
Definition dir_of (path : list Z) : list Z :=
  match parent path with
  | Some [] => [DOT]
  | Some dir => dir
  | None => path
  end.

(** A path whose last piece can only be a directory. *)
Definition dir_like (path : list Z) : bool :=
  let piece := match split_last path with Some (_, post) => post | None => path end in
  skipped piece || bool_decide (piece = [DOT; DOT]).

(** [metadata(dir)?.dev()] and [metadata(path)?.len()]. *)
Definition metadata_dev (dir : list Z) : prog Disk IoError Z :=
  sys (fun d => (d, match dk_dirs d !! dir with Some m => Ok (dm_dev m) | None => Err ENOENT end)).

Definition metadata_len (path : list Z) : prog Disk IoError Z :=
  sys (fun d => (d, match dk_dirs d !! path, at_path (dk_now d) path with
                    | Some m, _ => Ok (dm_len m)
                    | None, Some f => Ok (zlen (f_bytes f))
                    | None, None => Err ENOENT
                    end)).

Definition add_fd (i : nat) (d : Disk) : Disk * result IoError nat :=
  (set_fds (dk_fds d ++ [mkFd i 0]) d, Ok (length (dk_fds d))).

(** [OpenOptions::new().write(true).create(true).truncate(true).open(path)]. *)
Definition open_truncate (path : list Z) : prog Disk IoError nat :=
  sys (fun d =>
    if dir_like path || bool_decide (is_Some (dk_dirs d !! path)) then (d, Err EISDIR)
    else match dk_dirs d !! dir_of path with
         | None => (d, Err ENOENT)
         | Some _ =>
             match im_dir (dk_now d) !! path with
             | Some i => add_fd i (set_file i (mkFile [] false) d)
             | None =>
                 let i := length (im_inodes (dk_now d)) in
                 add_fd i (set_image (mkImage (<[path := i]> (im_dir (dk_now d)))
                                              (im_inodes (dk_now d) ++ [mkFile [] false])) d)
             end
         end).

(** [File::open(path)]. *)
Definition open_read (path : list Z) : prog Disk IoError nat :=
  sys (fun d => match im_dir (dk_now d) !! path with
                | Some i => add_fd i d
                | None => (d, Err ENOENT)
                end).

(** The file behind a descriptor. *)
Definition on_fd {A} (h : nat) (act : Fd -> File -> Disk -> Disk * result IoError A) (d : Disk)
  : Disk * result IoError A :=
  match dk_fds d !! h with
  | Some fd => match im_inodes (dk_now d) !! fd_ino fd with
               | Some f => act fd f d
               | None => (d, Err EBADF)
               end
  | None => (d, Err EBADF)
  end.

Definition set_pos (h : nat) (fd : Fd) (pos : Z) (d : Disk) : Disk :=
  set_fds (<[h := mkFd (fd_ino fd) pos]> (dk_fds d)) d.

(** Bytes [bs] stored from offset [k], a gap before them read back as zeros. *)
Definition patch (content : list Z) (k : nat) (bs : list Z) : list Z :=
  if decide (bs = []) then content
  else resize k 0 content ++ bs ++ drop (k + length bs) content.

(** [write(2)]: at the cursor, as many bytes as the script lets it take. *)
Definition write (h : nat) (buf : list Z) : prog Disk IoError nat :=
  fun d =>
    let (d, o) := next_outcome d in
    match o with
    | Fails e => Some (d, Err e)
    | _ =>
        let n := match o with Takes k => Nat.min k (length buf) | _ => length buf end in
        Some (on_fd h (fun fd f d =>
          let d := set_file (fd_ino fd) (mkFile (patch (f_bytes f) (Z.to_nat (fd_pos fd)) (take n buf)) false) d in
          (set_pos h fd (fd_pos fd + Z.of_nat n) d, Ok n)) d)
    end.

(** [seek(SeekFrom::Start(pos))], [set_len], [sync_all]. *)
Definition seek_start (h : nat) (pos : Z) : prog Disk IoError unit :=
  sys (on_fd h (fun fd _ d => (set_pos h fd pos d, Ok tt))).

Definition set_len (h : nat) (len : Z) : prog Disk IoError unit :=
  sys (on_fd h (fun fd f d => (set_file (fd_ino fd) (mkFile (resize (Z.to_nat len) 0 (f_bytes f)) false) d, Ok tt))).

Definition sync_all (h : nat) : prog Disk IoError unit :=
  sys (on_fd h (fun fd f d => (set_file (fd_ino fd) (mkFile (f_bytes f) true) d, Ok tt))).

Fixpoint take_z (n : Z) (l : list Z) : list Z :=
  match l with
  | [] => []
  | x :: l' => if n <=? 0 then [] else x :: take_z (n - 1) l'
  end.

(** [read_to_end] from the cursor, of at most [cap] bytes if there is a [take];
    short reads are retried. *)
Definition read_to_end (h : nat) (cap : option Z) : prog Disk IoError (list Z) :=
  sys (on_fd h (fun fd f d =>
    let rest := drop (Z.to_nat (fd_pos fd)) (f_bytes f) in
    let bs := match cap with Some n => take_z n rest | None => rest end in
    (set_pos h fd (fd_pos fd + zlen bs) d, Ok bs))).

(** [FileExt::read_at]: one [pread(2)] into a buffer of [len] bytes. *)
Definition pread (h : nat) (len : nat) (off : Z) : prog Disk IoError (list Z) :=
  fun d =>
    let (d, o) := next_outcome d in
    match o with
    | Fails e => Some (d, Err e)
    | _ =>
        let n := match o with Takes k => Nat.min k len | _ => len end in
        Some (on_fd h (fun _ f d => (d, Ok (take n (drop (Z.to_nat off) (f_bytes f))))) d)
    end.

(** [rename(2)]. *)
Definition rename (from to : list Z) : prog Disk IoError unit :=
  sys (fun d =>
    match im_dir (dk_now d) !! from with
    | None => (d, Err ENOENT)
    | Some i =>
        if dir_like to || bool_decide (is_Some (dk_dirs d !! to)) then (d, Err EISDIR)
        else match dk_dirs d !! dir_of to with
             | None => (d, Err ENOENT)
             | Some _ =>
                 (set_image (mkImage (<[to := i]> (delete from (im_dir (dk_now d)))) (im_inodes (dk_now d))) d, Ok tt)
             end
    end).

(** [std::fs::remove_file]. *)
Definition remove_file (path : list Z) : prog Disk IoError unit :=
  sys (fun d =>
    match im_dir (dk_now d) !! path with
    | None => (d, Err ENOENT)
    | Some _ => (set_image (mkImage (delete path (im_dir (dk_now d))) (im_inodes (dk_now d))) d, Ok tt)
    end).

(** [Write::write_all] over a [write]: short writes continue with the rest of the
    buffer, [EINTR] is retried. *)
Definition write_all_round {S} (write : list Z -> prog S IoError nat) (buf : list Z)
  : prog S IoError (list Z + unit) :=
  if decide (buf = []) then p_ret (inr tt)
  else fun s =>
    match write buf s with
    | None => None
    | Some (s', Ok O) => Some (s', Err WRITE_ZERO)
    | Some (s', Ok n) => Some (s', Ok (inl (drop n buf)))
    | Some (s', Err e) => if decide (e = EINTR) then Some (s', Ok (inl buf)) else Some (s', Err e)
    end.

(** Every round takes a byte or uses up an entry of the script. *)
Definition write_all {S} (disk : S -> Disk) (write : list Z -> prog S IoError nat) (buf : list Z)
  : prog S IoError unit :=
  fun s => p_loop (rounds (zlen buf + zlen (dk_script (disk s)) + 1)) (write_all_round write) buf s.

(** ** What a call leaves alone *)

(** The descriptor [h] is open on the inode [i], at [pos], and the inode is [f]. *)
Record holds (h i : nat) (pos : Z) (f : File) (d : Disk) : Prop := mkHolds {
  ho_fd : dk_fds d !! h = Some (mkFd i pos);
  ho_file : im_inodes (dk_now d) !! i = Some f
}.

(** Names are as before and so is every inode but [i]. *)
Definition only_inode (i : nat) (im im' : Image) : Prop :=
  im_dir im' = im_dir im /\ length (im_inodes im') = length (im_inodes im) /\
  forall j, j <> i -> im_inodes im' !! j = im_inodes im !! j.

(** The calls between [d] and [d'] worked on the descriptor [h] and its inode [i] only. *)
Record touches (h i : nat) (d d' : Disk) : Prop := mkTouches {
  to_now : only_inode i (dk_now d) (dk_now d');
  to_past : exists new, dk_past d' = new ++ dk_past d /\ Forall (only_inode i (dk_now d)) new;
  to_dirs : dk_dirs d' = dk_dirs d;
  to_fds : length (dk_fds d') = length (dk_fds d) /\ forall k, k <> h -> dk_fds d' !! k = dk_fds d !! k;
  to_script : zlen (dk_script d') <= zlen (dk_script d)
}.

Lemma only_inode_refl i im : only_inode i im im.
Proof. by split_and!. Qed.

Lemma only_inode_trans i a b c : only_inode i a b -> only_inode i b c -> only_inode i a c.
Proof.
  intros (Hd & Hl & Hj) (Hd' & Hl' & Hj'). split_and!; [congruence|congruence|].
  intros j Hne. by rewrite Hj', Hj.
Qed.

Lemma touches_refl h i d : touches h i d d.
Proof. split; [apply only_inode_refl|by exists []|done|done|done]. Qed.

Lemma touches_trans h i a b c : touches h i a b -> touches h i b c -> touches h i a c.
Proof.
  intros [H1 (n1 & P1 & F1) D1 [L1 K1] S1] [H2 (n2 & P2 & F2) D2 [L2 K2] S2]. split.
  - by eapply only_inode_trans.
  - exists (n2 ++ n1). rewrite P2, P1, app_assoc. split; [done|]. apply Forall_app. split; [|done].
    eapply Forall_impl; [exact F2|]. intros im. by apply only_inode_trans.
  - congruence.
  - split; [congruence|]. intros k Hk. by rewrite K2, K1.
  - lia.
Qed.

Lemma next_outcome_touches h i d d' o : next_outcome d = (d', o) -> touches h i d d'.
Proof.
  unfold next_outcome. destruct (dk_script d) as [|o' s] eqn:E; intros [= <- <-]; [apply touches_refl|].
  split; cbn; [apply only_inode_refl|by exists []|done|done|]. rewrite E. unfold zlen. cbn. lia.
Qed.

Lemma next_outcome_holds h i pos f d d' o : next_outcome d = (d', o) -> holds h i pos f d -> holds h i pos f d'.
Proof. unfold next_outcome. destruct (dk_script d); intros [= <- <-] [? ?]; by split. Qed.

(** A failing call uses up an entry of the script. *)
Lemma next_outcome_fails d d' e : next_outcome d = (d', Fails e) -> zlen (dk_script d') < zlen (dk_script d).
Proof.
  unfold next_outcome. destruct (dk_script d) eqn:E; intros [= <- ->]. unfold zlen. cbn. lia.
Qed.

Lemma set_file_touches h i f d : (i < length (im_inodes (dk_now d)))%nat -> touches h i d (set_file i f d).
Proof.
  intros Hi. assert (only_inode i (dk_now d) (dk_now (set_file i f d))) as Ho.
  { split_and!; cbn; [done|by rewrite length_insert|]. intros j Hj. by rewrite list_lookup_insert_ne. }
  split; cbn; [done| |done|done|done]. exists [dk_now (set_file i f d)]. split; [done|]. by constructor.
Qed.

Lemma set_pos_touches h i fd pos d : touches h i d (set_pos h fd pos d).
Proof.
  split; cbn; [apply only_inode_refl|by exists []|done| |done].
  split; [by rewrite length_insert|]. intros k Hk. by rewrite list_lookup_insert_ne.
Qed.

Lemma holds_inode_lt h i pos f d : holds h i pos f d -> (i < length (im_inodes (dk_now d)))%nat.
Proof. intros [_ H]. by apply lookup_lt_Some in H. Qed.

Lemma holds_set_file h i pos f f' d : holds h i pos f d -> holds h i pos f' (set_file i f' d).
Proof.
  intros Hh. pose proof (holds_inode_lt _ _ _ _ _ Hh). destruct Hh as [Hf _].
  split; cbn; [done|]. by apply list_lookup_insert_eq.
Qed.

Lemma holds_set_pos h i pos pos' f d : holds h i pos f d -> holds h i pos' f (set_pos h (mkFd i pos) pos' d).
Proof.
  intros [Hf Hi]. split; cbn; [|done]. apply list_lookup_insert_eq. by apply lookup_lt_Some in Hf.
Qed.

Lemma on_fd_holds {A} h i pos f d (act : Fd -> File -> Disk -> Disk * result IoError A) :
  holds h i pos f d -> on_fd h act d = act (mkFd i pos) f d.
Proof. intros [Hf Hi]. unfold on_fd. rewrite Hf. cbn [fd_ino]. by rewrite Hi. Qed.

(** ** Calls on a descriptor *)

Section fd_calls.
Context {h i : nat} {pos : Z} {f : File} {d : Disk} (Hh : holds h i pos f d).

(** A call that either fails or works on the descriptor. *)
Lemma sys_spec {A} (act : Fd -> File -> Disk -> Disk * result IoError A) (post : Disk -> A -> Prop) :
  (forall d', holds h i pos f d' -> exists d2 a, act (mkFd i pos) f d' = (d2, Ok a) /\ touches h i d' d2 /\ post d2 a) ->
  wp (sys (on_fd h act)) (fun d' r => touches h i d d' /\
    match r with Ok a => post d' a | Err _ => holds h i pos f d' end) d.
Proof.
  intros Hact. unfold wp, sys. destruct (next_outcome d) as [d1 o] eqn:Eo.
  pose proof (next_outcome_touches h i _ _ _ Eo) as Ht. pose proof (next_outcome_holds _ _ _ _ _ _ _ Eo Hh) as Hh1.
  destruct o; [rewrite (on_fd_holds _ _ _ _ _ _ Hh1); destruct (Hact d1 Hh1) as (d2 & a & -> & Ht2 & Hp)..|done];
    (split; [by eapply touches_trans|done]).
Qed.

Lemma seek_spec p :
  wp (seek_start h p) (fun d' r => touches h i d d' /\
    match r with Ok _ => holds h i p f d' | Err _ => holds h i pos f d' end) d.
Proof.
  apply sys_spec. intros d' Hd. eexists _, _. split; [done|]. split; [apply set_pos_touches|by apply holds_set_pos].
Qed.

Lemma set_len_spec n :
  wp (set_len h n) (fun d' r => touches h i d d' /\
    match r with Ok _ => holds h i pos (mkFile (resize (Z.to_nat n) 0 (f_bytes f)) false) d'
               | Err _ => holds h i pos f d' end) d.
Proof.
  apply sys_spec. intros d' Hd. eexists _, _. split; [done|].
  split; [eapply set_file_touches, holds_inode_lt, Hd|by eapply holds_set_file].
Qed.

Lemma sync_all_spec :
  wp (sync_all h) (fun d' r => touches h i d d' /\
    match r with Ok _ => holds h i pos (mkFile (f_bytes f) true) d' | Err _ => holds h i pos f d' end) d.
Proof.
  apply sys_spec. intros d' Hd. eexists _, _. split; [done|].
  split; [eapply set_file_touches, holds_inode_lt, Hd|by eapply holds_set_file].
Qed.

(** What one [write] leaves: the bytes it took, or an error and a shorter script. *)
Lemma write_spec buf :
  wp (write h buf) (fun d' r => touches h i d d' /\
    match r with
    | Ok n => (n <= length buf)%nat /\
              holds h i (pos + Z.of_nat n) (mkFile (patch (f_bytes f) (Z.to_nat pos) (take n buf)) false) d'
    | Err _ => holds h i pos f d' /\ zlen (dk_script d') < zlen (dk_script d)
    end) d.
Proof.
  unfold wp, write. destruct (next_outcome d) as [d1 o] eqn:Eo.
  pose proof (next_outcome_touches h i _ _ _ Eo) as Ht. pose proof (next_outcome_holds _ _ _ _ _ _ _ Eo Hh) as Hh1.
  destruct o as [|k|e]; [| |by split; [|split; [|eapply next_outcome_fails]]];
    rewrite (on_fd_holds _ _ _ _ _ _ Hh1); cbn [fd_ino fd_pos];
    (split; [eapply touches_trans; [exact Ht|]; eapply touches_trans;
             [eapply set_file_touches, holds_inode_lt, Hh1|apply set_pos_touches]|]);
    (split; [lia|by apply holds_set_pos, (holds_set_file _ _ _ f)]).
Qed.

End fd_calls.

(** ** [write_all] *)

Lemma zlen_nat {A} (l : list A) : Z.to_nat (zlen l) = length l.
Proof. apply Nat2Z.id. Qed.

Lemma zlen_app {A} (l k : list A) : zlen (l ++ k) = zlen l + zlen k.
Proof. unfold zlen. rewrite length_app. lia. Qed.

Lemma zlen_nonneg {A} (l : list A) : 0 <= zlen l.
Proof. unfold zlen. lia. Qed.

(** A [write] that keeps [I], a statement about the bytes written so far, carries
    it to the end of the buffer: [write_all] returns, with all of it written or
    with an error after some of it. *)
Lemma write_all_rule {S} (disk : S -> Disk) (write : list Z -> prog S IoError nat)
    (I : list Z -> S -> Prop) buf (Q : S -> result IoError unit -> Prop) s :
  (forall done rest s, done ++ rest = buf -> rest <> [] -> I done s ->
    wp (write rest) (fun s' r => match r with
      | Ok n => I (done ++ take n rest) s' /\ zlen (dk_script (disk s')) <= zlen (dk_script (disk s))
      | Err _ => I done s' /\ zlen (dk_script (disk s')) < zlen (dk_script (disk s))
      end) s) ->
  I [] s -> (forall s', I buf s' -> Q s' (Ok tt)) -> (forall done s' e, I done s' -> Q s' (Err e)) ->
  wp (write_all disk write buf) Q s.
Proof.
  intros Hw HI Hok Herr.
  change (wp (p_loop (rounds (zlen buf + zlen (dk_script (disk s)) + 1)) (write_all_round write) buf) Q s).
  apply (wp_loop (fun rest s => exists done, done ++ rest = buf /\ I done s)
                 (fun rest s => zlen rest + zlen (dk_script (disk s)))).
  - clear s HI. intros rest s (done & Hbuf & HI). split; [unfold zlen; lia|].
    unfold write_all_round. case_decide as Hr.
    { subst rest. rewrite app_nil_r in Hbuf. subst. by apply wp_ret, Hok. }
    specialize (Hw done rest s Hbuf Hr HI). unfold wp in *.
    destruct (write rest s) as [[s' [n|e]]|]; [| |done].
    + destruct Hw as [HI' Hs]. destruct n as [|n]; [by eapply Herr|]. split.
      * exists (done ++ take (Datatypes.S n) rest). split; [|done]. by rewrite <- app_assoc, take_drop.
      * unfold zlen in *. rewrite length_drop. destruct rest; [done|]. cbn [length]. lia.
    + destruct Hw as [HI' Hs]. case_decide; [|by eapply Herr]. split; [by exists done|lia].
  - by exists [].
  - pose proof (rounds_spec (zlen buf + zlen (dk_script (disk s)) + 1) ltac:(unfold zlen; lia)). lia.
Qed.

Lemma patch_nil c k : patch c k [] = c.
Proof. done. Qed.

Lemma patch_length c k bs : (k <= length c)%nat -> length (patch c k bs) = Nat.max (length c) (k + length bs).
Proof.
  intros Hk. unfold patch. case_decide as Hb; [subst; cbn; lia|].
  rewrite !length_app, length_resize, length_drop. lia.
Qed.

Lemma patch_end c bs : patch c (length c) bs = c ++ bs.
Proof.
  unfold patch. case_decide as Hb; [by subst; rewrite app_nil_r|].
  rewrite resize_all, drop_ge, app_nil_r by lia. done.
Qed.

Lemma patch_within c k bs : (k + length bs <= length c)%nat -> patch c k bs = splice k bs c.
Proof.
  intros Hk. unfold patch, splice. case_decide as Hb.
  - subst. cbn. by rewrite Nat.add_0_r, take_drop.
  - by rewrite resize_le by lia.
Qed.

(** Consecutive writes are one write. *)
Lemma patch_app c k a b : patch (patch c k a) (k + length a) b = patch c k (a ++ b).
Proof.
  destruct (decide (a = [])) as [->|Ha]; [cbn; by rewrite Nat.add_0_r|].
  destruct (decide (b = [])) as [->|Hb]; [by rewrite patch_nil, app_nil_r|].
  unfold patch. rewrite !decide_False by (intros [? ?]%app_nil || done; done).
  rewrite length_app. set (l := drop (k + length a) c).
  assert (length (resize k 0 c) = k) as Hl by apply length_resize.
  assert (resize (k + length a) 0 (resize k 0 c ++ a ++ l) = resize k 0 c ++ a) as ->.
  { rewrite app_assoc, resize_app_le by (rewrite length_app; lia).
    by rewrite resize_all_alt by (rewrite length_app; lia). }
  rewrite (drop_app_ge (resize k 0 c)) by lia. rewrite Hl.
  rewrite drop_app_ge by lia. subst l. rewrite drop_drop, <- !app_assoc.
  do 3 f_equal. f_equal. lia.
Qed.

(** The bytes of a file, whether or not they are on stable storage. *)
Definition contains (h i : nat) (pos : Z) (bs : list Z) (d : Disk) : Prop :=
  exists synced, holds h i pos (mkFile bs synced) d.

Lemma write_all_fd_spec {h i pos c d} buf :
  contains h i pos c d -> 0 <= pos ->
  wp (write_all id (write h) buf) (fun d' r => touches h i d d' /\
    match r with
    | Ok _ => contains h i (pos + zlen buf) (patch c (Z.to_nat pos) buf) d'
    | Err _ => exists pos' c', contains h i pos' c' d'
    end) d.
Proof.
  intros Hh Hp.
  apply (write_all_rule _ _ (fun done d' => touches h i d d' /\
    contains h i (pos + zlen done) (patch c (Z.to_nat pos) done) d')).
  - intros done rest d' Hbuf Hr [Ht [b Hd]]. wp_use @write_spec; [exact Hd|].
    intros d2 [n|e] [Ht2 Hd2]; [|destruct Hd2; split; [split; [by eapply touches_trans|by exists b]|done]].
    destruct Hd2 as [Hn Hd2]. split; [|by destruct Ht2]. split; [by eapply touches_trans|]. exists false.
    cbn [f_bytes] in Hd2. rewrite Z2Nat.inj_add, zlen_nat, patch_app in Hd2 by (done || apply zlen_nonneg).
    replace (pos + zlen (done ++ take n rest)) with (pos + zlen done + Z.of_nat n); [done|].
    unfold zlen. rewrite length_app, length_take. lia.
  - split; [apply touches_refl|]. unfold zlen. cbn. by rewrite Z.add_0_r, patch_nil.
  - done.
  - intros done d' e [Ht Hd]. split; [done|by eexists _, _].
Qed.

(** ** Calls on names *)

(** Every name leads to an inode of its own. *)
Record names_wf (im : Image) : Prop := mkNamesWf {
  nw_inj : forall p q i, im_dir im !! p = Some i -> im_dir im !! q = Some i -> p = q;
  nw_range : forall p i, im_dir im !! p = Some i -> (i < length (im_inodes im))%nat
}.

(** Names but [t] and old inodes but [i] are as before. *)
Record agree (t : list Z) (i : nat) (im im' : Image) : Prop := mkAgree {
  ag_dir : forall p, p <> t -> im_dir im' !! p = im_dir im !! p;
  ag_inode : forall j, j <> i -> (j < length (im_inodes im))%nat -> im_inodes im' !! j = im_inodes im !! j;
  ag_length : (length (im_inodes im) <= length (im_inodes im'))%nat
}.

(** The calls between [d] and [d'] concern the descriptor [h], the inode [i] and
    the name [t] only. *)
Record frame (h i : nat) (t : list Z) (d d' : Disk) : Prop := mkFrame {
  fr_now : agree t i (dk_now d) (dk_now d');
  fr_past : exists new, dk_past d' = new ++ dk_past d /\ Forall (agree t i (dk_now d)) new;
  fr_dirs : dk_dirs d' = dk_dirs d;
  fr_length : (length (dk_fds d) <= length (dk_fds d'))%nat;
  fr_fds : forall k, k <> h -> (k < length (dk_fds d))%nat -> dk_fds d' !! k = dk_fds d !! k
}.

Lemma agree_refl t i im : agree t i im im.
Proof. by split. Qed.

Lemma agree_trans t i a b c : agree t i a b -> agree t i b c -> agree t i a c.
Proof.
  intros [D1 I1 L1] [D2 I2 L2]. split.
  - intros p Hp. by rewrite D2, D1.
  - intros j Hj Hl. rewrite I2, I1 by (done || lia). done.
  - lia.
Qed.

Lemma frame_refl h i t d : frame h i t d d.
Proof. split; [apply agree_refl|by exists []|done|done|done]. Qed.

Lemma frame_trans h i t a b c : frame h i t a b -> frame h i t b c -> frame h i t a c.
Proof.
  intros [A1 (n1 & P1 & F1) D1 L1 K1] [A2 (n2 & P2 & F2) D2 L2 K2]. split.
  - by eapply agree_trans.
  - exists (n2 ++ n1). rewrite P2, P1, app_assoc. split; [done|]. apply Forall_app. split; [|done].
    eapply Forall_impl; [exact F2|]. intros im. by apply agree_trans.
  - congruence.
  - lia.
  - intros k Hk Hl. rewrite K2, K1 by (done || lia). done.
Qed.

Lemma only_inode_agree t i im im' : only_inode i im im' -> agree t i im im'.
Proof. intros (Hd & Hl & Hj). split; [by rewrite Hd|by intros; apply Hj|lia]. Qed.

Lemma touches_frame h i t d d' : touches h i d d' -> frame h i t d d'.
Proof.
  intros [H1 (new & P & F) D1 [L K] _]. split; [by apply only_inode_agree| |done|lia|by intros; apply K].
  exists new. split; [done|]. eapply Forall_impl; [exact F|]. intros im. apply only_inode_agree.
Qed.

Lemma touches_names_wf h i d d' : touches h i d d' -> names_wf (dk_now d) -> names_wf (dk_now d').
Proof. intros [(Hd & Hl & _) _ _ _ _] [Hi Hr]. split; rewrite Hd; [done|by rewrite Hl]. Qed.

Lemma set_image_frame h i t im d : agree t i (dk_now d) im -> frame h i t d (set_image im d).
Proof. intros Ha. split; cbn; [done| |done|done|done]. exists [im]. split; [done|]. by constructor. Qed.

Lemma next_outcome_frame h i t d d' o : next_outcome d = (d', o) -> frame h i t d d'.
Proof. intros H. by eapply touches_frame, next_outcome_touches. Qed.

Lemma next_outcome_now d d' o : next_outcome d = (d', o) -> dk_now d' = dk_now d.
Proof. unfold next_outcome. destruct (dk_script d); by intros [= <- <-]. Qed.

(** The name [t] leads to [i], which the descriptor [h] holds. *)
Record opened (h i : nat) (t : list Z) (pos : Z) (c : list Z) (d : Disk) : Prop := mkOpened {
  op_name : im_dir (dk_now d) !! t = Some i;
  op_contains : contains h i pos c d
}.

(** A file that other calls do not concern stays as it is. *)
Lemma opened_frame h i t pos c h' i' t' d d' :
  h <> h' -> i <> i' -> t <> t' -> frame h' i' t' d d' -> opened h i t pos c d -> opened h i t pos c d'.
Proof.
  intros Hh Hi Ht [[A1 A2 A3] _ _ _ K] [On [b [Hf Hx]]]. split; [by rewrite A1|]. exists b. split.
  - rewrite K; [done|done|]. by apply lookup_lt_Some in Hf.
  - rewrite A2; [done|done|]. by apply lookup_lt_Some in Hx.
Qed.

(** A store that differs in its script only. *)
Record same_files (d d' : Disk) : Prop := mkSameFiles {
  sf_now : dk_now d' = dk_now d;
  sf_past : dk_past d' = dk_past d;
  sf_dirs : dk_dirs d' = dk_dirs d;
  sf_fds : dk_fds d' = dk_fds d
}.

Lemma same_files_trans a b c : same_files a b -> same_files b c -> same_files a c.
Proof. intros [? ? ? ?] [? ? ? ?]. split; congruence. Qed.

Lemma same_files_refl d : same_files d d.
Proof. done. Qed.

Lemma same_files_frame h i t d d' : same_files d d' -> frame h i t d d'.
Proof.
  intros [Hn Hp Hd Hf]. split; [rewrite Hn; apply agree_refl|by exists []|done|by rewrite Hf|by rewrite Hf].
Qed.

(** A system call either fails, with the files untouched, or does its work. *)
Lemma wp_sys {A} (act : Disk -> Disk * result IoError A) Q d :
  (forall d1, same_files d d1 -> (forall e, Q d1 (Err e)) /\ Q (act d1).1 (act d1).2) -> wp (sys act) Q d.
Proof.
  intros H. unfold wp, sys. destruct (next_outcome d) as [d1 o] eqn:Eo.
  assert (same_files d d1) as Hs by (unfold next_outcome in Eo; destruct (dk_script d); by injection Eo as <- <-).
  destruct (H d1 Hs) as [He Hok]. destruct o; [by destruct (act d1)..|done].
Qed.

(** A new name for a new inode. *)
Lemma names_wf_new t f im :
  names_wf im -> im_dir im !! t = None ->
  names_wf (mkImage (<[t := length (im_inodes im)]> (im_dir im)) (im_inodes im ++ [f])).
Proof.
  intros [Hinj Hrange] Ht. split; cbn.
  - intros p q j. rewrite !lookup_insert_Some. intros [[<- <-]|[Hp1 Hp2]] [[<- ?]|[Hq1 Hq2]]; [done| | |].
    + apply Hrange in Hq2. lia.
    + subst. apply Hrange in Hp2. lia.
    + by eapply Hinj.
  - intros p j. rewrite lookup_insert_Some, length_app. cbn. intros [[_ <-]|[_ Hp]]; [lia|].
    apply Hrange in Hp. lia.
Qed.

Lemma names_wf_delete t im : names_wf im -> names_wf (mkImage (delete t (im_dir im)) (im_inodes im)).
Proof.
  intros [Hinj Hrange]. split; cbn.
  - intros p q j [_ Hp]%lookup_delete_Some [_ Hq]%lookup_delete_Some. by eapply Hinj.
  - intros p j [_ Hp]%lookup_delete_Some. by eapply Hrange.
Qed.

Lemma names_wf_rename from to i im :
  names_wf im -> im_dir im !! from = Some i ->
  names_wf (mkImage (<[to := i]> (delete from (im_dir im))) (im_inodes im)).
Proof.
  intros [Hinj Hrange] Hf. split; cbn.
  - intros p q j. rewrite !lookup_insert_Some, !lookup_delete_Some.
    intros [[<- <-]|(Hp1 & Hp2 & Hp3)] [[<- ?]|(Hq1 & Hq2 & Hq3)]; [done| | |by eapply Hinj].
    + destruct Hq2. by eapply Hinj.
    + subst. destruct Hp2. by eapply Hinj.
  - intros p j. rewrite lookup_insert_Some, lookup_delete_Some. intros [[_ <-]|(_ & _ & Hp)]; by eapply Hrange.
Qed.

Lemma add_fd_frame h i t d d' j : frame h i t d d' -> frame h i t d (add_fd j d').1.
Proof.
  intros Hf. eapply frame_trans; [exact Hf|]. split; cbn; [apply agree_refl|by exists []|done|rewrite length_app; lia|].
  intros k _ Hk. by rewrite lookup_app_l.
Qed.

Lemma add_fd_contains i f d :
  im_inodes (dk_now d) !! i = Some f -> contains (length (dk_fds d)) i 0 (f_bytes f) (add_fd i d).1.
Proof.
  intros Hi. exists (f_synced f). split; cbn; [|by destruct f]. by rewrite lookup_app_r, Nat.sub_diag by lia.
Qed.

(** The open call: an empty file under the name, on a descriptor of its own. *)
Lemma open_truncate_spec t d :
  names_wf (dk_now d) ->
  wp (open_truncate t) (fun d' r => names_wf (dk_now d') /\
    match r with
    | Ok h => h = length (dk_fds d) /\ exists i, frame h i t d d' /\ opened h i t 0 [] d' /\
        (im_dir (dk_now d) !! t = Some i \/ (length (im_inodes (dk_now d)) <= i)%nat)
    | Err _ => forall h i, frame h i t d d'
    end) d.
Proof.
  intros Hw. apply wp_sys. intros d1 Hs. pose proof (fun h i => same_files_frame h i t _ _ Hs) as Hf.
  destruct Hs as [Hn _ _ Hfd]. rewrite <- Hn, <- Hfd in *. split; [done|].
  case_match; [done|]. destruct (dk_dirs d1 !! dir_of t); [|done].
  destruct (im_dir (dk_now d1) !! t) as [i|] eqn:Et.
  - pose proof (nw_range _ Hw _ _ Et) as Hi. split; [|split; [done|]].
    { cbn. destruct Hw as [Hinj Hrange]. split; cbn; [done|]. by setoid_rewrite length_insert. }
    exists i. split_and!; [| |by left].
    + apply add_fd_frame. eapply frame_trans; [apply Hf|]. by apply touches_frame, set_file_touches.
    + split; [done|]. apply (add_fd_contains i (mkFile [] false) (set_file _ _ d1)). by apply list_lookup_insert_eq.
  - split; [by apply names_wf_new|]. split; [done|]. eexists _. split_and!; [| |by right].
    + apply add_fd_frame. eapply frame_trans; [apply Hf|]. apply set_image_frame.
      split; cbn; [by intros; rewrite lookup_insert_ne|by intros; rewrite lookup_app_l|rewrite length_app; lia].
    + split; [by apply lookup_insert_eq|]. apply (add_fd_contains _ (mkFile [] false) (set_image _ d1)). cbn.
      by rewrite lookup_app_r, Nat.sub_diag by lia.
Qed.

(** Unlinking: the name is gone, or nothing happened. *)
Lemma remove_file_spec t d :
  names_wf (dk_now d) ->
  wp (remove_file t) (fun d' r => names_wf (dk_now d') /\ (forall h i, frame h i t d d') /\
    (is_ok r = true -> im_dir (dk_now d') !! t = None)) d.
Proof.
  intros Hw. apply wp_sys. intros d1 Hs. pose proof (fun h i => same_files_frame h i t _ _ Hs) as Hf.
  destruct Hs as [Hn _ _ _]. rewrite <- Hn in *. split; [done|].
  destruct (im_dir (dk_now d1) !! t) as [j|] eqn:Et; [|done]. cbn. split_and!.
  - by apply names_wf_delete.
  - intros h i. eapply frame_trans; [apply Hf|]. apply set_image_frame.
    split; cbn; [by intros; rewrite lookup_delete_ne|done|done].
  - intros _. apply lookup_delete_eq.
Qed.

(** The names after a rename. *)
Definition moved (from to : list Z) (i : nat) (im : Image) : Image :=
  mkImage (<[to := i]> (delete from (im_dir im))) (im_inodes im).

(** Renaming: one new image, in which the file is under its new name; or nothing
    happened. *)
Lemma rename_spec from to d :
  wp (rename from to) (fun d' r =>
    match r with
    | Ok _ => exists i d1, im_dir (dk_now d) !! from = Some i /\ same_files d d1 /\
                d' = set_image (moved from to i (dk_now d)) d1
    | Err _ => same_files d d'
    end) d.
Proof.
  apply wp_sys. intros d1 Hs. split; [done|]. pose proof (sf_now _ _ Hs) as Hn. rewrite <- Hn.
  destruct (im_dir (dk_now d1) !! from) as [i|] eqn:Ef; [|done].
  destruct (dir_like to || _); [done|]. destruct (dk_dirs d1 !! dir_of to); [|done]. cbn. by exists i, d1.
Qed.

Lemma moved_at from to i im p :
  at_path (moved from to i im) p =
    if decide (p = to) then im_inodes im !! i
    else if decide (p = from) then None else at_path im p.
Proof.
  unfold at_path, moved. cbn. destruct (decide (p = to)) as [->|Hp]; [by rewrite lookup_insert_eq|].
  rewrite lookup_insert_ne by done. destruct (decide (p = from)) as [->|]; [by rewrite lookup_delete_eq|].
  by rewrite lookup_delete_ne.
Qed.

(** ** What the other names see *)

(** Every image from [d] to [d'] has the same files as [d] under the names in [ps]. *)
Definition sees (ps : list (list Z)) (im im' : Image) : Prop := Forall (fun p => at_path im' p = at_path im p) ps.

Definition spares (ps : list (list Z)) (d d' : Disk) : Prop :=
  sees ps (dk_now d) (dk_now d') /\
  exists new, dk_past d' = new ++ dk_past d /\ Forall (sees ps (dk_now d)) new.

Lemma sees_refl ps im : sees ps im im.
Proof. by apply List.Forall_forall. Qed.

Lemma sees_trans ps a b c : sees ps a b -> sees ps b c -> sees ps a c.
Proof.
  unfold sees. rewrite !List.Forall_forall. intros H1 H2 p Hp. by rewrite H2, H1.
Qed.

Lemma spares_trans ps a b c : spares ps a b -> spares ps b c -> spares ps a c.
Proof.
  intros [H1 (n1 & P1 & F1)] [H2 (n2 & P2 & F2)]. split; [by eapply sees_trans|].
  exists (n2 ++ n1). rewrite P2, P1, app_assoc. split; [done|]. apply Forall_app. split; [|done].
  eapply Forall_impl; [exact F2|]. intros im. by apply sees_trans.
Qed.

Lemma agree_sees t i ps im im' :
  names_wf im -> Forall (fun p => p <> t /\ im_dir im !! p <> Some i) ps -> agree t i im im' -> sees ps im im'.
Proof.
  intros Hw Hps [Hd Hi _]. eapply Forall_impl; [exact Hps|]. intros p [Ht Hp]. unfold at_path.
  rewrite Hd by done. destruct (im_dir im !! p) as [j|] eqn:Ej; cbn; [|done].
  apply Hi; [congruence|]. by eapply nw_range.
Qed.

Lemma frame_spares h i t ps d d' :
  names_wf (dk_now d) -> Forall (fun p => p <> t /\ im_dir (dk_now d) !! p <> Some i) ps ->
  frame h i t d d' -> spares ps d d'.
Proof.
  intros Hw Hps [Hn (new & Hp & Hf) _ _ _]. split; [by eapply agree_sees|].
  exists new. split; [done|]. eapply Forall_impl; [exact Hf|]. intros im. by eapply agree_sees.
Qed.

Lemma same_files_spares ps d d' : same_files d d' -> spares ps d d'.
Proof. intros [Hn Hp _ _]. split; [rewrite Hn; apply sees_refl|by exists []]. Qed.

(** A file that is open under one name is not under another. *)
Lemma opened_elsewhere h i t pos c d ps :
  names_wf (dk_now d) -> opened h i t pos c d -> Forall (fun p => p <> t) ps ->
  Forall (fun p => p <> t /\ im_dir (dk_now d) !! p <> Some i) ps.
Proof.
  intros Hw [Ho _] Hps. eapply Forall_impl; [exact Hps|]. intros p Hp. split; [done|]. intros He.
  apply Hp. by eapply nw_inj.
Qed.
