(* ===== verification/SnapError.v ===== *)
(** * SnapError: the errors of the snapshot subsystem

    The error type of [src/crates/snapshot/src/error.rs] with its payloads, and
    the versions it mentions. *)

From stdpp Require Import base numbers list option strings.
From Stdlib Require Import ZArith.
From S2P Require Import Prelude Text.

Local Open Scope Z_scope.

(** A [semver::Version]; the pre-release and build parts are their text. *)
Record Version := mkVersion {
  v_major : Z;
  v_minor : Z;
  v_patch : Z;
  v_pre : list Z;
  v_build : list Z
}.

#[export] Instance Version_eq_dec : EqDecision Version.
Proof. solve_decision. Defined.

(** Texts are [String]s and paths the bytes of their [OsStr]. *)
Inductive SnapshotError :=
  | QuiesceTimeout
  | MagicMismatch (found expected : Z)
  | VersionMismatch (found expected : Version)
  | CrcMismatch
  | TooShort
  | Incompatible
  | AtomicCommitFailed (e : IoError)
  | AtomicCommitCrossFs (dest temp_dir : list Z)
  | InvalidPath (reason : list Z)
  | Bitcode (message : list Z)
  | SizeLimitExceeded (limit : Z)
  | MemoryIo (e : IoError)
  | Io (e : IoError)
  | Capture (message : list Z).
