(* ===== verification/Dirty.v ===== *)
(** * Dirty: dirty-page tracking for snapshots

    Models [src/crates/snapshot/src/dirty.rs]: the word bitmap, its drain and
    its folding into a finer bitmap, the adaptive controller and the tracked
    region that combines them.  Atomic words are plain words in a sequential
    history; the last part of the file splits [mark_dirty] into its two
    accesses of the shared bitmap pointer and studies their interleaving with
    [tick_adaptive]. *)

From stdpp Require Import base numbers list option gmap strings.
From Stdlib Require Import ZArith Lia.
From S2P Require Import Prelude Text SnapError.

Local Open Scope Z_scope.
Local Open Scope squib_scope.

Definition DEFAULT_STEP_DOWN_THRESHOLD : Z := 32.

(** [ADAPTIVE_WINDOW] in nanoseconds. *)
Definition ADAPTIVE_WINDOW : Z := 100000000.

Inductive TrackingGranule := Coarse | Fine.

Record PageGeometry := mkGeometry {
  host_page : Z;
  hvf_stage2_granule : Z;
  tracking_page_default : Z;
  tracking_page_hot : Z
}.

Definition APPLE_SILICON : PageGeometry :=
  mkGeometry (16 * 1024) (16 * 1024) (2 * 1024 * 1024) (16 * 1024).

Definition granule_page_size (g : TrackingGranule) (geom : PageGeometry) : Z :=
  match g with Coarse => tracking_page_default geom | Fine => tracking_page_hot geom end.

(** ** The bitmap *)

Record DirtyBitmap := mkBitmap {
  ram_start : Z;
  ram_size : Z;
  page_size : Z;
  page_count : Z;
  words : list Z
}.

(** [u64::trailing_zeros]. *)
Fixpoint pos_ctz (p : positive) : Z :=
  match p with
  | xO p' => 1 + pos_ctz p'
  | _ => 0
  end.

Definition trailing_zeros (x : Z) : Z := match x with Zpos p => pos_ctz p | _ => 64 end.

Definition bitmap_new (start sz psize : Z) : result SnapshotError DirtyBitmap :=
  if negb (is_power_of_two psize) then
    Err (InvalidPath (lit "page_size must be a power of two: " ++ decimal psize))
  else if sz =? 0 then Err (InvalidPath (lit "dirty bitmap requires a non-empty RAM range"))
  else match checked_add 64 start sz with
       | None =>
           Err (InvalidPath (lit "RAM range overflows: start=" ++ hex start ++ lit ", size=" ++ hex sz))
       | Some _ =>
           let count := div_ceil sz psize in
           let word_count := div_ceil count 64 in
           Ok (mkBitmap start sz psize count (repeat 0 (Z.to_nat word_count)))
       end.

Definition page_shift (b : DirtyBitmap) : Z := trailing_zeros (page_size b).

Definition page_index_of (b : DirtyBitmap) (addr : Z) : option Z :=
  if addr <? ram_start b then None
  else
    let offset := addr - ram_start b in
    if ram_size b <=? offset then None
    else Some (Z.shiftr offset (page_shift b)).

Definition with_words (b : DirtyBitmap) (ws : list Z) : DirtyBitmap :=
  mkBitmap (ram_start b) (ram_size b) (page_size b) (page_count b) ws.

(** [None] is the panic of the slice index. *)
Definition set_dirty_by_index (b : DirtyBitmap) (page : Z) : option (DirtyBitmap * bool) :=
  if page_count b <=? page then Some (b, false)
  else
    let word_idx := Z.to_nat (page / 64) in
    let mask := Z.shiftl 1 (page mod 64) in
    prev ← words b !! word_idx;
    Some (with_words b (<[word_idx := Z.lor prev mask]> (words b)), Z.land prev mask =? 0).

Definition set_dirty (b : DirtyBitmap) (addr : Z) : option (DirtyBitmap * bool) :=
  match page_index_of b addr with
  | None => Some (b, false)
  | Some page => set_dirty_by_index b page
  end.

Definition is_dirty_by_index (b : DirtyBitmap) (page : Z) : option bool :=
  if page_count b <=? page then Some false
  else
    word ← words b !! Z.to_nat (page / 64);
    Some (negb (Z.land word (Z.shiftl 1 (page mod 64)) =? 0)).

Definition is_dirty (b : DirtyBitmap) (addr : Z) : option bool :=
  match page_index_of b addr with
  | None => Some false
  | Some page => is_dirty_by_index b page
  end.

(** The [while bits != 0] loop: the set bits of a word, lowest first. *)
Fixpoint scan_bits (fuel : nat) (bits : Z) : list Z :=
  match fuel with
  | O => []
  | S fuel' =>
      if bits =? 0 then []
      else trailing_zeros bits :: scan_bits fuel' (Z.land bits (bits - 1))
  end.

(** The pages of one word; a word has at most 64 set bits. *)
Definition word_pages (word_idx : nat) (bits : Z) : list Z :=
  (fun bit => Z.of_nat word_idx * 64 + bit) <$> scan_bits 64 bits.

Definition drain (b : DirtyBitmap) : DirtyBitmap * list Z :=
  (with_words b (repeat 0 (length (words b))),
   List.filter (fun p => p <? page_count b) (concat (imap word_pages (words b)))).

(** [drain_into]: the callback runs at each page as it is found; its captured
    state is threaded through. *)
Fixpoint drain_word_into {S} (cb : S -> Z -> S) (count : Z) (word_idx fuel : nat) (bits : Z) (s : S) : S :=
  match fuel with
  | O => s
  | Datatypes.S fuel' =>
      if bits =? 0 then s
      else
        let bit := trailing_zeros bits in
        let page := Z.of_nat word_idx * 64 + bit in
        drain_word_into cb count word_idx fuel' (Z.land bits (bits - 1))
          (if page <? count then cb s page else s)
  end.

(** [for (word_idx, word) in self.words.iter().enumerate()]. *)
Fixpoint each_word {S} (body : nat -> Z -> S -> S) (word_idx : nat) (ws : list Z) (s : S) : S :=
  match ws with
  | [] => s
  | w :: ws' => each_word body (Datatypes.S word_idx) ws' (body word_idx w s)
  end.

Definition drain_into {S} (b : DirtyBitmap) (cb : S -> Z -> S) (s : S) : DirtyBitmap * S :=
  (with_words b (repeat 0 (length (words b))),
   each_word (fun word_idx w s => drain_word_into cb (page_count b) word_idx 64 w s) 0 (words b) s).

(** [for fine_page in fine_start..fine_end]. *)
Fixpoint set_range (fine : DirtyBitmap) (start : Z) (n : nat) : option DirtyBitmap :=
  match n with
  | O => Some fine
  | S n' => r ← set_dirty_by_index fine start; set_range r.1 (start + 1) n'
  end.

(** The pages of one coarse word, up to the [break]. *)
Fixpoint fold_pages (coarse_count ratio : Z) (fine : DirtyBitmap) (pages : list Z)
  : option DirtyBitmap :=
  match pages with
  | [] => Some fine
  | p :: pages' =>
      if coarse_count <=? p then Some fine
      else
        let fine_start := wrap 64 (p * ratio) in
        let fine_end := Z.min (wadd 64 fine_start ratio) (page_count fine) in
        fine' ← set_range fine fine_start (Z.to_nat (fine_end - fine_start));
        fold_pages coarse_count ratio fine' pages'
  end.

Fixpoint fold_words (coarse_count ratio : Z) (fine : DirtyBitmap) (i : nat) (ws : list Z)
  : option DirtyBitmap :=
  match ws with
  | [] => Some fine
  | w :: ws' =>
      fine' ← fold_pages coarse_count ratio fine (word_pages i w);
      fold_words coarse_count ratio fine' (S i) ws'
  end.

(** [fold_into_finer]; the outer option is a panic. *)
Definition fold_into_finer (b fine : DirtyBitmap) : option (result SnapshotError DirtyBitmap) :=
  if negb (ram_start fine =? ram_start b) || negb (ram_size fine =? ram_size b)
  then Some (Err (InvalidPath (lit "fold_into_finer requires identical ranges")))
  else if page_size b <=? page_size fine then
    Some (Err (InvalidPath (lit "fold_into_finer expects a strictly smaller page size")))
  else if negb (page_size b mod page_size fine =? 0) then
    Some (Err (InvalidPath (lit "coarse page must be a multiple of fine page")))
  else
    let ratio := page_size b / page_size fine in
    Ok <$> fold_words (page_count b) ratio fine 0 (words b).

(** ** The adaptive controller *)

(** The window is [ADAPTIVE_WINDOW] in every controller; clock readings are
    arguments of the operations. *)
Record AdaptiveController := mkController {
  threshold : Z;
  block_faults : list Z;
  last_reset : Z;
  granule : TrackingGranule
}.

Definition controller_with_threshold (block_count thr now : Z) : AdaptiveController :=
  mkController thr (repeat 0 (Z.to_nat block_count)) now Coarse.

Definition controller_new (block_count now : Z) : AdaptiveController :=
  controller_with_threshold block_count DEFAULT_STEP_DOWN_THRESHOLD now.

Definition record_fault (c : AdaptiveController) (block_idx : Z) : AdaptiveController :=
  match block_faults c !! Z.to_nat block_idx with
  | None => c
  | Some n =>
      mkController (threshold c) (<[Z.to_nat block_idx := wadd 32 n 1]> (block_faults c))
        (last_reset c) (granule c)
  end.

Definition tick (c : AdaptiveController) (now : Z) : AdaptiveController :=
  if saturating_sub now (last_reset c) <? ADAPTIVE_WINDOW then c
  else
    let max_in_window := foldl (fun m n => if m <? n then n else m) 0 (block_faults c) in
    let g := match granule c with
             | Coarse => if threshold c <? max_in_window then Fine else Coarse
             | Fine => Fine
             end in
    mkController (threshold c) (repeat 0 (length (block_faults c))) now g.

(** ** The tracked region *)

Record TrackedRegion := mkRegion {
  tr_bitmap : DirtyBitmap;
  tr_controller : AdaptiveController;
  tr_geometry : PageGeometry
}.

Definition region_new (start sz : Z) (geom : PageGeometry) (now : Z)
  : result SnapshotError TrackedRegion :=
  let? bitmap := bitmap_new start sz (tracking_page_default geom) in
  Ok (mkRegion bitmap (controller_new (page_count bitmap) now) geom).

Definition region_with_threshold (start sz : Z) (geom : PageGeometry) (thr now : Z)
  : result SnapshotError TrackedRegion :=
  let? bitmap := bitmap_new start sz (tracking_page_default geom) in
  Ok (mkRegion bitmap (controller_with_threshold (page_count bitmap) thr now) geom).

(** The fault accounting at the head of [mark_dirty]. *)
Definition account_fault (r : TrackedRegion) (addr : Z) : AdaptiveController :=
  match checked_sub addr (ram_start (tr_bitmap r)) with
  | Some off => record_fault (tr_controller r) (off / tracking_page_default (tr_geometry r))
  | None => tr_controller r
  end.

Definition mark_dirty (r : TrackedRegion) (addr : Z) : option (TrackedRegion * bool) :=
  let c := account_fault r addr in
  bf ← set_dirty (tr_bitmap r) addr;
  Some (mkRegion bf.1 c (tr_geometry r), bf.2).

(** The bitmap [tick_adaptive] installs: unchanged unless a finer one could be
    built and folded. *)
Definition step_down (b : DirtyBitmap) (target_size : Z) : option DirtyBitmap :=
  if target_size =? page_size b then Some b
  else match bitmap_new (ram_start b) (ram_size b) target_size with
       | Err _ => Some b
       | Ok fine =>
           r ← fold_into_finer b fine;
           Some (match r with Ok fine' => fine' | Err _ => b end)
       end.

Definition tick_adaptive (r : TrackedRegion) (now : Z) : option TrackedRegion :=
  let c := tick (tr_controller r) now in
  b ← step_down (tr_bitmap r) (granule_page_size (granule c) (tr_geometry r));
  Some (mkRegion b c (tr_geometry r)).

(** ** Well-formedness and the abstract view *)

Record bitmap_wf (b : DirtyBitmap) : Prop := mkBitmapWf {
  bw_page : exists k, 0 <= k < 64 /\ page_size b = 2 ^ k;
  bw_start : 0 <= ram_start b;
  bw_size : 0 < ram_size b;
  bw_end : ram_start b + ram_size b < 2 ^ 64;
  bw_count : page_count b = div_ceil (ram_size b) (page_size b);
  bw_len : length (words b) = Z.to_nat (div_ceil (page_count b) 64);
  bw_words : Forall (in_u 64) (words b)
}.

(** The set of dirty pages a bitmap stands for. *)
Definition dirty (b : DirtyBitmap) (p : Z) : bool :=
  (p <? page_count b) && Z.testbit (default 0 (words b !! Z.to_nat (p / 64))) (p mod 64).

Lemma div_ceil_bounds a b : 0 < a -> 0 < b -> 0 < div_ceil a b /\ (div_ceil a b - 1) * b < a <= div_ceil a b * b.
Proof. intros Ha Hb. destruct (div_ceil_spec a b) as [H|H]; [lia|lia| |lia]. nia. Qed.

Lemma bitmap_new_wf start sz psize b :
  in_u 64 start -> in_u 64 sz -> in_u 64 psize -> bitmap_new start sz psize = Ok b ->
  bitmap_wf b /\ ram_start b = start /\ ram_size b = sz /\ page_size b = psize /\
  (forall p, dirty b p = false).
Proof.
  intros [Hs0 Hs1] [Hz0 Hz1] [Hp0 Hp1] H. unfold bitmap_new, checked_add in H.
  destruct (is_power_of_two psize) eqn:Hpow; [|done]. cbn [negb] in H.
  destruct (Z.eqb_spec sz 0); [done|]. destruct (Z.ltb_spec (start + sz) (2 ^ 64)); [|done].
  simplify_eq. apply is_power_of_two_spec in Hpow as (k & Hk & ->).
  split; [|split_and!; try done].
  - constructor; cbn; try done; try lia.
    + exists k. split; [|done]. split; [done|]. apply (Z.pow_lt_mono_r_iff 2); lia.
    + by rewrite repeat_length.
    + apply List.Forall_forall. intros x ->%repeat_spec. unfold in_u; lia.
  - intros p. unfold dirty; cbn. destruct (_ <? _); [|done]. cbn.
    destruct (repeat 0 _ !! _) as [x|] eqn:Hx; cbn; [|apply Z.testbit_0_l].
    apply list_elem_of_lookup_2, list_elem_of_In, repeat_spec in Hx as ->. apply Z.testbit_0_l.
Qed.

Lemma word_lookup b p :
  bitmap_wf b -> 0 <= p < page_count b ->
  exists w, words b !! Z.to_nat (p / 64) = Some w /\ in_u 64 w.
Proof.
  intros Hwf Hp. destruct (div_ceil_bounds (page_count b) 64) as [_ Hc]; [lia..|].
  destruct (lookup_lt_is_Some_2 (words b) (Z.to_nat (p / 64))) as [w Hw].
  { rewrite (bw_len b Hwf). assert (p / 64 < div_ceil (page_count b) 64)
      by (apply Z.div_lt_upper_bound; lia). assert (0 <= p / 64) by (apply Z.div_pos; lia). lia. }
  exists w. split; [done|]. by apply (Forall_lookup_1 _ _ _ _ (bw_words b Hwf) Hw).
Qed.

Lemma is_dirty_by_index_eq b p :
  bitmap_wf b -> 0 <= p -> is_dirty_by_index b p = Some (dirty b p).
Proof.
  intros Hwf Hp. unfold is_dirty_by_index, dirty.
  destruct (Z.leb_spec (page_count b) p).
  { by rewrite (proj2 (Z.ltb_ge _ _)). }
  rewrite (proj2 (Z.ltb_lt _ _)) by done.
  destruct (word_lookup b p Hwf ltac:(lia)) as (w & Hw & _). rewrite Hw. cbn.
  pose proof (Z.mod_pos_bound p 64 ltac:(lia)).
  by rewrite Z.shiftl_1_l, land_pow2_testbit, negb_involutive by lia.
Qed.

(** Marking a page: the panic cannot happen, exactly that page is added, and the
    result tells whether it was new. *)
Lemma set_dirty_by_index_spec b p :
  bitmap_wf b -> 0 <= p ->
  exists b', set_dirty_by_index b p = Some (b', (p <? page_count b) && negb (dirty b p)) /\
    bitmap_wf b' /\ ram_start b' = ram_start b /\ ram_size b' = ram_size b /\
    page_size b' = page_size b /\ page_count b' = page_count b /\
    forall q, 0 <= q -> dirty b' q = dirty b q || ((q =? p) && (p <? page_count b)).
Proof.
  intros Hwf Hp. unfold set_dirty_by_index.
  destruct (Z.leb_spec (page_count b) p) as [Hge|Hlt].
  { exists b. rewrite (proj2 (Z.ltb_ge _ _)) by done. split_and!; try done.
    intros q Hq. by rewrite andb_false_r, orb_false_r. }
  rewrite (proj2 (Z.ltb_lt _ _)) by done. cbn [andb].
  destruct (word_lookup b p Hwf ltac:(lia)) as (w & Hw & Hwu). rewrite Hw. cbn [mbind option_bind].
  pose proof (Z.mod_pos_bound p 64 ltac:(lia)) as Hb.
  eexists. split.
  { do 2 f_equal. unfold dirty. rewrite Hw, (proj2 (Z.ltb_lt _ _)) by done. cbn.
    by rewrite Z.shiftl_1_l, land_pow2_testbit by lia. }
  rewrite Z.shiftl_1_l.
  assert (Hnew : in_u 64 (Z.lor w (2 ^ (p mod 64)))).
  { apply in_u_lor; [lia|done|]. split; [apply Z.pow_nonneg; lia|]. apply Z.pow_lt_mono_r; lia. }
  split; [|split_and!; try done].
  - destruct Hwf. constructor; cbn; try done; [by rewrite length_insert|].
    apply Forall_insert; done.
  - intros q Hq. unfold dirty; cbn. rewrite andb_true_r.
    destruct (Z.eqb_spec q p) as [->|Hne].
    + rewrite list_lookup_insert_eq by (by apply lookup_lt_Some in Hw). cbn.
      rewrite (proj2 (Z.ltb_lt _ _)) by done. cbn.
      by rewrite Z.lor_spec, Z.pow2_bits_true, !orb_true_r by lia.
    + rewrite orb_false_r. f_equal.
      destruct (decide (Z.to_nat (q / 64) = Z.to_nat (p / 64))) as [He|He].
      * rewrite He, Hw. rewrite list_lookup_insert_eq by (by apply lookup_lt_Some in Hw). cbn.
        assert (q / 64 = p / 64) by (pose proof (Z.div_pos q 64); pose proof (Z.div_pos p 64); lia).
        rewrite Z.lor_spec, Z.pow2_bits_false; [by rewrite orb_false_r|].
        intros Hm. apply Hne. rewrite (Z.div_mod q 64), (Z.div_mod p 64) by lia. lia.
      * by rewrite list_lookup_insert_ne.
Qed.

(** ** Scanning a word *)

Lemma ctz_decompose x : 0 < x -> exists m, 0 <= m /\ 0 <= trailing_zeros x /\
  x = m * 2 ^ (trailing_zeros x + 1) + 2 ^ trailing_zeros x.
Proof.
  destruct x as [|p|p]; [lia| |lia]. intros _. cbn [trailing_zeros].
  induction p as [p IH|p IH|].
  - exists (Zpos p). cbn. lia.
  - destruct IH as (m & Hm & Hc & Hp). exists m. cbn [pos_ctz].
    split; [done|]. split; [lia|].
    rewrite Pos2Z.inj_xO, Hp at 1. rewrite !Z.pow_add_r by lia. change (2 ^ 1) with 2. ring.
  - exists 0. cbn. lia.
Qed.

(** [bits & (bits - 1)] clears the lowest set bit, which is at
    [trailing_zeros]. *)
Lemma clear_lowest x :
  0 < x ->
  Z.testbit x (trailing_zeros x) = true /\
  (forall i, 0 <= i < trailing_zeros x -> Z.testbit x i = false) /\
  (forall i, 0 <= i -> Z.testbit (Z.land x (x - 1)) i = Z.testbit x i && negb (i =? trailing_zeros x)) /\
  0 <= Z.land x (x - 1) /\ 0 <= trailing_zeros x.
Proof.
  intros Hx. destruct (ctz_decompose x Hx) as (m & Hm & Hc & Hd).
  set (k := trailing_zeros x) in *.
  pose proof (pow2_pos k Hc) as Hk.
  assert (Hk1 : 2 ^ (k + 1) = 2 * 2 ^ k) by (rewrite Z.pow_add_r by lia; lia).
  assert (H1 : x = Z.lor (m * 2 ^ (k + 1)) (2 ^ k)) by (rewrite lor_mul_pow2; lia).
  assert (H2 : x - 1 = Z.lor (m * 2 ^ (k + 1)) (2 ^ k - 1)) by (rewrite lor_mul_pow2; lia).
  assert (H3 : Z.land x (x - 1) = m * 2 ^ (k + 1)).
  { rewrite H2, H1. rewrite <- Z.lor_land_distr_r.
    rewrite land_ones_wrap by done. unfold wrap.
    rewrite Z.mod_same by lia. apply Z.lor_0_r. }
  assert (Hbit : forall i, 0 <= i -> Z.testbit x i = Z.testbit (m * 2 ^ (k + 1)) i || (i =? k)).
  { intros i Hi. rewrite H1, Z.lor_spec at 1. rewrite Z.pow2_bits_eqb by done. by rewrite (Z.eqb_sym k). }
  assert (Hlow : forall i, 0 <= i <= k -> Z.testbit (m * 2 ^ (k + 1)) i = false)
    by (intros; apply Z.mul_pow2_bits_low; lia).
  split_and!; try done; [|intros i Hi|intros i Hi|nia].
  - rewrite Hbit by lia. by rewrite Z.eqb_refl, orb_true_r.
  - rewrite Hbit, Hlow by lia. apply Z.eqb_neq; lia.
  - rewrite H3, Hbit by done. destruct (Z.eqb_spec i k) as [->|]; cbn.
    + rewrite Hlow by lia. done.
    + by rewrite orb_false_r, andb_true_r.
Qed.

(** The numbers [lo, lo + 1, ..., lo + n - 1]. *)
Fixpoint range (lo : Z) (n : nat) : list Z :=
  match n with O => [] | S n' => lo :: range (lo + 1) n' end.

Lemma range_app lo n k : range lo (n + k) = range lo n ++ range (lo + Z.of_nat n) k.
Proof.
  revert lo. induction n as [|n IH]; intros lo; cbn [range Nat.add app].
  - f_equal; lia.
  - rewrite IH. do 2 f_equal. f_equal; lia.
Qed.

Lemma range_In lo n x : In x (range lo n) <-> lo <= x < lo + Z.of_nat n.
Proof.
  revert lo. induction n as [|n IH]; intros lo; cbn [range In]; [lia|]. rewrite IH. lia.
Qed.

Lemma filter_range_none (f : Z -> bool) lo n :
  (forall i, lo <= i < lo + Z.of_nat n -> f i = false) -> List.filter f (range lo n) = [].
Proof.
  revert lo. induction n as [|n IH]; intros lo H; [done|]. cbn [range List.filter].
  rewrite H by lia. apply IH. intros; apply H; lia.
Qed.

Lemma filter_range_ext (f g : Z -> bool) lo n :
  (forall i, lo <= i < lo + Z.of_nat n -> f i = g i) ->
  List.filter f (range lo n) = List.filter g (range lo n).
Proof. intros H. apply filter_ext_in. intros x Hx%range_In. by apply H. Qed.

(** The loop lists exactly the set bits, in ascending order. *)
Lemma scan_bits_spec fuel x lo :
  in_u 64 x -> 0 <= lo <= 64 -> 64 - lo <= Z.of_nat fuel ->
  (forall i, 0 <= i < lo -> Z.testbit x i = false) ->
  scan_bits fuel x = List.filter (Z.testbit x) (range lo (Z.to_nat (64 - lo))).
Proof.
  revert x lo. induction fuel as [|fuel IH]; intros x lo Hx Hlo Hf Hz; cbn [scan_bits].
  { replace (64 - lo) with 0 by lia. done. }
  destruct (Z.eqb_spec x 0) as [->|Hne].
  { rewrite filter_range_none; [done|]. intros; apply Z.testbit_0_l. }
  destruct (clear_lowest x) as (Hk & Hbelow & Hclr & Hnn & Hk0); [unfold in_u in Hx; lia|].
  set (k := trailing_zeros x) in *.
  assert (Hlk : lo <= k).
  { destruct (decide (lo <= k)); [done|]. rewrite Hz in Hk by lia. done. }
  assert (Hk64 : k < 64).
  { destruct (decide (k < 64)); [done|]. rewrite (in_u_testbit_high 64 x) in Hk by (done || lia). done. }
  replace (Z.to_nat (64 - lo)) with (Z.to_nat (k - lo) + S (Z.to_nat (64 - (k + 1))))%nat by lia.
  rewrite range_app, List.filter_app, filter_range_none by (intros; apply Hbelow; lia).
  replace (lo + Z.of_nat (Z.to_nat (k - lo))) with k by lia.
  cbn [app range List.filter]. rewrite Hk. f_equal.
  rewrite (IH _ (k + 1)); [|by apply in_u_land; [|done|unfold in_u in Hx; lia]|lia|lia|].
  - apply filter_range_ext. intros i Hi. rewrite Hclr by lia.
    rewrite (proj2 (Z.eqb_neq i k)) by lia. apply andb_true_r.
  - intros i Hi. rewrite Hclr by lia. destruct (Z.eqb_spec i k) as [->|]; [apply andb_false_r|].
    rewrite Hbelow by lia. done.
Qed.

Lemma word_pages_spec i w :
  in_u 64 w ->
  word_pages i w =
  List.filter (fun p => Z.testbit w (p mod 64)) (range (Z.of_nat i * 64) 64).
Proof.
  intros Hw. unfold word_pages. rewrite (scan_bits_spec 64 w 0) by (done || lia || intros; lia).
  change (Z.to_nat (64 - 0)) with 64%nat.
  assert (H : forall n lo, 0 <= lo -> lo + Z.of_nat n <= 64 ->
    (fun bit => Z.of_nat i * 64 + bit) <$> List.filter (Z.testbit w) (range lo n)
    = List.filter (fun p => Z.testbit w (p mod 64)) (range (Z.of_nat i * 64 + lo) n)).
  { induction n as [|n IH]; intros lo Hlo Hn; [done|]. cbn [range List.filter].
    rewrite (Z.add_comm _ lo), Z.mod_add, (Z.mod_small lo) by lia.
    replace (lo + Z.of_nat i * 64 + 1) with (Z.of_nat i * 64 + (lo + 1)) by lia.
    destruct (Z.testbit w lo); cbn [fmap list_fmap]; rewrite <- IH by lia; [|done].
    f_equal. lia. }
  rewrite H by lia. by rewrite Z.add_0_r.
Qed.

(** The bit of page [p] in words whose first one has index [k]. *)
Definition word_bit (ws : list Z) (k : nat) (p : Z) : bool :=
  Z.testbit (default 0 (ws !! (Z.to_nat (p / 64) - k)%nat)) (p mod 64).

Lemma word_index_in k p : Z.of_nat k * 64 <= p < Z.of_nat k * 64 + 64 -> Z.to_nat (p / 64) = k.
Proof. intros H. replace (p / 64) with (Z.of_nat k); [lia|]. apply (Z.div_unique p 64 _ (p - Z.of_nat k * 64)); lia. Qed.

Lemma word_index_ge k p : Z.of_nat k * 64 <= p -> (k <= Z.to_nat (p / 64))%nat.
Proof. intros H. assert (Z.of_nat k <= p / 64) by (apply Z.div_le_lower_bound; lia). lia. Qed.

Lemma word_bit_head w ws k p :
  Z.of_nat k * 64 <= p < Z.of_nat k * 64 + 64 -> word_bit (w :: ws) k p = Z.testbit w (p mod 64).
Proof. intros H. unfold word_bit. by rewrite (word_index_in k p H), Nat.sub_diag. Qed.

Lemma word_bit_tail w ws k p :
  Z.of_nat (S k) * 64 <= p -> word_bit (w :: ws) k p = word_bit ws (S k) p.
Proof.
  intros H. unfold word_bit. pose proof (word_index_ge (S k) p H).
  replace (Z.to_nat (p / 64) - k)%nat with (S (Z.to_nat (p / 64) - S k)) by lia. done.
Qed.

Lemma imap_shift {A B} (g : nat -> A -> B) k l :
  imap ((fun i => g (k + i)%nat) ∘ S) l = imap (fun i => g (S k + i)%nat) l.
Proof. apply imap_ext. intros i x _. unfold compose. by rewrite Nat.add_succ_r. Qed.

Lemma words_pages k ws :
  Forall (in_u 64) ws ->
  concat (imap (fun i => word_pages (k + i)) ws) =
  List.filter (word_bit ws k) (range (Z.of_nat k * 64) (64 * length ws)).
Proof.
  intros Hws. revert k. induction Hws as [|w ws Hw Hws IH]; intros k; [done|].
  rewrite imap_cons. cbn [concat length].
  replace (64 * S (length ws))%nat with (64 + 64 * length ws)%nat by lia.
  rewrite range_app, List.filter_app. f_equal.
  - rewrite Nat.add_0_r, word_pages_spec by done. apply filter_range_ext.
    intros i Hi. by rewrite word_bit_head by lia.
  - replace (Z.of_nat k * 64 + Z.of_nat 64) with (Z.of_nat (S k) * 64) by lia.
    rewrite imap_shift, IH. apply filter_range_ext. intros i Hi. by rewrite word_bit_tail by lia.
Qed.

Lemma filter_filter {A} (f g : A -> bool) l :
  List.filter f (List.filter g l) = List.filter (fun x => f x && g x) l.
Proof.
  induction l as [|x l IH]; [done|]. cbn. destruct (g x), (f x) eqn:Hf; cbn; rewrite ?Hf, ?IH; done.
Qed.

Lemma word_cover b :
  bitmap_wf b -> 0 < page_count b /\ page_count b <= Z.of_nat (64 * length (words b)).
Proof.
  intros Hwf. destruct (bw_page b Hwf) as (k & Hk & Hp). pose proof (pow2_pos k ltac:(lia)).
  destruct (div_ceil_bounds (ram_size b) (page_size b)) as [Hpos _]; [apply Hwf|lia|].
  rewrite <- (bw_count b Hwf) in Hpos. split; [done|].
  destruct (div_ceil_bounds (page_count b) 64) as [? ?]; [lia..|]. rewrite (bw_len b Hwf). lia.
Qed.

Lemma drain_pages b :
  bitmap_wf b -> (drain b).2 = List.filter (dirty b) (range 0 (Z.to_nat (page_count b))).
Proof.
  intros Hwf. destruct (word_cover b Hwf) as [Hpos Hcov]. cbn [drain snd].
  rewrite (imap_ext _ (fun i => word_pages (0 + i))) by done.
  rewrite words_pages by apply Hwf. rewrite filter_filter. change (Z.of_nat 0 * 64) with 0.
  replace (64 * length (words b))%nat
    with (Z.to_nat (page_count b) + (64 * length (words b) - Z.to_nat (page_count b)))%nat by lia.
  rewrite range_app, List.filter_app.
  rewrite (filter_range_none _ (0 + _)), app_nil_r
    by (intros i Hi; rewrite (proj2 (Z.ltb_ge _ _)) by lia; done).
  apply filter_range_ext. intros i Hi. unfold dirty, word_bit. by rewrite Nat.sub_0_r.
Qed.

Lemma dirty_zero_words b n p : dirty (with_words b (repeat 0 n)) p = false.
Proof.
  unfold dirty; cbn. destruct (_ <? _); [|done]. cbn.
  destruct (repeat 0 _ !! _) as [x|] eqn:Hx; cbn; [|apply Z.testbit_0_l].
  apply list_elem_of_lookup_2, list_elem_of_In, repeat_spec in Hx as ->. apply Z.testbit_0_l.
Qed.

Lemma drain_wf b : bitmap_wf b -> bitmap_wf (drain b).1.
Proof.
  intros []. constructor; cbn; try done; [by rewrite repeat_length|].
  apply List.Forall_forall. intros x ->%repeat_spec. unfold in_u; lia.
Qed.

(** ** Folding *)

(** Two bitmaps of the same region and granularity. *)
Definition same_shape (b b' : DirtyBitmap) : Prop :=
  ram_start b' = ram_start b /\ ram_size b' = ram_size b /\
  page_size b' = page_size b /\ page_count b' = page_count b.

Lemma same_shape_trans a b c : same_shape a b -> same_shape b c -> same_shape a c.
Proof. intros (?&?&?&?) (?&?&?&?). unfold same_shape. split_and!; congruence. Qed.

Definition between (lo n q : Z) : bool := (lo <=? q) && (q <? lo + n).

Lemma set_range_spec n : forall fine start,
  bitmap_wf fine -> 0 <= start -> start + Z.of_nat n <= page_count fine ->
  exists fine', set_range fine start n = Some fine' /\ bitmap_wf fine' /\ same_shape fine fine' /\
    forall q, 0 <= q -> dirty fine' q = dirty fine q || between start (Z.of_nat n) q.
Proof.
  induction n as [|n IH]; intros fine start Hwf Hs Hn; cbn [set_range].
  { exists fine. split_and!; try done. intros q Hq. unfold between.
    destruct (Z.leb_spec start q); [rewrite (proj2 (Z.ltb_ge q _)) by lia|];
      by rewrite orb_false_r. }
  destruct (set_dirty_by_index_spec fine start Hwf Hs) as (f1 & -> & Hwf1 & H1 & H2 & H3 & H4 & Hd1).
  cbn [mbind option_bind fst].
  destruct (IH f1 (start + 1) Hwf1) as (f2 & Hf2 & Hwf2 & Hsh & Hd2); [lia|lia|].
  exists f2. split_and!; try done; [by apply (same_shape_trans _ f1)|].
  intros q Hq. rewrite Hd2, Hd1 by done. rewrite (proj2 (Z.ltb_lt start _)) by lia.
  rewrite andb_true_r, <- orb_assoc. f_equal. unfold between.
  destruct (Z.eqb_spec q start), (Z.leb_spec (start + 1) q), (Z.leb_spec start q),
    (Z.ltb_spec q (start + 1 + Z.of_nat n)), (Z.ltb_spec q (start + Z.of_nat (S n))); cbn; lia.
Qed.

Section fold.
Context (cc ratio : Z) (Hr : 0 < ratio) (Hov : cc * ratio < 2 ^ 64).

Lemma block_between p q pc :
  0 <= q -> 0 <= p -> p * ratio < pc ->
  between (p * ratio) (Z.min (p * ratio + ratio) pc - p * ratio) q = (q <? pc) && (q / ratio =? p).
Proof.
  intros Hq Hp Hlt. unfold between.
  destruct (Z.eqb_spec (q / ratio) p) as [<-|Hne].
  - pose proof (Z.mul_div_le q ratio Hr). pose proof (Z.mul_succ_div_gt q ratio Hr).
    rewrite (proj2 (Z.leb_le _ q)) by lia. cbn. rewrite andb_true_r.
    destruct (Z.ltb_spec q pc); [apply Z.ltb_lt|apply Z.ltb_ge]; lia.
  - rewrite andb_false_r. destruct (Z.leb_spec (p * ratio) q); [|done]. cbn. apply Z.ltb_ge.
    destruct (decide (q < p * ratio + ratio)); [|lia].
    exfalso. apply Hne. symmetry. apply (Z.div_unique q ratio p (q - p * ratio)); lia.
Qed.

(** One coarse page: every fine page of its block is marked. *)
Lemma fold_block_spec fine p :
  bitmap_wf fine -> 0 <= p < cc -> (cc - 1) * ratio < page_count fine ->
  let fine_start := wrap 64 (p * ratio) in
  let fine_end := Z.min (wadd 64 fine_start ratio) (page_count fine) in
  exists fine', set_range fine fine_start (Z.to_nat (fine_end - fine_start)) = Some fine' /\
    bitmap_wf fine' /\ same_shape fine fine' /\
    forall q, 0 <= q ->
      dirty fine' q = dirty fine q || ((q <? page_count fine) && (q / ratio =? p)).
Proof.
  intros Hwf Hp Hpc fine_start fine_end.
  assert (Hst : fine_start = p * ratio) by (apply wrap_small; split; nia).
  assert (Hlt : p * ratio < page_count fine) by nia.
  assert (Hen : fine_end = Z.min (p * ratio + ratio) (page_count fine)).
  { unfold fine_end, wadd. rewrite Hst, wrap_small; [done|]. split; nia. }
  destruct (set_range_spec (Z.to_nat (fine_end - fine_start)) fine fine_start Hwf)
    as (f' & Hf & Hwf' & Hsh & Hd); [nia|lia|].
  exists f'. split_and!; try done. intros q Hq. rewrite Hd by done. f_equal.
  rewrite Z2Nat.id, Hst, Hen by lia. apply block_between; lia.
Qed.

Lemma fold_pages_spec (f : Z -> bool) n : forall lo fine,
  bitmap_wf fine -> 0 <= lo -> (cc - 1) * ratio < page_count fine ->
  exists fine', fold_pages cc ratio fine (List.filter f (range lo n)) = Some fine' /\
    bitmap_wf fine' /\ same_shape fine fine' /\
    forall q, 0 <= q ->
      dirty fine' q = dirty fine q ||
        ((q <? page_count fine) && (q / ratio <? cc) && between lo (Z.of_nat n) (q / ratio) && f (q / ratio)).
Proof.
  induction n as [|n IH]; intros lo fine Hwf Hlo Hpc.
  { exists fine. split_and!; try done. intros q Hq. unfold between.
    destruct (Z.leb_spec lo (q / ratio)); [rewrite (proj2 (Z.ltb_ge (q / ratio) (lo + _))) by lia|];
      by rewrite ?andb_false_r, orb_false_r. }
  assert (Hstep : forall x, between lo (Z.of_nat (S n)) x = (x =? lo) || between (lo + 1) (Z.of_nat n) x).
  { intros x. unfold between. destruct (Z.eqb_spec x lo), (Z.leb_spec lo x), (Z.leb_spec (lo + 1) x),
      (Z.ltb_spec x (lo + Z.of_nat (S n))), (Z.ltb_spec x (lo + 1 + Z.of_nat n)); cbn; lia. }
  cbn [range List.filter]. destruct (f lo) eqn:Hf; cbn [fold_pages].
  - destruct (Z.leb_spec cc lo) as [Hge|Hlt].
    + exists fine. split_and!; try done. intros q Hq. rewrite Hstep. unfold between.
      destruct (Z.ltb_spec (q / ratio) cc); [|by rewrite andb_false_r, orb_false_r].
      rewrite (proj2 (Z.eqb_neq _ lo)), (proj2 (Z.leb_gt (lo + 1) _)) by lia.
      by rewrite andb_false_r, orb_false_r.
    + destruct (fold_block_spec fine lo) as (f1 & Hf1 & Hwf1 & Hsh1 & Hd1); [done|lia|done|].
      cbn zeta in Hf1. rewrite Hf1. cbn [mbind option_bind].
      pose proof Hsh1 as (_ & _ & _ & Hc1).
      destruct (IH (lo + 1) f1) as (f2 & Hf2 & Hwf2 & Hsh2 & Hd2); [done|lia|lia|].
      exists f2. split_and!; try done; [by apply (same_shape_trans _ f1)|].
      intros q Hq. rewrite Hd2, Hd1, Hc1, Hstep, <- orb_assoc by done. f_equal.
      destruct (q <? page_count fine); [|done]. cbn [andb].
      destruct (Z.eqb_spec (q / ratio) lo) as [->|]; [|done].
      rewrite (proj2 (Z.ltb_lt lo cc)), Hf by done. done.
  - destruct (IH (lo + 1) fine) as (f2 & Hf2 & Hwf2 & Hsh2 & Hd2); [done|lia|lia|].
    exists f2. split_and!; try done. intros q Hq. rewrite Hd2, Hstep by done. f_equal.
    destruct (Z.eqb_spec (q / ratio) lo) as [->|]; [|done].
    rewrite Hf, !andb_false_r. done.
Qed.

Lemma fold_words_spec ws : forall k fine,
  Forall (in_u 64) ws -> bitmap_wf fine -> (cc - 1) * ratio < page_count fine ->
  exists fine', fold_words cc ratio fine k ws = Some fine' /\
    bitmap_wf fine' /\ same_shape fine fine' /\
    forall q, 0 <= q ->
      dirty fine' q = dirty fine q ||
        ((q <? page_count fine) && (q / ratio <? cc) &&
         between (Z.of_nat k * 64) (Z.of_nat (64 * length ws)) (q / ratio) && word_bit ws k (q / ratio)).
Proof.
  induction ws as [|w ws IH]; intros k fine Hws Hwf Hpc; cbn [fold_words].
  { exists fine. split_and!; try done. intros q Hq. unfold word_bit. rewrite lookup_nil. cbn [default].
    by rewrite Z.testbit_0_l, andb_false_r, orb_false_r. }
  apply Forall_cons_iff in Hws as [Hw Hws]. rewrite word_pages_spec by done.
  destruct (fold_pages_spec (fun p => Z.testbit w (p mod 64)) 64 (Z.of_nat k * 64) fine)
    as (f1 & -> & Hwf1 & Hsh1 & Hd1); [done|lia|done|]. cbn [mbind option_bind].
  pose proof Hsh1 as (_ & _ & _ & Hc1).
  destruct (IH (S k) f1) as (f2 & Hf2 & Hwf2 & Hsh2 & Hd2); [done|done|lia|].
  exists f2. split_and!; try done; [by apply (same_shape_trans _ f1)|].
  intros q Hq. rewrite Hd2, Hd1, Hc1, <- orb_assoc by done. f_equal.
  destruct (q <? page_count fine); [|done]. destruct (q / ratio <? cc); [|done]. cbn [andb length].
  set (c := q / ratio). assert (Hq' : 0 <= c) by (apply Z.div_pos; lia). unfold between.
  destruct (decide (c < Z.of_nat k * 64)).
  { by rewrite !(proj2 (Z.leb_gt _ c)) by lia. }
  rewrite (proj2 (Z.leb_le (Z.of_nat k * 64) c)) by lia.
  destruct (decide (c < Z.of_nat (S k) * 64)).
  - rewrite (proj2 (Z.leb_gt _ c)), !(proj2 (Z.ltb_lt c _)) by lia.
    rewrite word_bit_head by lia. cbn. apply orb_false_r.
  - rewrite (proj2 (Z.ltb_ge c (_ + Z.of_nat 64))), (proj2 (Z.leb_le _ c)) by lia. cbn [andb orb].
    rewrite word_bit_tail by lia. f_equal. apply Bool.eq_iff_eq_true. rewrite !Z.ltb_lt. lia.
Qed.
End fold.

(** ** Addresses *)

Lemma trailing_zeros_pow2 k : 0 <= k -> trailing_zeros (2 ^ k) = k.
Proof.
  intros Hk. destruct (clear_lowest (2 ^ k)) as (H & _ & _ & _ & Hc); [by apply pow2_pos|].
  rewrite Z.pow2_bits_eqb in H by done. by apply Z.eqb_eq in H.
Qed.

Definition in_region (b : DirtyBitmap) (a : Z) : bool :=
  (ram_start b <=? a) && (a <? ram_start b + ram_size b).

Lemma page_index_of_eq b a :
  bitmap_wf b ->
  page_index_of b a = if in_region b a then Some ((a - ram_start b) / page_size b) else None.
Proof.
  intros Hwf. destruct (bw_page b Hwf) as (k & Hk & Hp). unfold page_index_of, page_shift, in_region.
  rewrite Hp, trailing_zeros_pow2, Z.shiftr_div_pow2 by lia.
  destruct (Z.ltb_spec a (ram_start b)), (Z.leb_spec (ram_start b) a),
    (Z.leb_spec (ram_size b) (a - ram_start b)), (Z.ltb_spec a (ram_start b + ram_size b));
    cbn; lia || done.
Qed.

Lemma page_of_addr b a :
  bitmap_wf b -> in_region b a = true -> 0 <= (a - ram_start b) / page_size b < page_count b.
Proof.
  intros Hwf Ha. destruct (bw_page b Hwf) as (k & Hk & Hp). pose proof (pow2_pos k ltac:(lia)).
  unfold in_region in Ha. bool_to_prop.
  destruct (div_ceil_bounds (ram_size b) (page_size b)) as [? ?]; [apply Hwf|lia|].
  rewrite (bw_count b Hwf). split; [apply Z.div_pos; lia|]. apply Z.div_lt_upper_bound; lia.
Qed.

Lemma is_dirty_eq b a :
  bitmap_wf b ->
  is_dirty b a = Some (in_region b a && dirty b ((a - ram_start b) / page_size b)).
Proof.
  intros Hwf. unfold is_dirty. rewrite page_index_of_eq by done.
  destruct (in_region b a) eqn:Ha; [|done].
  rewrite is_dirty_by_index_eq; [done|done|]. by apply page_of_addr.
Qed.

Lemma set_dirty_spec b a :
  bitmap_wf b ->
  exists b' fresh, set_dirty b a = Some (b', fresh) /\ bitmap_wf b' /\ same_shape b b' /\
    is_dirty b a = Some (in_region b a && negb fresh) /\
    forall p, 0 <= p -> dirty b' p =
      dirty b p || (in_region b a && (p =? (a - ram_start b) / page_size b)).
Proof.
  intros Hwf. rewrite is_dirty_eq by done. unfold set_dirty. rewrite page_index_of_eq by done.
  destruct (in_region b a) eqn:Ha.
  2:{ exists b, false. split_and!; try done. intros p Hp. by rewrite orb_false_r. }
  destruct (page_of_addr b a Hwf Ha) as [H0 H1].
  destruct (set_dirty_by_index_spec b _ Hwf H0) as (b' & -> & Hwf' & ? & ? & ? & ? & Hd).
  eexists b', _. split; [done|]. rewrite (proj2 (Z.ltb_lt _ (page_count b))) in * by done. cbn [andb].
  split_and!; try done; [by rewrite negb_involutive|].
  intros p Hp. rewrite Hd by done. by rewrite andb_true_r.
Qed.

(** ** Folding a whole bitmap *)

Lemma fold_into_finer_spec b fine :
  bitmap_wf b -> bitmap_wf fine -> ram_start fine = ram_start b -> ram_size fine = ram_size b ->
  2 <= page_size fine < page_size b ->
  exists fine', fold_into_finer b fine = Some (Ok fine') /\ bitmap_wf fine' /\ same_shape fine fine' /\
    (exists ratio, page_size b = ratio * page_size fine /\ 0 < ratio /\
     forall q, 0 <= q ->
       dirty fine' q = dirty fine q || ((q <? page_count fine) && dirty b (q / ratio))).
Proof.
  intros Hb Hf Hs Hz Hlt. destruct (bw_page b Hb) as (k & Hk & Hpk), (bw_page fine Hf) as (j & Hj & Hpj).
  assert (Hjk : j < k) by (apply (Z.pow_lt_mono_r_iff 2); lia).
  assert (Hsz : page_size b = 2 ^ (k - j) * page_size fine)
    by (rewrite Hpk, Hpj, <- Z.pow_add_r by lia; f_equal; lia).
  pose proof (pow2_pos (k - j) ltac:(lia)) as Hr. set (ratio := 2 ^ (k - j)) in *.
  unfold fold_into_finer. rewrite Hs, Hz, !Z.eqb_refl, (proj2 (Z.leb_gt _ _)) by lia.
  assert (Hmod : page_size b mod page_size fine = 0) by (rewrite Hsz; apply Z.mod_mul; lia).
  rewrite Hmod, Z.eqb_refl. cbn [negb orb].
  replace (page_size b / page_size fine) with ratio by (rewrite Hsz, Z.div_mul by lia; done).
  destruct (word_cover b Hb) as [Hc0 Hcov].
  assert (Hbs : page_size b < 2 ^ 64) by (rewrite Hpk; apply Z.pow_lt_mono_r; lia).
  pose proof (bw_end b Hb) as Hend. pose proof (bw_start b Hb). pose proof (bw_size b Hb).
  destruct (div_ceil_bounds (ram_size b) (page_size b)) as [_ [Hc1 _]]; [lia|lia|].
  rewrite <- (bw_count b Hb) in Hc1.
  destruct (div_ceil_bounds (ram_size fine) (page_size fine)) as [_ [_ Hc2]]; [lia|lia|].
  rewrite <- (bw_count fine Hf), Hz in Hc2.
  assert (Hov : page_count b * ratio < 2 ^ 64).
  { assert (page_count b * (ratio * page_size fine) < 2 * 2 ^ 64) by nia.
    assert (page_count b * ratio * 2 <= page_count b * ratio * page_size fine)
      by (apply Z.mul_le_mono_nonneg_l; nia). lia. }
  assert (Hcc : (page_count b - 1) * ratio < page_count fine).
  { apply (Z.mul_lt_mono_pos_r (page_size fine)); [lia|]. rewrite <- Z.mul_assoc, <- Hsz. lia. }
  destruct (fold_words_spec (page_count b) ratio Hr Hov (words b) 0 fine (bw_words b Hb) Hf Hcc)
    as (f' & -> & Hwf' & Hsh & Hd).
  exists f'. split_and!; try done. exists ratio. split_and!; try done. intros q Hq. rewrite Hd by done. f_equal.
  destruct (q <? page_count fine); [|done]. cbn [andb].
  pose proof (Z.div_pos q ratio Hq Hr). unfold dirty, between, word_bit.
  rewrite Nat.sub_0_r. destruct (Z.ltb_spec (q / ratio) (page_count b)); [|done]. cbn [andb].
  rewrite (proj2 (Z.leb_le _ (q / ratio))), (proj2 (Z.ltb_lt (q / ratio) _)) by lia. done.
Qed.

(** ** Histories of a tracked region *)

(** What the vCPU threads, the tick thread and the snapshot writer do to a
    region; [Drain] is [region.bitmap().drain()]. *)
Inductive RegionOp := Mark (addr : Z) | Tick (now : Z) | Drain.

Definition region_step (r : TrackedRegion) (op : RegionOp) : option TrackedRegion :=
  match op with
  | Mark addr => fst <$> mark_dirty r addr
  | Tick now => tick_adaptive r now
  | Drain => Some (mkRegion (drain (tr_bitmap r)).1 (tr_controller r) (tr_geometry r))
  end.

Fixpoint region_run (r : TrackedRegion) (ops : list RegionOp) : option TrackedRegion :=
  match ops with
  | [] => Some r
  | op :: ops' => r' ← region_step r op; region_run r' ops'
  end.

(** The addresses marked since the last drain. *)
Definition marked_step (marked : list Z) (op : RegionOp) : list Z :=
  match op with Mark addr => addr :: marked | Tick _ => marked | Drain => [] end.

Definition marked_since_drain (ops : list RegionOp) : list Z := foldl marked_step [] ops.

Record geometry_ok (geom : PageGeometry) : Prop := mkGeometryOk {
  go_default : exists k, 0 <= k < 64 /\ tracking_page_default geom = 2 ^ k;
  go_hot : exists k, 0 <= k < 64 /\ tracking_page_hot geom = 2 ^ k;
  go_order : 2 <= tracking_page_hot geom < tracking_page_default geom
}.

Lemma pow2_in_u k : 0 <= k < 64 -> in_u 64 (2 ^ k).
Proof. intros Hk. split; [apply Z.pow_nonneg; lia|]. apply Z.pow_lt_mono_r; lia. Qed.

(** The state between two operations: no marked address is lost, and nothing is
    dirty beyond the coarse blocks of the marked addresses. *)
Record tracks (start sz : Z) (r : TrackedRegion) (marked : list Z) : Prop := mkTracks {
  tk_wf : bitmap_wf (tr_bitmap r);
  tk_geom : geometry_ok (tr_geometry r);
  tk_start : ram_start (tr_bitmap r) = start;
  tk_size : ram_size (tr_bitmap r) = sz;
  tk_page : page_size (tr_bitmap r) = tracking_page_default (tr_geometry r) \/
            page_size (tr_bitmap r) = tracking_page_hot (tr_geometry r);
  tk_cover : forall a, In a marked -> start <= a < start + sz ->
    dirty (tr_bitmap r) ((a - start) / page_size (tr_bitmap r)) = true;
  tk_tight : forall p, 0 <= p -> dirty (tr_bitmap r) p = true ->
    exists a, In a marked /\ start <= a < start + sz /\
      (a - start) / tracking_page_default (tr_geometry r) =
      p * page_size (tr_bitmap r) / tracking_page_default (tr_geometry r)
}.

Lemma in_region_iff b a : in_region b a = true <-> ram_start b <= a < ram_start b + ram_size b.
Proof. unfold in_region. rewrite andb_true_iff, Z.leb_le, Z.ltb_lt. lia. Qed.

(** The block of a page is the block of any address in it. *)
Lemma page_block fine ratio x :
  0 < fine -> 0 < ratio -> x / fine * fine / (ratio * fine) = x / (ratio * fine).
Proof.
  intros Hf Hr. rewrite Z.div_mul_cancel_r by lia. rewrite Z.div_div by lia. f_equal. lia.
Qed.

Lemma pow2_ratio a b : 0 <= a -> 0 <= b -> 2 ^ a <= 2 ^ b -> exists ratio, 2 ^ b = ratio * 2 ^ a /\ 0 < ratio.
Proof.
  intros Ha Hb Hle. apply Z.pow_le_mono_r_iff in Hle; [|lia..]. exists (2 ^ (b - a)).
  rewrite <- Z.pow_add_r by lia. split; [f_equal; lia|apply pow2_pos; lia].
Qed.

(** Both granularities divide the coarse block. *)
Lemma tracks_ratio start sz r marked :
  tracks start sz r marked ->
  0 < page_size (tr_bitmap r) /\ exists ratio, 0 < ratio /\
    tracking_page_default (tr_geometry r) = ratio * page_size (tr_bitmap r).
Proof.
  intros T. pose proof (tk_geom _ _ _ _ T) as [(k & Hk & Hd) (j & Hj & Hh) Ho].
  pose proof (pow2_pos k ltac:(lia)). pose proof (pow2_pos j ltac:(lia)).
  destruct (tk_page _ _ _ _ T) as [Hp|Hp]; rewrite Hp.
  - split; [lia|]. exists 1. lia.
  - split; [lia|]. destruct (pow2_ratio j k) as (ratio & Hr & ?); [lia..|]. exists ratio. by rewrite Hd, Hh.
Qed.

Lemma tracks_new start sz geom thr now r :
  in_u 64 start -> in_u 64 sz -> geometry_ok geom ->
  region_with_threshold start sz geom thr now = Ok r -> tracks start sz r [].
Proof.
  intros Hs Hz Hg H. unfold region_with_threshold in H.
  destruct (bitmap_new start sz _) as [b|] eqn:Hb; [|done]. cbn in H. simplify_eq.
  pose proof Hg as [(k & Hk & Hd) _ _].
  apply bitmap_new_wf in Hb as (Hwf & ? & ? & ? & Hcl); [|done|done|rewrite Hd; by apply pow2_in_u].
  constructor; cbn; try done; [by left|]. intros p _ Hp. by rewrite Hcl in Hp.
Qed.

Lemma tracks_mark start sz r marked addr :
  tracks start sz r marked ->
  exists r' fresh, mark_dirty r addr = Some (r', fresh) /\ tracks start sz r' (addr :: marked).
Proof.
  intros T. destruct (tracks_ratio _ _ _ _ T) as (Hp0 & ratio & Hr & Hdef).
  destruct T as [Hwf Hg Hs Hz Hpg Hcov Htight]. unfold mark_dirty.
  destruct (set_dirty_spec (tr_bitmap r) addr Hwf) as (b' & fr & -> & Hwf' & (S1 & S2 & S3 & S4) & _ & Hd).
  cbn [mbind option_bind fst snd]. eexists _, fr. split; [done|].
  pose proof (in_region_iff (tr_bitmap r) addr) as Hin. rewrite Hs, Hz in Hin.
  constructor; cbn; rewrite ?S1, ?S2, ?S3; try done.
  - intros a [<-|Ha] Hra.
    + rewrite Hd by (apply Z.div_pos; lia). rewrite (proj2 Hin Hra), Hs, Z.eqb_refl. apply orb_true_r.
    + rewrite Hd by (apply Z.div_pos; lia). by rewrite (Hcov a Ha Hra).
  - intros p Hp Hdp. rewrite Hd in Hdp by done. apply orb_true_iff in Hdp as [Hdp|Hdp].
    + destruct (Htight p Hp Hdp) as (a & ? & ? & ?). exists a. eauto.
    + apply andb_true_iff in Hdp as [Hra ->%Z.eqb_eq]. exists addr. split; [by left|].
      split; [by apply Hin|]. rewrite Hs, Hdef. symmetry. by apply page_block.
Qed.

Lemma tracks_drain start sz r marked :
  tracks start sz r marked ->
  tracks start sz (mkRegion (drain (tr_bitmap r)).1 (tr_controller r) (tr_geometry r)) [].
Proof.
  intros []. constructor; cbn; try done; [by apply drain_wf|].
  intros p _ Hp. by rewrite dirty_zero_words in Hp.
Qed.

(** Installing a finer bitmap keeps the marks of the coarse one. *)
Lemma tracks_step_down start sz r marked c target :
  tracks start sz r marked ->
  target = tracking_page_default (tr_geometry r) \/ target = tracking_page_hot (tr_geometry r) ->
  exists b, step_down (tr_bitmap r) target = Some b /\ tracks start sz (mkRegion b c (tr_geometry r)) marked.
Proof.
  intros T Ht. unfold step_down. destruct (Z.eqb_spec target (page_size (tr_bitmap r))) as [_|Hne].
  { eexists. split; [done|]. destruct T. by constructor. }
  pose proof T as [Hwf Hg Hs Hz Hpg Hcov Htight]. pose proof Hg as [(k & Hk & Hd) (j & Hj & Hh) Ho].
  assert (Htu : in_u 64 target) by (destruct Ht as [->| ->]; rewrite ?Hd, ?Hh; by apply pow2_in_u).
  pose proof (bw_end _ Hwf). pose proof (bw_start _ Hwf). pose proof (bw_size _ Hwf).
  destruct (bitmap_new _ _ target) as [fine|] eqn:Hb.
  2:{ eexists. split; [done|]. by constructor. }
  apply bitmap_new_wf in Hb as (Hwff & Fs & Fz & Fp & Fcl); [|split; lia|split; lia|done].
  destruct (decide (target < page_size (tr_bitmap r))) as [Hlt|Hge].
  2:{ unfold fold_into_finer. rewrite Fs, Fz, !Z.eqb_refl, Fp, (proj2 (Z.leb_le _ _)) by lia.
      eexists. split; [done|]. by constructor. }
  destruct (fold_into_finer_spec (tr_bitmap r) fine) as (f' & -> & Hwf' & (S1 & S2 & S3 & S4) & ratio & Hrat & Hr0 & Hdf);
    [done|done|done|done|lia|].
  eexists. split; [done|]. rewrite Fp in Hrat.
  constructor; cbn; rewrite ?S1, ?S2, ?S3, ?Fs, ?Fz, ?Fp; try done.
  - intros a Ha Hra. rewrite Hdf by (apply Z.div_pos; lia). rewrite Fcl. cbn [orb].
    assert (Hin : in_region fine a = true) by (apply in_region_iff; lia).
    pose proof (page_of_addr fine a Hwff Hin) as Hq. rewrite Fs, Hs, Fp in Hq.
    rewrite (proj2 (Z.ltb_lt _ _)) by lia. cbn [andb].
    rewrite Z.div_div, Z.mul_comm, <- Hrat by lia. by apply Hcov.
  - intros p Hp Hdp. rewrite Hdf, Fcl in Hdp by done. apply andb_true_iff in Hdp as [_ Hdp].
    destruct (Htight _ (Z.div_pos p ratio Hp Hr0) Hdp) as (a & Ha & Hra & Hblk).
    exists a. split_and!; try done; try lia. rewrite Hblk.
    assert (Hdt : page_size (tr_bitmap r) = tracking_page_default (tr_geometry r)) by lia.
    rewrite Hdt, Z.div_mul by lia. rewrite <- Hdt, Hrat, Z.div_mul_cancel_r by lia. done.
Qed.

Lemma tracks_step start sz r marked op :
  tracks start sz r marked ->
  exists r', region_step r op = Some r' /\ tracks start sz r' (marked_step marked op).
Proof.
  intros T. destruct op as [addr|now|]; cbn [region_step marked_step].
  - destruct (tracks_mark _ _ _ _ addr T) as (r' & fr & -> & T'). by exists r'.
  - unfold tick_adaptive.
    destruct (tracks_step_down _ _ _ _ (tick (tr_controller r) now)
      (granule_page_size (granule (tick (tr_controller r) now)) (tr_geometry r)) T) as (b & -> & T').
    { destruct (granule _); [by left|by right]. }
    eexists. by split.
  - eexists. split; [done|]. by apply (tracks_drain _ _ _ marked).
Qed.

Lemma tracks_run start sz ops : forall r marked,
  tracks start sz r marked ->
  exists r', region_run r ops = Some r' /\ tracks start sz r' (foldl marked_step marked ops).
Proof.
  induction ops as [|op ops IH]; intros r marked T; cbn [region_run foldl]; [by exists r|].
  destruct (tracks_step _ _ _ _ op T) as (r1 & -> & T1). cbn [mbind option_bind]. by apply IH.
Qed.

(** C14: In every history of marks, ticks and drains of a tracked region no
    operation panics; every guest address marked since the last drain is still
    reported dirty, whatever step-downs happened in between; and an address is
    reported dirty only when some address of its coarse block was marked since
    that drain. *)
Theorem tracking_coverage start sz geom thr now r ops :
  in_u 64 start -> in_u 64 sz -> geometry_ok geom ->
  region_with_threshold start sz geom thr now = Ok r ->
  exists r', region_run r ops = Some r' /\
    (forall a, In a (marked_since_drain ops) -> start <= a < start + sz ->
       is_dirty (tr_bitmap r') a = Some true) /\
    (forall a, is_dirty (tr_bitmap r') a = Some true ->
       exists m, In m (marked_since_drain ops) /\ start <= m < start + sz /\
         (m - start) / tracking_page_default (tr_geometry r') =
         (a - start) / tracking_page_default (tr_geometry r')).
Proof.
  intros Hs Hz Hg Hnew. destruct (tracks_run start sz ops r []) as (r' & Hrun & T).
  { by apply (tracks_new start sz geom thr now). }
  exists r'. split; [done|]. destruct (tracks_ratio _ _ _ _ T) as (Hp0 & ratio & Hr & Hdef).
  destruct T as [Hwf _ Ts Tz _ Hcov Htight].
  split; intros a; rewrite is_dirty_eq by done.
  - intros Ha Hra. rewrite (proj2 (in_region_iff _ _)) by lia. rewrite Ts. by rewrite Hcov.
  - intros [= [Hin Hd]%andb_true_iff]. apply in_region_iff in Hin. rewrite Ts in Hd.
    assert (Ha : 0 <= a - start) by lia.
    destruct (Htight _ (Z.div_pos _ _ Ha Hp0) Hd) as (m & Hm & Hrm & Hblk).
    exists m. split_and!; try done; try lia. rewrite Hblk, Hdef. by apply page_block.
Qed.

Lemma apple_silicon_ok : geometry_ok APPLE_SILICON.
Proof.
  constructor; [exists 21|exists 14|]; cbn; [split; [lia|reflexivity]..|lia].
Qed.

Lemma tracking_coverage_witness :
  exists r r', region_with_threshold 0x80000000 0x400000 APPLE_SILICON 0 0 = Ok r /\
    region_run r [Mark 0x80000010; Tick 200000000; Mark 0x80200000] = Some r' /\
    is_dirty (tr_bitmap r') 0x80000010 = Some true.
Proof.
  destruct (region_with_threshold 0x80000000 0x400000 APPLE_SILICON 0 0) as [r|] eqn:Hr; [|done].
  destruct (tracking_coverage 0x80000000 0x400000 APPLE_SILICON 0 0 r
    [Mark 0x80000010; Tick 200000000; Mark 0x80200000]) as (r' & Hrun & Hc & _);
    [unfold in_u; lia|unfold in_u; lia|exact apple_silicon_ok|exact Hr|].
  exists r, r'. split; [reflexivity|]. split; [exact Hrun|].
  apply Hc; [|lia]. cbn. right. left. reflexivity.
Defined.

Lemma drain_word_into_eq {S} (cb : S -> Z -> S) count i fuel : forall bits s,
  drain_word_into cb count i fuel bits s =
  foldl cb s (List.filter (fun p => p <? count)
    ((fun bit => Z.of_nat i * 64 + bit) <$> scan_bits fuel bits)).
Proof.
  induction fuel as [|fuel IH]; intros bits s; [done|]. cbn [drain_word_into scan_bits].
  destruct (bits =? 0); [done|]. rewrite IH. cbn. by destruct (_ <? count).
Qed.

Lemma drain_word_into_pages {S} (cb : S -> Z -> S) count i bits s :
  drain_word_into cb count i 64 bits s = foldl cb s (List.filter (fun p => p <? count) (word_pages i bits)).
Proof. unfold word_pages. apply drain_word_into_eq. Qed.

Lemma each_word_eq {S} (cb : S -> Z -> S) (f : Z -> bool) body (pages : nat -> Z -> list Z) ws :
  (forall i w s, body i w s = foldl cb s (List.filter f (pages i w))) ->
  forall i s, each_word body i ws s =
    foldl cb s (List.filter f (concat (imap (fun j => pages (i + j)%nat) ws))).
Proof.
  intros Hb. induction ws as [|w ws IH]; intros i s; [done|].
  rewrite imap_cons. cbn [concat each_word].
  by rewrite List.filter_app, foldl_app, Nat.add_0_r, imap_shift, IH, Hb.
Qed.

(** Draining returns exactly the dirty pages, each once and in ascending
    order, and leaves a bitmap of the same shape with no dirty page; the
    callback form sees the same pages in the same order. *)
Theorem drain_exact b :
  bitmap_wf b ->
  (forall S (cb : S -> Z -> S) s, drain_into b cb s = ((drain b).1, foldl cb s (drain b).2)) /\
  (drain b).2 = List.filter (dirty b) (range 0 (Z.to_nat (page_count b))) /\
  (forall p, In p (drain b).2 <-> 0 <= p /\ is_dirty_by_index b p = Some true) /\
  (forall p, dirty (drain b).1 p = false) /\
  bitmap_wf (drain b).1 /\ same_shape b (drain b).1.
Proof.
  intros Hwf. pose proof (drain_pages b Hwf) as Hd. split_and!; try done.
  - intros S cb s. unfold drain_into, drain. cbn [fst snd]. f_equal.
    apply (each_word_eq cb _ _ word_pages). intros. apply drain_word_into_pages.
  - intros p. rewrite Hd, filter_In, range_In. destruct (word_cover b Hwf). split.
    + intros [Hr Hp]. split; [lia|]. rewrite is_dirty_by_index_eq by (done || lia). by rewrite Hp.
    + intros [Hp Hx]. rewrite is_dirty_by_index_eq in Hx by (done || lia). injection Hx as Hx.
      split; [|done]. unfold dirty in Hx. bool_to_prop. lia.
  - intros p. apply dirty_zero_words.
  - by apply drain_wf.
Qed.

Definition sample_bitmap : DirtyBitmap :=
  mkBitmap 0x80000000 0x200000 0x4000 128 [0x8000000000000001; 5].

Lemma sample_bitmap_wf : bitmap_wf sample_bitmap.
Proof.
  constructor; cbn; try lia.
  - exists 14. split; [lia|reflexivity].
  - reflexivity.
  - reflexivity.
  - repeat constructor; unfold in_u; lia.
Qed.

Lemma drain_exact_witness :
  (drain sample_bitmap).2 = [0; 63; 64; 66] /\ dirty (drain sample_bitmap).1 64 = false.
Proof.
  destruct (drain_exact sample_bitmap sample_bitmap_wf) as (_ & H & _ & Hc & _).
  split; [rewrite H; vm_compute; reflexivity|apply Hc].
Defined.

(** ** Interleaving marks with a step-down

    [mark_dirty] clones the bitmap pointer and writes through the clone after
    releasing the lock; [tick_adaptive] folds and replaces the bitmap under the
    lock.  Bitmaps live in a heap so that a clone keeps denoting the bitmap it
    was taken from. *)

Record SharedRegion := mkShared {
  sh_heap : list DirtyBitmap;
  sh_current : nat;
  sh_controller : AdaptiveController;
  sh_geometry : PageGeometry
}.

Inductive SharedStep :=
| MarkClone (tid : nat) (addr : Z)
| MarkWrite (tid : nat)
| TickSwap (now : Z).

(** The clones held by threads in the middle of [mark_dirty]. *)
Definition Pending := list (nat * (nat * Z)).

Definition region_view (s : SharedRegion) : option TrackedRegion :=
  b ← sh_heap s !! sh_current s; Some (mkRegion b (sh_controller s) (sh_geometry s)).

Definition find_pending (tid : nat) (ps : Pending) : option (nat * Z) :=
  snd <$> List.find (fun p => Nat.eqb p.1 tid) ps.

Definition shared_step (s : SharedRegion) (ps : Pending) (st : SharedStep)
  : option (SharedRegion * Pending) :=
  match st with
  | MarkClone tid addr =>
      r ← region_view s;
      Some (mkShared (sh_heap s) (sh_current s) (account_fault r addr) (sh_geometry s),
            (tid, (sh_current s, addr)) :: ps)
  | MarkWrite tid =>
      pa ← find_pending tid ps;
      b ← sh_heap s !! pa.1;
      w ← set_dirty b pa.2;
      Some (mkShared (<[pa.1 := w.1]> (sh_heap s)) (sh_current s) (sh_controller s) (sh_geometry s),
            List.filter (fun p => negb (Nat.eqb p.1 tid)) ps)
  | TickSwap now =>
      r ← region_view s;
      r' ← tick_adaptive r now;
      Some (mkShared (sh_heap s ++ [tr_bitmap r']) (length (sh_heap s)) (tr_controller r') (sh_geometry s),
            ps)
  end.

Fixpoint shared_run (s : SharedRegion) (ps : Pending) (sts : list SharedStep)
  : option (SharedRegion * Pending) :=
  match sts with
  | [] => Some (s, ps)
  | st :: sts' => r ← shared_step s ps st; shared_run r.1 r.2 sts'
  end.

(** Without a step-down between its two halves a mark is the sequential
    [mark_dirty]. *)
Lemma uninterrupted_mark s r tid addr r' fresh :
  region_view s = Some r -> mark_dirty r addr = Some (r', fresh) ->
  exists s', shared_run s [] [MarkClone tid addr; MarkWrite tid] = Some (s', []) /\
    region_view s' = Some r'.
Proof.
  intros Hv Hm. pose proof Hv as Hv0. unfold region_view in Hv.
  destruct (sh_heap s !! sh_current s) as [b|] eqn:Hb; [|done]. cbn in Hv. simplify_eq.
  unfold mark_dirty in Hm. destruct (set_dirty _ addr) as [[b' fr]|] eqn:Hd; [|done].
  cbn in Hm, Hd. simplify_eq.
  cbn [shared_run shared_step]. rewrite Hv0. cbn. rewrite Nat.eqb_refl. cbn.
  rewrite Hb. cbn. rewrite Hd. cbn.
  eexists. split; [done|]. unfold region_view; cbn.
  rewrite list_lookup_insert_eq by (by apply lookup_lt_Some in Hb). done.
Qed.

(** A step-down between the two halves loses the mark: the write lands in the
    replaced bitmap and the active one reports the page clean, although
    [mark_dirty] has returned. *)
Lemma interrupted_mark_lost :
  exists r s, region_with_threshold 0x80000000 0x400000 APPLE_SILICON 0 0 = Ok r /\
    shared_run (mkShared [tr_bitmap r] 0 (tr_controller r) (tr_geometry r)) []
      [MarkClone 1 0x80200000; TickSwap 200000000; MarkWrite 1] = Some (s, []) /\
    (r' ← region_view s; is_dirty (tr_bitmap r') 0x80200000) = Some false.
Proof.
  destruct (region_with_threshold 0x80000000 0x400000 APPLE_SILICON 0 0) as [r|] eqn:Hr; [|done].
  vm_compute in Hr. simplify_eq.
  eexists _, _. split; [reflexivity|]. split; [vm_compute; reflexivity|]. vm_compute. reflexivity.
Qed.
