(* ===== verification/Schemas.v ===== *)
(** * Schemas: request bodies and their validation

    Models [src/crates/api/src/schemas] and [src/crates/core/src/identifiers.rs]: the raw
    bodies of the API, the validated types and the conversions between them.  A
    [String] is the list of its bytes, an integer a [Z] of the width in its comment.
    A conversion is an equation [try_from raw = Ok c], and its lemma says exactly when
    it holds: the raw body is the one [c] spells ([_raw]) and [c] is valid ([_ok]).
    The JSON library's value type is the class [SerdeJson]. *)

From stdpp Require Import base numbers list option gmap strings.
From Stdlib Require Import ZArith Lia.
From S2P Require Import Prelude Text.

Local Open Scope Z_scope.
Local Open Scope squib_scope.

(** What the code uses of [serde_json::Value]. *)
Class SerdeJson := {
  JsonValue : Type;
  json_empty : JsonValue;
  json_null : JsonValue;
  json_get : JsonValue -> list Z -> option JsonValue
}.

(** ** Boundary types *)

Definition MAX_DRIVES : Z := 8.
Definition MAX_NICS : Z := 8.
Definition MAX_PMEM : Z := 4.
Definition MAX_VCPU_COUNT : Z := 32.
Definition PATH_MAX : Z := 1024.
Definition UDS_PATH_MAX : Z := 103.

Definition is_ascii_alphanumeric (b : Z) : bool :=
  ((48 <=? b) && (b <=? 57)) || ((65 <=? b) && (b <=? 90)) || ((97 <=? b) && (b <=? 122)).

Definition is_empty (s : list Z) : bool := match s with [] => true | _ => false end.

Definition is_valid_identifier (s : list Z) : bool :=
  negb (is_empty s) && (zlen s <=? 64) && forallb (fun b => is_ascii_alphanumeric b || (b =? 95)) s.

Definition contains_nul (s : list Z) : bool := existsb (Z.eqb 0) s.

Definition ensure_no_nul (value field : list Z) : result (list Z) unit :=
  if contains_nul value then Err (field ++ lit " must not contain NUL bytes") else Ok tt.

Record InstanceId := mkInstanceId { instance_id_str : list Z }.
Record DriveId := mkDriveId { drive_id_str : list Z }.
Record IfaceId := mkIfaceId { iface_id_str : list Z }.
Record VsockId := mkVsockId { vsock_id_str : list Z }.

Definition InstanceId_new (id : list Z) : result (list Z) InstanceId :=
  if negb (is_valid_identifier id)
  then Err (lit "Invalid id: must match ^[A-Za-z0-9_]{1,64}$ (got " ++ decimal (zlen id) ++ lit " bytes)")
  else Ok (mkInstanceId id).

Definition DriveId_new (id : list Z) : result (list Z) DriveId :=
  if negb (is_valid_identifier id) then Err (lit "Invalid drive_id: must match ^[A-Za-z0-9_]{1,64}$")
  else Ok (mkDriveId id).

Definition IfaceId_new (id : list Z) : result (list Z) IfaceId :=
  if negb (is_valid_identifier id) then Err (lit "Invalid iface_id: must match ^[A-Za-z0-9_]{1,64}$")
  else Ok (mkIfaceId id).

Definition VsockId_new (id : list Z) : result (list Z) VsockId :=
  if negb (is_valid_identifier id) then Err (lit "Invalid vsock_id: must match ^[A-Za-z0-9_]{1,64}$")
  else Ok (mkVsockId id).

Record SafePath := mkSafePath { safe_path : list Z }.

Definition SafePath_new (path : list Z) : result (list Z) SafePath :=
  match from_utf8 path with
  | None => Err (lit "path is not valid UTF-8")
  | Some _ =>
      if is_empty path then Err (lit "path must not be empty")
      else if PATH_MAX <? zlen path
      then Err (lit "path exceeds " ++ decimal PATH_MAX ++ lit " bytes (got " ++ decimal (zlen path) ++ lit " bytes)")
      else let? _ := ensure_no_nul path (lit "path") in Ok (mkSafePath path)
  end.

Record UdsPath := mkUdsPath { uds_path_str : list Z }.

Definition UdsPath_new (path : list Z) : result (list Z) UdsPath :=
  match from_utf8 path with
  | None => Err (lit "uds path is not valid UTF-8")
  | Some _ =>
      if is_empty path then Err (lit "uds path must not be empty")
      else if UDS_PATH_MAX <? zlen path
      then Err (lit "uds path exceeds " ++ decimal UDS_PATH_MAX ++ lit " bytes on Darwin (got " ++
                  decimal (zlen path) ++ lit " bytes)")
      else let? _ := ensure_no_nul path (lit "uds path") in Ok (mkUdsPath path)
  end.

(** [u64]. *)
Record MemSizeMib := mkMemSizeMib { mem_mib : Z }.

Definition MemSizeMib_new (value : Z) : result (list Z) MemSizeMib :=
  if value =? 0 then Err (lit "mem_size_mib must be >= 1") else Ok (mkMemSizeMib value).

(** [s.split(':')]. *)
Fixpoint split_on (sep : Z) (cur s : list Z) : list (list Z) :=
  match s with
  | [] => [cur]
  | c :: s' => if c =? sep then cur :: split_on sep [] s' else split_on sep (cur ++ [c]) s'
  end.

Definition hex_digit_val (c : Z) : option Z :=
  if (48 <=? c) && (c <=? 57) then Some (c - 48)
  else if (97 <=? c) && (c <=? 102) then Some (c - 87)
  else if (65 <=? c) && (c <=? 70) then Some (c - 55)
  else None.

(** [u8::from_str_radix(s, 16)]: an optional plus sign, then digits without overflow. *)
Fixpoint radix16_digits (acc : Z) (s : list Z) : option Z :=
  match s with
  | [] => Some acc
  | c :: s' =>
      d ← hex_digit_val c;
      a ← checked_mul 8 acc 16;
      a' ← checked_add 8 a d;
      radix16_digits a' s'
  end.

Definition u8_from_hex (s : list Z) : option Z :=
  match s with
  | [] => None
  | [_] => radix16_digits 0 s
  | c :: s' => radix16_digits 0 (if c =? 43 then s' else s)
  end.

Record MacAddr := mkMac { mac_bytes : list Z }.

(** The loop of [MacAddr::parse] over the pieces with their indices. *)
Fixpoint mac_parts (i : Z) (parts : list (list Z)) (bytes : list Z) (count : Z) : result (list Z) (list Z * Z) :=
  match parts with
  | [] => Ok (bytes, count)
  | part :: parts' =>
      if 6 <=? i
      then Err (lit "Invalid MAC: expected 6 octets (saw at least " ++ decimal (i + 1) ++ lit ")")
      else if negb (zlen part =? 2)
      then Err (lit "Invalid MAC: octet " ++ decimal i ++ lit " must be exactly 2 hex digits")
      else
        match u8_from_hex part with
        | None => Err (lit "Invalid MAC: octet " ++ decimal i ++ lit " (" ++ part ++ lit ") is not valid hexadecimal")
        | Some octet => mac_parts (i + 1) parts' (<[Z.to_nat i := octet]> bytes) (i + 1)
        end
  end.

Definition MacAddr_parse (s : list Z) : result (list Z) MacAddr :=
  let? (bytes, count) := mac_parts 0 (split_on 58 [] s) (repeat 0 6) 0 in
  if negb (count =? 6)
  then Err (lit "Invalid MAC: expected 6 colon-separated octets (got " ++ decimal count ++ lit ")")
  else Ok (mkMac bytes).

Definition hex_char (d : Z) : Z := if d <? 10 then 48 + d else 87 + d.

(** [{:02x}]. *)
Definition hex2 (b : Z) : list Z := [hex_char (b / 16); hex_char (b mod 16)].

Fixpoint join_with (sep : Z) (parts : list (list Z)) : list Z :=
  match parts with
  | [] => []
  | [p] => p
  | p :: ps => p ++ sep :: join_with sep ps
  end.

Definition to_canonical_string (m : MacAddr) : list Z := join_with 58 (map hex2 (mac_bytes m)).

(** The identifier errors of [squib-core]. *)
Inductive IdentifierError :=
  | IdentEmpty (kind : list Z)
  | IdentTooLong (kind : list Z) (len max : Z)
  | IdentContainsNul (kind : list Z).

Definition identifier_message (e : IdentifierError) : list Z :=
  match e with
  | IdentEmpty kind => kind ++ lit ": must not be empty"
  | IdentTooLong kind len max =>
      kind ++ lit ": exceeds " ++ decimal max ++ lit " bytes (got " ++ decimal len ++ lit " bytes)"
  | IdentContainsNul kind => kind ++ lit ": contains a NUL byte"
  end.

Definition HOST_DEV_NAME_MAX_BYTES : Z := 64.

Record HostDevName := mkHostDevName { host_dev_name_str : list Z }.

Definition HostDevName_new (name : list Z) : result IdentifierError HostDevName :=
  if is_empty name then Err (IdentEmpty (lit "host_dev_name"))
  else if HOST_DEV_NAME_MAX_BYTES <? zlen name
  then Err (IdentTooLong (lit "host_dev_name") (zlen name) HOST_DEV_NAME_MAX_BYTES)
  else if contains_nul name then Err (IdentContainsNul (lit "host_dev_name"))
  else Ok (mkHostDevName name).

(** [map_err(|e| format!("Invalid {field}: {e}"))]. *)
Definition invalid {A} (field : string) (r : result (list Z) A) : result (list Z) A :=
  map_err (fun e => lit "Invalid " ++ lit field ++ lit ": " ++ e) r.

(** [match o { Some(x) => Some(f(x)?), None => None }]. *)
Definition opt_try {E A B} (f : A -> result E B) (o : option A) : result E (option B) :=
  match o with
  | Some x => let? y := f x in Ok (Some y)
  | None => Ok None
  end.

(** [if let Some(x) = o { check(x)?; }]. *)
Definition opt_check {E A} (f : A -> result E unit) (o : option A) : result E unit :=
  match o with Some x => f x | None => Ok tt end.

(** ** Boot source *)

Definition BOOT_ARGS_MAX : Z := 4096.

Record RawBootSourceConfig := mkRawBootSource {
  rbs_kernel_image_path : list Z;
  rbs_initrd_path : option (list Z);
  rbs_boot_args : option (list Z)
}.

Record BootSourceConfig := mkBootSource {
  bsc_kernel_image_path : SafePath;
  bsc_initrd_path : option SafePath;
  bsc_boot_args : option (list Z)
}.

Definition boot_args_check (args : list Z) : result (list Z) unit :=
  if BOOT_ARGS_MAX <? zlen args
  then Err (lit "Invalid boot_args: exceeds " ++ decimal BOOT_ARGS_MAX ++ lit " bytes (got " ++
              decimal (zlen args) ++ lit " bytes)")
  else if contains_nul args then Err (lit "Invalid boot_args: must not contain NUL bytes")
  else Ok tt.

Definition BootSourceConfig_try_from (raw : RawBootSourceConfig) : result (list Z) BootSourceConfig :=
  let? kernel_image_path := invalid "kernel_image_path" (SafePath_new (rbs_kernel_image_path raw)) in
  let? initrd_path := opt_try (fun p => invalid "initrd_path" (SafePath_new p)) (rbs_initrd_path raw) in
  let? _ := opt_check boot_args_check (rbs_boot_args raw) in
  Ok (mkBootSource kernel_image_path initrd_path (rbs_boot_args raw)).

(** ** Machine configuration: [u32] vCPUs, [u64] MiB. *)

Record RawMachineConfig := mkRawMachineConfig {
  rmc_vcpu_count : Z;
  rmc_mem_size_mib : Z;
  rmc_smt : bool;
  rmc_track_dirty_pages : bool;
  rmc_cpu_template : option (list Z);
  rmc_huge_pages : option (list Z)
}.

Record MachineConfig := mkMachineConfig {
  mc_vcpu_count : Z;
  mc_mem_size : MemSizeMib;
  mc_smt : bool;
  mc_track_dirty_pages : bool;
  mc_cpu_template : option (list Z);
  mc_huge_pages : option (list Z)
}.

Definition mc_mem_size_mib (c : MachineConfig) : Z := mem_mib (mc_mem_size c).

Definition SMT_FAULT : list Z := lit "Invalid arch field for SMT: SMT not supported on Apple Silicon".

Definition vcpu_fault (got : Z) : list Z :=
  lit "Invalid vcpu_count: must be in 1..=" ++ decimal MAX_VCPU_COUNT ++ lit ", got " ++ decimal got.

Definition cpu_template_check (t : list Z) : result (list Z) unit :=
  if is_empty t then Err (lit "Invalid cpu_template: must not be empty")
  else if 64 <? zlen t then Err (lit "Invalid cpu_template: exceeds 64 bytes")
  else Ok tt.

Definition huge_pages_check (h : list Z) : result (list Z) unit :=
  if is_empty h || (16 <? zlen h) then Err (lit "Invalid huge_pages: empty or exceeds 16 bytes") else Ok tt.

Definition MachineConfig_try_from (raw : RawMachineConfig) : result (list Z) MachineConfig :=
  if (rmc_vcpu_count raw =? 0) || (MAX_VCPU_COUNT <? rmc_vcpu_count raw)
  then Err (vcpu_fault (rmc_vcpu_count raw))
  else if rmc_smt raw then Err SMT_FAULT
  else
    let? mem := MemSizeMib_new (rmc_mem_size_mib raw) in
    let? _ := opt_check cpu_template_check (rmc_cpu_template raw) in
    let? _ := opt_check huge_pages_check (rmc_huge_pages raw) in
    Ok (mkMachineConfig (rmc_vcpu_count raw) mem (rmc_smt raw) (rmc_track_dirty_pages raw)
          (rmc_cpu_template raw) (rmc_huge_pages raw)).

Record RawMachineConfigPatch := mkRawPatch {
  rmp_vcpu_count : option Z;
  rmp_mem_size_mib : option Z;
  rmp_smt : option bool;
  rmp_track_dirty_pages : option bool;
  rmp_cpu_template : option (list Z);
  rmp_huge_pages : option (list Z)
}.

Record MachineConfigPatch := mkPatch {
  mp_vcpu_count : option Z;
  mp_mem_size_mib : option MemSizeMib;
  mp_smt : option bool;
  mp_track_dirty_pages : option bool;
  mp_cpu_template : option (list Z);
  mp_huge_pages : option (list Z)
}.

Definition MachineConfigPatch_try_from (raw : RawMachineConfigPatch) : result (list Z) MachineConfigPatch :=
  let? _ := opt_check (fun v => if (v =? 0) || (MAX_VCPU_COUNT <? v) then Err (vcpu_fault v) else Ok tt)
              (rmp_vcpu_count raw) in
  let? _ := opt_check (fun s : bool => if s then Err SMT_FAULT else Ok tt) (rmp_smt raw) in
  let? mem := opt_try MemSizeMib_new (rmp_mem_size_mib raw) in
  Ok (mkPatch (rmp_vcpu_count raw) mem (rmp_smt raw) (rmp_track_dirty_pages raw)
        (rmp_cpu_template raw) (rmp_huge_pages raw)).

(** ** Bodies that carry JSON *)

Inductive CacheType := CacheUnsafe | CacheWriteback.
Inductive IoEngine := EngineSync | EngineAsync.

Definition validate_partuuid (uuid : list Z) : result (list Z) unit :=
  if is_empty uuid || (64 <? zlen uuid)
  then Err (lit "Invalid partuuid: must be 1..=64 bytes (got " ++ decimal (zlen uuid) ++ lit " bytes)")
  else if negb (forallb (fun b => is_ascii_alphanumeric b || (b =? 45)) uuid)
  then Err (lit "Invalid partuuid: only [A-Za-z0-9-] permitted")
  else Ok tt.

(** The copy of it in [pmem.rs], with its own message. *)
Definition pmem_validate_partuuid (uuid : list Z) : result (list Z) unit :=
  if is_empty uuid || (64 <? zlen uuid) then Err (lit "Invalid partuuid: must be 1..=64 bytes")
  else if negb (forallb (fun b => is_ascii_alphanumeric b || (b =? 45)) uuid)
  then Err (lit "Invalid partuuid: only [A-Za-z0-9-] permitted")
  else Ok tt.

Definition MAX_REG_MODIFIERS : Z := 256.

Definition cap_check {A} (field : string) (v : list A) : result (list Z) unit :=
  if MAX_REG_MODIFIERS <? zlen v
  then Err (lit "Invalid cpu-config: " ++ lit field ++ lit " exceeds " ++ decimal MAX_REG_MODIFIERS ++ lit " entries")
  else Ok tt.

Section json.
Context `{J : SerdeJson}.

Record RawDriveConfig := mkRawDrive {
  rd_drive_id : list Z;
  rd_path_on_host : list Z;
  rd_is_root_device : bool;
  rd_is_read_only : bool;
  rd_cache_type : CacheType;
  rd_io_engine : IoEngine;
  rd_partuuid : option (list Z);
  rd_rate_limiter : option JsonValue;
  rd_socket : option (list Z)
}.

Record DriveConfig := mkDrive {
  d_drive_id : DriveId;
  d_path_on_host : SafePath;
  d_is_root_device : bool;
  d_is_read_only : bool;
  d_cache_type : CacheType;
  d_io_engine : IoEngine;
  d_partuuid : option (list Z);
  d_rate_limiter : option JsonValue;
  d_vhost_user_socket : option (list Z)
}.

Definition DriveConfig_try_from (raw : RawDriveConfig) : result (list Z) DriveConfig :=
  let? drive_id := DriveId_new (rd_drive_id raw) in
  let? path_on_host := invalid "path_on_host" (SafePath_new (rd_path_on_host raw)) in
  let? _ := opt_check validate_partuuid (rd_partuuid raw) in
  let? socket := match rd_socket raw with
                 | Some s =>
                     if is_empty s then Err (lit "Invalid socket: must not be empty")
                     else if 1024 <? zlen s then Err (lit "Invalid socket: exceeds 1024 bytes")
                     else Ok (Some s)
                 | None => Ok None
                 end in
  Ok (mkDrive drive_id path_on_host (rd_is_root_device raw) (rd_is_read_only raw) (rd_cache_type raw)
        (rd_io_engine raw) (rd_partuuid raw) (rd_rate_limiter raw) socket).

Record RawDrivePatch := mkRawDrivePatch {
  rdp_drive_id : list Z;
  rdp_path_on_host : option (list Z);
  rdp_rate_limiter : option JsonValue
}.

Record DrivePatch := mkDrivePatch {
  dp_drive_id : DriveId;
  dp_path_on_host : option SafePath;
  dp_rate_limiter : option JsonValue
}.

Definition DrivePatch_try_from (raw : RawDrivePatch) : result (list Z) DrivePatch :=
  let? drive_id := DriveId_new (rdp_drive_id raw) in
  let? path_on_host := opt_try (fun p => invalid "path_on_host" (SafePath_new p)) (rdp_path_on_host raw) in
  Ok (mkDrivePatch drive_id path_on_host (rdp_rate_limiter raw)).

Record RawNetworkInterfaceConfig := mkRawNetwork {
  rn_iface_id : list Z;
  rn_host_dev_name : list Z;
  rn_guest_mac : option (list Z);
  rn_rx_rate_limiter : option JsonValue;
  rn_tx_rate_limiter : option JsonValue
}.

Record NetworkInterfaceConfig := mkNetwork {
  n_iface_id : IfaceId;
  n_host_dev_name : HostDevName;
  n_guest_mac : option MacAddr;
  n_rx_rate_limiter : option JsonValue;
  n_tx_rate_limiter : option JsonValue
}.

Definition NetworkInterfaceConfig_try_from (raw : RawNetworkInterfaceConfig)
  : result (list Z) NetworkInterfaceConfig :=
  let? iface_id := IfaceId_new (rn_iface_id raw) in
  let? host_dev_name := map_err identifier_message (HostDevName_new (rn_host_dev_name raw)) in
  let? guest_mac := opt_try MacAddr_parse (rn_guest_mac raw) in
  Ok (mkNetwork iface_id host_dev_name guest_mac (rn_rx_rate_limiter raw) (rn_tx_rate_limiter raw)).

Record RawNetworkPatch := mkRawNetworkPatch {
  rnp_iface_id : list Z;
  rnp_rx_rate_limiter : option JsonValue;
  rnp_tx_rate_limiter : option JsonValue
}.

Record NetworkPatch := mkNetworkPatch {
  np_iface_id : IfaceId;
  np_rx_rate_limiter : option JsonValue;
  np_tx_rate_limiter : option JsonValue
}.

Definition NetworkPatch_try_from (raw : RawNetworkPatch) : result (list Z) NetworkPatch :=
  let? iface_id := IfaceId_new (rnp_iface_id raw) in
  Ok (mkNetworkPatch iface_id (rnp_rx_rate_limiter raw) (rnp_tx_rate_limiter raw)).

Record RawPmemConfig := mkRawPmem {
  rp_pmem_id : list Z;
  rp_path_on_host : list Z;
  rp_is_read_only : bool;
  rp_is_root_device : bool;
  rp_partuuid : option (list Z);
  rp_rate_limiter : option JsonValue
}.

Record PmemConfig := mkPmem {
  p_pmem_id : DriveId;
  p_path_on_host : SafePath;
  p_is_read_only : bool;
  p_is_root_device : bool;
  p_partuuid : option (list Z);
  p_rate_limiter : option JsonValue
}.

Definition PmemConfig_try_from (raw : RawPmemConfig) : result (list Z) PmemConfig :=
  let? pmem_id := DriveId_new (rp_pmem_id raw) in
  let? path_on_host := invalid "path_on_host" (SafePath_new (rp_path_on_host raw)) in
  let? _ := opt_check pmem_validate_partuuid (rp_partuuid raw) in
  Ok (mkPmem pmem_id path_on_host (rp_is_read_only raw) (rp_is_root_device raw) (rp_partuuid raw)
        (rp_rate_limiter raw)).

Record RawPmemPatch := mkRawPmemPatch { rpp_pmem_id : list Z; rpp_rate_limiter : option JsonValue }.

Record PmemPatch := mkPmemPatch { pp_pmem_id : DriveId; pp_rate_limiter : option JsonValue }.

Definition PmemPatch_try_from (raw : RawPmemPatch) : result (list Z) PmemPatch :=
  let? pmem_id := DriveId_new (rpp_pmem_id raw) in
  Ok (mkPmemPatch pmem_id (rpp_rate_limiter raw)).

Record RawEntropyConfig := mkRawEntropy { re_rate_limiter : option JsonValue }.

Record EntropyConfig := mkEntropy { e_rate_limiter : option JsonValue }.

Definition EntropyConfig_try_from (raw : RawEntropyConfig) : result (list Z) EntropyConfig :=
  Ok (mkEntropy (re_rate_limiter raw)).

Record RawCpuConfig := mkRawCpu {
  rc_reg_modifiers : option (list JsonValue);
  rc_vcpu_features : option (list JsonValue);
  rc_cpuid_modifiers : option (list JsonValue);
  rc_msr_modifiers : option (list JsonValue);
  rc_kvm_capabilities : option (list JsonValue)
}.

Record CpuConfig := mkCpu {
  c_reg_modifiers : list JsonValue;
  c_vcpu_features : list JsonValue;
  c_cpuid_modifiers : list JsonValue;
  c_msr_modifiers : list JsonValue;
  c_kvm_capabilities : list JsonValue
}.

Definition CpuConfig_try_from (raw : RawCpuConfig) : result (list Z) CpuConfig :=
  let reg_modifiers := default [] (rc_reg_modifiers raw) in
  let vcpu_features := default [] (rc_vcpu_features raw) in
  let cpuid_modifiers := default [] (rc_cpuid_modifiers raw) in
  let msr_modifiers := default [] (rc_msr_modifiers raw) in
  let kvm_capabilities := default [] (rc_kvm_capabilities raw) in
  let? _ := cap_check "reg_modifiers" reg_modifiers in
  let? _ := cap_check "vcpu_features" vcpu_features in
  let? _ := cap_check "cpuid_modifiers" cpuid_modifiers in
  let? _ := cap_check "msr_modifiers" msr_modifiers in
  let? _ := cap_check "kvm_capabilities" kvm_capabilities in
  Ok (mkCpu reg_modifiers vcpu_features cpuid_modifiers msr_modifiers kvm_capabilities).

(** [MmdsContents]: any tree. *)
Record MmdsContents := mkMmdsContents { mmds_tree : JsonValue }.

(** ** Snapshots *)

Inductive SnapshotType := SnapFull | SnapDiff.
Inductive MemBackendType := BackendFile | BackendUffd.

Record RawSnapshotCreateConfig := mkRawSnapCreate {
  rsc_snapshot_path : list Z;
  rsc_mem_file_path : list Z;
  rsc_snapshot_type : SnapshotType;
  rsc_version : option (list Z)
}.

Record SnapshotCreateConfig := mkSnapCreate {
  scc_snapshot_path : SafePath;
  scc_mem_file_path : SafePath;
  scc_snapshot_type : SnapshotType;
  scc_version : option (list Z)
}.

Definition version_check (v : list Z) : result (list Z) unit :=
  if is_empty v || (32 <? zlen v) then Err (lit "Invalid version: must be 1..=32 bytes") else Ok tt.

Definition SnapshotCreateConfig_try_from (raw : RawSnapshotCreateConfig) : result (list Z) SnapshotCreateConfig :=
  let? snapshot_path := invalid "snapshot_path" (SafePath_new (rsc_snapshot_path raw)) in
  let? mem_file_path := invalid "mem_file_path" (SafePath_new (rsc_mem_file_path raw)) in
  let? _ := opt_check version_check (rsc_version raw) in
  Ok (mkSnapCreate snapshot_path mem_file_path (rsc_snapshot_type raw) (rsc_version raw)).

Record RawMemBackend := mkRawMemBackend { rmb_backend_type : MemBackendType; rmb_backend_path : list Z }.

Record MemBackend := mkMemBackend {
  mb_backend_type : MemBackendType;
  mb_backend_path_file : option SafePath;
  mb_backend_path_uds : option UdsPath
}.

Definition MemBackend_try_from (raw : RawMemBackend) : result (list Z) MemBackend :=
  match rmb_backend_type raw with
  | BackendFile =>
      let? p := invalid "mem_backend.backend_path" (SafePath_new (rmb_backend_path raw)) in
      Ok (mkMemBackend (rmb_backend_type raw) (Some p) None)
  | BackendUffd =>
      let? p := invalid "mem_backend.backend_path" (UdsPath_new (rmb_backend_path raw)) in
      Ok (mkMemBackend (rmb_backend_type raw) None (Some p))
  end.

(** [clock_realtime] is a [u64]. *)
Record RawSnapshotLoadConfig := mkRawSnapLoad {
  rsl_snapshot_path : list Z;
  rsl_mem_backend : option RawMemBackend;
  rsl_mem_file_path : option (list Z);
  rsl_track_dirty_pages : bool;
  rsl_resume_vm : bool;
  rsl_clock_realtime : option Z;
  rsl_network_overrides : option (list JsonValue);
  rsl_vsock_override : option JsonValue
}.

Record SnapshotLoadConfig := mkSnapLoad {
  slc_snapshot_path : SafePath;
  slc_mem_backend : MemBackend;
  slc_track_dirty_pages : bool;
  slc_resume_vm : bool;
  slc_clock_realtime : option Z;
  slc_network_overrides : list JsonValue;
  slc_vsock_override : option JsonValue
}.

Definition SnapshotLoadConfig_try_from (raw : RawSnapshotLoadConfig) : result (list Z) SnapshotLoadConfig :=
  let? snapshot_path := invalid "snapshot_path" (SafePath_new (rsl_snapshot_path raw)) in
  let? mem_backend :=
    match rsl_mem_backend raw, rsl_mem_file_path raw with
    | Some mb, None => MemBackend_try_from mb
    | None, Some p =>
        let? p := invalid "mem_file_path" (SafePath_new p) in
        Ok (mkMemBackend BackendFile (Some p) None)
    | Some _, Some _ => Err (lit "Invalid snapshot/load: provide exactly one of mem_backend or mem_file_path")
    | None, None => Err (lit "Invalid snapshot/load: must provide mem_backend or mem_file_path")
    end in
  Ok (mkSnapLoad snapshot_path mem_backend (rsl_track_dirty_pages raw) (rsl_resume_vm raw)
        (rsl_clock_realtime raw) (default [] (rsl_network_overrides raw)) (rsl_vsock_override raw)).
End json.

(** ** The remaining bodies *)

(** [guest_cid] is a [u32]. *)
Definition MIN_GUEST_CID : Z := 3.

Record RawVsockConfig := mkRawVsock {
  rv_vsock_id : option (list Z);
  rv_guest_cid : Z;
  rv_uds_path : list Z;
  rv_tsi : bool
}.

Record VsockConfig := mkVsock {
  v_vsock_id : option VsockId;
  v_guest_cid : Z;
  v_uds_path : UdsPath;
  v_tsi : bool
}.

Definition VsockConfig_try_from (raw : RawVsockConfig) : result (list Z) VsockConfig :=
  if rv_guest_cid raw <? MIN_GUEST_CID
  then Err (lit "Invalid guest_cid: must be >= " ++ decimal MIN_GUEST_CID ++ lit ", got " ++ decimal (rv_guest_cid raw))
  else
    let? vsock_id := opt_try VsockId_new (rv_vsock_id raw) in
    let? uds_path := invalid "uds_path" (UdsPath_new (rv_uds_path raw)) in
    Ok (mkVsock vsock_id (rv_guest_cid raw) uds_path (rv_tsi raw)).

Definition MAX_TOKEN_TTL_SECONDS : Z := 21600.

Inductive MmdsVersion := MmdsV1 | MmdsV2.

(** An address is its four octets. *)
Record Ipv4Addr := mkIpv4Addr { ip_a : Z; ip_b : Z; ip_c : Z; ip_d : Z }.

Definition ipv4_display (a : Ipv4Addr) : list Z :=
  join_with 46 (map decimal [ip_a a; ip_b a; ip_c a; ip_d a]).

Definition is_link_local (a : Ipv4Addr) : bool := (ip_a a =? 169) && (ip_b a =? 254).

Record RawMmdsConfig := mkRawMmds {
  rm_version : MmdsVersion;
  rm_network_interfaces : list (list Z);
  rm_ipv4_address : option Ipv4Addr;
  rm_imds_compat : bool;
  rm_token_ttl_seconds : option Z
}.

Record MmdsConfig := mkMmdsConfig {
  m_version : MmdsVersion;
  m_network_interfaces : list IfaceId;
  m_ipv4_address : Ipv4Addr;
  m_imds_compat : bool;
  m_token_ttl_seconds : Z
}.

(** The loop that validates the interface ids. *)
Fixpoint iface_ids (ids : list (list Z)) : result (list Z) (list IfaceId) :=
  match ids with
  | [] => Ok []
  | id :: ids' => let? i := IfaceId_new id in let? rest := iface_ids ids' in Ok (i :: rest)
  end.

Definition MmdsConfig_try_from (raw : RawMmdsConfig) : result (list Z) MmdsConfig :=
  if zlen (rm_network_interfaces raw) =? 0
  then Err (lit "Invalid mmds-config: network_interfaces must not be empty")
  else if MAX_NICS <? zlen (rm_network_interfaces raw)
  then Err (lit "Invalid mmds-config: network_interfaces exceeds " ++ decimal MAX_NICS ++ lit " entries")
  else
    let? ifaces := iface_ids (rm_network_interfaces raw) in
    let ipv4_address := default (mkIpv4Addr 169 254 169 254) (rm_ipv4_address raw) in
    if negb (is_link_local ipv4_address)
    then Err (lit "Invalid ipv4_address: " ++ ipv4_display ipv4_address ++ lit " is not in 169.254.0.0/16")
    else
      let token_ttl_seconds := default MAX_TOKEN_TTL_SECONDS (rm_token_ttl_seconds raw) in
      if (token_ttl_seconds =? 0) || (MAX_TOKEN_TTL_SECONDS <? token_ttl_seconds)
      then Err (lit "Invalid token_ttl_seconds: must be 1..=" ++ decimal MAX_TOKEN_TTL_SECONDS)
      else Ok (mkMmdsConfig (rm_version raw) ifaces ipv4_address (rm_imds_compat raw) token_ttl_seconds).

(** Balloon: [u64] MiB and [u8] seconds. *)
Inductive BalloonHintingOp := HintStart | HintStatus | HintStop.

Definition from_url_segment (s : list Z) : result (list Z) BalloonHintingOp :=
  if decide (s = lit "start") then Ok HintStart
  else if decide (s = lit "status") then Ok HintStatus
  else if decide (s = lit "stop") then Ok HintStop
  else Err (lit "Invalid balloon-hinting op: must be one of start | status | stop (got " ++ s ++ lit ")").

Record RawBalloonConfig := mkRawBalloon {
  rb_amount_mib : Z;
  rb_deflate_on_oom : bool;
  rb_stats_polling_interval_s : Z;
  rb_free_page_hinting : bool;
  rb_free_page_reporting : bool
}.

Record BalloonConfig := mkBalloon {
  bc_amount_mib : Z;
  bc_deflate_on_oom : bool;
  bc_stats_polling_interval_s : Z;
  bc_free_page_hinting : bool;
  bc_free_page_reporting : bool
}.

Definition BalloonConfig_try_from (raw : RawBalloonConfig) : result (list Z) BalloonConfig :=
  Ok (mkBalloon (rb_amount_mib raw) (rb_deflate_on_oom raw) (rb_stats_polling_interval_s raw)
        (rb_free_page_hinting raw) (rb_free_page_reporting raw)).

Record RawBalloonUpdate := mkRawBalloonUpdate { rbu_amount_mib : Z }.

Record BalloonUpdate := mkBalloonUpdate { bu_amount_mib : Z }.

Definition BalloonUpdate_try_from (raw : RawBalloonUpdate) : result (list Z) BalloonUpdate :=
  Ok (mkBalloonUpdate (rbu_amount_mib raw)).

Record RawBalloonStatsUpdate := mkRawBalloonStats { rbst_stats_polling_interval_s : Z }.

Record BalloonStatsUpdate := mkBalloonStats { bst_stats_polling_interval_s : Z }.

Definition BalloonStatsUpdate_try_from (raw : RawBalloonStatsUpdate) : result (list Z) BalloonStatsUpdate :=
  Ok (mkBalloonStats (rbst_stats_polling_interval_s raw)).

(** Hotplug memory: [u64] MiB. *)
Definition MAX_TOTAL_SIZE_MIB : Z := 1048576.

Record RawHotplugMemoryConfig := mkRawHotplug {
  rh_total_size_mib : Z;
  rh_block_size_mib : Z;
  rh_slot_size_mib : Z
}.

Record HotplugMemoryConfig := mkHotplug {
  h_total_size_mib : Z;
  h_block_size_mib : Z;
  h_slot_size_mib : Z
}.

Definition HotplugMemoryConfig_try_from (raw : RawHotplugMemoryConfig) : result (list Z) HotplugMemoryConfig :=
  if (rh_total_size_mib raw =? 0) || (MAX_TOTAL_SIZE_MIB <? rh_total_size_mib raw)
  then Err (lit "Invalid total_size_mib: must be 1..=" ++ decimal MAX_TOTAL_SIZE_MIB)
  else if rh_block_size_mib raw =? 0 then Err (lit "Invalid block_size_mib: must be >= 1")
  else if rh_slot_size_mib raw =? 0 then Err (lit "Invalid slot_size_mib: must be >= 1")
  else if rh_slot_size_mib raw <? rh_block_size_mib raw
  then Err (lit "Invalid hotplug-memory: slot_size_mib must be >= block_size_mib")
  else if negb (rh_total_size_mib raw mod rh_slot_size_mib raw =? 0)
  then Err (lit "Invalid total_size_mib: must be a multiple of slot_size_mib")
  else Ok (mkHotplug (rh_total_size_mib raw) (rh_block_size_mib raw) (rh_slot_size_mib raw)).

Record RawHotplugMemoryUpdate := mkRawHotplugUpdate { rhu_requested_size_mib : Z }.

Record HotplugMemoryUpdate := mkHotplugUpdate { hu_requested_size_mib : Z }.

Definition HotplugMemoryUpdate_try_from (raw : RawHotplugMemoryUpdate) : result (list Z) HotplugMemoryUpdate :=
  if MAX_TOTAL_SIZE_MIB <? rhu_requested_size_mib raw
  then Err (lit "Invalid requested_size_mib: must be 0..=" ++ decimal MAX_TOTAL_SIZE_MIB)
  else Ok (mkHotplugUpdate (rhu_requested_size_mib raw)).

Inductive LogLevel := LogOff | LogError | LogWarning | LogInfo | LogDebug | LogTrace.

Record RawLoggerConfig := mkRawLogger {
  rl_log_path : list Z;
  rl_level : LogLevel;
  rl_show_level : bool;
  rl_show_log_origin : bool;
  rl_module : option (list Z)
}.

Record LoggerConfig := mkLogger {
  l_log_path : SafePath;
  l_level : LogLevel;
  l_show_level : bool;
  l_show_log_origin : bool;
  l_module : option (list Z)
}.

Definition module_check (m : list Z) : result (list Z) unit :=
  if is_empty m || (128 <? zlen m) then Err (lit "Invalid module: must be 1..=128 bytes") else Ok tt.

Definition LoggerConfig_try_from (raw : RawLoggerConfig) : result (list Z) LoggerConfig :=
  let? log_path := invalid "log_path" (SafePath_new (rl_log_path raw)) in
  let? _ := opt_check module_check (rl_module raw) in
  Ok (mkLogger log_path (rl_level raw) (rl_show_level raw) (rl_show_log_origin raw) (rl_module raw)).

Record RawMetricsConfig := mkRawMetrics { rme_metrics_path : list Z }.

Record MetricsConfig := mkMetrics { me_metrics_path : SafePath }.

Definition MetricsConfig_try_from (raw : RawMetricsConfig) : result (list Z) MetricsConfig :=
  let? p := invalid "metrics_path" (SafePath_new (rme_metrics_path raw)) in Ok (mkMetrics p).

Record RawSerialConfig := mkRawSerial { rse_log_path : list Z }.

Record SerialConfig := mkSerial { se_log_path : SafePath }.

Definition SerialConfig_try_from (raw : RawSerialConfig) : result (list Z) SerialConfig :=
  let? p := invalid "log_path" (SafePath_new (rse_log_path raw)) in Ok (mkSerial p).

Inductive VmStateChange := ToPaused | ToResumed.

Record RawVmPatch := mkRawVmPatch { rvp_state : VmStateChange }.

Inductive InstanceAction := InstanceStart | FlushMetrics | SendCtrlAltDel.

Record RawInstanceActionInfo := mkRawAction { ra_action_type : InstanceAction }.

Record InstanceActionInfo := mkActionInfo { ai_action_type : InstanceAction }.

Definition InstanceActionInfo_from (raw : RawInstanceActionInfo) : InstanceActionInfo :=
  mkActionInfo (ra_action_type raw).

(** ** What validation guarantees *)

Definition ident_ok (s : list Z) : Prop :=
  s <> [] /\ zlen s <= 64 /\ Forall (fun b => is_ascii_alphanumeric b = true \/ b = 95) s.

Definition text_ok (max : Z) (s : list Z) : Prop := s <> [] /\ zlen s <= max.

Definition path_ok (max : Z) (s : list Z) : Prop := is_Some (from_utf8 s) /\ text_ok max s /\ 0 ∉ s.

Definition uuid_ok (s : list Z) : Prop :=
  text_ok 64 s /\ Forall (fun b => is_ascii_alphanumeric b = true \/ b = 45) s.

Definition mac_ok (m : MacAddr) : Prop := length (mac_bytes m) = 6%nat /\ bytes_ok (mac_bytes m).

(** [P] of the value, if there is one. *)
Definition opt_ok {A} (P : A -> Prop) (o : option A) : Prop := match o with Some x => P x | None => True end.

(** What the validation of one body promises to its clients: what is accepted is
    valid, and every valid configuration is accepted from the body that spells it.
    [typed] is what the width of the integer fields of a body guarantees. *)
Class Schema (Raw Cfg : Type) := {
  conv : Raw -> result (list Z) Cfg;
  typed : Raw -> Prop;
  valid : Cfg -> Prop;
  spell : Cfg -> Raw
}.

Class SchemaLaws (Raw Cfg : Type) `{!Schema Raw Cfg} := {
  conv_valid (raw : Raw) (c : Cfg) : typed raw -> conv raw = Ok c -> valid c;
  conv_spell (c : Cfg) : valid c -> typed (spell c) /\ conv (spell c) = Ok c
}.

(** Open a conversion that succeeded. *)
Ltac inv_conv := repeat match goal with
  | H : (match ?c with Ok _ => _ | Err _ => _ end) = Ok _ |- _ => destruct c eqn:?; [|discriminate H]
  | H : (if ?b then Err _ else _) = Ok _ |- _ => destruct b eqn:?; [discriminate H|]
  | H : Ok _ = Ok _ |- _ => injection H as H; subst
  | H : map_err _ _ = Ok _ |- _ => apply map_err_ok in H
  | H : invalid _ _ = Ok _ |- _ => apply map_err_ok in H
  | H : _ || _ = false |- _ => apply orb_false_iff in H as [? ?]
  | H : negb _ = false |- _ => apply negb_false_iff in H
  | H : _ && _ = true |- _ => apply andb_true_iff in H as [? ?]
  | H : (_ <? _) = false |- _ => apply Z.ltb_ge in H
  | H : (_ =? _) = false |- _ => apply Z.eqb_neq in H
  | H : (_ =? _) = true |- _ => apply Z.eqb_eq in H
  end.

Lemma is_empty_false s : is_empty s = false <-> s <> [].
Proof. destruct s; cbn; split; congruence. Qed.

Lemma contains_nul_false s : contains_nul s = false <-> 0 ∉ s.
Proof.
  unfold contains_nul. split.
  - intros H Hin. apply not_true_iff_false in H. apply H, existsb_exists. exists 0. by rewrite <- list_elem_of_In.
  - intros H. apply not_true_iff_false. intros (x & Hx & Ez)%existsb_exists. apply H.
    apply Z.eqb_eq in Ez as <-. by apply list_elem_of_In.
Qed.

Lemma forallb_or_eq (f : Z -> bool) k s :
  forallb (fun b => f b || (b =? k)) s = true <-> Forall (fun b => f b = true \/ b = k) s.
Proof.
  rewrite forallb_forall, Forall_forall. setoid_rewrite list_elem_of_In.
  setoid_rewrite orb_true_iff. by setoid_rewrite Z.eqb_eq.
Qed.

Lemma valid_identifier_iff s : is_valid_identifier s = true <-> ident_ok s.
Proof.
  unfold is_valid_identifier, ident_ok. rewrite !andb_true_iff, negb_true_iff, is_empty_false, Z.leb_le, forallb_or_eq.
  tauto.
Qed.

(** A newtype whose constructor runs the identifier check. *)
Lemma ident_newtype_iff {A} (mk : list Z -> A) (un : A -> list Z) (e : list Z) s d :
  (forall a, mk (un a) = a) -> (forall s, un (mk s) = s) ->
  (if negb (is_valid_identifier s) then Err e else Ok (mk s)) = Ok d <-> s = un d /\ ident_ok s.
Proof.
  intros Hm Hu. rewrite <- valid_identifier_iff. destruct (is_valid_identifier s); cbn.
  - split; [intros [= <-]; by rewrite Hu|intros [-> _]; by rewrite Hm].
  - split; [done|by intros [_ ?]].
Qed.

Lemma DriveId_new_iff s d : DriveId_new s = Ok d <-> s = drive_id_str d /\ ident_ok s.
Proof. apply ident_newtype_iff; [by intros []|done]. Qed.

Lemma IfaceId_new_iff s d : IfaceId_new s = Ok d <-> s = iface_id_str d /\ ident_ok s.
Proof. apply ident_newtype_iff; [by intros []|done]. Qed.

Lemma VsockId_new_iff s d : VsockId_new s = Ok d <-> s = vsock_id_str d /\ ident_ok s.
Proof. apply ident_newtype_iff; [by intros []|done]. Qed.

Lemma InstanceId_new_iff s d : InstanceId_new s = Ok d <-> s = instance_id_str d /\ ident_ok s.
Proof. apply ident_newtype_iff; [by intros []|done]. Qed.

(** Decide the guards of a conversion from the facts in the context. *)
Ltac run_conv := repeat match goal with
  | H : ?x <> [] |- context [is_empty ?x] => rewrite (proj2 (is_empty_false x) H)
  | H : 0 ∉ ?x |- context [contains_nul ?x] => rewrite (proj2 (contains_nul_false x) H)
  | |- context [?a <? ?b] => rewrite (proj2 (Z.ltb_ge a b)) by lia
  | |- context [?a =? ?b] => rewrite (proj2 (Z.eqb_neq a b)) by lia
  end; cbn [negb orb andb].

Lemma SafePath_new_iff s p : SafePath_new s = Ok p <-> s = safe_path p /\ path_ok PATH_MAX s.
Proof.
  unfold SafePath_new, path_ok, text_ok, ensure_no_nul. split.
  - intros H. destruct (from_utf8 s) eqn:E; [|done]. inv_conv. rewrite <- is_empty_false, <- contains_nul_false.
    by split_and!.
  - intros (-> & [u ->] & [Hne Hlen] & Hn). run_conv. by destruct p.
Qed.

Lemma UdsPath_new_iff s p : UdsPath_new s = Ok p <-> s = uds_path_str p /\ path_ok UDS_PATH_MAX s.
Proof.
  unfold UdsPath_new, path_ok, text_ok, ensure_no_nul. split.
  - intros H. destruct (from_utf8 s) eqn:E; [|done]. inv_conv. rewrite <- is_empty_false, <- contains_nul_false.
    by split_and!.
  - intros (-> & [u ->] & [Hne Hlen] & Hn). run_conv. by destruct p.
Qed.

Lemma HostDevName_new_iff s d :
  HostDevName_new s = Ok d <-> s = host_dev_name_str d /\ text_ok HOST_DEV_NAME_MAX_BYTES s /\ 0 ∉ s.
Proof.
  unfold HostDevName_new, text_ok. split.
  - intros H. inv_conv. rewrite <- is_empty_false, <- contains_nul_false. by split_and!.
  - intros (-> & [Hne Hlen] & Hn). run_conv. by destruct d.
Qed.

Lemma MemSizeMib_new_iff v m : MemSizeMib_new v = Ok m <-> v = mem_mib m /\ v <> 0.
Proof.
  unfold MemSizeMib_new. split; [intros H; by inv_conv|]. intros [-> Hv]. run_conv. by destruct m.
Qed.

Lemma opt_try_iff {E A B} (f : A -> result E B) (o : option A) r :
  opt_try f o = Ok r <->
  match o, r with Some x, Some y => f x = Ok y | None, None => True | _, _ => False end.
Proof.
  destruct o as [x|]; cbn; [|by destruct r; split].
  destruct (f x) as [y|], r as [z|]; split; congruence || done.
Qed.

Lemma opt_check_iff {E A} (f : A -> result E unit) (o : option A) :
  opt_check f o = Ok tt <-> opt_ok (fun x => f x = Ok tt) o.
Proof. by destruct o. Qed.

Lemma opt_ok_mono {A} (P Q : A -> Prop) (o : option A) : (forall x, P x -> Q x) -> opt_ok P o -> opt_ok Q o.
Proof. destruct o; cbn; auto. Qed.

(** The checks on optional texts. *)
Lemma boot_args_iff s : boot_args_check s = Ok tt <-> zlen s <= BOOT_ARGS_MAX /\ 0 ∉ s.
Proof.
  unfold boot_args_check. split.
  - intros H. inv_conv. by rewrite <- contains_nul_false.
  - intros [Hl Hn]. by run_conv.
Qed.

Lemma cpu_template_iff s : cpu_template_check s = Ok tt <-> text_ok 64 s.
Proof.
  unfold cpu_template_check, text_ok. split; [|intros [Hl Hn]; by run_conv].
  intros H. inv_conv. by rewrite <- is_empty_false.
Qed.

Lemma huge_pages_iff s : huge_pages_check s = Ok tt <-> text_ok 16 s.
Proof.
  unfold huge_pages_check, text_ok. split; [|intros [Hl Hn]; by run_conv].
  intros H. inv_conv. by rewrite <- is_empty_false.
Qed.

Lemma version_iff s : version_check s = Ok tt <-> text_ok 32 s.
Proof.
  unfold version_check, text_ok. split; [|intros [Hl Hn]; by run_conv].
  intros H. inv_conv. by rewrite <- is_empty_false.
Qed.

Lemma module_iff s : module_check s = Ok tt <-> text_ok 128 s.
Proof.
  unfold module_check, text_ok. split; [|intros [Hl Hn]; by run_conv].
  intros H. inv_conv. by rewrite <- is_empty_false.
Qed.

Lemma partuuid_iff s : validate_partuuid s = Ok tt <-> uuid_ok s.
Proof.
  unfold validate_partuuid, uuid_ok, text_ok. rewrite <- forallb_or_eq. split.
  - intros H. inv_conv. by rewrite <- is_empty_false.
  - intros [[Hl Hn] ->]. by run_conv.
Qed.

Lemma pmem_partuuid_iff s : pmem_validate_partuuid s = Ok tt <-> uuid_ok s.
Proof.
  unfold pmem_validate_partuuid, uuid_ok, text_ok. rewrite <- forallb_or_eq. split.
  - intros H. inv_conv. by rewrite <- is_empty_false.
  - intros [[Hl Hn] ->]. by run_conv.
Qed.

Lemma cap_check_iff {A} f (v : list A) : cap_check f v = Ok tt <-> zlen v <= MAX_REG_MODIFIERS.
Proof. unfold cap_check. split; [intros H; by inv_conv|]. intros Hl. by run_conv. Qed.

(** *** MAC addresses *)

Lemma hex_char_val d : 0 <= d < 16 -> hex_digit_val (hex_char d) = Some d /\ hex_char d <> 43 /\ hex_char d <> 58.
Proof.
  intros Hd. unfold hex_digit_val, hex_char. destruct (Z.ltb_spec d 10).
  - rewrite (proj2 (Z.leb_le 48 (48 + d))), (proj2 (Z.leb_le (48 + d) 57)) by lia. cbn. split; [f_equal; lia|lia].
  - rewrite (proj2 (Z.leb_le 48 (87 + d))), (proj2 (Z.leb_gt (87 + d) 57)), (proj2 (Z.leb_le 97 (87 + d))),
      (proj2 (Z.leb_le (87 + d) 102)) by lia. cbn. split; [f_equal; lia|lia].
Qed.

Lemma hex2_parse b : byte_ok b -> u8_from_hex (hex2 b) = Some b.
Proof.
  unfold byte_ok. intros Hb. pose proof (Z.div_mod b 16 ltac:(lia)) as Hdm. pose proof (Z.mod_pos_bound b 16 ltac:(lia)).
  assert (0 <= b / 16 < 16) as Hq by (split; [apply Z.div_pos|apply Z.div_lt_upper_bound]; lia).
  destruct (hex_char_val (b / 16) Hq) as (H1 & Hp & _), (hex_char_val (b mod 16)) as (H2 & _ & _); [lia|].
  unfold u8_from_hex, hex2. rewrite (proj2 (Z.eqb_neq _ _) Hp). cbn [radix16_digits]. rewrite H1, H2. cbn [mbind option_bind].
  unfold checked_mul, checked_add. change (2 ^ 8) with 256.
  rewrite (proj2 (Z.ltb_lt (0 * 16) 256)) by lia. cbn [mbind option_bind].
  rewrite (proj2 (Z.ltb_lt (0 * 16 + b / 16) 256)) by lia. cbn [mbind option_bind].
  rewrite (proj2 (Z.ltb_lt ((0 * 16 + b / 16) * 16) 256)) by lia. cbn [mbind option_bind].
  rewrite (proj2 (Z.ltb_lt ((0 * 16 + b / 16) * 16 + b mod 16) 256)) by lia. cbn. f_equal. lia.
Qed.

(** What one piece of an address must be: two characters that read as an octet. *)
Definition octet_of (part : list Z) (b : Z) : Prop := zlen part = 2 /\ u8_from_hex part = Some b.

Lemma radix16_range acc s v : byte_ok acc -> radix16_digits acc s = Some v -> byte_ok v.
Proof.
  revert acc. induction s as [|c s IH]; intros acc Ha; cbn [radix16_digits]; [by intros [= <-]|].
  intros (d & Hd & H)%bind_Some. apply bind_Some in H as (a & Hm & H). apply bind_Some in H as (a' & Hadd & H).
  apply (IH a'); [|done]. unfold checked_mul, checked_add, byte_ok in *. change (2 ^ 8) with 256 in *.
  destruct (Z.ltb_spec (acc * 16) 256); [|done]. injection Hm as <-.
  destruct (Z.ltb_spec (acc * 16 + d) 256); [|done]. injection Hadd as <-.
  assert (0 <= d); [|lia]. unfold hex_digit_val in Hd.
  repeat match type of Hd with (if ?b then _ else _) = _ => destruct b eqn:?; bool_to_prop; [injection Hd; lia|] end. done.
Qed.

Lemma octet_range part b : octet_of part b -> byte_ok b.
Proof.
  intros [_ H]. unfold u8_from_hex in H. destruct part as [|c [|d s]]; [done| |]; eapply radix16_range; try exact H;
    unfold byte_ok; lia.
Qed.

Lemma insert_step (b : Z) (done rest : list Z) :
  (length done < length rest + length done)%nat ->
  <[length done := b]> (done ++ rest) = (done ++ [b]) ++ drop 1 rest.
Proof.
  intros H. destruct rest as [|r rest]; [cbn in H; lia|].
  rewrite insert_app_r_alt by lia. rewrite Nat.sub_diag. cbn. by rewrite <- app_assoc, drop_0.
Qed.

(** The loop fills the octets one by one. *)
Lemma mac_parts_iff parts : forall i bytes rest count bs n,
  i = zlen bytes -> (length bytes + length rest = 6)%nat ->
  mac_parts i parts (bytes ++ rest) count = Ok (bs, n) <->
  exists octets, Forall2 octet_of parts octets /\ (length octets <= length rest)%nat /\
    bs = bytes ++ octets ++ drop (length octets) rest /\ n = match parts with [] => count | _ => i + zlen octets end.
Proof.
  induction parts as [|part parts IH]; intros i bytes rest count bs n Hi Hlen; cbn [mac_parts].
  - split.
    + intros [= <- <-]. exists []. cbn. rewrite drop_0. split_and!; [constructor|lia|done|done].
    + intros (os & Hf & _ & -> & ->). apply Forall2_nil_inv_l in Hf as ->. cbn. by rewrite drop_0.
  - destruct (Z.leb_spec 6 i) as [H6|H6].
    { split; [done|]. intros (os & Hf & Hle & _). apply Forall2_length in Hf. unfold zlen in *. cbn in *. lia. }
    destruct (Z.eqb_spec (zlen part) 2) as [H2|H2]; cbn [negb].
    2: { split; [done|]. intros (os & Hf & _). apply Forall2_cons_inv_l in Hf as (b & ? & [? _] & _). done. }
    destruct (u8_from_hex part) as [b|] eqn:Hb.
    2: { split; [done|]. intros (os & Hf & _). apply Forall2_cons_inv_l in Hf as (b & ? & [_ ?] & _). congruence. }
    assert (Hnat : Z.to_nat i = length bytes) by (unfold zlen in Hi; lia).
    rewrite Hnat, insert_step by lia.
    assert (Hr : (0 < length rest)%nat) by (unfold zlen in Hi; lia).
    rewrite (IH (i + 1) (bytes ++ [b]) (drop 1 rest)); [|unfold zlen in *; rewrite length_app; cbn; lia
      |rewrite length_app, length_drop; cbn; lia].
    split; intros (os & Hf & Hle & Hbs & Hn).
    + rewrite length_drop in Hle. exists (b :: os). split_and!; [by constructor|cbn; lia| |].
      * rewrite Hbs, <- !app_assoc, drop_drop. done.
      * rewrite Hn. destruct parts; [apply Forall2_nil_inv_l in Hf as ->|]; unfold zlen; cbn; lia.
    + apply Forall2_cons_inv_l in Hf as (b' & os' & [_ Hb'] & Hf & ->). rewrite Hb in Hb'. injection Hb' as <-.
      exists os'. rewrite length_drop. cbn in Hle. split_and!; [done|lia| |].
      * rewrite Hbs, <- !app_assoc, drop_drop. done.
      * rewrite Hn. destruct parts; [apply Forall2_nil_inv_l in Hf as ->|]; unfold zlen; cbn; lia.
Qed.

Lemma split_on_ne sep cur s : split_on sep cur s <> [].
Proof. revert cur. induction s as [|c s IH]; intros cur; cbn; [done|]. destruct (c =? sep); [done|apply IH]. Qed.

Lemma join_split sep cur s : join_with sep (split_on sep cur s) = cur ++ s.
Proof.
  revert cur. induction s as [|c s IH]; intros cur; cbn [split_on]; [cbn; by rewrite app_nil_r|].
  destruct (Z.eqb_spec c sep) as [->|].
  - specialize (IH []). destruct (split_on sep [] s) eqn:E; [by apply split_on_ne in E|]. cbn in *. by rewrite <- IH.
  - by rewrite IH, <- app_assoc.
Qed.

Lemma split_on_app sep cur p s : sep ∉ p -> split_on sep cur (p ++ sep :: s) = (cur ++ p) :: split_on sep [] s.
Proof.
  revert cur. induction p as [|c p IH]; intros cur Hp; cbn.
  - by rewrite Z.eqb_refl, app_nil_r.
  - apply not_elem_of_cons in Hp as [Hc Hp]. rewrite (proj2 (Z.eqb_neq c sep)) by congruence.
    rewrite IH by done. by rewrite <- app_assoc.
Qed.

Lemma split_on_all sep cur p : sep ∉ p -> split_on sep cur p = [cur ++ p].
Proof.
  revert cur. induction p as [|c p IH]; intros cur Hp; cbn; [by rewrite app_nil_r|].
  apply not_elem_of_cons in Hp as [Hc Hp]. rewrite (proj2 (Z.eqb_neq c sep)) by congruence.
  rewrite IH by done. by rewrite <- app_assoc.
Qed.

Lemma split_on_join sep parts : parts <> [] -> Forall (fun p => sep ∉ p) parts -> split_on sep [] (join_with sep parts) = parts.
Proof.
  intros Hne Hf. induction Hf as [|p ps Hp Hf IH]; [done|]. destruct ps as [|q ps]; cbn [join_with].
  - by rewrite split_on_all.
  - rewrite split_on_app by done. cbn [app]. f_equal. by apply IH.
Qed.

(** Exactly six pieces of two characters each are accepted. *)
Lemma MacAddr_parse_iff s m :
  MacAddr_parse s = Ok m <-> length (mac_bytes m) = 6%nat /\ Forall2 octet_of (split_on 58 [] s) (mac_bytes m).
Proof.
  unfold MacAddr_parse. pose proof (split_on_ne 58 [] s) as Hne. destruct m as [ms]. cbn [mac_bytes].
  assert (Hiff := fun bs n => mac_parts_iff (split_on 58 [] s) 0 [] (repeat 0 6) 0 bs n eq_refl eq_refl). cbn [app] in Hiff.
  split.
  - intros H. destruct (mac_parts 0 _ _ _) as [[bs n]|] eqn:Em; [|done]. inv_conv.
    destruct (proj1 (Hiff _ _) eq_refl) as (os & Hf & Hle & -> & Hn).
    destruct (split_on 58 [] s); [done|]. assert (length os = 6%nat) as Hl by (unfold zlen in Hn; lia).
    rewrite Hl. cbn [drop repeat]. rewrite app_nil_r. done.
  - intros [Hl Hf]. rewrite (proj2 (Hiff ms 6)); [done|]. exists ms. rewrite Hl. cbn [drop repeat]. rewrite app_nil_r.
    split_and!; [done|cbn; lia|done|]. destruct (split_on 58 [] s); [done|]. unfold zlen. rewrite Hl. done.
Qed.

Lemma MacAddr_parse_ok s m : MacAddr_parse s = Ok m -> mac_ok m.
Proof.
  intros [Hl Hf]%MacAddr_parse_iff. split; [done|]. apply Forall_forall. intros b Hb.
  apply list_elem_of_lookup in Hb as (i & Hi). eapply Forall2_lookup_r in Hf as (p & _ & Ho); [|exact Hi].
  by apply octet_range in Ho.
Qed.

(** An address reads back from its canonical text. *)
Lemma mac_roundtrip m : mac_ok m -> MacAddr_parse (to_canonical_string m) = Ok m.
Proof.
  intros [Hl Hb]. apply MacAddr_parse_iff. split; [done|]. unfold to_canonical_string. rewrite split_on_join.
  - apply Forall2_fmap_l. apply Forall_Forall2_diag. eapply Forall_impl; [exact Hb|]. intros b Hb'. split; [done|by apply hex2_parse].
  - by destruct (mac_bytes m).
  - apply Forall_fmap. eapply Forall_impl; [exact Hb|]. intros b Hb'. unfold compose, hex2, byte_ok in *.
    destruct (hex_char_val (b / 16)) as (_ & _ & H1); [split; [apply Z.div_pos|apply Z.div_lt_upper_bound]; lia|].
    destruct (hex_char_val (b mod 16)) as (_ & _ & H2); [apply Z.mod_pos_bound; lia|].
    rewrite !not_elem_of_cons. split_and!; [congruence|congruence|apply not_elem_of_nil].
Qed.

(** A sign is taken for a digit: [u8::from_str_radix] accepts a leading plus. *)
Lemma mac_accepts_plus_sign : MacAddr_parse (lit "+1:02:03:04:05:06") = Ok (mkMac [1; 2; 3; 4; 5; 6]).
Proof. reflexivity. Qed.

(** *** The schemas *)

(** Prove the two laws of a schema: what was accepted satisfies the checks, and the
    checks pass on what was spelled. *)
Ltac use_iff := repeat match goal with
  | H : SafePath_new _ = Ok _ |- _ => apply SafePath_new_iff in H as [-> H]
  | H : UdsPath_new _ = Ok _ |- _ => apply UdsPath_new_iff in H as [-> H]
  | H : DriveId_new _ = Ok _ |- _ => apply DriveId_new_iff in H as [-> H]
  | H : IfaceId_new _ = Ok _ |- _ => apply IfaceId_new_iff in H as [-> H]
  | H : HostDevName_new _ = Ok _ |- _ => apply HostDevName_new_iff in H as [-> H]
  | H : MemSizeMib_new _ = Ok _ |- _ => apply MemSizeMib_new_iff in H as [-> H]
  | H : cap_check _ _ = Ok _ |- _ => apply cap_check_iff in H
  | u : unit |- _ => destruct u
  end.

#[export] Instance boot_source_schema : Schema RawBootSourceConfig BootSourceConfig := {|
  conv := BootSourceConfig_try_from;
  typed _ := True;
  valid c := path_ok PATH_MAX (safe_path (bsc_kernel_image_path c)) /\
    opt_ok (fun p => path_ok PATH_MAX (safe_path p)) (bsc_initrd_path c) /\
    opt_ok (fun s => zlen s <= BOOT_ARGS_MAX /\ 0 ∉ s) (bsc_boot_args c);
  spell c := mkRawBootSource (safe_path (bsc_kernel_image_path c)) (safe_path <$> bsc_initrd_path c) (bsc_boot_args c)
|}.

(** The rewriting direction of the characterisations. *)
Lemma SafePath_spell p : path_ok PATH_MAX (safe_path p) -> SafePath_new (safe_path p) = Ok p.
Proof. intros. by apply SafePath_new_iff. Qed.

Lemma UdsPath_spell p : path_ok UDS_PATH_MAX (uds_path_str p) -> UdsPath_new (uds_path_str p) = Ok p.
Proof. intros. by apply UdsPath_new_iff. Qed.

Lemma DriveId_spell d : ident_ok (drive_id_str d) -> DriveId_new (drive_id_str d) = Ok d.
Proof. intros. by apply DriveId_new_iff. Qed.

Lemma IfaceId_spell d : ident_ok (iface_id_str d) -> IfaceId_new (iface_id_str d) = Ok d.
Proof. intros. by apply IfaceId_new_iff. Qed.

Lemma HostDevName_spell d :
  text_ok HOST_DEV_NAME_MAX_BYTES (host_dev_name_str d) /\ 0 ∉ host_dev_name_str d ->
  HostDevName_new (host_dev_name_str d) = Ok d.
Proof. intros. by apply HostDevName_new_iff. Qed.

(** An optional field, spelled and read back. *)
Lemma opt_try_spell {E A B} (f : A -> result E B) (un : B -> A) (P : B -> Prop) (o : option B) :
  (forall b, P b -> f (un b) = Ok b) -> opt_ok P o -> opt_try f (un <$> o) = Ok o.
Proof. intros Hf. destruct o as [b|]; cbn; [|done]. intros Hb. by rewrite Hf. Qed.

Lemma opt_try_valid {E A B} (f : A -> result E B) (P : B -> Prop) (o : option A) r :
  (forall a b, f a = Ok b -> P b) -> opt_try f o = Ok r -> opt_ok P r.
Proof. intros Hf H. apply opt_try_iff in H. destruct o, r; try done. by eapply Hf. Qed.

Lemma opt_check_valid {E A} (f : A -> result E unit) (P : A -> Prop) (o : option A) :
  (forall a, f a = Ok tt <-> P a) -> opt_check f o = Ok tt <-> opt_ok P o.
Proof. intros Hf. destruct o; [apply Hf|done]. Qed.

Lemma invalid_ok {A} f (r : result (list Z) A) a : r = Ok a -> invalid f r = Ok a.
Proof. by intros ->. Qed.

(** The check on an optional field says what [opt_ok] says. *)
Ltac check_iff H := first
  [ apply (opt_check_valid _ _ _ boot_args_iff) in H | apply (opt_check_valid _ _ _ cpu_template_iff) in H
  | apply (opt_check_valid _ _ _ huge_pages_iff) in H | apply (opt_check_valid _ _ _ version_iff) in H
  | apply (opt_check_valid _ _ _ module_iff) in H | apply (opt_check_valid _ _ _ partuuid_iff) in H
  | apply (opt_check_valid _ _ _ pmem_partuuid_iff) in H ].

Ltac solve_valid := match goal with
  | H : opt_try _ _ = Ok ?o |- opt_ok _ ?o =>
      eapply opt_try_valid; [|exact H]; let Hy := fresh in intros ? ? Hy; cbn beta in Hy; inv_conv; use_iff; done
  | H : opt_check _ ?o = Ok _ |- opt_ok _ ?o => check_iff H; exact H
  | _ => first [done | solve_u]
  end.

Ltac spell_step := match goal with
  | H : path_ok PATH_MAX (safe_path ?p) |- context [SafePath_new (safe_path ?p)] => rewrite (SafePath_spell p H)
  | H : path_ok UDS_PATH_MAX (uds_path_str ?p) |- context [UdsPath_new (uds_path_str ?p)] => rewrite (UdsPath_spell p H)
  | H : ident_ok (drive_id_str ?p) |- context [DriveId_new (drive_id_str ?p)] => rewrite (DriveId_spell p H)
  | H : ident_ok (iface_id_str ?p) |- context [IfaceId_new (iface_id_str ?p)] => rewrite (IfaceId_spell p H)
  | H : text_ok _ (host_dev_name_str ?p) /\ _ |- context [HostDevName_new (host_dev_name_str ?p)] =>
      rewrite (HostDevName_spell p H)
  | H : opt_ok (fun p => path_ok PATH_MAX (safe_path p)) ?o |- context [opt_try ?f (safe_path <$> ?o)] =>
      rewrite (opt_try_spell f safe_path _ o (fun p Hp => invalid_ok _ _ _ (SafePath_spell p Hp)) H)
  | H : opt_ok _ ?o |- context [opt_check ?f ?o] =>
      let E := fresh in
      assert (opt_check f o = Ok tt) as E by (apply opt_check_iff; eapply opt_ok_mono; [|exact H]; intros ?;
        first [apply boot_args_iff | apply cpu_template_iff | apply huge_pages_iff | apply version_iff
              | apply module_iff | apply partuuid_iff | apply pmem_partuuid_iff]);
      rewrite E; clear E
  end.

(** The two laws for a schema whose fields are checked one by one. *)
Tactic Notation "schema_laws" reference(inst) reference(f) :=
  split;
  [ intros raw c Ht H; unfold conv, inst, f in H; inv_conv; use_iff; cbn in *; destruct_and?; split_and?; solve_valid
  | intros c Hv; unfold typed, spell, conv, inst, f; destruct c; cbn in *; destruct_and?;
    split; [done|]; repeat (spell_step; cbn [invalid map_err]); run_conv; done ].

#[export] Instance boot_source_laws : SchemaLaws RawBootSourceConfig BootSourceConfig.
Proof. schema_laws boot_source_schema BootSourceConfig_try_from. Qed.

#[export] Instance machine_schema : Schema RawMachineConfig MachineConfig := {|
  conv := MachineConfig_try_from;
  typed raw := in_u 32 (rmc_vcpu_count raw) /\ in_u 64 (rmc_mem_size_mib raw);
  valid c := 1 <= mc_vcpu_count c <= MAX_VCPU_COUNT /\ 1 <= mc_mem_size_mib c < 2 ^ 64 /\ mc_smt c = false /\
    opt_ok (text_ok 64) (mc_cpu_template c) /\ opt_ok (text_ok 16) (mc_huge_pages c);
  spell c := mkRawMachineConfig (mc_vcpu_count c) (mc_mem_size_mib c) (mc_smt c) (mc_track_dirty_pages c)
    (mc_cpu_template c) (mc_huge_pages c)
|}.

#[export] Instance machine_laws : SchemaLaws RawMachineConfig MachineConfig.
Proof.
  split.
  - intros raw c Ht H. change (MachineConfig_try_from raw = Ok c) in H. unfold MachineConfig_try_from in H.
    destruct raw. cbn in *. inv_conv. use_iff. unfold in_u, mc_mem_size_mib in *. cbn in *. split_and!; (lia || solve_valid).
  - intros c Hv. change (typed (spell c) /\ MachineConfig_try_from (spell c) = Ok c). unfold MachineConfig_try_from.
    destruct c as [v [m] s t ct hp]. cbn in *. unfold mc_mem_size_mib, in_u, MAX_VCPU_COUNT in *. cbn in *. destruct_and! Hv. subst s.
    split; [lia|]. unfold MemSizeMib_new. run_conv. repeat (spell_step; cbn [invalid map_err]). done.
Qed.

(** A PATCH does not check the template and the page size. *)
#[export] Instance machine_patch_schema : Schema RawMachineConfigPatch MachineConfigPatch := {|
  conv := MachineConfigPatch_try_from;
  typed raw := opt_ok (in_u 32) (rmp_vcpu_count raw) /\ opt_ok (in_u 64) (rmp_mem_size_mib raw);
  valid p := opt_ok (fun v => 1 <= v <= MAX_VCPU_COUNT) (mp_vcpu_count p) /\
    opt_ok (fun m => 1 <= mem_mib m < 2 ^ 64) (mp_mem_size_mib p) /\ mp_smt p <> Some true;
  spell p := mkRawPatch (mp_vcpu_count p) (mem_mib <$> mp_mem_size_mib p) (mp_smt p) (mp_track_dirty_pages p)
    (mp_cpu_template p) (mp_huge_pages p)
|}.

#[export] Instance machine_patch_laws : SchemaLaws RawMachineConfigPatch MachineConfigPatch.
Proof.
  split.
  - intros [v m s t ct hp] c [Hv Hm] H. change (MachineConfigPatch_try_from (mkRawPatch v m s t ct hp) = Ok c) in H.
    unfold MachineConfigPatch_try_from in H. inv_conv. cbn in *. unfold in_u in *. split_and!.
    + destruct v; cbn in *; [|done]. inv_conv. lia.
    + destruct m; cbn in *; inv_conv; use_iff; cbn; [lia|done].
    + destruct s as [[]|]; cbn in *; congruence.
  - intros [v m s t ct hp] (Hv & Hm & Hs).
    change (typed (spell (mkPatch v m s t ct hp)) /\
            MachineConfigPatch_try_from (spell (mkPatch v m s t ct hp)) = Ok (mkPatch v m s t ct hp)).
    cbn in *. unfold MAX_VCPU_COUNT in *. split; [split|].
    + destruct v; cbn in *; [unfold in_u; lia|done].
    + destruct m; cbn in *; [unfold in_u; lia|done].
    + unfold MachineConfigPatch_try_from. cbn [rmp_vcpu_count rmp_smt rmp_mem_size_mib].
      assert (opt_check (fun v => if (v =? 0) || (MAX_VCPU_COUNT <? v) then Err (vcpu_fault v) else Ok tt) v = Ok tt) as ->.
      { destruct v; cbn in *; [|done]. unfold MAX_VCPU_COUNT. by run_conv. }
      assert (opt_check (fun s : bool => if s then Err SMT_FAULT else Ok tt) s = Ok tt) as -> by (by destruct s as [[]|]).
      rewrite (opt_try_spell MemSizeMib_new mem_mib (fun m => 1 <= mem_mib m < 2 ^ 64)); [done| |done].
      intros [b] Hb. cbn in *. unfold MemSizeMib_new. by run_conv.
Qed.

Section json_schemas.
Context `{J : SerdeJson}.

#[export] Instance drive_schema : Schema RawDriveConfig DriveConfig := {|
  conv := DriveConfig_try_from;
  typed _ := True;
  valid c := ident_ok (drive_id_str (d_drive_id c)) /\ path_ok PATH_MAX (safe_path (d_path_on_host c)) /\
    opt_ok uuid_ok (d_partuuid c) /\ opt_ok (text_ok 1024) (d_vhost_user_socket c);
  spell c := mkRawDrive (drive_id_str (d_drive_id c)) (safe_path (d_path_on_host c)) (d_is_root_device c)
    (d_is_read_only c) (d_cache_type c) (d_io_engine c) (d_partuuid c) (d_rate_limiter c) (d_vhost_user_socket c)
|}.

#[export] Instance drive_laws : SchemaLaws RawDriveConfig DriveConfig.
Proof.
  split.
  - intros raw c Ht H. change (DriveConfig_try_from raw = Ok c) in H. unfold DriveConfig_try_from in H.
    destruct (rd_socket raw) as [s|]; inv_conv; use_iff; cbn; split_and!; try solve_valid.
    unfold text_ok. rewrite <- is_empty_false. done.
  - intros c Hv. change (typed (spell c) /\ DriveConfig_try_from (spell c) = Ok c). unfold DriveConfig_try_from.
    destruct c as [i p ro rd ct io pu rl [s|]]; cbn in *; destruct Hv as (Hi & Hp & Hu & Hs); (split; [done|]);
      repeat (spell_step; cbn [invalid map_err]); [destruct Hs|]; run_conv; done.
Qed.

#[export] Instance drive_patch_schema : Schema RawDrivePatch DrivePatch := {|
  conv := DrivePatch_try_from;
  typed _ := True;
  valid c := ident_ok (drive_id_str (dp_drive_id c)) /\
    opt_ok (fun p => path_ok PATH_MAX (safe_path p)) (dp_path_on_host c);
  spell c := mkRawDrivePatch (drive_id_str (dp_drive_id c)) (safe_path <$> dp_path_on_host c) (dp_rate_limiter c)
|}.

#[export] Instance drive_patch_laws : SchemaLaws RawDrivePatch DrivePatch.
Proof. schema_laws drive_patch_schema DrivePatch_try_from. Qed.

#[export] Instance network_schema : Schema RawNetworkInterfaceConfig NetworkInterfaceConfig := {|
  conv := NetworkInterfaceConfig_try_from;
  typed _ := True;
  valid c := ident_ok (iface_id_str (n_iface_id c)) /\
    (text_ok HOST_DEV_NAME_MAX_BYTES (host_dev_name_str (n_host_dev_name c)) /\ 0 ∉ host_dev_name_str (n_host_dev_name c)) /\
    opt_ok mac_ok (n_guest_mac c);
  spell c := mkRawNetwork (iface_id_str (n_iface_id c)) (host_dev_name_str (n_host_dev_name c))
    (to_canonical_string <$> n_guest_mac c) (n_rx_rate_limiter c) (n_tx_rate_limiter c)
|}.

#[export] Instance network_laws : SchemaLaws RawNetworkInterfaceConfig NetworkInterfaceConfig.
Proof.
  split.
  - intros raw c Ht H. change (NetworkInterfaceConfig_try_from raw = Ok c) in H.
    unfold NetworkInterfaceConfig_try_from in H. inv_conv. use_iff. cbn. split_and!; try (done || apply Heqr0).
    eapply opt_try_valid; [exact MacAddr_parse_ok|done].
  - intros c Hv. change (typed (spell c) /\ NetworkInterfaceConfig_try_from (spell c) = Ok c).
    unfold NetworkInterfaceConfig_try_from. destruct c. cbn in *. destruct Hv as (Hi & Hh & Hm). split; [done|].
    repeat (spell_step; cbn [map_err]). by rewrite (opt_try_spell _ _ _ _ mac_roundtrip Hm).
Qed.

#[export] Instance network_patch_schema : Schema RawNetworkPatch NetworkPatch := {|
  conv := NetworkPatch_try_from;
  typed _ := True;
  valid c := ident_ok (iface_id_str (np_iface_id c));
  spell c := mkRawNetworkPatch (iface_id_str (np_iface_id c)) (np_rx_rate_limiter c) (np_tx_rate_limiter c)
|}.

#[export] Instance network_patch_laws : SchemaLaws RawNetworkPatch NetworkPatch.
Proof. schema_laws network_patch_schema NetworkPatch_try_from. Qed.

#[export] Instance pmem_schema : Schema RawPmemConfig PmemConfig := {|
  conv := PmemConfig_try_from;
  typed _ := True;
  valid c := ident_ok (drive_id_str (p_pmem_id c)) /\ path_ok PATH_MAX (safe_path (p_path_on_host c)) /\
    opt_ok uuid_ok (p_partuuid c);
  spell c := mkRawPmem (drive_id_str (p_pmem_id c)) (safe_path (p_path_on_host c)) (p_is_read_only c)
    (p_is_root_device c) (p_partuuid c) (p_rate_limiter c)
|}.

#[export] Instance pmem_laws : SchemaLaws RawPmemConfig PmemConfig.
Proof. schema_laws pmem_schema PmemConfig_try_from. Qed.

#[export] Instance pmem_patch_schema : Schema RawPmemPatch PmemPatch := {|
  conv := PmemPatch_try_from;
  typed _ := True;
  valid c := ident_ok (drive_id_str (pp_pmem_id c));
  spell c := mkRawPmemPatch (drive_id_str (pp_pmem_id c)) (pp_rate_limiter c)
|}.

#[export] Instance pmem_patch_laws : SchemaLaws RawPmemPatch PmemPatch.
Proof. schema_laws pmem_patch_schema PmemPatch_try_from. Qed.

#[export] Instance entropy_schema : Schema RawEntropyConfig EntropyConfig := {|
  conv := EntropyConfig_try_from;
  typed _ := True;
  valid _ := True;
  spell c := mkRawEntropy (e_rate_limiter c)
|}.

#[export] Instance entropy_laws : SchemaLaws RawEntropyConfig EntropyConfig.
Proof. schema_laws entropy_schema EntropyConfig_try_from. Qed.

#[export] Instance cpu_schema : Schema RawCpuConfig CpuConfig := {|
  conv := CpuConfig_try_from;
  typed _ := True;
  valid c := zlen (c_reg_modifiers c) <= MAX_REG_MODIFIERS /\ zlen (c_vcpu_features c) <= MAX_REG_MODIFIERS /\
    zlen (c_cpuid_modifiers c) <= MAX_REG_MODIFIERS /\ zlen (c_msr_modifiers c) <= MAX_REG_MODIFIERS /\
    zlen (c_kvm_capabilities c) <= MAX_REG_MODIFIERS;
  spell c := mkRawCpu (Some (c_reg_modifiers c)) (Some (c_vcpu_features c)) (Some (c_cpuid_modifiers c))
    (Some (c_msr_modifiers c)) (Some (c_kvm_capabilities c))
|}.

#[export] Instance cpu_laws : SchemaLaws RawCpuConfig CpuConfig.
Proof.
  split.
  - intros raw c Ht H. change (CpuConfig_try_from raw = Ok c) in H. unfold CpuConfig_try_from in H.
    inv_conv. by use_iff.
  - intros [a b c d e] (Ha & Hb & Hc & Hd & He). split; [done|].
    change (CpuConfig_try_from (spell (mkCpu a b c d e)) = Ok (mkCpu a b c d e)). unfold CpuConfig_try_from. cbn in *.
    by rewrite !(fun f => proj2 (cap_check_iff f _)) by done.
Qed.

#[export] Instance snapshot_create_schema : Schema RawSnapshotCreateConfig SnapshotCreateConfig := {|
  conv := SnapshotCreateConfig_try_from;
  typed _ := True;
  valid c := path_ok PATH_MAX (safe_path (scc_snapshot_path c)) /\ path_ok PATH_MAX (safe_path (scc_mem_file_path c)) /\
    opt_ok (text_ok 32) (scc_version c);
  spell c := mkRawSnapCreate (safe_path (scc_snapshot_path c)) (safe_path (scc_mem_file_path c))
    (scc_snapshot_type c) (scc_version c)
|}.

#[export] Instance snapshot_create_laws : SchemaLaws RawSnapshotCreateConfig SnapshotCreateConfig.
Proof. schema_laws snapshot_create_schema SnapshotCreateConfig_try_from. Qed.

(** The path lies in the field its type selects. *)
Definition backend_ok (b : MemBackend) : Prop :=
  match b with
  | mkMemBackend BackendFile (Some p) None => path_ok PATH_MAX (safe_path p)
  | mkMemBackend BackendUffd None (Some p) => path_ok UDS_PATH_MAX (uds_path_str p)
  | _ => False
  end.

Definition backend_spell (b : MemBackend) : RawMemBackend :=
  mkRawMemBackend (mb_backend_type b)
    match mb_backend_path_file b, mb_backend_path_uds b with
    | Some p, _ => safe_path p
    | _, Some p => uds_path_str p
    | None, None => []
    end.

Lemma backend_valid raw b : MemBackend_try_from raw = Ok b -> backend_ok b.
Proof.
  unfold MemBackend_try_from. destruct raw as [[] p]; cbn; intros H; inv_conv; by use_iff.
Qed.

Lemma backend_spelled b : backend_ok b -> MemBackend_try_from (backend_spell b) = Ok b.
Proof.
  destruct b as [[] [f|] [u|]]; cbn; try done; intros H; unfold MemBackend_try_from, backend_spell; cbn;
    by spell_step.
Qed.

#[export] Instance snapshot_load_schema : Schema RawSnapshotLoadConfig SnapshotLoadConfig := {|
  conv := SnapshotLoadConfig_try_from;
  typed raw := opt_ok (in_u 64) (rsl_clock_realtime raw);
  valid c := path_ok PATH_MAX (safe_path (slc_snapshot_path c)) /\ backend_ok (slc_mem_backend c) /\
    opt_ok (in_u 64) (slc_clock_realtime c);
  spell c := mkRawSnapLoad (safe_path (slc_snapshot_path c)) (Some (backend_spell (slc_mem_backend c))) None
    (slc_track_dirty_pages c) (slc_resume_vm c) (slc_clock_realtime c) (Some (slc_network_overrides c))
    (slc_vsock_override c)
|}.

#[export] Instance snapshot_load_laws : SchemaLaws RawSnapshotLoadConfig SnapshotLoadConfig.
Proof.
  split.
  - intros raw c Ht H. unfold conv, snapshot_load_schema, SnapshotLoadConfig_try_from in H.
    destruct (rsl_mem_backend raw) as [mb|], (rsl_mem_file_path raw) as [p|]; inv_conv; use_iff; cbn; split_and!; try done.
    by eapply backend_valid.
  - intros c (Hp & Hb & Hc). unfold typed, spell, conv, snapshot_load_schema, SnapshotLoadConfig_try_from.
    split; [done|]. cbn [rsl_snapshot_path rsl_mem_backend rsl_mem_file_path].
    rewrite SafePath_spell by done. cbn [invalid map_err]. rewrite backend_spelled by done. by destruct c.
Qed.
End json_schemas.

#[export] Instance vsock_schema : Schema RawVsockConfig VsockConfig := {|
  conv := VsockConfig_try_from;
  typed raw := in_u 32 (rv_guest_cid raw);
  valid c := opt_ok (fun i => ident_ok (vsock_id_str i)) (v_vsock_id c) /\ MIN_GUEST_CID <= v_guest_cid c < 2 ^ 32 /\
    path_ok UDS_PATH_MAX (uds_path_str (v_uds_path c));
  spell c := mkRawVsock (vsock_id_str <$> v_vsock_id c) (v_guest_cid c) (uds_path_str (v_uds_path c)) (v_tsi c)
|}.

#[export] Instance vsock_laws : SchemaLaws RawVsockConfig VsockConfig.
Proof.
  split.
  - intros raw c Ht H. unfold conv, vsock_schema, VsockConfig_try_from in H. inv_conv. use_iff. cbn in *. unfold in_u in *.
    split_and!; try (done || lia). eapply opt_try_valid; [|done]. by intros x y [-> ?]%VsockId_new_iff.
  - intros [i c p t] (Hi & Hc & Hp). unfold typed, spell, conv, vsock_schema, VsockConfig_try_from. cbn in *.
    unfold MIN_GUEST_CID, in_u in *. split; [lia|]. run_conv.
    rewrite (opt_try_spell VsockId_new vsock_id_str _ _ (fun d Hd => proj2 (VsockId_new_iff _ d) (conj eq_refl Hd)) Hi).
    by spell_step.
Qed.

Lemma iface_ids_iff ids ifs :
  iface_ids ids = Ok ifs <-> ids = map iface_id_str ifs /\ Forall (fun i => ident_ok (iface_id_str i)) ifs.
Proof.
  revert ifs. induction ids as [|id ids IH]; intros ifs; cbn.
  - split; [intros [= <-]; by split|]. by destruct ifs as [|? ?]; intros [? _].
  - split.
    + intros H. inv_conv. use_iff. destruct (proj1 (IH _) eq_refl) as [-> Hf]. split; [done|by constructor].
    + intros [Hm Hf]. destruct Hf as [|i ifs Hi Hf]; [done|]. injection Hm as -> ->.
      rewrite IfaceId_spell by done. by rewrite (proj2 (IH ifs) (conj eq_refl Hf)).
Qed.

#[export] Instance mmds_config_schema : Schema RawMmdsConfig MmdsConfig := {|
  conv := MmdsConfig_try_from;
  typed raw := opt_ok (in_u 64) (rm_token_ttl_seconds raw);
  valid c := 1 <= zlen (m_network_interfaces c) <= MAX_NICS /\
    Forall (fun i => ident_ok (iface_id_str i)) (m_network_interfaces c) /\
    is_link_local (m_ipv4_address c) = true /\ 1 <= m_token_ttl_seconds c <= MAX_TOKEN_TTL_SECONDS;
  spell c := mkRawMmds (m_version c) (map iface_id_str (m_network_interfaces c)) (Some (m_ipv4_address c))
    (m_imds_compat c) (Some (m_token_ttl_seconds c))
|}.

#[export] Instance mmds_config_laws : SchemaLaws RawMmdsConfig MmdsConfig.
Proof.
  split.
  - intros raw c Ht H. unfold conv, mmds_config_schema, MmdsConfig_try_from in H. inv_conv.
    match goal with H : iface_ids _ = Ok _ |- _ => apply iface_ids_iff in H as [Hids Hf] end.
    rewrite Hids in *. cbn. unfold zlen in *. rewrite length_map in *.
    split_and!; try (done || lia). unfold typed, mmds_config_schema, in_u, MAX_TOKEN_TTL_SECONDS in *.
    destruct (rm_token_ttl_seconds raw); cbn in *; lia.
  - intros [v ifs ip ic ttl] (Hl & Hf & Hip & Ht). unfold typed, spell, conv, mmds_config_schema, MmdsConfig_try_from.
    cbn in *. unfold MAX_TOKEN_TTL_SECONDS, in_u in *. split; [lia|]. unfold zlen in *. rewrite length_map. run_conv.
    rewrite (proj2 (iface_ids_iff _ ifs) (conj eq_refl Hf)), Hip. run_conv. done.
Qed.

#[export] Instance balloon_schema : Schema RawBalloonConfig BalloonConfig := {|
  conv := BalloonConfig_try_from;
  typed raw := in_u 64 (rb_amount_mib raw) /\ in_u 8 (rb_stats_polling_interval_s raw);
  valid c := in_u 64 (bc_amount_mib c) /\ in_u 8 (bc_stats_polling_interval_s c);
  spell c := mkRawBalloon (bc_amount_mib c) (bc_deflate_on_oom c) (bc_stats_polling_interval_s c)
    (bc_free_page_hinting c) (bc_free_page_reporting c)
|}.

#[export] Instance balloon_laws : SchemaLaws RawBalloonConfig BalloonConfig.
Proof. schema_laws balloon_schema BalloonConfig_try_from. Qed.

#[export] Instance balloon_update_schema : Schema RawBalloonUpdate BalloonUpdate := {|
  conv := BalloonUpdate_try_from;
  typed raw := in_u 64 (rbu_amount_mib raw);
  valid c := in_u 64 (bu_amount_mib c);
  spell c := mkRawBalloonUpdate (bu_amount_mib c)
|}.

#[export] Instance balloon_update_laws : SchemaLaws RawBalloonUpdate BalloonUpdate.
Proof. schema_laws balloon_update_schema BalloonUpdate_try_from. Qed.

#[export] Instance balloon_stats_schema : Schema RawBalloonStatsUpdate BalloonStatsUpdate := {|
  conv := BalloonStatsUpdate_try_from;
  typed raw := in_u 8 (rbst_stats_polling_interval_s raw);
  valid c := in_u 8 (bst_stats_polling_interval_s c);
  spell c := mkRawBalloonStats (bst_stats_polling_interval_s c)
|}.

#[export] Instance balloon_stats_laws : SchemaLaws RawBalloonStatsUpdate BalloonStatsUpdate.
Proof. schema_laws balloon_stats_schema BalloonStatsUpdate_try_from. Qed.

#[export] Instance hotplug_schema : Schema RawHotplugMemoryConfig HotplugMemoryConfig := {|
  conv := HotplugMemoryConfig_try_from;
  typed raw := in_u 64 (rh_total_size_mib raw) /\ in_u 64 (rh_block_size_mib raw) /\ in_u 64 (rh_slot_size_mib raw);
  valid c := 1 <= h_total_size_mib c <= MAX_TOTAL_SIZE_MIB /\ 1 <= h_block_size_mib c <= h_slot_size_mib c /\
    (h_slot_size_mib c | h_total_size_mib c);
  spell c := mkRawHotplug (h_total_size_mib c) (h_block_size_mib c) (h_slot_size_mib c)
|}.

#[export] Instance hotplug_laws : SchemaLaws RawHotplugMemoryConfig HotplugMemoryConfig.
Proof.
  split.
  - intros raw c (H1 & H2 & H3) H. unfold conv, hotplug_schema, HotplugMemoryConfig_try_from in H. inv_conv.
    cbn. unfold in_u in *. split_and!; try lia. apply Z.mod_divide; lia.
  - intros [t b s] (Ht & Hb & Hd). unfold typed, spell, conv, hotplug_schema, HotplugMemoryConfig_try_from. cbn in *.
    unfold MAX_TOTAL_SIZE_MIB, in_u in *. pose proof (Z.divide_pos_le s t ltac:(lia) Hd). split; [lia|].
    rewrite (proj2 (Z.mod_divide t s ltac:(lia)) Hd). cbn [Z.eqb negb]. by run_conv.
Qed.

#[export] Instance hotplug_update_schema : Schema RawHotplugMemoryUpdate HotplugMemoryUpdate := {|
  conv := HotplugMemoryUpdate_try_from;
  typed raw := in_u 64 (rhu_requested_size_mib raw);
  valid c := 0 <= hu_requested_size_mib c <= MAX_TOTAL_SIZE_MIB;
  spell c := mkRawHotplugUpdate (hu_requested_size_mib c)
|}.

#[export] Instance hotplug_update_laws : SchemaLaws RawHotplugMemoryUpdate HotplugMemoryUpdate.
Proof.
  split.
  - intros raw c Ht H. unfold conv, hotplug_update_schema, HotplugMemoryUpdate_try_from in H. inv_conv.
    cbn in *. unfold in_u in *. lia.
  - intros [r] Hr. unfold typed, spell, conv, hotplug_update_schema, HotplugMemoryUpdate_try_from. cbn in *.
    unfold MAX_TOTAL_SIZE_MIB, in_u in *. split; [lia|]. by run_conv.
Qed.

#[export] Instance logger_schema : Schema RawLoggerConfig LoggerConfig := {|
  conv := LoggerConfig_try_from;
  typed _ := True;
  valid c := path_ok PATH_MAX (safe_path (l_log_path c)) /\ opt_ok (text_ok 128) (l_module c);
  spell c := mkRawLogger (safe_path (l_log_path c)) (l_level c) (l_show_level c) (l_show_log_origin c) (l_module c)
|}.

#[export] Instance logger_laws : SchemaLaws RawLoggerConfig LoggerConfig.
Proof. schema_laws logger_schema LoggerConfig_try_from. Qed.

#[export] Instance metrics_schema : Schema RawMetricsConfig MetricsConfig := {|
  conv := MetricsConfig_try_from;
  typed _ := True;
  valid c := path_ok PATH_MAX (safe_path (me_metrics_path c));
  spell c := mkRawMetrics (safe_path (me_metrics_path c))
|}.

#[export] Instance metrics_laws : SchemaLaws RawMetricsConfig MetricsConfig.
Proof. schema_laws metrics_schema MetricsConfig_try_from. Qed.

#[export] Instance serial_schema : Schema RawSerialConfig SerialConfig := {|
  conv := SerialConfig_try_from;
  typed _ := True;
  valid c := path_ok PATH_MAX (safe_path (se_log_path c));
  spell c := mkRawSerial (safe_path (se_log_path c))
|}.

#[export] Instance serial_laws : SchemaLaws RawSerialConfig SerialConfig.
Proof. schema_laws serial_schema SerialConfig_try_from. Qed.
