(* ===== verification/Controller.v ===== *)
(** * Controller: API actions, admission, limits and the VMM event loop

    Models [src/crates/core/src/lifecycle.rs], [src/crates/api/src/action.rs],
    [src/crates/api/src/controller.rs] and the action loop of
    [src/crates/squib/src/vmm_loop.rs].  A request is several steps of
    [sys_step]: it is validated against the controller's mirror, sent on the
    bounded channel, served by the single consumer, and finished or timed out
    by the client; requests of different clients interleave.  Booting
    (hypervisor, host files, threads) is an outcome supplied with the loop step. *)

From stdpp Require Import base numbers list option gmap strings.
From Stdlib Require Import ZArith Lia.
From S2P Require Import Prelude Text Schemas.

Local Open Scope Z_scope.
Local Open Scope squib_scope.

(** ** Lifecycle *)

Inductive WireVmState := WireNotStarted | WireRunning | WirePaused.

Definition wire_string (s : WireVmState) : list Z :=
  match s with WireNotStarted => lit "Not started" | WireRunning => lit "Running" | WirePaused => lit "Paused" end.

Inductive LifecyclePhase := Uninitialized | NotStarted | Starting | Running | Paused | Shutdown.

Definition wire_state (p : LifecyclePhase) : WireVmState :=
  match p with
  | Uninitialized | NotStarted | Starting | Shutdown => WireNotStarted
  | Running => WireRunning
  | Paused => WirePaused
  end.

Definition phase_is_post_boot (p : LifecyclePhase) : bool :=
  match p with Running | Paused => true | _ => false end.

Definition phase_is_pre_boot (p : LifecyclePhase) : bool :=
  match p with Uninitialized | NotStarted => true | _ => false end.

(** ** Actions *)

Inductive ActionClass :=
| ClassPreBootConfig | ClassInstanceStart | ClassSnapshotCreate | ClassSnapshotLoad
| ClassVmStateChange | ClassBalloonResize | ClassOther.

Definition class_label (c : ActionClass) : list Z :=
  match c with
  | ClassPreBootConfig => lit "pre-boot config"
  | ClassInstanceStart => lit "InstanceStart"
  | ClassSnapshotCreate => lit "PUT /snapshot/create"
  | ClassSnapshotLoad => lit "PUT /snapshot/load"
  | ClassVmStateChange => lit "PATCH /vm"
  | ClassBalloonResize => lit "PATCH /balloon"
  | ClassOther => lit "VMM action"
  end.

Inductive ApiError :=
| BadRequest (msg : list Z)
| PayloadTooLarge (msg : list Z)
| NotFound (msg : list Z)
| ApiTimeout (class : list Z)
| ApiInternal (msg : list Z).

Definition error_status (e : ApiError) : Z :=
  match e with
  | BadRequest _ | NotFound _ => 400
  | PayloadTooLarge _ => 413
  | ApiTimeout _ => 504
  | ApiInternal _ => 500
  end.

(** The constructors of [ApiAction], with the instance actions apart. *)
Ltac destruct_action a := destruct a as [| | | | | | | | | | | | | | | | | | | | | | | | | | |[]| | | |].

Section controller.
Context `{J : SerdeJson}.

Inductive ApiAction :=
| PutBootSource (c : BootSourceConfig)
| PutDrive (c : DriveConfig)
| PatchDrive (p : DrivePatch)
| DeleteDrive (drive_id : DriveId)
| PutNetwork (c : NetworkInterfaceConfig)
| PatchNetwork (p : NetworkPatch)
| DeleteNetwork (iface_id : IfaceId)
| PutVsock (c : VsockConfig)
| PutMmds (c : MmdsContents)
| PatchMmds (c : MmdsContents)
| PutMmdsConfig (c : MmdsConfig)
| PutBalloon (c : BalloonConfig)
| PatchBalloon (u : BalloonUpdate)
| PatchBalloonStats (u : BalloonStatsUpdate)
| PatchBalloonHinting (op : BalloonHintingOp)
| PutEntropy (c : EntropyConfig)
| PutSerial (c : SerialConfig)
| PutPmem (c : PmemConfig)
| PatchPmem (p : PmemPatch)
| DeletePmem (pmem_id : DriveId)
| PutHotplugMemory (c : HotplugMemoryConfig)
| PatchHotplugMemory (u : HotplugMemoryUpdate)
| PutCpuConfig (c : CpuConfig)
| PutMachineConfig (c : MachineConfig)
| PatchMachineConfig (p : MachineConfigPatch)
| PutLogger (c : LoggerConfig)
| PutMetrics (c : MetricsConfig)
| Action (a : InstanceAction)
| PatchVm (c : VmStateChange)
| SnapshotCreate (c : SnapshotCreateConfig)
| SnapshotLoad (c : SnapshotLoadConfig)
| ActionShutdown.

Definition action_class (a : ApiAction) : ActionClass :=
  match a with
  | Action InstanceStart => ClassInstanceStart
  | Action _ | ActionShutdown => ClassOther
  | PatchVm _ => ClassVmStateChange
  | PatchBalloon _ => ClassBalloonResize
  | SnapshotCreate _ => ClassSnapshotCreate
  | SnapshotLoad _ => ClassSnapshotLoad
  | _ => ClassPreBootConfig
  end.

Definition is_pre_boot (a : ApiAction) : bool :=
  match a with
  | PutBootSource _ | PutDrive _ | PutNetwork _ | PutVsock _ | PutMmds _ | PatchMmds _
  | PutMmdsConfig _ | PutBalloon _ | PutEntropy _ | PutSerial _ | PutPmem _
  | PutHotplugMemory _ | PutCpuConfig _ | PutMachineConfig _ | PatchMachineConfig _
  | PutLogger _ | PutMetrics _ | PatchDrive _ | PatchNetwork _ | Action InstanceStart
  | SnapshotLoad _ | ActionShutdown => true
  | _ => false
  end.

Definition is_post_boot (a : ApiAction) : bool :=
  match a with
  | PatchVm _ | PatchBalloon _ | PatchBalloonStats _ | PatchBalloonHinting _
  | PatchHotplugMemory _ | PatchMmds _ | PutMmds _ | PatchDrive _ | PatchNetwork _
  | PatchPmem _ | DeleteDrive _ | DeleteNetwork _ | DeletePmem _ | SnapshotCreate _
  | Action FlushMetrics | ActionShutdown => true
  | _ => false
  end.

Definition action_label (a : ApiAction) : list Z :=
  lit match a with
      | PutBootSource _ => "PUT /boot-source"
      | PutDrive _ => "PUT /drives/{id}"
      | PatchDrive _ => "PATCH /drives/{id}"
      | DeleteDrive _ => "DELETE /drives/{id}"
      | PutNetwork _ => "PUT /network-interfaces/{id}"
      | PatchNetwork _ => "PATCH /network-interfaces/{id}"
      | DeleteNetwork _ => "DELETE /network-interfaces/{id}"
      | PutVsock _ => "PUT /vsock"
      | PutMmds _ => "PUT /mmds"
      | PatchMmds _ => "PATCH /mmds"
      | PutMmdsConfig _ => "PUT /mmds/config"
      | PutBalloon _ => "PUT /balloon"
      | PatchBalloon _ => "PATCH /balloon"
      | PatchBalloonStats _ => "PATCH /balloon/statistics"
      | PatchBalloonHinting _ => "PATCH /balloon/hinting/{op}"
      | PutEntropy _ => "PUT /entropy"
      | PutSerial _ => "PUT /serial"
      | PutPmem _ => "PUT /pmem/{id}"
      | PatchPmem _ => "PATCH /pmem/{id}"
      | DeletePmem _ => "DELETE /pmem/{id}"
      | PutHotplugMemory _ => "PUT /hotplug/memory"
      | PatchHotplugMemory _ => "PATCH /hotplug/memory"
      | PutCpuConfig _ => "PUT /cpu-config"
      | PutMachineConfig _ => "PUT /machine-config"
      | PatchMachineConfig _ => "PATCH /machine-config"
      | PutLogger _ => "PUT /logger"
      | PutMetrics _ => "PUT /metrics"
      | Action _ => "PUT /actions"
      | PatchVm _ => "PATCH /vm"
      | SnapshotCreate _ => "PUT /snapshot/create"
      | SnapshotLoad _ => "PUT /snapshot/load"
      | ActionShutdown => "Shutdown"
      end.

Inductive ApiResponse :=
| NoContent
| Json (v : JsonValue)
| Fault (status : Z) (fault_message : list Z).

(** ** Controller state *)

(** Durations in seconds. *)
Record TimeoutTable := mkTimeouts {
  tt_pre_boot_config : Z;
  tt_instance_start : Z;
  tt_snapshot_create : Z;
  tt_snapshot_load : Z;
  tt_vm_state_change : Z;
  tt_balloon_resize : Z;
  tt_other : Z
}.

Definition timeouts_from_spec : TimeoutTable := mkTimeouts 5 30 300 300 5 30 5.

Definition for_class (t : TimeoutTable) (c : ActionClass) : Z :=
  match c with
  | ClassPreBootConfig => tt_pre_boot_config t
  | ClassInstanceStart => tt_instance_start t
  | ClassSnapshotCreate => tt_snapshot_create t
  | ClassSnapshotLoad => tt_snapshot_load t
  | ClassVmStateChange => tt_vm_state_change t
  | ClassBalloonResize => tt_balloon_resize t
  | ClassOther => tt_other t
  end.

Inductive VmState := VmNotStarted | VmRunning | VmPaused.

Definition VmState_from (s : WireVmState) : VmState :=
  match s with WireNotStarted => VmNotStarted | WireRunning => VmRunning | WirePaused => VmPaused end.

Record InstanceInfo := mkInfo {
  ii_id : list Z;
  ii_state : VmState;
  ii_vmm_version : list Z;
  ii_app_name : list Z
}.

Record ControllerSnapshot := mkSnapshot {
  instance_info : InstanceInfo;
  firecracker_version : list Z;
  vm_config : JsonValue;
  cs_phase : LifecyclePhase
}.

Definition Snapshot_new (instance_id fc_version vmm_version : list Z) : ControllerSnapshot :=
  mkSnapshot (mkInfo instance_id VmNotStarted vmm_version (lit "Firecracker")) fc_version json_empty
    Uninitialized.

Record LimitsState := mkLimits {
  host_ram_mib : Z;
  mem_size_mib : option Z;
  running_drives : Z;
  running_nics : Z;
  running_pmem : Z
}.

Definition from_host_ram_mib (host : Z) : LimitsState := mkLimits host None 0 0 0.

Definition limits_default : LimitsState := from_host_ram_mib (1024 * 1024).

Record Controller := mkController {
  snapshot : ControllerSnapshot;
  timeouts : TimeoutTable;
  limits : LimitsState
}.

(** ** Validation *)

Definition cross_check_balloon (amount_mib : Z) (mem : option Z) : result ApiError unit :=
  match mem with
  | None => Ok tt
  | Some mem =>
      let max_balloon := saturating_sub mem 32 in
      if max_balloon <? amount_mib
      then Err (BadRequest (lit "balloon amount_mib=" ++ decimal amount_mib ++ lit " exceeds max (" ++
                  decimal max_balloon ++ lit " = mem_size_mib " ++ decimal mem ++ lit " - 32)"))
      else Ok tt
  end.

Definition validate_cross_field (g : LimitsState) (action : ApiAction) : result ApiError unit :=
  match action with
  | PutMachineConfig cfg =>
      let req := mc_mem_size_mib cfg in
      if host_ram_mib g <? req
      then Err (BadRequest (lit "mem_size_mib=" ++ decimal req ++ lit " exceeds host RAM cap of " ++
                  decimal (host_ram_mib g) ++ lit " MiB"))
      else Ok tt
  | PutBalloon b => cross_check_balloon (bc_amount_mib b) (mem_size_mib g)
  | PatchBalloon u => cross_check_balloon (bu_amount_mib u) (mem_size_mib g)
  | PutDrive _ =>
      if MAX_DRIVES <=? running_drives g
      then Err (BadRequest (lit "drives: per-class cap " ++ decimal MAX_DRIVES ++ lit " exceeded"))
      else Ok tt
  | PutNetwork _ =>
      if MAX_NICS <=? running_nics g
      then Err (BadRequest (lit "network_interfaces: per-class cap " ++ decimal MAX_NICS ++ lit " exceeded"))
      else Ok tt
  | PutPmem _ =>
      if MAX_PMEM <=? running_pmem g
      then Err (BadRequest (lit "pmem: per-class cap " ++ decimal MAX_PMEM ++ lit " exceeded"))
      else Ok tt
  | _ => Ok tt
  end.

Definition validate_phase (phase : LifecyclePhase) (action : ApiAction) : result ApiError unit :=
  match action with
  | Action SendCtrlAltDel =>
      Err (BadRequest (lit "Invalid action: SendCtrlAltDel is x86-only and not supported on aarch64"))
  | ActionShutdown => Ok tt
  | _ =>
      if phase_is_pre_boot phase && negb (is_pre_boot action)
      then Err (BadRequest (lit "The requested operation is not allowed before the microVM has booted"))
      else if phase_is_post_boot phase && negb (is_post_boot action)
      then Err (BadRequest (lit "The requested operation is not supported after the microVM has booted"))
      else match phase with
           | Starting =>
               Err (BadRequest (lit "The requested operation cannot be served during boot orchestration"))
           | Shutdown => Err (ApiInternal (lit "VMM is shut down"))
           | _ => Ok tt
           end
  end.

(** The synchronous part of [dispatch]. *)
Definition admit_action (c : Controller) (action : ApiAction) : result ApiError unit :=
  let? _ := validate_phase (cs_phase (snapshot c)) action in
  validate_cross_field (limits c) action.

Inductive ActionCounterKick := KickNone | SetMemSize (v : Z) | AddDrive | AddNic | AddPmem.

Definition kick_for_action (a : ApiAction) : ActionCounterKick :=
  match a with
  | PutMachineConfig cfg => SetMemSize (mc_mem_size_mib cfg)
  | PutDrive _ => AddDrive
  | PutNetwork _ => AddNic
  | PutPmem _ => AddPmem
  | _ => KickNone
  end.

Definition u32_saturating_add (a b : Z) : Z := Z.min (a + b) (2 ^ 32 - 1).

Definition kick_apply (k : ActionCounterKick) (g : LimitsState) : LimitsState :=
  match k with
  | KickNone => g
  | SetMemSize v =>
      mkLimits (host_ram_mib g) (Some v) (running_drives g) (running_nics g) (running_pmem g)
  | AddDrive =>
      mkLimits (host_ram_mib g) (mem_size_mib g) (u32_saturating_add (running_drives g) 1)
        (running_nics g) (running_pmem g)
  | AddNic =>
      mkLimits (host_ram_mib g) (mem_size_mib g) (running_drives g)
        (u32_saturating_add (running_nics g) 1) (running_pmem g)
  | AddPmem =>
      mkLimits (host_ram_mib g) (mem_size_mib g) (running_drives g) (running_nics g)
        (u32_saturating_add (running_pmem g) 1)
  end.

(** What [dispatch] observes on its response channel. *)
Inductive Outcome := Responded (r : ApiResponse) | ChannelClosed | Elapsed.

Definition GONE : ApiError := ApiInternal (lit "VMM event loop is gone").

(** The end of [dispatch]: the counters move on a successful response only. *)
Definition finish_dispatch (c : Controller) (class : ActionClass) (k : ActionCounterKick) (o : Outcome)
  : Controller * result ApiError ApiResponse :=
  match o with
  | Responded r =>
      (match r with
       | NoContent | Json _ => mkController (snapshot c) (timeouts c) (kick_apply k (limits c))
       | Fault _ _ => c
       end, Ok r)
  | ChannelClosed => (c, Err GONE)
  | Elapsed => (c, Err (ApiTimeout (class_label class)))
  end.

Definition store_snapshot (c : Controller) (s : ControllerSnapshot) : Controller :=
  mkController s (timeouts c) (limits c).

(** ** The VMM event loop *)

Record BootState := mkBoot {
  bs_boot_source : option BootSourceConfig;
  bs_machine_config : option MachineConfig;
  bs_drive : option DriveConfig;
  bs_net : option NetworkInterfaceConfig;
  bs_vsock : option VsockConfig
}.

Definition BootState_default : BootState := mkBoot None None None None None.

(** A running microVM, named by its driver thread. *)
Definition RunningVm := nat.

(** [start_microvm]: the two configuration checks; everything after them
    (hypervisor, devices, host files, thread creation) has the outcome [env]. *)
Definition start_microvm (state : BootState) (env : result (list Z) RunningVm)
  : result (list Z) RunningVm :=
  match bs_boot_source state with
  | None => Err (lit "boot source not configured")
  | Some _ =>
      match bs_machine_config state with
      | None => Err (lit "machine-config not configured (vcpu_count + mem_size_mib required)")
      | Some _ => env
      end
  end.

(** The fields of the existing configuration a PATCH replaces. *)
Definition patch_machine (existing : MachineConfig) (patch : MachineConfigPatch) : MachineConfig :=
  mkMachineConfig
    (default (mc_vcpu_count existing) (mp_vcpu_count patch))
    (default (mc_mem_size existing) (mp_mem_size_mib patch))
    (mc_smt existing)
    (mc_track_dirty_pages existing)
    (match mp_cpu_template patch with Some t => Some t | None => mc_cpu_template existing end)
    (mc_huge_pages existing).

(** [vl_dropped] lists the VMs whose handle was dropped or joined, newest first. *)
Record VmmLoop := mkVmmLoop {
  vl_state : BootState;
  vl_running : option RunningVm;
  vl_dropped : list RunningVm
}.

Definition drop_running (l : VmmLoop) : list RunningVm :=
  match vl_running l with Some vm => vm :: vl_dropped l | None => vl_dropped l end.

Definition set_boot (l : VmmLoop) (b : BootState) : VmmLoop :=
  mkVmmLoop b (vl_running l) (vl_dropped l).

Definition mark_running (s : ControllerSnapshot) : ControllerSnapshot :=
  mkSnapshot
    (mkInfo (ii_id (instance_info s)) VmRunning (ii_vmm_version (instance_info s))
       (ii_app_name (instance_info s)))
    (firecracker_version s) (vm_config s) Running.

(** One iteration of [run]; the last component tells whether the loop goes on. *)
Definition serve (c : Controller) (l : VmmLoop) (action : ApiAction) (env : result (list Z) RunningVm)
  : Controller * VmmLoop * ApiResponse * bool :=
  let st := vl_state l in
  match action with
  | ActionShutdown => (c, mkVmmLoop st None (drop_running l), NoContent, false)
  | Action InstanceStart =>
      match start_microvm st env with
      | Ok vm =>
          (store_snapshot c (mark_running (snapshot c)),
           mkVmmLoop st (Some vm) (drop_running l), NoContent, true)
      | Err err => (c, l, Fault 400 (lit "InstanceStart failed: " ++ err), true)
      end
  | Action FlushMetrics => (c, l, NoContent, true)
  | Action SendCtrlAltDel =>
      (c, l, Fault 400 (lit "SendCtrlAltDel is x86-only and not supported on aarch64"), true)
  | PutBootSource x =>
      (c, set_boot l (mkBoot (Some x) (bs_machine_config st) (bs_drive st) (bs_net st) (bs_vsock st)),
       NoContent, true)
  | PutMachineConfig x =>
      (c, set_boot l (mkBoot (bs_boot_source st) (Some x) (bs_drive st) (bs_net st) (bs_vsock st)),
       NoContent, true)
  | PatchMachineConfig patch =>
      match bs_machine_config st with
      | Some existing =>
          (c, set_boot l (mkBoot (bs_boot_source st) (Some (patch_machine existing patch))
                            (bs_drive st) (bs_net st) (bs_vsock st)), NoContent, true)
      | None => (c, l, Fault 400 (lit "PATCH /machine-config before PUT is not allowed"), true)
      end
  | PutDrive x =>
      (c, set_boot l (mkBoot (bs_boot_source st) (bs_machine_config st) (Some x) (bs_net st) (bs_vsock st)),
       NoContent, true)
  | PutNetwork x =>
      (c, set_boot l (mkBoot (bs_boot_source st) (bs_machine_config st) (bs_drive st) (Some x) (bs_vsock st)),
       NoContent, true)
  | PutVsock x =>
      (c, set_boot l (mkBoot (bs_boot_source st) (bs_machine_config st) (bs_drive st) (bs_net st) (Some x)),
       NoContent, true)
  | SnapshotCreate _ | SnapshotLoad _ =>
      (c, l, Fault 400 (lit "Snapshot subsystem available but VMM integration pending (Track B)"), true)
  | _ => (c, l, NoContent, true)
  end.

(** ** Requests in flight *)

Inductive Client :=
| Sending (a : ApiAction)
| Waiting (class : ActionClass) (k : ActionCounterKick)
| Answered (class : ActionClass) (k : ActionCounterKick) (r : ApiResponse).

Record System := mkSystem {
  sy_ctl : Controller;
  sy_loop : VmmLoop;
  sy_alive : bool;
  sy_queue : list (nat * ApiAction);
  sy_clients : gmap nat Client;
  sy_next : nat
}.

(** A request is validated, sent, served, and finished or timed out; the budget of
    its class ([for_class]) may run out at any moment while it waits. *)
Inductive Event :=
| Request (a : ApiAction)
| Send (id : nat)
| Serve (env : result (list Z) RunningVm)
| Finish (id : nat)
| Expire (id : nat).

Definition Reply : Type := nat * result ApiError ApiResponse.

Definition answer (clients : gmap nat Client) (id : nat) (r : ApiResponse) : gmap nat Client :=
  match clients !! id with
  | Some (Waiting class k) => <[id := Answered class k r]> clients
  | _ => clients
  end.

(** The system after a served action; a stopped loop drops what is queued. *)
Definition after_serve (s : System) (id : nat) (q : list (nat * ApiAction))
    (out : Controller * VmmLoop * ApiResponse * bool) : System :=
  let '(c, l, r, go) := out in
  mkSystem c l go (if go then q else []) (answer (sy_clients s) id r) (sy_next s).

(** A client leaves [dispatch] with the given outcome. *)
Definition leave (s : System) (id : nat) (class : ActionClass) (k : ActionCounterKick) (o : Outcome)
  : System * list Reply :=
  let r := finish_dispatch (sy_ctl s) class k o in
  (mkSystem r.1 (sy_loop s) (sy_alive s) (sy_queue s) (delete id (sy_clients s)) (sy_next s),
   [(id, r.2)]).

(** [None]: the step is not enabled.  [capacity] is the bound of the channel. *)
Definition sys_step (capacity : nat) (s : System) (e : Event) : option (System * list Reply) :=
  match e with
  | Request a =>
      match admit_action (sy_ctl s) a with
      | Err err => Some (s, [(sy_next s, Err err)])
      | Ok _ =>
          Some (mkSystem (sy_ctl s) (sy_loop s) (sy_alive s) (sy_queue s)
                  (<[sy_next s := Sending a]> (sy_clients s)) (S (sy_next s)), [])
      end
  | Send id =>
      match sy_clients s !! id with
      | Some (Sending a) =>
          if sy_alive s then
            if Nat.ltb (length (sy_queue s)) capacity then
              Some (mkSystem (sy_ctl s) (sy_loop s) true (sy_queue s ++ [(id, a)])
                      (<[id := Waiting (action_class a) (kick_for_action a)]> (sy_clients s))
                      (sy_next s), [])
            else None
          else Some (leave s id (action_class a) (kick_for_action a) ChannelClosed)
      | _ => None
      end
  | Serve env =>
      match sy_queue s with
      | (id, a) :: q =>
          if sy_alive s
          then Some (after_serve s id q (serve (sy_ctl s) (sy_loop s) a env), [])
          else None
      | [] => None
      end
  | Finish id =>
      match sy_clients s !! id with
      | Some (Answered class k r) => Some (leave s id class k (Responded r))
      | Some (Waiting class k) =>
          if sy_alive s then None else Some (leave s id class k ChannelClosed)
      | _ => None
      end
  | Expire id =>
      match sy_clients s !! id with
      | Some (Waiting class k) => Some (leave s id class k Elapsed)
      | _ => None
      end
  end.

Fixpoint sys_run (capacity : nat) (s : System) (es : list Event) : option (System * list Reply) :=
  match es with
  | [] => Some (s, [])
  | e :: es' =>
      r ← sys_step capacity s e;
      r' ← sys_run capacity r.1 es';
      Some (r'.1, r.2 ++ r'.2)
  end.

Definition sys_init (id fc_version vmm_version : list Z) (t : TimeoutTable) (lim : LimitsState) : System :=
  mkSystem (mkController (Snapshot_new id fc_version vmm_version) t lim)
    (mkVmmLoop BootState_default None []) true [] ∅ 0.

(** ** Reachable systems *)

(** Systems reached by allowed events while at most [n] requests are in
    flight. *)
Inductive reach (capacity n : nat) (allowed : Event -> Prop) : System -> Prop :=
| reach_init id fc vmm t host :
    0 <= host -> reach capacity n allowed (sys_init id fc vmm t (from_host_ram_mib host))
| reach_step s e s' out :
    reach capacity n allowed s -> allowed e -> sys_step capacity s e = Some (s', out) ->
    (size (sy_clients s') <= n)%nat ->
    reach capacity n allowed s'.

Definition client_kick (c : Client) : ActionCounterKick :=
  match c with
  | Sending a => kick_for_action a
  | Waiting _ k | Answered _ k _ => k
  end.

(** The case analysis every invariant of [sys_step] goes through: nothing
    happened, a request (of those in [wanted]) entered, moved on, was served, or
    left. *)
Inductive change (wanted : ApiAction -> Prop) (s : System) : System -> Prop :=
| change_none : change wanted s s
| change_enter a :
    wanted a -> admit_action (sy_ctl s) a = Ok tt ->
    change wanted s (mkSystem (sy_ctl s) (sy_loop s) (sy_alive s) (sy_queue s)
                (<[sy_next s := Sending a]> (sy_clients s)) (S (sy_next s)))
| change_send id a :
    sy_clients s !! id = Some (Sending a) -> sy_alive s = true ->
    change wanted s (mkSystem (sy_ctl s) (sy_loop s) true (sy_queue s ++ [(id, a)])
                (<[id := Waiting (action_class a) (kick_for_action a)]> (sy_clients s)) (sy_next s))
| change_serve id a q env :
    sy_queue s = (id, a) :: q -> sy_alive s = true ->
    change wanted s (after_serve s id q (serve (sy_ctl s) (sy_loop s) a env))
| change_leave id c class o :
    sy_clients s !! id = Some c ->
    (sy_alive s = true -> match c with Sending _ => False | _ => True end) ->
    change wanted s (leave s id class (client_kick c) o).1.

Lemma sys_step_change (wanted : ApiAction -> Prop) capacity s e s' out :
  match e with Request a => wanted a | _ => True end ->
  sys_step capacity s e = Some (s', out) -> change wanted s s'.
Proof.
  intros Hw H. destruct e as [a|id|env|id|id]; cbn [sys_step] in H.
  - destruct (admit_action (sy_ctl s) a) as [[]|] eqn:Ha; simplify_eq; [by apply change_enter|constructor].
  - destruct (sy_clients s !! id) as [[a|class k|class k r]|] eqn:Hc; try done.
    destruct (sy_alive s) eqn:Hal.
    + destruct (Nat.ltb _ _); [|done]. simplify_eq. by apply change_send.
    + injection H as <- _. apply (change_leave wanted s id (Sending a) (action_class a) ChannelClosed); [done|by rewrite Hal].
  - destruct (sy_queue s) as [|[id a] q] eqn:Hq; [done|]. destruct (sy_alive s) eqn:Hal; [|done].
    injection H as <- _. by apply change_serve.
  - destruct (sy_clients s !! id) as [[a|class k|class k r]|] eqn:Hc; try done.
    + destruct (sy_alive s); [done|]. injection H as <- _.
      by apply (change_leave wanted s id (Waiting class k) class ChannelClosed).
    + injection H as <- _. by apply (change_leave wanted s id (Answered class k r) class (Responded r)).
  - destruct (sy_clients s !! id) as [[a|class k|class k r]|] eqn:Hc; try done.
    injection H as <- _. by apply (change_leave wanted s id (Waiting class k) class Elapsed).
Qed.

(** *** Requests and identities *)

Record ids_ok (s : System) : Prop := mkIds {
  ids_clients : forall id c, sy_clients s !! id = Some c -> (id < sy_next s)%nat;
  ids_waiting : forall id class k, sy_alive s = true -> sy_clients s !! id = Some (Waiting class k) ->
    In id (fst <$> sy_queue s);
  ids_queue : forall id a, In (id, a) (sy_queue s) -> (id < sy_next s)%nat /\
    match sy_clients s !! id with Some (Sending _) => False | _ => True end;
  ids_nodup : NoDup (fst <$> sy_queue s);
  ids_dead : sy_alive s = false -> sy_queue s = []
}.

Lemma answer_lookup clients id r j :
  answer clients id r !! j =
  if decide (j = id) then
    match clients !! id with Some (Waiting class k) => Some (Answered class k r) | c => c end
  else clients !! j.
Proof.
  unfold answer. destruct (decide (j = id)) as [->|Hne].
  - destruct (clients !! id) as [[]|] eqn:Hc; rewrite ?Hc; try done. by rewrite lookup_insert_eq.
  - destruct (clients !! id) as [[]|]; try done. by rewrite lookup_insert_ne by congruence.
Qed.

Lemma after_serve_proj s id q out :
  after_serve s id q out =
  mkSystem out.1.1.1 out.1.1.2 out.2 (if out.2 then q else []) (answer (sy_clients s) id out.1.2) (sy_next s).
Proof. by destruct out as [[[c l] r] go]. Qed.

Lemma In_fst_elem {A} (id : nat) (q : list (nat * A)) : In id (fst <$> q) <-> exists a, In (id, a) q.
Proof.
  rewrite <- list_elem_of_In, list_elem_of_fmap. split.
  - intros ([j a] & -> & H). exists a. by apply list_elem_of_In.
  - intros (a & H). exists (id, a). split; [done|]. by apply list_elem_of_In.
Qed.

Lemma ids_enter s a :
  ids_ok s ->
  ids_ok (mkSystem (sy_ctl s) (sy_loop s) (sy_alive s) (sy_queue s)
            (<[sy_next s := Sending a]> (sy_clients s)) (S (sy_next s))).
Proof.
  intros [Hc Hw Hq Hn Hd]. constructor; cbn; try done.
  - intros id c. destruct (decide (id = sy_next s)) as [->|]; [lia|].
    rewrite lookup_insert_ne by congruence. intros H%Hc. lia.
  - intros id class k Ha. destruct (decide (id = sy_next s)) as [->|].
    + by rewrite lookup_insert_eq.
    + rewrite lookup_insert_ne by congruence. by apply Hw.
  - intros id b Hin. destruct (Hq id b Hin) as [Hlt Hs]. split; [lia|].
    by rewrite lookup_insert_ne by lia.
Qed.

Lemma ids_send s id a :
  ids_ok s -> sy_clients s !! id = Some (Sending a) -> sy_alive s = true ->
  ids_ok (mkSystem (sy_ctl s) (sy_loop s) true (sy_queue s ++ [(id, a)])
            (<[id := Waiting (action_class a) (kick_for_action a)]> (sy_clients s)) (sy_next s)).
Proof.
  intros [Hc Hw Hq Hn Hd] Hid Hal.
  constructor; cbn; try done.
  - intros j c. destruct (decide (j = id)) as [->|]; [by intros _; apply (Hc _ _ Hid)|].
    rewrite lookup_insert_ne by congruence. apply Hc.
  - intros j class k _ Hj. rewrite fmap_app. apply in_or_app.
    destruct (decide (j = id)) as [->|]; [right; by left|]. rewrite lookup_insert_ne in Hj by congruence.
    left. by apply (Hw j class k).
  - intros j b Hj. apply in_app_or in Hj as [Hj|[[= <- <-]|[]]].
    + destruct (Hq j b Hj) as [Hlt Hs]. split; [done|].
      destruct (decide (j = id)) as [->|]; [by rewrite lookup_insert_eq|].
      by rewrite lookup_insert_ne by congruence.
    + split; [by apply (Hc _ _ Hid)|]. by rewrite lookup_insert_eq.
  - rewrite fmap_app. apply NoDup_app. split_and!; [done| |apply NoDup_singleton].
    intros j Hj%list_elem_of_In%In_fst_elem ->%list_elem_of_singleton. destruct Hj as (b & Hj).
    destruct (Hq id b Hj) as [_ Hs]. by rewrite Hid in Hs.
Qed.

Lemma ids_leave s id class k o : ids_ok s -> ids_ok (leave s id class k o).1.
Proof.
  intros [Hc Hw Hq Hn Hd]. constructor; cbn; try done.
  - intros j c [_ Hj]%lookup_delete_Some. by apply (Hc j c).
  - intros j cl k' Ha [_ Hj]%lookup_delete_Some. by apply (Hw j cl k').
  - intros j b Hj. destruct (Hq j b Hj) as [Hlt Hs]. split; [done|].
    destruct (decide (j = id)) as [->|]; [by rewrite lookup_delete_eq|].
    by rewrite lookup_delete_ne by congruence.
Qed.

Lemma ids_serve s id a q out :
  ids_ok s -> sy_queue s = (id, a) :: q -> ids_ok (after_serve s id q out).
Proof.
  intros [Hc Hw Hq Hn Hd] Hqs. rewrite after_serve_proj. rewrite Hqs in *.
  apply NoDup_cons in Hn as [Hid Hn].
  constructor; cbn.
  - intros j c. rewrite answer_lookup. destruct (decide (j = id)) as [->|]; [|apply Hc].
    intros _. by destruct (Hq id a (or_introl eq_refl)).
  - intros j cl k Hgo. rewrite Hgo, answer_lookup. destruct (decide (j = id)) as [->|Hne].
    + destruct (sy_clients s !! id) as [[]|]; done.
    + intros Hj. destruct (sy_alive s) eqn:Ha; [|by specialize (Hd eq_refl)].
      destruct (Hw j cl k eq_refl Hj) as [<-|]; done.
  - intros j b Hj. destruct out as [r []]; [|done]. cbn in Hj.
    destruct (Hq j b (or_intror Hj)) as [Hlt Hs]. split; [done|].
    rewrite answer_lookup. destruct (decide (j = id)) as [->|]; [|done].
    exfalso. apply Hid. apply list_elem_of_In, In_fst_elem. by exists b.
  - destruct (out.2); [done|constructor].
  - by intros ->.
Qed.

Lemma ids_change wanted s s' : change wanted s s' -> ids_ok s -> ids_ok s'.
Proof.
  destruct 1; intros I; [done|by apply ids_enter|by apply ids_send|by eapply ids_serve|by apply ids_leave].
Qed.

Lemma ids_reach capacity n allowed s : reach capacity n allowed s -> ids_ok s.
Proof.
  induction 1 as [id fc vmm t host Hh|s e s' out Hr IH Ha Hs Hn].
  - constructor; cbn; try done. constructor.
  - eapply ids_change; [by apply (sys_step_change (fun _ => True) capacity s e _ out); [destruct e|]|done].
Qed.

(** *** Device caps *)

Inductive DevClass := Drives | Nics | Pmems.

Definition dev_cap (d : DevClass) : Z :=
  match d with Drives => MAX_DRIVES | Nics => MAX_NICS | Pmems => MAX_PMEM end.

Definition dev_count (d : DevClass) (g : LimitsState) : Z :=
  match d with Drives => running_drives g | Nics => running_nics g | Pmems => running_pmem g end.

Definition adds (d : DevClass) (k : ActionCounterKick) : bool :=
  match d, k with
  | Drives, AddDrive | Nics, AddNic | Pmems, AddPmem => true
  | _, _ => false
  end.

(** Requests in flight that will count a device of class [d] when they succeed. *)
Definition inflight (d : DevClass) (clients : gmap nat Client) : Z :=
  Z.of_nat (size (filter (fun p => adds d (client_kick p.2) = true) clients)).

Definition b2z (b : bool) : Z := if b then 1 else 0.

Lemma inflight_nonneg d m : 0 <= inflight d m.
Proof. unfold inflight. lia. Qed.

Lemma inflight_new d m id c :
  m !! id = None -> inflight d (<[id := c]> m) = inflight d m + b2z (adds d (client_kick c)).
Proof.
  intros Hid. unfold inflight. destruct (adds d (client_kick c)) eqn:Ha; cbn [b2z].
  - rewrite map_filter_insert_True by done. rewrite map_size_insert_None; [lia|].
    apply map_lookup_filter_None. by left.
  - rewrite map_filter_insert_not'; [lia| |].
    + cbn. by rewrite Ha.
    + intros y Hy. by rewrite Hid in Hy.
Qed.

Lemma inflight_remove d m id c :
  m !! id = Some c -> inflight d m = inflight d (delete id m) + b2z (adds d (client_kick c)).
Proof.
  intros Hid. rewrite <- (insert_delete_id m id c Hid) at 1. apply inflight_new. apply lookup_delete_eq.
Qed.

Lemma inflight_update d m id c c' :
  m !! id = Some c -> client_kick c' = client_kick c -> inflight d (<[id := c']> m) = inflight d m.
Proof.
  intros Hid Hk. rewrite <- insert_delete_eq.
  rewrite inflight_new by apply lookup_delete_eq. rewrite Hk. symmetry. by apply inflight_remove.
Qed.

Lemma inflight_answer d m id r : inflight d (answer m id r) = inflight d m.
Proof.
  unfold answer. destruct (m !! id) as [[]|] eqn:Hid; try done. by apply (inflight_update d m id _ _ Hid).
Qed.

Lemma inflight_size d m : inflight d m <= Z.of_nat (size m).
Proof.
  unfold inflight. apply inj_le. apply map_subseteq_size. apply map_filter_subseteq.
Qed.

Lemma kick_count d k g :
  0 <= dev_count d g -> 0 <= dev_count d (kick_apply k g) <= dev_count d g + b2z (adds d k).
Proof.
  intros H. destruct d, k; cbn in *; unfold u32_saturating_add; lia.
Qed.

Lemma leave_count d s id class k o :
  0 <= dev_count d (limits (sy_ctl s)) ->
  0 <= dev_count d (limits (sy_ctl (leave s id class k o).1)) <=
  dev_count d (limits (sy_ctl s)) + b2z (adds d k).
Proof.
  intros H. assert (0 <= b2z (adds d k)) by (destruct (adds d k); cbn; lia).
  destruct o as [[]| |]; cbn; try lia; by apply kick_count.
Qed.

Lemma serve_limits c l a env : limits (serve c l a env).1.1.1 = limits c.
Proof. destruct a as [| | | | | | | | | | | | | | | | | | | | | | | | | | |[]| | | |]; cbn; try done;
  [destruct (bs_machine_config _)|destruct (start_microvm _ _)]; done. Qed.

(** Admission of a counted device: the class is below its cap. *)
Lemma admit_below_cap d c a :
  adds d (kick_for_action a) = true -> admit_action c a = Ok tt -> dev_count d (limits c) <= dev_cap d - 1.
Proof.
  unfold admit_action. intros Ha H. destruct (validate_phase _ a) as [[]|]; [|done]. cbn in H.
  destruct d, a; try done; cbn in H |- *; unfold MAX_DRIVES, MAX_NICS, MAX_PMEM in *;
    match type of H with context [Z.leb ?x ?y] => destruct (Z.leb_spec x y); [done|lia] end.
Qed.

Definition caps_ok (n : nat) (s : System) : Prop :=
  forall d, 0 <= dev_count d (limits (sy_ctl s)) /\
    dev_count d (limits (sy_ctl s)) + inflight d (sy_clients s) <= dev_cap d - 1 + Z.of_nat n.

Lemma caps_change wanted n s s' :
  change wanted s s' -> ids_ok s -> (size (sy_clients s') <= n)%nat -> caps_ok n s -> caps_ok n s'.
Proof.
  intros Hc I Hn H d. destruct (H d) as [H0 H1]. destruct Hc as [|a _ Ha|id a Hid Hal|id a q env Hq Hal|id c class o Hid Hk].
  - done.
  - cbn in *. assert (Hfresh : sy_clients s !! sy_next s = None).
    { destruct (sy_clients s !! sy_next s) eqn:Hx; [|done]. apply (ids_clients s I) in Hx. lia. }
    split; [done|]. pose proof (inflight_size d (<[sy_next s := Sending a]> (sy_clients s))) as Hsz.
    rewrite inflight_new in Hsz |- * by done. cbn [client_kick] in *.
    destruct (adds d (kick_for_action a)) eqn:Hadd; cbn [b2z] in *; [|lia].
    pose proof (admit_below_cap d _ a Hadd Ha). lia.
  - cbn. by rewrite (inflight_update d _ id (Sending a)).
  - rewrite after_serve_proj. cbn. by rewrite serve_limits, inflight_answer.
  - destruct (leave_count d s id class (client_kick c) o H0) as [L0 L1].
    split; [done|]. rewrite (inflight_remove d _ id c Hid) in H1.
    change (sy_clients (leave s id class (client_kick c) o).1) with (delete id (sy_clients s)). lia.
Qed.

Lemma caps_reach capacity n allowed s : reach capacity n allowed s -> caps_ok n s.
Proof.
  induction 1 as [id fc vmm t host Hh|s e s' out Hr IH Ha Hs Hn].
  - intros d. destruct d; cbn; unfold inflight, MAX_DRIVES, MAX_NICS, MAX_PMEM;
      rewrite map_filter_empty, map_size_empty; lia.
  - eapply caps_change; [by apply (sys_step_change (fun _ => True) capacity s e _ out); [destruct e|]
      |by eapply ids_reach|done|done].
Qed.

(** *** Lifecycle and memory *)

(** Requests that keep the configured memory within the host's. *)
Definition within_host (host : Z) (a : ApiAction) : Prop :=
  match a with
  | PutMachineConfig c => mc_mem_size_mib c <= host
  | PatchMachineConfig p => mp_mem_size_mib p = None
  | _ => True
  end.

(** No PATCH changes the memory size. *)
Definition no_mem_patch (a : ApiAction) : Prop :=
  match a with PatchMachineConfig p => mp_mem_size_mib p = None | _ => True end.

Definition no_mem_patch_event (e : Event) : Prop :=
  match e with Request a => no_mem_patch a | _ => True end.

Record life_ok (s : System) : Prop := mkLife {
  lf_phase : cs_phase (snapshot (sy_ctl s)) = Uninitialized \/ cs_phase (snapshot (sy_ctl s)) = Running;
  lf_wire : ii_state (instance_info (snapshot (sy_ctl s))) =
            VmState_from (wire_state (cs_phase (snapshot (sy_ctl s))));
  lf_config : cs_phase (snapshot (sy_ctl s)) = Running ->
    is_Some (bs_boot_source (vl_state (sy_loop s))) /\ is_Some (bs_machine_config (vl_state (sy_loop s)));
  lf_running : is_Some (vl_running (sy_loop s)) <->
    sy_alive s = true /\ cs_phase (snapshot (sy_ctl s)) = Running
}.

Record mem_ok (s : System) : Prop := mkMem {
  mm_config : forall mc, bs_machine_config (vl_state (sy_loop s)) = Some mc ->
    mc_mem_size_mib mc <= host_ram_mib (limits (sy_ctl s));
  mm_limit : forall v, mem_size_mib (limits (sy_ctl s)) = Some v -> v <= host_ram_mib (limits (sy_ctl s));
  mm_sending : forall id a, sy_clients s !! id = Some (Sending a) ->
    within_host (host_ram_mib (limits (sy_ctl s))) a;
  mm_queue : forall id a, In (id, a) (sy_queue s) -> within_host (host_ram_mib (limits (sy_ctl s))) a;
  mm_kick : forall id c v, sy_clients s !! id = Some c -> client_kick c = SetMemSize v ->
    v <= host_ram_mib (limits (sy_ctl s))
}.

Lemma leave_snapshot s id class k o : snapshot (sy_ctl (leave s id class k o).1) = snapshot (sy_ctl s).
Proof. by destruct o as [[]| |]. Qed.

Lemma start_configured st env vm :
  start_microvm st env = Ok vm -> is_Some (bs_boot_source st) /\ is_Some (bs_machine_config st).
Proof.
  unfold start_microvm. destruct (bs_boot_source st), (bs_machine_config st); by eauto.
Qed.

Lemma is_Some_None_iff {A} (Q : Prop) : ~ Q -> (is_Some (@None A) <-> Q).
Proof. intros H. split; [by intros [? ?]|done]. Qed.

Lemma life_serve s id a q env :
  sy_alive s = true -> life_ok s -> life_ok (after_serve s id q (serve (sy_ctl s) (sy_loop s) a env)).
Proof.
  intros Hal [Hp Hw Hc Hr]. rewrite after_serve_proj. rewrite Hal in Hr.
  destruct_action a; try by constructor.
  - constructor; cbn; try done. intros Hph. split; [by eauto|]. by apply Hc.
  - constructor; cbn; try done. intros Hph. split; [by apply Hc|by eauto].
  - cbn [serve]. destruct (bs_machine_config (vl_state (sy_loop s))) as [mc|] eqn:Hmc.
    + constructor; cbn; try done. intros Hph. split; [by apply Hc|by eauto].
    + constructor; cbn; try done. by rewrite Hmc.
  - cbn [serve]. destruct (start_microvm _ env) as [vm|] eqn:Hst.
    + apply start_configured in Hst. constructor; cbn; [by right|done|done|].
      split; by eauto.
    + by constructor.
  - constructor; cbn; try done. by apply is_Some_None_iff; intros [].
Qed.

Lemma life_change wanted s s' : change wanted s s' -> life_ok s -> life_ok s'.
Proof.
  destruct 1 as [|a _ Ha|id a Hid Hal|id a q env Hq Hal|id c class o Hid Hk]; intros L.
  - done.
  - destruct L. by constructor.
  - destruct L as [? ? ? Hr]. rewrite Hal in Hr. by constructor.
  - by apply life_serve.
  - destruct L. constructor; rewrite ?leave_snapshot; done.
Qed.

Lemma life_reach capacity n allowed s : reach capacity n allowed s -> life_ok s.
Proof.
  induction 1 as [id fc vmm t host Hh|s e s' out Hr IH Ha Hs Hn].
  - constructor; cbn; try done; [by left|]. by apply is_Some_None_iff; intros [].
  - eapply life_change; [by apply (sys_step_change (fun _ => True) capacity s e _ out); [destruct e|]|done].
Qed.

(** *** The memory bound *)

Lemma leave_host s id class k o :
  host_ram_mib (limits (sy_ctl (leave s id class k o).1)) = host_ram_mib (limits (sy_ctl s)).
Proof. destruct o as [[]| |]; cbn; try done; by destruct k. Qed.

Lemma leave_mem s id class k o v :
  mem_size_mib (limits (sy_ctl (leave s id class k o).1)) = Some v ->
  mem_size_mib (limits (sy_ctl s)) = Some v \/ k = SetMemSize v.
Proof.
  destruct o as [[]| |]; cbn; try (by left); destruct k; cbn; intros; simplify_eq; auto.
Qed.

Lemma admit_within c a :
  admit_action c a = Ok tt -> no_mem_patch a -> within_host (host_ram_mib (limits c)) a.
Proof.
  unfold admit_action. intros H Hn. destruct (validate_phase _ a) as [[]|]; [|done]. cbn in H.
  destruct a; try done. cbn in *. destruct (Z.ltb_spec (host_ram_mib (limits c)) (mc_mem_size_mib c0)); [done|lia].
Qed.

Lemma kick_within host a v : within_host host a -> kick_for_action a = SetMemSize v -> v <= host.
Proof. destruct a; cbn; intros; simplify_eq; done. Qed.

Lemma serve_mem c l a env mc :
  (forall mc', bs_machine_config (vl_state l) = Some mc' -> mc_mem_size_mib mc' <= host_ram_mib (limits c)) ->
  within_host (host_ram_mib (limits c)) a ->
  bs_machine_config (vl_state (serve c l a env).1.1.2) = Some mc ->
  mc_mem_size_mib mc <= host_ram_mib (limits c).
Proof.
  intros Hm Hw. destruct_action a; try (apply Hm); cbn in *; intros H.
  - by simplify_eq.
  - destruct (bs_machine_config (vl_state l)) as [mc'|] eqn:He; cbn in H.
    + simplify_eq. unfold mc_mem_size_mib; cbn. rewrite Hw. cbn. by apply Hm.
    + by rewrite He in H.
  - destruct (start_microvm _ env); cbn in H; by apply Hm.
Qed.

Lemma mem_change s s' : change no_mem_patch s s' -> mem_ok s -> mem_ok s'.
Proof.
  destruct 1 as [|a Hn Ha|id a Hid Hal|id a q env Hq Hal|id c class o Hid Hk]; intros [Mc Ml Ms Mq Mk].
  - done.
  - pose proof (admit_within _ a Ha Hn) as Hw. constructor; cbn; try done.
    + intros j b. rewrite lookup_insert_Some. intros [[_ [= <-]]|[_ Hj]]; [done|by apply (Ms j)].
    + intros j c v. rewrite lookup_insert_Some. intros [[_ <-]|[_ Hj]]; [by apply kick_within|by apply (Mk j)].
  - pose proof (Ms id a Hid) as Hw. constructor; cbn; try done.
    + intros j b. rewrite lookup_insert_Some. intros [[_ [=]]|[_ Hj]]. by apply (Ms j).
    + intros j b [Hj|[[= <- <-]|[]]]%in_app_or; [by apply (Mq j)|done].
    + intros j c v. rewrite lookup_insert_Some. intros [[_ <-]|[_ Hj]]; [by apply kick_within|by apply (Mk j)].
  - rewrite after_serve_proj. rewrite Hq in Mq.
    constructor; cbn; rewrite serve_limits; try done.
    + intros mc. apply serve_mem; [done|]. apply (Mq id). by left.
    + intros j b. rewrite answer_lookup. destruct (decide (j = id)) as [->|]; [|by apply Ms].
      intros Hb. apply (Ms id). by destruct (sy_clients s !! id) as [[]|].
    + intros j b Hj. destruct (serve _ _ a env) as [r []]; [|done]. apply (Mq j). by right.
    + intros j c v. rewrite answer_lookup. destruct (decide (j = id)) as [->|]; [|by apply (Mk j)].
      destruct (sy_clients s !! id) as [[]|] eqn:Hx; intros; simplify_eq; by eapply (Mk id).
  - constructor; rewrite ?leave_host; cbn [leave fst sy_loop sy_queue sy_clients]; try done.
    + intros v Hv. destruct (leave_mem _ _ _ _ _ _ Hv) as [H|H]; [by apply Ml|by apply (Mk id c)].
    + intros j b [_ Hj]%lookup_delete_Some. by apply (Ms j).
    + intros j b v [_ Hj]%lookup_delete_Some. by apply (Mk j).
Qed.

Lemma mem_reach capacity n s : reach capacity n no_mem_patch_event s -> mem_ok s.
Proof.
  induction 1 as [id fc vmm t host Hh|s e s' out Hr IH Ha Hs Hn].
  - constructor; cbn; try done.
  - eapply mem_change; [|done]. by apply (sys_step_change no_mem_patch capacity s e _ out); [destruct e|].
Qed.

(** *** Serving the queue *)

(** Let the loop run with the given boot outcomes while there is work. *)
Fixpoint serve_all (capacity : nat) (s : System) (envs : list (result (list Z) RunningVm)) : System :=
  match envs with
  | [] => s
  | env :: envs' =>
      match sys_step capacity s (Serve env) with
      | Some r => serve_all capacity r.1 envs'
      | None => s
      end
  end.

Definition sent (s : System) (id : nat) : Prop :=
  exists class k, sy_clients s !! id = Some (Waiting class k) \/
    exists r, sy_clients s !! id = Some (Answered class k r).

Lemma sent_serve s id q out j : sent s j -> sent (after_serve s id q out) j.
Proof.
  intros (class & k & H). rewrite after_serve_proj. exists class, k. cbn. rewrite answer_lookup.
  destruct (decide (j = id)) as [->|]; [|done].
  destruct H as [H|(r & H)]; rewrite H; right; eauto.
Qed.

Lemma serve_all_spec capacity envs : forall s,
  ids_ok s -> (length (sy_queue s) <= length envs)%nat ->
  let s' := serve_all capacity s envs in
  ids_ok s' /\ sy_queue s' = [] /\ forall id, sent s id -> sent s' id.
Proof.
  induction envs as [|env envs IH]; intros s I Hl; cbn [serve_all].
  { split_and!; try done. apply length_zero_iff_nil. cbn in Hl. lia. }
  cbn [sys_step]. destruct (sy_queue s) as [|[id a] q] eqn:Hq; [done|].
  destruct (sy_alive s) eqn:Hal; [|by rewrite (ids_dead s I Hal) in Hq]. cbn [fst].
  destruct (IH (after_serve s id q (serve (sy_ctl s) (sy_loop s) a env))) as (I' & Hq' & Hs').
  - by eapply ids_serve.
  - rewrite after_serve_proj. cbn in *. destruct (serve _ _ a env) as [r []]; cbn; lia.
  - split_and!; try done. intros j Hj. apply Hs'. by apply sent_serve.
Qed.

Lemma finish_enabled capacity s id :
  ids_ok s -> sy_queue s = [] -> sent s id ->
  exists s' r, sys_step capacity s (Finish id) = Some (s', [(id, r)]).
Proof.
  intros I Hq (class & k & [H|(r & H)]); cbn [sys_step]; rewrite H; [|by eexists _, _].
  destruct (sy_alive s) eqn:Hal; [|by eexists _, _].
  exfalso. pose proof (ids_waiting s I id class k Hal H) as Hin. by rewrite Hq in Hin.
Qed.

(** C31: However requests interleave, a request that reached the channel is
    never lost: from every reachable state the event loop empties the queue in
    as many iterations as it has entries (booting or not, shutting down or
    not), and then every client still waiting gets a reply. *)
Theorem requests_resolve capacity n allowed s envs :
  reach capacity n allowed s -> (length (sy_queue s) <= length envs)%nat ->
  let s' := serve_all capacity s envs in
  sy_queue s' = [] /\
  forall id class k, sy_clients s !! id = Some (Waiting class k) ->
    exists s'' r, sys_step capacity s' (Finish id) = Some (s'', [(id, r)]).
Proof.
  intros Hr Hl s'. destruct (serve_all_spec capacity envs s (ids_reach _ _ _ _ Hr) Hl) as (I & Hq & Hs).
  split; [done|]. intros id class k Hid. apply finish_enabled; [done|done|]. apply Hs.
  exists class, k. by left.
Qed.

(** While at most [n] requests are in flight, the number of accepted
    drives, network interfaces and pmem devices exceeds the class cap by at
    most [n - 1]; with one request at a time the caps of 8, 8 and 4 hold. *)
Theorem device_caps capacity n allowed s d :
  reach capacity n allowed s ->
  0 <= dev_count d (limits (sy_ctl s)) <= dev_cap d + (Z.of_nat n - 1).
Proof.
  intros Hr. destruct (caps_reach _ _ _ _ Hr d). pose proof (inflight_nonneg d (sy_clients s)). lia.
Qed.

Lemma post_boot_rejects c a :
  cs_phase (snapshot c) = Running -> is_post_boot a = false -> exists msg, admit_action c a = Err (BadRequest msg).
Proof.
  intros Hp Ha. unfold admit_action. rewrite Hp.
  destruct_action a; try done; by eexists.
Qed.

Lemma running_stays wanted s s' :
  change wanted s s' -> cs_phase (snapshot (sy_ctl s)) = Running -> cs_phase (snapshot (sy_ctl s')) = Running.
Proof.
  destruct 1 as [|a _ Ha|id a Hid Hal|id a q env Hq Hal|id c class o Hid Hk]; try done.
  - intros Hp. rewrite after_serve_proj. cbn. destruct_action a; try done; cbn [serve].
    + by destruct (bs_machine_config _).
    + by destruct (start_microvm _ _).
  - by rewrite leave_snapshot.
Qed.


(** As long as no PATCH changes the memory size, the configuration the
    microVM boots with and the size the balloon check uses never exceed the
    host's memory, however requests interleave or time out. *)
Theorem memory_within_host capacity n s :
  reach capacity n no_mem_patch_event s ->
  (forall mc, bs_machine_config (vl_state (sy_loop s)) = Some mc ->
     mc_mem_size_mib mc <= host_ram_mib (limits (sy_ctl s))) /\
  (forall v, mem_size_mib (limits (sy_ctl s)) = Some v -> v <= host_ram_mib (limits (sy_ctl s))).
Proof. intros Hr. destruct (mem_reach _ _ _ Hr). by split. Qed.

(** A run during which at most [n] requests are in flight. *)
Fixpoint bounded_run (capacity n : nat) (s : System) (es : list Event) : option System :=
  match es with
  | [] => Some s
  | e :: es' =>
      match sys_step capacity s e with
      | Some (s', _) => if Nat.leb (size (sy_clients s')) n then bounded_run capacity n s' es' else None
      | None => None
      end
  end.

Lemma reach_run capacity n allowed es : forall s s',
  reach capacity n allowed s -> Forall allowed es ->
  bounded_run capacity n s es = Some s' -> reach capacity n allowed s'.
Proof.
  induction es as [|e es IH]; intros s s' Hr Ha H; cbn [bounded_run] in H; [by simplify_eq|].
  apply Forall_cons_iff in Ha as [Hae Ha].
  destruct (sys_step capacity s e) as [[s1 out1]|] eqn:Hs; [|done].
  destruct (Nat.leb_spec (size (sy_clients s1)) n); [|done].
  apply (IH s1 s'); [|done|done]. by apply (reach_step capacity n allowed s e s1 out1).
Qed.
End controller.

(** ** Concrete runs *)

#[local] Instance unit_json : SerdeJson := {|
  JsonValue := unit; json_empty := tt; json_null := tt; json_get _ _ := None |}.

Definition demo_init : System :=
  sys_init (lit "demo") (lit "1.16.0") (lit "1.16.0") timeouts_from_spec (from_host_ram_mib 1024).

Definition demo_drive (id : string) : DriveConfig :=
  mkDrive (mkDriveId (lit id)) (mkSafePath (lit "/img")) true false CacheUnsafe EngineSync None None None.

Definition demo_put_drive : ApiAction := PutDrive (demo_drive "rootfs").
Definition demo_put_boot_source : ApiAction := PutBootSource (mkBootSource (mkSafePath (lit "/vmlinux")) None None).

Definition demo_machine : MachineConfig := mkMachineConfig 2 (mkMemSizeMib 256) false false None None.

(** One request from validation to reply. *)
Definition whole (id : nat) (a : ApiAction) : list Event := [Request a; Send id; Serve (Ok 7%nat); Finish id].

Definition demo_boot : list Event :=
  whole 0 demo_put_boot_source ++ whole 1 (PutMachineConfig demo_machine) ++ whole 2 demo_put_drive ++
  whole 3 (Action InstanceStart).

Definition demo_running : System := default demo_init (bounded_run 8 1 demo_init demo_boot).

Lemma demo_running_eq : bounded_run 8 1 demo_init demo_boot = Some demo_running.
Proof. vm_compute. reflexivity. Qed.

Lemma demo_running_reach allowed : Forall allowed demo_boot -> reach 8 1 allowed demo_running.
Proof.
  intros H. apply (reach_run 8 1 allowed demo_boot demo_init); [|done|apply demo_running_eq].
  apply (reach_init 8 1 allowed (lit "demo") (lit "1.16.0") (lit "1.16.0") timeouts_from_spec 1024). lia.
Qed.

Lemma requests_resolve_witness :
  exists s s' r, reach 8 2 (fun _ => True) s /\
    sys_step 8 (serve_all 8 s [Err (lit "no hypervisor")]) (Finish 0) = Some (s', [(0%nat, r)]).
Proof.
  assert (Hr : reach 8 2 (fun _ => True)
    (default demo_init (bounded_run 8 2 demo_init [Request demo_put_drive; Send 0]))).
  { apply (reach_run 8 2 _ [Request demo_put_drive; Send 0] demo_init).
    - apply (reach_init 8 2 _ (lit "demo") (lit "1.16.0") (lit "1.16.0") timeouts_from_spec 1024). lia.
    - repeat constructor.
    - vm_compute. reflexivity. }
  destruct (requests_resolve 8 2 (fun _ => True) _ [Err (lit "no hypervisor")] Hr) as [_ H];
    [vm_compute; lia|].
  destruct (H 0%nat ClassPreBootConfig AddDrive) as (s' & r & Hs); [vm_compute; reflexivity|].
  eexists _, s', r. split; [exact Hr|exact Hs].
Defined.

Lemma device_caps_witness :
  0 <= dev_count Drives (limits (sy_ctl demo_running)) <= 8.
Proof.
  apply (device_caps 8 1 (fun _ => True) demo_running Drives).
  apply demo_running_reach. by repeat constructor.
Defined.


Lemma memory_within_host_witness :
  exists mc, bs_machine_config (vl_state (sy_loop demo_running)) = Some mc /\ mc_mem_size_mib mc <= 1024.
Proof.
  exists demo_machine. assert (Hm : bs_machine_config (vl_state (sy_loop demo_running)) = Some demo_machine)
    by (vm_compute; reflexivity).
  split; [exact Hm|].
  destruct (memory_within_host 8 1 demo_running) as [H _]; [apply demo_running_reach; by repeat constructor|].
  apply (H demo_machine Hm).
Defined.

(** The bound of [device_caps] is reached: two requests validated before either
    finishes leave nine accepted drives. *)
Lemma concurrent_puts_exceed_cap :
  exists s, reach 8 2 (fun _ => True) s /\ dev_count Drives (limits (sy_ctl s)) = 9.
Proof.
  set (es := concat ((fun id => whole id demo_put_drive) <$> seq 0 7) ++
    [Request demo_put_drive; Request demo_put_drive; Send 7; Send 8; Serve (Err (lit ""));
     Serve (Err (lit "")); Finish 7; Finish 8]).
  destruct (bounded_run 8 2 demo_init es) as [s|] eqn:Hs; [|vm_compute in Hs; done].
  exists s. split.
  - apply (reach_run 8 2 _ es demo_init); [|by apply Forall_true|done].
    apply (reach_init 8 2 _ (lit "demo") (lit "1.16.0") (lit "1.16.0") timeouts_from_spec 1024). lia.
  - vm_compute in Hs. simplify_eq. reflexivity.
Qed.

(** Validation and service of two [InstanceStart] requests can interleave so
    that both are served: the first VM is dropped. *)
Lemma two_starts_served :
  exists s, bounded_run 8 2 demo_init
    (whole 0 demo_put_boot_source ++ whole 1 (PutMachineConfig demo_machine) ++
     [Request (Action InstanceStart); Request (Action InstanceStart); Send 2; Send 3;
      Serve (Ok 1%nat); Serve (Ok 2%nat)]) = Some s /\
    vl_running (sy_loop s) = Some 2%nat /\ vl_dropped (sy_loop s) = [1%nat].
Proof. eexists. split; [vm_compute; reflexivity|]. split; vm_compute; reflexivity. Qed.

(** A PATCH is not checked against the host's memory. *)
Lemma patch_bypasses_host_cap :
  exists s mc, bounded_run 8 1 demo_init
    (whole 0 (PutMachineConfig demo_machine) ++
     whole 1 (PatchMachineConfig (mkPatch None (Some (mkMemSizeMib 4096)) None (Some true) None None))) = Some s /\
    bs_machine_config (vl_state (sy_loop s)) = Some mc /\
    host_ram_mib (limits (sy_ctl s)) < mc_mem_size_mib mc /\ mc_track_dirty_pages mc = false.
Proof.
  eexists _, _. split; [vm_compute; reflexivity|]. split; [vm_compute; reflexivity|].
  split; vm_compute; reflexivity.
Qed.

(** The drive configured last is the one kept. *)
Lemma last_drive_wins `{SerdeJson} c l d1 d2 env :
  let l1 := (serve c l (PutDrive d1) env).1.1.2 in
  bs_drive (vl_state (serve c l1 (PutDrive d2) env).1.1.2) = Some d2.
Proof. reflexivity. Qed.
