(* ===== verification/Api.v ===== *)
(** * Api: the HTTP surface

    Models [src/crates/api/src/handlers.rs], [error.rs] and the router of
    [server.rs].  A handler is a [task]: it runs to the point where it dispatches an
    action to the controller and goes on with the reply, so requests interleave with
    the steps of [Controller].  The web framework (matching of paths, extraction of
    parameters and JSON bodies, the body limit) is the class [Axum] with [JsonBodies]
    and their documented laws.  HEAD requests, which the framework answers from the GET
    handlers, and the tracing layer are left out. *)

From stdpp Require Import base numbers list option gmap strings.
From Stdlib Require Import ZArith Lia.
From S2P Require Import Prelude Text Schemas Controller.

Local Open Scope Z_scope.
Local Open Scope squib_scope.

(** ** Requests and responses *)

Inductive Method := MGet | MPut | MPatch | MDelete | MOther.

#[export] Instance Method_eq_dec : EqDecision Method.
Proof. solve_decision. Defined.

Record HttpRequest := mkRequest {
  rq_method : Method;
  rq_path : list Z;
  rq_uri : list Z;
  rq_headers : list (list Z * list Z);
  rq_body : list Z
}.

Record FaultMessage := mkFault { fault_message : list Z }.

Record VersionResponse := mkVersionResponse { vr_firecracker_version : list Z }.

Definition error_fault_message (e : ApiError) : list Z :=
  match e with
  | BadRequest s | PayloadTooLarge s | ApiInternal s => s
  | NotFound path => lit "No such resource: " ++ path
  | ApiTimeout class => lit "VMM action timed out: " ++ class
  end.

Definition bad (s : list Z) : ApiError := BadRequest s.

(** A route pattern: a literal path, or a prefix followed by one captured segment. *)
Inductive Pattern := Exact (path : list Z) | Capture (prefix : list Z).

Definition pattern_matches (p : Pattern) (path seg : list Z) : Prop :=
  match p with
  | Exact s => path = s /\ seg = []
  | Capture prefix => path = prefix ++ seg /\ seg <> [] /\ 47 ∉ seg
  end.

Definition FIRECRACKER_SERVER_HEADER : list Z := lit "Firecracker API".
Definition DEFAULT_MAX_PAYLOAD : Z := 51200.
Definition MIN_MAX_PAYLOAD : Z := 1024.
Definition MAX_MAX_PAYLOAD : Z := 1048576.

Record ServeOptions := mkServeOptions { so_socket_path : list Z; so_max_payload_size : Z }.

Definition ServeOptions_new (socket_path : list Z) : ServeOptions := mkServeOptions socket_path DEFAULT_MAX_PAYLOAD.

Definition with_max_payload_size (o : ServeOptions) (bytes : Z) : ServeOptions :=
  mkServeOptions (so_socket_path o) (Z.max MIN_MAX_PAYLOAD (Z.min bytes MAX_MAX_PAYLOAD)).

Section api.
Context `{J : SerdeJson}.

Inductive Body :=
  | NoBody
  | JsonBody (v : JsonValue)
  | InfoBody (i : InstanceInfo)
  | VersionBody (v : VersionResponse)
  | FaultBody (f : FaultMessage)
  | TextBody (bytes : list Z).

Record Response := mkResponse {
  rs_status : Z;
  rs_server : option (list Z);
  rs_body : Body
}.

(** [IntoResponse for ApiError]. *)
Definition error_response (e : ApiError) : Response :=
  mkResponse (error_status e) None (FaultBody (mkFault (error_fault_message e))).

(** ** Handlers as tasks *)

Inductive task (A : Type) : Type :=
  | Done (a : A)
  | Dispatch (action : ApiAction) (k : result ApiError ApiResponse -> task A).
Arguments Done {A}.
Arguments Dispatch {A}.

Fixpoint task_bind {A B} (c : task A) (f : A -> task B) : task B :=
  match c with
  | Done a => f a
  | Dispatch action k => Dispatch action (fun r => task_bind (k r) f)
  end.

(** [?] in an [async] function. *)
Definition try_bind {E A B} (c : task (result E A)) (f : A -> task (result E B)) : task (result E B) :=
  task_bind c (fun r => match r with Ok a => f a | Err e => Done (Err e) end).

Definition dispatch (action : ApiAction) : task (result ApiError ApiResponse) := Dispatch action Done.

(** [StatusCode::from_u16]. *)
Definition status_from_u16 (s : Z) : option Z := if (100 <=? s) && (s <=? 999) then Some s else None.

Definition finish (resp : ApiResponse) : Response :=
  match resp with
  | NoContent => mkResponse 204 None NoBody
  | Json v => mkResponse 200 None (JsonBody v)
  | Fault status msg => mkResponse (default 400 (status_from_u16 status)) None (FaultBody (mkFault msg))
  end.
End api.
Arguments Done {J A}.
Arguments Dispatch {J A}.

Notation "'let~' x := c 'in' k" := (try_bind c (fun x => k))
  (at level 10, x pattern, c at level 100, k at level 200) : squib_scope.

(** ** Read-only handlers *)

Section handlers.
Context `{J : SerdeJson}.
Implicit Types (snap : ControllerSnapshot).

Definition get_root snap : result ApiError InstanceInfo := Ok (instance_info snap).

Definition get_version snap : result ApiError VersionResponse := Ok (mkVersionResponse (firecracker_version snap)).

Definition get_vm_config snap : result ApiError JsonValue := Ok (vm_config snap).

Definition get_machine_config snap : result ApiError JsonValue :=
  Ok (default json_empty (json_get (vm_config snap) (lit "machine-config"))).

Definition get_balloon snap : result ApiError JsonValue :=
  Ok (default json_empty (json_get (vm_config snap) (lit "balloon"))).

Definition get_balloon_statistics snap : result ApiError JsonValue :=
  Ok (default json_empty (json_get (vm_config snap) (lit "balloon_statistics"))).

Definition get_mmds snap : result ApiError JsonValue :=
  Ok (default json_null (json_get (vm_config snap) (lit "mmds"))).

Definition get_hotplug_memory snap : result ApiError JsonValue :=
  Ok (default json_empty (json_get (vm_config snap) (lit "hotplug-memory"))).

(** ** Mutating handlers *)

Definition put_boot_source (raw : RawBootSourceConfig) : task (result ApiError Response) :=
  let~ cfg := Done (map_err bad (BootSourceConfig_try_from raw)) in
  let~ resp := dispatch (PutBootSource cfg) in
  Done (Ok (finish resp)).

Definition put_machine_config (raw : RawMachineConfig) : task (result ApiError Response) :=
  let~ cfg := Done (map_err bad (MachineConfig_try_from raw)) in
  let~ resp := dispatch (PutMachineConfig cfg) in
  Done (Ok (finish resp)).

Definition patch_machine_config (raw : RawMachineConfigPatch) : task (result ApiError Response) :=
  let~ cfg := Done (map_err bad (MachineConfigPatch_try_from raw)) in
  let~ resp := dispatch (PatchMachineConfig cfg) in
  Done (Ok (finish resp)).

Definition put_drive (id : list Z) (raw : RawDriveConfig) : task (result ApiError Response) :=
  if negb (bool_decide (rd_drive_id raw = id))
  then Done (Err (BadRequest (lit "Invalid drive: URL id and body drive_id must match")))
  else
    let~ cfg := Done (map_err bad (DriveConfig_try_from raw)) in
    let~ resp := dispatch (PutDrive cfg) in
    Done (Ok (finish resp)).

Definition patch_drive (id : list Z) (raw : RawDrivePatch) : task (result ApiError Response) :=
  if negb (bool_decide (rdp_drive_id raw = id))
  then Done (Err (BadRequest (lit "Invalid drive: URL id and body drive_id must match")))
  else
    let~ cfg := Done (map_err bad (DrivePatch_try_from raw)) in
    let~ resp := dispatch (PatchDrive cfg) in
    Done (Ok (finish resp)).

Definition delete_drive (id : list Z) : task (result ApiError Response) :=
  let~ parsed := Done (map_err bad (DriveId_new id)) in
  let~ resp := dispatch (DeleteDrive parsed) in
  Done (Ok (finish resp)).

Definition put_network (id : list Z) (raw : RawNetworkInterfaceConfig) : task (result ApiError Response) :=
  if negb (bool_decide (rn_iface_id raw = id))
  then Done (Err (BadRequest (lit "Invalid network-interface: URL id and body iface_id must match")))
  else
    let~ cfg := Done (map_err bad (NetworkInterfaceConfig_try_from raw)) in
    let~ resp := dispatch (PutNetwork cfg) in
    Done (Ok (finish resp)).

Definition patch_network (id : list Z) (raw : RawNetworkPatch) : task (result ApiError Response) :=
  if negb (bool_decide (rnp_iface_id raw = id))
  then Done (Err (BadRequest (lit "Invalid network-interface: URL id and body iface_id must match")))
  else
    let~ cfg := Done (map_err bad (NetworkPatch_try_from raw)) in
    let~ resp := dispatch (PatchNetwork cfg) in
    Done (Ok (finish resp)).

Definition delete_network (id : list Z) : task (result ApiError Response) :=
  let~ parsed := Done (map_err bad (IfaceId_new id)) in
  let~ resp := dispatch (DeleteNetwork parsed) in
  Done (Ok (finish resp)).

Definition put_vsock (raw : RawVsockConfig) : task (result ApiError Response) :=
  let~ cfg := Done (map_err bad (VsockConfig_try_from raw)) in
  let~ resp := dispatch (PutVsock cfg) in
  Done (Ok (finish resp)).

Definition put_mmds (value : JsonValue) : task (result ApiError Response) :=
  let~ resp := dispatch (PutMmds (mkMmdsContents value)) in
  Done (Ok (finish resp)).

Definition patch_mmds (value : JsonValue) : task (result ApiError Response) :=
  let~ resp := dispatch (PatchMmds (mkMmdsContents value)) in
  Done (Ok (finish resp)).

Definition put_mmds_config (raw : RawMmdsConfig) : task (result ApiError Response) :=
  let~ cfg := Done (map_err bad (MmdsConfig_try_from raw)) in
  let~ resp := dispatch (PutMmdsConfig cfg) in
  Done (Ok (finish resp)).

Definition put_balloon (raw : RawBalloonConfig) : task (result ApiError Response) :=
  let~ cfg := Done (map_err bad (BalloonConfig_try_from raw)) in
  let~ resp := dispatch (PutBalloon cfg) in
  Done (Ok (finish resp)).

Definition patch_balloon (raw : RawBalloonUpdate) : task (result ApiError Response) :=
  let~ cfg := Done (map_err bad (BalloonUpdate_try_from raw)) in
  let~ resp := dispatch (PatchBalloon cfg) in
  Done (Ok (finish resp)).

Definition patch_balloon_statistics (raw : RawBalloonStatsUpdate) : task (result ApiError Response) :=
  let~ cfg := Done (map_err bad (BalloonStatsUpdate_try_from raw)) in
  let~ resp := dispatch (PatchBalloonStats cfg) in
  Done (Ok (finish resp)).

Definition patch_balloon_hinting (id : list Z) : task (result ApiError Response) :=
  let~ parsed := Done (map_err bad (from_url_segment id)) in
  let~ resp := dispatch (PatchBalloonHinting parsed) in
  Done (Ok (finish resp)).

Definition put_entropy (raw : RawEntropyConfig) : task (result ApiError Response) :=
  let~ cfg := Done (map_err bad (EntropyConfig_try_from raw)) in
  let~ resp := dispatch (PutEntropy cfg) in
  Done (Ok (finish resp)).

Definition put_serial (raw : RawSerialConfig) : task (result ApiError Response) :=
  let~ cfg := Done (map_err bad (SerialConfig_try_from raw)) in
  let~ resp := dispatch (PutSerial cfg) in
  Done (Ok (finish resp)).

Definition put_pmem (id : list Z) (raw : RawPmemConfig) : task (result ApiError Response) :=
  if negb (bool_decide (rp_pmem_id raw = id))
  then Done (Err (BadRequest (lit "Invalid pmem: URL id and body pmem_id must match")))
  else
    let~ cfg := Done (map_err bad (PmemConfig_try_from raw)) in
    let~ resp := dispatch (PutPmem cfg) in
    Done (Ok (finish resp)).

Definition patch_pmem (id : list Z) (raw : RawPmemPatch) : task (result ApiError Response) :=
  if negb (bool_decide (rpp_pmem_id raw = id))
  then Done (Err (BadRequest (lit "Invalid pmem: URL id and body pmem_id must match")))
  else
    let~ cfg := Done (map_err bad (PmemPatch_try_from raw)) in
    let~ resp := dispatch (PatchPmem cfg) in
    Done (Ok (finish resp)).

Definition delete_pmem (id : list Z) : task (result ApiError Response) :=
  let~ parsed := Done (map_err bad (DriveId_new id)) in
  let~ resp := dispatch (DeletePmem parsed) in
  Done (Ok (finish resp)).

Definition put_hotplug_memory (raw : RawHotplugMemoryConfig) : task (result ApiError Response) :=
  let~ cfg := Done (map_err bad (HotplugMemoryConfig_try_from raw)) in
  let~ resp := dispatch (PutHotplugMemory cfg) in
  Done (Ok (finish resp)).

Definition patch_hotplug_memory (raw : RawHotplugMemoryUpdate) : task (result ApiError Response) :=
  let~ cfg := Done (map_err bad (HotplugMemoryUpdate_try_from raw)) in
  let~ resp := dispatch (PatchHotplugMemory cfg) in
  Done (Ok (finish resp)).

Definition put_cpu_config (raw : RawCpuConfig) : task (result ApiError Response) :=
  let~ cfg := Done (map_err bad (CpuConfig_try_from raw)) in
  let~ resp := dispatch (PutCpuConfig cfg) in
  Done (Ok (finish resp)).

Definition put_actions (raw : RawInstanceActionInfo) : task (result ApiError Response) :=
  let info := InstanceActionInfo_from raw in
  let~ resp := dispatch (Action (ai_action_type info)) in
  Done (Ok (finish resp)).

Definition patch_vm (raw : RawVmPatch) : task (result ApiError Response) :=
  let action := match rvp_state raw with
                | ToPaused => PatchVm ToPaused
                | ToResumed => PatchVm ToResumed
                end in
  let~ resp := dispatch action in
  Done (Ok (finish resp)).

Definition put_snapshot_create (raw : RawSnapshotCreateConfig) : task (result ApiError Response) :=
  let~ cfg := Done (map_err bad (SnapshotCreateConfig_try_from raw)) in
  let~ resp := dispatch (SnapshotCreate cfg) in
  Done (Ok (finish resp)).

Definition put_snapshot_load (raw : RawSnapshotLoadConfig) : task (result ApiError Response) :=
  let~ cfg := Done (map_err bad (SnapshotLoadConfig_try_from raw)) in
  let~ resp := dispatch (SnapshotLoad cfg) in
  Done (Ok (finish resp)).

Definition put_logger (raw : RawLoggerConfig) : task (result ApiError Response) :=
  let~ cfg := Done (map_err bad (LoggerConfig_try_from raw)) in
  let~ resp := dispatch (PutLogger cfg) in
  Done (Ok (finish resp)).

Definition put_metrics (raw : RawMetricsConfig) : task (result ApiError Response) :=
  let~ cfg := Done (map_err bad (MetricsConfig_try_from raw)) in
  let~ resp := dispatch (PutMetrics cfg) in
  Done (Ok (finish resp)).

(** Unmatched paths. *)
Definition fallback (req : HttpRequest) : ApiError := NotFound (rq_uri req).
End handlers.

(** ** The router *)

(** The framework: matching of a path against the registered patterns, the [Path]
    extractor, its answer to a method no handler is registered for, and the layer that
    refuses oversized bodies. *)
Class Axum `{J : SerdeJson} := {
  ax_match : list Pattern -> list Z -> option (nat * list Z);
  ax_path_param : list Z -> result Response (list Z);
  ax_method_not_allowed : Response;
  ax_body_limit : Z -> HttpRequest -> option Response
}.

(** The [Json] extractor for one type, reading at most the given number of bytes. *)
Class FromJson `{J : SerdeJson} (T : Type) := json_body : Z -> HttpRequest -> result Response T.

Class JsonBodies `{J : SerdeJson} := {
  json_boot_source :: FromJson RawBootSourceConfig;
  json_machine :: FromJson RawMachineConfig;
  json_machine_patch :: FromJson RawMachineConfigPatch;
  json_drive :: FromJson RawDriveConfig;
  json_drive_patch :: FromJson RawDrivePatch;
  json_network :: FromJson RawNetworkInterfaceConfig;
  json_network_patch :: FromJson RawNetworkPatch;
  json_vsock :: FromJson RawVsockConfig;
  json_value :: FromJson JsonValue;
  json_mmds_config :: FromJson RawMmdsConfig;
  json_balloon :: FromJson RawBalloonConfig;
  json_balloon_update :: FromJson RawBalloonUpdate;
  json_balloon_stats :: FromJson RawBalloonStatsUpdate;
  json_entropy :: FromJson RawEntropyConfig;
  json_serial :: FromJson RawSerialConfig;
  json_pmem :: FromJson RawPmemConfig;
  json_pmem_patch :: FromJson RawPmemPatch;
  json_hotplug :: FromJson RawHotplugMemoryConfig;
  json_hotplug_update :: FromJson RawHotplugMemoryUpdate;
  json_cpu :: FromJson RawCpuConfig;
  json_action :: FromJson RawInstanceActionInfo;
  json_vm :: FromJson RawVmPatch;
  json_snapshot_create :: FromJson RawSnapshotCreateConfig;
  json_snapshot_load :: FromJson RawSnapshotLoadConfig;
  json_logger :: FromJson RawLoggerConfig;
  json_metrics :: FromJson RawMetricsConfig
}.

Section router.
Context `{J : SerdeJson, !Axum, !JsonBodies}.

(** [IntoResponse for Result]. *)
Definition into_response {A} (f : A -> Response) (r : result ApiError A) : Response :=
  match r with Ok a => f a | Err e => error_response e end.

(** A handler with its extractors: it sees the snapshot, the request and the captured
    segment. *)
Definition Handler : Type := ControllerSnapshot -> HttpRequest -> list Z -> task Response.

Definition reads {A} (body : A -> Body) (h : ControllerSnapshot -> result ApiError A) : Handler :=
  fun snap _ _ => Done (into_response (fun a => mkResponse 200 None (body a)) (h snap)).

Definition respond (t : task (result ApiError Response)) : task Response :=
  task_bind t (fun r => Done (into_response id r)).

Definition takes_json {T} `{!FromJson T} (max : Z) (h : T -> task (result ApiError Response)) : Handler :=
  fun _ req _ => match json_body max req with Err r => Done r | Ok raw => respond (h raw) end.

Definition takes_id (h : list Z -> task (result ApiError Response)) : Handler :=
  fun _ _ seg => match ax_path_param seg with Err r => Done r | Ok id => respond (h id) end.

Definition takes_id_json {T} `{!FromJson T} (max : Z) (h : list Z -> T -> task (result ApiError Response)) : Handler :=
  fun _ req seg =>
    match ax_path_param seg with
    | Err r => Done r
    | Ok id => match json_body max req with Err r => Done r | Ok raw => respond (h id raw) end
    end.

Definition routes (max : Z) : list (Pattern * list (Method * Handler)) :=
  [ (Exact (lit "/"), [(MGet, reads InfoBody get_root)]);
    (Exact (lit "/version"), [(MGet, reads VersionBody get_version)]);
    (Exact (lit "/vm/config"), [(MGet, reads JsonBody get_vm_config)]);
    (Exact (lit "/vm"), [(MPatch, takes_json max patch_vm)]);
    (Exact (lit "/machine-config"),
      [(MGet, reads JsonBody get_machine_config); (MPut, takes_json max put_machine_config);
       (MPatch, takes_json max patch_machine_config)]);
    (Exact (lit "/boot-source"), [(MPut, takes_json max put_boot_source)]);
    (Capture (lit "/drives/"),
      [(MPut, takes_id_json max put_drive); (MPatch, takes_id_json max patch_drive); (MDelete, takes_id delete_drive)]);
    (Capture (lit "/network-interfaces/"),
      [(MPut, takes_id_json max put_network); (MPatch, takes_id_json max patch_network);
       (MDelete, takes_id delete_network)]);
    (Exact (lit "/vsock"), [(MPut, takes_json max put_vsock)]);
    (Exact (lit "/mmds"),
      [(MGet, reads JsonBody get_mmds); (MPut, takes_json max put_mmds); (MPatch, takes_json max patch_mmds)]);
    (Exact (lit "/mmds/config"), [(MPut, takes_json max put_mmds_config)]);
    (Exact (lit "/balloon"),
      [(MGet, reads JsonBody get_balloon); (MPut, takes_json max put_balloon); (MPatch, takes_json max patch_balloon)]);
    (Exact (lit "/balloon/statistics"),
      [(MGet, reads JsonBody get_balloon_statistics); (MPatch, takes_json max patch_balloon_statistics)]);
    (Capture (lit "/balloon/hinting/"), [(MPatch, takes_id patch_balloon_hinting)]);
    (Exact (lit "/entropy"), [(MPut, takes_json max put_entropy)]);
    (Exact (lit "/serial"), [(MPut, takes_json max put_serial)]);
    (Capture (lit "/pmem/"),
      [(MPut, takes_id_json max put_pmem); (MPatch, takes_id_json max patch_pmem); (MDelete, takes_id delete_pmem)]);
    (Exact (lit "/hotplug/memory"),
      [(MGet, reads JsonBody get_hotplug_memory); (MPut, takes_json max put_hotplug_memory);
       (MPatch, takes_json max patch_hotplug_memory)]);
    (Exact (lit "/cpu-config"), [(MPut, takes_json max put_cpu_config)]);
    (Exact (lit "/actions"), [(MPut, takes_json max put_actions)]);
    (Exact (lit "/snapshot/create"), [(MPut, takes_json max put_snapshot_create)]);
    (Exact (lit "/snapshot/load"), [(MPut, takes_json max put_snapshot_load)]);
    (Exact (lit "/logger"), [(MPut, takes_json max put_logger)]);
    (Exact (lit "/metrics"), [(MPut, takes_json max put_metrics)]) ].

Definition find_method (m : Method) (ms : list (Method * Handler)) : option Handler :=
  snd <$> (snd <$> list_find (fun h => h.1 = m) ms).

Definition not_found (req : HttpRequest) : Response := error_response (fallback req).

(** The routes with their fallback. *)
Definition route (max : Z) (snap : ControllerSnapshot) (req : HttpRequest) : task Response :=
  match ax_match (map fst (routes max)) (rq_path req) with
  | Some (i, seg) =>
      match routes max !! i with
      | Some (_, ms) =>
          match find_method (rq_method req) ms with
          | Some h => h snap req seg
          | None => Done ax_method_not_allowed
          end
      | None => Done (not_found req)
      end
  | None => Done (not_found req)
  end.

Definition set_server (r : Response) : Response :=
  mkResponse (rs_status r) (Some FIRECRACKER_SERVER_HEADER) (rs_body r).

(** The layers, the last one outermost: the body limit is outside the server header. *)
Definition router (max : Z) (snap : ControllerSnapshot) (req : HttpRequest) : task Response :=
  match ax_body_limit max req with
  | Some refused => Done refused
  | None => task_bind (route max snap req) (fun r => Done (set_server r))
  end.
End router.

(** ** What the framework promises *)

Class AxumLaws `{J : SerdeJson} `{!Axum} : Prop := {
  ax_match_some pats path i seg :
    ax_match pats path = Some (i, seg) -> exists p, pats !! i = Some p /\ pattern_matches p path seg;
  ax_match_none pats path :
    ax_match pats path = None -> forall p seg, p ∈ pats -> ~ pattern_matches p path seg;
  ax_path_reject seg r : ax_path_param seg = Err r -> rs_status r = 400 \/ rs_status r = 500;
  ax_not_allowed_status : rs_status ax_method_not_allowed = 405;
  ax_limit_status max req r : ax_body_limit max req = Some r -> rs_status r = 413
}.

(** A body is at most the limit and has the declared types; a rejection is one of the
    documented ones. *)
Class FromJsonLaws `{J : SerdeJson} (T : Type) `{!FromJson T} (P : T -> Prop) : Prop := {
  json_body_ok max req raw : json_body max req = Ok raw -> P raw /\ zlen (rq_body req) <= max;
  json_body_reject max req r : json_body max req = Err r -> rs_status r ∈ [400; 413; 415; 422]
}.

Class JsonBodiesLaws `{J : SerdeJson} `{!JsonBodies} : Prop := {
  law_boot_source :: FromJsonLaws RawBootSourceConfig typed;
  law_machine :: FromJsonLaws RawMachineConfig typed;
  law_machine_patch :: FromJsonLaws RawMachineConfigPatch typed;
  law_drive :: FromJsonLaws RawDriveConfig typed;
  law_drive_patch :: FromJsonLaws RawDrivePatch typed;
  law_network :: FromJsonLaws RawNetworkInterfaceConfig typed;
  law_network_patch :: FromJsonLaws RawNetworkPatch typed;
  law_vsock :: FromJsonLaws RawVsockConfig typed;
  law_value :: FromJsonLaws JsonValue (fun _ => True);
  law_mmds_config :: FromJsonLaws RawMmdsConfig typed;
  law_balloon :: FromJsonLaws RawBalloonConfig typed;
  law_balloon_update :: FromJsonLaws RawBalloonUpdate typed;
  law_balloon_stats :: FromJsonLaws RawBalloonStatsUpdate typed;
  law_entropy :: FromJsonLaws RawEntropyConfig typed;
  law_serial :: FromJsonLaws RawSerialConfig typed;
  law_pmem :: FromJsonLaws RawPmemConfig typed;
  law_pmem_patch :: FromJsonLaws RawPmemPatch typed;
  law_hotplug :: FromJsonLaws RawHotplugMemoryConfig typed;
  law_hotplug_update :: FromJsonLaws RawHotplugMemoryUpdate typed;
  law_cpu :: FromJsonLaws RawCpuConfig typed;
  law_action :: FromJsonLaws RawInstanceActionInfo (fun _ => True);
  law_vm :: FromJsonLaws RawVmPatch (fun _ => True);
  law_snapshot_create :: FromJsonLaws RawSnapshotCreateConfig typed;
  law_snapshot_load :: FromJsonLaws RawSnapshotLoadConfig typed;
  law_logger :: FromJsonLaws RawLoggerConfig typed;
  law_metrics :: FromJsonLaws RawMetricsConfig typed
}.

(** ** Requests *)

Section contract.
Context `{J : SerdeJson}.

(** An action whose payload passed its validation. *)
Definition action_ok (a : ApiAction) : Prop :=
  match a with
  | PutBootSource c => valid c
  | PutDrive c => valid c
  | PatchDrive c => valid c
  | DeleteDrive i => ident_ok (drive_id_str i)
  | PutNetwork c => valid c
  | PatchNetwork c => valid c
  | DeleteNetwork i => ident_ok (iface_id_str i)
  | PutVsock c => valid c
  | PutMmdsConfig c => valid c
  | PutBalloon c => valid c
  | PatchBalloon c => valid c
  | PatchBalloonStats c => valid c
  | PutEntropy c => valid c
  | PutSerial c => valid c
  | PutPmem c => valid c
  | PatchPmem c => valid c
  | DeletePmem i => ident_ok (drive_id_str i)
  | PutHotplugMemory c => valid c
  | PatchHotplugMemory c => valid c
  | PutCpuConfig c => valid c
  | PutMachineConfig c => valid c
  | PatchMachineConfig c => valid c
  | PutLogger c => valid c
  | PutMetrics c => valid c
  | SnapshotCreate c => valid c
  | SnapshotLoad c => valid c
  | PutMmds _ | PatchMmds _ | PatchBalloonHinting _ | Action _ | PatchVm _ => True
  | ActionShutdown => False
  end.

(** A task that answers at once, or dispatches one valid action and answers with its
    reply. *)
Inductive one_action (fin : Response -> Prop) (out : Response -> Response) : task Response -> Prop :=
| one_done r : fin r -> one_action fin out (Done r)
| one_dispatch a k :
    action_ok a -> (forall reply, k reply = Done (out (into_response finish reply))) ->
    one_action fin out (Dispatch a k).

Lemma one_action_map fin fin' (f : Response -> Response) t :
  (forall r, fin r -> fin' (f r)) -> one_action fin id t ->
  one_action fin' f (task_bind t (fun r => Done (f r))).
Proof.
  intros Hf [r Hr|a k Ha Hk]; cbn; [constructor; by apply Hf|]. apply one_dispatch; [done|].
  intros reply. by rewrite Hk.
Qed.

Lemma one_action_mono (fin fin' : Response -> Prop) out t :
  (forall r, fin r -> fin' r) -> one_action fin out t -> one_action fin' out t.
Proof. intros Hf [r Hr|a k Ha Hk]; [constructor; by apply Hf|by apply one_dispatch]. Qed.

(** The end of every mutating handler. *)
Lemma dispatch_one fin a :
  action_ok a -> one_action fin id (respond (let~ resp := dispatch a in Done (Ok (finish resp)))).
Proof. intros Ha. apply one_dispatch; [done|]. intros [resp|e]; done. Qed.

Definition is_400 (r : Response) : Prop := rs_status r = 400.

(** A handler that validates its input and dispatches. *)
Lemma parse_one {A I} (parse : A -> result (list Z) I) (mk : I -> ApiAction) (x : A) :
  (forall i, parse x = Ok i -> action_ok (mk i)) ->
  one_action is_400 id (respond (let~ i := Done (map_err bad (parse x)) in
    let~ resp := dispatch (mk i) in Done (Ok (finish resp)))).
Proof.
  intros Hmk. destruct (parse x) as [i|e]; cbn [map_err]; [|by apply one_done].
  apply (dispatch_one _ (mk i)). by apply Hmk.
Qed.
End contract.

Section contract_routes.
Context `{J : SerdeJson, !Axum, !JsonBodies, !AxumLaws, !JsonBodiesLaws}.

(** The statuses a request can be answered with before anything is dispatched. *)
Definition refusals : list Z := [400; 405; 413; 415; 422; 500].

(** What a registered handler does: a GET answers 200 from the snapshot, the others
    refuse or dispatch one valid action, and a body they read is within the limit. *)
Definition handler_ok (max : Z) (m : Method) (h : Handler) : Prop :=
  if decide (m = MGet) then forall snap req seg, exists b, h snap req seg = Done (mkResponse 200 None b)
  else forall snap req seg, one_action (fun r => rs_status r ∈ refusals) id (h snap req seg).

Lemma is_400_refusal r : is_400 r -> rs_status r ∈ refusals.
Proof. intros ->. by left. Qed.

Lemma json_reject_refusal {T} `{!FromJson T} P `{!FromJsonLaws T P} max req r :
  json_body max req = Err r -> rs_status r ∈ refusals.
Proof. intros Hr%json_body_reject. unfold refusals. rewrite !elem_of_cons in *. tauto. Qed.

Lemma path_reject_refusal seg r : ax_path_param seg = Err r -> rs_status r ∈ refusals.
Proof. intros [->| ->]%ax_path_reject; unfold refusals; rewrite !elem_of_cons; tauto. Qed.

Lemma reads_ok max {A} (body : A -> Body) (h : ControllerSnapshot -> result ApiError A) :
  (forall snap, exists a, h snap = Ok a) -> handler_ok max MGet (reads body h).
Proof. intros Hh snap req seg. destruct (Hh snap) as [a Ha]. exists (body a). unfold reads. by rewrite Ha. Qed.

Lemma takes_json_ok max m {T} `{!FromJson T} P `{!FromJsonLaws T P} (h : T -> task (result ApiError Response)) :
  m <> MGet -> (forall raw, P raw -> one_action is_400 id (respond (h raw))) -> handler_ok max m (takes_json max h).
Proof.
  intros Hm Hh. unfold handler_ok. rewrite decide_False by done. intros snap req seg. unfold takes_json.
  destruct (json_body max req) as [raw|r] eqn:Hb.
  - apply (json_body_ok (P := P)) in Hb as [Hp _]. eapply one_action_mono; [exact is_400_refusal|]. by apply Hh.
  - apply one_done. by apply (json_reject_refusal P) in Hb.
Qed.

Lemma takes_id_ok max m (h : list Z -> task (result ApiError Response)) :
  m <> MGet -> (forall id', one_action is_400 id (respond (h id'))) -> handler_ok max m (takes_id h).
Proof.
  intros Hm Hh. unfold handler_ok. rewrite decide_False by done. intros snap req seg. unfold takes_id.
  destruct (ax_path_param seg) as [i|r] eqn:Hp.
  - eapply one_action_mono; [exact is_400_refusal|]. apply Hh.
  - apply one_done. by apply path_reject_refusal in Hp.
Qed.

Lemma takes_id_json_ok max m {T} `{!FromJson T} P `{!FromJsonLaws T P} (h : list Z -> T -> task (result ApiError Response)) :
  m <> MGet -> (forall id' raw, P raw -> one_action is_400 id (respond (h id' raw))) ->
  handler_ok max m (takes_id_json max h).
Proof.
  intros Hm Hh. unfold handler_ok. rewrite decide_False by done. intros snap req seg. unfold takes_id_json.
  destruct (ax_path_param seg) as [i|r] eqn:Hp; [|apply one_done; by apply path_reject_refusal in Hp].
  destruct (json_body max req) as [raw|r] eqn:Hb.
  - apply (json_body_ok (P := P)) in Hb as [Hpr _]. eapply one_action_mono; [exact is_400_refusal|]. by apply Hh.
  - apply one_done. by apply (json_reject_refusal P) in Hb.
Qed.

(** A handler that compares the id of the URL with the body first. *)
Lemma matched_one {A I} (parse : A -> result (list Z) I) (mk : I -> ApiAction) (x : A) b msg :
  (forall i, parse x = Ok i -> action_ok (mk i)) ->
  one_action is_400 id (respond (if negb b then Done (Err (BadRequest msg)) else
    let~ i := Done (map_err bad (parse x)) in
    let~ resp := dispatch (mk i) in Done (Ok (finish resp)))).
Proof. intros Hmk. destruct b; cbn [negb]; [by apply parse_one|by apply one_done]. Qed.

Ltac route_ok := repeat first [apply List.Forall_nil | apply Forall_cons_2]; cbn [fst snd];
  first
    [ by apply reads_ok; eauto
    | apply (takes_json_ok _ _ typed); [done|]; intros raw Hr; apply parse_one; intros c Hc; exact (conv_valid raw c Hr Hc)
    | apply (takes_json_ok _ _ (fun _ => True)); [done|]; intros raw _;
      first [by apply dispatch_one | unfold patch_vm; destruct (rvp_state raw); by apply dispatch_one]
    | apply (takes_id_json_ok _ _ typed); [done|]; intros i raw Hr; apply matched_one; intros c Hc; exact (conv_valid raw c Hr Hc)
    | apply takes_id_ok; [done|]; intros i; apply parse_one;
      first [by intros ? [-> ?]%DriveId_new_iff | by intros ? [-> ?]%IfaceId_new_iff | done] ].

Lemma routes_ok max :
  Forall (fun r => Forall (fun mh => handler_ok max mh.1 mh.2) r.2) (routes max).
Proof. unfold routes. repeat (apply Forall_cons_2; [route_ok|]). apply List.Forall_nil. Qed.

(** *** Routing *)

(** The part of a path up to its last slash, and the rest. *)
Fixpoint split_slash (s : list Z) : option (list Z * list Z) :=
  match s with
  | [] => None
  | c :: s' =>
      match split_slash s' with
      | Some (p, r) => Some (c :: p, r)
      | None => if c =? 47 then Some ([c], s') else None
      end
  end.

Lemma split_slash_none s : 47 ∉ s -> split_slash s = None.
Proof.
  induction s as [|c s IH]; intros Hs; [done|]. apply not_elem_of_cons in Hs as [Hc Hs]. cbn.
  rewrite IH by done. by rewrite (proj2 (Z.eqb_neq c 47)) by congruence.
Qed.

Lemma split_slash_app pre seg : 47 ∉ seg -> split_slash ((pre ++ [47]) ++ seg) = Some (pre ++ [47], seg).
Proof.
  intros Hs. induction pre as [|c pre IH]; cbn [app split_slash].
  - by rewrite split_slash_none.
  - by rewrite IH.
Qed.

(** A capture ends in a slash. *)
Definition pattern_wf (p : Pattern) : bool :=
  match p with Exact _ => true | Capture prefix => bool_decide (last prefix = Some 47) end.

(** No path matches both. *)
Definition pattern_disjoint (p q : Pattern) : bool :=
  match p, q with
  | Exact a, Exact b => negb (bool_decide (a = b))
  | Capture a, Capture b => negb (bool_decide (a = b))
  | Exact a, Capture b | Capture b, Exact a =>
      match split_slash a with
      | Some (pre, seg) => negb (bool_decide (pre = b)) || bool_decide (seg = [])
      | None => true
      end
  end.

Lemma capture_split prefix path seg :
  pattern_wf (Capture prefix) = true -> pattern_matches (Capture prefix) path seg -> split_slash path = Some (prefix, seg).
Proof.
  cbn. intros Hl%bool_decide_eq_true (-> & _ & Hs). apply last_Some in Hl as [pre ->]. by apply split_slash_app.
Qed.

Lemma pattern_disjoint_ok p q path s s' :
  pattern_wf p = true -> pattern_wf q = true -> pattern_disjoint p q = true ->
  pattern_matches p path s -> pattern_matches q path s' -> False.
Proof.
  intros Hp Hq Hd Mp Mq. destruct p as [a|a], q as [b|b].
  - destruct Mp as [-> _], Mq as [-> _]. cbn in Hd. by rewrite bool_decide_true in Hd.
  - destruct Mp as [-> _]. pose proof (capture_split _ _ _ Hq Mq) as E. cbn in Hd. rewrite E in Hd.
    destruct Mq as (_ & Hne & _). rewrite bool_decide_true, bool_decide_false in Hd by done. done.
  - destruct Mq as [-> _]. pose proof (capture_split _ _ _ Hp Mp) as E. cbn in Hd. rewrite E in Hd.
    destruct Mp as (_ & Hne & _). rewrite bool_decide_true, bool_decide_false in Hd by done. done.
  - pose proof (capture_split _ _ _ Hp Mp) as E. rewrite (capture_split _ _ _ Hq Mq) in E. injection E as -> _.
    cbn in Hd. by rewrite bool_decide_true in Hd.
Qed.

Lemma pattern_seg_unique p path s s' : pattern_matches p path s -> pattern_matches p path s' -> s = s'.
Proof.
  destruct p as [a|a]; cbn; [intros [_ ->] [_ ->]; done|]. intros (-> & _) (E & _). by apply (inj (app a)) in E.
Qed.

(** Every pattern is well formed and disjoint from the later ones. *)
Fixpoint patterns_disjoint (ps : list Pattern) : bool :=
  match ps with
  | [] => true
  | p :: ps' => pattern_wf p && forallb (pattern_disjoint p) ps' && patterns_disjoint ps'
  end.

Lemma routes_disjoint max : patterns_disjoint (map fst (routes max)) = true.
Proof. vm_compute. reflexivity. Qed.

Lemma patterns_unique ps i j p q path s s' :
  patterns_disjoint ps = true -> ps !! i = Some p -> ps !! j = Some q ->
  pattern_matches p path s -> pattern_matches q path s' -> i = j.
Proof.
  assert (Hwf : forall ps k p, patterns_disjoint ps = true -> ps !! k = Some p -> pattern_wf p = true).
  { clear. induction ps as [|x ps IH]; intros k p H Hk; [done|]. cbn in H.
    apply andb_true_iff in H as [H Hr]. apply andb_true_iff in H as [H _]. destruct k; cbn in Hk; [by injection Hk as <-|].
    by eapply IH. }
  revert i j. induction ps as [|x ps IH]; intros i j Hd Hi Hj Mp Mq; [done|].
  pose proof (Hwf _ _ _ Hd Hi) as Wp. pose proof (Hwf _ _ _ Hd Hj) as Wq.
  cbn in Hd. apply andb_true_iff in Hd as [Hd Hr]. apply andb_true_iff in Hd as [_ Hd]. rewrite forallb_forall in Hd.
  destruct i as [|i], j as [|j]; cbn in Hi, Hj; [done| | |f_equal; by eapply IH].
  - injection Hi as ->. exfalso. eapply (pattern_disjoint_ok p q); try done. apply Hd.
    by apply list_elem_of_In, list_elem_of_lookup_2 with j.
  - injection Hj as ->. exfalso. eapply (pattern_disjoint_ok q p); try done. apply Hd.
    by apply list_elem_of_In, list_elem_of_lookup_2 with i.
Qed.
End contract_routes.

(** ** The server: requests in flight together with the controller *)

Section server.
Context `{J : SerdeJson}.

(** Run a task until it answers or waits for a reply of the controller.  A rejected
    action is answered at once. *)
Fixpoint run_to_wait {A} (capacity : nat) (s : System) (t : task A)
  : System * (A + nat * (result ApiError ApiResponse -> task A)) :=
  match t with
  | Done a => (s, inl a)
  | Dispatch action k =>
      match sys_step capacity s (Request action) with
      | Some (s', (_, reply) :: _) => run_to_wait capacity s' (k reply)
      | Some (s', []) => (s', inr (sy_next s, k))
      | None => (s, inr (sy_next s, k))
      end
  end.

Record Server := mkServer {
  sv_sys : System;
  sv_tasks : gmap nat (result ApiError ApiResponse -> task Response)
}.

Inductive ApiEvent :=
  | Arrive (req : HttpRequest)
  | Stop
  | Inner (e : Event).

(** The reply for client [id] arrived. *)
Definition resume (capacity : nat) (sv : Server) (id : nat) (reply : result ApiError ApiResponse)
  : Server * list (nat * Response) :=
  match sv_tasks sv !! id with
  | None => (sv, [])
  | Some k =>
      match run_to_wait capacity (sv_sys sv) (k reply) with
      | (s, inl r) => (mkServer s (delete id (sv_tasks sv)), [(id, r)])
      | (s, inr (id', k')) => (mkServer s (<[id' := k']> (delete id (sv_tasks sv))), [])
      end
  end.

Fixpoint resume_all (capacity : nat) (sv : Server) (replies : list Reply) : Server * list (nat * Response) :=
  match replies with
  | [] => (sv, [])
  | (id, reply) :: rest =>
      let (sv1, out1) := resume capacity sv id reply in
      let (sv2, out2) := resume_all capacity sv1 rest in
      (sv2, out1 ++ out2)
  end.

(** One event: a request arrives, the owner of the process asks the loop to shut down,
    or the controller moves. *)
Definition api_step `{!Axum, !JsonBodies} (capacity : nat) (max : Z) (sv : Server) (e : ApiEvent)
  : option (Server * list (nat * Response)) :=
  match e with
  | Arrive req =>
      let s := sv_sys sv in
      Some match run_to_wait capacity s (router max (snapshot (sy_ctl s)) req) with
           | (s', inl r) => (mkServer s' (sv_tasks sv), [(sy_next s, r)])
           | (s', inr (id, k)) => (mkServer s' (<[id := k]> (sv_tasks sv)), [])
           end
  | Stop =>
      match sys_step capacity (sv_sys sv) (Request ActionShutdown) with
      | Some (s', _) => Some (mkServer s' (sv_tasks sv), [])
      | None => None
      end
  | Inner (Request _) => None
  | Inner e =>
      match sys_step capacity (sv_sys sv) e with
      | Some (s', replies) => Some (resume_all capacity (mkServer s' (sv_tasks sv)) replies)
      | None => None
      end
  end.

Definition server_init (id fc vmm : list Z) (t : TimeoutTable) (lim : LimitsState) : Server :=
  mkServer (sys_init id fc vmm t lim) ∅.

Inductive api_reach `{!Axum, !JsonBodies} (capacity : nat) (max : Z) : Server -> Prop :=
| api_start id fc vmm t lim : api_reach capacity max (server_init id fc vmm t lim)
| api_next sv e sv' out :
    api_reach capacity max sv -> api_step capacity max sv e = Some (sv', out) -> api_reach capacity max sv'.

(** A payload the VMM loop may see. *)
Definition payload_ok (a : ApiAction) : Prop := action_ok a \/ a = ActionShutdown.

(** The machine configuration the loop keeps: a PATCH can replace the template by an
    unchecked one. *)
Definition machine_ok (c : MachineConfig) : Prop :=
  1 <= mc_vcpu_count c <= MAX_VCPU_COUNT /\ 1 <= mc_mem_size_mib c < 2 ^ 64 /\ mc_smt c = false /\
  opt_ok (text_ok 16) (mc_huge_pages c).

Definition boot_ok (b : BootState) : Prop :=
  opt_ok valid (bs_boot_source b) /\ opt_ok machine_ok (bs_machine_config b) /\ opt_ok valid (bs_drive b) /\
  opt_ok valid (bs_net b) /\ opt_ok valid (bs_vsock b).

Record system_ok (s : System) : Prop := mkSysOk {
  so_boot : boot_ok (vl_state (sy_loop s));
  so_queue : forall id a, In (id, a) (sy_queue s) -> payload_ok a;
  so_sending : forall id a, sy_clients s !! id = Some (Sending a) -> payload_ok a;
  so_config : vm_config (snapshot (sy_ctl s)) = json_empty
}.

Lemma patch_machine_ok c p : machine_ok c -> valid p -> machine_ok (patch_machine c p).
Proof.
  unfold machine_ok, mc_mem_size_mib. cbn. intros (Hv & Hm & Hs & Hh) (Pv & Pm & Ps). split_and!; try done.
  - destruct (mp_vcpu_count p); cbn in *; lia.
  - destruct (mp_vcpu_count p); cbn in *; lia.
  - destruct (mp_mem_size_mib p); cbn in *; lia.
  - destruct (mp_mem_size_mib p); cbn in *; lia.
Qed.

Lemma serve_boot_ok c l a env : boot_ok (vl_state l) -> payload_ok a -> boot_ok (vl_state (serve c l a env).1.1.2).
Proof.
  intros (Hb & Hm & Hd & Hn & Hv) [Ha| ->]; [|done].
  destruct_action a; cbn [serve];
    try (split; [|split; [|split; [|split]]]; first [exact Ha|exact Hb|exact Hm|exact Hd|exact Hn|exact Hv]).
  - destruct Ha as (Hv1 & Hm1 & Hs1 & _ & Hh1). do 2 (split; [done|]). done.
  - destruct (bs_machine_config (vl_state l)) as [mc|] eqn:Em; cbn; unfold boot_ok; cbn; [|by rewrite Em].
    split; [done|]. split; [|done]. by apply patch_machine_ok.
  - destruct (start_microvm (vl_state l) env); done.
Qed.

Lemma serve_vm_config c l a env : vm_config (snapshot (serve c l a env).1.1.1) = vm_config (snapshot c).
Proof.
  destruct_action a; cbn [serve]; try done;
    [destruct (bs_machine_config _)|destruct (start_microvm _ _)]; done.
Qed.

Lemma change_system_ok s s' : change payload_ok s s' -> system_ok s -> system_ok s'.
Proof.
  destruct 1 as [|a Hw Ha|id a Hid Hal|id a q env Hq Hal|id c class o Hid Hk]; intros [Sb Sq Ss Sc]; [done|..].
  - constructor; cbn; try done. intros id a'. destruct (decide (id = sy_next s)) as [->|].
    + rewrite lookup_insert_eq. by intros [= <-].
    + rewrite lookup_insert_ne by congruence. apply Ss.
  - constructor; cbn; try done.
    + intros i b [H|[[= <- <-]|[]]]%in_app_or; [by apply (Sq i)|by apply (Ss id)].
    + intros i b. destruct (decide (i = id)) as [->|]; [by rewrite lookup_insert_eq|].
      rewrite lookup_insert_ne by congruence. apply Ss.
  - rewrite after_serve_proj. assert (Hp : payload_ok a) by (apply (Sq id); rewrite Hq; by left).
    constructor; cbn.
    + by apply serve_boot_ok.
    + intros i b Hi. apply (Sq i). rewrite Hq. destruct (serve _ _ _ _).2; [by right|done].
    + intros i b. rewrite answer_lookup. destruct (decide (i = id)) as [->|]; [|apply Ss].
      destruct (sy_clients s !! id) as [[]|] eqn:E; try done. intros [= ->]. by apply (Ss id).
    + by rewrite serve_vm_config.
  - constructor; [by destruct o as [[]| |]|done| |by rewrite leave_snapshot].
    intros i b. cbn. intros [_ H]%lookup_delete_Some. by apply (Ss i).
Qed.

(** A step of the controller that is not a new request removes the clients it replies
    to, and no others. *)
Lemma sys_step_replies capacity s e s' replies :
  (forall a, e <> Request a) -> sys_step capacity s e = Some (s', replies) ->
  (replies = [] /\ dom (sy_clients s') = dom (sy_clients s)) \/
  exists id r, replies = [(id, r)] /\ id ∈ dom (sy_clients s) /\ sy_clients s' = delete id (sy_clients s).
Proof.
  intros Hne H. destruct e as [a|id|env|id|id]; cbn [sys_step] in H; [by destruct (Hne a)|..].
  - destruct (sy_clients s !! id) as [[a|class k|class k r]|] eqn:Hc; try done. destruct (sy_alive s).
    + destruct (Nat.ltb _ _); [|done]. injection H as <- <-. left. split; [done|]. cbn. apply dom_insert_lookup_L. by eexists.
    + injection H as <- <-. right. eexists _, _. split; [done|]. split; [by apply elem_of_dom|done].
  - destruct (sy_queue s) as [|[id a] q]; [done|]. destruct (sy_alive s); [|done]. injection H as <- <-. left. split; [done|].
    rewrite after_serve_proj. cbn. unfold answer. destruct (sy_clients s !! id) as [[]|] eqn:Hc; try done.
    apply dom_insert_lookup_L. by eexists.
  - destruct (sy_clients s !! id) as [[a|class k|class k r]|] eqn:Hc; try done; [destruct (sy_alive s); [done|]|];
      injection H as <- <-; right; eexists _, _; (split; [done|]); (split; [by apply elem_of_dom|done]).
  - destruct (sy_clients s !! id) as [[a|class k|class k r]|] eqn:Hc; try done.
    injection H as <- <-. right. eexists _, _. split; [done|]. split; [by apply elem_of_dom|done].
Qed.

(** Every request in flight waits for a reply of the controller and answers with it. *)
Record server_ok (sv : Server) : Prop := mkServerOk {
  svo_system : system_ok (sv_sys sv);
  svo_ids : ids_ok (sv_sys sv);
  svo_dom : dom (sv_tasks sv) ⊆ dom (sy_clients (sv_sys sv));
  svo_task : forall id k, sv_tasks sv !! id = Some k ->
    forall reply, k reply = Done (set_server (into_response finish reply))
}.

Lemma sys_step_ok capacity s e s' replies :
  match e with Request a => payload_ok a | _ => True end ->
  sys_step capacity s e = Some (s', replies) -> system_ok s -> ids_ok s -> system_ok s' /\ ids_ok s'.
Proof.
  intros He H Hs Hi. apply (sys_step_change payload_ok) in H; [|done]. split; [by eapply change_system_ok|by eapply ids_change].
Qed.

Lemma resume_ok capacity s tasks id reply :
  system_ok s -> ids_ok s -> dom tasks ⊆ {[id]} ∪ dom (sy_clients s) ->
  (forall i k, tasks !! i = Some k -> forall r, k r = Done (set_server (into_response finish r))) ->
  id ∉ dom (sy_clients s) ->
  server_ok (resume capacity (mkServer s tasks) id reply).1.
Proof.
  intros Hs Hi Hd Ht Hid. unfold resume. cbn [sv_tasks sv_sys]. destruct (tasks !! id) as [k|] eqn:Hk.
  - rewrite (Ht id k Hk). cbn. constructor; cbn; [done|done| |].
    + intros i Hin. rewrite dom_delete_L in Hin. apply elem_of_difference in Hin as [Hin Hne%not_elem_of_singleton].
      apply Hd, elem_of_union in Hin as [->%elem_of_singleton|Hin]; done.
    + intros i k' [_ Hik]%lookup_delete_Some. by apply (Ht i).
  - cbn. constructor; cbn; [done|done| |done]. apply not_elem_of_dom in Hk.
    intros i Hin. pose proof (Hd i Hin) as Hu. apply elem_of_union in Hu as [->%elem_of_singleton|Hu]; done.
Qed.
End server.

Section server_correct.
Context `{J : SerdeJson, !Axum, !JsonBodies, !AxumLaws, !JsonBodiesLaws}.

Lemma route_one max snap req :
  one_action (fun r => rs_status r ∈ 200 :: refusals) id (route max snap req) /\
  (rq_method req = MGet -> exists r, route max snap req = Done r).
Proof.
  assert (Hnf : rs_status (not_found req) ∈ 200 :: refusals) by (right; left).
  assert (Hna : rs_status ax_method_not_allowed ∈ 200 :: refusals)
    by (rewrite ax_not_allowed_status; do 2 right; left).
  unfold route. destruct (ax_match _ _) as [[i seg]|]; [|split; [by apply one_done|by eexists]].
  destruct (routes max !! i) as [[pat ms]|] eqn:Hi; [|split; [by apply one_done|by eexists]].
  destruct (find_method (rq_method req) ms) as [h|] eqn:Hf; [|split; [by apply one_done|by eexists]].
  unfold find_method in Hf. destruct (list_find _ ms) as [[j [m h']]|] eqn:Hl; [|done]. injection Hf as ->.
  apply list_find_Some in Hl as (Hj & Hm & _). cbn in Hm. subst m.
  pose proof (routes_ok max) as Hr. rewrite Forall_lookup in Hr. specialize (Hr i _ Hi). cbn in Hr.
  rewrite Forall_lookup in Hr. specialize (Hr j _ Hj). cbn in Hr. unfold handler_ok in Hr.
  destruct (decide (rq_method req = MGet)) as [Hg|Hg].
  - destruct (Hr snap req seg) as [b ->]. split; [apply one_done; left|by eexists].
  - split; [|done]. eapply one_action_mono; [|apply Hr]. intros r Hin. by right.
Qed.

Lemma router_one max snap req :
  one_action (fun r => rs_status r ∈ 200 :: refusals /\
    (rs_server r = Some FIRECRACKER_SERVER_HEADER \/ ax_body_limit max req = Some r)) set_server (router max snap req) /\
  (rq_method req = MGet -> exists r, router max snap req = Done r).
Proof.
  unfold router. destruct (ax_body_limit max req) as [r|] eqn:Hl.
  - split; [|by eexists]. apply one_done. split; [|by right]. rewrite (ax_limit_status _ _ _ Hl). do 3 right. left.
  - destruct (route_one max snap req) as [Hone Hget]. split.
    + eapply one_action_map; [|exact Hone]. cbn. intros r Hr. split; [done|by left].
    + intros Hg. destruct (Hget Hg) as [r ->]. by eexists.
Qed.

(** C10: What one HTTP request does.  Whatever the request, the router either answers at
    once, with 200 or one of the documented refusals, or dispatches exactly one action,
    whose payload passed its validation, and answers with the reply; every answer carries
    the server header, except the refusal of the body-limit layer, which lies outside; a
    GET answers at once from the snapshot and never reaches the controller. *)
Theorem request_contract max snap req :
  (rq_method req = MGet -> exists r, router max snap req = Done r) /\
  ((exists r, router max snap req = Done r /\ rs_status r ∈ 200 :: refusals /\
      (rs_server r = Some FIRECRACKER_SERVER_HEADER \/ ax_body_limit max req = Some r)) \/
   (exists a k, router max snap req = Dispatch a k /\ action_ok a /\
      forall reply, k reply = Done (set_server (into_response finish reply)))).
Proof.
  destruct (router_one max snap req) as [Hone Hget]. split; [done|].
  destruct Hone as [r [Hs Hh]|a k Ha Hk]; [left; by exists r|right; by exists a, k].
Qed.


Lemma init_server_ok id fc vmm t lim : server_ok (server_init id fc vmm t lim).
Proof.
  constructor; cbn; [|constructor; cbn; try done; constructor|done|done].
  constructor; cbn; done.
Qed.

Lemma arrive_ok capacity max sv req sv' out :
  server_ok sv -> api_step capacity max sv (Arrive req) = Some (sv', out) -> server_ok sv'.
Proof.
  intros [Hs Hi Hd Ht] H'. cbn [api_step] in H'. cbn zeta in H'.
  destruct (router_one max (snapshot (sy_ctl (sv_sys sv))) req) as [Hone _].
  destruct Hone as [r _|a k Ha Hk]; cbn [run_to_wait] in H'.
  - injection H' as <- _. by constructor.
  - destruct (sys_step capacity (sv_sys sv) (Request a)) as [[s' replies]|] eqn:Hst.
    2: { cbn [sys_step] in Hst. destruct (admit_action _ a); done. }
    destruct (sys_step_ok _ _ (Request a) _ _ (or_introl Ha) Hst Hs Hi) as [Hs' Hi']. cbn [sys_step] in Hst.
    destruct (admit_action _ a) as [[]|e] eqn:Had; injection Hst as <- <-.
    + injection H' as <- _. constructor; cbn; [done|done| |].
      * rewrite !dom_insert_L. by apply union_mono_l.
      * intros i k' Hik. apply lookup_insert_Some in Hik as [[_ <-]|[_ Hik]]; [done|by apply (Ht i)].
    + rewrite Hk in H'. cbn in H'. injection H' as <- _. by constructor.
Qed.

Lemma api_step_ok capacity max sv e sv' out :
  server_ok sv -> api_step capacity max sv e = Some (sv', out) -> server_ok sv'.
Proof.
  destruct e as [req| |e]; [apply arrive_ok|..]; intros [Hs Hi Hd Ht] H'.
  - cbn [api_step] in H'. destruct (sys_step _ _ _) as [[s' replies]|] eqn:Hst; [|done]. injection H' as <- _.
    destruct (sys_step_ok _ _ (Request ActionShutdown) _ _ (or_intror eq_refl) Hst Hs Hi) as [Hs' Hi'].
    constructor; cbn; [done|done| |done]. cbn [sys_step] in Hst.
    destruct (admit_action _ _); injection Hst as <- _; [|done]. cbn. rewrite dom_insert_L. by apply union_subseteq_r'.
  - assert (Hne : forall a, e <> Request a) by (intros a ->; done).
    assert (Hst : exists s' replies, sys_step capacity (sv_sys sv) e = Some (s', replies) /\
              resume_all capacity (mkServer s' (sv_tasks sv)) replies = (sv', out)).
    { destruct e; [by destruct (Hne a)|..]; cbn [api_step] in H';
        (destruct (sys_step _ _ _) as [[s' replies]|]; [|done]); injection H' as H'; by exists s', replies. }
    destruct Hst as (s' & replies & Hst & Hr).
    destruct (sys_step_ok _ _ e _ _ ltac:(by destruct e; [destruct (Hne a)|..]) Hst Hs Hi) as [Hs' Hi'].
    destruct (sys_step_replies _ _ _ _ _ Hne Hst) as [[-> Hdom]|(id & r & -> & Hid & Hcl)].
    + cbn in Hr. injection Hr as <- _. constructor; cbn; [done|done|by rewrite Hdom|done].
    + cbn in Hr. destruct (resume capacity (mkServer s' (sv_tasks sv)) id r) as [sv1 out1] eqn:Er. injection Hr as <- _.
      change sv1 with ((sv1, out1).1). rewrite <- Er. apply resume_ok; [done|done| |done|].
      * rewrite Hcl, dom_delete_L. intros i Hin. destruct (decide (i = id)) as [->|Hn]; [by apply elem_of_union_l, elem_of_singleton|].
        apply elem_of_union_r, elem_of_difference. split; [by apply Hd|by apply not_elem_of_singleton].
      * rewrite Hcl, dom_delete_L. intros [_ Hx]%elem_of_difference. by apply Hx, elem_of_singleton.
Qed.

Lemma api_reach_ok capacity max sv : api_reach capacity max sv -> server_ok sv.
Proof.
  induction 1 as [|sv e sv' out _ IH Hst]; [apply init_server_ok|by eapply api_step_ok].
Qed.

End server_correct.

(** ** A concrete server *)

#[local] Instance text_json : SerdeJson := {|
  JsonValue := list Z; json_empty := lit "{}"; json_null := lit "null"; json_get _ _ := None |}.

Definition match_pattern (p : Pattern) (path : list Z) : option (list Z) :=
  match p with
  | Exact s => if decide (path = s) then Some [] else None
  | Capture prefix =>
      let seg := drop (length prefix) path in
      if decide (take (length prefix) path = prefix /\ seg <> [] /\ 47 ∉ seg) then Some seg else None
  end.

Fixpoint first_match (i : nat) (pats : list Pattern) (path : list Z) : option (nat * list Z) :=
  match pats with
  | [] => None
  | p :: ps => match match_pattern p path with Some seg => Some (i, seg) | None => first_match (S i) ps path end
  end.

#[local] Instance segment_axum : Axum := {|
  ax_match := first_match 0;
  ax_path_param := Ok;
  ax_method_not_allowed := mkResponse 405 None NoBody;
  ax_body_limit max req :=
    if max <? zlen (rq_body req) then Some (mkResponse 413 None (TextBody (lit "length limit exceeded"))) else None
|}.

Lemma match_pattern_iff p path seg : match_pattern p path = Some seg <-> pattern_matches p path seg.
Proof.
  destruct p as [a|a]; cbn.
  - case_decide; split; [by intros [= <-]|by intros [_ ->]|done|by intros [? _]].
  - case_decide as Hd; split.
    + intros [= <-]. destruct Hd as (Ht & Hne & Hs). split; [|done].
      rewrite <- (take_drop (length a) path) at 1. by rewrite Ht.
    + intros (-> & _). by rewrite drop_app_length.
    + done.
    + intros (-> & Hne & Hs). destruct Hd. rewrite take_app_length, drop_app_length. done.
Qed.

Lemma first_match_some pats path : forall i j seg,
  first_match i pats path = Some (j, seg) ->
  exists k p, (j = i + k)%nat /\ pats !! k = Some p /\ pattern_matches p path seg.
Proof.
  induction pats as [|p ps IH]; intros i j seg; cbn; [done|].
  destruct (match_pattern p path) as [s|] eqn:Hm.
  - intros [= <- <-]. exists 0%nat, p. split_and!; [lia|done|]. by apply match_pattern_iff.
  - intros (k & q & -> & Hk & Hq)%IH. exists (S k), q. split_and!; [lia|done|done].
Qed.

Lemma first_match_none pats path : forall i,
  first_match i pats path = None -> forall p seg, p ∈ pats -> ~ pattern_matches p path seg.
Proof.
  induction pats as [|q ps IH]; intros i; cbn; [by intros _ p seg ?%not_elem_of_nil|].
  destruct (match_pattern q path) as [s|] eqn:Hm; [done|]. intros Hn p seg [->|Hp]%elem_of_cons Hp'.
  - apply match_pattern_iff in Hp'. by rewrite Hm in Hp'.
  - by apply (IH (S i) Hn p seg).
Qed.

#[local] Instance segment_axum_laws : AxumLaws.
Proof.
  split.
  - intros pats path i seg (k & p & -> & Hp & Hm)%first_match_some. by exists p.
  - intros pats path Hn. by apply (first_match_none _ _ 0).
  - done.
  - done.
  - cbn. intros max req r. destruct (max <? zlen (rq_body req)); [by intros [= <-]|done].
Qed.

(** A decoder that knows one body. *)
Definition only {T} (body : list Z) (raw : T) : FromJson T :=
  fun max req =>
    if (zlen (rq_body req) <=? max) && bool_decide (rq_body req = body) then Ok raw
    else Err (mkResponse 400 None (TextBody (lit "syntax"))).

Definition unsupported {T} : FromJson T := fun _ _ => Err (mkResponse 415 None (TextBody (lit "content type"))).

Lemma only_laws {T} body (raw : T) (P : T -> Prop) : P raw -> FromJsonLaws T (FromJson0 := only body raw) P.
Proof.
  intros Hp. split; unfold json_body, only; intros max req r.
  - destruct (Z.leb_spec (zlen (rq_body req)) max), (bool_decide (rq_body req = body)); cbn; intros [= <-]; done.
  - destruct (_ && _); [done|]. intros [= <-]. left.
Qed.

Lemma unsupported_laws {T} (P : T -> Prop) : FromJsonLaws T (FromJson0 := unsupported) P.
Proof. split; unfold json_body, unsupported; intros max req r; [done|]. intros [= <-]. do 2 right. left. Qed.

Definition machine_body : list Z := lit "{'vcpu_count': 2, 'mem_size_mib': 256}".
Definition boot_body : list Z := lit "{'kernel_image_path': '/vmlinux'}".
Definition drive_body : list Z := lit "{'drive_id': 'rootfs', 'path_on_host': '/img'}".
Definition start_body : list Z := lit "{'action_type': 'InstanceStart'}".

#[local] Instance demo_bodies : JsonBodies := {|
  json_boot_source := only boot_body (mkRawBootSource (lit "/vmlinux") None None);
  json_machine := only machine_body (mkRawMachineConfig 2 256 false false None None);
  json_machine_patch := unsupported;
  json_drive := only drive_body (mkRawDrive (lit "rootfs") (lit "/img") true false CacheUnsafe EngineSync None None None);
  json_drive_patch := unsupported; json_network := unsupported; json_network_patch := unsupported;
  json_vsock := unsupported; json_value := unsupported; json_mmds_config := unsupported;
  json_balloon := unsupported; json_balloon_update := unsupported; json_balloon_stats := unsupported;
  json_entropy := unsupported; json_serial := unsupported; json_pmem := unsupported; json_pmem_patch := unsupported;
  json_hotplug := unsupported; json_hotplug_update := unsupported; json_cpu := unsupported;
  json_action := only start_body (mkRawAction InstanceStart);
  json_vm := unsupported; json_snapshot_create := unsupported; json_snapshot_load := unsupported;
  json_logger := unsupported; json_metrics := unsupported
|}.

#[local] Instance demo_bodies_laws : JsonBodiesLaws.
Proof.
  split; first [apply unsupported_laws | apply only_laws; cbn; unfold in_u; first [done | lia]].
Qed.

Definition put (path : string) (body : list Z) : HttpRequest := mkRequest MPut (lit path) (lit path) [] body.
Definition get (path : string) : HttpRequest := mkRequest MGet (lit path) (lit path) [] [].

Definition demo_server : Server :=
  server_init (lit "demo") (lit "1.16.0") (lit "1.16.0") timeouts_from_spec (from_host_ram_mib 1024).

Fixpoint api_run (capacity : nat) (max : Z) (sv : Server) (es : list ApiEvent)
  : option (Server * list (nat * Response)) :=
  match es with
  | [] => Some (sv, [])
  | e :: es' =>
      r ← api_step capacity max sv e;
      r' ← api_run capacity max r.1 es';
      Some (r'.1, r.2 ++ r'.2)
  end.

Lemma api_run_reach capacity max es : forall sv sv' out,
  api_reach capacity max sv -> api_run capacity max sv es = Some (sv', out) -> api_reach capacity max sv'.
Proof.
  induction es as [|e es IH]; intros sv sv' out Hr; cbn; [by intros [= <- _]|].
  intros ([sv1 out1] & Hs & H1)%bind_Some. apply bind_Some in H1 as ([sv2 out2] & H2 & [= <- <-]).
  eapply IH; [|exact H2]. by eapply api_next.
Qed.

Definition whole_put (id : nat) (path : string) (body : list Z) : list ApiEvent :=
  [Arrive (put path body); Inner (Send id); Inner (Serve (Ok 7%nat)); Inner (Finish id)].

Definition demo_traffic : list ApiEvent :=
  whole_put 0 "/machine-config" machine_body ++ whole_put 1 "/boot-source" boot_body ++
  whole_put 2 "/drives/rootfs" drive_body ++ whole_put 3 "/actions" start_body ++
  [Arrive (get "/"); Arrive (get "/machine-config"); Arrive (get "/nothing"); Arrive (put "/vsock" (repeat 32 2000))].

Definition demo_final : Server := fst (default (demo_server, []) (api_run 8 1024 demo_server demo_traffic)).

Lemma demo_final_reach : api_reach 8 1024 demo_final.
Proof.
  destruct (api_run 8 1024 demo_server demo_traffic) as [[sv out]|] eqn:Hr; [|vm_compute in Hr; discriminate Hr].
  unfold demo_final. rewrite Hr. cbn. eapply (api_run_reach 8 1024 demo_traffic); [apply api_start|exact Hr].
Qed.

(** The answers of that run.  The guest started and four configurations were accepted,
    yet the machine configuration read back is the empty object; the refusal of an
    oversized body lacks the server header. *)
Example demo_answers :
  match api_run 8 1024 demo_server demo_traffic with
  | Some (_, out) => map (fun r => (rs_status r.2, bool_decide (rs_server r.2 = None))) out =
      [(204, false); (204, false); (204, false); (204, false); (200, false); (200, false); (400, false); (413, true)] /\
      rs_body <$> (snd <$> out !! 5%nat) = Some (JsonBody (lit "{}"))
  | None => False
  end.
Proof. vm_compute. split; reflexivity. Qed.

Lemma request_contract_witness :
  exists a k, router 51200 (snapshot (sy_ctl (sv_sys demo_server))) (put "/machine-config" machine_body) = Dispatch a k /\
    action_ok a.
Proof.
  destruct (request_contract 51200 (snapshot (sy_ctl (sv_sys demo_server))) (put "/machine-config" machine_body))
    as [_ [(r & Hr & _)|(a & k & Hk & Ha & _)]].
  - vm_compute in Hr. discriminate Hr.
  - exists a, k. split; [exact Hk|exact Ha].
Defined.



(** A PATCH lets an empty template through, which a PUT refuses. *)
Example patch_skips_template :
  MachineConfigPatch_try_from (mkRawPatch None None None None (Some []) None) =
    Ok (mkPatch None None None None (Some []) None) /\
  MachineConfig_try_from (mkRawMachineConfig 1 1 false false (Some []) None) =
    Err (lit "Invalid cpu_template: must not be empty").
Proof. split; reflexivity. Qed.
