(* ===== verification/Pl011.v ===== *)
(** * Pl011: the serial console

    Models [src/crates/legacy/src/pl011.rs]: the register block, the transmit
    sink, the receive queue fed by the host, and the level-triggered interrupt
    line.  The UART is a [BusDevice]; the sink and the interrupt controller are
    interfaces. *)

From stdpp Require Import base numbers list option gmap.
From Stdlib Require Import ZArith Lia.
From S2P Require Import Prelude Bus Arch Transport.

Local Open Scope Z_scope.

Definition PL011_MMIO_REGION_BYTES : Z := 0x1000.

Definition FR_TX_EMPTY : Z := 128.
Definition FR_RX_EMPTY : Z := 16.
Definition IMSC_RX : Z := 16.
Definition INT_RX : Z := 16.

Definition PERIPH_PCELL_ID : list (Z * Z) :=
  [(0xFE0, 0x11); (0xFE4, 0x10); (0xFE8, 0x14); (0xFEC, 0x00);
   (0xFF0, 0x0D); (0xFF4, 0xF0); (0xFF8, 0x05); (0xFFC, 0xB1)].

(** The [Pl011Sink] trait. *)
Class Pl011Sink (S : Type) := { write_byte : S -> Z -> S }.

(** [DiscardSink] and [CapturedSink]. *)
#[export] Instance DiscardSink : Pl011Sink unit := { write_byte s _ := s }.

Definition CapturedSink := list Z.

#[export] Instance CapturedSink_Pl011Sink : Pl011Sink CapturedSink := { write_byte s b := s ++ [b] }.

Record Pl011 (S G : Type) := mkPl011 {
  sink : S;
  rx_queue : list Z;
  imsc : Z;
  ris : Z;
  ibrd : Z;
  fbrd : Z;
  lcrh : Z;
  cr : Z;
  iflss : Z;
  dmacr : Z;
  ilpr : Z;
  uart_gic : G;
  uart_intid : Gic.IntId
}.
Arguments mkPl011 {S G}.
Arguments sink {S G}.
Arguments rx_queue {S G}.
Arguments imsc {S G}.
Arguments ris {S G}.
Arguments ibrd {S G}.
Arguments fbrd {S G}.
Arguments lcrh {S G}.
Arguments cr {S G}.
Arguments iflss {S G}.
Arguments dmacr {S G}.
Arguments ilpr {S G}.
Arguments uart_gic {S G}.
Arguments uart_intid {S G}.

Section pl011.
Context {S G : Type} `{!Pl011Sink S} `{!Gic G}.

Definition Pl011_new (s : S) (g : G) (intid : Gic.IntId) : Pl011 S G :=
  mkPl011 s [] 0 0 0 0 0 0 0 0 0 g intid.

Definition set_rx (u : Pl011 S G) (q : list Z) (r : Z) : Pl011 S G :=
  mkPl011 (sink u) q (imsc u) r (ibrd u) (fbrd u) (lcrh u) (cr u) (iflss u) (dmacr u) (ilpr u)
    (uart_gic u) (uart_intid u).

Definition set_sink (u : Pl011 S G) (s : S) : Pl011 S G :=
  mkPl011 s (rx_queue u) (imsc u) (ris u) (ibrd u) (fbrd u) (lcrh u) (cr u) (iflss u) (dmacr u)
    (ilpr u) (uart_gic u) (uart_intid u).

Definition set_masks (u : Pl011 S G) (m r : Z) : Pl011 S G :=
  mkPl011 (sink u) (rx_queue u) m r (ibrd u) (fbrd u) (lcrh u) (cr u) (iflss u) (dmacr u)
    (ilpr u) (uart_gic u) (uart_intid u).

(** [let _ = self.gic.set_spi_level(self.intid, level)]. *)
Definition drive_line (u : Pl011 S G) (level : bool) : Pl011 S G :=
  mkPl011 (sink u) (rx_queue u) (imsc u) (ris u) (ibrd u) (fbrd u) (lcrh u) (cr u) (iflss u)
    (dmacr u) (ilpr u) (set_spi_level (uart_gic u) (uart_intid u) level).1 (uart_intid u).

(** Returns the new queue length. *)
Definition push_rx (u : Pl011 S G) (byte : Z) : Pl011 S G * Z :=
  let u1 := set_rx u (rx_queue u ++ [byte]) (Z.lor (ris u) INT_RX) in
  let u2 := if negb (Z.land (imsc u) IMSC_RX =? 0) then drive_line u1 true else u1 in
  (u2, zlen (rx_queue u2)).

Definition fr_value (u : Pl011 S G) : Z :=
  match rx_queue u with [] => Z.lor FR_TX_EMPTY FR_RX_EMPTY | _ => FR_TX_EMPTY end.

Definition read_dr (u : Pl011 S G) : Pl011 S G * Z :=
  match rx_queue u with
  | [] => (u, 0)
  | b :: q =>
      let u1 := set_rx u q (ris u) in
      (match q with
       | [] => drive_line (set_rx u1 q (Z.land (ris u) (wnot 32 INT_RX))) false
       | _ => u1
       end, b)
  end.

Definition write_dr (u : Pl011 S G) (value : Z) : Pl011 S G :=
  set_sink u (write_byte (sink u) (wrap 8 value)).

Fixpoint pcell_lookup (k : Z) (l : list (Z * Z)) : option Z :=
  match l with
  | [] => None
  | (off, val) :: l' => if off =? k then Some val else pcell_lookup k l'
  end.

Definition uart_read_register (u : Pl011 S G) (offset : Z) : Pl011 S G * Z :=
  match pcell_lookup offset PERIPH_PCELL_ID with
  | Some val => (u, val)
  | None =>
      if offset =? 0x000 then read_dr u
      else if offset =? 0x004 then (u, 0)
      else if offset =? 0x018 then (u, fr_value u)
      else if offset =? 0x020 then (u, ilpr u)
      else if offset =? 0x024 then (u, ibrd u)
      else if offset =? 0x028 then (u, fbrd u)
      else if offset =? 0x02C then (u, lcrh u)
      else if offset =? 0x030 then (u, cr u)
      else if offset =? 0x034 then (u, iflss u)
      else if offset =? 0x038 then (u, imsc u)
      else if offset =? 0x03C then (u, ris u)
      else if offset =? 0x040 then (u, Z.land (ris u) (imsc u))
      else if offset =? 0x048 then (u, dmacr u)
      else (u, 0)
  end.

(** The line after a change of mask or status. *)
Definition reevaluate (u : Pl011 S G) : Pl011 S G :=
  drive_line u (negb (Z.land (Z.land (imsc u) (ris u)) INT_RX =? 0)).

Definition uart_write_register (u : Pl011 S G) (offset value : Z) : Pl011 S G :=
  if offset =? 0x000 then write_dr u value
  else if offset =? 0x004 then u
  else if offset =? 0x020 then
    mkPl011 (sink u) (rx_queue u) (imsc u) (ris u) (ibrd u) (fbrd u) (lcrh u) (cr u) (iflss u)
      (dmacr u) value (uart_gic u) (uart_intid u)
  else if offset =? 0x024 then
    mkPl011 (sink u) (rx_queue u) (imsc u) (ris u) value (fbrd u) (lcrh u) (cr u) (iflss u)
      (dmacr u) (ilpr u) (uart_gic u) (uart_intid u)
  else if offset =? 0x028 then
    mkPl011 (sink u) (rx_queue u) (imsc u) (ris u) (ibrd u) value (lcrh u) (cr u) (iflss u)
      (dmacr u) (ilpr u) (uart_gic u) (uart_intid u)
  else if offset =? 0x02C then
    mkPl011 (sink u) (rx_queue u) (imsc u) (ris u) (ibrd u) (fbrd u) value (cr u) (iflss u)
      (dmacr u) (ilpr u) (uart_gic u) (uart_intid u)
  else if offset =? 0x030 then
    mkPl011 (sink u) (rx_queue u) (imsc u) (ris u) (ibrd u) (fbrd u) (lcrh u) value (iflss u)
      (dmacr u) (ilpr u) (uart_gic u) (uart_intid u)
  else if offset =? 0x034 then
    mkPl011 (sink u) (rx_queue u) (imsc u) (ris u) (ibrd u) (fbrd u) (lcrh u) (cr u) value
      (dmacr u) (ilpr u) (uart_gic u) (uart_intid u)
  else if offset =? 0x038 then reevaluate (set_masks u value (ris u))
  else if offset =? 0x044 then reevaluate (set_masks u (imsc u) (Z.land (ris u) (wnot 32 value)))
  else if offset =? 0x048 then
    mkPl011 (sink u) (rx_queue u) (imsc u) (ris u) (ibrd u) (fbrd u) (lcrh u) (cr u) (iflss u)
      value (ilpr u) (uart_gic u) (uart_intid u)
  else u.

Definition uart_read (u : Pl011 S G) (offset : Z) (data : list Z) : Pl011 S G * list Z :=
  let r := uart_read_register u offset in
  (r.1, imap (fun i _ => default 0 (le_bytes 4 r.2 !! i)) data).

Definition uart_write (u : Pl011 S G) (offset : Z) (data : list Z) : Pl011 S G :=
  let n := Nat.min (length data) 8 in
  let buf := take n data ++ replicate (8 - n) 0 in
  uart_write_register u offset (le_val (take 4 buf)).
End pl011.

#[export] Instance Pl011_BusDevice {S G} `{!Pl011Sink S} `{!Gic G} : BusDevice (Pl011 S G) := {
  bd_read := uart_read;
  bd_write := uart_write
}.

(** ** Histories *)

(** What the host input pipe and the guest do to the UART. *)
Inductive UartOp := PushRx (byte : Z) | BusRead (offset : Z) (data : list Z) | BusWrite (offset : Z) (data : list Z).

Definition op_ok (op : UartOp) : Prop :=
  match op with
  | PushRx b => byte_ok b
  | BusRead _ data => data <> []
  | BusWrite _ data => bytes_ok data
  end.

Section histories.
Context {S G : Type} `{!Pl011Sink S} `{!Gic G}.

(** The new state and, for a read of the data register that found a byte, the
    low byte of the data returned. *)
Definition uart_step (u : Pl011 S G) (op : UartOp) : Pl011 S G * list Z :=
  match op with
  | PushRx b => ((push_rx u b).1, [])
  | BusRead offset data =>
      let r := uart_read u offset data in
      (r.1, if (offset =? 0) && negb (match rx_queue u with [] => true | _ => false end)
            then take 1 r.2 else [])
  | BusWrite offset data => (uart_write u offset data, [])
  end.

Fixpoint uart_run (u : Pl011 S G) (ops : list UartOp) : Pl011 S G * list Z :=
  match ops with
  | [] => (u, [])
  | op :: ops' =>
      let r := uart_step u op in
      let r' := uart_run r.1 ops' in
      (r'.1, r.2 ++ r'.2)
  end.

Definition pushed (ops : list UartOp) : list Z :=
  concat ((fun op => match op with PushRx b => [b] | _ => [] end) <$> ops).

(** The bytes the guest wrote to the data register. *)
Definition transmitted (ops : list UartOp) : list Z :=
  concat ((fun op => match op with
                     | BusWrite offset data => if offset =? 0 then [default 0 (head data)] else []
                     | _ => []
                     end) <$> ops).

(** ** The data streams *)

Lemma le_val_take4_low data :
  bytes_ok data ->
  wrap 8 (le_val (take 4 (take (Nat.min (length data) 8) data ++ replicate (8 - Nat.min (length data) 8) 0)))
  = default 0 (head data).
Proof.
  intros Hd. unfold wrap. change (2 ^ 8) with 256. destruct data as [|b data]; [reflexivity|].
  apply Forall_cons_iff in Hd as [Hb _]. unfold byte_ok in Hb.
  cbn [length]. change (Nat.min (Datatypes.S (length data)) 8) with (Datatypes.S (Nat.min (length data) 7)).
  cbn [take app le_val head default from_option]. unfold id.
  rewrite Z.mul_comm, Z.mod_add by lia. apply Z.mod_small. lia.
Qed.

Lemma uart_write_sink (u : Pl011 S G) offset data :
  bytes_ok data ->
  sink (uart_write u offset data) =
    (if offset =? 0 then write_byte (sink u) (default 0 (head data)) else sink u) /\
  rx_queue (uart_write u offset data) = rx_queue u.
Proof.
  intros Hd. unfold uart_write. set (v := le_val _).
  assert (Hv : wrap 8 v = default 0 (head data)) by (by apply le_val_take4_low). clearbody v.
  unfold uart_write_register.
  destruct (offset =? 0x000); [cbn; by rewrite Hv|].
  repeat (match goal with |- context [if ?c then _ else _] => destruct c; [done|] end). done.
Qed.

Lemma pcell_lookup_zero : pcell_lookup 0 PERIPH_PCELL_ID = None.
Proof. reflexivity. Qed.

Lemma uart_read_reg_sink (u : Pl011 S G) offset :
  sink (uart_read_register u offset).1 = sink u /\
  (rx_queue (uart_read_register u offset).1 = if offset =? 0 then tail (rx_queue u) else rx_queue u).
Proof.
  unfold uart_read_register. destruct (Z.eqb_spec offset 0) as [->|Hne].
  - rewrite pcell_lookup_zero. cbn. unfold read_dr. destruct (rx_queue u) as [|b [|b' q]] eqn:Hq; cbn; by rewrite ?Hq.
  - destruct (pcell_lookup offset PERIPH_PCELL_ID); [done|].
    repeat (match goal with |- context [if ?c then _ else _] => destruct c; [done|] end). done.
Qed.

Lemma uart_read_byte (u : Pl011 S G) data b q :
  rx_queue u = b :: q -> byte_ok b -> data <> [] -> take 1 (uart_read u 0 data).2 = [b].
Proof.
  intros Hq Hb Hd. unfold uart_read, uart_read_register. rewrite pcell_lookup_zero. cbn [Z.eqb].
  unfold read_dr. rewrite Hq. destruct data as [|x data]; [done|]. cbn.
  f_equal. apply Z.mod_small. unfold byte_ok in Hb. lia.
Qed.

Lemma uart_step_streams (u : Pl011 S G) op :
  op_ok op -> bytes_ok (rx_queue u) ->
  bytes_ok (rx_queue (uart_step u op).1) /\
  (uart_step u op).2 ++ rx_queue (uart_step u op).1 = rx_queue u ++ pushed [op] /\
  sink (uart_step u op).1 = foldl write_byte (sink u) (transmitted [op]).
Proof.
  intros Hok Hq. destruct op as [b|offset data|offset data]; cbn [uart_step fst snd pushed transmitted fmap list_fmap concat].
  - cbn in Hok. unfold push_rx. destruct (negb _); cbn; rewrite ?app_nil_r;
      (split_and!; [by apply Forall_app_2; [|constructor]|done|done]).
  - destruct (uart_read_reg_sink u offset) as [Hs Hr]. cbn [uart_read fst]. rewrite Hs, Hr, !app_nil_r.
    destruct (Z.eqb_spec offset 0) as [->|]; [|done]. cbn [andb].
    destruct (rx_queue u) as [|b q] eqn:Hu; [done|]. apply Forall_cons_iff in Hq as [Hb Hq].
    split_and!; try done. cbn [negb]. by rewrite (uart_read_byte u data b q).
  - destruct (uart_write_sink u offset data Hok) as [Hs Hr]. rewrite Hs, Hr, !app_nil_r.
    split_and!; [done|done|]. by destruct (offset =? 0).
Qed.

Lemma uart_run_streams ops : forall u : Pl011 S G,
  Forall op_ok ops -> bytes_ok (rx_queue u) ->
  (uart_run u ops).2 ++ rx_queue (uart_run u ops).1 = rx_queue u ++ pushed ops /\
  sink (uart_run u ops).1 = foldl write_byte (sink u) (transmitted ops).
Proof.
  induction ops as [|op ops IH]; intros u Hok Hq; cbn [uart_run fst snd].
  { by rewrite app_nil_r. }
  apply Forall_cons_iff in Hok as [Ho Hok].
  destruct (uart_step_streams u op Ho Hq) as (Hb & Hs & Hk).
  destruct (IH (uart_step u op).1 Hok Hb) as [Hr Ht]. split.
  - rewrite <- app_assoc, Hr, app_assoc, Hs, <- app_assoc. f_equal.
    unfold pushed. cbn. by rewrite app_nil_r.
  - rewrite Ht, Hk, <- foldl_app. f_equal. unfold transmitted. cbn. by rewrite app_nil_r.
Qed.

(** After any mix of host input and guest accesses, the sink has received
    exactly the low bytes the guest wrote to the data register, in order; the
    bytes the guest read from it, followed by the queue, are exactly the bytes
    the host pushed, in order. *)
Theorem uart_streams_exact s g intid ops :
  Forall op_ok ops ->
  let r := uart_run (Pl011_new s g intid) ops in
  sink r.1 = foldl write_byte s (transmitted ops) /\ r.2 ++ rx_queue r.1 = pushed ops.
Proof.
  intros Hok r. destruct (uart_run_streams ops (Pl011_new s g intid) Hok) as [Hr Hs]; [constructor|].
  by split.
Qed.
End histories.

(** ** The interrupt line *)

(** The documented effect of driving a level: the line holds it. *)
Class GicLevels (G : Type) `{!Gic G} := {
  spi_level : G -> Gic.IntId -> bool;
  spi_level_set : forall g i l, spi_level (set_spi_level g i l).1 i = l
}.

Section line.
Context {S G : Type} `{!Pl011Sink S} `{!Gic G} `{!GicLevels G}.

Definition line (u : Pl011 S G) : bool := spi_level (uart_gic u) (uart_intid u).

Record line_ok (u : Pl011 S G) : Prop := mkLineOk {
  lo_ris : in_u 32 (ris u);
  lo_level : line u = Z.testbit (imsc u) 4 && Z.testbit (ris u) 4;
  lo_byte : Z.testbit (ris u) 4 = true -> rx_queue u <> []
}.

Lemma line_drive (u : Pl011 S G) l : line (drive_line u l) = l.
Proof. apply spi_level_set. Qed.

Lemma masked_rx m r : negb (Z.land (Z.land m r) INT_RX =? 0) = Z.testbit m 4 && Z.testbit r 4.
Proof.
  change INT_RX with (2 ^ 4). rewrite land_pow2_testbit, negb_involutive by lia. apply Z.land_spec.
Qed.

Lemma line_reevaluate (u : Pl011 S G) :
  in_u 32 (ris u) -> (Z.testbit (ris u) 4 = true -> rx_queue u <> []) -> line_ok (reevaluate u).
Proof.
  intros Hr Hb. constructor; [done| |done]. unfold reevaluate. rewrite line_drive, masked_rx. done.
Qed.

Lemma line_push (u : Pl011 S G) b : line_ok u -> line_ok (push_rx u b).1.
Proof.
  intros [Hr Hl Hb]. unfold push_rx. change IMSC_RX with (2 ^ 4).
  rewrite land_pow2_testbit, negb_involutive by lia.
  assert (Hbit : Z.testbit (Z.lor (ris u) INT_RX) 4 = true).
  { rewrite Z.lor_spec. apply orb_true_r. }
  assert (Hu : in_u 32 (Z.lor (ris u) INT_RX)) by (apply in_u_lor; [lia|done|unfold in_u, INT_RX; lia]).
  destruct (Z.testbit (imsc u) 4) eqn:Hm; constructor; cbn [fst]; rewrite ?line_drive; try done;
    try (intros _; cbn; by destruct (rx_queue u)).
  - cbn -[Z.testbit]. by rewrite Hm, Hbit.
  - cbn -[Z.testbit]. rewrite Hm in *. done.
Qed.

Lemma line_read_dr (u : Pl011 S G) : line_ok u -> line_ok (read_dr u).1.
Proof.
  intros [Hr Hl Hb]. unfold read_dr. destruct (rx_queue u) as [|b [|b' q]] eqn:Hq; cbn [fst].
  - constructor; [done|done|by rewrite Hq].
  - assert (Hu : in_u 32 (wnot 32 INT_RX)) by (unfold in_u, wnot, INT_RX; lia).
    assert (Hbit : Z.testbit (Z.land (ris u) (wnot 32 INT_RX)) 4 = false).
    { rewrite Z.land_spec. apply andb_false_r. }
    constructor.
    + apply in_u_land; [lia|done|apply Hu].
    + rewrite line_drive. cbn -[Z.testbit Z.land]. by rewrite Hbit, andb_false_r.
    + cbn -[Z.testbit Z.land]. by rewrite Hbit.
  - by constructor.
Qed.

Lemma line_read (u : Pl011 S G) offset data : line_ok u -> line_ok (uart_read u offset data).1.
Proof.
  intros H. unfold uart_read, uart_read_register. destruct (pcell_lookup offset _); [done|].
  destruct (offset =? 0x000); [by apply line_read_dr|].
  repeat (match goal with |- context [if ?c then _ else _] => destruct c; [done|] end). done.
Qed.

Lemma line_write (u : Pl011 S G) offset data :
  bytes_ok data -> line_ok u -> line_ok (uart_write u offset data).
Proof.
  intros Hd H. unfold uart_write.
  set (v := le_val _). assert (Hv : in_u 32 v).
  { unfold v. set (buf := _ ++ _). assert (Hbuf : bytes_ok buf).
    { apply Forall_app_2; [by apply Forall_take|]. apply Forall_replicate. unfold byte_ok; lia. }
    assert (Hlen : zlen (take 4 buf) <= 4) by (unfold zlen; rewrite length_take; lia).
    pose proof (le_val_bound (take 4 buf) ltac:(by apply Forall_take)) as Hb.
    assert (256 ^ zlen (take 4 buf) <= 256 ^ 4) by (apply Z.pow_le_mono_r; lia).
    unfold in_u. change (2 ^ 32) with (256 ^ 4). lia. }
  clearbody v. destruct H as [Hr Hl Hb]. unfold uart_write_register.
  repeat (match goal with |- context [if ?c then _ else _] => destruct c; [by constructor|] end).
  destruct (offset =? 0x038); [by apply line_reevaluate|].
  destruct (offset =? 0x044).
  { apply line_reevaluate; cbn -[Z.land Z.testbit wnot].
    - apply in_u_land; [lia|done|]. unfold in_u, wnot in *. lia.
    - rewrite Z.land_spec. intros [Hx _]%andb_true_iff. by apply Hb. }
  destruct (offset =? 0x048); by constructor.
Qed.

Lemma line_run ops : forall u, Forall op_ok ops -> line_ok u -> line_ok (uart_run u ops).1.
Proof.
  induction ops as [|op ops IH]; intros u Hok H; [done|].
  apply Forall_cons_iff in Hok as [Ho Hok]. cbn [uart_run fst]. apply IH; [done|].
  destruct op; [by apply line_push|by apply line_read|by apply line_write].
Qed.

(** After any mix of host input and guest accesses, the interrupt line is
    asserted exactly when the masked interrupt status the guest can read has
    the receive bit, and whenever it is asserted a received byte is waiting. *)
Theorem uart_interrupt_exact s g intid ops :
  Forall op_ok ops -> spi_level g intid = false ->
  let u := (uart_run (Pl011_new s g intid) ops).1 in
  line u = negb (Z.land (uart_read_register u 0x040).2 INT_RX =? 0) /\
  (line u = true -> rx_queue u <> []).
Proof.
  intros Hok Hg u. destruct (line_run ops (Pl011_new s g intid) Hok) as [Hr Hl Hb].
  { constructor; [unfold in_u; cbn; lia|by unfold line; cbn|done]. }
  fold u in Hr, Hl, Hb. change ((uart_read_register u 0x040).2) with (Z.land (ris u) (imsc u)).
  rewrite (Z.land_comm (ris u)), masked_rx. split; [done|]. rewrite Hl. intros [_ Hx]%andb_true_iff. by apply Hb.
Qed.
End line.

(** ** Concrete histories *)

(** An interrupt controller that records the level of each line. *)
Local Abbreviation level_map := (gmap Z bool).

#[export] Instance level_map_Gic : Gic level_map := {
  pulse_spi g i := (g, Ok tt);
  set_spi_level g i l := (<[Gic.as_raw i := l]> g, Ok tt)
}.

#[export] Instance level_map_levels : GicLevels level_map.
Proof.
  refine {| spi_level := fun (g : level_map) i => default false (g !! Gic.as_raw i) |}.
  intros g i l. cbn.
  by rewrite lookup_insert_eq.
Defined.

Definition demo_uart : list UartOp :=
  [BusWrite 0x038 [16; 0; 0; 0]; PushRx 104; PushRx 105; BusWrite 0x000 [79; 0; 0; 0];
   BusRead 0x000 [0; 0; 0; 0]; BusWrite 0x000 [75]].

Lemma demo_uart_ok : Forall op_ok demo_uart.
Proof. repeat constructor; cbn; try done; lia. Qed.

Definition demo_uart_init : Pl011 CapturedSink level_map := Pl011_new [] ∅ (Gic.mkIntId 33).

Lemma uart_streams_exact_witness :
  sink (uart_run demo_uart_init demo_uart).1 = [79; 75] /\
  (uart_run demo_uart_init demo_uart).2 = [104] /\ rx_queue (uart_run demo_uart_init demo_uart).1 = [105].
Proof.
  destruct (uart_streams_exact (S := CapturedSink) [] (∅ : level_map) (Gic.mkIntId 33) demo_uart demo_uart_ok)
    as [Hs Hr].
  split; [etransitivity; [exact Hs|vm_compute; reflexivity]|]. split; vm_compute; reflexivity.
Defined.

Lemma uart_interrupt_exact_witness :
  line (uart_run demo_uart_init demo_uart).1 = true /\ rx_queue (uart_run demo_uart_init demo_uart).1 <> [].
Proof.
  destruct (uart_interrupt_exact (S := CapturedSink) [] (∅ : level_map) (Gic.mkIntId 33) demo_uart demo_uart_ok)
    as [Hl Hb]; [reflexivity|].
  assert (H : line (uart_run demo_uart_init demo_uart).1 = true) by (etransitivity; [exact Hl|vm_compute; reflexivity]).
  split; [exact H|exact (Hb H)].
Defined.
