(* ===== verification/Pdu.v ===== *)
(** * Pdu: the packet formats of the metadata service

    Models [src/crates/mmds/src/pdu.rs], [pdu/ipv4.rs] and [pdu/tcp.rs]: the
    RFC 1071 checksum, Ethernet, ARP, IPv4 and TCP headers, their parsers and
    emitters.  Frames are byte lists; every index a parser uses is below the
    length it has just checked, so [byte_at] never takes its default. *)

From stdpp Require Import base numbers list option gmap strings.
From Stdlib Require Import ZArith Lia.
From S2P Require Import Prelude.

Local Open Scope Z_scope.
Local Open Scope squib_scope.

Definition ETHER_HDR_LEN : nat := 14.
Definition ETHERTYPE_IPV4 : Z := 0x0800.
Definition ETHERTYPE_ARP : Z := 0x0806.
Definition ARP_PACKET_LEN : nat := 28.
Definition ARP_HTYPE_ETHER : Z := 1.
Definition ARP_PTYPE_IPV4 : Z := 0x0800.
Definition ARP_HLEN : Z := 6.
Definition ARP_PLEN : Z := 4.
Definition ARP_OP_REQUEST : Z := 1.
Definition ARP_OP_REPLY : Z := 2.

Inductive PduError := TooShort | Unsupported (what : string) | BadChecksum.

(** [u16::from_be_bytes] and [u32::from_be_bytes] at an offset. *)
Definition be16 (bs : list Z) (i : nat) : Z := be_val [byte_at bs i; byte_at bs (i + 1)].

Definition be32 (bs : list Z) (i : nat) : Z :=
  be_val [byte_at bs i; byte_at bs (i + 1); byte_at bs (i + 2); byte_at bs (i + 3)].

(** ** The checksum *)

(** The summing loop, with the odd tail padded on the right. *)
Fixpoint sum_words (bs : list Z) (sum : Z) : Z :=
  match bs with
  | b1 :: b2 :: bs' => sum_words bs' (wadd 32 sum (be_val [b1; b2]))
  | [b] => wadd 32 sum (be_val [b; 0])
  | [] => sum
  end.

(** [while (sum >> 16) != 0]; a 32-bit sum needs at most two rounds. *)
Fixpoint fold_sum (fuel : nat) (sum : Z) : Z :=
  match fuel with
  | O => sum
  | S fuel' =>
      if Z.shiftr sum 16 =? 0 then sum
      else fold_sum fuel' (wadd 32 (Z.land sum 0xFFFF) (Z.shiftr sum 16))
  end.

Definition ones_complement_sum (bytes : list Z) : Z :=
  wnot 16 (wrap 16 (fold_sum 3 (sum_words bytes 0))).

(** ** Ethernet and ARP *)

Record EthernetHeader := mkEth { eth_dst : list Z; eth_src : list Z; ethertype : Z }.

Definition eth_parse (frame : list Z) : result PduError EthernetHeader :=
  if (length frame <? ETHER_HDR_LEN)%nat then Err TooShort
  else Ok (mkEth (slice 0 6 frame) (slice 6 6 frame) (be16 frame 12)).

Definition eth_to_bytes (h : EthernetHeader) : list Z := eth_dst h ++ eth_src h ++ be_bytes 2 (ethertype h).

Record ArpPacket := mkArp {
  arp_op : Z;
  sender_mac : list Z;
  sender_ip : list Z;
  target_mac : list Z;
  target_ip : list Z
}.

Definition arp_parse (b : list Z) : result PduError ArpPacket :=
  if (length b <? ARP_PACKET_LEN)%nat then Err TooShort
  else if negb (be16 b 0 =? ARP_HTYPE_ETHER) then Err (Unsupported "ARP htype is not Ethernet")
  else if negb (be16 b 2 =? ARP_PTYPE_IPV4) then Err (Unsupported "ARP ptype is not IPv4")
  else if negb (byte_at b 4 =? ARP_HLEN) || negb (byte_at b 5 =? ARP_PLEN)
  then Err (Unsupported "ARP hlen/plen mismatch")
  else Ok (mkArp (be16 b 6) (slice 8 6 b) (slice 14 4 b) (slice 18 6 b) (slice 24 4 b)).

Definition arp_to_bytes (p : ArpPacket) : list Z :=
  be_bytes 2 ARP_HTYPE_ETHER ++ be_bytes 2 ARP_PTYPE_IPV4 ++ [ARP_HLEN; ARP_PLEN] ++
  be_bytes 2 (arp_op p) ++ sender_mac p ++ sender_ip p ++ target_mac p ++ target_ip p.

Definition build_arp_reply_frame (from_mac from_ip to_mac to_ip : list Z) : list Z :=
  eth_to_bytes (mkEth to_mac from_mac ETHERTYPE_ARP) ++
  arp_to_bytes (mkArp ARP_OP_REPLY from_mac from_ip to_mac to_ip).

(** ** IPv4 *)

Definition IPV4_HDR_LEN : nat := 20.
Definition DEFAULT_TTL : Z := 64.

Inductive IpProtocol := Icmp | Tcp | Udp.

Definition protocol_byte (p : IpProtocol) : Z := match p with Icmp => 1 | Tcp => 6 | Udp => 17 end.

Definition from_wire (value : Z) : option IpProtocol :=
  if value =? 1 then Some Icmp
  else if value =? 6 then Some Tcp
  else if value =? 17 then Some Udp
  else None.

Record Ipv4Header := mkIpv4 {
  version_ihl : Z;
  tos : Z;
  total_len : Z;
  ip_id : Z;
  flags_frag : Z;
  ttl : Z;
  protocol : Z;
  ip_checksum : Z;
  ip_src : list Z;
  ip_dst : list Z
}.

Definition ipv4_parse (bytes : list Z) : result PduError Ipv4Header :=
  if (length bytes <? IPV4_HDR_LEN)%nat then Err TooShort
  else
    let version := Z.shiftr (byte_at bytes 0) 4 in
    let ihl := Z.land (byte_at bytes 0) 0x0F in
    if negb (version =? 4) then Err (Unsupported "IPv4: version != 4")
    else if negb (ihl =? 5) then Err (Unsupported "IPv4: header has options (IHL > 5)")
    else
      let ff := be16 bytes 6 in
      if negb (Z.land ff 0x2000 =? 0) || negb (Z.land ff 0x1FFF =? 0)
      then Err (Unsupported "IPv4: fragmentation")
      else
        let hdr_zero := splice 10 [0; 0] (take IPV4_HDR_LEN bytes) in
        if negb (ones_complement_sum hdr_zero =? be16 bytes 10) then Err BadChecksum
        else Ok (mkIpv4 (byte_at bytes 0) (byte_at bytes 1) (be16 bytes 2) (be16 bytes 4) ff
                   (byte_at bytes 8) (byte_at bytes 9) 0 (slice 12 4 bytes) (slice 16 4 bytes)).

Definition ipv4_build (src dst : list Z) (p : IpProtocol) (payload_len id : Z) : Ipv4Header :=
  mkIpv4 (Z.lor (Z.shiftl 4 4) 5) 0 (saturating_add 16 (Z.of_nat IPV4_HDR_LEN) payload_len) id
    0x4000 DEFAULT_TTL (protocol_byte p) 0 src dst.

(** The header with the given checksum field. *)
Definition ipv4_bytes (h : Ipv4Header) (checksum : Z) : list Z :=
  [version_ihl h; tos h] ++ be_bytes 2 (total_len h) ++ be_bytes 2 (ip_id h) ++
  be_bytes 2 (flags_frag h) ++ [ttl h; protocol h] ++ be_bytes 2 checksum ++ ip_src h ++ ip_dst h.

Definition ipv4_to_bytes (h : Ipv4Header) : list Z := ipv4_bytes h (ones_complement_sum (ipv4_bytes h 0)).

Definition payload_len (h : Ipv4Header) : Z := saturating_sub (total_len h) (Z.of_nat IPV4_HDR_LEN).

(** ** TCP *)

Definition TCP_HDR_LEN : nat := 20.
Definition TCP_FIN : Z := 1.
Definition TCP_SYN : Z := 2.
Definition TCP_RST : Z := 4.
Definition TCP_PSH : Z := 8.
Definition TCP_ACK : Z := 16.

Record TcpHeader := mkTcp {
  src_port : Z;
  dst_port : Z;
  seq_no : Z;
  ack_no : Z;
  data_offset : Z;
  tcp_flags : Z;
  window : Z;
  tcp_checksum : Z;
  urgent : Z;
  mss : option Z
}.

(** The walk over the options; [i] grows in every round, so [hdr_len] rounds
    are enough. *)
Fixpoint mss_loop (fuel : nat) (bytes : list Z) (hdr_len i : nat) (found : option Z) : option Z :=
  match fuel with
  | O => found
  | S fuel' =>
      if (i + 1 <? hdr_len)%nat then
        let kind := byte_at bytes i in
        if kind =? 0 then found
        else if kind =? 1 then mss_loop fuel' bytes hdr_len (i + 1) found
        else if (hdr_len <=? i + 1)%nat then found
        else
          let len := Z.to_nat (byte_at bytes (i + 1)) in
          if (len <? 2)%nat || (hdr_len <? i + len)%nat then found
          else
            let found' := if (kind =? 2) && Nat.eqb len 4 && (i + 4 <=? hdr_len)%nat
                          then Some (be16 bytes (i + 2)) else found in
            mss_loop fuel' bytes hdr_len (i + len) found'
      else found
  end.

(** [u16::try_from(n).unwrap_or(u16::MAX)]. *)
Definition u16_or_max (n : Z) : Z := if n <? 2 ^ 16 then n else 2 ^ 16 - 1.

(** What the TCP checksum covers. *)
Definition pseudo_header (src_ip dst_ip : list Z) (tcp_len : Z) : list Z :=
  src_ip ++ dst_ip ++ [0; protocol_byte Tcp] ++ be_bytes 2 tcp_len.

Definition tcp_parse (bytes payload src_ip dst_ip : list Z) : result PduError TcpHeader :=
  if (length bytes <? TCP_HDR_LEN)%nat then Err TooShort
  else
    let doff := Z.shiftr (byte_at bytes 12) 4 in
    let hdr_len := (4 * Z.to_nat doff)%nat in
    if (hdr_len <? TCP_HDR_LEN)%nat || (length bytes <? hdr_len)%nat then Err TooShort
    else
      let tcp_len := u16_or_max (Z.of_nat hdr_len + zlen payload) in
      let sum_buf := pseudo_header src_ip dst_ip tcp_len ++ take 16 bytes ++ [0; 0] ++
                     slice 18 (hdr_len - 18) bytes ++ payload in
      if negb (ones_complement_sum sum_buf =? be16 bytes 16) then Err BadChecksum
      else Ok (mkTcp (be16 bytes 0) (be16 bytes 2) (be32 bytes 4) (be32 bytes 8) doff
                 (Z.land (byte_at bytes 13) 0x3F) (be16 bytes 14) 0 (be16 bytes 18)
                 (mss_loop hdr_len bytes hdr_len TCP_HDR_LEN None)).

Definition tcp_build (sport dport seq ack flags win : Z) : TcpHeader :=
  mkTcp sport dport seq ack 5 flags win 0 0 None.

(** The twenty header bytes with the given checksum field. *)
Definition tcp_bytes (h : TcpHeader) (checksum : Z) : list Z :=
  be_bytes 2 (src_port h) ++ be_bytes 2 (dst_port h) ++ be_bytes 4 (seq_no h) ++
  be_bytes 4 (ack_no h) ++ [wrap 8 (Z.shiftl (data_offset h) 4); tcp_flags h] ++
  be_bytes 2 (window h) ++ be_bytes 2 checksum ++ be_bytes 2 (urgent h).

Definition to_bytes_with_payload (h : TcpHeader) (src_ip dst_ip payload : list Z) : list Z :=
  let out := tcp_bytes h 0 ++ payload in
  let checksum := ones_complement_sum (pseudo_header src_ip dst_ip (u16_or_max (zlen out)) ++ out) in
  tcp_bytes h checksum ++ payload.

Definition to_bytes_header_only (h : TcpHeader) (src_ip dst_ip : list Z) : list Z :=
  to_bytes_with_payload h src_ip dst_ip [].

Definition is_syn (h : TcpHeader) : bool := negb (Z.land (tcp_flags h) TCP_SYN =? 0).
Definition is_fin (h : TcpHeader) : bool := negb (Z.land (tcp_flags h) TCP_FIN =? 0).
Definition is_rst (h : TcpHeader) : bool := negb (Z.land (tcp_flags h) TCP_RST =? 0).
Definition is_ack (h : TcpHeader) : bool := negb (Z.land (tcp_flags h) TCP_ACK =? 0).

(** The IPv4-and-up bytes of an outbound segment ([build_outbound] of
    [tcp.rs]). *)
Definition outbound_segment (server_ip dst_ip : list Z) (id : Z) (h : TcpHeader) (payload : list Z) : list Z :=
  let tcp := to_bytes_with_payload h server_ip dst_ip payload in
  ipv4_to_bytes (ipv4_build server_ip dst_ip Tcp (u16_or_max (zlen tcp)) id) ++ tcp.

(** ** The checksum as arithmetic modulo 65535 *)

(** The plain sum of the big-endian words. *)
Fixpoint word_sum (bs : list Z) : Z :=
  match bs with
  | b1 :: b2 :: bs' => 256 * b1 + b2 + word_sum bs'
  | [b] => 256 * b
  | [] => 0
  end.

(** The representative of a sum modulo 65535 that end-around carry computes:
    zero only for zero. *)
Definition canon (s : Z) : Z := if s =? 0 then 0 else (s - 1) mod 65535 + 1.

Lemma be_val2 a b : be_val [a; b] = 256 * a + b.
Proof. unfold be_val. cbn. lia. Qed.

Lemma be_val4 a b c d : be_val [a; b; c; d] = 256 * (256 * (256 * a + b) + c) + d.
Proof. unfold be_val. cbn. lia. Qed.

Lemma bytes_pair_ind (P : list Z -> Prop) :
  P [] -> (forall b, P [b]) -> (forall b1 b2 bs, P bs -> P (b1 :: b2 :: bs)) -> forall bs, P bs.
Proof.
  intros H0 H1 H2 bs. enough (P bs /\ forall b, P (b :: bs)) by tauto.
  induction bs as [|x bs [IH1 IH2]]; split; auto.
Qed.

Lemma word_sum_nonneg bs : bytes_ok bs -> 0 <= word_sum bs.
Proof.
  induction bs as [|b|b1 b2 bs IH] using bytes_pair_ind; intros H; cbn [word_sum]; [lia| |].
  - apply Forall_cons_iff in H as [Hb _]. unfold byte_ok in Hb. lia.
  - apply Forall_cons_iff in H as [Hb1 H]. apply Forall_cons_iff in H as [Hb2 H].
    unfold byte_ok in *. pose proof (IH H). lia.
Qed.

Lemma word_sum_bound bs : bytes_ok bs -> word_sum bs <= 32768 * zlen bs + 32768.
Proof.
  induction bs as [|b|b1 b2 bs IH] using bytes_pair_ind; intros H; cbn [word_sum].
  - change (zlen (@nil Z)) with 0. lia.
  - apply Forall_cons_iff in H as [Hb _]. change (zlen [b]) with 1. unfold byte_ok in Hb. lia.
  - apply Forall_cons_iff in H as [Hb1 H]. apply Forall_cons_iff in H as [Hb2 H].
    unfold byte_ok, zlen in *. pose proof (IH H). cbn [length]. lia.
Qed.

Lemma sum_words_eq bs : forall s, bytes_ok bs -> 0 <= s -> s + word_sum bs < 2 ^ 32 ->
  sum_words bs s = s + word_sum bs.
Proof.
  induction bs as [|b|b1 b2 bs IH] using bytes_pair_ind; intros s H Hs Hb; cbn [sum_words word_sum] in *.
  - lia.
  - rewrite be_val2. apply Forall_cons_iff in H as [Hx _]. unfold byte_ok, wadd in *.
    rewrite wrap_small by (unfold in_u; lia). lia.
  - apply Forall_cons_iff in H as [Hb1 H]. apply Forall_cons_iff in H as [Hb2 H].
    pose proof (word_sum_nonneg bs H). rewrite be_val2. unfold byte_ok, wadd in *.
    rewrite wrap_small by (unfold in_u; lia). rewrite IH by (done || lia). lia.
Qed.

(** One round of carry folding keeps the residue and two are enough. *)
Lemma fold_round s :
  0 <= s < 2 ^ 32 ->
  wadd 32 (Z.land s 0xFFFF) (Z.shiftr s 16) = s mod 65536 + s / 65536.
Proof.
  intros Hs. change 0xFFFF with (2 ^ 16 - 1). rewrite land_ones_wrap, Z.shiftr_div_pow2 by lia.
  unfold wadd, wrap at 2. change (2 ^ 16) with 65536. apply wrap_small.
  pose proof (Z.mod_pos_bound s 65536). pose proof (Z.div_pos s 65536).
  pose proof (Z.div_lt_upper_bound s 65536 65536). unfold in_u. lia.
Qed.

Lemma canon_round s : 0 <= s -> canon (s mod 65536 + s / 65536) = canon s.
Proof.
  intros Hs. pose proof (Z.div_mod s 65536 ltac:(lia)) as Hd.
  pose proof (Z.mod_pos_bound s 65536 ltac:(lia)). pose proof (Z.div_pos s 65536 Hs ltac:(lia)).
  set (q := s / 65536) in *. set (r := s mod 65536) in *. unfold canon.
  destruct (Z.eqb_spec (r + q) 0), (Z.eqb_spec s 0); try lia.
  f_equal. replace (s - 1) with (r + q - 1 + q * 65535) by lia. by rewrite Z.mod_add by lia.
Qed.

Lemma canon_small s : 0 <= s < 65536 -> canon s = s.
Proof.
  intros Hs. unfold canon. destruct (Z.eqb_spec s 0); [lia|]. rewrite Z.mod_small by lia. lia.
Qed.

Lemma shiftr16_zero s : 0 <= s -> (Z.shiftr s 16 =? 0) = (s <? 65536).
Proof.
  intros Hs. rewrite Z.shiftr_div_pow2 by lia. change (2 ^ 16) with 65536.
  destruct (Z.ltb_spec s 65536); [rewrite Z.div_small by lia; done|].
  apply Z.eqb_neq. assert (1 <= s / 65536) by (apply Z.div_le_lower_bound; lia). lia.
Qed.

Lemma fold_sum_eq s : 0 <= s < 2 ^ 32 -> fold_sum 3 s = canon s.
Proof.
  intros Hs. cbn [fold_sum].
  assert (Hr : forall x, 0 <= x < 2 ^ 32 -> 0 <= x mod 65536 + x / 65536 <= 65535 + x / 65536).
  { intros x Hx. pose proof (Z.mod_pos_bound x 65536). pose proof (Z.div_pos x 65536). lia. }
  rewrite shiftr16_zero by lia. destruct (Z.ltb_spec s 65536); [by rewrite canon_small by lia|].
  rewrite fold_round by lia. set (s1 := s mod 65536 + s / 65536).
  assert (H1 : 0 <= s1 < 131071).
  { unfold s1. pose proof (Hr s Hs). pose proof (Z.div_lt_upper_bound s 65536 65536). lia. }
  rewrite <- (canon_round s) by lia. fold s1.
  rewrite shiftr16_zero by lia. destruct (Z.ltb_spec s1 65536); [by rewrite canon_small by lia|].
  rewrite fold_round by lia. set (s2 := s1 mod 65536 + s1 / 65536).
  assert (H2 : 0 <= s2 < 65536).
  { unfold s2. assert (Hq : s1 / 65536 = 1) by (symmetry; apply (Z.div_unique s1 65536 1 (s1 - 65536)); lia).
    rewrite Z.mod_eq, Hq by lia. lia. }
  rewrite <- (canon_round s1) by lia. fold s2.
  rewrite shiftr16_zero by lia. destruct (Z.ltb_spec s2 65536); [|lia]. by rewrite canon_small by lia.
Qed.

Lemma canon_range s : 0 <= s -> 0 <= canon s < 65536.
Proof.
  intros Hs. unfold canon. destruct (s =? 0); [lia|].
  pose proof (Z.mod_pos_bound (s - 1) 65535 ltac:(lia)). lia.
Qed.

(** The checksum is the complement of the word sum modulo 65535. *)
Lemma ones_complement_sum_eq bs :
  bytes_ok bs -> zlen bs < 131068 -> ones_complement_sum bs = 65535 - canon (word_sum bs).
Proof.
  intros Hb Hl. pose proof (word_sum_nonneg bs Hb). pose proof (word_sum_bound bs Hb).
  unfold ones_complement_sum. rewrite sum_words_eq, Z.add_0_l by (done || lia).
  rewrite fold_sum_eq by lia. rewrite wrap_small; [done|]. by apply canon_range.
Qed.

(** ** Encoding and decoding *)

Lemma ones_complement_sum_in_u bs : in_u 16 (ones_complement_sum bs).
Proof.
  unfold ones_complement_sum. assert (H : in_u 16 (wrap 16 (fold_sum 3 (sum_words bs 0)))) by auto with squib zarith.
  unfold in_u, wnot in *. lia.
Qed.

Lemma be2_split x : in_u 16 x ->
  exists a b, be_bytes 2 x = [a; b] /\ be_val [a; b] = x /\ byte_ok a /\ byte_ok b.
Proof.
  intros Hx. pose proof (be_bytes_length 2 x) as Hl. pose proof (be_bytes_ok 2 x) as Hb.
  pose proof (be_val_bytes_id 2 x Hx) as Hv. destruct (be_bytes 2 x) as [|a [|b []]]; try done.
  apply Forall_cons_iff in Hb as [Ha Hb]. apply Forall_cons_iff in Hb as [Hb _]. by exists a, b.
Qed.

Lemma be4_split x : in_u 32 x ->
  exists a b c d, be_bytes 4 x = [a; b; c; d] /\ be_val [a; b; c; d] = x /\ bytes_ok [a; b; c; d].
Proof.
  intros Hx. pose proof (be_bytes_length 4 x) as Hl. pose proof (be_bytes_ok 4 x) as Hb.
  pose proof (be_val_bytes_id 4 x Hx) as Hv. destruct (be_bytes 4 x) as [|a [|b [|c [|d []]]]]; try done.
  by exists a, b, c, d.
Qed.

(** A MAC or IP address. *)
Definition addr_ok (n : nat) (a : list Z) : Prop := length a = n /\ bytes_ok a.

Lemma addr4_split a : addr_ok 4 a -> exists x y z t, a = [x; y; z; t] /\ bytes_ok [x; y; z; t].
Proof. intros [Hl Hb]. destruct a as [|x [|y [|z [|t []]]]]; try done. by exists x, y, z, t. Qed.

Lemma addr6_split a : addr_ok 6 a -> exists x y z t u v, a = [x; y; z; t; u; v].
Proof. intros [Hl _]. destruct a as [|x [|y [|z [|t [|u [|v []]]]]]]; try done. by exists x, y, z, t, u, v. Qed.

Lemma eth_roundtrip h rest :
  addr_ok 6 (eth_dst h) -> addr_ok 6 (eth_src h) -> in_u 16 (ethertype h) ->
  eth_parse (eth_to_bytes h ++ rest) = Ok h.
Proof.
  destruct h as [dst src ty]. cbn [eth_dst eth_src ethertype]. intros Hd Hs Ht.
  apply addr6_split in Hd as (?&?&?&?&?&?&->). apply addr6_split in Hs as (?&?&?&?&?&?&->).
  apply be2_split in Ht as (a & b & He & Hv & _). unfold eth_to_bytes. cbn [eth_dst eth_src ethertype].
  rewrite He. unfold eth_parse, be16. cbn -[be_val]. by rewrite Hv.
Qed.

Lemma arp_roundtrip p rest :
  in_u 16 (arp_op p) -> addr_ok 6 (sender_mac p) -> addr_ok 4 (sender_ip p) ->
  addr_ok 6 (target_mac p) -> addr_ok 4 (target_ip p) ->
  arp_parse (arp_to_bytes p ++ rest) = Ok p.
Proof.
  destruct p as [op smac sip tmac tip].
  cbn [arp_op sender_mac sender_ip target_mac target_ip]. intros Ho Hsm Hsi Htm Hti.
  apply addr6_split in Hsm as (?&?&?&?&?&?&->). apply addr6_split in Htm as (?&?&?&?&?&?&->).
  apply addr4_split in Hsi as (?&?&?&?&->&_). apply addr4_split in Hti as (?&?&?&?&->&_).
  apply be2_split in Ho as (a & b & He & Hv & _). unfold arp_to_bytes.
  cbn [arp_op sender_mac sender_ip target_mac target_ip].
  rewrite He. unfold arp_parse, be16. cbn -[be_val]. by rewrite Hv.
Qed.

Record ipv4_ok (h : Ipv4Header) : Prop := mkIpv4Ok {
  io_version : version_ihl h = 0x45;
  io_tos : byte_ok (tos h);
  io_len : in_u 16 (total_len h);
  io_id : in_u 16 (ip_id h);
  io_flags : in_u 16 (flags_frag h);
  io_frag : Z.land (flags_frag h) 0x2000 = 0 /\ Z.land (flags_frag h) 0x1FFF = 0;
  io_ttl : byte_ok (ttl h);
  io_proto : byte_ok (protocol h);
  io_sum : ip_checksum h = 0;
  io_src : addr_ok 4 (ip_src h);
  io_dst : addr_ok 4 (ip_dst h)
}.

Lemma ipv4_roundtrip h rest : ipv4_ok h -> ipv4_parse (ipv4_to_bytes h ++ rest) = Ok h.
Proof.
  intros [Hv Ht Hl Hi Hf [Hf1 Hf2] _ _ Hc Hs Hd]. destruct h as [v t len id ff tl pr ck src dst].
  cbn [version_ihl tos total_len ip_id flags_frag ttl protocol ip_checksum ip_src ip_dst] in *. subst v ck.
  apply addr4_split in Hs as (s1&s2&s3&s4&->&_). apply addr4_split in Hd as (d1&d2&d3&d4&->&_).
  apply be2_split in Hl as (l1 & l2 & El & Vl & _), Hi as (i1 & i2 & Ei & Vi & _), Hf as (f1 & f2 & Ef & Vf & _).
  unfold ipv4_to_bytes. set (ck := ones_complement_sum _).
  assert (Hck : ck = ones_complement_sum (ipv4_bytes (mkIpv4 0x45 t len id ff tl pr 0 [s1; s2; s3; s4] [d1; d2; d3; d4]) 0))
    by done.
  destruct (be2_split ck (ones_complement_sum_in_u _)) as (c1 & c2 & Ec & Vc & _).
  unfold ipv4_bytes in Hck |- *. cbn [version_ihl tos total_len ip_id flags_frag ttl protocol ip_src ip_dst] in *.
  rewrite El, Ei, Ef in Hck. rewrite El, Ei, Ef, Ec. clearbody ck.
  unfold ipv4_parse, be16. cbn -[be_val ones_complement_sum Z.land].
  rewrite Vf, Hf1, Hf2, Vc. cbn -[be_val ones_complement_sum Z.land].
  change (be_bytes 2 0) with [0; 0] in Hck. cbn [app] in Hck. unfold splice. cbn [take drop app length Nat.add].
  rewrite take_0, <- Hck, (Z.eqb_refl ck). cbn -[be_val].
  by rewrite Vl, Vi.
Qed.

Record tcp_ok (h : TcpHeader) : Prop := mkTcpOk {
  to_sport : in_u 16 (src_port h);
  to_dport : in_u 16 (dst_port h);
  to_seq : in_u 32 (seq_no h);
  to_ack : in_u 32 (ack_no h);
  to_offset : data_offset h = 5;
  to_flags : 0 <= tcp_flags h < 64;
  to_window : in_u 16 (window h);
  to_sum : tcp_checksum h = 0;
  to_urgent : in_u 16 (urgent h);
  to_mss : mss h = None
}.

Lemma land_3f x : 0 <= x < 64 -> Z.land x 0x3F = x.
Proof.
  intros Hx. change 0x3F with (2 ^ 6 - 1). rewrite land_ones_wrap by lia.
  apply wrap_small. unfold in_u. lia.
Qed.

(** The twenty header bytes, byte by byte. *)
Lemma tcp_bytes_split h ck :
  tcp_ok h -> in_u 16 ck ->
  exists p1 p2 q1 q2 s1 s2 s3 s4 a1 a2 a3 a4 w1 w2 c1 c2 u1 u2,
    tcp_bytes h ck = [p1; p2; q1; q2; s1; s2; s3; s4; a1; a2; a3; a4; 80; tcp_flags h; w1; w2; c1; c2; u1; u2] /\
    tcp_bytes h 0 = [p1; p2; q1; q2; s1; s2; s3; s4; a1; a2; a3; a4; 80; tcp_flags h; w1; w2; 0; 0; u1; u2] /\
    be_val [p1; p2] = src_port h /\ be_val [q1; q2] = dst_port h /\
    be_val [s1; s2; s3; s4] = seq_no h /\ be_val [a1; a2; a3; a4] = ack_no h /\
    be_val [w1; w2] = window h /\ be_val [c1; c2] = ck /\ be_val [u1; u2] = urgent h.
Proof.
  intros [Hsp Hdp Hsq Hak Hdo _ Hw _ Hu _] Hck. unfold tcp_bytes. rewrite Hdo.
  apply be2_split in Hsp as (p1 & p2 & -> & Hp & _), Hdp as (q1 & q2 & -> & Hq & _),
    Hw as (w1 & w2 & -> & Hw & _), Hu as (u1 & u2 & -> & Hu & _), Hck as (c1 & c2 & -> & Hc & _).
  apply be4_split in Hsq as (s1 & s2 & s3 & s4 & -> & Hs & _), Hak as (a1 & a2 & a3 & a4 & -> & Ha & _).
  by eexists p1, p2, q1, q2, s1, s2, s3, s4, a1, a2, a3, a4, w1, w2, c1, c2, u1, u2.
Qed.

Lemma tcp_roundtrip h src dst payload :
  tcp_ok h ->
  exists hdr, to_bytes_with_payload h src dst payload = hdr ++ payload /\ length hdr = 20%nat /\
    byte_at hdr 12 = 80 /\ tcp_parse hdr payload src dst = Ok h.
Proof.
  intros Hok. unfold to_bytes_with_payload. set (ck := ones_complement_sum _).
  destruct (tcp_bytes_split h ck Hok (ones_complement_sum_in_u _))
    as (p1&p2&q1&q2&s1&s2&s3&s4&a1&a2&a3&a4&w1&w2&c1&c2&u1&u2&Ec&E0&Hp&Hq&Hs&Ha&Hw&Hc&Hu).
  exists (tcp_bytes h ck). split; [done|]. rewrite Ec. split; [done|]. split; [done|].
  unfold ck in Hc. rewrite E0 in Hc. unfold tcp_parse. cbn [length].
  change (Z.shiftr (byte_at _ 12) 4) with 5. cbv zeta.
  change (4 * Z.to_nat 5)%nat with 20%nat. cbn [Nat.ltb Nat.leb orb TCP_HDR_LEN].
  replace (zlen ([p1; p2; q1; q2; s1; s2; s3; s4; a1; a2; a3; a4; 80; tcp_flags h; w1; w2; 0; 0; u1; u2] ++ payload))
    with (Z.of_nat 20 + zlen payload) in Hc by (unfold zlen; rewrite length_app; cbn [length]; lia).
  unfold slice. cbn [take drop app Nat.sub]. cbn [app] in Hc.
  unfold be16, be32, byte_at. cbn [lookup list_lookup Nat.add default from_option]. unfold id.
  rewrite Hc, Z.eqb_refl. cbn [negb]. rewrite Hp, Hq, Hs, Ha, Hw, Hu, land_3f by apply Hok.
  destruct Hok as [_ _ _ _ Hdo _ _ Hsum _ Hm]. destruct h; cbn in *. by subst.
Qed.

Lemma ipv4_build_ok src dst plen id :
  addr_ok 4 src -> addr_ok 4 dst -> in_u 16 plen -> in_u 16 id -> ipv4_ok (ipv4_build src dst Tcp plen id).
Proof.
  intros Hs Hd Hp Hi. constructor; cbn; try done; try (unfold byte_ok, DEFAULT_TTL; lia);
    try (unfold in_u; lia).
  unfold saturating_add, in_u in *. cbn. lia.
Qed.

(** An outbound segment byte by byte: its three parts, and what the parsers make
    of them. *)
Lemma outbound_segment_parts server_ip dst_ip id h payload :
  addr_ok 4 server_ip -> addr_ok 4 dst_ip -> in_u 16 id -> tcp_ok h -> zlen payload <= 65495 ->
  let ip := ipv4_build server_ip dst_ip Tcp (20 + zlen payload) id in
  exists hdr, outbound_segment server_ip dst_ip id h payload = ipv4_to_bytes ip ++ hdr ++ payload /\
    length (ipv4_to_bytes ip) = 20%nat /\ length hdr = 20%nat /\ byte_at hdr 12 = 80 /\
    total_len ip = 40 + zlen payload /\
    (forall rest, ipv4_parse (ipv4_to_bytes ip ++ rest) = Ok ip) /\
    tcp_parse hdr payload server_ip dst_ip = Ok h.
Proof.
  intros Hs Hd Hi Hok Hl ip.
  destruct (tcp_roundtrip h server_ip dst_ip payload Hok) as (hdr & He & Hlen & H12 & Hp).
  unfold outbound_segment. rewrite He.
  assert (Hz : zlen (hdr ++ payload) = 20 + zlen payload) by (unfold zlen; rewrite length_app, Hlen; lia).
  assert (0 <= zlen payload) by (unfold zlen; lia).
  assert (Hm : u16_or_max (zlen (hdr ++ payload)) = 20 + zlen payload).
  { unfold u16_or_max. rewrite Hz. destruct (Z.ltb_spec (20 + zlen payload) (2 ^ 16)); [done|lia]. }
  rewrite Hm. fold ip.
  assert (Hip : ipv4_ok ip) by (apply ipv4_build_ok; try done; unfold in_u; lia).
  exists hdr. split_and!; try done.
  - unfold ipv4_to_bytes, ipv4_bytes. autorewrite with lengths. cbn [length].
    change (ip_src ip) with server_ip. change (ip_dst ip) with dst_ip.
    destruct Hs as [-> _], Hd as [-> _]. done.
  - cbn. unfold saturating_add, IPV4_HDR_LEN. lia.
  - intros rest. by apply ipv4_roundtrip.
Qed.

(** Every segment the server emits is accepted by the parsers: the IPv4
    header comes back field by field with the total length of the frame, and
    the TCP header and payload found at the offsets that header implies are the
    ones that were sent. *)
Theorem segment_roundtrip server_ip dst_ip id h payload :
  addr_ok 4 server_ip -> addr_ok 4 dst_ip -> in_u 16 id -> tcp_ok h -> zlen payload <= 65495 ->
  let frame := outbound_segment server_ip dst_ip id h payload in
  exists ip, ipv4_parse frame = Ok ip /\ total_len ip = zlen frame /\
    protocol ip = protocol_byte Tcp /\ ip_src ip = server_ip /\ ip_dst ip = dst_ip /\
    tcp_parse (slice 20 20 frame) (slice 40 (Z.to_nat (payload_len ip - 20)) frame) (ip_src ip) (ip_dst ip) = Ok h /\
    slice 40 (Z.to_nat (payload_len ip - 20)) frame = payload.
Proof.
  intros Hs Hd Hi Hok Hl frame.
  destruct (outbound_segment_parts server_ip dst_ip id h payload) as (hdr & He & H20 & Hlen & _ & Htl & Hip & Hp);
    try done.
  set (ip := ipv4_build server_ip dst_ip Tcp (20 + zlen payload) id) in *.
  unfold frame. rewrite He.
  assert (Hpl : Z.to_nat (payload_len ip - 20) = length payload).
  { unfold payload_len, saturating_sub, IPV4_HDR_LEN. rewrite Htl. unfold zlen. lia. }
  assert (S1 : slice 20 20 (ipv4_to_bytes ip ++ hdr ++ payload) = hdr).
  { unfold slice. rewrite drop_app_length' by done. by rewrite take_app_length' by done. }
  assert (S2 : slice 40 (length payload) (ipv4_to_bytes ip ++ hdr ++ payload) = payload).
  { unfold slice. rewrite app_assoc, drop_app_length' by (rewrite length_app; lia). by rewrite take_ge by lia. }
  exists ip. rewrite Hpl, S1, S2. split_and!; try done.
  rewrite Htl. unfold zlen. rewrite !length_app, H20, Hlen. lia.
Qed.

(** ** Corruption *)

Lemma ipv4_parse_checksum bytes h :
  ipv4_parse bytes = Ok h ->
  (20 <= length bytes)%nat /\ ones_complement_sum (splice 10 [0; 0] (take 20 bytes)) = be16 bytes 10.
Proof.
  unfold ipv4_parse. intros H. destruct (Nat.ltb_spec (length bytes) IPV4_HDR_LEN); [done|].
  repeat (match type of H with context [if ?c then _ else _] => destruct c eqn:?; [done|] end).
  split; [done|]. bool_to_prop. done.
Qed.

Lemma canon_mod s : 0 <= s -> canon s mod 65535 = s mod 65535.
Proof.
  intros Hs. unfold canon. destruct (Z.eqb_spec s 0) as [->|]; [done|].
  rewrite <- Zplus_mod_idemp_l, Zmod_mod, Zplus_mod_idemp_l. f_equal. lia.
Qed.

Lemma mod_shift a x y m : 0 < m -> a mod m = (a - x + y) mod m -> x mod m = y mod m.
Proof.
  intros Hm H. pose proof (Z.div_mod a m ltac:(lia)). pose proof (Z.div_mod (a - x + y) m ltac:(lia)).
  set (d := a / m - (a - x + y) / m) in *. replace x with (y + d * m) by (unfold d; lia).
  by rewrite Z.mod_add by lia.
Qed.

(** Two headers with the same checksum have the same word sum modulo 65535. *)
Lemma same_checksum bs bs' :
  bytes_ok bs -> bytes_ok bs' -> length bs = 20%nat -> length bs' = 20%nat ->
  ones_complement_sum bs = ones_complement_sum bs' -> word_sum bs mod 65535 = word_sum bs' mod 65535.
Proof.
  intros Hb Hb' Hl Hl' H. rewrite !ones_complement_sum_eq in H by (done || (unfold zlen; lia)).
  rewrite <- (canon_mod (word_sum bs)), <- (canon_mod (word_sum bs')) by (by apply word_sum_nonneg).
  f_equal. lia.
Qed.

(** Replacing the word at [2 * k] changes the word sum by the difference. *)
Lemma word_sum_splice k : forall bs a b,
  (2 * k + 2 <= length bs)%nat ->
  word_sum (splice (2 * k) [a; b] bs) = word_sum bs - be16 bs (2 * k) + (256 * a + b).
Proof.
  induction k as [|k IH]; intros bs a b Hl.
  - destruct bs as [|x [|y bs]]; cbn [length] in Hl; try lia. unfold splice, be16. cbn -[Z.mul be_val].
    rewrite drop_0. rewrite be_val2. unfold byte_at. cbn. lia.
  - destruct bs as [|x [|y bs]]; cbn [length] in Hl; try lia.
    replace (2 * S k)%nat with (S (S (2 * k))) by lia.
    assert (Hsp : splice (S (S (2 * k))) [a; b] (x :: y :: bs) = x :: y :: splice (2 * k) [a; b] bs) by done.
    rewrite Hsp. cbn [word_sum]. rewrite IH by lia.
    assert (Hbe : be16 (x :: y :: bs) (S (S (2 * k))) = be16 bs (2 * k)) by done. rewrite Hbe. lia.
Qed.

Lemma be16_splice_ne k j bs a b :
  (2 * k + 2 <= length bs)%nat -> k <> j -> be16 (splice (2 * k) [a; b] bs) (2 * j) = be16 bs (2 * j).
Proof.
  intros Hl Hne. unfold be16, byte_at. rewrite !splice_lookup by (cbn; lia).
  repeat case_decide; (cbn [length] in *; lia) || done.
Qed.

Lemma be16_splice_eq k bs a b :
  (2 * k + 2 <= length bs)%nat -> be16 (splice (2 * k) [a; b] bs) (2 * k) = 256 * a + b.
Proof.
  intros Hl. unfold be16, byte_at. rewrite !splice_lookup by (cbn; lia).
  repeat case_decide; try (cbn [length] in *; lia).
  replace (2 * k - 2 * k)%nat with 0%nat by lia. replace (2 * k + 1 - 2 * k)%nat with 1%nat by lia.
  cbn -[be_val Z.mul]. apply be_val2.
Qed.

Lemma be16_take n bs i : (i + 1 < n)%nat -> be16 (take n bs) i = be16 bs i.
Proof. intros Hi. unfold be16, byte_at. by rewrite !lookup_take_lt by lia. Qed.

Lemma take_splice n off bs (l : list Z) :
  (off + length bs <= n)%nat -> (n <= length l)%nat -> take n (splice off bs l) = splice off bs (take n l).
Proof.
  intros Hn Hl. apply list_eq. intros i. rewrite splice_lookup by (rewrite length_take; lia).
  rewrite !lookup_take. rewrite splice_lookup by lia. repeat case_decide; (lia || done).
Qed.

Lemma zeroed_ok bytes :
  bytes_ok bytes -> (20 <= length bytes)%nat ->
  bytes_ok (splice 10 [0; 0] (take 20 bytes)) /\ length (splice 10 [0; 0] (take 20 bytes)) = 20%nat.
Proof.
  intros Hb Hl. split.
  - apply splice_Forall; [repeat constructor; unfold byte_ok; lia|by apply Forall_take].
  - rewrite splice_length; rewrite length_take; cbn [length]; lia.
Qed.

(** An IPv4 header in which one 16-bit word was replaced by another that is
    not congruent to it modulo 65535 (that is, by any other word unless the pair
    is 0 and 0xFFFF) is never accepted. *)
Theorem corrupt_word_rejected bytes h k w :
  bytes_ok bytes -> ipv4_parse bytes = Ok h -> (k < 10)%nat -> in_u 16 w ->
  w mod 65535 <> be16 bytes (2 * k) mod 65535 ->
  exists e, ipv4_parse (splice (2 * k) (be_bytes 2 w) bytes) = Err e.
Proof.
  intros Hb Hp Hk Hw Hne. destruct (ipv4_parse (splice _ _ _)) as [h'|e] eqn:Hp'; [|by exists e].
  exfalso. apply ipv4_parse_checksum in Hp as [Hl Hc], Hp' as [Hl' Hc'].
  apply be2_split in Hw as (a & b & He & Hv & Ha & Hbb). rewrite He in *. rewrite be_val2 in Hv.
  rewrite take_splice in Hc' by (cbn [length]; lia). set (B := take 20 bytes) in *.
  assert (HB : length B = 20%nat) by (unfold B; rewrite length_take; lia).
  set (X := splice (2 * k) [a; b] B) in *.
  assert (HX : length X = 20%nat) by (unfold X; rewrite splice_length by (change (length [a; b]) with 2%nat; lia); exact HB).
  destruct (decide (k = 5%nat)) as [->|Hk5].
  - assert (Hxx : splice 10 [0; 0] X = splice 10 [0; 0] B).
    { apply list_eq. intros i. rewrite !splice_lookup by (cbn [length]; lia). case_decide; [done|].
      unfold X. rewrite splice_lookup by (cbn [length]; lia). case_decide; [cbn [length] in *; lia|done]. }
    rewrite Hxx, Hc in Hc'. apply Hne. change 10%nat with (2 * 5)%nat in Hc'.
    rewrite be16_splice_eq in Hc' by lia. rewrite Hc'. by f_equal.
  - destruct (zeroed_ok bytes Hb Hl) as [Z1 Z2]. fold B in Z1, Z2.
    assert (Z3 : bytes_ok (splice 10 [0; 0] X)).
    { apply splice_Forall; [repeat constructor; unfold byte_ok; lia|].
      apply splice_Forall; [|by apply Forall_take].
      apply Forall_cons_2; [done|]. by apply Forall_cons_2; [|apply Forall_nil_2]. }
    assert (Z4 : length (splice 10 [0; 0] X) = 20%nat)
      by (rewrite splice_length by (change (length [0; 0]) with 2%nat; lia); exact HX).
    change 10%nat with (2 * 5)%nat in Hc, Hc', Z1, Z2, Z3, Z4.
    rewrite be16_splice_ne, <- Hc in Hc' by lia.
    pose proof (same_checksum _ _ Z1 Z3 Z2 Z4 (eq_sym Hc')) as Hs.
    rewrite !word_sum_splice in Hs by lia. unfold X in Hs.
    rewrite word_sum_splice, be16_splice_ne in Hs by lia.
    apply Hne. symmetry. apply (mod_shift (word_sum B - be16 B (2 * 5) + (256 * 0 + 0))); [lia|].
    rewrite Hs. unfold B at 2. rewrite be16_take by lia. f_equal. lia.
Qed.

(** ** Termination of the option walk *)

(** The index grows by at least one per round, so any two fuels that cover the
    rest of the header agree: [hdr_len] rounds never cut the walk short. *)
Lemma mss_loop_fuel bytes hdr_len : forall fuel fuel' i found,
  (hdr_len <= i + fuel)%nat -> (hdr_len <= i + fuel')%nat ->
  mss_loop fuel bytes hdr_len i found = mss_loop fuel' bytes hdr_len i found.
Proof.
  induction fuel as [|fuel IH]; intros [|fuel'] i found H H'; cbn [mss_loop]; try done.
  - destruct (Nat.ltb_spec (i + 1) hdr_len); [lia|done].
  - destruct (Nat.ltb_spec (i + 1) hdr_len); [lia|done].
  - destruct (Nat.ltb_spec (i + 1) hdr_len); [|done].
    destruct (byte_at bytes i =? 0); [done|]. destruct (byte_at bytes i =? 1); [apply IH; lia|].
    destruct (hdr_len <=? i + 1)%nat; [done|].
    destruct (Nat.ltb_spec (Z.to_nat (byte_at bytes (i + 1))) 2); [done|]. cbn [orb].
    destruct (hdr_len <? i + _)%nat; [done|]. apply IH; lia.
Qed.

(** ** Concrete packets *)

Definition demo_ip : list Z := [169; 254; 169; 254].
Definition demo_guest : list Z := [172; 16; 0; 2].
Definition demo_tcp : TcpHeader := tcp_build 80 40000 0x40000001 7 (Z.lor TCP_ACK TCP_PSH) 65535.

Lemma demo_addrs : addr_ok 4 demo_ip /\ addr_ok 4 demo_guest.
Proof. repeat split; try done; repeat (apply Forall_cons_2; [unfold byte_ok; lia|]); apply Forall_nil_2. Qed.

Lemma demo_tcp_ok : tcp_ok demo_tcp.
Proof. constructor; cbn; try done; unfold in_u; lia. Qed.

Lemma segment_roundtrip_witness :
  exists ip, ipv4_parse (outbound_segment demo_ip demo_guest 9 demo_tcp [72; 105]) = Ok ip /\ total_len ip = 42.
Proof.
  destruct (segment_roundtrip demo_ip demo_guest 9 demo_tcp [72; 105]) as (ip & Hp & Hl & _);
    [apply demo_addrs|apply demo_addrs|unfold in_u; lia|exact demo_tcp_ok|vm_compute; discriminate|].
  exists ip. split; [exact Hp|]. etransitivity; [exact Hl|]. vm_compute. reflexivity.
Defined.

Definition demo_header : list Z := ipv4_to_bytes (ipv4_build demo_ip demo_guest Tcp 20 9).

Lemma demo_header_ok : bytes_ok demo_header.
Proof.
  vm_compute. repeat (apply Forall_cons_2; [split; [discriminate|reflexivity]|]). apply Forall_nil_2.
Qed.

Lemma corrupt_word_rejected_witness :
  exists e, ipv4_parse (splice 8 (be_bytes 2 0x0106) demo_header) = Err e.
Proof.
  apply (corrupt_word_rejected demo_header (ipv4_build demo_ip demo_guest Tcp 20 9) 4 0x0106);
    [exact demo_header_ok|vm_compute; reflexivity|lia|unfold in_u; lia|vm_compute; discriminate].
Defined.
