(* ===== verification/Http.v ===== *)
(** * Http: the request parser of the metadata server

    Models the HTTP half of [src/crates/mmds/src/tcp.rs]: [try_parse_http] and
    the wire form of a response. *)

From stdpp Require Import base numbers list option gmap strings.
From Stdlib Require Import ZArith Lia.
From S2P Require Import Prelude Text.

Local Open Scope Z_scope.
Local Open Scope squib_scope.

(** ** Requests and responses *)

Record HttpResponse := mkResponse { rs_status : Z; rs_body : list Z }.

Definition reason (status : Z) : list Z :=
  if status =? 200 then lit "OK"
  else if status =? 400 then lit "Bad Request"
  else if status =? 401 then lit "Unauthorized"
  else if status =? 404 then lit "Not Found"
  else if status =? 405 then lit "Method Not Allowed"
  else if status =? 413 then lit "Payload Too Large"
  else if status =? 414 then lit "URI Too Long"
  else if status =? 500 then lit "Internal Server Error"
  else lit "Unknown".

Definition to_wire (r : HttpResponse) : list Z :=
  lit "HTTP/1.1 " ++ decimal (rs_status r) ++ lit " " ++ reason (rs_status r) ++ [CR; LF] ++
  lit "Content-Length: " ++ decimal (zlen (rs_body r)) ++ [CR; LF] ++
  lit "Content-Type: application/json" ++ [CR; LF] ++ lit "Connection: close" ++ [CR; LF; CR; LF] ++
  rs_body r.

Record HttpRequest := mkRequest {
  rq_method : list Z;
  rq_path : list Z;
  rq_token_header : option (list Z);
  rq_ttl_header : option Z;
  rq_body : list Z
}.

Definition MAX_REQUEST_BYTES : Z := 16 * 1024.

Inductive HttpParseOutcome :=
  | Incomplete
  | Complete (req : HttpRequest)
  | Malformed
  | TooLarge.

(** [haystack.windows(needle.len()).position(|w| w == needle)]; the needle is
    never empty. *)
Fixpoint find_subsequence (haystack needle : list Z) : option nat :=
  if decide (take (length needle) haystack = needle) then Some O
  else
    match haystack with
    | [] => None
    | _ :: rest => S <$> find_subsequence rest needle
    end.

(** [line.find(':')] and the two sides of the colon. *)
Fixpoint split_header (line : list Z) : option (list Z * list Z) :=
  match line with
  | [] => None
  | c :: rest =>
      if c =? 58 then Some ([], rest)
      else
        match split_header rest with
        | Some (name, value) => Some (c :: name, value)
        | None => None
        end
  end.

(** The three variables of the header loop. *)
Record Headers := mkHeaders {
  content_length : Z;
  token_header : option (list Z);
  ttl_header : option Z
}.

Definition scan_line (h : Headers) (line : list Z) : Headers :=
  match split_header line with
  | None => h
  | Some (name, value) =>
      if eq_ignore_ascii_case name (lit "content-length") then
        mkHeaders (default 0 (parse_uint 64 (trim value))) (token_header h) (ttl_header h)
      else if eq_ignore_ascii_case name (lit "x-aws-ec2-metadata-token") then
        mkHeaders (content_length h) (Some (to_string (trim value))) (ttl_header h)
      else if eq_ignore_ascii_case name (lit "x-aws-ec2-metadata-token-ttl-seconds") then
        mkHeaders (content_length h) (token_header h) (parse_uint 32 (trim value))
      else h
  end.

(** The request line and the headers: [None] is the malformed outcome. *)
Definition parse_head (header_bytes : list Z) : option (list Z * list Z * Headers) :=
  match from_utf8 header_bytes with
  | None => None
  | Some header_str =>
      match split_crlf header_str with
      | [] => None
      | request_line :: lines =>
          match split_whitespace request_line with
          | method :: path :: _ =>
              Some (to_string method, to_string path,
                    foldl scan_line (mkHeaders 0 None None) lines)
          | _ => None
          end
      end
  end.

Definition HEAD_END : list Z := [CR; LF; CR; LF].

(** [try_parse_http]; [None] is the panic of the body slice when its end lies
    before its start. *)
Definition try_parse_http (buf : list Z) : option HttpParseOutcome :=
  if MAX_REQUEST_BYTES <? zlen buf then Some TooLarge
  else
    match find_subsequence buf HEAD_END with
    | None => Some Incomplete
    | Some header_end =>
        match parse_head (take header_end buf) with
        | None => Some Malformed
        | Some (method, path, h) =>
            let body_start := Z.of_nat header_end + 4 in
            let body_end := wadd 64 body_start (content_length h) in
            if MAX_REQUEST_BYTES <? body_end then Some TooLarge
            else if zlen buf <? body_end then Some Incomplete
            else if body_end <? body_start then None
            else Some (Complete (mkRequest method path (token_header h) (ttl_header h)
                         (slice (Z.to_nat body_start) (Z.to_nat (body_end - body_start)) buf)))
        end
    end.

(** ** Header lines *)

Lemma split_header_at name v :
  Forall (fun c => c <> 58) name -> split_header (name ++ 58 :: v) = Some (name, v).
Proof.
  induction 1 as [|c name Hc _ IH]; [done|]. cbn. rewrite (proj2 (Z.eqb_neq c 58)) by done.
  by rewrite IH.
Qed.

(** ** Finding the end of the head *)

Lemma find_skip c s :
  take 4 (c :: s) <> HEAD_END -> find_subsequence (c :: s) HEAD_END = S <$> find_subsequence s HEAD_END.
Proof. intros H. cbn [find_subsequence]. by rewrite decide_False. Qed.

Lemma find_line l s :
  no_cr l -> find_subsequence (l ++ s) HEAD_END = Nat.add (length l) <$> find_subsequence s HEAD_END.
Proof.
  induction 1 as [|c l Hc _ IH]; cbn [app length].
  - by destruct (find_subsequence s HEAD_END).
  - rewrite find_skip by (cbn; intros [= ]; done). rewrite IH. by destruct (find_subsequence s HEAD_END).
Qed.

Lemma find_head ls rest :
  Forall (fun l => l <> [] /\ no_cr l) ls -> ls <> [] ->
  find_subsequence (join_lines ls ++ HEAD_END ++ rest) HEAD_END = Some (length (join_lines ls)).
Proof.
  intros Hls. induction Hls as [|l [|l' ls] [Hn Hl] Hls IH]; intros Hne; [done| |].
  - cbn [join_lines]. rewrite find_line by done.
    change (find_subsequence (HEAD_END ++ rest) HEAD_END) with (Some 0%nat). cbn. f_equal. lia.
  - change (join_lines (l :: l' :: ls)) with (l ++ [CR; LF] ++ join_lines (l' :: ls)).
    rewrite <- !app_assoc, find_line by done. set (J := join_lines (l' :: ls)) in *.
    assert (exists c t, J = c :: t /\ c <> CR) as (c & t & HJ & Hc).
    { apply Forall_cons_iff in Hls as [[Hn' Hl'] _]. destruct l' as [|c l']; [done|].
      apply Forall_cons_iff in Hl' as [Hc _]. exists c. unfold J.
      destruct ls; cbn; eexists; (split; [reflexivity|done]). }
    change ([CR; LF] ++ J ++ HEAD_END ++ rest) with (CR :: LF :: (J ++ HEAD_END ++ rest)).
    rewrite find_skip by (rewrite HJ; cbn; intros [= ]; done).
    rewrite find_skip by done. rewrite IH by done. cbn. f_equal. rewrite length_app. cbn. lia.
Qed.

(** A match inside a prefix is the match of the whole. *)
Lemma find_take s : forall k i,
  find_subsequence (take k s) HEAD_END = Some i ->
  find_subsequence s HEAD_END = Some i /\ (i + 4 <= k)%nat /\ (i + 4 <= length s)%nat.
Proof.
  induction s as [|c s IH]; intros k i H; [by rewrite take_nil in H|].
  destruct k as [|k]; [done|]. cbn [take find_subsequence] in *.
  change (length HEAD_END) with 4%nat in *.
  destruct (decide (take 4 (c :: take k s) = HEAD_END)) as [Ht|Ht].
  - injection H as <-. change (c :: take k s) with (take (S k) (c :: s)) in Ht.
    rewrite take_take in Ht. assert (Hk : (4 <= S k /\ 4 <= length (c :: s))%nat).
    { apply (f_equal length) in Ht. rewrite length_take in Ht.
      change (length HEAD_END) with 4%nat in Ht. lia. }
    rewrite Nat.min_l in Ht by lia. rewrite decide_True by done. split; [done|lia].
  - destruct (find_subsequence (take k s) HEAD_END) as [j|] eqn:Hj; [|done].
    injection H as <-. destruct (IH _ _ Hj) as (Hf & Hk & Hl). rewrite decide_False, Hf.
    + cbn [length]. split; [done|lia].
    + intros He. apply Ht. change (c :: take k s) with (take (S k) (c :: s)).
      rewrite take_take. rewrite Nat.min_l by lia. done.
Qed.

(** ** A client's request

    The request a client sends, as text; the parser must give it back. *)

Record ClientRequest := mkClient {
  cl_method : list Z;
  cl_path : list Z;
  cl_token : option (list Z);
  cl_ttl : option Z;
  cl_body : list Z
}.

Definition request_lines (r : ClientRequest) : list (list Z) :=
  [cl_method r ++ 32 :: cl_path r ++ 32 :: lit "HTTP/1.1";
   lit "Content-Length" ++ 58 :: 32 :: decimal (zlen (cl_body r))] ++
  match cl_token r with
  | Some t => [lit "X-aws-ec2-metadata-token" ++ 58 :: 32 :: t]
  | None => []
  end ++
  match cl_ttl r with
  | Some n => [lit "X-aws-ec2-metadata-token-ttl-seconds" ++ 58 :: 32 :: decimal n]
  | None => []
  end.

Definition request_head (r : ClientRequest) : list Z := to_string (join_lines (request_lines r)).

Definition request_bytes (r : ClientRequest) : list Z := request_head r ++ HEAD_END ++ cl_body r.

(** What the server makes of it. *)
Definition request_of (r : ClientRequest) : HttpRequest :=
  mkRequest (to_string (cl_method r)) (to_string (cl_path r)) (to_string <$> cl_token r)
    (cl_ttl r) (cl_body r).

Record client_ok (r : ClientRequest) : Prop := {
  co_method : cl_method r <> [] /\ no_space (cl_method r) /\ Forall scalar (cl_method r);
  co_path : cl_path r <> [] /\ no_space (cl_path r) /\ Forall scalar (cl_path r);
  co_token : forall t, cl_token r = Some t -> trimmed t /\ no_cr t /\ Forall scalar t;
  co_ttl : forall n, cl_ttl r = Some n -> in_u 32 n;
  co_size : zlen (request_bytes r) <= MAX_REQUEST_BYTES
}.

(** Every line is non-empty text without CR. *)
Definition good_line (l : list Z) : Prop := l <> [] /\ no_cr l /\ Forall scalar l.

Lemma header_line name v :
  forallb (fun c => (32 <=? c) && (c <? 127)) (lit name) = true ->
  Forall scalar v -> no_cr v -> good_line (lit name ++ 58 :: 32 :: v).
Proof.
  intros [Hs Hc]%lit_plain Hv Hv'. unfold good_line. split_and!.
  - by destruct (lit name).
  - apply Forall_app. split; [done|]. by repeat apply Forall_cons_2.
  - apply Forall_app. split; [done|]. repeat apply Forall_cons_2; try done; unfold scalar; lia.
Qed.

Lemma request_lines_good r : client_ok r -> Forall good_line (request_lines r).
Proof.
  intros [(Hm0 & Hm1 & Hm2) (Hp0 & Hp1 & Hp2) Ht Hn _]. unfold request_lines.
  assert (Hdec : forall n, 0 <= n -> Forall scalar (decimal n) /\ no_cr (decimal n)).
  { intros n Hn'. destruct (decimal_plain n Hn'). split; [done|by apply no_space_no_cr]. }
  destruct (lit_plain "HTTP/1.1" eq_refl) as [Hv1 Hv2]. repeat apply Forall_app_2.
  - apply Forall_cons_2; [|apply Forall_cons_2; [|apply Forall_nil_2]].
    + unfold good_line. split_and!; [by destruct (cl_method r)| |].
      * apply Forall_app_2; [by apply no_space_no_cr|]. apply Forall_cons_2; [done|].
        apply Forall_app_2; [by apply no_space_no_cr|]. by apply Forall_cons_2.
      * assert (scalar 32) by (unfold scalar; lia). apply Forall_app_2; [done|].
        apply Forall_cons_2; [done|]. apply Forall_app_2; [done|]. by apply Forall_cons_2.
    + destruct (Hdec (zlen (cl_body r))) as [H1 H2]; [unfold zlen; lia|]. by apply header_line.
  - destruct (cl_token r) as [t|]; [|apply Forall_nil_2].
    destruct (Ht t eq_refl) as (_ & H1 & H2). apply Forall_cons_2; [|apply Forall_nil_2].
    by apply header_line.
  - destruct (cl_ttl r) as [n|]; [|apply Forall_nil_2]. pose proof (Hn n eq_refl) as Hu.
    destruct (Hdec n) as [H1 H2]; [apply Hu|]. apply Forall_cons_2; [|apply Forall_nil_2].
    by apply header_line.
Qed.

Lemma join_scalar ls : Forall good_line ls -> Forall scalar (join_lines ls).
Proof.
  induction 1 as [|l [|l' ls] (_ & _ & Hl) Hls IH]; [apply Forall_nil_2|done|].
  apply Forall_app_2; [done|]. repeat (apply Forall_cons_2; [unfold scalar, CR, LF; lia|]). done.
Qed.

Lemma scan_header h name v :
  forallb (fun c => negb (c =? 58)) (lit name) = true -> trimmed v ->
  scan_line h (lit name ++ 58 :: 32 :: v) =
  if eq_ignore_ascii_case (lit name) (lit "content-length") then
    mkHeaders (default 0 (parse_uint 64 v)) (token_header h) (ttl_header h)
  else if eq_ignore_ascii_case (lit name) (lit "x-aws-ec2-metadata-token") then
    mkHeaders (content_length h) (Some (to_string v)) (ttl_header h)
  else if eq_ignore_ascii_case (lit name) (lit "x-aws-ec2-metadata-token-ttl-seconds") then
    mkHeaders (content_length h) (token_header h) (parse_uint 32 v)
  else h.
Proof.
  intros Hn Hv. unfold scan_line. rewrite split_header_at, trim_space; [done|done|].
  rewrite forallb_forall in Hn. apply Forall_forall. intros c Hc.
  apply list_elem_of_In, Hn in Hc. by bool_to_prop.
Qed.

Lemma decimal_trimmed n : 0 <= n -> trimmed (decimal n).
Proof. intros H. apply no_space_trimmed. by apply decimal_plain. Qed.

Lemma client_body_small r : client_ok r -> in_u 64 (zlen (cl_body r)).
Proof.
  intros [_ _ _ _ H]. unfold request_bytes, MAX_REQUEST_BYTES, zlen in *.
  rewrite !length_app in H. unfold in_u. lia.
Qed.

Lemma parse_request_head r :
  client_ok r ->
  parse_head (request_head r) =
  Some (to_string (cl_method r), to_string (cl_path r),
        mkHeaders (zlen (cl_body r)) (to_string <$> cl_token r) (cl_ttl r)).
Proof.
  intros Hr. pose proof (request_lines_good r Hr) as Hg. pose proof (client_body_small r Hr) as Hb.
  destruct Hr as [(Hm0 & Hm1 & _) (Hp0 & Hp1 & _) Ht Hn _].
  unfold parse_head, request_head. rewrite utf8_roundtrip by (by apply join_scalar).
  rewrite split_join; [|eapply Forall_impl; [exact Hg|]; cbn; intros ? (_ & ? & _); done|done].
  unfold request_lines in *. cbn [app]. unfold split_whitespace.
  rewrite split_word by done. rewrite split_word by done. do 2 f_equal. cbn [foldl].
  rewrite scan_header by (done || apply decimal_trimmed; apply Hb).
  change (eq_ignore_ascii_case (lit "Content-Length") (lit "content-length")) with true. cbn [token_header ttl_header].
  rewrite parse_decimal by done. rewrite foldl_app. cbn [default].
  assert (Htok : foldl scan_line (mkHeaders (zlen (cl_body r)) None None)
    match cl_token r with Some t => [lit "X-aws-ec2-metadata-token" ++ 58 :: 32 :: t] | None => [] end
    = mkHeaders (zlen (cl_body r)) (to_string <$> cl_token r) None).
  { destruct (cl_token r) as [t|]; [|done]. cbn [foldl]. rewrite scan_header; [done|done|].
    by apply Ht. }
  unfold id. rewrite Htok. destruct (cl_ttl r) as [n|]; [|done]. cbn [foldl].
  pose proof (Hn n eq_refl) as Hu. rewrite scan_header by (done || apply decimal_trimmed; apply Hu).
  rewrite (parse_decimal 32) by done. done.
Qed.

(** ** Parsing a stream of chunks *)

Lemma request_head_found r rest :
  client_ok r ->
  find_subsequence (request_head r ++ HEAD_END ++ rest) HEAD_END = Some (length (request_head r)).
Proof.
  intros Hr%request_lines_good. unfold request_head. rewrite to_string_join. apply find_head.
  - apply Forall_map. eapply Forall_impl; [exact Hr|]. intros l (Hn & Hc & Hs). by apply to_string_line.
  - done.
Qed.

(** Any prefix of a request is incomplete, and the request itself parses to what
    the client meant. *)
Lemma request_prefix r k :
  client_ok r ->
  try_parse_http (take k (request_bytes r)) =
  Some (if decide (length (request_bytes r) <= k)%nat then Complete (request_of r) else Incomplete).
Proof.
  intros Hr. pose proof (co_size r Hr) as Hsz. unfold try_parse_http.
  set (full := request_bytes r) in *. set (n := length (request_head r)).
  assert (Hlen : length full = (n + 4 + length (cl_body r))%nat)
    by (unfold full, request_bytes, n; rewrite !length_app; cbn; lia).
  assert (Hk : zlen (take k full) = Z.min (Z.of_nat k) (zlen full))
    by (unfold zlen; rewrite length_take; lia).
  rewrite (proj2 (Z.ltb_ge _ _)) by lia.
  destruct (find_subsequence (take k full) HEAD_END) as [i|] eqn:Hf.
  - apply find_take in Hf as (Hf & Hi & _). unfold full, request_bytes in Hf.
    rewrite request_head_found in Hf by done. injection Hf as <-. fold n in Hi |- *.
    rewrite take_take, Nat.min_l by lia.
    replace (take n full) with (request_head r) by (unfold full, request_bytes, n; by rewrite take_app_length).
    rewrite parse_request_head by done. cbn [content_length token_header ttl_header].
    assert (Hend : wadd 64 (Z.of_nat n + 4) (zlen (cl_body r)) = zlen full).
    { unfold wadd. rewrite wrap_small; unfold zlen, MAX_REQUEST_BYTES, in_u in *; lia. }
    rewrite Hend. rewrite (proj2 (Z.ltb_ge MAX_REQUEST_BYTES _)) by lia. rewrite Hk.
    case_decide as Hd; unfold zlen in *.
    + rewrite !(proj2 (Z.ltb_ge _ _)) by lia. do 2 f_equal. unfold request_of. f_equal.
      rewrite take_ge by lia. replace (Z.to_nat (Z.of_nat n + 4)) with (n + 4)%nat by lia.
      replace (Z.to_nat _) with (length (cl_body r)) by lia. unfold slice, full, request_bytes.
      rewrite app_assoc, drop_app_ge by (rewrite length_app; cbn; lia).
      rewrite length_app. replace (n + 4 - _)%nat with 0%nat by (cbn; lia).
      rewrite drop_0. by apply take_ge.
    + by rewrite (proj2 (Z.ltb_lt _ _)) by lia.
  - case_decide as Hd; [|done]. rewrite take_ge in Hf by done. unfold full, request_bytes in Hf.
    by rewrite request_head_found in Hf.
Qed.

(** ** The panic *)

Lemma parse_digits_bound w s : forall a n, 0 <= a < 2 ^ w -> parse_digits w a s = Some n -> in_u w n.
Proof.
  induction s as [|c s IH]; intros a n Ha H; cbn in H; [by simplify_eq|].
  unfold checked_mul, checked_add in H. repeat case_match; simplify_eq. bool_to_prop.
  eapply IH; [|done]. lia.
Qed.

Lemma parse_uint_bound w s n : 0 < w -> parse_uint w s = Some n -> in_u w n.
Proof.
  intros Hw. pose proof (Z.pow_pos_nonneg 2 w). unfold parse_uint.
  destruct s as [|c [|d s]]; [done| |]; intros Hp; (eapply parse_digits_bound; [|exact Hp]); lia.
Qed.

Lemma scan_content_length lines : forall h,
  in_u 64 (content_length h) -> in_u 64 (content_length (foldl scan_line h lines)).
Proof.
  induction lines as [|l lines IH]; intros h Hh; [done|]. cbn [foldl]. apply IH.
  unfold scan_line. repeat case_match; try done. cbn.
  destruct (parse_uint 64 _) as [n|] eqn:Hn; cbn; [|unfold in_u; lia].
  eapply parse_uint_bound; [lia|exact Hn].
Qed.

Lemma parse_head_length bs m p h : parse_head bs = Some (m, p, h) -> in_u 64 (content_length h).
Proof.
  unfold parse_head. intros H. repeat case_match; simplify_eq. apply scan_content_length.
  unfold in_u; cbn; lia.
Qed.

(** The request parser panics exactly when a well-formed head of an
    acceptable size announces a body whose end does not fit the machine word:
    the sum wraps below the start of the body and passes both size tests. *)
Theorem http_panic_exact buf :
  try_parse_http buf = None <->
  zlen buf <= MAX_REQUEST_BYTES /\
  exists header_end method path h,
    find_subsequence buf HEAD_END = Some header_end /\
    parse_head (take header_end buf) = Some (method, path, h) /\
    2 ^ 64 <= Z.of_nat header_end + 4 + content_length h.
Proof.
  unfold try_parse_http. destruct (Z.ltb_spec MAX_REQUEST_BYTES (zlen buf)) as [Hb|Hb].
  { split; [done|]. intros [? _]. lia. }
  destruct (find_subsequence buf HEAD_END) as [i|] eqn:Hf.
  2:{ split; [done|]. by intros (_ & ? & ? & ? & ? & ? & _). }
  destruct (parse_head (take i buf)) as [[[m p] h]|] eqn:Hp.
  2:{ split; [done|]. intros (_ & ? & ? & ? & ? & Hi & Hx & _). by simplify_eq. }
  pose proof (parse_head_length _ _ _ _ Hp) as Hc. unfold in_u in Hc.
  assert (Hi : Z.of_nat i + 4 <= zlen buf).
  { rewrite <- (take_ge buf (length buf)) in Hf by lia. apply find_take in Hf as (_ & Hi & _).
    unfold zlen. lia. }
  unfold MAX_REQUEST_BYTES in *. set (start := Z.of_nat i + 4) in *.
  assert (Hw : wadd 64 start (content_length h) =
    if 2 ^ 64 <=? start + content_length h then start + content_length h - 2 ^ 64
    else start + content_length h).
  { unfold wadd, wrap. destruct (Z.leb_spec (2 ^ 64) (start + content_length h)).
    - rewrite <- (Z_mod_plus_full _ (-1)). apply Z.mod_small. lia.
    - apply Z.mod_small. lia. }
  rewrite Hw. destruct (Z.leb_spec (2 ^ 64) (start + content_length h)) as [Ho|Ho].
  - rewrite !(proj2 (Z.ltb_ge _ _)), (proj2 (Z.ltb_lt _ _)) by lia.
    split; [|done]. intros _. split; [done|]. by exists i, m, p, h.
  - rewrite (proj2 (Z.ltb_ge (_ + _) start)) by lia.
    split; [by repeat case_match|]. intros (_ & ? & ? & ? & ? & Hi' & Hp' & Hx).
    simplify_eq. lia.
Qed.

(** A guest reaches it with one short request. *)
Definition panic_request : list Z :=
  join_lines [lit "GET / HTTP/1.1"; lit "Content-Length: 18446744073709551615"] ++ HEAD_END.

Lemma panic_request_panics : try_parse_http panic_request = None.
Proof. vm_compute. reflexivity. Qed.
