(* ===== verification/MmdsTcp.v ===== *)
(** * MmdsTcp: the TCP server of the metadata service

    Models the server of [src/crates/mmds/src/tcp.rs]: the per-connection state
    machine, its dispatch on an inbound segment, the HTTP exchange and the
    segments it queues for the guest.  The request handler, a closure in the
    code, is a section variable that threads its own state.  [None] is a panic
    of the request parser. *)

From stdpp Require Import base numbers list option gmap countable strings.
From Stdlib Require Import ZArith Lia.
From S2P Require Import Prelude Pdu Text Http.

Local Open Scope Z_scope.
Local Open Scope squib_scope.

Inductive TcpState := SynReceived | Established | LastAck.

Record ConnKey := mkKey { key_ip : list Z; key_port : Z }.

#[export] Instance ConnKey_eq_dec : EqDecision ConnKey.
Proof. solve_decision. Defined.

#[export] Instance ConnKey_countable : Countable ConnKey :=
  inj_countable' (fun k => (key_ip k, key_port k)) (fun p => mkKey p.1 p.2)
    ltac:(by intros []).

Record Conn := mkConn {
  cn_state : TcpState;
  cn_snd_nxt : Z;
  cn_rcv_nxt : Z;
  cn_rcv_buf : list Z
}.

Definition Conn_new (client_seq server_iss : Z) : Conn :=
  mkConn SynReceived (wadd 32 server_iss 1) (wadd 32 client_seq 1) [].

Record OutboundFrame := mkOutbound { of_dst_mac : list Z; of_eth_payload : list Z }.

Record TcpServerInner := mkServer {
  server_port : Z;
  server_ip : list Z;
  server_mac : list Z;
  guest_mac : option (list Z);
  conns : gmap ConnKey Conn;
  next_iss : Z;
  srv_ip_id : Z;
  out_queue : list OutboundFrame
}.

Definition TcpServer_new (ip : list Z) (port : Z) (mac : list Z) : TcpServerInner :=
  mkServer port ip mac None ∅ 0x40000000 1 [].

Definition set_ip (s : TcpServerInner) (ip : list Z) : TcpServerInner :=
  mkServer (server_port s) ip (server_mac s) (guest_mac s) (conns s) (next_iss s) (srv_ip_id s) (out_queue s).

Definition set_guest_mac (s : TcpServerInner) (mac : list Z) : TcpServerInner :=
  mkServer (server_port s) (server_ip s) (server_mac s) (Some mac) (conns s) (next_iss s) (srv_ip_id s)
    (out_queue s).

Definition set_conns (s : TcpServerInner) (cs : gmap ConnKey Conn) : TcpServerInner :=
  mkServer (server_port s) (server_ip s) (server_mac s) (guest_mac s) cs (next_iss s) (srv_ip_id s)
    (out_queue s).

Definition set_next_iss (s : TcpServerInner) (iss : Z) : TcpServerInner :=
  mkServer (server_port s) (server_ip s) (server_mac s) (guest_mac s) (conns s) iss (srv_ip_id s) (out_queue s).

(** [build_outbound] and the push that follows every call of it. *)
Definition build_outbound (s : TcpServerInner) (tcp : TcpHeader) (dst_ip payload : list Z)
  : TcpServerInner * OutboundFrame :=
  let id := wadd 16 (srv_ip_id s) 1 in
  (mkServer (server_port s) (server_ip s) (server_mac s) (guest_mac s) (conns s) (next_iss s) id (out_queue s),
   mkOutbound (default (repeat 255 6) (guest_mac s)) (outbound_segment (server_ip s) dst_ip id tcp payload)).

Definition push_frame (s : TcpServerInner) (f : OutboundFrame) : TcpServerInner :=
  mkServer (server_port s) (server_ip s) (server_mac s) (guest_mac s) (conns s) (next_iss s) (srv_ip_id s)
    (out_queue s ++ [f]).

Definition emit (s : TcpServerInner) (tcp : TcpHeader) (dst_ip payload : list Z) : TcpServerInner :=
  let '(s', f) := build_outbound s tcp dst_ip payload in push_frame s' f.

Definition drain_outbound (s : TcpServerInner) : TcpServerInner * list OutboundFrame :=
  (mkServer (server_port s) (server_ip s) (server_mac s) (guest_mac s) (conns s) (next_iss s) (srv_ip_id s) [],
   out_queue s).

Definition send_response (s : TcpServerInner) (key : ConnKey) (response : HttpResponse) : TcpServerInner :=
  let wire := to_wire response in
  match conns s !! key with
  | None => s
  | Some c =>
      let snd_seq := cn_snd_nxt c in
      let c' := mkConn LastAck (wadd 32 (wadd 32 snd_seq (wrap 32 (zlen wire))) 1) (cn_rcv_nxt c)
                  (cn_rcv_buf c) in
      let s1 := set_conns s (<[key := c']> (conns s)) in
      emit s1 (tcp_build (server_port s) (key_port key) snd_seq (cn_rcv_nxt c)
                 (Z.lor (Z.lor TCP_ACK TCP_PSH) TCP_FIN) 65535) (key_ip key) wire
  end.

Definition on_fin (s : TcpServerInner) (key : ConnKey) : TcpServerInner :=
  match conns s !! key with
  | None => s
  | Some c =>
      let rcv_nxt := wadd 32 (cn_rcv_nxt c) 1 in
      let s1 := set_conns s
        (<[key := mkConn LastAck (wadd 32 (cn_snd_nxt c) 1) rcv_nxt (cn_rcv_buf c)]> (conns s)) in
      emit s1 (tcp_build (server_port s) (key_port key) (cn_snd_nxt c) rcv_nxt (Z.lor TCP_FIN TCP_ACK) 65535)
        (key_ip key) []
  end.

Definition handle_syn (s : TcpServerInner) (key : ConnKey) (tcp : TcpHeader) : TcpServerInner :=
  let iss := next_iss s in
  let s1 := set_next_iss s (wadd 32 iss 0x10000) in
  let c := Conn_new (seq_no tcp) iss in
  let s2 := emit s1 (tcp_build (server_port s) (src_port tcp) iss (cn_rcv_nxt c) (Z.lor TCP_SYN TCP_ACK) 65535)
              (key_ip key) [] in
  set_conns s2 (<[key := c]> (conns s2)).

(** The JSON body of an error response. *)
Definition fault_message (msg : list Z) : list Z :=
  [123; 34] ++ lit "fault_message" ++ [34; 58; 34] ++ msg ++ [34; 125].

Section server.
Context {H : Type} (handler : H -> HttpRequest -> H * HttpResponse).

Definition on_data (s : TcpServerInner) (h : H) (key : ConnKey) (payload : list Z)
  : option (TcpServerInner * H) :=
  match conns s !! key with
  | None => Some (s, h)
  | Some c =>
      let rcv_nxt := wadd 32 (cn_rcv_nxt c) (wrap 32 (zlen payload)) in
      let buf := cn_rcv_buf c ++ payload in
      let s1 := set_conns s (<[key := mkConn (cn_state c) (cn_snd_nxt c) rcv_nxt buf]> (conns s)) in
      let s2 := emit s1 (tcp_build (server_port s) (key_port key) (cn_snd_nxt c) rcv_nxt TCP_ACK 65535)
                  (key_ip key) [] in
      match try_parse_http buf with
      | None => None
      | Some Incomplete => Some (s2, h)
      | Some Malformed =>
          Some (send_response s2 key (mkResponse 400 (fault_message (lit "malformed request"))), h)
      | Some TooLarge =>
          Some (send_response s2 key (mkResponse 413 (fault_message (lit "request too large"))), h)
      | Some (Complete req) =>
          let '(h', response) := handler h req in Some (send_response s2 key response, h')
      end
  end.

Definition dispatch (s : TcpServerInner) (h : H) (key : ConnKey) (tcp : TcpHeader) (payload : list Z)
  : option (TcpServerInner * H) :=
  if is_rst tcp then Some (set_conns s (delete key (conns s)), h)
  else if is_syn tcp && negb (is_ack tcp) then Some (handle_syn s key tcp, h)
  else
    match conns s !! key with
    | None =>
        let rst := tcp_build (server_port s) (src_port tcp) (ack_no tcp)
                     (wadd 32 (seq_no tcp) (wrap 32 (zlen payload))) (Z.lor TCP_RST TCP_ACK) 0 in
        Some (emit s rst (key_ip key) [], h)
    | Some c =>
        let empty := bool_decide (payload = []) in
        if negb (seq_no tcp =? cn_rcv_nxt c) && negb empty then Some (s, h)
        else
          match cn_state c with
          | SynReceived =>
              if is_ack tcp && (ack_no tcp =? cn_snd_nxt c) then
                let s1 := set_conns s
                  (<[key := mkConn Established (cn_snd_nxt c) (cn_rcv_nxt c) (cn_rcv_buf c)]> (conns s)) in
                if empty then Some (s1, h) else on_data s1 h key payload
              else Some (s, h)
          | Established =>
              match (if empty then Some (s, h) else on_data s h key payload) with
              | None => None
              | Some (s1, h1) => Some (if is_fin tcp then on_fin s1 key else s1, h1)
              end
          | LastAck =>
              if is_ack tcp && (ack_no tcp =? cn_snd_nxt c)
              then Some (set_conns s (delete key (conns s)), h) else Some (s, h)
          end
    end.

(** The result flag tells whether the frame was for this server. *)
Definition handle_ip_frame (s : TcpServerInner) (h : H) (eth_src_mac payload : list Z)
  : option (TcpServerInner * H * bool) :=
  match ipv4_parse payload with
  | Err _ => Some (s, h, false)
  | Ok ip =>
      if negb (protocol ip =? protocol_byte Tcp) then Some (s, h, false)
      else if negb (bool_decide (ip_dst ip = server_ip s)) then Some (s, h, false)
      else
        let tcp_start := IPV4_HDR_LEN in
        let tcp_end := Z.to_nat (total_len ip) in
        if (length payload <? tcp_end)%nat || (tcp_end <=? tcp_start)%nat then Some (s, h, false)
        else if (length payload <? tcp_start + 13)%nat then Some (s, h, false)
        else
          let doff := Z.shiftr (byte_at payload (tcp_start + 12)) 4 in
          let tcp_hdr_end := (tcp_start + 4 * Z.to_nat doff)%nat in
          if (tcp_end <? tcp_hdr_end)%nat then Some (s, h, false)
          else
            let tcp_payload := slice tcp_hdr_end (tcp_end - tcp_hdr_end) payload in
            match tcp_parse (slice tcp_start (tcp_hdr_end - tcp_start) payload) tcp_payload
                    (ip_src ip) (ip_dst ip) with
            | Err _ => Some (s, h, false)
            | Ok tcp =>
                if negb (dst_port tcp =? server_port s) then Some (s, h, false)
                else
                  let s1 := set_guest_mac s eth_src_mac in
                  match dispatch s1 h (mkKey (ip_src ip) (src_port tcp)) tcp tcp_payload with
                  | None => None
                  | Some (s2, h') => Some (s2, h', true)
                  end
            end
  end.

(** A sequence of inbound frames, as the device delivers them. *)
Fixpoint feed (s : TcpServerInner) (h : H) (mac : list Z) (frames : list (list Z))
  : option (TcpServerInner * H) :=
  match frames with
  | [] => Some (s, h)
  | f :: frames' =>
      match handle_ip_frame s h mac f with
      | None => None
      | Some (s', h', _) => feed s' h' mac frames'
      end
  end.
End server.

(** ** What the guest sees *)

(** An emitted frame through the parsers: addresses, header and payload. *)
Definition decode_segment (frame : list Z) : option (list Z * list Z * TcpHeader * list Z) :=
  match ipv4_parse frame with
  | Err _ => None
  | Ok ip =>
      let payload := slice 40 (Z.to_nat (total_len ip) - 40) frame in
      match tcp_parse (slice 20 20 frame) payload (ip_src ip) (ip_dst ip) with
      | Ok h => Some (ip_src ip, ip_dst ip, h, payload)
      | Err _ => None
      end
  end.

(** Emitting several segments to one peer. *)
Definition emits (s : TcpServerInner) (dst_ip : list Z) (segs : list (TcpHeader * list Z)) : TcpServerInner :=
  foldl (fun s seg => emit s seg.1 dst_ip seg.2) s segs.

Definition seg_ok (seg : TcpHeader * list Z) : Prop := tcp_ok seg.1 /\ zlen seg.2 <= 65495.

Lemma segment_slices src dst id h p :
  addr_ok 4 src -> addr_ok 4 dst -> in_u 16 id -> tcp_ok h -> zlen p <= 65495 ->
  let frame := outbound_segment src dst id h p in
  let ip := ipv4_build src dst Tcp (20 + zlen p) id in
  ipv4_parse frame = Ok ip /\ total_len ip = 40 + zlen p /\ length frame = (40 + length p)%nat /\
  byte_at frame 32 = 80 /\ slice 40 (length p) frame = p /\
  tcp_parse (slice 20 20 frame) p src dst = Ok h.
Proof.
  intros Hs Hd Hi Hh Hp frame ip.
  destruct (outbound_segment_parts src dst id h p) as (hdr & He & H20 & Hl & H12 & Htl & Hip & Ht);
    try done. fold ip in He, H20, Htl, Hip. unfold frame. rewrite He.
  split_and!; [apply Hip|done| | | |].
  - rewrite !length_app, H20, Hl. lia.
  - unfold byte_at in *. rewrite lookup_app_r by lia. rewrite H20.
    by rewrite lookup_app_l by (rewrite Hl; lia).
  - unfold slice. rewrite app_assoc, drop_app_length' by (rewrite length_app; lia). by rewrite take_ge by lia.
  - unfold slice. rewrite drop_app_length' by done. by rewrite take_app_length' by done.
Qed.

Lemma decode_outbound src dst id h p :
  addr_ok 4 src -> addr_ok 4 dst -> in_u 16 id -> seg_ok (h, p) ->
  decode_segment (outbound_segment src dst id h p) = Some (src, dst, h, p).
Proof.
  intros Hs Hd Hi [Hh Hp]. cbn [fst snd] in *.
  destruct (segment_slices src dst id h p) as (E1 & E2 & _ & _ & E3 & E4); try done.
  unfold decode_segment. rewrite E1, E2.
  replace (Z.to_nat (40 + zlen p) - 40)%nat with (length p) by (unfold zlen; lia).
  rewrite E3. change (ip_src _) with src. change (ip_dst _) with dst. by rewrite E4.
Qed.

Lemma emits_queue segs : forall s dst,
  addr_ok 4 (server_ip s) -> addr_ok 4 dst -> Forall seg_ok segs ->
  exists fs, out_queue (emits s dst segs) = out_queue s ++ fs /\
    map (fun f => decode_segment (of_eth_payload f)) fs =
      map (fun seg => Some (server_ip s, dst, seg.1, seg.2)) segs /\
    Forall (fun f => of_dst_mac f = default (repeat 255 6) (guest_mac s)) fs.
Proof.
  induction segs as [|[h p] segs IH]; intros s dst Hs Hd Hall.
  { exists []. split_and!; [by rewrite app_nil_r|done|apply Forall_nil_2]. }
  apply Forall_cons_iff in Hall as [Hseg Hall].
  destruct (IH (emit s h dst p) dst) as (fs & Hq & Hdec & Hmac); [done|done|done|].
  eexists (_ :: fs). split_and!.
  - change (emits s dst ((h, p) :: segs)) with (emits (emit s h dst p) dst segs). rewrite Hq.
    cbn [emit build_outbound push_frame out_queue]. by rewrite <- app_assoc.
  - cbn [map fst snd of_eth_payload]. f_equal; [|exact Hdec].
    apply decode_outbound; try done. apply wrap_in_u. lia.
  - apply Forall_cons_2; [done|exact Hmac].
Qed.

Lemma emits_conns segs : forall s dst cs,
  emits (set_conns s cs) dst segs = set_conns (emits s dst segs) cs.
Proof.
  induction segs as [|[h p] segs IH]; intros s dst cs; [done|]. exact (IH (emit s h dst p) dst cs).
Qed.

Lemma emits_fields segs : forall s dst,
  server_port (emits s dst segs) = server_port s /\ server_ip (emits s dst segs) = server_ip s /\
  guest_mac (emits s dst segs) = guest_mac s /\ conns (emits s dst segs) = conns s /\
  next_iss (emits s dst segs) = next_iss s.
Proof.
  induction segs as [|[h p] segs IH]; intros s dst; [done|].
  exact (IH (emit s h dst p) dst).
Qed.

(** ** Sessions *)

(** A segment of the client [key]. *)
Definition client_hdr (port : Z) (key : ConnKey) (seq ack flags : Z) : TcpHeader :=
  tcp_build (key_port key) port seq ack flags 65535.

Definition client_frame (ip : list Z) (port : Z) (key : ConnKey) (id seq ack flags : Z) (payload : list Z)
  : list Z :=
  outbound_segment (key_ip key) ip id (client_hdr port key seq ack flags) payload.

(** The data segments of a request cut into chunks, from sequence number [seq]. *)
Fixpoint data_frames (ip : list Z) (port : Z) (key : ConnKey) (id seq ack : Z) (chunks : list (list Z))
  : list (list Z) :=
  match chunks with
  | [] => []
  | c :: cs =>
      client_frame ip port key id seq ack (Z.lor TCP_ACK TCP_PSH) c ::
      data_frames ip port key id (wadd 32 seq (zlen c)) ack cs
  end.

(** The acknowledgements the server owes for them. *)
Fixpoint ack_segs (port : Z) (key : ConnKey) (snd rcv : Z) (chunks : list (list Z))
  : list (TcpHeader * list Z) :=
  match chunks with
  | [] => []
  | c :: cs =>
      (tcp_build port (key_port key) snd (wadd 32 rcv (zlen c)) TCP_ACK 65535, []) ::
      ack_segs port key snd (wadd 32 rcv (zlen c)) cs
  end.

(** The sequence number after all chunks. *)
Definition seq_after (seq : Z) (chunks : list (list Z)) : Z :=
  foldl (fun q c => wadd 32 q (zlen c)) seq chunks.

Record key_ok (key : ConnKey) : Prop := { ko_ip : addr_ok 4 (key_ip key); ko_port : in_u 16 (key_port key) }.

Record server_fields_ok (s : TcpServerInner) : Prop := {
  so_ip : addr_ok 4 (server_ip s);
  so_port : in_u 16 (server_port s);
  so_iss : in_u 32 (next_iss s)
}.

Lemma tcp_build_ok sp dp seq ack flags win :
  in_u 16 sp -> in_u 16 dp -> in_u 32 seq -> in_u 32 ack -> 0 <= flags < 64 -> in_u 16 win ->
  tcp_ok (tcp_build sp dp seq ack flags win).
Proof. intros. constructor; cbn; try done; unfold in_u; lia. Qed.

Lemma wadd_in_u w a b : 0 <= w -> in_u w (wadd w a b).
Proof. apply wrap_in_u. Qed.

#[export] Hint Resolve tcp_build_ok wadd_in_u : squib.

Section sessions.
Context {H : Type} (handler : H -> HttpRequest -> H * HttpResponse).
Implicit Types (s : TcpServerInner) (h : H).

(** A client frame reaches the dispatcher unchanged. *)
Lemma receive_segment s h mac key id seq ack flags p :
  server_fields_ok s -> key_ok key -> in_u 16 id -> in_u 32 seq -> in_u 32 ack -> 0 <= flags < 64 ->
  zlen p <= 65495 ->
  handle_ip_frame handler s h mac
    (client_frame (server_ip s) (server_port s) key id seq ack flags p) =
  match dispatch handler (set_guest_mac s mac) h key (client_hdr (server_port s) key seq ack flags) p with
  | None => None
  | Some (s2, h') => Some (s2, h', true)
  end.
Proof.
  intros Hs [Hki Hkp] Hi Hq Ha Hf Hp. unfold client_frame.
  assert (Ht : tcp_ok (client_hdr (server_port s) key seq ack flags)).
  { apply tcp_build_ok; try done. apply Hs. }
  destruct (segment_slices (key_ip key) (server_ip s) id _ p Hki (so_ip s Hs) Hi Ht Hp)
    as (E1 & E2 & E3 & E4 & E5 & E6).
  set (frame := outbound_segment _ _ _ _ _) in *. unfold handle_ip_frame. rewrite E1, E2.
  change (protocol _ =? protocol_byte Tcp) with true. cbn [negb].
  change (ip_dst _) with (server_ip s). change (ip_src _) with (key_ip key).
  rewrite bool_decide_true by done. cbn [negb].
  replace (Z.to_nat (40 + zlen p)) with (40 + length p)%nat by (unfold zlen; lia). rewrite E3.
  rewrite (proj2 (Nat.ltb_ge _ (40 + length p))) by lia. unfold IPV4_HDR_LEN.
  rewrite (proj2 (Nat.leb_gt _ 20)) by lia. cbn [orb].
  rewrite (proj2 (Nat.ltb_ge _ (20 + 13))) by lia. change (20 + 12)%nat with 32%nat. rewrite E4.
  change (Z.to_nat (Z.shiftr 80 4)) with 5%nat. change (20 + 4 * 5)%nat with 40%nat.
  rewrite (proj2 (Nat.ltb_ge (40 + _) 40)) by lia.
  replace (40 + length p - 40)%nat with (length p) by lia. change (40 - 20)%nat with 20%nat.
  rewrite E5, E6. change (dst_port _) with (server_port s). rewrite Z.eqb_refl. cbn [negb].
  change (src_port _) with (key_port key). by destruct key.
Qed.

Lemma set_guest_mac_same s mac : guest_mac s = Some mac -> set_guest_mac s mac = s.
Proof. destruct s; cbn. by intros ->. Qed.

Lemma on_data_unfold s h key p st snd rcv buf :
  conns s !! key = Some (mkConn st snd rcv buf) -> zlen p < 2 ^ 32 ->
  on_data handler s h key p =
  let c := mkConn st snd (wadd 32 rcv (zlen p)) (buf ++ p) in
  let s2 := set_conns (emit s (tcp_build (server_port s) (key_port key) snd (wadd 32 rcv (zlen p)) TCP_ACK 65535)
                         (key_ip key) []) (<[key := c]> (conns s)) in
  match try_parse_http (buf ++ p) with
  | None => None
  | Some Incomplete => Some (s2, h)
  | Some Malformed =>
      Some (send_response s2 key (mkResponse 400 (fault_message (lit "malformed request"))), h)
  | Some TooLarge =>
      Some (send_response s2 key (mkResponse 413 (fault_message (lit "request too large"))), h)
  | Some (Complete req) => let '(h', response) := handler h req in Some (send_response s2 key response, h')
  end.
Proof.
  intros Hc Hp. unfold on_data. rewrite Hc. cbn [cn_state cn_snd_nxt cn_rcv_nxt cn_rcv_buf].
  by rewrite (wrap_small 32 (zlen p)) by (unfold in_u, zlen in *; lia).
Qed.

(** The segment that carries a response and the connection after it. *)
Definition response_seg (port : Z) (key : ConnKey) (snd rcv : Z) (wire : list Z) : TcpHeader * list Z :=
  (tcp_build port (key_port key) snd rcv (Z.lor (Z.lor TCP_ACK TCP_PSH) TCP_FIN) 65535, wire).

Definition after_response (snd rcv : Z) (wire buf : list Z) : Conn :=
  mkConn LastAck (wadd 32 (wadd 32 snd (wrap 32 (zlen wire))) 1) rcv buf.

Lemma send_response_unfold s key resp st snd rcv buf :
  conns s !! key = Some (mkConn st snd rcv buf) ->
  send_response s key resp =
  set_conns (emits s (key_ip key) [response_seg (server_port s) key snd rcv (to_wire resp)])
    (<[key := after_response snd rcv (to_wire resp) buf]> (conns s)).
Proof. intros Hc. unfold send_response. by rewrite Hc. Qed.

Lemma dispatch_chunk s h key ack p snd rcv buf :
  conns s !! key = Some (mkConn Established snd rcv buf) -> p <> [] ->
  dispatch handler s h key (client_hdr (server_port s) key rcv ack (Z.lor TCP_ACK TCP_PSH)) p =
  on_data handler s h key p.
Proof.
  intros Hc Hp. unfold dispatch. change (is_rst _) with false. change (is_syn _ && _) with false.
  change (is_fin _) with false. cbv iota. rewrite Hc. cbn [cn_state cn_rcv_nxt].
  change (seq_no _) with rcv. rewrite Z.eqb_refl, bool_decide_false by done. cbn [negb andb].
  by destruct (on_data handler s h key p) as [[s1 h1]|].
Qed.

(** The parser on the bytes received so far of a request. *)
Lemma parse_so_far r buf c cs :
  client_ok r -> buf ++ concat (c :: cs) = request_bytes r -> Forall (fun c => c <> []) cs ->
  try_parse_http (buf ++ c) =
  Some (if decide (cs = []) then Complete (request_of r) else Incomplete).
Proof.
  intros Hr He Hne. cbn [concat] in He. rewrite app_assoc in He.
  pose proof (request_prefix r (length (buf ++ c)) Hr) as Hp. rewrite <- He in Hp.
  rewrite take_app_length in Hp. rewrite Hp. f_equal. rewrite length_app.
  destruct cs as [|d cs]; [by rewrite decide_True, decide_True by (cbn; lia || done)|].
  apply Forall_cons_iff in Hne as [Hd _]. rewrite decide_False, decide_False; [done|done|].
  cbn [concat]. rewrite length_app. destruct d; [done|cbn; lia].
Qed.

Lemma chunk_small r buf c cs :
  client_ok r -> buf ++ concat (c :: cs) = request_bytes r -> zlen c <= 16384.
Proof.
  intros Hr He. pose proof (co_size r Hr) as Hs. rewrite <- He in Hs. cbn [concat] in Hs.
  unfold zlen, MAX_REQUEST_BYTES in *. rewrite !length_app in Hs. lia.
Qed.

Lemma chunks_served r chunks : client_ok r -> forall s h mac key id snd rcv buf,
  server_fields_ok s -> key_ok key -> in_u 16 id -> in_u 32 snd -> in_u 32 rcv ->
  guest_mac s = Some mac -> conns s !! key = Some (mkConn Established snd rcv buf) ->
  Forall (fun c => c <> []) chunks -> chunks <> [] -> buf ++ concat chunks = request_bytes r ->
  let '(h', resp) := handler h (request_of r) in
  feed handler s h mac (data_frames (server_ip s) (server_port s) key id rcv snd chunks) =
  Some (set_conns
          (emits s (key_ip key) (ack_segs (server_port s) key snd rcv chunks ++
             [response_seg (server_port s) key snd (seq_after rcv chunks) (to_wire resp)]))
          (<[key := after_response snd (seq_after rcv chunks) (to_wire resp) (request_bytes r)]> (conns s)), h').
Proof.
  intros Hr. induction chunks as [|c cs IH];
    intros s h mac key id snd rcv buf Hs Hk Hi Hsn Hrc Hm Hc Hne Hnil He; [done|].
  apply Forall_cons_iff in Hne as [Hcn Hne]. pose proof (chunk_small r buf c cs Hr He) as Hsm.
  destruct (handler h (request_of r)) as [h' resp] eqn:Hh. cbn [data_frames feed].
  rewrite receive_segment by (try done; try lia; unfold TCP_ACK, TCP_PSH; cbn; lia).
  rewrite (set_guest_mac_same s mac Hm), (dispatch_chunk s h key snd c snd rcv buf Hc Hcn).
  rewrite (on_data_unfold s h key c _ snd rcv buf Hc) by lia. cbv zeta.
  rewrite (parse_so_far r buf c cs Hr He Hne).
  set (conn1 := mkConn Established snd (wadd 32 rcv (zlen c)) (buf ++ c)).
  set (s1 := emit s _ _ _). destruct cs as [|d cs'].
  - rewrite decide_True by done. rewrite Hh. cbn [data_frames feed].
    rewrite (send_response_unfold _ key resp Established snd (wadd 32 rcv (zlen c)) (buf ++ c))
      by apply lookup_insert_eq.
    cbn [concat] in He. rewrite app_nil_r in He. rewrite He, emits_conns.
    cbn [conns set_conns]. rewrite insert_insert_eq. done.
  - rewrite decide_False by done. cbn [concat] in He. rewrite app_assoc in He.
    pose proof (IH (set_conns s1 (<[key:=conn1]> (conns s))) h mac key id snd (wadd 32 rcv (zlen c)) (buf ++ c))
      as IH'. rewrite Hh in IH'.
    change (server_ip (set_conns _ _)) with (server_ip s) in IH'.
    change (server_port (set_conns _ _)) with (server_port s) in IH'. rewrite IH'; try done.
    + cbn [conns set_conns]. rewrite insert_insert_eq, emits_conns. done.
    + split; apply Hs.
    + by apply wadd_in_u.
    + apply lookup_insert_eq.
Qed.

Lemma feed_app fs1 fs2 mac : forall s h,
  feed handler s h mac (fs1 ++ fs2) =
  match feed handler s h mac fs1 with
  | None => None
  | Some (s', h') => feed handler s' h' mac fs2
  end.
Proof.
  induction fs1 as [|f fs1 IH]; intros s h; cbn [app feed]; [done|].
  destruct (handle_ip_frame handler s h mac f) as [[[s' h'] b]|]; [apply IH|done].
Qed.

(** The three bare segments of a session. *)
Lemma dispatch_syn s h key cseq ack :
  dispatch handler s h key (client_hdr (server_port s) key cseq ack TCP_SYN) [] =
  Some (set_conns
          (emits (set_next_iss s (wadd 32 (next_iss s) 0x10000)) (key_ip key)
             [(tcp_build (server_port s) (key_port key) (next_iss s) (wadd 32 cseq 1) (Z.lor TCP_SYN TCP_ACK) 65535, [])])
          (<[key := Conn_new cseq (next_iss s)]> (conns s)), h).
Proof. done. Qed.

Lemma dispatch_handshake_ack s h key seq snd rcv :
  conns s !! key = Some (mkConn SynReceived snd rcv []) ->
  dispatch handler s h key (client_hdr (server_port s) key seq snd TCP_ACK) [] =
  Some (set_conns s (<[key := mkConn Established snd rcv []]> (conns s)), h).
Proof.
  intros Hc. unfold dispatch. change (is_rst _) with false. change (is_syn _ && _) with false.
  cbv iota. rewrite Hc. rewrite bool_decide_true by done. cbn [negb]. rewrite andb_false_r. cbn [cn_state cn_snd_nxt].
  change (is_ack _) with true. change (ack_no _) with snd. by rewrite Z.eqb_refl.
Qed.

Lemma dispatch_final_ack s h key seq snd rcv buf :
  conns s !! key = Some (mkConn LastAck snd rcv buf) ->
  dispatch handler s h key (client_hdr (server_port s) key seq snd TCP_ACK) [] =
  Some (set_conns s (delete key (conns s)), h).
Proof.
  intros Hc. unfold dispatch. change (is_rst _) with false. change (is_syn _ && _) with false.
  cbv iota. rewrite Hc. rewrite bool_decide_true by done. cbn [negb]. rewrite andb_false_r. cbn [cn_state cn_snd_nxt].
  change (is_ack _) with true. change (ack_no _) with snd. by rewrite Z.eqb_refl.
Qed.

(** A client session: handshake, the request in chunks, acknowledgement of the
    response. *)
Definition session_frames (ip : list Z) (port : Z) (key : ConnKey) (id cseq iss : Z)
  (chunks : list (list Z)) (wire : list Z) : list (list Z) :=
  let seq := wadd 32 cseq 1 in
  let ack := wadd 32 iss 1 in
  [client_frame ip port key id cseq 0 TCP_SYN []; client_frame ip port key id seq ack TCP_ACK []] ++
  data_frames ip port key id seq ack chunks ++
  [client_frame ip port key id (seq_after seq chunks) (cn_snd_nxt (after_response ack 0 wire [])) TCP_ACK []].

(** What the server must answer. *)
Definition session_replies (port : Z) (key : ConnKey) (cseq iss : Z) (chunks : list (list Z)) (wire : list Z)
  : list (TcpHeader * list Z) :=
  let rcv := wadd 32 cseq 1 in
  let snd := wadd 32 iss 1 in
  (tcp_build port (key_port key) iss rcv (Z.lor TCP_SYN TCP_ACK) 65535, []) ::
  ack_segs port key snd rcv chunks ++ [response_seg port key snd (seq_after rcv chunks) wire].

Lemma seq_after_in_u chunks : forall q, in_u 32 q -> in_u 32 (seq_after q chunks).
Proof. induction chunks as [|c cs IH]; intros q Hq; [done|]. apply IH. by apply wadd_in_u. Qed.

Lemma session_replies_ok port key cseq iss chunks wire :
  in_u 16 port -> key_ok key -> in_u 32 iss -> zlen wire <= 65495 ->
  Forall seg_ok (session_replies port key cseq iss chunks wire).
Proof.
  intros Hp [Hki Hkp] Hi Hw. unfold session_replies.
  assert (Hz : zlen (@nil Z) <= 65495) by done.
  assert (Hwin : in_u 16 65535) by (unfold in_u; lia).
  apply Forall_cons_2; [split; [|done]; apply tcp_build_ok; auto using wadd_in_u with zarith|].
  apply Forall_app_2.
  - generalize (wadd_in_u 32 cseq 1 ltac:(lia)). generalize (wadd 32 cseq 1).
    induction chunks as [|c cs IH]; intros q Hq; [apply Forall_nil_2|].
    apply Forall_cons_2; [|apply IH; by apply wadd_in_u].
    split; [|done]. apply tcp_build_ok; auto using wadd_in_u with zarith.
  - apply Forall_cons_2; [|apply Forall_nil_2]. split; [|done].
    apply tcp_build_ok; auto using wadd_in_u, seq_after_in_u with zarith.
Qed.

(** The handshake and the closing acknowledgement. *)
Lemma handshake_served s h mac key id cseq :
  server_fields_ok s -> key_ok key -> in_u 16 id -> in_u 32 cseq ->
  feed handler s h mac
    [client_frame (server_ip s) (server_port s) key id cseq 0 TCP_SYN [];
     client_frame (server_ip s) (server_port s) key id (wadd 32 cseq 1) (wadd 32 (next_iss s) 1) TCP_ACK []] =
  Some (set_conns
          (emits (set_next_iss (set_guest_mac s mac) (wadd 32 (next_iss s) 0x10000)) (key_ip key)
             [(tcp_build (server_port s) (key_port key) (next_iss s) (wadd 32 cseq 1) (Z.lor TCP_SYN TCP_ACK) 65535, [])])
          (<[key := mkConn Established (wadd 32 (next_iss s) 1) (wadd 32 cseq 1) []]> (conns s)), h).
Proof.
  intros Hs Hk Hi Hq. assert (Hz : zlen (@nil Z) <= 65495) by done. cbn [feed].
  rewrite receive_segment by (try done; unfold in_u; lia).
  rewrite (dispatch_syn (set_guest_mac s mac)). cbn [next_iss set_guest_mac].
  set (s1 := emits _ _ _). set (s2 := set_conns s1 _).
  change (server_ip s) with (server_ip s2). change (server_port s) with (server_port s2).
  assert (Hf2 : server_fields_ok s2) by (split; [apply Hs|apply Hs|by apply wadd_in_u]).
  rewrite receive_segment by (try done; by apply wadd_in_u).
  rewrite (set_guest_mac_same s2 mac eq_refl).
  rewrite (dispatch_handshake_ack s2 h key _ (wadd 32 (next_iss s) 1) (wadd 32 cseq 1))
    by apply lookup_insert_eq.
  unfold s2. cbn [conns set_conns]. by rewrite insert_insert_eq.
Qed.

Lemma closing_served s h mac key id seq snd rcv buf :
  server_fields_ok s -> key_ok key -> in_u 16 id -> in_u 32 seq -> in_u 32 snd -> guest_mac s = Some mac ->
  conns s !! key = Some (mkConn LastAck snd rcv buf) ->
  feed handler s h mac [client_frame (server_ip s) (server_port s) key id seq snd TCP_ACK []] =
  Some (set_conns s (delete key (conns s)), h).
Proof.
  intros Hs Hk Hi Hq Hsn Hm Hc. cbn [feed].
  rewrite receive_segment by (try done; unfold in_u; lia).
  by rewrite (set_guest_mac_same s mac Hm), (dispatch_final_ack s h key seq snd rcv buf Hc).
Qed.

Lemma chunks_nonempty r chunks : concat chunks = request_bytes r -> chunks <> [].
Proof.
  intros Hcat ->. apply (f_equal length) in Hcat. unfold request_bytes in Hcat.
  rewrite !length_app in Hcat. cbn in Hcat. lia.
Qed.

(** A client session is served exactly: whatever chunks the request is cut
    into, the handler runs once, on the request the client meant; the server
    answers SYN-ACK, one acknowledgement per chunk and one response carrying
    FIN, each with the sequence numbers TCP prescribes and readable by the
    guest; and once the response is acknowledged the connection is gone and
    every other connection is as before. *)
Lemma session_exact r chunks s h mac key id cseq :
  client_ok r -> Forall (fun c => c <> []) chunks -> concat chunks = request_bytes r ->
  server_fields_ok s -> key_ok key -> in_u 16 id -> in_u 32 cseq ->
  zlen (to_wire (handler h (request_of r)).2) <= 65495 ->
  let wire := to_wire (handler h (request_of r)).2 in
  exists s' fs,
    feed handler s h mac (session_frames (server_ip s) (server_port s) key id cseq (next_iss s) chunks wire) =
      Some (s', (handler h (request_of r)).1) /\
    conns s' = delete key (conns s) /\
    out_queue s' = out_queue s ++ fs /\
    map (fun f => decode_segment (of_eth_payload f)) fs =
      map (fun seg => Some (server_ip s, key_ip key, seg.1, seg.2))
        (session_replies (server_port s) key cseq (next_iss s) chunks wire) /\
    Forall (fun f => of_dst_mac f = mac) fs.
Proof.
  intros Hr Hne Hcat Hs Hk Hi Hq Hw wire. unfold session_frames.
  set (s0 := set_next_iss (set_guest_mac s mac) (wadd 32 (next_iss s) 0x10000)).
  set (reps := session_replies (server_port s) key cseq (next_iss s) chunks wire).
  destruct (emits_queue reps s0 (key_ip key)) as (fs & Hfq & Hdec & Hmac);
    [apply Hs|apply Hk|apply session_replies_ok; try done; apply Hs|].
  exists (set_conns (emits s0 (key_ip key) reps) (delete key (conns s))), fs.
  split; [|by split_and!].
  rewrite feed_app, handshake_served by done. rewrite feed_app. fold s0. set (s1 := set_conns (emits s0 _ _) _).
  pose proof (chunks_served r chunks Hr s1 h mac key id (wadd 32 (next_iss s) 1) (wadd 32 cseq 1) []) as Hserved.
  destruct (handler h (request_of r)) as [h' resp] eqn:Hh. cbn [fst snd] in *.
  change (server_ip s1) with (server_ip s) in Hserved. change (server_port s1) with (server_port s) in Hserved.
  rewrite Hserved; try done; try (by apply wadd_in_u).
  2:{ split; [apply Hs|apply Hs|by apply wadd_in_u]. } 2:{ apply lookup_insert_eq. }
  2:{ by apply (chunks_nonempty r). }
  clear Hserved. unfold s1. rewrite emits_conns. cbn [conns set_conns]. rewrite insert_insert_eq.
  set (s2 := set_conns _ (<[key := after_response _ _ _ _]> _)).
  destruct (emits_fields (ack_segs (server_port s) key (wadd 32 (next_iss s) 1) (wadd 32 cseq 1) chunks ++
    [response_seg (server_port s) key (wadd 32 (next_iss s) 1) (seq_after (wadd 32 cseq 1) chunks) wire])
    (emits s0 (key_ip key)
      [(tcp_build (server_port s) (key_port key) (next_iss s) (wadd 32 cseq 1) (Z.lor TCP_SYN TCP_ACK) 65535, [])])
    (key_ip key)) as (F1 & F2 & F3 & F4 & F5).
  assert (G1 : server_port s2 = server_port s) by exact F1.
  assert (G2 : server_ip s2 = server_ip s) by exact F2.
  assert (G5 : next_iss s2 = wadd 32 (next_iss s) 0x10000) by exact F5.
  assert (Hs2 : server_fields_ok s2)
    by (split; [rewrite G2; apply Hs|rewrite G1; apply Hs|rewrite G5; by apply wadd_in_u]).
  rewrite <- G1, <- G2 at 1.
  rewrite (closing_served s2 h' mac key id _ _ (seq_after (wadd 32 cseq 1) chunks) (request_bytes r)).
  - unfold s2. cbn [conns set_conns]. by rewrite delete_insert_eq.
  - done.
  - done.
  - done.
  - by apply seq_after_in_u, wadd_in_u.
  - by apply wadd_in_u.
  - exact F3.
  - apply lookup_insert_eq.
Qed.
End sessions.

(** ** Well-formedness of the server *)

Record conn_ok (k : ConnKey) (c : Conn) : Prop := {
  ck_key : key_ok k;
  ck_snd : in_u 32 (cn_snd_nxt c);
  ck_rcv : in_u 32 (cn_rcv_nxt c);
  ck_handshake : cn_state c = SynReceived -> cn_rcv_buf c = [];
  ck_waiting : cn_state c <> LastAck -> zlen (cn_rcv_buf c) <= MAX_REQUEST_BYTES;
  ck_buf : zlen (cn_rcv_buf c) <= MAX_REQUEST_BYTES + 65535
}.

(** A queued frame is a segment the guest can read. *)
Definition frame_ok (f : OutboundFrame) : Prop :=
  addr_ok 6 (of_dst_mac f) /\ exists seg, decode_segment (of_eth_payload f) = Some seg.

Record server_inv (s : TcpServerInner) : Prop := {
  si_fields : server_fields_ok s;
  si_id : in_u 16 (srv_ip_id s);
  si_mac : forall m, guest_mac s = Some m -> addr_ok 6 m;
  si_conns : map_Forall conn_ok (conns s);
  si_queue : Forall frame_ok (out_queue s)
}.

Lemma byte_at_ok bs i : bytes_ok bs -> byte_ok (byte_at bs i).
Proof.
  intros Hb. unfold byte_at. destruct (bs !! i) as [b|] eqn:Hi; cbn; [|unfold byte_ok; lia].
  by apply (Forall_lookup_1 _ _ _ _ Hb Hi).
Qed.

Lemma be16_in_u bs i : bytes_ok bs -> in_u 16 (be16 bs i).
Proof.
  intros Hb. apply (be_val_in_u [byte_at bs i; byte_at bs (i + 1)]).
  repeat apply Forall_cons_2; try apply Forall_nil_2; by apply byte_at_ok.
Qed.

Lemma be32_in_u bs i : bytes_ok bs -> in_u 32 (be32 bs i).
Proof.
  intros Hb. apply (be_val_in_u [byte_at bs i; byte_at bs (i + 1); byte_at bs (i + 2); byte_at bs (i + 3)]).
  repeat apply Forall_cons_2; try apply Forall_nil_2; by apply byte_at_ok.
Qed.

Lemma tcp_parse_fields bs p src dst h :
  bytes_ok bs -> tcp_parse bs p src dst = Ok h ->
  in_u 16 (src_port h) /\ in_u 16 (dst_port h) /\ in_u 32 (seq_no h) /\ in_u 32 (ack_no h).
Proof.
  intros Hb Ht. unfold tcp_parse in Ht. cbv zeta in Ht.
  repeat (match type of Ht with context [if ?c then _ else _] => destruct c eqn:?; [done|] end).
  injection Ht as <-. cbn [src_port dst_port seq_no ack_no]. auto using be16_in_u, be32_in_u.
Qed.

Lemma ipv4_parse_fields bs ip :
  bytes_ok bs -> ipv4_parse bs = Ok ip -> addr_ok 4 (ip_src ip) /\ in_u 16 (total_len ip).
Proof.
  intros Hb Hp. unfold ipv4_parse in Hp. destruct (Nat.ltb_spec (length bs) IPV4_HDR_LEN) as [|Hl]; [done|].
  repeat (match type of Hp with context [if ?c then _ else _] => destruct c eqn:?; [done|] end).
  injection Hp as <-. cbn [ip_src total_len]. split; [split|by apply be16_in_u].
  - apply slice_length. unfold IPV4_HDR_LEN in Hl. lia.
  - by apply slice_Forall.
Qed.

Lemma emit_inv s hd ip p :
  server_inv s -> addr_ok 4 ip -> tcp_ok hd -> zlen p <= 65495 -> server_inv (emit s hd ip p).
Proof.
  intros [Hf Hi Hm Hc Hq] Hip Ht Hp. split; try done.
  - split; apply Hf.
  - by apply wrap_in_u.
  - cbn [emit build_outbound push_frame out_queue]. apply Forall_app_2; [done|].
    apply Forall_cons_2; [|apply Forall_nil_2]. split; cbn [of_dst_mac of_eth_payload].
    + destruct (guest_mac s) as [m|]; [by apply Hm|]. split; [done|].
      repeat (apply Forall_cons_2; [unfold byte_ok; lia|]). apply Forall_nil_2.
    + eexists. apply decode_outbound; try done; [apply Hf|by apply wrap_in_u].
Qed.

Lemma set_conns_inv s cs : server_inv s -> map_Forall conn_ok cs -> server_inv (set_conns s cs).
Proof. intros [Hf Hi Hm Hc Hq] Hcs. split; try done. split; apply Hf. Qed.

Lemma insert_conn_ok s k c : server_inv s -> conn_ok k c -> map_Forall conn_ok (<[k := c]> (conns s)).
Proof. intros Hs Hc. apply map_Forall_insert_2; [done|apply Hs]. Qed.

#[export] Hint Resolve set_conns_inv insert_conn_ok emit_inv : squib.

Lemma wire_flags : 0 <= TCP_ACK < 64 /\ 0 <= Z.lor TCP_FIN TCP_ACK < 64 /\ 0 <= Z.lor TCP_SYN TCP_ACK < 64 /\
  0 <= Z.lor TCP_RST TCP_ACK < 64 /\ 0 <= Z.lor (Z.lor TCP_ACK TCP_PSH) TCP_FIN < 64.
Proof. repeat split; vm_compute; (reflexivity || discriminate). Qed.

Lemma empty_payload : zlen (@nil Z) <= 65495.
Proof. done. Qed.

Lemma window_ok : in_u 16 65535 /\ in_u 16 0.
Proof. unfold in_u. lia. Qed.

Ltac solve_seg :=
  pose proof wire_flags; pose proof empty_payload; pose proof window_ok;
  apply tcp_build_ok; try tauto; try (apply wadd_in_u; lia); try eassumption.

Lemma on_fin_inv s k : server_inv s -> server_inv (on_fin s k).
Proof.
  intros Hs. unfold on_fin. destruct (conns s !! k) as [c|] eqn:Hc; [|done].
  pose proof (si_conns s Hs k c Hc) as [Hk Hsn Hrc _ _ Hb]. destruct Hk as [Hki Hkp].
  pose proof (si_fields s Hs) as [_ Hport _]. apply emit_inv; try done; [|solve_seg].
  apply set_conns_inv; [done|]. apply insert_conn_ok; [done|].
  split; try done; cbn; try (apply wadd_in_u; lia).
Qed.

Lemma handle_syn_inv s k tcp :
  server_inv s -> key_ok k -> in_u 16 (src_port tcp) -> server_inv (handle_syn s k tcp).
Proof.
  intros Hs [Hki Hkp] Hsp. pose proof (si_fields s Hs) as [Hip Hport Hiss]. unfold handle_syn. cbv zeta.
  assert (H1 : server_inv (set_next_iss s (wadd 32 (next_iss s) 0x10000))).
  { destruct Hs as [? ? ? ? ?]. split; try done. split; try done. apply wadd_in_u; lia. }
  apply set_conns_inv; [apply emit_inv; try done; cbn [Conn_new cn_rcv_nxt]; solve_seg|].
  cbn [emit build_outbound push_frame conns set_next_iss]. apply insert_conn_ok; [done|].
  split; try done; cbn; (apply wadd_in_u; lia).
Qed.

Section invariant.
Context {H : Type} (handler : H -> HttpRequest -> H * HttpResponse).
Hypothesis handler_size : forall h req, zlen (to_wire (handler h req).2) <= 65495.
Implicit Types (s : TcpServerInner) (h : H).

Lemma parse_incomplete_small buf : try_parse_http buf = Some Incomplete -> zlen buf <= MAX_REQUEST_BYTES.
Proof. unfold try_parse_http. destruct (Z.ltb_spec MAX_REQUEST_BYTES (zlen buf)); [done|lia]. Qed.

(** A response after data: the connection waits for the last acknowledgement. *)
Lemma response_inv s key ackseg snd rcv buf resp :
  server_inv s -> key_ok key -> tcp_ok ackseg -> in_u 32 snd -> in_u 32 rcv ->
  zlen buf <= MAX_REQUEST_BYTES + 65535 -> zlen (to_wire resp) <= 65495 ->
  server_inv (send_response (set_conns (emit s ackseg (key_ip key) [])
    (<[key := mkConn Established snd rcv buf]> (conns s))) key resp).
Proof.
  intros Hs Hk Ha Hsn Hrc Hb Hw. pose proof (si_fields s Hs) as [_ Hport _]. pose proof Hk as [Hki Hkp].
  rewrite (send_response_unfold _ key resp Established snd rcv buf) by apply lookup_insert_eq.
  rewrite emits_conns. cbn [conns set_conns]. rewrite insert_insert_eq.
  change (set_conns (set_conns ?x _) ?b) with (set_conns x b). apply set_conns_inv.
  - cbn [emits foldl response_seg fst Datatypes.snd]. apply emit_inv; try done.
    apply emit_inv; done.
  - apply insert_conn_ok; [done|]. split; try done. apply wadd_in_u; lia.
Qed.

Lemma on_data_inv s h key p s' h' snd rcv buf :
  server_inv s -> conns s !! key = Some (mkConn Established snd rcv buf) -> zlen p <= 65535 ->
  on_data handler s h key p = Some (s', h') -> server_inv s'.
Proof.
  intros Hs Hc Hp Hd. rewrite (on_data_unfold handler s h key p _ snd rcv buf Hc) in Hd by lia.
  pose proof (si_conns s Hs key _ Hc) as [Hk Hsn Hrc _ Hw _]. cbn in Hsn, Hrc, Hw.
  pose proof (si_fields s Hs) as [_ Hport _]. pose proof Hk as [Hki Hkp].
  assert (Hb : zlen (buf ++ p) <= MAX_REQUEST_BYTES + 65535).
  { specialize (Hw ltac:(done)). unfold zlen in *. rewrite length_app. lia. }
  assert (Hack : tcp_ok (tcp_build (server_port s) (key_port key) snd (wadd 32 rcv (zlen p)) TCP_ACK 65535))
    by solve_seg.
  assert (Hrn : in_u 32 (wadd 32 rcv (zlen p))) by (apply wadd_in_u; lia). cbv zeta in Hd.
  destruct (try_parse_http (buf ++ p)) as [[|req| |]|] eqn:Hparse; [| | | |done].
  - injection Hd as <- <-. apply set_conns_inv; [by apply emit_inv|].
    apply parse_incomplete_small in Hparse. apply insert_conn_ok; [done|]. by split.
  - pose proof (handler_size h req) as Hsz. destruct (handler h req) as [h1 resp].
    injection Hd as <- <-. by apply response_inv.
  - injection Hd as <- <-. by apply response_inv.
  - injection Hd as <- <-. by apply response_inv.
Qed.

Lemma dispatch_inv s h key tcp p s' h' :
  server_inv s -> key_ok key -> in_u 16 (src_port tcp) -> in_u 32 (ack_no tcp) -> zlen p <= 65535 ->
  dispatch handler s h key tcp p = Some (s', h') -> server_inv s'.
Proof.
  intros Hs Hk Hsp Ha Hp Hd. pose proof (si_fields s Hs) as [_ Hport _]. unfold dispatch in Hd.
  destruct (is_rst tcp).
  { injection Hd as <- <-. apply set_conns_inv; [done|]. apply map_Forall_delete, Hs. }
  destruct (is_syn tcp && negb (is_ack tcp)); [injection Hd as <- <-; by apply handle_syn_inv|].
  destruct (conns s !! key) as [c|] eqn:Hc.
  2:{ injection Hd as <- <-. apply emit_inv; try done; [apply Hk|solve_seg]. }
  destruct c as [st snd rcv buf]. cbn [cn_state cn_snd_nxt cn_rcv_nxt cn_rcv_buf] in Hd.
  pose proof (si_conns s Hs key _ Hc) as Hco. case_bool_decide as Hemp; cbn [negb] in Hd.
  - rewrite andb_false_r in Hd. destruct st.
    + destruct (is_ack tcp && _); injection Hd as <- <-; [|done].
      apply set_conns_inv; [done|]. apply insert_conn_ok; [done|]. destruct Hco. by split; try done; auto.
    + injection Hd as <- <-. destruct (is_fin tcp); [by apply on_fin_inv|done].
    + destruct (is_ack tcp && _); injection Hd as <- <-; [|done].
      apply set_conns_inv; [done|]. apply map_Forall_delete, Hs.
  - rewrite andb_true_r in Hd. destruct (negb _); [by injection Hd as <- <-|]. destruct st.
    + destruct (is_ack tcp && _); [|by injection Hd as <- <-].
      refine (on_data_inv _ _ _ _ _ _ snd rcv buf _ _ Hp Hd); [|apply lookup_insert_eq].
      apply set_conns_inv; [done|]. apply insert_conn_ok; [done|]. destruct Hco. by split; try done; auto.
    + destruct (on_data handler s h key p) as [[s1 h1]|] eqn:Ho; [|done].
      apply (on_data_inv _ _ _ _ _ _ _ _ _ Hs Hc Hp) in Ho. injection Hd as <- <-.
      destruct (is_fin tcp); [by apply on_fin_inv|done].
    + destruct (is_ack tcp && _); injection Hd as <- <-; [|done].
      apply set_conns_inv; [done|]. apply map_Forall_delete, Hs.
Qed.

Lemma handle_ip_frame_inv s h mac frame s' h' b :
  server_inv s -> addr_ok 6 mac -> bytes_ok frame ->
  handle_ip_frame handler s h mac frame = Some (s', h', b) -> server_inv s'.
Proof.
  intros Hs Hm Hf Hd. unfold handle_ip_frame in Hd. cbv zeta in Hd.
  destruct (ipv4_parse frame) as [ip|] eqn:Hip; [|by simplify_eq].
  apply ipv4_parse_fields in Hip as [Hsrc Htl]; [|done].
  do 5 (match type of Hd with (if ?c then _ else _) = _ => destruct c; [by simplify_eq|] end).
  set (pl := slice _ (_ - _) frame) in *.
  destruct (tcp_parse _ _ _ _) as [tcp|] eqn:Ht; [|by simplify_eq].
  apply tcp_parse_fields in Ht as (Hsp & Hdp & Hsq & Hak); [|by apply slice_Forall].
  destruct (negb (dst_port tcp =? server_port s)); [by simplify_eq|].
  destruct (dispatch _ _ _ _ _ _) as [[s2 h2]|] eqn:Hdisp; [|done]. injection Hd as <- <- <-.
  eapply dispatch_inv; [| | | | |exact Hdisp]; try done.
  - destruct Hs as [Hfi Hid Hma Hco Hqu]. split; try done; [split; apply Hfi|]. by intros m [= <-].
  - unfold pl, slice, zlen. rewrite length_take. unfold in_u in Htl. lia.
Qed.

End invariant.

(** ** The output queue is only appended to

    The server's behaviour does not depend on the frames already queued. *)

Definition shift_queue (q : list OutboundFrame) (s : TcpServerInner) : TcpServerInner :=
  mkServer (server_port s) (server_ip s) (server_mac s) (guest_mac s) (conns s) (next_iss s) (srv_ip_id s)
    (q ++ out_queue s).

Lemma emit_shift q s hd ip p : emit (shift_queue q s) hd ip p = shift_queue q (emit s hd ip p).
Proof.
  unfold emit, build_outbound, push_frame, shift_queue.
  cbn [server_port server_ip server_mac guest_mac conns next_iss srv_ip_id out_queue].
  by rewrite <- (app_assoc q).
Qed.

Lemma send_response_shift q s key resp :
  send_response (shift_queue q s) key resp = shift_queue q (send_response s key resp).
Proof.
  unfold send_response. cbn [conns shift_queue]. destruct (conns s !! key) as [c|]; [|done].
  exact (emit_shift q (set_conns s _) _ _ _).
Qed.

Lemma on_fin_shift q s key : on_fin (shift_queue q s) key = shift_queue q (on_fin s key).
Proof.
  unfold on_fin. cbn [conns shift_queue]. destruct (conns s !! key) as [c|]; [|done].
  exact (emit_shift q (set_conns s _) _ _ _).
Qed.

Section queue.
Context {H : Type} (handler : H -> HttpRequest -> H * HttpResponse).

Definition shift_result (q : list OutboundFrame) (r : option (TcpServerInner * H)) : option (TcpServerInner * H) :=
  match r with Some (s, h) => Some (shift_queue q s, h) | None => None end.

Lemma on_data_shift q s h key p :
  on_data handler (shift_queue q s) h key p = shift_result q (on_data handler s h key p).
Proof.
  unfold on_data. cbn [conns shift_queue]. destruct (conns s !! key) as [c|]; [|done]. cbv zeta.
  change (set_conns (shift_queue q s) ?cs) with (shift_queue q (set_conns s cs)). rewrite emit_shift.
  destruct (try_parse_http _) as [[|req| |]|]; [done| | | |done]; rewrite ?send_response_shift; try done.
  destruct (handler h req) as [h' resp]. by rewrite send_response_shift.
Qed.

Lemma dispatch_shift q s h key tcp p :
  dispatch handler (shift_queue q s) h key tcp p = shift_result q (dispatch handler s h key tcp p).
Proof.
  unfold dispatch. destruct (is_rst tcp); [done|]. destruct (is_syn tcp && _).
  { unfold handle_syn. cbn [shift_result]. cbv zeta.
    change (set_next_iss (shift_queue q s) ?i) with (shift_queue q (set_next_iss s i)).
    by rewrite emit_shift. }
  cbn [conns shift_queue]. destruct (conns s !! key) as [c|]; [|by rewrite emit_shift].
  destruct (_ && _); [done|]. destruct (cn_state c).
  - destruct (_ && _); [|done]. case_bool_decide; [done|]. exact (on_data_shift q (set_conns s _) h key p).
  - case_bool_decide.
    + cbn [shift_result]. destruct (is_fin tcp); [by rewrite on_fin_shift|done].
    + rewrite on_data_shift. destruct (on_data handler s h key p) as [[s1 h1]|]; [|done].
      cbn [shift_result]. destruct (is_fin tcp); [by rewrite on_fin_shift|done].
  - by destruct (_ && _).
Qed.

Lemma handle_ip_frame_shift q s h mac frame :
  handle_ip_frame handler (shift_queue q s) h mac frame =
  match handle_ip_frame handler s h mac frame with
  | Some (s', h', b) => Some (shift_queue q s', h', b)
  | None => None
  end.
Proof.
  unfold handle_ip_frame. destruct (ipv4_parse frame) as [ip|]; [|done].
  cbn [server_ip server_port shift_queue].
  do 5 (match goal with |- (if ?c then _ else _) = _ => destruct c; [done|] end).
  destruct (tcp_parse _ _ _ _) as [tcp|]; [|done]. destruct (negb _); [done|].
  change (set_guest_mac (shift_queue q s) mac) with (shift_queue q (set_guest_mac s mac)).
  rewrite dispatch_shift. by destruct (dispatch handler _ _ _ _ _) as [[s1 h1]|].
Qed.
End queue.

(** ** What a frame cannot change *)

Definition same_identity (s s' : TcpServerInner) : Prop :=
  server_ip s' = server_ip s /\ server_port s' = server_port s /\ (in_u 32 (next_iss s) -> in_u 32 (next_iss s')).

Lemma send_response_identity s key resp : same_identity s (send_response s key resp).
Proof. unfold send_response. by destruct (conns s !! key). Qed.

Lemma on_fin_identity s key : same_identity s (on_fin s key).
Proof. unfold on_fin. by destruct (conns s !! key). Qed.

(** A well-formed segment of the client [key]. *)
Definition is_client_frame (ip : list Z) (port : Z) (key : ConnKey) (f : list Z) : Prop :=
  exists id seq ack flags p, in_u 16 id /\ in_u 32 seq /\ in_u 32 ack /\ 0 <= flags < 64 /\ zlen p <= 65495 /\
    f = client_frame ip port key id seq ack flags p.

Section identity.
Context {H : Type} (handler : H -> HttpRequest -> H * HttpResponse).

Lemma on_data_identity s h key p s' h' :
  on_data handler s h key p = Some (s', h') -> same_identity s s'.
Proof.
  unfold on_data. destruct (conns s !! key) as [c|]; [|by intros [= <- <-]]. cbv zeta.
  set (s2 := emit _ _ _ _). assert (H2 : same_identity s s2) by done.
  destruct (try_parse_http _) as [[|req| |]|]; [by intros [= <- <-]| | | |done].
  - destruct (handler h req) as [h1 resp]. intros [= <- <-]. apply (send_response_identity s2).
  - intros [= <- <-]. apply (send_response_identity s2).
  - intros [= <- <-]. apply (send_response_identity s2).
Qed.

Lemma dispatch_identity s h key tcp p s' h' :
  dispatch handler s h key tcp p = Some (s', h') -> same_identity s s'.
Proof.
  unfold dispatch. intros Hd. destruct (is_rst tcp); [by injection Hd as <- <-|]. destruct (is_syn tcp && _).
  { injection Hd as <- <-. split; [done|]. split; [done|]. intros _. by apply wadd_in_u. }
  destruct (conns s !! key) as [c|]; [|by injection Hd as <- <-].
  destruct (_ && _) in Hd; [by injection Hd as <- <-|]. destruct (cn_state c).
  - destruct (_ && _) in Hd; [|by injection Hd as <- <-]. case_bool_decide; [by injection Hd as <- <-|].
    by apply on_data_identity in Hd.
  - case_bool_decide.
    + injection Hd as <- <-. destruct (is_fin tcp); [apply on_fin_identity|done].
    + destruct (on_data handler s h key p) as [[s1 h1]|] eqn:Ho; [|done]. apply on_data_identity in Ho.
      injection Hd as <- <-. destruct (is_fin tcp); [|done].
      destruct (on_fin_identity s1 key) as (E1 & E2 & E3), Ho as (F1 & F2 & F3).
      split; [congruence|]. split; [congruence|]. auto.
  - by destruct (_ && _) in Hd; injection Hd as <- <-.
Qed.

(** Every well-formed client segment is consumed. *)
Lemma client_frame_consumed s h mac key f s' h' b :
  server_fields_ok s -> key_ok key -> is_client_frame (server_ip s) (server_port s) key f ->
  handle_ip_frame handler s h mac f = Some (s', h', b) -> b = true /\ server_fields_ok s' /\ same_identity s s'.
Proof.
  intros Hs Hk (id & seq & ack & flags & p & ? & ? & ? & ? & ? & ->) Hd.
  rewrite receive_segment in Hd by done.
  destruct (dispatch _ _ _ _ _ _) as [[s2 h2]|] eqn:Hx; [|done]. injection Hd as <- <- <-.
  apply dispatch_identity in Hx as (E1 & E2 & E3). destruct Hs as [Hip Hp Hi].
  split; [done|]. split; [split|done]; rewrite ?E1, ?E2; auto.
Qed.
End identity.

Lemma data_frames_client ip port key id ack chunks : in_u 16 id -> in_u 32 ack ->
  Forall (fun c => zlen c <= 65495) chunks -> forall seq, in_u 32 seq ->
  Forall (is_client_frame ip port key) (data_frames ip port key id seq ack chunks).
Proof.
  intros Hi Ha. induction 1 as [|c cs Hc _ IH]; intros seq Hs; [apply Forall_nil_2|].
  apply Forall_cons_2; [|apply IH; by apply wadd_in_u].
  exists id, seq, ack, (Z.lor TCP_ACK TCP_PSH), c. by split_and!.
Qed.

Lemma session_frames_client ip port key id cseq iss chunks wire :
  in_u 16 id -> in_u 32 cseq -> Forall (fun c => zlen c <= 65495) chunks ->
  Forall (is_client_frame ip port key) (session_frames ip port key id cseq iss chunks wire).
Proof.
  intros Hi Hq Hc. assert (Hz : in_u 32 0) by (unfold in_u; lia).
  repeat apply Forall_app_2; [apply Forall_cons_2; [|apply Forall_cons_2; [|apply Forall_nil_2]]| |].
  - exists id, cseq, 0, TCP_SYN, []. by split_and!.
  - exists id, (wadd 32 cseq 1), (wadd 32 iss 1), TCP_ACK, []. split_and!; try done; by apply wadd_in_u.
  - apply data_frames_client; try done; by apply wadd_in_u.
  - apply Forall_cons_2; [|apply Forall_nil_2].
    exists id, (seq_after (wadd 32 cseq 1) chunks), (cn_snd_nxt (after_response (wadd 32 iss 1) 0 wire [])), TCP_ACK, [].
    split_and!; try done; [by apply seq_after_in_u, wadd_in_u|by apply wadd_in_u].
Qed.

(** ** Concrete sessions *)

Definition demo_key : ConnKey := mkKey demo_guest 40000.
Definition demo_mac : list Z := [6; 1; 35; 69; 103; 1].
Definition demo_server : TcpServerInner := TcpServer_new demo_ip 80 demo_mac.
Definition demo_request : ClientRequest := mkClient (lit "GET") (lit "/latest") None None [].
Definition demo_handler (n : nat) (req : HttpRequest) : nat * HttpResponse :=
  (S n, mkResponse 200 (rq_path req)).
Definition demo_chunks : list (list Z) :=
  [take 11 (request_bytes demo_request); drop 11 (request_bytes demo_request)].

(** Requests of printable text without spaces are acceptable. *)
Lemma printable_request_ok m p :
  forallb (fun c => (33 <=? c) && (c <? 127)) (lit m) = true -> lit m <> [] ->
  forallb (fun c => (33 <=? c) && (c <? 127)) (lit p) = true -> lit p <> [] ->
  zlen (request_bytes (mkClient (lit m) (lit p) None None [])) <= MAX_REQUEST_BYTES ->
  client_ok (mkClient (lit m) (lit p) None None []).
Proof.
  assert (Hw : forall s, forallb (fun c => (33 <=? c) && (c <? 127)) (lit s) = true ->
    no_space (lit s) /\ Forall scalar (lit s)).
  { intros s Hs. rewrite forallb_forall in Hs. split; apply Forall_forall; intros c Hc;
      apply list_elem_of_In, Hs in Hc; bool_to_prop; [|unfold scalar; lia].
    unfold is_whitespace. repeat (apply orb_false_iff; split); try (apply andb_false_iff); lia. }
  intros Hm Hm0 Hp Hp0 Hsz. split; cbn [cl_method cl_path cl_token cl_ttl]; try done; (split; [done|by apply Hw]).
Qed.

Lemma demo_request_ok : client_ok demo_request.
Proof. by apply printable_request_ok. Qed.

Lemma demo_key_ok : key_ok demo_key.
Proof. split; [apply demo_addrs|cbn; unfold in_u; lia]. Qed.

Lemma demo_server_fields : server_fields_ok demo_server.
Proof. split; [apply demo_addrs|cbn; unfold in_u; lia|cbn; unfold in_u; lia]. Qed.

Lemma demo_mac_ok : addr_ok 6 demo_mac.
Proof. split; [done|]. repeat (apply Forall_cons_2; [unfold byte_ok; lia|]). apply Forall_nil_2. Qed.

Definition demo_sized (h : nat) (req : HttpRequest) : nat * HttpResponse := (h, mkResponse 404 []).

Definition demo_syn : list Z := client_frame demo_ip 80 demo_key 1 7 0 TCP_SYN [].


(** ** Two closes the state machine gets wrong *)

(** The established connection with the whole request in one segment that also
    carries FIN. *)
Definition demo_established : TcpServerInner :=
  set_conns demo_server {[demo_key := mkConn Established 0x40000001 8 []]}.

Definition reply_flags (s : TcpServerInner) : list (option (Z * Z)) :=
  map (fun f => match decode_segment (of_eth_payload f) with
                | Some (_, _, h, _) => Some (tcp_flags h, seq_no h)
                | None => None
                end) (out_queue s).

(** The server sends two FINs, the second one past the first: ACK, then the
    response with FIN at 0x40000001, then FIN again. *)
Lemma data_with_fin_sends_two_fins :
  let req := request_bytes demo_request in
  let wire := to_wire (mkResponse 404 []) in
  match dispatch demo_sized demo_established 0%nat demo_key
          (client_hdr 80 demo_key 8 0x40000001 (Z.lor (Z.lor TCP_ACK TCP_PSH) TCP_FIN)) req with
  | Some (s', _) =>
      reply_flags s' = [Some (TCP_ACK, 0x40000001);
                        Some (Z.lor (Z.lor TCP_ACK TCP_PSH) TCP_FIN, 0x40000001);
                        Some (Z.lor TCP_FIN TCP_ACK, 0x40000001 + zlen wire + 1)]
  | None => False
  end.
Proof. vm_compute. reflexivity. Qed.

(** A guest that acknowledges the response and closes with FIN, as TCP
    prescribes, is answered with RST instead of an acknowledgement. *)
Lemma guest_fin_answered_with_rst :
  let closing := mkConn LastAck 0x40000101 50 [] in
  match feed demo_sized (set_conns demo_server {[demo_key := closing]}) 0%nat demo_mac
          [client_frame demo_ip 80 demo_key 1 50 0x40000101 TCP_ACK [];
           client_frame demo_ip 80 demo_key 1 50 0x40000101 (Z.lor TCP_FIN TCP_ACK) []] with
  | Some (s', _) => reply_flags s' = [Some (Z.lor TCP_RST TCP_ACK, 0x40000101)]
  | None => False
  end.
Proof. vm_compute. reflexivity. Qed.
