(* ===== verification/Mmds.v ===== *)
(** * Mmds: the metadata service

    Models [src/crates/mmds/src/data_store.rs], [token.rs] and
    [interceptor.rs]: the JSON tree with its size cap and merge patch, the V2
    token store, the HTTP surface, and the interceptor that takes the guest's
    metadata traffic out of the network device.  The JSON library and the
    base64 encoder are third-party packages and appear as classes; the clock and
    the random bytes of a call are its arguments. *)

From stdpp Require Import base numbers list option gmap strings.
From Stdlib Require Import ZArith Lia.
From S2P Require Import Prelude Pdu Text Http MmdsTcp.

Local Open Scope Z_scope.
Local Open Scope squib_scope.

(** ** The data store *)

Inductive MmdsVersion := V1 | V2.

Inductive MmdsError :=
  | SizeLimitExceeded (cap got : Z)
  | PathNotFound (path : list Z)
  | InvalidPointer (pointer : list Z)
  | InvalidJson (what : list Z).

(** [serde_json::Value], with the library's number type; an object is its
    entries in key order. *)
Unset Elimination Schemes.
Inductive Value (Num : Type) :=
  | Null
  | Bool (b : bool)
  | Number (n : Num)
  | Text (s : list Z)
  | Array (vs : list (Value Num))
  | Object (fields : list (list Z * Value Num)).
Set Elimination Schemes.
Arguments Null {Num}.
Arguments Bool {Num}.
Arguments Number {Num}.
Arguments Text {Num}.
Arguments Array {Num}.
Arguments Object {Num}.

(** The functions of the JSON library the code calls. *)
Class JsonLib (Num : Type) := {
  json_from_str : list Z -> result (list Z) (Value Num);
  json_to_string : Value Num -> list Z;
  json_to_vec : Value Num -> result unit (list Z);
  json_pointer : Value Num -> list Z -> option (Value Num)
}.

(** Keys are ordered bytewise. *)
Fixpoint key_ltb (a b : list Z) : bool :=
  match a, b with
  | [], [] => false
  | [], _ :: _ => true
  | _ :: _, [] => false
  | x :: a', y :: b' => (x <? y) || ((x =? y) && key_ltb a' b')
  end.

Section objects.
Context {V : Type}.

(** [Map::get], [Map::remove] and storing through [Map::entry]. *)
Fixpoint obj_get (k : list Z) (m : list (list Z * V)) : option V :=
  match m with
  | [] => None
  | (k', v) :: m' => if decide (k = k') then Some v else obj_get k m'
  end.

Fixpoint obj_remove (k : list Z) (m : list (list Z * V)) : list (list Z * V) :=
  match m with
  | [] => []
  | (k', v) :: m' => if decide (k = k') then obj_remove k m' else (k', v) :: obj_remove k m'
  end.

Fixpoint obj_set (k : list Z) (v : V) (m : list (list Z * V)) : list (list Z * V) :=
  match m with
  | [] => [(k, v)]
  | (k', v') :: m' =>
      if decide (k = k') then (k, v) :: m'
      else if key_ltb k k' then (k, v) :: m else (k', v') :: obj_set k v m'
  end.
End objects.

Definition is_null {Num} (v : Value Num) : bool := match v with Null => true | _ => false end.

(** [merge_patch(target, patch)], the patch first because the recursion follows
    it. *)
Fixpoint merge_patch {Num} (patch target : Value Num) : Value Num :=
  match patch, target with
  | Object p, Object t =>
      Object ((fix entries (p : list (list Z * Value Num)) (t : list (list Z * Value Num)) :=
                 match p with
                 | [] => t
                 | (k, pv) :: p' =>
                     entries p' (if is_null pv then obj_remove k t
                                 else obj_set k (merge_patch pv (default Null (obj_get k t))) t)
                 end) p t)
  | _, _ => patch
  end.

Record Mmds (Num : Type) := mkMmds { version : MmdsVersion; data : Value Num; size_cap : Z }.
Arguments mkMmds {Num}.
Arguments version {Num}.
Arguments data {Num}.
Arguments size_cap {Num}.

Definition Mmds_new {Num} (cap : Z) : Mmds Num := mkMmds V1 (Object []) cap.

Definition set_version {Num} (m : Mmds Num) (v : MmdsVersion) : Mmds Num := mkMmds v (data m) (size_cap m).

Section store.
Context {Num : Type} `{!JsonLib Num}.

Definition put_json (m : Mmds Num) (body : list Z) : Mmds Num * result MmdsError unit :=
  if size_cap m <? zlen body then (m, Err (SizeLimitExceeded (size_cap m) (zlen body)))
  else
    match json_from_str body with
    | Err e => (m, Err (InvalidJson e))
    | Ok v => (mkMmds (version m) v (size_cap m), Ok tt)
    end.

Definition patch_json (m : Mmds Num) (body : list Z) : Mmds Num * result MmdsError unit :=
  match json_from_str body with
  | Err e => (m, Err (InvalidJson e))
  | Ok patch =>
      let merged := merge_patch patch (data m) in
      let serialized := json_to_string merged in
      if size_cap m <? zlen serialized
      then (m, Err (SizeLimitExceeded (size_cap m) (zlen serialized)))
      else (mkMmds (version m) merged (size_cap m), Ok tt)
  end.

Definition get_root (m : Mmds Num) : Value Num := data m.

Definition get_at_pointer (m : Mmds Num) (pointer : list Z) : result MmdsError (Value Num) :=
  if bool_decide (pointer = []) || bool_decide (pointer = lit "/") then Ok (data m)
  else
    match json_pointer (data m) pointer with
    | Some v => Ok v
    | None => Err (PathNotFound pointer)
    end.
End store.

(** ** Tokens *)

Definition MIN_TTL_SECONDS : Z := 1.
Definition MAX_TTL_SECONDS : Z := 21600.
Definition TOKEN_LEN_BYTES : nat := 32.

Inductive TokenStoreError := TtlOutOfRange (ttl min max : Z) | Entropy.

(** [base64::URL_SAFE_NO_PAD.encode]. *)
Class Base64 := { base64_encode : list Z -> list Z }.

(** The loop of [constant_time_eq] on equally long strings. *)
Fixpoint xor_fold (diff : Z) (a b : list Z) : Z :=
  match a, b with
  | x :: a', y :: b' => xor_fold (Z.lor diff (Z.lxor x y)) a' b'
  | _, _ => diff
  end.

Definition constant_time_eq (a b : list Z) : bool :=
  if negb (length a =? length b)%nat then false else xor_fold 0 a b =? 0.

(** [TokenStore]: the expiry of each token, in nanoseconds of the monotonic
    clock. *)
Definition NANOS_PER_SECOND : Z := 1000000000.

Local Abbreviation Tokens := (gmap (list Z) Z).

(** [random] is what reading the system's random bytes gives. *)
Definition issue `{!Base64} (ts : Tokens) (ttl_seconds now : Z) (random : option (list Z))
  : Tokens * result TokenStoreError (list Z) :=
  if negb ((MIN_TTL_SECONDS <=? ttl_seconds) && (ttl_seconds <=? MAX_TTL_SECONDS))
  then (ts, Err (TtlOutOfRange ttl_seconds MIN_TTL_SECONDS MAX_TTL_SECONDS))
  else
    match random with
    | None => (ts, Err Entropy)
    | Some bytes =>
        let token := base64_encode bytes in
        (<[token := now + ttl_seconds * NANOS_PER_SECOND]> ts, Ok token)
    end.

(** The scan over the entries, in the map's order: the hit and the tokens to
    purge. *)
Fixpoint scan_tokens (now : Z) (candidate : list Z) (entries : list (list Z * Z))
  (hit : option (list Z)) (purge : list (list Z)) : option (list Z) * list (list Z) :=
  match entries with
  | [] => (hit, purge)
  | (tok, exp) :: entries' =>
      if exp <=? now then scan_tokens now candidate entries' hit (purge ++ [tok])
      else if constant_time_eq tok candidate then scan_tokens now candidate entries' (Some tok) purge
      else scan_tokens now candidate entries' hit purge
  end.

Definition validate (ts : Tokens) (candidate : list Z) (now : Z) : Tokens * bool :=
  let '(hit, purge) := scan_tokens now candidate (map_to_list ts) None [] in
  (foldl (fun m t => delete t m) ts purge, match hit with Some _ => true | None => false end).

(** ** The HTTP surface *)

Definition MMDS_SYNTHETIC_MAC : list Z := [0x06; 0x01; 0x23; 0x45; 0x67; 0x01].
Definition MMDS_DEFAULT_IPV4 : list Z := [169; 254; 169; 254].
Definition IP_PROTO_TCP : Z := 6.
Definition HTTP_PORT : Z := 80.
Definition MAX_HTTP_PATH_BYTES : Z := 1024.
Definition MAX_TOKEN_HEADER_BYTES : Z := 256.

Definition path_charset_ok (path : list Z) : bool :=
  forallb (fun b => ((0x20 <=? b) && (b <? 0x7F)) && negb (b =? 92)) path.

(** The stores the HTTP handler closes over, with the clock and the random
    bytes of this call. *)
Record HttpWorld (Num : Type) := mkHttpWorld {
  hw_mmds : Mmds Num;
  hw_tokens : gmap (list Z) Z;
  hw_now : Z;
  hw_random : option (list Z)
}.
Arguments mkHttpWorld {Num}.
Arguments hw_mmds {Num}.
Arguments hw_tokens {Num}.
Arguments hw_now {Num}.
Arguments hw_random {Num}.

Definition set_tokens {Num} (w : HttpWorld Num) (ts : gmap (list Z) Z) : HttpWorld Num :=
  mkHttpWorld (hw_mmds w) ts (hw_now w) (hw_random w).

Section http.
Context {Num : Type} `{!JsonLib Num} `{!Base64}.

(** The token check of a V2 read. *)
Definition token_ok (w : HttpWorld Num) (token : option (list Z)) : HttpWorld Num * bool :=
  match token with
  | None => (w, false)
  | Some tok =>
      if zlen tok <=? MAX_TOKEN_HEADER_BYTES then
        let '(ts, ok) := validate (hw_tokens w) tok (hw_now w) in (set_tokens w ts, ok)
      else (w, false)
  end.

(** The lookup of a read that may go ahead. *)
Definition serve_path (m : Mmds Num) (path : list Z) : HttpResponse :=
  match get_at_pointer m path with
  | Ok v =>
      match json_to_vec v with
      | Ok body => mkResponse 200 body
      | Err _ => mkResponse 500 (fault_message (lit "internal serializer failure"))
      end
  | Err _ => mkResponse 404 (lit "not found")
  end.

Definition service_http_request (w : HttpWorld Num) (req : HttpRequest) : HttpWorld Num * HttpResponse :=
  if MAX_HTTP_PATH_BYTES <? zlen (rq_path req) then (w, mkResponse 414 (lit "request path too long"))
  else if negb (path_charset_ok (rq_path req))
  then (w, mkResponse 400 (lit "path contains disallowed control or NUL bytes"))
  else if size_cap (hw_mmds w) <? zlen (rq_body req)
  then (w, mkResponse 413 (lit "request body exceeds MMDS size cap"))
  else if bool_decide (rq_method req = lit "PUT") && bool_decide (rq_path req = lit "/latest/api/token") then
    match rq_ttl_header req with
    | None => (w, mkResponse 400 (lit "missing X-aws-ec2-metadata-token-ttl-seconds"))
    | Some ttl =>
        match issue (hw_tokens w) ttl (hw_now w) (hw_random w) with
        | (ts, Ok t) => (set_tokens w ts, mkResponse 200 t)
        | (ts, Err _) => (set_tokens w ts, mkResponse 400 (lit "invalid TTL"))
        end
    end
  else if bool_decide (rq_method req = lit "GET") then
    match version (hw_mmds w) with
    | V2 =>
        match token_ok w (rq_token_header req) with
        | (w', true) => (w', serve_path (hw_mmds w) (rq_path req))
        | (w', false) => (w', mkResponse 401 (lit "missing or invalid token"))
        end
    | V1 => (w, serve_path (hw_mmds w) (rq_path req))
    end
  else (w, mkResponse 405 (lit "method not allowed")).

(** ** The interceptor *)

Record MmdsInterceptor := mkInterceptor {
  ic_mmds : Mmds Num;
  ic_tokens : gmap (list Z) Z;
  mmds_ip : list Z;
  mmds_mac : list Z;
  ic_tcp : TcpServerInner;
  pending_rx : list (list Z)
}.

Definition MmdsInterceptor_new (mmds : Mmds Num) (tokens : gmap (list Z) Z) : MmdsInterceptor :=
  mkInterceptor mmds tokens MMDS_DEFAULT_IPV4 MMDS_SYNTHETIC_MAC
    (TcpServer_new MMDS_DEFAULT_IPV4 HTTP_PORT MMDS_SYNTHETIC_MAC) [].

Definition set_ipv4 (ic : MmdsInterceptor) (ip : list Z) : MmdsInterceptor :=
  mkInterceptor (ic_mmds ic) (ic_tokens ic) ip (mmds_mac ic) (set_ip (ic_tcp ic) ip) (pending_rx ic).

Definition handle_arp (ic : MmdsInterceptor) (eth : EthernetHeader) (body : list Z) : MmdsInterceptor * bool :=
  match arp_parse body with
  | Err _ => (ic, false)
  | Ok arp =>
      if negb (arp_op arp =? ARP_OP_REQUEST) || negb (bool_decide (target_ip arp = mmds_ip ic)) then (ic, false)
      else
        let reply := build_arp_reply_frame (mmds_mac ic) (mmds_ip ic) (eth_src eth) (sender_ip arp) in
        (mkInterceptor (ic_mmds ic) (ic_tokens ic) (mmds_ip ic) (mmds_mac ic) (ic_tcp ic)
           (pending_rx ic ++ [reply]), true)
  end.

Definition wrap_in_ethernet (src_mac : list Z) (f : OutboundFrame) : list Z :=
  eth_to_bytes (mkEth (of_dst_mac f) src_mac ETHERTYPE_IPV4) ++ of_eth_payload f.

Definition flush_tcp_outbound (ic : MmdsInterceptor) : MmdsInterceptor :=
  let '(tcp, frames) := drain_outbound (ic_tcp ic) in
  mkInterceptor (ic_mmds ic) (ic_tokens ic) (mmds_ip ic) (mmds_mac ic) tcp
    (pending_rx ic ++ map (wrap_in_ethernet (mmds_mac ic)) frames).

Definition handle_ipv4 (ic : MmdsInterceptor) (now : Z) (random : option (list Z))
  (eth : EthernetHeader) (body : list Z) : option (MmdsInterceptor * bool) :=
  if (length body <? 20)%nat then Some (ic, false)
  else if negb (bool_decide (slice 16 4 body = mmds_ip ic)) then Some (ic, false)
  else if byte_at body 9 =? IP_PROTO_TCP then
    match handle_ip_frame service_http_request (ic_tcp ic)
            (mkHttpWorld (ic_mmds ic) (ic_tokens ic) now random) (eth_src eth) body with
    | None => None
    | Some (tcp, w, consumed) =>
        Some (flush_tcp_outbound
                (mkInterceptor (ic_mmds ic) (hw_tokens w) (mmds_ip ic) (mmds_mac ic) tcp (pending_rx ic)),
              consumed)
    end
  else Some (ic, false).

Definition intercept (ic : MmdsInterceptor) (now : Z) (random : option (list Z)) (frame : list Z)
  : option (MmdsInterceptor * bool) :=
  match eth_parse frame with
  | Err _ => Some (ic, false)
  | Ok eth =>
      let body := drop ETHER_HDR_LEN frame in
      if ethertype eth =? ETHERTYPE_ARP then Some (handle_arp ic eth body)
      else if ethertype eth =? ETHERTYPE_IPV4 then handle_ipv4 ic now random eth body
      else Some (ic, false)
  end.

Definition drain_rx (ic : MmdsInterceptor) : MmdsInterceptor * list (list Z) :=
  let ic1 := flush_tcp_outbound ic in
  (mkInterceptor (ic_mmds ic1) (ic_tokens ic1) (mmds_ip ic1) (mmds_mac ic1) (ic_tcp ic1) [], pending_rx ic1).
End http.

(** ** Token comparison and validation *)

Lemma xor_fold_zero a : forall b diff, length a = length b ->
  xor_fold diff a b = 0 <-> diff = 0 /\ a = b.
Proof.
  induction a as [|x a IH]; intros [|y b] diff Hl; cbn in *; try lia; [tauto|].
  rewrite IH by lia. rewrite Z.lor_eq_0_iff, Z.lxor_eq_0_iff.
  split; [by intros [[-> ->] ->]|by intros [-> [= -> ->]]].
Qed.

(** The constant-time comparison decides equality. *)
Lemma constant_time_eq_spec a b : constant_time_eq a b = bool_decide (a = b).
Proof.
  unfold constant_time_eq. destruct (Nat.eqb_spec (length a) (length b)) as [Hl|Hl]; cbn [negb].
  - apply eq_true_iff_eq. rewrite Z.eqb_eq, bool_decide_eq_true, xor_fold_zero by done. tauto.
  - rewrite bool_decide_false; [done|]. by intros ->.
Qed.

(** A token is live while its expiry lies in the future. *)
Definition live (now : Z) (ts : gmap (list Z) Z) (tok : list Z) : bool :=
  match ts !! tok with Some e => now <? e | None => false end.

Lemma scan_tokens_spec now cand l : forall hit purge hit' purge',
  scan_tokens now cand l hit purge = (hit', purge') ->
  purge' = purge ++ map fst (List.filter (fun e => e.2 <=? now) l) /\
  (is_Some hit' <-> is_Some hit \/ exists e, (cand, e) ∈ l /\ now < e).
Proof.
  induction l as [|[tok e] l IH]; intros hit purge hit' purge' Hs; cbn [scan_tokens List.filter snd] in *.
  { simplify_eq. split; [by rewrite app_nil_r|].
    split; [by left|]. intros [|(e & []%not_elem_of_nil & _)]; done. }
  rewrite constant_time_eq_spec in Hs. destruct (Z.leb_spec e now) as [He|He].
  - apply IH in Hs as [-> Hh]. split; [cbn; by rewrite <- app_assoc|]. rewrite Hh. split.
    + intros [|(e' & ? & ?)]; [by left|]. right. exists e'. split; [by apply list_elem_of_further|done].
    + intros [|(e' & [?|?]%elem_of_cons & ?)]; [by left|simplify_eq; lia|right; by exists e'].
  - case_bool_decide as Hc; apply IH in Hs as [-> Hh]; (split; [done|]); rewrite Hh; subst.
    + split; [|intros _; left; by eexists]. intros _. right. exists e. split; [apply list_elem_of_here|done].
    + split; intros [|(e' & Hin & ?)]; try by left.
      * right. exists e'. split; [by apply list_elem_of_further|done].
      * apply elem_of_cons in Hin as [?|?]; [simplify_eq|right; by exists e'].
Qed.

Lemma foldl_delete ks : forall (m : gmap (list Z) Z) k,
  foldl (fun m t => delete t m) m ks !! k = if decide (k ∈ ks) then None else m !! k.
Proof.
  induction ks as [|k' ks IH]; intros m k; cbn [foldl]; [by rewrite decide_False by set_solver|].
  rewrite IH. destruct (decide (k ∈ ks)); [by rewrite decide_True by set_solver|].
  destruct (decide (k = k')) as [->|Hne].
  - rewrite decide_True by apply list_elem_of_here. apply lookup_delete_eq.
  - rewrite decide_False by (by intros [?|?]%elem_of_cons). by apply lookup_delete_ne.
Qed.

(** [validate] answers whether the token is live and drops exactly the expired
    ones. *)
Lemma validate_spec ts cand now :
  (validate ts cand now).2 = live now ts cand /\
  forall tok, (validate ts cand now).1 !! tok =
    match ts !! tok with Some e => if e <=? now then None else Some e | None => None end.
Proof.
  unfold validate. destruct (scan_tokens now cand (map_to_list ts) None []) as [hit purge] eqn:Hs.
  apply scan_tokens_spec in Hs as [-> Hh]. cbn [fst snd app]. split.
  - apply eq_true_iff_eq. transitivity (is_Some hit).
    { by destruct hit. }
    rewrite Hh. unfold live. split.
    + intros [[? ?]|(e & Hin & ?)]; [done|]. apply elem_of_map_to_list in Hin. rewrite Hin. lia.
    + destruct (ts !! cand) as [e|] eqn:Hc; [|done]. intros He. right. exists e.
      split; [by apply elem_of_map_to_list|lia].
  - intros tok. rewrite foldl_delete.
    assert (Hin : tok ∈ map fst (List.filter (fun e => e.2 <=? now) (map_to_list ts)) <->
                  exists e, ts !! tok = Some e /\ e <= now).
    { rewrite list_elem_of_In, in_map_iff. split.
      - intros ([t e] & <- & Hf). apply filter_In in Hf as [Hf Hle]. cbn in *.
        exists e. split; [|lia]. apply elem_of_map_to_list, list_elem_of_In. done.
      - intros (e & He & Hle). exists (tok, e). split; [done|]. apply filter_In. split; [|cbn; lia].
        by apply list_elem_of_In, elem_of_map_to_list. }
    destruct (ts !! tok) as [e|] eqn:He; [|by case_decide].
    case_decide as Hd; rewrite Hin in Hd; destruct (Z.leb_spec e now) as [Hle|Hle]; try done.
    + destruct Hd as (e' & [= <-] & ?). lia.
    + destruct Hd. by exists e.
Qed.

(** ** The token store against its specification

    The specification remembers every grant and never forgets one: a token is
    valid while its latest grant has not expired. *)

Inductive token_op :=
  | Issue (ttl now : Z) (random : option (list Z))
  | Validate (candidate : list Z) (now : Z).

Inductive token_reply :=
  | Issued (r : result TokenStoreError (list Z))
  | Checked (b : bool).

Section tokens.
Context `{!Base64}.
Implicit Types (ts : gmap (list Z) Z) (gs : list (list Z * Z)).

Definition token_step ts (op : token_op) : gmap (list Z) Z * token_reply :=
  match op with
  | Issue ttl now random => let '(ts', r) := issue ts ttl now random in (ts', Issued r)
  | Validate cand now => let '(ts', b) := validate ts cand now in (ts', Checked b)
  end.

Definition spec_step gs (op : token_op) : list (list Z * Z) * token_reply :=
  match op with
  | Issue ttl now random =>
      if (1 <=? ttl) && (ttl <=? 21600) then
        match random with
        | Some bytes => ((base64_encode bytes, now + ttl * NANOS_PER_SECOND) :: gs, Issued (Ok (base64_encode bytes)))
        | None => (gs, Issued (Err Entropy))
        end
      else (gs, Issued (Err (TtlOutOfRange ttl 1 21600)))
  | Validate cand now =>
      (gs, Checked (match obj_get cand gs with Some e => now <? e | None => false end))
  end.

Fixpoint run_ops {S} (step : S -> token_op -> S * token_reply) (s : S) (ops : list token_op) : list token_reply :=
  match ops with
  | [] => []
  | op :: ops' => let '(s', r) := step s op in r :: run_ops step s' ops'
  end.

(** The clock of successive validations does not run backwards. *)
Fixpoint clock_ordered (last : Z) (ops : list token_op) : Prop :=
  match ops with
  | [] => True
  | Issue _ _ _ :: ops' => clock_ordered last ops'
  | Validate _ now :: ops' => last <= now /\ clock_ordered now ops'
  end.

(** What the store has forgotten had expired at the last validation. *)
Definition token_rel (last : Z) ts gs : Prop :=
  forall tok, match obj_get tok gs with
              | None => ts !! tok = None
              | Some e => ts !! tok = Some e \/ (ts !! tok = None /\ e <= last)
              end.

Lemma issue_refines last ts gs ttl now random :
  token_rel last ts gs ->
  token_rel last (token_step ts (Issue ttl now random)).1 (spec_step gs (Issue ttl now random)).1 /\
  (token_step ts (Issue ttl now random)).2 = (spec_step gs (Issue ttl now random)).2.
Proof.
  intros HR. cbn [token_step spec_step]. unfold issue, MIN_TTL_SECONDS, MAX_TTL_SECONDS.
  destruct ((1 <=? ttl) && (ttl <=? 21600)); cbn [negb]; [|by split].
  destruct random as [bytes|]; [|by split]. split; [|done]. intros tok. cbn [fst obj_get].
  destruct (decide (tok = base64_encode bytes)) as [->|Hne]; [left; apply lookup_insert_eq|].
  specialize (HR tok). by rewrite lookup_insert_ne.
Qed.

Lemma validate_refines last ts gs cand now :
  token_rel last ts gs -> last <= now ->
  token_rel now (token_step ts (Validate cand now)).1 (spec_step gs (Validate cand now)).1 /\
  (token_step ts (Validate cand now)).2 = (spec_step gs (Validate cand now)).2.
Proof.
  intros HR Hn. cbn [token_step spec_step]. destruct (validate_spec ts cand now) as [Hb Hm].
  destruct (validate ts cand now) as [ts' b]. cbn [fst snd] in *. split.
  - intros tok. rewrite Hm. specialize (HR tok). destruct (obj_get tok gs) as [e|]; [|by rewrite HR].
    destruct HR as [->|[-> ?]]; [|right; split; [done|lia]].
    destruct (Z.leb_spec e now); [by right|by left].
  - f_equal. rewrite Hb. unfold live. specialize (HR cand).
    destruct (obj_get cand gs) as [e|]; [|by rewrite HR]. destruct HR as [->|[-> ?]]; [done|].
    symmetry. apply Z.ltb_ge. lia.
Qed.

(** C33: The token store implements its specification: under a clock that does
    not run backwards, every sequence of issues and validations is answered as
    if no grant were ever forgotten, although expired entries are purged on the
    way. *)
Theorem token_store_refines ops t0 :
  clock_ordered t0 ops -> run_ops token_step ∅ ops = run_ops spec_step [] ops.
Proof.
  assert (HR : token_rel t0 ∅ []) by (intros tok; apply lookup_empty).
  revert HR. generalize (∅ : gmap (list Z) Z) (@nil (list Z * Z)). revert t0.
  induction ops as [|[ttl now random|cand now] ops IH]; intros t0 ts gs HR Hc; [done| |]; cbn [run_ops].
  - destruct (issue_refines t0 ts gs ttl now random HR) as [HR' Hr].
    destruct (token_step _ _) as [ts' r], (spec_step _ _) as [gs' r']. cbn in *. subst.
    f_equal. by apply (IH t0).
  - destruct Hc as [Hn Hc]. destruct (validate_refines t0 ts gs cand now HR Hn) as [HR' Hr].
    destruct (token_step _ _) as [ts' r], (spec_step _ _) as [gs' r']. cbn in *. subst.
    f_equal. by apply (IH now).
Qed.
End tokens.

(** ** Merge patch *)

Section merge.
Context {Num : Type}.
Implicit Types (v pv : Value Num) (t p : list (list Z * Value Num)).

Lemma obj_get_remove {V} k k' (m : list (list Z * V)) :
  obj_get k (obj_remove k' m) = if decide (k = k') then None else obj_get k m.
Proof.
  induction m as [|[j v] m IH]; cbn [obj_remove obj_get]; [by case_decide|].
  destruct (decide (k' = j)) as [->|Hj].
  - rewrite IH. repeat case_decide; (done || congruence).
  - cbn [obj_get]. rewrite IH. repeat case_decide; (done || congruence).
Qed.

Lemma obj_get_set {V} k k' (v : V) m :
  obj_get k (obj_set k' v m) = if decide (k = k') then Some v else obj_get k m.
Proof.
  induction m as [|[j w] m IH]; cbn [obj_set obj_get]; [by case_decide|].
  destruct (decide (k' = j)) as [->|Hj]; [|destruct (key_ltb k' j)]; cbn [obj_get];
    rewrite ?IH; repeat case_decide; (done || congruence).
Qed.

(** The loop over the entries of an object patch. *)
Definition merge_entries p t : list (list Z * Value Num) :=
  match merge_patch (Object p) (Object t) with Object m => m | _ => [] end.

Lemma merge_entries_cons k pv p t :
  merge_entries ((k, pv) :: p) t =
  merge_entries p (if is_null pv then obj_remove k t
                   else obj_set k (merge_patch pv (default Null (obj_get k t))) t).
Proof. done. Qed.

Lemma obj_get_not_in k p : (k ∉ map fst p) -> obj_get k p = None.
Proof.
  induction p as [|[j v] p IH]; [done|]. cbn [map fst obj_get]. intros H.
  apply not_elem_of_cons in H as [H1 H2]. rewrite decide_False by done. by apply IH.
Qed.

Lemma merge_entries_get p : forall t k, NoDup (map fst p) ->
  obj_get k (merge_entries p t) =
  match obj_get k p with
  | None => obj_get k t
  | Some pv => if is_null pv then None else Some (merge_patch pv (default Null (obj_get k t)))
  end.
Proof.
  induction p as [|[j pv] p IH]; intros t k Hnd; [done|]. cbn [map fst] in Hnd.
  apply NoDup_cons in Hnd as [Hj Hnd]. rewrite merge_entries_cons, IH by done. cbn [obj_get].
  destruct (decide (k = j)) as [->|Hne].
  - rewrite obj_get_not_in by done. destruct (is_null pv).
    + rewrite obj_get_remove. by case_decide.
    + rewrite obj_get_set. by case_decide.
  - replace (obj_get k (if is_null pv then _ else _)) with (obj_get k t); [done|].
    destruct (is_null pv); [rewrite obj_get_remove|rewrite obj_get_set]; by case_decide.
Qed.

(** Patching an object with an object acts key by key: an absent key is
    left alone, a null removes the key, anything else is merged recursively into
    the old value (or into null); every other combination replaces the target
    by the patch. *)
Theorem merge_patch_exact (patch target : Value Num) :
  match patch, target with
  | Object p, Object t =>
      NoDup (map fst p) ->
      exists m, merge_patch patch target = Object m /\
        forall k, obj_get k m =
          match obj_get k p with
          | None => obj_get k t
          | Some Null => None
          | Some pv => Some (merge_patch pv (default Null (obj_get k t)))
          end
  | _, _ => merge_patch patch target = patch
  end.
Proof.
  destruct patch as [| | | | |p]; try done. destruct target as [| | | | |t]; try done.
  intros Hnd. exists (merge_entries p t). split; [done|]. intros k.
  rewrite merge_entries_get by done. by destruct (obj_get k p) as [[]|].
Qed.

(** A null nested in an object that lands on anything but an object is stored,
    where RFC 7396 drops it. *)
Lemma nested_null_kept :
  merge_patch (Object [(lit "a", Object [(lit "b", Null)])]) (Object [] : Value Num) =
  Object [(lit "a", Object [(lit "b", Null)])].
Proof. done. Qed.
End merge.

(** ** Confidentiality of the V2 service *)

Section confidential.
Context {Num : Type} `{!JsonLib Num} `{!Base64}.
Implicit Types (w : HttpWorld Num) (req : HttpRequest).

(** The request carries a token that is live now. *)
Definition presents_token w req : bool :=
  match rq_token_header req with
  | Some tok => (zlen tok <=? MAX_TOKEN_HEADER_BYTES) && live (hw_now w) (hw_tokens w) tok
  | None => false
  end.

Lemma token_ok_spec w req : (token_ok w (rq_token_header req)).2 = presents_token w req.
Proof.
  unfold token_ok, presents_token. destruct (rq_token_header req) as [tok|]; [|done].
  destruct (zlen tok <=? MAX_TOKEN_HEADER_BYTES); [|done].
  pose proof (validate_spec (hw_tokens w) tok (hw_now w)) as [Hb _].
  by destruct (validate (hw_tokens w) tok (hw_now w)).
Qed.

(** Two worlds that differ in the metadata only. *)
Definition same_but_data w1 w2 : Prop :=
  version (hw_mmds w1) = V2 /\ version (hw_mmds w2) = V2 /\ size_cap (hw_mmds w1) = size_cap (hw_mmds w2) /\
  hw_tokens w1 = hw_tokens w2 /\ hw_now w1 = hw_now w2 /\ hw_random w1 = hw_random w2.

(** C34: In version 2 a request without a live token learns nothing about the
    metadata: the response and the token store it leaves are the same for any
    two trees. *)
Theorem v2_confidential w1 w2 req :
  same_but_data w1 w2 -> presents_token w1 req = false ->
  (service_http_request w1 req).2 = (service_http_request w2 req).2 /\
  hw_tokens (service_http_request w1 req).1 = hw_tokens (service_http_request w2 req).1.
Proof.
  intros (Hv1 & Hv2 & Hcap & Ht & Hn & Hr) Hp. unfold service_http_request.
  rewrite Hcap, Ht, Hn, Hr, Hv1, Hv2.
  destruct (MAX_HTTP_PATH_BYTES <? _); [by split|]. destruct (negb _); [by split|].
  destruct (size_cap _ <? _); [by split|]. destruct (_ && _).
  { destruct (rq_ttl_header req) as [ttl|]; [|by split]. by destruct (issue _ _ _ _) as [ts [t|e]]. }
  destruct (bool_decide (rq_method req = _)); [|by split].
  assert (Hp2 : presents_token w2 req = false) by (rewrite <- Hp; unfold presents_token; by rewrite Ht, Hn).
  pose proof (token_ok_spec w1 req) as H1. pose proof (token_ok_spec w2 req) as H2.
  assert (Hs : hw_tokens (token_ok w1 (rq_token_header req)).1 = hw_tokens (token_ok w2 (rq_token_header req)).1).
  { unfold token_ok. destruct (rq_token_header req) as [tok|]; [|done]. destruct (_ <=? _); [|done].
    rewrite Ht, Hn. by destruct (validate _ _ _). }
  rewrite Hp in H1. rewrite Hp2 in H2.
  destruct (token_ok w1 _) as [w1' b1], (token_ok w2 _) as [w2' b2]. cbn in *. by subst.
Qed.

(** A live token, or version 1, opens the tree. *)
Lemma get_served w req :
  rq_method req = lit "GET" -> zlen (rq_path req) <= MAX_HTTP_PATH_BYTES -> path_charset_ok (rq_path req) = true ->
  zlen (rq_body req) <= size_cap (hw_mmds w) ->
  version (hw_mmds w) = V1 \/ presents_token w req = true ->
  (service_http_request w req).2 = serve_path (hw_mmds w) (rq_path req).
Proof.
  intros Hm Hp Hc Hb Hv. unfold service_http_request.
  rewrite !(proj2 (Z.ltb_ge _ _)) by done. rewrite Hc. cbn [negb]. rewrite Hm.
  change (bool_decide (lit "GET" = lit "PUT")) with false. change (bool_decide (lit "GET" = lit "GET")) with true.
  cbn [andb]. destruct (version (hw_mmds w)); [done|]. destruct Hv as [|Hv]; [done|].
  pose proof (token_ok_spec w req) as Ht. rewrite Hv in Ht.
  destruct (token_ok w (rq_token_header req)) as [w' b]. cbn in Ht. by subst.
Qed.
End confidential.

(** ** The interceptor *)

Section intercepting.
Context {Num : Type} `{!JsonLib Num} `{!Base64}.
Implicit Types (ic : @MmdsInterceptor Num).

(** The TCP server listens on the interceptor's address and its output has been
    collected. *)
Record ic_ok ic : Prop := {
  io_server : server_fields_ok (ic_tcp ic);
  io_ip : server_ip (ic_tcp ic) = mmds_ip ic;
  io_port : server_port (ic_tcp ic) = HTTP_PORT;
  io_mac : addr_ok 6 (mmds_mac ic);
  io_queue : out_queue (ic_tcp ic) = []
}.

Definition eth_wrap (dst src body : list Z) : list Z := eth_to_bytes (mkEth dst src ETHERTYPE_IPV4) ++ body.

Definition world_of ic (now : Z) (random : option (list Z)) : HttpWorld Num :=
  mkHttpWorld (ic_mmds ic) (ic_tokens ic) now random.

Lemma service_keeps (w : HttpWorld Num) req :
  let w' := (service_http_request w req).1 in
  hw_mmds w' = hw_mmds w /\ hw_now w' = hw_now w /\ hw_random w' = hw_random w.
Proof.
  unfold service_http_request, token_ok. repeat (case_match; simplify_eq/=; try done).
Qed.

Definition keeps_world (w w' : HttpWorld Num) : Prop :=
  hw_mmds w' = hw_mmds w /\ hw_now w' = hw_now w /\ hw_random w' = hw_random w.

Lemma on_data_keeps s (w : HttpWorld Num) key p s' w' :
  on_data service_http_request s w key p = Some (s', w') -> keeps_world w w'.
Proof.
  unfold on_data. destruct (conns s !! key) as [c|]; [|by intros [= <- <-]].
  destruct (try_parse_http _) as [[|req| |]|]; try done; try by intros [= <- <-].
  pose proof (service_keeps w req) as Hk. destruct (service_http_request w req) as [w1 resp].
  by intros [= <- <-].
Qed.

Lemma handle_keeps_world s (w : HttpWorld Num) mac f s' w' b :
  handle_ip_frame service_http_request s w mac f = Some (s', w', b) -> keeps_world w w'.
Proof.
  unfold handle_ip_frame. intros Hd. destruct (ipv4_parse f) as [ip|]; [|by injection Hd as <- <- <-].
  cbv zeta in Hd.
  do 5 (match type of Hd with (if ?c then _ else _) = _ => destruct c; [by injection Hd as <- <- <-|] end).
  destruct (tcp_parse _ _ _ _) as [tcp|]; [|by injection Hd as <- <- <-].
  destruct (negb _); [by injection Hd as <- <- <-|].
  destruct (dispatch _ _ _ _ _ _) as [[s2 w2]|] eqn:Hx; [|done]. injection Hd as <- <- <-.
  unfold dispatch in Hx. repeat (case_match; simplify_eq/=; try done; try by apply on_data_keeps in Hx).
  all: by match goal with E : on_data _ _ _ _ _ = _ |- _ => apply on_data_keeps in E end.
Qed.

Lemma eth_frame_parse dst src ty body :
  addr_ok 6 dst -> addr_ok 6 src -> in_u 16 ty ->
  eth_parse (eth_to_bytes (mkEth dst src ty) ++ body) = Ok (mkEth dst src ty) /\
  drop ETHER_HDR_LEN (eth_to_bytes (mkEth dst src ty) ++ body) = body.
Proof.
  intros Hd Hs Ht. split; [by apply eth_roundtrip|].
  apply drop_app_length'. unfold eth_to_bytes. cbn [eth_dst eth_src ethertype].
  destruct Hd as [Hd _], Hs as [Hs _]. autorewrite with lengths. by rewrite Hd, Hs.
Qed.

Lemma ethertypes_ok : in_u 16 ETHERTYPE_IPV4 /\ in_u 16 ETHERTYPE_ARP.
Proof. by split. Qed.

Lemma eth_wrap_parse dst src body :
  addr_ok 6 dst -> addr_ok 6 src ->
  eth_parse (eth_wrap dst src body) = Ok (mkEth dst src ETHERTYPE_IPV4) /\
  drop ETHER_HDR_LEN (eth_wrap dst src body) = body.
Proof. intros. apply eth_frame_parse; try done. Qed.

Lemma arp_parse_exact op a b c d :
  in_u 16 op -> addr_ok 6 a -> addr_ok 4 b -> addr_ok 6 c -> addr_ok 4 d ->
  arp_parse (arp_to_bytes (mkArp op a b c d)) = Ok (mkArp op a b c d).
Proof. intros. rewrite <- (app_nil_r (arp_to_bytes _)). by apply arp_roundtrip. Qed.

Lemma ipv4_parse_at bs ip :
  ipv4_parse bs = Ok ip -> (20 <= length bs)%nat /\ ip_dst ip = slice 16 4 bs /\ protocol ip = byte_at bs 9.
Proof.
  intros Hp. unfold ipv4_parse in Hp. destruct (Nat.ltb_spec (length bs) IPV4_HDR_LEN) as [|Hl]; [done|].
  repeat (match type of Hp with context [if ?c then _ else _] => destruct c eqn:?; [done|] end).
  by injection Hp as <-.
Qed.

(** A client segment in an Ethernet frame reaches the TCP server. *)
Lemma intercept_client ic now random gmac key f :
  ic_ok ic -> addr_ok 6 gmac -> key_ok key -> is_client_frame (mmds_ip ic) HTTP_PORT key f ->
  intercept ic now random (eth_wrap (mmds_mac ic) gmac f) =
  match handle_ip_frame service_http_request (ic_tcp ic) (world_of ic now random) gmac f with
  | None => None
  | Some (tcp, w, consumed) =>
      Some (flush_tcp_outbound
              (mkInterceptor (ic_mmds ic) (hw_tokens w) (mmds_ip ic) (mmds_mac ic) tcp (pending_rx ic)),
            consumed)
  end.
Proof.
  intros [Hs Hi Hp Hm Hq] Hg [Hki Hkp] (id & seq & ack & flags & p & H1 & H2 & H3 & H4 & H5 & ->).
  destruct (eth_wrap_parse (mmds_mac ic) gmac (client_frame (mmds_ip ic) HTTP_PORT key id seq ack flags p))
    as [He Hd]; [done|done|]. unfold intercept. rewrite He, Hd. cbn [ethertype].
  change (ETHERTYPE_IPV4 =? ETHERTYPE_ARP) with false. change (ETHERTYPE_IPV4 =? ETHERTYPE_IPV4) with true.
  cbv iota. unfold handle_ipv4. cbn [eth_src].
  destruct (segment_slices (key_ip key) (mmds_ip ic) id (client_hdr HTTP_PORT key seq ack flags) p)
    as (E1 & _); try done.
  { rewrite <- Hi. apply Hs. }
  apply ipv4_parse_at in E1 as (Hl & Hdst & Hpr). fold (client_frame (mmds_ip ic) HTTP_PORT key id seq ack flags p) in *.
  rewrite (proj2 (Nat.ltb_ge _ 20)) by lia. rewrite <- Hdst, <- Hpr.
  rewrite bool_decide_true by done. change (protocol _ =? IP_PROTO_TCP) with true. done.
Qed.

(** A run of frames; the flag tells whether all were consumed. *)
Fixpoint intercept_all ic (now : Z) (random : option (list Z)) (frames : list (list Z))
  : option (@MmdsInterceptor Num * bool) :=
  match frames with
  | [] => Some (ic, true)
  | f :: frames' =>
      match intercept ic now random f with
      | None => None
      | Some (ic', b) =>
          match intercept_all ic' now random frames' with
          | None => None
          | Some (ic'', b') => Some (ic'', b && b')
          end
      end
  end.

(** The state after a run of the TCP server from an empty queue. *)
Definition absorb ic (s' : TcpServerInner) (w' : HttpWorld Num) : @MmdsInterceptor Num :=
  flush_tcp_outbound
    (mkInterceptor (ic_mmds ic) (hw_tokens w') (mmds_ip ic) (mmds_mac ic) s' (pending_rx ic)).

Lemma feed_shift q fs mac : forall s (w : HttpWorld Num),
  feed service_http_request (shift_queue q s) w mac fs =
  shift_result q (feed service_http_request s w mac fs).
Proof.
  induction fs as [|f fs IH]; intros s w; [done|]. cbn [feed]. rewrite handle_ip_frame_shift.
  destruct (handle_ip_frame _ s w mac f) as [[[s1 w1] b]|]; [apply IH|done].
Qed.

Lemma absorb_absorb ic s1 w1 s2 w2 :
  absorb (absorb ic s1 w1) s2 w2 = absorb ic (shift_queue (out_queue s1) s2) w2.
Proof.
  unfold absorb, flush_tcp_outbound, shift_queue. cbn. by rewrite map_app, app_assoc.
Qed.

(** Frame by frame, the interceptor does what the TCP server does on the run. *)
Lemma intercept_feed now random gmac key frames : forall ic s' w',
  ic_ok ic -> addr_ok 6 gmac -> key_ok key -> Forall (is_client_frame (mmds_ip ic) HTTP_PORT key) frames ->
  feed service_http_request (ic_tcp ic) (world_of ic now random) gmac frames = Some (s', w') ->
  intercept_all ic now random (map (eth_wrap (mmds_mac ic) gmac) frames) = Some (absorb ic s' w', true).
Proof.
  induction frames as [|f frames IH]; intros ic s' w' Hic Hg Hk Hall Hf; cbn [feed map intercept_all] in *.
  { injection Hf as <- <-. unfold absorb, flush_tcp_outbound. cbn. rewrite (io_queue ic Hic), app_nil_r.
    destruct ic as [? ? ? ? [] ?]. destruct Hic as [_ _ _ _ Hq]. cbn in *. by rewrite Hq. }
  apply Forall_cons_iff in Hall as [Hf1 Hall]. rewrite (intercept_client ic now random gmac key f) by done.
  destruct (handle_ip_frame _ (ic_tcp ic) _ gmac f) as [[[s1 w1] b]|] eqn:H1; [|done].
  assert (Hw1 : hw_mmds w1 = ic_mmds ic /\ hw_now w1 = now /\ hw_random w1 = random)
    by exact (handle_keeps_world _ _ _ _ _ _ _ H1).
  destruct Hic as [Hs Hi Hp Hm Hq].
  apply (client_frame_consumed _ _ _ _ key) in H1 as (-> & Hs1 & E1 & E2 & _);
    [|done|done|by rewrite Hi, Hp].
  fold (absorb ic s1 w1). set (s1c := (drain_outbound s1).1).
  assert (Hsh : s1 = shift_queue (out_queue s1) s1c)
    by (destruct s1; unfold s1c, shift_queue; cbn; by rewrite app_nil_r).
  rewrite Hsh, feed_shift in Hf.
  destruct (feed _ s1c w1 gmac frames) as [[s2 w2]|] eqn:Hf2; [|done]. injection Hf as <- <-.
  assert (Hic1 : ic_ok (absorb ic s1 w1)).
  { split; [split; apply Hs1|exact (eq_trans E1 Hi)|exact (eq_trans E2 Hp)|done|done]. }
  change (mmds_mac ic) with (mmds_mac (absorb ic s1 w1)). rewrite (IH (absorb ic s1 w1) s2 w2); try done.
  - cbn [andb]. f_equal. f_equal. apply absorb_absorb.
  - destruct w1, Hw1 as (E3 & E4 & E5). cbn in *. by subst.
Qed.

(** A frame delivered to the guest: Ethernet addresses and the segment inside. *)
Definition decode_eth (frame : list Z) : option (list Z * list Z * (list Z * list Z * TcpHeader * list Z)) :=
  match eth_parse frame with
  | Err _ => None
  | Ok eth =>
      match decode_segment (drop ETHER_HDR_LEN frame) with
      | Some seg => Some (eth_dst eth, eth_src eth, seg)
      | None => None
      end
  end.

Lemma decode_eth_wrap mac f :
  addr_ok 6 mac -> addr_ok 6 (of_dst_mac f) ->
  decode_eth (wrap_in_ethernet mac f) =
  match decode_segment (of_eth_payload f) with
  | Some seg => Some (of_dst_mac f, mac, seg)
  | None => None
  end.
Proof.
  intros Hm Hd. unfold decode_eth. change (wrap_in_ethernet mac f) with (eth_wrap (of_dst_mac f) mac (of_eth_payload f)).
  by destruct (eth_wrap_parse (of_dst_mac f) mac (of_eth_payload f) Hd Hm) as [-> ->].
Qed.

Lemma decode_eth_all mac gmac ip dst fs segs :
  addr_ok 6 mac -> addr_ok 6 gmac -> Forall (fun f => of_dst_mac f = gmac) fs ->
  map (fun f => decode_segment (of_eth_payload f)) fs =
    map (fun seg => Some (ip, dst, seg.1, seg.2)) segs ->
  map decode_eth (map (wrap_in_ethernet mac) fs) =
    map (fun seg : TcpHeader * list Z => Some (gmac, mac, (ip, dst, seg.1, seg.2))) segs.
Proof.
  intros Hm Hg Hall. revert segs. induction Hall as [|f fs Hf _ IH]; intros [|seg segs] He; try done.
  cbn [map] in *. injection He as He1 He2. f_equal; [|by apply IH].
  rewrite decode_eth_wrap by (rewrite ?Hf; done). by rewrite He1, Hf.
Qed.

Lemma chunks_small r (chunks : list (list Z)) :
  client_ok r -> concat chunks = request_bytes r -> Forall (fun c => zlen c <= 65495) chunks.
Proof.
  intros Hr Hc. pose proof (co_size r Hr) as Hs. rewrite <- Hc in Hs. clear Hc Hr.
  unfold MAX_REQUEST_BYTES, zlen in *. induction chunks as [|c cs IH]; [apply Forall_nil_2|].
  cbn [concat] in Hs. rewrite length_app in Hs. apply Forall_cons_2; [lia|]. apply IH. lia.
Qed.

(** A guest that talks to the metadata address over its network device is
    served: every frame of its session is taken out of the network path, the
    request reaches the metadata handler once and unchanged however it was cut
    into segments, and the frames handed back to the guest are the handshake,
    the acknowledgements and the response, correctly addressed and numbered. *)
Theorem metadata_session ic now random gmac key id cseq r chunks :
  ic_ok ic -> addr_ok 6 gmac -> key_ok key -> client_ok r ->
  Forall (fun c => c <> []) chunks -> concat chunks = request_bytes r -> in_u 16 id -> in_u 32 cseq ->
  let served := service_http_request (world_of ic now random) (request_of r) in
  let wire := to_wire served.2 in
  zlen wire <= 65495 ->
  exists ic' fs,
    intercept_all ic now random (map (eth_wrap (mmds_mac ic) gmac)
      (session_frames (mmds_ip ic) HTTP_PORT key id cseq (next_iss (ic_tcp ic)) chunks wire)) = Some (ic', true) /\
    (drain_rx ic').2 = pending_rx ic ++ fs /\
    map decode_eth fs =
      map (fun seg => Some (gmac, mmds_mac ic, (mmds_ip ic, key_ip key, seg.1, seg.2)))
        (session_replies HTTP_PORT key cseq (next_iss (ic_tcp ic)) chunks wire) /\
    conns (ic_tcp ic') = delete key (conns (ic_tcp ic)) /\
    ic_tokens ic' = hw_tokens served.1 /\ ic_mmds ic' = ic_mmds ic.
Proof.
  intros Hic Hg Hk Hr Hne Hcat Hid Hq served wire Hw.
  destruct (session_exact service_http_request r chunks (ic_tcp ic) (world_of ic now random) gmac key id cseq)
    as (s' & fs & Hfeed & Hconns & Hout & Hdec & Hmac); try done; [apply Hic|].
  fold served in Hfeed, Hdec. fold wire in Hfeed, Hdec.
  rewrite (io_ip ic Hic), (io_port ic Hic) in Hfeed, Hdec. rewrite (io_queue ic Hic) in Hout.
  exists (absorb ic s' served.1), (map (wrap_in_ethernet (mmds_mac ic)) fs). split_and!; try done.
  - apply (intercept_feed now random gmac key); try done. apply session_frames_client; try done.
    by apply (chunks_small r).
  - unfold drain_rx, absorb, flush_tcp_outbound. cbn. by rewrite app_nil_r, Hout.
  - apply decode_eth_all; try done. apply Hic.
Qed.

Lemma handle_ip_frame_false s (w : HttpWorld Num) mac f s' w' :
  handle_ip_frame service_http_request s w mac f = Some (s', w', false) -> s' = s /\ w' = w.
Proof.
  unfold handle_ip_frame. intros Hd. destruct (ipv4_parse f) as [ip|]; [|by injection Hd as <- <-].
  cbv zeta in Hd.
  do 5 (match type of Hd with (if ?c then _ else _) = _ => destruct c; [by injection Hd as <- <-|] end).
  destruct (tcp_parse _ _ _ _) as [tcp|]; [|by injection Hd as <- <-].
  destruct (negb _); [by injection Hd as <- <-|]. by destruct (dispatch _ _ _ _ _ _) as [[s2 w2]|].
Qed.

Lemma flush_nothing ic : out_queue (ic_tcp ic) = [] -> flush_tcp_outbound ic = ic.
Proof.
  destruct ic as [? ? ? ? [] ?]. unfold flush_tcp_outbound. cbn. intros ->. by rewrite app_nil_r.
Qed.

(** An ARP request of the guest. *)
Definition arp_request_frame (gmac gip tmac tip dst : list Z) : list Z :=
  eth_to_bytes (mkEth dst gmac ETHERTYPE_ARP) ++ arp_to_bytes (mkArp ARP_OP_REQUEST gmac gip tmac tip).

Lemma arp_answered ic now random gmac gip tmac dst :
  addr_ok 4 (mmds_ip ic) -> addr_ok 6 (mmds_mac ic) ->
  addr_ok 6 gmac -> addr_ok 4 gip -> addr_ok 6 tmac -> addr_ok 6 dst ->
  exists ic' reply,
    intercept ic now random (arp_request_frame gmac gip tmac (mmds_ip ic) dst) = Some (ic', true) /\
    pending_rx ic' = pending_rx ic ++ [reply] /\
    eth_parse reply = Ok (mkEth gmac (mmds_mac ic) ETHERTYPE_ARP) /\
    arp_parse (drop ETHER_HDR_LEN reply) = Ok (mkArp ARP_OP_REPLY (mmds_mac ic) (mmds_ip ic) gmac gip).
Proof.
  intros Hip Hm Hg Hgi Ht Hd. unfold intercept, arp_request_frame.
  destruct (eth_frame_parse dst gmac ETHERTYPE_ARP (arp_to_bytes (mkArp ARP_OP_REQUEST gmac gip tmac (mmds_ip ic))))
    as [-> ->]; try done.
  cbn [ethertype]. change (ETHERTYPE_ARP =? ETHERTYPE_ARP) with true. cbv iota.
  unfold handle_arp. rewrite arp_parse_exact by done. cbn [arp_op target_ip sender_ip eth_src].
  rewrite Z.eqb_refl, bool_decide_true by done. cbn [negb orb]. eexists _, _. split; [done|]. split; [done|].
  unfold build_arp_reply_frame.
  destruct (eth_frame_parse gmac (mmds_mac ic) ETHERTYPE_ARP
    (arp_to_bytes (mkArp ARP_OP_REPLY (mmds_mac ic) (mmds_ip ic) gmac gip))) as [-> ->]; try done.
  split; [done|]. by apply arp_parse_exact.
Qed.

Lemma unconsumed_unchanged ic now random frame ic' :
  out_queue (ic_tcp ic) = [] -> intercept ic now random frame = Some (ic', false) -> ic' = ic.
Proof.
  intros Hq Hx. unfold intercept in Hx. destruct (eth_parse frame) as [eth|]; [|by injection Hx as <-].
  destruct (_ =? ETHERTYPE_ARP).
  { injection Hx as Hx. unfold handle_arp in Hx. destruct (arp_parse _) as [arp|]; [|by injection Hx as <-].
    destruct (_ || _); [by injection Hx as <-|done]. }
  destruct (_ =? ETHERTYPE_IPV4); [|by injection Hx as <-]. unfold handle_ipv4 in Hx.
  destruct (_ <? 20)%nat; [by injection Hx as <-|]. destruct (negb _); [by injection Hx as <-|].
  destruct (_ =? IP_PROTO_TCP); [|by injection Hx as <-].
  destruct (handle_ip_frame _ _ _ _ _) as [[[tcp w] b]|] eqn:Hf; [|done]. injection Hx as <- ->.
  apply handle_ip_frame_false in Hf as [-> ->]. rewrite flush_nothing by done. by destruct ic.
Qed.

(** The interceptor answers ARP requests for the metadata address with a
    reply that binds that address to the synthetic MAC, and a frame it does not
    consume leaves no trace: its whole state is unchanged. *)
Theorem intercept_contract ic now random :
  ic_ok ic ->
  (forall gmac gip tmac dst,
     addr_ok 6 gmac -> addr_ok 4 gip -> addr_ok 6 tmac -> addr_ok 6 dst ->
     exists ic' reply,
       intercept ic now random (arp_request_frame gmac gip tmac (mmds_ip ic) dst) = Some (ic', true) /\
       pending_rx ic' = pending_rx ic ++ [reply] /\
       eth_parse reply = Ok (mkEth gmac (mmds_mac ic) ETHERTYPE_ARP) /\
       arp_parse (drop ETHER_HDR_LEN reply) = Ok (mkArp ARP_OP_REPLY (mmds_mac ic) (mmds_ip ic) gmac gip)) /\
  (forall frame ic', intercept ic now random frame = Some (ic', false) -> ic' = ic).
Proof.
  intros [Hs Hi _ Hm Hq]. split.
  - intros. apply arp_answered; try done. rewrite <- Hi. apply Hs.
  - intros frame ic'. by apply unconsumed_unchanged.
Qed.
End intercepting.

(** ** Concrete interceptors *)

(** A JSON library and an encoder for the examples: text only. *)
#[local] Instance demo_json : JsonLib Z := {
  json_from_str b := Ok (Text b);
  json_to_string v := match v with Text b => b | _ => lit "{}" end;
  json_to_vec v := match v with Text b => Ok b | _ => Ok (lit "{}") end;
  json_pointer v path := match v with Object m => obj_get (drop 1 path) m | _ => None end
}.

#[local] Instance demo_base64 : Base64 := { base64_encode bs := map (fun b => 65 + b mod 26) bs }.

Lemma token_store_refines_witness :
  run_ops token_step ∅ [Issue 5 0 (Some [1; 2]); Validate [66; 67] 4000000000; Validate [66; 67] 6000000000] =
  [Issued (Ok [66; 67]); Checked true; Checked false].
Proof.
  etransitivity; [apply (token_store_refines _ 0); cbn; lia|]. vm_compute. reflexivity.
Defined.

Lemma merge_patch_exact_witness :
  exists m, merge_patch (Object [(lit "a", Null); (lit "b", Bool true)]) (Object [(lit "a", Bool false)] : Value Z)
            = Object m /\ obj_get (lit "a") m = None /\ obj_get (lit "b") m = Some (Bool true).
Proof.
  pose proof (merge_patch_exact (Object [(lit "a", Null); (lit "b", Bool true)])
                (Object [(lit "a", Bool false)] : Value Z)) as Hx.
  destruct Hx as (m & Hm & Hk); [apply NoDup_cons_2; [by intros Hin%list_elem_of_singleton|apply NoDup_singleton]|].
  exists m. split; [exact Hm|]. split; (etransitivity; [apply Hk|vm_compute; reflexivity]).
Defined.

Definition demo_tree (secret : list Z) : Mmds Z := mkMmds V2 (Object [(lit "key", Text secret)]) 51200.

Definition demo_world (secret : list Z) : HttpWorld Z := mkHttpWorld (demo_tree secret) ∅ 0 None.

Definition demo_get : HttpRequest := mkRequest (lit "GET") (lit "/key") None None [].

Lemma v2_confidential_witness :
  (service_http_request (demo_world (lit "swordfish")) demo_get).2 =
  (service_http_request (demo_world (lit "12345")) demo_get).2.
Proof. apply v2_confidential; [by repeat split|vm_compute; reflexivity]. Defined.

Definition demo_ic : @MmdsInterceptor Z := MmdsInterceptor_new (set_version (demo_tree (lit "v")) V1) ∅.

Lemma demo_ic_ok : ic_ok demo_ic.
Proof.
  split; [exact demo_server_fields|done|done|exact demo_mac_ok|done].
Qed.

Definition demo_key_request : ClientRequest := mkClient (lit "GET") (lit "/key") None None [].

Lemma demo_key_request_ok : client_ok demo_key_request.
Proof. by apply printable_request_ok. Qed.

Lemma metadata_session_witness :
  exists ic' fs,
    intercept_all demo_ic 0 None (map (eth_wrap MMDS_SYNTHETIC_MAC demo_mac)
      (session_frames MMDS_DEFAULT_IPV4 80 demo_key 1 7 0x40000000 [request_bytes demo_key_request]
         (to_wire (mkResponse 200 (lit "v"))))) = Some (ic', true) /\
    (drain_rx ic').2 = fs /\ length fs = 3%nat.
Proof.
  destruct (metadata_session demo_ic 0 None demo_mac demo_key 1 7 demo_key_request [request_bytes demo_key_request])
    as (ic' & fs & Hi & Hd & Hdec & _).
  - exact demo_ic_ok.
  - exact demo_mac_ok.
  - exact demo_key_ok.
  - exact demo_key_request_ok.
  - apply Forall_cons_2; [by vm_compute|apply Forall_nil_2].
  - vm_compute. reflexivity.
  - unfold in_u; lia.
  - unfold in_u; lia.
  - vm_compute. discriminate.
  - exists ic', fs. split; [exact Hi|]. split; [exact Hd|].
    apply (f_equal length) in Hdec. rewrite !length_map in Hdec. rewrite Hdec. vm_compute. reflexivity.
Defined.

Lemma intercept_contract_witness :
  exists ic' reply,
    intercept demo_ic 0 None
      (arp_request_frame demo_mac [172; 16; 0; 2] (repeat 0 6) (mmds_ip demo_ic) (repeat 255 6)) = Some (ic', true) /\
    pending_rx ic' = pending_rx demo_ic ++ [reply] /\
    eth_parse reply = Ok (mkEth demo_mac (mmds_mac demo_ic) ETHERTYPE_ARP) /\
    arp_parse (drop ETHER_HDR_LEN reply) =
      Ok (mkArp ARP_OP_REPLY (mmds_mac demo_ic) (mmds_ip demo_ic) demo_mac [172; 16; 0; 2]).
Proof.
  apply (proj1 (intercept_contract demo_ic 0 None demo_ic_ok)); [exact demo_mac_ok| | |];
    (split; [reflexivity|repeat (apply List.Forall_cons; [by vm_compute|]); apply List.Forall_nil]).
Defined.

(** Traffic to the metadata address that is not a well-formed segment for port
    80 is left in the network path. *)
Lemma other_port_leaks :
  intercept demo_ic 0 None
    (eth_wrap MMDS_SYNTHETIC_MAC demo_mac (client_frame MMDS_DEFAULT_IPV4 8080 demo_key 1 7 0 TCP_SYN [])) =
  Some (demo_ic, false).
Proof. vm_compute. reflexivity. Qed.
