(* ===== verification/SnapState.v ===== *)
(** * SnapState: the state blob of a snapshot

    Models [src/crates/snapshot/src/state.rs]: the register files, the device,
    interrupt-controller and metadata states, the top-level [MicrovmState], the
    order of the device states and the compatibility check. *)

From stdpp Require Import base numbers list option strings sorting.
From Stdlib Require Import ZArith Lia.
From S2P Require Import Prelude Text SnapError Pdu Http MmdsTcp Mmds.

Local Open Scope Z_scope.
Local Open Scope squib_scope.

(** ** Registers *)

(** [x] holds the 31 registers X0..X30. *)
Record GpRegs := mkGpRegs { gp_x : list Z; gp_sp : Z; gp_pc : Z; gp_pstate : Z }.

Definition GpRegs_default : GpRegs := mkGpRegs (repeat 0 31) 0 0 0.

(** [v] holds the 32 registers V0..V31, each as its low and its high half. *)
Record FpSimdRegs := mkFpSimdRegs { fp_v : list (Z * Z); fp_fpsr : Z; fp_fpcr : Z }.

Definition FpSimdRegs_default : FpSimdRegs := mkFpSimdRegs (repeat (0, 0) 32) 0 0.

Inductive PsciVcpuState := PsciOn | PsciOff | PsciOnPending.

(** [BTreeMap<u64, u64>]: the entries in ascending order of their keys. *)
Definition RegMap : Type := list (Z * Z).

Fixpoint regs_insert (k v : Z) (m : RegMap) : RegMap :=
  match m with
  | [] => [(k, v)]
  | (k', v') :: m' =>
      if k <? k' then (k, v) :: m
      else if k =? k' then (k, v) :: m'
      else (k', v') :: regs_insert k v m'
  end.

Fixpoint regs_get (k : Z) (m : RegMap) : option Z :=
  match m with
  | [] => None
  | (k', v) :: m' => if k =? k' then Some v else regs_get k m'
  end.

Record VcpuState := mkVcpuState {
  vs_mpidr : Z;
  vs_regs : GpRegs;
  vs_fp_regs : FpSimdRegs;
  vs_sys_regs : RegMap;
  vs_psci_state : PsciVcpuState
}.

Definition VcpuState_new (mpidr : Z) : VcpuState :=
  mkVcpuState mpidr GpRegs_default FpSimdRegs_default [] PsciOff.

(** ** Interrupt controller, metadata, devices *)

Record GicState := mkGicState { gic_len : Z; gic_bytes : list Z }.

Definition GicState_from_bytes (bytes : list Z) : GicState := mkGicState (zlen bytes) bytes.

Record MmdsState := mkMmdsState { ms_data_json : list Z; ms_token_ttl_seconds : option Z }.

Definition with_data {Num} `{!JsonLib Num} (value : Value Num) (token_ttl_seconds : option Z) : MmdsState :=
  mkMmdsState (json_to_string value) token_ttl_seconds.

Definition data_value {Num} `{!JsonLib Num} (s : MmdsState) : result (list Z) (Value Num) :=
  if decide (ms_data_json s = []) then Ok Null else json_from_str (ms_data_json s).

Record VmInfo := mkVmInfo {
  vi_mem_size_mib : Z;
  vi_smt : bool;
  vi_cpu_template : list Z;
  vi_kernel_image_path : list Z;
  vi_initrd_path : option (list Z);
  vi_boot_args : list Z;
  vi_track_dirty_pages : bool
}.

Record DeviceState := mkDeviceState {
  ds_kind : list Z;
  ds_id : list Z;
  ds_mmio_slot : Z;
  ds_blob : list Z
}.

(** The order of [(a.mmio_slot, a.id.as_str())]. *)
Definition dev_le (a b : DeviceState) : Prop :=
  ds_mmio_slot a < ds_mmio_slot b \/
  (ds_mmio_slot a = ds_mmio_slot b /\ key_ltb (ds_id b) (ds_id a) = false).

#[export] Instance dev_le_dec a b : Decision (dev_le a b).
Proof. unfold dev_le. apply _. Defined.

(** [sort_by] is stable: an element goes after its equals that were before it. *)
Fixpoint sort_insert (x : DeviceState) (l : list DeviceState) : list DeviceState :=
  match l with
  | [] => [x]
  | y :: l' => if decide (dev_le x y) then x :: l else y :: sort_insert x l'
  end.

Definition from_devices (devices : list DeviceState) : list DeviceState := foldr sort_insert [] devices.

(** ** The blob *)

Record MicrovmState := mkMicrovmState {
  mv_vm_info : VmInfo;
  mv_vcpu_states : list VcpuState;
  mv_device_states : list DeviceState;
  mv_gic_state : GicState;
  mv_mmds_state : option MmdsState
}.

Definition verify_compatible (s : MicrovmState) : result SnapshotError unit :=
  if bool_decide (mv_vcpu_states s = []) || (32 <? zlen (mv_vcpu_states s)) then Err Incompatible
  else if vi_smt (mv_vm_info s) then Err Incompatible
  else if decide (gic_bytes (mv_gic_state s) = []) then Err Incompatible
  else if negb (gic_len (mv_gic_state s) =? zlen (gic_bytes (mv_gic_state s))) then Err Incompatible
  else Ok tt.

#[export] Instance PsciVcpuState_eq_dec : EqDecision PsciVcpuState.
Proof. solve_decision. Defined.
#[export] Instance GpRegs_eq_dec : EqDecision GpRegs.
Proof. solve_decision. Defined.
#[export] Instance FpSimdRegs_eq_dec : EqDecision FpSimdRegs.
Proof. solve_decision. Defined.
#[export] Instance VcpuState_eq_dec : EqDecision VcpuState.
Proof. solve_decision. Defined.
#[export] Instance GicState_eq_dec : EqDecision GicState.
Proof. solve_decision. Defined.
#[export] Instance MmdsState_eq_dec : EqDecision MmdsState.
Proof. solve_decision. Defined.
#[export] Instance VmInfo_eq_dec : EqDecision VmInfo.
Proof. solve_decision. Defined.
#[export] Instance DeviceState_eq_dec : EqDecision DeviceState.
Proof. solve_decision. Defined.
#[export] Instance MicrovmState_eq_dec : EqDecision MicrovmState.
Proof. solve_decision. Defined.

(** ** Register maps *)

Lemma regs_get_insert k k' v m : regs_get k (regs_insert k' v m) = if k =? k' then Some v else regs_get k m.
Proof.
  induction m as [|[k2 v2] m IH]; cbn; [done|].
  destruct (Z.ltb_spec k' k2); [done|]. destruct (Z.eqb_spec k' k2) as [->|]; cbn.
  - by destruct (Z.eqb_spec k k2).
  - rewrite IH. by destruct (Z.eqb_spec k k2), (Z.eqb_spec k k'); try lia.
Qed.

(** The keys are strictly ascending. *)
Definition regs_wf (m : RegMap) : Prop := StronglySorted Z.lt (map fst m).

Lemma regs_insert_keys k v m x : In x (map fst (regs_insert k v m)) -> x = k \/ In x (map fst m).
Proof.
  induction m as [|[k' v'] m IH]; cbn; [intuition|].
  destruct (k <? k'), (Z.eqb_spec k k'); cbn; intuition.
Qed.

Lemma regs_insert_wf k v m : regs_wf m -> regs_wf (regs_insert k v m).
Proof.
  unfold regs_wf. induction m as [|[k' v'] m IH]; intros Hm; cbn in *; [repeat constructor|].
  apply StronglySorted_inv in Hm as [Hm Hall]. rewrite List.Forall_forall in Hall.
  destruct (Z.ltb_spec k k'); cbn; [|destruct (Z.eqb_spec k k') as [->|]; cbn].
  - constructor; [by constructor; [|apply List.Forall_forall]|]. apply List.Forall_forall.
    intros x [<-|Hx]; [done|]. specialize (Hall x Hx). lia.
  - constructor; [done|by apply List.Forall_forall].
  - constructor; [by apply IH|]. apply List.Forall_forall. intros x Hx.
    destruct (regs_insert_keys _ _ _ _ Hx) as [->|Hx']; [lia|by apply Hall].
Qed.

(** ** The order of the device states *)

Lemma key_ltb_asym a : forall b, key_ltb a b = true -> key_ltb b a = false.
Proof.
  induction a as [|x a IH]; intros [|y b]; cbn; try done.
  intros [H|[H1 H2]%andb_true_iff]%orb_true_iff; apply orb_false_iff; split; try lia.
  apply andb_false_iff. right. by apply IH.
Qed.

Lemma key_ltb_trans_false a : forall b c, key_ltb b a = false -> key_ltb c b = false -> key_ltb c a = false.
Proof.
  induction a as [|x a IH]; intros [|y b] [|z c]; cbn; try done.
  intros [H1 H2]%orb_false_iff [H3 H4]%orb_false_iff. apply orb_false_iff. split; [lia|].
  apply andb_false_iff. apply andb_false_iff in H2 as [H2|H2], H4 as [H4|H4];
    first [left; lia | right; by eapply IH].
Qed.

Lemma dev_le_total a b : ~ dev_le a b -> dev_le b a.
Proof.
  unfold dev_le. intros H. destruct (Z.lt_total (ds_mmio_slot a) (ds_mmio_slot b)) as [|[He|]]; [tauto| |lia].
  right. split; [done|]. destruct (key_ltb (ds_id b) (ds_id a)) eqn:E; [by apply key_ltb_asym|tauto].
Qed.

#[export] Instance dev_le_trans : Transitive dev_le.
Proof.
  unfold dev_le. intros a b c [H|[H1 H2]] [H'|[H1' H2']]; [lia|lia|lia|].
  right. split; [lia|]. by eapply key_ltb_trans_false.
Qed.

Lemma sort_insert_perm x l : sort_insert x l ≡ₚ x :: l.
Proof. induction l as [|y l IH]; cbn; [done|]. case_decide; [done|]. rewrite IH. constructor. Qed.

Lemma sort_insert_sorted x l : StronglySorted dev_le l -> StronglySorted dev_le (sort_insert x l).
Proof.
  induction l as [|y l IH]; cbn; [repeat constructor|]. intros H. pose proof H as [Hl Hy]%StronglySorted_inv.
  case_decide as Hx.
  - constructor; [done|]. constructor; [done|]. eapply Forall_impl; [exact Hy|]. intros z. by transitivity y.
  - constructor; [by apply IH|]. rewrite sort_insert_perm. constructor; [by apply dev_le_total|done].
Qed.

(** Sorting keeps the device states and puts them in ascending order; equals stay
    in their order. *)
Lemma sort_insert_filter x l k : StronglySorted dev_le l ->
  filter (fun d => ds_mmio_slot d = ds_mmio_slot k /\ ds_id d = ds_id k) (sort_insert x l) =
  filter (fun d => ds_mmio_slot d = ds_mmio_slot k /\ ds_id d = ds_id k) (x :: l).
Proof.
  induction l as [|y l IH]; intros Hl; cbn [sort_insert]; [done|].
  apply StronglySorted_inv in Hl as [Hl Hy]. case_decide as Hx; [done|].
  rewrite !(filter_cons _ y), IH, !(filter_cons _ x) by done. rewrite (filter_cons _ y).
  destruct (decide (ds_mmio_slot y = _ /\ _)) as [[Hy1 Hy2]|], (decide (ds_mmio_slot x = _ /\ _)) as [[Hx1 Hx2]|]; try done.
  exfalso. apply Hx. right. split; [congruence|]. rewrite Hx2, Hy2.
  clear. induction (ds_id k) as [|c s IHs]; cbn; [done|]. by rewrite Z.ltb_irrefl, Z.eqb_refl.
Qed.

(** [from_devices] keeps the device states, puts them in ascending order and
    leaves states with equal keys in their order. *)
Lemma from_devices_sorted devices :
  StronglySorted dev_le (from_devices devices) /\ from_devices devices ≡ₚ devices /\
  forall k, filter (fun d => ds_mmio_slot d = ds_mmio_slot k /\ ds_id d = ds_id k) (from_devices devices) =
            filter (fun d => ds_mmio_slot d = ds_mmio_slot k /\ ds_id d = ds_id k) devices.
Proof.
  induction devices as [|x l (Hs & Hp & Hf)]; [split_and!; constructor|]. cbn [from_devices foldr].
  fold (from_devices l). split_and!.
  - by apply sort_insert_sorted.
  - by rewrite sort_insert_perm, Hp.
  - intros k. rewrite sort_insert_filter, !filter_cons, Hf by done. done.
Qed.

(** What the compatibility check accepts. *)
Lemma verify_compatible_ok s :
  verify_compatible s = Ok tt <->
  1 <= zlen (mv_vcpu_states s) <= 32 /\ vi_smt (mv_vm_info s) = false /\
  gic_bytes (mv_gic_state s) <> [] /\ gic_len (mv_gic_state s) = zlen (gic_bytes (mv_gic_state s)).
Proof.
  unfold verify_compatible.
  assert (bool_decide (mv_vcpu_states s = []) = (zlen (mv_vcpu_states s) <? 1)) as ->.
  { unfold zlen. destruct (mv_vcpu_states s); [done|]. rewrite bool_decide_eq_false_2 by done.
    cbn [length]. symmetry. apply Z.ltb_ge. lia. }
  destruct (Z.ltb_spec (zlen (mv_vcpu_states s)) 1); [split; [done|lia]|].
  destruct (Z.ltb_spec 32 (zlen (mv_vcpu_states s))); [split; [done|lia]|]. cbn [orb].
  destruct (vi_smt (mv_vm_info s)); [split; [done|by intros (_ & ? & _)]|].
  case_decide; [split; [done|by intros (_ & _ & ? & _)]|].
  destruct (Z.eqb_spec (gic_len (mv_gic_state s)) (zlen (gic_bytes (mv_gic_state s)))); cbn;
    (split; [intros H'; try done; split_and!; by try lia | by intros (_ & _ & _ & ?)]).
Qed.
