(* ===== verification/Envelope.v ===== *)
(** * Envelope: the framing of a snapshot's state file

    Models [src/crates/snapshot/src/envelope.rs]: the header, the checksummed
    writer, saving and the validation on load.  The [bitcode] serializer and the
    [crc64] function are third-party: the classes [Codec] and [Crc] with what the
    code relies on as laws. *)

From stdpp Require Import base numbers list option gmap strings.
From Stdlib Require Import ZArith Lia.
From S2P Require Import Prelude Text Prog SnapError Paths Disk.

Local Open Scope Z_scope.
Local Open Scope squib_scope.

Definition SNAPSHOT_MAGIC_AARCH64 : Z := 0x07101984AAAA0000.

Definition SNAPSHOT_VERSION : Version := mkVersion 5 0 0 [] [].

Definition SNAPSHOT_DESERIALIZATION_BYTES_LIMIT : Z := 10000000.

Definition arch_magic : Z := SNAPSHOT_MAGIC_AARCH64.

Record SnapshotHdr := mkHdr { hdr_magic : Z; hdr_version : Version }.

Record Snapshot (D : Type) := mkSnapshot { sn_header : SnapshotHdr; sn_data : D }.
Arguments mkSnapshot {D}.
Arguments sn_header {D}.
Arguments sn_data {D}.

#[export] Instance SnapshotHdr_eq_dec : EqDecision SnapshotHdr.
Proof. solve_decision. Defined.

#[export] Instance Snapshot_eq_dec {D} `{!EqDecision D} : EqDecision (Snapshot D).
Proof. solve_decision. Defined.

Definition Snapshot_new {D} (data : D) : Snapshot D := mkSnapshot (mkHdr arch_magic SNAPSHOT_VERSION) data.

(** ** The libraries *)

(** [bitcode::serialize] and [bitcode::deserialize]; an error is its message. *)
Class Codec (D : Type) := {
  bitcode_serialize : Snapshot D -> result (list Z) (list Z);
  bitcode_deserialize : list Z -> result (list Z) (Snapshot D)
}.

Class CodecLaws (D : Type) `{!Codec D} := {
  codec_bytes : forall s bs, bitcode_serialize s = Ok bs -> bytes_ok bs;
  codec_roundtrip : forall s bs, bitcode_serialize s = Ok bs -> bitcode_deserialize bs = Ok s
}.

(** [crc64::crc64(crc, bytes)]: it can be fed in pieces, and appending the
    checksum in little-endian order, and nothing else of eight bytes, brings the
    checksum to zero. *)
Class Crc := { crc64 : Z -> list Z -> Z }.

Class CrcLaws `{!Crc} := {
  crc_app : forall c a b, crc64 c (a ++ b) = crc64 (crc64 c a) b;
  crc_nil : forall c, crc64 c [] = c;
  crc_u64 : forall bs, bytes_ok bs -> in_u 64 (crc64 0 bs);
  crc_residue : forall bs t, bytes_ok bs -> bytes_ok t -> length t = 8%nat ->
    (crc64 0 (bs ++ t) = 0 <-> t = le_bytes 8 (crc64 0 bs))
}.

Section envelope.
Context {D : Type} `{!Codec D, !Crc}.

(** [Crc64Writer::write] over the file [h]; the checksum is the second component. *)
Definition crc_write (h : nat) (buf : list Z) : prog (Disk * Z) IoError nat :=
  fun st => match write h buf st.1 with
            | None => None
            | Some (d, Ok written) => Some ((d, crc64 st.2 (take written buf)), Ok written)
            | Some (d, Err e) => Some ((d, st.2), Err e)
            end.

(** [Snapshot::save] into the file [h]. *)
Definition snapshot_save (h : nat) (s : Snapshot D) : prog Disk SnapshotError unit :=
  fun d =>
    match bitcode_serialize s with
    | Err message => Some (d, Err (Bitcode message))
    | Ok encoded =>
        match write_all fst (crc_write h) encoded (d, 0) with
        | None => None
        | Some ((d, _), Err e) => Some (d, Err (Io e))
        | Some ((d, crc), Ok _) => p_map_err Io (write_all id (write h) (le_bytes 8 crc)) d
        end
    end.

Definition load_without_crc_check (data_buf : list Z) : result SnapshotError (Snapshot D) :=
  if SNAPSHOT_DESERIALIZATION_BYTES_LIMIT <? zlen data_buf then
    Err (SizeLimitExceeded SNAPSHOT_DESERIALIZATION_BYTES_LIMIT)
  else
    let? snapshot := map_err Bitcode (bitcode_deserialize data_buf) in
    let header := sn_header snapshot in
    if negb (hdr_magic header =? arch_magic) then Err (MagicMismatch (hdr_magic header) arch_magic)
    else if negb (v_major (hdr_version header) =? v_major SNAPSHOT_VERSION) ||
            (v_minor SNAPSHOT_VERSION <? v_minor (hdr_version header))
    then Err (VersionMismatch (hdr_version header) SNAPSHOT_VERSION)
    else Ok snapshot.

Definition load_from_slice (buf : list Z) : result SnapshotError (Snapshot D) :=
  if SNAPSHOT_DESERIALIZATION_BYTES_LIMIT <? zlen buf then
    Err (SizeLimitExceeded SNAPSHOT_DESERIALIZATION_BYTES_LIMIT)
  else if zlen buf <? 8 then Err TooShort
  else if negb (crc64 0 buf =? 0) then Err CrcMismatch
  else load_without_crc_check (take (length buf - 8) buf).

(** [read_with_limit] from the file [h]. *)
Definition read_with_limit (h : nat) (limit : Z) : prog Disk SnapshotError (list Z) :=
  let* buf := p_map_err Io (read_to_end h (Some (saturating_add 64 limit 1))) in
  if limit <? zlen buf then p_fail (SizeLimitExceeded limit) else p_ret buf.

(** [Snapshot::load] from the file [h]. *)
Definition snapshot_load (h : nat) : prog Disk SnapshotError (Snapshot D) :=
  let* buf := read_with_limit h SNAPSHOT_DESERIALIZATION_BYTES_LIMIT in
  p_lift (load_from_slice buf).

(** ** Saving *)

(** The bytes of a state file. *)
Definition framed (encoded : list Z) : list Z := encoded ++ le_bytes 8 (crc64 0 encoded).

Context `{!CodecLaws D, !CrcLaws}.

Lemma crc_write_all_spec h i pos c d buf :
  contains h i pos c d -> 0 <= pos ->
  wp (write_all fst (crc_write h) buf) (fun st r => touches h i d st.1 /\
    match r with
    | Ok _ => contains h i (pos + zlen buf) (patch c (Z.to_nat pos) buf) st.1 /\ st.2 = crc64 0 buf
    | Err _ => exists pos' c', contains h i pos' c' st.1
    end) (d, 0).
Proof.
  intros Hh Hp.
  apply (write_all_rule _ _ (fun done st => touches h i d st.1 /\ st.2 = crc64 0 done /\
    contains h i (pos + zlen done) (patch c (Z.to_nat pos) done) st.1)).
  - intros done rest [d' crc] Hbuf Hr (Ht & Hc & b & Hd). pose proof (write_spec Hd rest) as Hw. cbn in *.
    unfold wp in *. unfold crc_write. cbn [fst snd]. destruct (write h rest d') as [[d2 [n|e]]|]; [| |done].
    + destruct Hw as (Ht2 & Hn & Hd2). cbn [fst snd]. split; [|by destruct Ht2].
      split_and!; [by eapply touches_trans|by rewrite crc_app, Hc|]. exists false. cbn [f_bytes] in Hd2.
      rewrite Z2Nat.inj_add, zlen_nat, patch_app in Hd2 by (done || apply zlen_nonneg).
      replace (pos + zlen (done ++ take n rest)) with (pos + zlen done + Z.of_nat n); [done|].
      unfold zlen. rewrite length_app, length_take. lia.
    + destruct Hw as (Ht2 & Hd2 & Hs). cbn [fst snd]. split; [|done].
      split_and!; [by eapply touches_trans|done|by exists b].
  - cbn. rewrite crc_nil. split_and!; [apply touches_refl|done|]. unfold zlen. cbn. by rewrite Z.add_0_r, patch_nil.
  - intros st (Ht & Hc & Hd). done.
  - intros done st e (Ht & _ & Hd). split; [done|by eexists _, _].
Qed.

(** [save] at the end of a file appends the framed encoding, or fails after
    changing nothing but that file. *)
Lemma snapshot_save_spec h i c d s :
  contains h i (zlen c) c d ->
  wp (snapshot_save h s) (fun d' r => touches h i d d' /\
    match r with
    | Ok _ => exists encoded, bitcode_serialize s = Ok encoded /\
                contains h i (zlen (c ++ framed encoded)) (c ++ framed encoded) d'
    | Err _ => exists pos' c', contains h i pos' c' d'
    end) d.
Proof.
  intros Hc. unfold wp, snapshot_save. destruct (bitcode_serialize s) as [encoded|m] eqn:Es.
  2: { split; [apply touches_refl|by eexists _, _]. }
  destruct (wp_total _ _ _ (crc_write_all_spec h i (zlen c) c d encoded Hc (zlen_nonneg _)))
    as ([d1 crc] & r & -> & Ht & Hr). cbn [fst snd] in *.
  destruct r as [[]|e]; [|done]. destruct Hr as [Hd ->]. rewrite zlen_nat, patch_end, <- zlen_app in Hd.
  destruct (wp_total _ _ _ (write_all_fd_spec (le_bytes 8 (crc64 0 encoded)) Hd (zlen_nonneg _)))
    as (d2 & r & Hw & Ht2 & Hr). unfold p_map_err. rewrite Hw. split; [by eapply touches_trans|].
  destruct r as [[]|e]; [|done]. cbn [map_err]. exists encoded. split; [done|].
  rewrite zlen_nat, patch_end, <- zlen_app, <- app_assoc in Hr. done.
Qed.

(** ** Loading *)

(** Exactly the headers of this build's format. *)
Definition header_ok (hdr : SnapshotHdr) : Prop :=
  hdr_magic hdr = arch_magic /\ v_major (hdr_version hdr) = 5 /\ v_minor (hdr_version hdr) <= 0.

Lemma load_body_ok body s :
  load_without_crc_check body = Ok s <->
  zlen body <= SNAPSHOT_DESERIALIZATION_BYTES_LIMIT /\ bitcode_deserialize body = Ok s /\ header_ok (sn_header s).
Proof.
  unfold load_without_crc_check, header_ok.
  destruct (Z.ltb_spec SNAPSHOT_DESERIALIZATION_BYTES_LIMIT (zlen body)); [split; [done|lia]|].
  destruct (bitcode_deserialize body) as [s'|m]; cbn [map_err]; [|split; [done|by intros (_ & ? & _)]].
  change (v_major SNAPSHOT_VERSION) with 5. change (v_minor SNAPSHOT_VERSION) with 0.
  destruct (Z.eqb_spec (hdr_magic (sn_header s')) arch_magic) as [Hm|Hm]; cbn [negb];
    [|split; [done|intros (_ & [= ->] & ? & _); done]].
  destruct (Z.eqb_spec (v_major (hdr_version (sn_header s'))) 5) as [Hv|Hv]; cbn [negb orb];
    [|split; [done|intros (_ & [= ->] & _ & ? & _); done]].
  destruct (Z.ltb_spec 0 (v_minor (hdr_version (sn_header s')))); (split; [intros [= ->] || done|]); [|by split_and!|].
  - intros (_ & [= ->] & _ & _ & ?). lia.
  - by intros (_ & [= ->] & _).
Qed.

(** A slice loads when it is a body with its checksum, within the limit. *)
Lemma load_slice_ok buf s :
  bytes_ok buf ->
  load_from_slice buf = Ok s <->
  exists body, buf = framed body /\ zlen buf <= SNAPSHOT_DESERIALIZATION_BYTES_LIMIT /\
    bitcode_deserialize body = Ok s /\ header_ok (sn_header s).
Proof.
  intros Hb. unfold load_from_slice. split.
  - destruct (Z.ltb_spec SNAPSHOT_DESERIALIZATION_BYTES_LIMIT (zlen buf)); [done|].
    destruct (Z.ltb_spec (zlen buf) 8); [done|]. destruct (Z.eqb_spec (crc64 0 buf) 0) as [Hc|]; [|done]. cbn [negb].
    intros (_ & Hd & Hh)%load_body_ok. exists (take (length buf - 8) buf). split_and!; try done.
    unfold framed. rewrite <- (take_drop (length buf - 8) buf) in Hb, Hc at 1. apply Forall_app in Hb as [Hb1 Hb2].
    apply crc_residue in Hc; [|done|done|rewrite length_drop; unfold zlen in *; lia].
    rewrite <- Hc. by rewrite take_drop.
  - intros (body & -> & Hl & Hd & Hh).
    assert (length (le_bytes 8 (crc64 0 body)) = 8%nat) as H8 by apply le_bytes_length.
    assert (length (framed body) = (length body + 8)%nat) as Hf by (unfold framed; rewrite length_app; lia).
    destruct (Z.ltb_spec SNAPSHOT_DESERIALIZATION_BYTES_LIMIT (zlen (framed body))); [lia|].
    destruct (Z.ltb_spec (zlen (framed body)) 8); [unfold zlen in *; lia|].
    apply Forall_app in Hb as [Hb1 Hb2].
    pose proof (proj2 (crc_residue body _ Hb1 Hb2 H8) eq_refl) as Hz. fold (framed body) in Hz.
    rewrite Hz. cbn [Z.eqb negb].
    replace (take _ (framed body)) with body; [|rewrite Hf, Nat.add_sub; symmetry; apply take_app_length].
    apply load_body_ok. split_and!; [unfold zlen in *; lia|done|done].
Qed.

(** What [save] wrote loads back, when it is within the limit. *)
Lemma load_saved data encoded :
  bitcode_serialize (Snapshot_new data) = Ok encoded -> zlen (framed encoded) <= SNAPSHOT_DESERIALIZATION_BYTES_LIMIT ->
  load_from_slice (framed encoded) = Ok (Snapshot_new data).
Proof.
  intros Hs Hl. pose proof (codec_bytes _ _ Hs) as Hb. apply load_slice_ok.
  { apply Forall_app. split; [done|apply le_bytes_ok]. }
  exists encoded. split_and!; [done|done|by apply codec_roundtrip|by split_and!].
Qed.

End envelope.

(** ** A checksum with the laws

    The reflected table-driven CRC-64 of the ECMA-182 polynomial, starting from
    zero and with no final inversion. *)

Definition ECMA_POLY : Z := 0xC96C5795D7870F42.

Definition crc_bit (x : Z) : Z :=
  if Z.odd x then Z.lxor (Z.shiftr x 1) ECMA_POLY else Z.shiftr x 1.

Definition crc_table (i : Z) : Z := Nat.iter 8 crc_bit i.

Definition crc_step (c b : Z) : Z := Z.lxor (crc_table (Z.land (Z.lxor c b) 0xFF)) (Z.shiftr c 8).

Definition ecma_crc64 (c : Z) (bs : list Z) : Z := foldl crc_step c bs.

#[export] Instance ecma_crc : Crc := { crc64 := ecma_crc64 }.

Lemma in_u_lxor w a b : 0 <= w -> in_u w a -> in_u w b -> in_u w (Z.lxor a b).
Proof.
  intros Hw Ha Hb. apply in_u_bits; [done|apply Z.lxor_nonneg; unfold in_u in *; lia|].
  intros n Hn. rewrite Z.lxor_spec, !(in_u_testbit_high w) by done. done.
Qed.

(** The table's entries fit, and only the first has an empty top byte. *)
Lemma crc_table_entry i : 0 <= i < 256 -> in_u 64 (crc_table i) /\ (i <> 0 -> 2 ^ 56 <= crc_table i).
Proof.
  intros Hi.
  assert (forallb (fun n => let i := Z.of_nat n in
    (0 <=? crc_table i) && (crc_table i <? 2 ^ 64) && ((i =? 0) || (2 ^ 56 <=? crc_table i))) (List.seq 0 256) = true) as H
    by (vm_compute; reflexivity).
  rewrite forallb_forall in H. specialize (H (Z.to_nat i) ltac:(apply in_seq; lia)). cbn zeta in H.
  rewrite Z2Nat.id in H by lia. unfold in_u. lia.
Qed.

Lemma low_byte x : 0 <= Z.land x 0xFF < 256.
Proof. change 0xFF with (Z.ones 8). rewrite Z.land_ones by lia. apply Z.mod_pos_bound. lia. Qed.

Lemma crc_step_u64 c b : in_u 64 c -> in_u 64 (crc_step c b).
Proof.
  intros Hc. apply in_u_lxor; [done|by apply crc_table_entry, low_byte|].
  rewrite Z.shiftr_div_pow2 by done. split; [apply Z.div_pos; unfold in_u in *; lia|].
  apply Z.div_lt_upper_bound; unfold in_u in *; lia.
Qed.

Lemma crc_fold_u64 bs : forall c, in_u 64 c -> in_u 64 (foldl crc_step c bs).
Proof. induction bs as [|b bs IH]; intros c Hc; [done|]. by apply IH, crc_step_u64. Qed.

(** A step on the low byte of the checksum shifts it out. *)
Lemma crc_step_low c : 0 <= c -> crc_step c (c mod 256) = c / 256.
Proof.
  intros Hc. unfold crc_step.
  assert (Z.land (Z.lxor c (c mod 256)) 0xFF = 0) as ->.
  { change 0xFF with (Z.ones 8). change 256 with (2 ^ 8). rewrite <- (Z.land_ones c) by lia.
    apply Z.bits_inj'. intros n Hn. rewrite Z.land_spec, Z.lxor_spec, Z.land_spec, Z.bits_0.
    by destruct (Z.testbit c n), (Z.testbit (Z.ones 8) n). }
  change (crc_table 0) with 0. by rewrite Z.lxor_0_l, Z.shiftr_div_pow2.
Qed.

(** A step that leaves the top byte empty was on the low byte. *)
Lemma crc_step_back c b :
  in_u 64 c -> byte_ok b -> crc_step c b < 2 ^ 56 -> b = c mod 256.
Proof.
  intros Hc Hb Hlt. set (i := Z.land (Z.lxor c b) 0xFF) in *. pose proof (low_byte (Z.lxor c b)) as Hi. fold i in Hi.
  destruct (decide (i = 0)) as [Hz|Hz].
  - assert (Z.lxor (Z.land c 0xFF) (Z.land b 0xFF) = 0) as Hx.
    { rewrite <- Hz. apply Z.bits_inj'. intros n Hn. unfold i. rewrite !Z.land_spec, !Z.lxor_spec, !Z.land_spec.
      by destruct (Z.testbit c n), (Z.testbit b n), (Z.testbit 0xFF n). }
    apply Z.lxor_eq in Hx. change 0xFF with (Z.ones 8) in Hx. rewrite !Z.land_ones in Hx by lia.
    change (2 ^ 8) with 256 in Hx. unfold byte_ok in Hb. rewrite (Z.mod_small b) in Hx by lia. done.
  - exfalso. destruct (crc_table_entry i Hi) as [Hu Ht]. specialize (Ht Hz).
    pose proof (crc_step_u64 c b Hc) as Hs. unfold crc_step in Hlt, Hs. fold i in Hlt, Hs.
    assert (Z.shiftr (Z.lxor (crc_table i) (Z.shiftr c 8)) 56 = Z.shiftr (crc_table i) 56) as He.
    { rewrite Z.shiftr_lxor, Z.shiftr_shiftr by lia. rewrite (Z.shiftr_div_pow2 c) by lia.
      rewrite (Z.div_small c) by (unfold in_u in Hc; lia). apply Z.lxor_0_r. }
    rewrite (Z.shiftr_div_pow2 (Z.lxor _ _)), (Z.shiftr_div_pow2 (crc_table i)) in He by lia.
    unfold in_u in Hs. rewrite (Z.div_small (Z.lxor _ _)) in He by lia.
    pose proof (Z.div_le_mono (2 ^ 56) (crc_table i) (2 ^ 56) ltac:(lia) Ht) as Hd. rewrite Z.div_same in Hd by lia. lia.
Qed.

Lemma crc_fold_zero t : forall c,
  in_u 64 c -> bytes_ok t -> (length t <= 8)%nat ->
  (foldl crc_step c t = 0 <-> c < 256 ^ zlen t /\ t = le_bytes (length t) c).
Proof.
  induction t as [|b t IH]; intros c Hc Hb Hl; cbn [foldl length le_bytes].
  { unfold zlen, in_u in *. cbn. split; [intros ->; done|]. intros [? _]. lia. }
  apply Forall_cons_iff in Hb as [Hb Ht]. cbn [length] in Hl.
  rewrite (IH _ (crc_step_u64 c b Hc) Ht ltac:(lia)). unfold in_u in Hc.
  assert (256 ^ zlen (b :: t) = 256 * 256 ^ zlen t) as Hp.
  { unfold zlen. cbn [length]. rewrite Nat2Z.inj_succ, Z.pow_succ_r by lia. done. }
  assert (256 ^ zlen t <= 2 ^ 56) as Hle.
  { change 256 with (2 ^ 8). rewrite <- Z.pow_mul_r by (unfold zlen; lia). apply Z.pow_le_mono_r; unfold zlen; lia. }
  rewrite Hp. split.
  - intros [Hlt Hte]. pose proof (crc_step_back c b Hc Hb ltac:(lia)) as Hbb. rewrite Hbb, crc_step_low in Hlt, Hte by lia.
    split; [|by f_equal]. pose proof (Z.div_mod c 256 ltac:(lia)). pose proof (Z.mod_pos_bound c 256 ltac:(lia)). nia.
  - intros [Hlt [= Hbb Hte]]. rewrite Hbb, crc_step_low by lia. split; [|done]. apply Z.div_lt_upper_bound; lia.
Qed.

#[export] Instance ecma_crc_laws : CrcLaws.
Proof.
  split.
  - intros c a b. apply foldl_app.
  - done.
  - intros bs _. by apply crc_fold_u64.
  - intros bs t _ Ht Hl. cbn. unfold ecma_crc64. rewrite foldl_app.
    assert (in_u 64 (foldl crc_step 0 bs)) as Hu by by apply crc_fold_u64.
    rewrite crc_fold_zero by (done || lia). rewrite Hl. unfold zlen. rewrite Hl.
    change (256 ^ Z.of_nat 8) with (2 ^ 64). unfold in_u in Hu. intuition lia.
Qed.
