(* ===== verification/Snapshot.v ===== *)
(** * Snapshot: saving and loading snapshots

    Models [atomic.rs], [memory.rs], [save.rs] and [load.rs] of
    [src/crates/snapshot/src]: the temporary file that is synced and renamed onto
    its destination, the full and the sparse memory file, the save transaction
    with its clean-up on every early return, loading and describing.  Everything
    runs on the store of [Disk], whose script decides which calls fail. *)

From stdpp Require Import base numbers list option gmap strings.
From Stdlib Require Import ZArith Lia.
From S2P Require Import Prelude Text Prog SnapError Dirty Paths Disk SnapState Envelope.

Local Open Scope Z_scope.
Local Open Scope squib_scope.

(** ** [atomic.rs] *)

Definition TEMP_SUFFIX : list Z := lit ".tmp".

Definition check_same_filesystem (dest temp : list Z) : prog Disk SnapshotError unit :=
  let dest_dir := default [DOT] (parent dest) in
  let temp_dir := default [DOT] (parent temp) in
  let* dest_dev := p_map_err Io (metadata_dev dest_dir) in
  let* temp_dev := p_map_err Io (metadata_dev temp_dir) in
  if negb (dest_dev =? temp_dev) then p_fail (AtomicCommitCrossFs dest temp_dir) else p_ret tt.

Definition derive_temp_path (dest : list Z) : list Z := dest ++ TEMP_SUFFIX.

(** The path a guard unlinks when it is dropped; [None] once it is disarmed. *)
Record UnlinkOnDrop := mkGuard { ud_path : option (list Z) }.

(** [Drop for UnlinkOnDrop]: the error of [remove_file] is ignored. *)
Definition guard_drop (g : UnlinkOnDrop) (d : Disk) : Disk :=
  match ud_path g with
  | None => d
  | Some path => match remove_file path d with Some (d', _) => d' | None => d end
  end.

Record AtomicWriter := mkWriter {
  aw_file : nat;
  aw_temp_path : list Z;
  aw_dest_path : list Z;
  aw_guard : UnlinkOnDrop
}.

Definition AtomicWriter_open (dest : list Z) : prog Disk SnapshotError AtomicWriter :=
  let temp := derive_temp_path dest in
  let* _ := check_same_filesystem dest temp in
  let* file := p_map_err Io (open_truncate temp) in
  p_ret (mkWriter file temp dest (mkGuard (Some temp))).

(** [commit] consumes the writer: an early return drops the armed guard, the end
    drops the disarmed one.  Closing the file has no effect. *)
Definition commit (w : AtomicWriter) : prog Disk SnapshotError unit :=
  p_on_err (guard_drop (aw_guard w))
    (let* _ := p_map_err Io (sync_all (aw_file w)) in
     let* _ := p_map_err AtomicCommitFailed (rename (aw_temp_path w) (aw_dest_path w)) in
     p_ret tt).

(** ** [memory.rs] *)

(** [read_at] fills a buffer of the given length. *)
Class PageReader (R : Type) := { pr_read_at : R -> Z -> nat -> result IoError (list Z) }.

(** A reader is a view of memory: what it fills a buffer with are the bytes there. *)
Class PageReaderLaws (R : Type) `{!PageReader R} := {
  pr_memory : R -> list Z;
  pr_view : forall r off n bs, 0 <= off -> pr_read_at r off n = Ok bs ->
    bs = slice (Z.to_nat off) n (pr_memory r) /\ length bs = n
}.

(** [VecPageReader]. *)
Definition vec_read_at (bytes : list Z) (offset : Z) (n : nat) : result IoError (list Z) :=
  match checked_add 64 offset (Z.of_nat n) with
  | None => Err INVALID_INPUT
  | Some e =>
      if zlen bytes <? e then Err UNEXPECTED_EOF else Ok (slice (Z.to_nat offset) n bytes)
  end.

#[export] Instance vec_reader : PageReader (list Z) := { pr_read_at := vec_read_at }.

Record MemoryWriter := mkMemWriter { mw_inner : AtomicWriter; mw_ram_size : Z; mw_page_size : Z }.

Definition MemoryWriter_open (dest : list Z) (ram_size page_size : Z) : prog Disk SnapshotError MemoryWriter :=
  let* inner := AtomicWriter_open dest in
  p_ret (mkMemWriter inner ram_size page_size).

Section memory.
Context {R : Type} `{!PageReader R}.

(** One round of [while offset < self.ram_size]. *)
Definition full_round (w : MemoryWriter) (reader : R) (offset : Z) : prog Disk SnapshotError (Z + unit) :=
  if mw_ram_size w <=? offset then p_ret (inr tt)
  else
    let chunk := Z.min (mw_ram_size w - offset) (mw_page_size w) in
    let* buf := p_lift (map_err MemoryIo (pr_read_at reader offset (Z.to_nat chunk))) in
    let* _ := p_map_err MemoryIo (write_all id (write (aw_file (mw_inner w))) buf) in
    p_ret (inl (wadd 64 offset chunk)).

(** With pages of at least one byte there are at most [ram_size] rounds. *)
Definition write_full (w : MemoryWriter) (reader : R) : prog Disk SnapshotError unit :=
  p_loop (rounds (mw_ram_size w + 1)) (full_round w reader) 0.

(** The body of the inner loop of [write_diff]: one target page. *)
Definition write_page (w : MemoryWriter) (reader : R) (target_offset : Z) : prog Disk SnapshotError unit :=
  let chunk := Z.min (mw_ram_size w - target_offset) (mw_page_size w) in
  let* slice := p_lift (map_err MemoryIo (pr_read_at reader target_offset (Z.to_nat chunk))) in
  let* _ := p_map_err MemoryIo (seek_start (aw_file (mw_inner w)) target_offset) in
  p_map_err MemoryIo (write_all id (write (aw_file (mw_inner w))) slice).

(** One round of [for sub in 0..pages_per_block], with the count of pages written. *)
Definition sub_round (w : MemoryWriter) (reader : R) (block pages_per_block : Z) (st : Z * Z)
  : prog Disk SnapshotError ((Z * Z) + Z) :=
  let (sub, written) := st in
  if pages_per_block <=? sub then p_ret (inr written)
  else
    let target_offset := wadd 64 block (wmul 64 sub (mw_page_size w)) in
    if mw_ram_size w <=? target_offset then p_ret (inr written)
    else
      let* _ := write_page w reader target_offset in
      p_ret (inl (sub + 1, wadd 64 written 1)).

(** One round of [for bitmap_page_idx in 0..dirty.page_count()]. *)
Definition page_round (w : MemoryWriter) (reader : R) (bm : DirtyBitmap) (pages_per_block : Z) (st : Z * Z)
  : prog Disk SnapshotError ((Z * Z) + Z) :=
  let (idx, written) := st in
  if page_count bm <=? idx then p_ret (inr written)
  else
    match is_dirty_by_index bm idx with
    | None => fun _ => None
    | Some false => p_ret (inl (idx + 1, written))
    | Some true =>
        let block := wmul 64 idx (page_size bm) in
        let* written := p_loop (rounds (pages_per_block + 1)) (sub_round w reader block pages_per_block) (0, written) in
        p_ret (inl (idx + 1, written))
    end.

Definition write_diff (w : MemoryWriter) (reader : R) (bm : DirtyBitmap) : prog Disk SnapshotError Z :=
  if negb (ram_size bm =? mw_ram_size w) then
    p_fail (InvalidPath (lit "diff bitmap covers " ++ decimal (ram_size bm) ++
                         lit " bytes, memory file expects " ++ decimal (mw_ram_size w)))
  else if (page_size bm <? mw_page_size w) || negb (page_size bm mod mw_page_size w =? 0) then
    p_fail (InvalidPath (lit "diff bitmap page (" ++ decimal (page_size bm) ++
                         lit ") must be a multiple of memory-file page (" ++ decimal (mw_page_size w) ++ lit ")"))
  else
    let* _ := p_map_err MemoryIo (set_len (aw_file (mw_inner w)) (mw_ram_size w)) in
    let pages_per_block := page_size bm / mw_page_size w in
    p_loop (rounds (page_count bm + 1)) (page_round w reader bm pages_per_block) (0, 0).

End memory.

(** ** [save.rs] *)

Inductive SnapshotKind := Full | Diff.

Record SaveRequest (R : Type) := mkSaveRequest {
  sr_state_path : list Z;
  sr_memory_path : list Z;
  sr_kind : SnapshotKind;
  sr_state : MicrovmState;
  sr_memory : R;
  sr_ram_size : Z;
  sr_memory_page_size : Z;
  sr_dirty : option DirtyBitmap
}.
Arguments mkSaveRequest {R}.
Arguments sr_state_path {R}.
Arguments sr_memory_path {R}.
Arguments sr_kind {R}.
Arguments sr_state {R}.
Arguments sr_memory {R}.
Arguments sr_ram_size {R}.
Arguments sr_memory_page_size {R}.
Arguments sr_dirty {R}.

Record SaveReport := mkSaveReport { rp_kind : SnapshotKind; rp_pages_written : Z }.

Definition drop_writer (w : AtomicWriter) : Disk -> Disk := guard_drop (aw_guard w).

Section save.
Context {R : Type} `{!PageReader R, !Codec MicrovmState, !Crc}.

Definition is_diff (k : SnapshotKind) : bool := match k with Diff => true | Full => false end.

(** Step 2 of [save]: the contents of the memory file, and the count of pages written. *)
Definition write_memory (req : SaveRequest R) (mem_writer : MemoryWriter) : prog Disk SnapshotError Z :=
  match sr_kind req with
  | Full => let* _ := write_full mem_writer (sr_memory req) in p_ret 0
  | Diff =>
      match sr_dirty req with
      | None => p_fail (InvalidPath (lit "Diff snapshot requires track_dirty_pages=true and a dirty bitmap"))
      | Some bitmap => write_diff mem_writer (sr_memory req) bitmap
      end
  end.

(** Steps 1 and 2 of [save] after the first open: both temporary files are written. *)
Definition stage (req : SaveRequest R) (state_writer : AtomicWriter) : prog Disk SnapshotError (MemoryWriter * Z) :=
  let* _ := snapshot_save (aw_file state_writer) (Snapshot_new (sr_state req)) in
  let* mem_writer := MemoryWriter_open (sr_memory_path req) (sr_ram_size req) (sr_memory_page_size req) in
  let* pages_written := p_on_err (drop_writer (mw_inner mem_writer)) (write_memory req mem_writer) in
  p_ret (mem_writer, pages_written).

(** [save]; on an early return the writers are dropped in the reverse order of
    their declaration. *)
Definition save (req : SaveRequest R) : prog Disk SnapshotError SaveReport :=
  if is_diff (sr_kind req) && negb (vi_track_dirty_pages (mv_vm_info (sr_state req))) then
    p_fail (InvalidPath (lit "Diff snapshot requested but vm_info.track_dirty_pages is false"))
  else
    let* _ := p_lift (verify_compatible (sr_state req)) in
    let* state_writer := AtomicWriter_open (sr_state_path req) in
    let* (mem_writer, pages_written) := p_on_err (drop_writer state_writer) (stage req state_writer) in
    let* _ := p_on_err (drop_writer (mw_inner mem_writer)) (commit state_writer) in
    let* _ := commit (mw_inner mem_writer) in
    p_ret (mkSaveReport (sr_kind req) pages_written).

(** ** [load.rs] *)

Record LoadedSnapshot := mkLoaded { ld_state : MicrovmState; ld_source_version : Version }.

Definition load (state_path : list Z) : prog Disk SnapshotError LoadedSnapshot :=
  let* file := p_map_err Io (open_read state_path) in
  let* snapshot := snapshot_load file in
  let* _ := p_lift (verify_compatible (sn_data snapshot)) in
  p_ret (mkLoaded (sn_data snapshot) (hdr_version (sn_header snapshot))).

Definition infer_memory_path (state_path : list Z) : option (list Z) :=
  match extension state_path with
  | None => None
  | Some _ => Some (set_extension state_path (lit "mem"))
  end.

Record SnapshotDescription := mkDescription {
  de_state_path : list Z;
  de_magic : Z;
  de_version : Version;
  de_expected_version : Version;
  de_vcpu_count : Z;
  de_mem_size_mib : Z;
  de_track_dirty_pages : bool;
  de_devices : list (list Z * list Z * Z);
  de_mmds_present : bool;
  de_inferred_memory_path : option (list Z);
  de_inferred_memory_exists : bool;
  de_inferred_memory_size : option Z;
  de_crc_ok : bool
}.

(** The load of [describe]: a checksum failure falls back to the unchecked load. *)
Definition describe_load (bytes : list Z) : result SnapshotError (Snapshot MicrovmState * bool) :=
  match load_from_slice bytes with
  | Ok snap => Ok (snap, true)
  | Err CrcMismatch =>
      if zlen bytes <? 8 then Err TooShort
      else let? snap := load_without_crc_check (take (length bytes - 8) bytes) in Ok (snap, false)
  | Err e => Err e
  end.

Definition describe (state_path : list Z) : prog Disk SnapshotError SnapshotDescription :=
  let* file := p_map_err Io (open_read state_path) in
  let* bytes := p_map_err Io (read_to_end file None) in
  let* (snapshot, crc_ok) := p_lift (describe_load bytes) in
  let memory_path := infer_memory_path state_path in
  let* (exists_, size) :=
    match memory_path with
    | Some p => fun d => match metadata_len p d with
                         | Some (d', Ok n) => Some (d', Ok (true, Some n))
                         | Some (d', Err _) => Some (d', Ok (false, None))
                         | None => None
                         end
    | None => p_ret (false, None)
    end in
  let data := sn_data snapshot in
  p_ret (mkDescription state_path (hdr_magic (sn_header snapshot)) (hdr_version (sn_header snapshot))
    SNAPSHOT_VERSION (zlen (mv_vcpu_states data)) (vi_mem_size_mib (mv_vm_info data))
    (vi_track_dirty_pages (mv_vm_info data))
    (map (fun d => (ds_kind d, ds_id d, ds_mmio_slot d)) (mv_device_states data))
    (bool_decide (is_Some (mv_mmds_state data))) memory_path exists_ size crc_ok).

End save.

(** ** The memory file *)

Section memory_spec.
Context {R : Type} `{!PageReader R, !PageReaderLaws R}.

Lemma slice_take_app (off n : nat) (l : list Z) : take off l ++ slice off n l = take (off + n) l.
Proof. unfold slice. by rewrite take_take_drop. Qed.

(** A full dump leaves the memory in the file, whatever short writes and
    interruptions there are, or fails after changing nothing but the file. *)
Lemma write_full_spec w (reader : R) h i d :
  aw_file (mw_inner w) = h -> 0 < mw_page_size w -> 0 <= mw_ram_size w < 2 ^ 64 -> contains h i 0 [] d ->
  wp (write_full w reader) (fun d' r => touches h i d d' /\
    match r with
    | Ok _ => mw_ram_size w <= zlen (pr_memory reader) /\
              contains h i (mw_ram_size w) (take (Z.to_nat (mw_ram_size w)) (pr_memory reader)) d'
    | Err _ => exists pos c, contains h i pos c d'
    end) d.
Proof.
  intros Hw Hpg Hram Hc. set (mem := pr_memory reader).
  apply (wp_loop (fun off d' => 0 <= off <= mw_ram_size w /\ off <= zlen mem /\ touches h i d d' /\
                    contains h i off (take (Z.to_nat off) mem) d')
                 (fun off _ => mw_ram_size w - off)).
  2: { split_and!; [lia|lia|apply zlen_nonneg|apply touches_refl|done]. }
  2: { pose proof (rounds_spec (mw_ram_size w + 1)). lia. }
  clear Hc. intros off d1 (Hoff & Hlen & Ht & Hc). split; [lia|]. unfold full_round.
  destruct (Z.leb_spec (mw_ram_size w) off).
  { apply wp_ret. split; [done|]. replace (mw_ram_size w) with off by lia. done. }
  set (chunk := Z.min _ _). assert (0 < chunk <= mw_ram_size w - off) as Hchunk by lia. repeat wp_step.
  destruct (pr_read_at reader off (Z.to_nat chunk)) as [bs|e] eqn:Er; cbn [map_err]; [|by split; [|eexists _, _]].
  apply pr_view in Er as [Hbs Hl]; [|lia]. fold mem in Hbs. repeat wp_step. rewrite Hw.
  wp_use @write_all_fd_spec; [exact Hc|lia|]. intros d2 [[]|e] [Ht2 Hr]; cbn [map_err];
    [|by split; [eapply touches_trans|]].
  assert (Z.to_nat off + Z.to_nat chunk <= length mem)%nat as Hin.
  { rewrite Hbs in Hl. unfold slice in Hl. rewrite length_take, length_drop in Hl. lia. }
  apply wp_ret. unfold wadd. rewrite wrap_small by solve_u.
  split; [|lia]. split_and!; [lia|lia|unfold zlen; lia|by eapply touches_trans|].
  replace (zlen bs) with chunk in Hr by (unfold zlen; lia).
  assert (length (take (Z.to_nat off) mem) = Z.to_nat off) as Hto by (rewrite length_take; unfold zlen in Hlen; lia).
  rewrite <- Hto in Hr at 2. rewrite patch_end, Hbs, slice_take_app, <- Z2Nat.inj_add in Hr by lia. done.
Qed.

(** The sparse file up to offset [L]: the memory's byte where its page is dirty, a
    hole that reads as zero elsewhere. *)
Definition sparse (bm : DirtyBitmap) (mem : list Z) (L : Z) (c : list Z) : Prop :=
  zlen c = ram_size bm /\
  forall k, 0 <= k < ram_size bm ->
    c !! Z.to_nat k = if (k <? L) && dirty bm (k / page_size bm) then mem !! Z.to_nat k else Some 0.

Lemma sparse_holes bm mem : 0 <= ram_size bm -> sparse bm mem 0 (resize (Z.to_nat (ram_size bm)) 0 []).
Proof.
  intros Hr. rewrite resize_nil. split; [unfold zlen; rewrite length_replicate; lia|]. intros k Hk.
  rewrite (proj2 (Z.ltb_ge k 0)) by lia. cbn [andb]. apply lookup_replicate_2. lia.
Qed.

Lemma sparse_past bm mem L L' c : ram_size bm <= L -> ram_size bm <= L' -> sparse bm mem L c -> sparse bm mem L' c.
Proof.
  intros HL HL' [Hl Hc]. split; [done|]. intros k Hk. rewrite Hc by done.
  by rewrite !(proj2 (Z.ltb_lt k _)) by lia.
Qed.

Lemma page_of p idx k : 0 < p -> idx * p <= k < (idx + 1) * p -> k / p = idx.
Proof. intros Hp Hk. symmetry. apply (Z.div_unique k p idx (k - idx * p)); lia. Qed.

Lemma sparse_skip bm mem idx c :
  0 < page_size bm -> dirty bm idx = false -> sparse bm mem (idx * page_size bm) c ->
  sparse bm mem ((idx + 1) * page_size bm) c.
Proof.
  intros Hp Hd [Hl Hc]. split; [done|]. intros k Hk. rewrite Hc by done.
  destruct (Z.ltb_spec k (idx * page_size bm)), (Z.ltb_spec k ((idx + 1) * page_size bm)); try done; [lia|].
  rewrite (page_of _ idx) by lia. by rewrite Hd.
Qed.

Lemma sparse_write bm mem idx L n c :
  0 < page_size bm -> dirty bm idx = true -> 0 <= idx * page_size bm <= L -> 0 <= n ->
  L + n <= (idx + 1) * page_size bm -> L + n <= ram_size bm -> length (slice (Z.to_nat L) (Z.to_nat n) mem) = Z.to_nat n ->
  sparse bm mem L c -> sparse bm mem (L + n) (patch c (Z.to_nat L) (slice (Z.to_nat L) (Z.to_nat n) mem)).
Proof.
  intros Hp Hd HL Hn Hend Hram Hlen [Hl Hc]. unfold zlen in Hl.
  assert (Z.to_nat L + length (slice (Z.to_nat L) (Z.to_nat n) mem) <= length c)%nat as Hin by lia.
  rewrite patch_within by done. split; [unfold zlen; rewrite splice_length; [lia|done]|]. intros k Hk.
  rewrite splice_lookup, Hlen by done. case_decide as Hw.
  - rewrite slice_lookup, decide_True by lia. replace (Z.to_nat L + _)%nat with (Z.to_nat k) by lia.
    rewrite (page_of _ idx k), Hd by lia. by rewrite (proj2 (Z.ltb_lt k _)) by lia.
  - rewrite Hc by done.
    destruct (Z.ltb_spec k L), (Z.ltb_spec k (L + n)); try done; lia.
Qed.

Lemma block_end k idx : 0 <= k <= 64 -> 0 <= idx -> idx * 2 ^ k < 2 ^ 64 -> (idx + 1) * 2 ^ k <= 2 ^ 64.
Proof.
  intros Hk Hi. assert (2 ^ 64 = 2 ^ (64 - k) * 2 ^ k) as -> by (rewrite <- Z.pow_add_r by lia; f_equal; lia).
  pose proof (Z.pow_pos_nonneg 2 k ltac:(lia) ltac:(lia)) as Hp. intros Hlt%Z.mul_lt_mono_pos_r; [|done].
  apply Z.mul_le_mono_nonneg_r; lia.
Qed.

(** What one target page of a dirty bitmap page adds to the file. *)
Lemma write_page_spec w (reader : R) bm h i d idx L c :
  aw_file (mw_inner w) = h -> 0 < mw_page_size w -> mw_ram_size w = ram_size bm -> 0 < page_size bm ->
  dirty bm idx = true -> 0 <= idx * page_size bm <= L -> L + mw_page_size w <= (idx + 1) * page_size bm ->
  L < ram_size bm -> (exists pos, contains h i pos c d) -> sparse bm (pr_memory reader) L c ->
  wp (write_page w reader L) (fun d' r => touches h i d d' /\ exists pos c', contains h i pos c' d' /\
    (is_ok r = true -> sparse bm (pr_memory reader) (L + mw_page_size w) c')) d.
Proof.
  intros Hw Htp Hram Hp0 Hd HL HLend Hin [pos Hc] Hs. unfold write_page. rewrite Hram.
  set (chunk := Z.min _ _). repeat wp_step.
  destruct (pr_read_at reader L (Z.to_nat chunk)) as [bs|e] eqn:Er; cbn [map_err];
    [|by split; [apply touches_refl|exists pos, c]].
  apply pr_view in Er as [Hbs Hl]; [|lia]. repeat wp_step. rewrite Hw. destruct Hc as [b Hc].
  wp_use @seek_spec; [exact Hc|]. intros d2 [[]|e] [Ht2 Hh2]; cbn [map_err];
    [|by split; [|eexists _, c; split; [exists b|]]].
  repeat wp_step. wp_use @write_all_fd_spec; [by exists b|lia|].
  intros d3 [[]|e] [Ht3 Hh3]; cbn [map_err].
  2: { destruct Hh3 as (pos' & c' & Hc'). split; [by eapply touches_trans|]. by exists pos', c'. }
  split; [by eapply touches_trans|]. eexists _, _. split; [exact Hh3|]. intros _.
  rewrite Hbs in Hl |- *. eapply (sparse_write _ _ idx L chunk) in Hs; [|done|done|lia|lia|lia|lia|done].
  destruct (Z.le_ge_cases (mw_page_size w) (ram_size bm - L)).
  - by replace (L + mw_page_size w) with (L + chunk) by lia.
  - eapply sparse_past; [..|exact Hs]; lia.
Qed.

(** The offsets of a bitmap page do not overflow. *)
Lemma block_bounds bm idx :
  bitmap_wf bm -> 0 <= idx < page_count bm ->
  0 < page_size bm /\ idx * page_size bm < ram_size bm /\ (idx + 1) * page_size bm <= 2 ^ 64.
Proof.
  intros Hwf Hidx. destruct (bw_page _ Hwf) as (k & Hk & Hpk).
  pose proof (bw_size _ Hwf). pose proof (bw_start _ Hwf). pose proof (bw_end _ Hwf).
  assert (0 < page_size bm) as Hp0 by (rewrite Hpk; lia). split; [done|].
  assert (idx * page_size bm < ram_size bm) as Hblk.
  { rewrite (bw_count _ Hwf) in Hidx. pose proof (div_ceil_bounds (ram_size bm) (page_size bm)). nia. }
  split; [done|]. rewrite Hpk in *. apply block_end; lia.
Qed.

(** What one dirty bitmap page adds to the file. *)
Lemma block_spec w (reader : R) bm h i d idx ratio written c :
  aw_file (mw_inner w) = h -> bitmap_wf bm -> 0 < mw_page_size w -> mw_ram_size w = ram_size bm ->
  page_size bm = ratio * mw_page_size w -> 0 <= idx < page_count bm -> dirty bm idx = true ->
  (exists pos, contains h i pos c d) -> sparse bm (pr_memory reader) (idx * page_size bm) c ->
  wp (p_loop (rounds (ratio + 1)) (sub_round w reader (wmul 64 idx (page_size bm)) ratio) (0, written))
    (fun d' r => touches h i d d' /\ exists pos c', contains h i pos c' d' /\
       (is_ok r = true -> sparse bm (pr_memory reader) ((idx + 1) * page_size bm) c')) d.
Proof.
  intros Hw Hwf Htp Hram Hbp Hidx Hd Hc Hs. pose proof (bw_end _ Hwf). pose proof (bw_start _ Hwf).
  destruct (block_bounds bm idx Hwf Hidx) as (Hp0 & Hblk & Hend).
  assert (wmul 64 idx (page_size bm) = idx * page_size bm) as -> by (apply wrap_small; solve_u).
  apply (wp_loop (fun st d' => 0 <= st.1 <= ratio /\ touches h i d d' /\ exists pos c', contains h i pos c' d' /\
                     sparse bm (pr_memory reader) (idx * page_size bm + st.1 * mw_page_size w) c')
                 (fun st _ => ratio - st.1)).
  2: { destruct Hc as [pos Hc]. cbn [fst]. rewrite Z.mul_0_l, Z.add_0_r.
       split_and!; [lia|nia|apply touches_refl|by exists pos, c]. }
  2: { cbn [fst]. assert (0 <= ratio) as Hr0 by nia. pose proof (rounds_spec (ratio + 1)). lia. }
  clear Hc Hs c written. intros [sub written] d1 (Hsub & Ht & pos & c & Hc & Hs). cbn [fst] in *. split; [lia|].
  unfold sub_round. set (L := idx * page_size bm + sub * mw_page_size w) in *.
  destruct (Z.leb_spec ratio sub) as [Hge|Hlt].
  { apply wp_ret. split; [done|]. exists pos, c. split; [done|]. intros _.
    replace ((idx + 1) * page_size bm) with L by (subst L; nia). done. }
  assert (L + mw_page_size w <= (idx + 1) * page_size bm) as HLend by (subst L; nia).
  assert (0 <= sub * mw_page_size w) as Hsub0 by nia.
  assert (wadd 64 (idx * page_size bm) (wmul 64 sub (mw_page_size w)) = L) as ->.
  { unfold wadd, wmul. rewrite (wrap_small 64 (sub * _)) by (unfold in_u; subst L; lia).
    apply wrap_small. unfold in_u. subst L. nia. }
  rewrite Hram. destruct (Z.leb_spec (ram_size bm) L) as [Hpast|Hin].
  { apply wp_ret. split; [done|]. exists pos, c. split; [done|]. intros _. eapply sparse_past; [..|exact Hs]; lia. }
  repeat wp_step. wp_use write_page_spec; [done..|subst L; nia|done|done|by exists pos|done|].
  intros d2 [[]|e] (Ht2 & pos' & c' & Hc' & Hs'); [|by split; [eapply touches_trans|exists pos', c']].
  apply wp_ret. cbn [fst]. split; [|lia]. split; [lia|]. split; [by eapply touches_trans|]. exists pos', c'.
  split; [done|]. replace (idx * page_size bm + (sub + 1) * mw_page_size w) with (L + mw_page_size w) by (subst L; lia).
  by apply Hs'.
Qed.

(** A diff dump leaves the sparse file of the dirty pages, or fails after changing
    nothing but the file. *)
Lemma write_diff_spec w (reader : R) bm h i d :
  aw_file (mw_inner w) = h -> bitmap_wf bm -> 0 < mw_page_size w -> contains h i 0 [] d ->
  wp (write_diff w reader bm) (fun d' r => touches h i d d' /\ exists pos c, contains h i pos c d' /\
    (is_ok r = true -> mw_ram_size w = ram_size bm /\ sparse bm (pr_memory reader) (ram_size bm) c)) d.
Proof.
  intros Hw Hwf Htp Hc. unfold write_diff.
  assert (touches h i d d /\ exists pos c, contains h i pos c d /\
    (is_ok (Err (A := Z) TooShort) = true -> mw_ram_size w = ram_size bm /\ sparse bm (pr_memory reader) (ram_size bm) c)) as Herr.
  { split; [apply touches_refl|by exists 0, []]. }
  destruct (Z.eqb_spec (ram_size bm) (mw_ram_size w)) as [Hram|]; cbn [negb]; [|done].
  destruct (Z.ltb_spec (page_size bm) (mw_page_size w)); cbn [orb]; [done|].
  destruct (Z.eqb_spec (page_size bm mod mw_page_size w) 0) as [Hm|]; cbn [negb]; [|done]. clear Herr.
  set (ratio := page_size bm / mw_page_size w).
  assert (page_size bm = ratio * mw_page_size w) as Hbp by (pose proof (Z.div_mod (page_size bm) (mw_page_size w)); subst ratio; lia).
  pose proof (bw_size _ Hwf) as Hsz. destruct (div_ceil_bounds (ram_size bm) (page_size bm)) as [Hn0 Hn]; [lia|lia|].
  rewrite <- (bw_count _ Hwf) in Hn0, Hn. destruct Hc as [b Hc]. repeat wp_step. rewrite Hw.
  wp_use @set_len_spec; [exact Hc|]. intros d1 [[]|e] [Ht1 Hh1]; cbn [map_err];
    [|by split; [|exists 0, []; split; [exists b|]]].
  apply (wp_loop (fun st d' => 0 <= st.1 <= page_count bm /\ touches h i d d' /\ exists pos c, contains h i pos c d' /\
                     sparse bm (pr_memory reader) (st.1 * page_size bm) c)
                 (fun st _ => page_count bm - st.1)).
  2: { cbn [fst]. split_and!; [lia|lia|done|]. eexists _, _. split; [by exists false|].
       rewrite <- Hram, Z.mul_0_l. apply sparse_holes. lia. }
  2: { cbn [fst]. pose proof (rounds_spec (page_count bm + 1)). lia. }
  clear dependent d1. intros [idx written] d1 (Hidx & Ht & pos & c & Hc1 & Hs). cbn [fst] in *. split; [lia|].
  unfold page_round. destruct (Z.leb_spec (page_count bm) idx).
  { apply wp_ret. split; [done|]. exists pos, c. split; [done|]. intros _. split; [done|].
    eapply sparse_past; [..|exact Hs]; [|lia]. replace idx with (page_count bm) by lia. lia. }
  rewrite is_dirty_by_index_eq by (done || lia). destruct (dirty bm idx) eqn:Hd.
  - repeat wp_step. wp_use block_spec; [done|done|done|done|done|lia|done|by exists pos|done|].
    intros d2 [n|e] (Ht2 & pos' & c' & Hc' & Hs'); [|by split; [eapply touches_trans|exists pos', c']].
    apply wp_ret. cbn [fst]. split; [|lia]. split; [lia|]. split; [by eapply touches_trans|].
    exists pos', c'. split; [done|by apply Hs'].
  - apply wp_ret. cbn [fst]. split; [|lia]. split; [lia|]. split; [done|]. exists pos, c. split; [done|].
    apply sparse_skip; [lia|done|done].
Qed.

End memory_spec.

(** ** Atomic replacement *)

Lemma metadata_dev_spec dir d :
  wp (metadata_dev dir) (fun d' r => same_files d d' /\
    forall v, r = Ok v -> exists m, dk_dirs d !! dir = Some m /\ v = dm_dev m) d.
Proof.
  apply wp_sys. intros d1 Hs. split; [done|]. cbn. split; [done|]. rewrite (sf_dirs _ _ Hs).
  destruct (dk_dirs d !! dir) as [m|]; [|done]. intros v [= <-]. by exists m.
Qed.

Lemma check_same_filesystem_spec dest temp d :
  wp (check_same_filesystem dest temp) (fun d' r => same_files d d' /\
    (parent temp = parent dest -> forall a b, r <> Err (AtomicCommitCrossFs a b))) d.
Proof.
  unfold check_same_filesystem. repeat wp_step. wp_use metadata_dev_spec. intros d1 [v1|e] [Hs1 Hv1]; cbn [map_err]; [|done].
  repeat wp_step. wp_use metadata_dev_spec. intros d2 [v2|e] [Hs2 Hv2]; cbn [map_err];
    [|split; [by eapply same_files_trans|done]].
  pose proof (same_files_trans _ _ _ Hs1 Hs2). destruct (Z.eqb_spec v1 v2) as [->|Hne]; cbn [negb];
    (split; [done|]); [done|]. intros Hp. exfalso. apply Hne.
  destruct (Hv1 _ eq_refl) as (m1 & Hm1 & ->), (Hv2 _ eq_refl) as (m2 & Hm2 & ->).
  rewrite (sf_dirs _ _ Hs1), Hp in Hm2. congruence.
Qed.

Lemma writer_open_spec dest d :
  names_wf (dk_now d) ->
  wp (AtomicWriter_open dest) (fun d' r => names_wf (dk_now d') /\
    match r with
    | Ok w => exists h i, w = mkWriter h (derive_temp_path dest) dest (mkGuard (Some (derive_temp_path dest))) /\
        h = length (dk_fds d) /\ frame h i (derive_temp_path dest) d d' /\ opened h i (derive_temp_path dest) 0 [] d' /\
        (im_dir (dk_now d) !! derive_temp_path dest = Some i \/ (length (im_inodes (dk_now d)) <= i)%nat)
    | Err _ => forall h i, frame h i (derive_temp_path dest) d d'
    end) d.
Proof.
  intros Hw. unfold AtomicWriter_open. repeat wp_step. wp_use check_same_filesystem_spec.
  intros d1 [[]|e] [Hs _]; [|by split; [rewrite (sf_now _ _ Hs)|intros; apply same_files_frame]].
  repeat wp_step. wp_use open_truncate_spec; [by rewrite (sf_now _ _ Hs)|].
  pose proof (fun h i => same_files_frame h i (derive_temp_path dest) _ _ Hs) as Hf.
  intros d2 [h|e] [Hw2 Hr]; cbn [map_err]; [|by split; [|intros; eapply frame_trans]].
  repeat wp_step. split; [done|]. destruct Hr as (Hh & i & Hf2 & Ho & Hi).
  rewrite (sf_fds _ _ Hs) in Hh. rewrite (sf_now _ _ Hs) in Hi. exists h, i. split_and!; [done|done| |done|done].
  by eapply frame_trans.
Qed.

Lemma guard_drop_spec t d :
  names_wf (dk_now d) ->
  names_wf (dk_now (guard_drop (mkGuard (Some t)) d)) /\ forall h i, frame h i t d (guard_drop (mkGuard (Some t)) d).
Proof.
  intros Hw. unfold guard_drop. cbn [ud_path].
  destruct (wp_total _ _ _ (remove_file_spec t d Hw)) as (d' & r & -> & Hw' & Hf & _). done.
Qed.

(** [commit]: one new image, in which the synced file has moved onto its
    destination; or the destination is untouched. *)
Lemma commit_spec h i t dest pos c d :
  names_wf (dk_now d) -> opened h i t pos c d ->
  wp (commit (mkWriter h t dest (mkGuard (Some t)))) (fun d' r => names_wf (dk_now d') /\
    match r with
    | Ok _ => exists d1, frame h i t d d1 /\ names_wf (dk_now d1) /\ im_inodes (dk_now d1) !! i = Some (mkFile c true) /\
        dk_now d' = moved t dest i (dk_now d1) /\ dk_past d' = dk_now d' :: dk_past d1 /\ dk_fds d' = dk_fds d1
    | Err _ => frame h i t d d'
    end) d.
Proof.
  intros Hw [Hn [b Hc]]. unfold commit. cbn [aw_guard aw_file aw_temp_path aw_dest_path]. repeat wp_step.
  wp_use @sync_all_spec; [exact Hc|]. intros d1 [[]|e] [Ht Hh]; cbn [map_err];
    pose proof (touches_names_wf _ _ _ _ Ht Hw) as Hw1; pose proof (touches_frame _ _ t _ _ Ht) as Hf1.
  2: { destruct (guard_drop_spec t d1 Hw1) as [Hw2 Hf2]. split; [done|]. by eapply frame_trans. }
  assert (im_dir (dk_now d1) !! t = Some i) as Hn1 by (destruct Ht as [(-> & _) _ _ _ _]; done).
  repeat wp_step. wp_use rename_spec. intros d2 [[]|e]; cbn [map_err].
  - intros (j & d3 & Hj & Hs & ->). assert (j = i) as -> by congruence. apply wp_ret. split.
    { cbn. by apply names_wf_rename. }
    exists d1. split_and!; [done|done|by destruct Hh| | |]; cbn; [done|by rewrite (sf_past _ _ Hs)|by rewrite (sf_fds _ _ Hs)].
  - intros Hs. rewrite <- (sf_now _ _ Hs) in Hw1. destruct (guard_drop_spec t d2 Hw1) as [Hw2 Hf2]. split; [done|].
    eapply frame_trans; [exact Hf1|]. eapply frame_trans; [by apply same_files_frame|done].
Qed.

(** Every image from [d] to [d'], the last one included, satisfies [P]. *)
Definition passes (P : Image -> Prop) (d d' : Disk) : Prop :=
  P (dk_now d') /\ exists new, dk_past d' = new ++ dk_past d /\ Forall P new.

Lemma passes_trans P a b c : passes P a b -> passes P b c -> passes P a c.
Proof.
  intros [_ (n1 & P1 & F1)] [H2 (n2 & P2 & F2)]. split; [done|]. exists (n2 ++ n1).
  rewrite P2, P1, app_assoc. split; [done|]. by apply Forall_app.
Qed.

Lemma passes_image P d d1 d' : passes P d d1 -> dk_past d' = dk_now d' :: dk_past d1 -> P (dk_now d') -> passes P d d'.
Proof.
  intros [_ (new & Hp & Hf)] Hp' Hn. split; [done|]. exists (dk_now d' :: new). rewrite Hp', Hp. split; [done|].
  by constructor.
Qed.

Lemma spares_passes (P : Image -> Prop) ps d d' :
  spares ps d d' -> (forall im, sees ps (dk_now d) im -> P im) -> passes P d d'.
Proof.
  intros [Hn (new & Hp & Hf)] HP. split; [by apply HP|]. exists new. split; [done|].
  eapply Forall_impl; [exact Hf|done].
Qed.

(** ** The save transaction *)

Section transaction.
Context {R : Type} `{!PageReader R, !PageReaderLaws R, !Codec MicrovmState, !Crc, !CodecLaws MicrovmState, !CrcLaws}.
Context (req : SaveRequest R).

(** The state file and the memory file a save is meant to leave. *)
Definition new_state (o : option File) : Prop :=
  exists encoded, bitcode_serialize (Snapshot_new (sr_state req)) = Ok encoded /\ o = Some (mkFile (framed encoded) true).

Definition memory_image (c : list Z) : Prop :=
  match sr_kind req with
  | Full => sr_ram_size req <= zlen (pr_memory (sr_memory req)) /\
            c = take (Z.to_nat (sr_ram_size req)) (pr_memory (sr_memory req))
  | Diff => exists bm, sr_dirty req = Some bm /\ sr_ram_size req = ram_size bm /\
            sparse bm (pr_memory (sr_memory req)) (ram_size bm) c
  end.

Definition new_memory (o : option File) : Prop := exists c, memory_image c /\ o = Some (mkFile c true).

(** What is under the two destinations: the old pair, the new state file with the
    old memory file, or the new pair. *)
Inductive pair_of (before im : Image) : Prop :=
  | pair_old :
      at_path im (sr_state_path req) = at_path before (sr_state_path req) ->
      at_path im (sr_memory_path req) = at_path before (sr_memory_path req) -> pair_of before im
  | pair_half :
      new_state (at_path im (sr_state_path req)) ->
      at_path im (sr_memory_path req) = at_path before (sr_memory_path req) -> pair_of before im
  | pair_new :
      new_state (at_path im (sr_state_path req)) -> new_memory (at_path im (sr_memory_path req)) -> pair_of before im.

(** The request makes sense: the four names are different, a page is not empty,
    the bitmap of a diff is one the tracker makes. *)
Record request_ok : Prop := mkRequestOk {
  rq_paths : sr_state_path req <> sr_memory_path req;
  rq_state_temp : sr_state_path req <> derive_temp_path (sr_memory_path req);
  rq_memory_temp : sr_memory_path req <> derive_temp_path (sr_state_path req);
  rq_page : 0 < sr_memory_page_size req;
  rq_ram : in_u 64 (sr_ram_size req);
  rq_dirty : forall bm, sr_dirty req = Some bm -> bitmap_wf bm
}.

Context (Hreq : request_ok).

Let s := sr_state_path req.
Let m := sr_memory_path req.
Let ts := derive_temp_path s.
Let tm := derive_temp_path m.

Lemma temp_ne p : p <> derive_temp_path p.
Proof.
  unfold derive_temp_path. intros Hp%(f_equal length). rewrite length_app in Hp. cbn in Hp. lia.
Qed.

Lemma temps_ne : ts <> tm.
Proof. unfold ts, tm, derive_temp_path. intros Hp%app_inv_tail. by destruct (rq_paths Hreq). Qed.

(** Neither destination is the name [t]. *)
Lemma dests_ne : Forall (fun p => p <> ts) [s; m] /\ Forall (fun p => p <> tm) [s; m].
Proof.
  destruct Hreq as [H1 H2 H3 _ _ _].
  split; repeat constructor; try done; apply temp_ne.
Qed.

Lemma write_memory_spec h i inner d :
  aw_file inner = h -> contains h i 0 [] d ->
  wp (write_memory req (mkMemWriter inner (sr_ram_size req) (sr_memory_page_size req)))
    (fun d' r => touches h i d d' /\ exists pos c, contains h i pos c d' /\ (is_ok r = true -> memory_image c)) d.
Proof.
  intros Hi Hc. destruct Hreq as [_ _ _ Hpg Hram Hd]. unfold write_memory, memory_image. destruct (sr_kind req).
  - repeat wp_step. wp_use write_full_spec; [done|done|done|done|].
    intros d' [[]|e] [Ht Hr]; repeat wp_step; (split; [done|]).
    + destruct Hr as [Hl Hc']. eexists _, _. by split.
    + destruct Hr as (pos & c & Hc'). by exists pos, c.
  - destruct (sr_dirty req) as [bm|]; [|repeat wp_step; split; [apply touches_refl|by exists 0, []]].
    wp_use write_diff_spec; [done|by apply Hd|done|done|]. cbn [mw_ram_size]. intros d' r (Ht & pos & c & Hc' & Hok).
    split; [done|]. exists pos, c. split; [done|]. intros Hr. exists bm. by destruct (Hok Hr).
Qed.

(** A call that concerns one name and no old inode spares the other names. *)
Lemma frame_any_spares t ps d d' :
  names_wf (dk_now d) -> Forall (fun p => p <> t) ps -> (forall h i, frame h i t d d') -> spares ps d d'.
Proof.
  intros Hw Hps Hf. apply (frame_spares 0 (length (im_inodes (dk_now d))) t); [done| |apply Hf].
  eapply Forall_impl; [exact Hps|]. intros p Hp. split; [done|]. intros Hi%(nw_range _ Hw). lia.
Qed.

Lemma drop_spares t ps d :
  names_wf (dk_now d) -> Forall (fun p => p <> t) ps ->
  names_wf (dk_now (guard_drop (mkGuard (Some t)) d)) /\ spares ps d (guard_drop (mkGuard (Some t)) d).
Proof. intros Hw Hps. destruct (guard_drop_spec t d Hw) as [Hw' Hf]. split; [done|by eapply frame_any_spares]. Qed.

Lemma opened_spares h i t pos c ps d d' :
  names_wf (dk_now d) -> opened h i t pos c d -> Forall (fun p => p <> t) ps -> frame h i t d d' -> spares ps d d'.
Proof. intros Hw Ho Hps. apply frame_spares; [done|]. by eapply opened_elsewhere. Qed.

Lemma open_spares h i t ps d d' :
  names_wf (dk_now d) -> Forall (fun p => p <> t) ps -> frame h i t d d' ->
  (im_dir (dk_now d) !! t = Some i \/ (length (im_inodes (dk_now d)) <= i)%nat) -> spares ps d d'.
Proof.
  intros Hw Hps Hf Hi. eapply frame_spares; [done| |exact Hf]. eapply Forall_impl; [exact Hps|]. intros p Hp.
  split; [done|]. intros Hpi. destruct Hi as [Ht|Hl]; [apply Hp; by eapply nw_inj|].
  apply (nw_range _ Hw) in Hpi. lia.
Qed.

(** Both temporary files written, the destinations untouched; or nothing but the
    state's temporary file is left. *)
Lemma stage_spec h1 i1 d :
  names_wf (dk_now d) -> opened h1 i1 ts 0 [] d -> (h1 < length (dk_fds d))%nat ->
  wp (stage req (mkWriter h1 ts s (mkGuard (Some ts)))) (fun d' r => names_wf (dk_now d') /\ spares [s; m] d d' /\
    match r with
    | Ok (w, _) => exists h2 i2 pos1 pos2 encoded c,
        w = mkMemWriter (mkWriter h2 tm m (mkGuard (Some tm))) (sr_ram_size req) (sr_memory_page_size req) /\
        bitcode_serialize (Snapshot_new (sr_state req)) = Ok encoded /\ memory_image c /\
        opened h1 i1 ts pos1 (framed encoded) d' /\ opened h2 i2 tm pos2 c d' /\ h1 <> h2 /\ i1 <> i2
    | Err _ => True
    end) d.
Proof.
  intros Hw Ho Hh1. destruct dests_ne as [Hts Htm]. unfold stage. repeat wp_step. cbn [aw_file].
  wp_use (snapshot_save_spec h1 i1 []); [by destruct Ho|]. cbn [app]. intros d1 r [Ht1 Hr1].
  pose proof (touches_names_wf _ _ _ _ Ht1 Hw) as Hw1. pose proof (touches_frame _ _ ts _ _ Ht1) as Hf1.
  pose proof (opened_spares _ _ _ _ _ _ _ _ Hw Ho Hts Hf1) as Hsp1. destruct r as [[]|e]; [|done].
  destruct Hr1 as (encoded & Henc & Hc1). assert (opened h1 i1 ts (zlen (framed encoded)) (framed encoded) d1) as Ho1.
  { split; [|done]. destruct Ht1 as [(-> & _) _ _ _ _]. by destruct Ho. }
  assert (h1 < length (dk_fds d1))%nat as Hl1 by (destruct Ht1 as [_ _ _ [-> _] _]; done).
  unfold MemoryWriter_open. repeat wp_step. wp_use writer_open_spec; [done|]. fold m tm. intros d2 [w|e] [Hw2 Hr2].
  2: { split; [done|]. split; [|done]. eapply spares_trans; [exact Hsp1|]. by eapply frame_any_spares. }
  destruct Hr2 as (h2 & i2 & -> & Hh2 & Hf2 & Ho2 & Hi2).
  pose proof (open_spares _ _ _ _ _ _ Hw1 Htm Hf2 Hi2) as Hsp2. pose proof (spares_trans _ _ _ _ Hsp1 Hsp2) as Hsp12.
  assert (i1 <> i2) as Hne.
  { intros ->. destruct Hi2 as [Hi2|Hi2].
    - apply temps_ne. eapply (nw_inj _ Hw1); [|exact Hi2]. by destruct Ho1.
    - destruct Ho1 as [Hn _]. apply (nw_range _ Hw1) in Hn. lia. }
  assert (h1 <> h2) as Hnh by lia. repeat wp_step. cbn [mw_inner]. unfold drop_writer. cbn [aw_guard].
  wp_use (write_memory_spec h2 i2); [done|by destruct Ho2|]. intros d3 r (Ht3 & pos & c & Hc3 & Hok).
  pose proof (touches_names_wf _ _ _ _ Ht3 Hw2) as Hw3. pose proof (touches_frame _ _ tm _ _ Ht3) as Hf3.
  pose proof (opened_spares _ _ _ _ _ _ _ _ Hw2 Ho2 Htm Hf3) as Hsp3. pose proof (spares_trans _ _ _ _ Hsp12 Hsp3) as Hsp.
  destruct r as [n|e].
  - apply wp_ret. split_and!; [done|done|]. exists h2, i2, (zlen (framed encoded)), pos, encoded, c.
    split_and!; [done|done|by apply Hok| |split; [destruct Ht3 as [(-> & _) _ _ _ _]; by destruct Ho2|done]|done|done].
    do 2 (eapply (opened_frame h1 i1 ts _ _ h2 i2 tm); [done|done|apply temps_ne|eassumption|]). done.
  - destruct (drop_spares tm [s; m] d3 Hw3 Htm) as [Hw4 Hsp4]. split_and!; [done|by eapply spares_trans|done].
Qed.

Lemma sees_pair im0 im :
  sees [s; m] im0 im <-> at_path im s = at_path im0 s /\ at_path im m = at_path im0 m.
Proof. unfold sees. rewrite !Forall_cons_iff. intuition. Qed.

(** Committing the two staged files, the state file first. *)
Lemma commit_both_spec h1 i1 h2 i2 pos1 pos2 encoded c n d :
  names_wf (dk_now d) -> opened h1 i1 ts pos1 (framed encoded) d -> opened h2 i2 tm pos2 c d -> h1 <> h2 -> i1 <> i2 ->
  bitcode_serialize (Snapshot_new (sr_state req)) = Ok encoded -> memory_image c ->
  wp (let* _ := p_on_err (drop_writer (mkWriter h2 tm m (mkGuard (Some tm))))
                  (commit (mkWriter h1 ts s (mkGuard (Some ts)))) in
      let* _ := commit (mkWriter h2 tm m (mkGuard (Some tm))) in
      p_ret (mkSaveReport (sr_kind req) n))
    (fun d' r => passes (pair_of (dk_now d)) d d' /\
       if is_ok r then new_state (at_path (dk_now d') s) /\ new_memory (at_path (dk_now d') m)
       else at_path (dk_now d') m = at_path (dk_now d) m) d.
Proof.
  intros Hw Ho1 Ho2 Hnh Hne Henc Hmem. destruct dests_ne as [Hts Htm]. destruct Hreq as [Hsm Hst Hmt _ _ _].
  set (old := dk_now d).
  assert (forall d', spares [s; m] d d' -> passes (pair_of old) d d' /\ at_path (dk_now d') m = at_path old m) as Hold.
  { intros d' Hsp. split; [|by destruct Hsp as [[_ ?]%sees_pair _]].
    eapply spares_passes; [exact Hsp|]. intros im [? ?]%sees_pair. by apply pair_old. }
  repeat wp_step. wp_use commit_spec; [done|exact Ho1|]. intros d2 [[]|e] [Hw2 Hr].
  2: { pose proof (opened_spares _ _ _ _ _ _ _ _ Hw Ho1 Hts Hr) as Hsp. unfold drop_writer. cbn [aw_guard].
       destruct (drop_spares tm [s; m] d2 Hw2 Htm) as [_ Hsp2]. apply Hold. by eapply spares_trans. }
  destruct Hr as (d1 & Hf1 & Hw1 & Hi1 & Hn2 & Hp2 & Hfd2).
  pose proof (opened_spares _ _ _ _ _ _ _ _ Hw Ho1 Hts Hf1) as Hsp1. destruct (Hold _ Hsp1) as [Hps1 Hm1].
  assert (new_state (at_path (dk_now d2) s)) as Hs2.
  { exists encoded. split; [done|]. rewrite Hn2, moved_at, decide_True; done. }
  assert (at_path (dk_now d2) m = at_path old m) as Hm2.
  { rewrite Hn2, moved_at, !decide_False; [done|done|]. by intros Hx. }
  assert (passes (pair_of old) d d2) as Hps2 by (eapply passes_image; [done|done|by apply pair_half]).
  assert (opened h2 i2 tm pos2 c d2) as Ho2'.
  { assert (opened h2 i2 tm pos2 c d1) as [Hn [b [Hfd Hi]]].
    { eapply opened_frame; [..|exact Hf1|exact Ho2]; [done|done|]. symmetry. apply temps_ne. }
    split; [|exists b; split; [by rewrite Hfd2|by rewrite Hn2]].
    rewrite Hn2. cbn. rewrite lookup_insert_ne by done. rewrite lookup_delete_ne by apply temps_ne. done. }
  assert (forall im, sees [s; m] (dk_now d2) im -> pair_of old im) as Hhalf.
  { intros im [Hx Hy]%sees_pair. apply pair_half; fold s m; [by rewrite Hx|by rewrite Hy]. }
  repeat wp_step. wp_use commit_spec; [done|exact Ho2'|]. intros d4 [[]|e] [Hw4 Hr].
  - apply wp_ret. destruct Hr as (d3 & Hf3 & Hw3 & Hi3 & Hn4 & Hp4 & _).
    pose proof (opened_spares _ _ _ _ _ _ _ _ Hw2 Ho2' Htm Hf3) as Hsp3.
    assert (new_memory (at_path (dk_now d4) m)) as Hm4.
    { exists c. split; [done|]. rewrite Hn4, moved_at, decide_True; done. }
    assert (new_state (at_path (dk_now d4) s)) as Hs4.
    { rewrite Hn4, moved_at, !decide_False; [by destruct Hsp3 as [[-> _]%sees_pair _]|done|done]. }
    split; [|done]. eapply passes_image; [|exact Hp4|by apply pair_new].
    eapply passes_trans; [exact Hps2|]. by eapply spares_passes.
  - pose proof (opened_spares _ _ _ _ _ _ _ _ Hw2 Ho2' Htm Hr) as Hsp3. split.
    + eapply passes_trans; [exact Hps2|]. by eapply spares_passes.
    + destruct Hsp3 as [[_ Hx]%sees_pair _]. cbn [is_ok]. by rewrite Hx.
Qed.

(** The whole transaction. *)
Lemma save_spec d :
  names_wf (dk_now d) ->
  wp (save req) (fun d' r => passes (pair_of (dk_now d)) d d' /\
    if is_ok r then new_state (at_path (dk_now d') s) /\ new_memory (at_path (dk_now d') m)
    else at_path (dk_now d') m = at_path (dk_now d) m) d.
Proof.
  intros Hw. destruct dests_ne as [Hts Htm].
  assert (forall d', spares [s; m] d d' ->
    passes (pair_of (dk_now d)) d d' /\ at_path (dk_now d') m = at_path (dk_now d) m) as Hold.
  { intros d' Hsp. split; [|by destruct Hsp as [[_ ?]%sees_pair _]].
    eapply spares_passes; [exact Hsp|]. intros im [? ?]%sees_pair. by apply pair_old. }
  unfold save. destruct (is_diff _ && _); [apply wp_fail, Hold, same_files_spares; done|].
  repeat wp_step. destruct (verify_compatible (sr_state req)) as [[]|e]; [|by apply Hold, same_files_spares].
  repeat wp_step. wp_use writer_open_spec; [done|]. fold s ts. intros d1 [w|e] [Hw1 Hr1].
  2: { apply Hold. by apply (frame_any_spares ts). }
  destruct Hr1 as (h1 & i1 & -> & Hh1 & Hf1 & Ho1 & Hi1). pose proof (open_spares _ _ _ _ _ _ Hw Hts Hf1 Hi1) as Hsp1.
  repeat wp_step. wp_use stage_spec; [done|exact Ho1| |].
  { destruct Ho1 as [_ [b [Hfd _]]]. by apply lookup_lt_Some in Hfd. }
  intros d2 [[w n]|e] (Hw2 & Hsp2 & Hr2); pose proof (spares_trans _ _ _ _ Hsp1 Hsp2) as Hsp.
  2: { unfold drop_writer. cbn [aw_guard]. destruct (drop_spares ts [s; m] d2 Hw2 Hts) as [_ Hsp3].
       apply Hold. by eapply spares_trans. }
  destruct Hr2 as (h2 & i2 & pos1 & pos2 & encoded & c & -> & Henc & Hmem & Ho1' & Ho2 & Hnh & Hne).
  cbn [mw_inner]. eapply wp_mono; [by eapply (commit_both_spec h1 i1 h2 i2)|]. cbn beta.
  destruct Hsp as [[Hs0 Hm0]%sees_pair Hpast]. intros d3 r [Hps Hr]. rewrite <- Hm0. split; [|done].
  eapply passes_trans; [apply Hold; split; [by apply sees_pair|exact Hpast]|]. destruct Hps as [Hn (new & Hp & Hf)].
  assert (forall im, pair_of (dk_now d2) im -> pair_of (dk_now d) im) as Hpair.
  { intros im [Hx Hy|Hx Hy|Hx Hy]; [apply pair_old|apply pair_half|apply pair_new]; try done;
      (etrans; [eassumption|done]). }
  split; [by apply Hpair|]. exists new. split; [done|]. by eapply Forall_impl.
Qed.

(** A save that succeeds has passed the compatibility check. *)
Lemma save_ok_compatible d d' rep :
  save req d = Some (d', Ok rep) -> verify_compatible (sr_state req) = Ok tt.
Proof.
  unfold save. destruct (is_diff _ && _); [done|]. unfold p_bind at 1, p_lift.
  by destruct (verify_compatible (sr_state req)) as [[]|e].
Qed.

End transaction.

(** ** Theorems *)

Section theorems.
Context {R : Type} `{!PageReader R, !PageReaderLaws R, !Codec MicrovmState, !Crc, !CodecLaws MicrovmState, !CrcLaws}.

(** C8: A save is atomic under every failure and every crash.  Whatever calls
    fail or write short, [save] returns, and in every image the store passes
    through, the destinations hold the old pair, the new state file with the old
    memory file, or the new pair; a new file is complete and synced.  It succeeds
    only with the new pair in place, and fails only with the old memory file in
    place. *)
Theorem save_crash_safe (req : SaveRequest R) d :
  names_wf (dk_now d) -> request_ok req ->
  exists d' r, save req d = Some (d', r) /\
    (exists images, dk_past d' = images ++ dk_past d /\ Forall (pair_of req (dk_now d)) images) /\
    match r with
    | Ok _ => new_state req (at_path (dk_now d') (sr_state_path req)) /\
              new_memory req (at_path (dk_now d') (sr_memory_path req))
    | Err _ => at_path (dk_now d') (sr_memory_path req) = at_path (dk_now d) (sr_memory_path req)
    end.
Proof.
  intros Hw Hreq. destruct (wp_total _ _ _ (save_spec req Hreq d Hw)) as (d' & r & Hs & [_ Hp] & Hr).
  exists d', r. split_and!; [done|done|]. by destruct r.
Qed.

Lemma take_z_all n l : zlen l <= n -> take_z n l = l.
Proof.
  revert n. induction l as [|x l IH]; intros n Hn; [done|]. cbn. unfold zlen in *. cbn [length] in Hn.
  destruct (Z.leb_spec n 0); [lia|]. f_equal. apply IH. lia.
Qed.

Lemma open_read_spec path i f d :
  im_dir (dk_now d) !! path = Some i -> im_inodes (dk_now d) !! i = Some f ->
  wp (open_read path) (fun d' r =>
    match r with
    | Ok h => contains h i 0 (f_bytes f) d' /\ zlen (dk_script d') <= zlen (dk_script d)
    | Err _ => dk_script d <> []
    end) d.
Proof.
  intros Hp Hi. unfold wp, open_read, sys, next_outcome. destruct (dk_script d) as [|o script] eqn:Es.
  - rewrite Hp. cbn [add_fd]. split; [by apply (add_fd_contains i f d)|]. cbn. by rewrite Es.
  - destruct o; cbn; rewrite ?Hp; cbn; try done;
      (split; [by apply (add_fd_contains i f (mkDisk _ _ _ _ _))|unfold zlen; cbn; lia]).
Qed.

Lemma read_to_end_spec h i c cap d :
  contains h i 0 c d -> match cap with Some n => zlen c <= n | None => True end ->
  wp (read_to_end h cap) (fun _ r => match r with Ok bs => bs = c | Err _ => dk_script d <> [] end) d.
Proof.
  intros [b [Hf Hi]] Hcap. unfold wp, read_to_end, sys, next_outcome.
  assert (match cap with Some n => take_z n (drop (Z.to_nat 0) c) | None => drop (Z.to_nat 0) c end = c) as Hall.
  { rewrite drop_0. destruct cap; [by apply take_z_all|done]. }
  destruct (dk_script d) as [|[| |e] script]; unfold on_fd; cbn; rewrite ?Hf; cbn; rewrite ?Hi; cbn; done.
Qed.

(** Loading a state file that [save] wrote. *)
Lemma load_new_state (req : SaveRequest R) d encoded :
  bitcode_serialize (Snapshot_new (sr_state req)) = Ok encoded ->
  at_path (dk_now d) (sr_state_path req) = Some (mkFile (framed encoded) true) ->
  verify_compatible (sr_state req) = Ok tt ->
  zlen (framed encoded) <= SNAPSHOT_DESERIALIZATION_BYTES_LIMIT ->
  wp (load (sr_state_path req)) (fun _ r =>
    r = Ok (mkLoaded (sr_state req) SNAPSHOT_VERSION) \/ (dk_script d <> [] /\ exists e, r = Err (Io e))) d.
Proof.
  intros Henc Hat Hv Hl. unfold at_path in Hat. destruct (im_dir (dk_now d) !! _) as [i|] eqn:Ei; [|done]. cbn in Hat.
  unfold load. repeat wp_step. wp_use open_read_spec; [done|done|]. intros d1 [h|e] Hr; cbn [map_err]; [|right; eauto].
  destruct Hr as [Hc Hs]. cbn [f_bytes] in Hc. unfold snapshot_load, read_with_limit. repeat wp_step.
  wp_use read_to_end_spec; [done|unfold saturating_add, SNAPSHOT_DESERIALIZATION_BYTES_LIMIT in *; cbn; lia|].
  intros d2 [bs|e] Hbs; cbn [map_err].
  2: { right. split; [|eauto]. intros He. apply Hbs. rewrite He in Hs. destruct (dk_script d1); [done|].
       unfold zlen in Hs. cbn in Hs. lia. }
  subst bs. rewrite (proj2 (Z.ltb_ge _ _)) by done. repeat wp_step. rewrite (load_saved (sr_state req)) by done.
  repeat wp_step. cbn [sn_data Snapshot_new]. rewrite Hv. apply wp_ret. by left.
Qed.

(** C16: What was saved is what is loaded.  After a successful save whose encoding
    is within the size limit, [load] on the same path returns the saved state and
    this build's version; only a failing call can make it fail. *)
Theorem save_load_roundtrip (req : SaveRequest R) d d' rep encoded :
  names_wf (dk_now d) -> request_ok req -> save req d = Some (d', Ok rep) ->
  bitcode_serialize (Snapshot_new (sr_state req)) = Ok encoded ->
  zlen (framed encoded) <= SNAPSHOT_DESERIALIZATION_BYTES_LIMIT ->
  exists d2 r, load (sr_state_path req) d' = Some (d2, r) /\
    (r = Ok (mkLoaded (sr_state req) SNAPSHOT_VERSION) \/ (dk_script d' <> [] /\ exists e, r = Err (Io e))).
Proof.
  intros Hw Hreq Hs Henc Hl. pose proof (save_ok_compatible _ _ _ _ Hs) as Hv.
  destruct (wp_total _ _ _ (save_spec req Hreq d Hw)) as (d1 & r1 & Hs1 & _ & Hr1).
  rewrite Hs in Hs1. injection Hs1 as <- <-. destruct Hr1 as [(encoded' & Henc' & Hat) _].
  assert (encoded' = encoded) as -> by congruence.
  by apply wp_total, load_new_state with (encoded := encoded).
Qed.

(** The base memory with the pages of a diff file laid over it. *)
Definition overlay (bm : DirtyBitmap) (base diff : list Z) : list Z :=
  imap (fun k b => if dirty bm (Z.of_nat k / page_size bm) then diff !!! k else b) base.

Lemma overlay_sparse bm base cur c :
  length base = length cur -> zlen cur = ram_size bm -> sparse bm cur (ram_size bm) c ->
  (forall k : nat, cur !! k <> base !! k -> dirty bm (Z.of_nat k / page_size bm) = true) ->
  overlay bm base c = cur.
Proof.
  intros Hlen Hram [Hl Hc] Hd. apply list_eq. intros k. unfold overlay. rewrite list_lookup_imap.
  destruct (decide (k < length cur)%nat) as [Hk|Hk].
  2: { rewrite (lookup_ge_None_2 base), (lookup_ge_None_2 cur) by lia. done. }
  destruct (lookup_lt_is_Some_2 base k ltac:(lia)) as [b Hb], (lookup_lt_is_Some_2 cur k Hk) as [x Hx].
  rewrite Hb, Hx. cbn. f_equal. unfold zlen in *. specialize (Hc (Z.of_nat k) ltac:(lia)).
  rewrite (proj2 (Z.ltb_lt _ _)), Nat2Z.id in Hc by lia. cbn [andb] in Hc. specialize (Hd k).
  destruct (dirty bm _).
  - rewrite Hx in Hc. by apply list_lookup_total_correct.
  - apply dec_stable. intros Hne. assert (cur !! k <> base !! k) as Hne' by (rewrite Hx, Hb; congruence).
    by specialize (Hd Hne').
Qed.

(** C15: A diff snapshot completes its base.  A region tracks the guest's writes;
    since the last drain every byte that changed was marked.  Then the memory file
    of a successful diff save, laid over the base page by page as the bitmap says,
    is the guest's memory. *)
Theorem diff_completes_base start sz geom thr now r ops r' (req : SaveRequest R) base d d' rep :
  in_u 64 start -> in_u 64 sz -> geometry_ok geom ->
  region_with_threshold start sz geom thr now = Ok r -> region_run r ops = Some r' ->
  zlen base = sz -> zlen (pr_memory (sr_memory req)) = sz ->
  (forall k : nat, pr_memory (sr_memory req) !! k <> base !! k -> In (start + Z.of_nat k) (marked_since_drain ops)) ->
  sr_kind req = Diff -> sr_dirty req = Some (tr_bitmap r') ->
  names_wf (dk_now d) -> request_ok req -> save req d = Some (d', Ok rep) ->
  exists c, at_path (dk_now d') (sr_memory_path req) = Some (mkFile c true) /\
    overlay (tr_bitmap r') base c = pr_memory (sr_memory req).
Proof.
  intros Hst Hsz Hg Hnew Hrun Hbase Hmem Hmark Hk Hbm Hw Hreq Hs.
  destruct (tracks_run start sz ops r []) as (r2 & Hrun2 & T); [by eapply tracks_new|].
  assert (r2 = r') as -> by congruence.
  destruct (wp_total _ _ _ (save_spec req Hreq d Hw)) as (d1 & r1 & Hs1 & _ & Hr1).
  rewrite Hs in Hs1. injection Hs1 as <- <-. destruct Hr1 as [_ (c & Hc & Hat)].
  exists c. split; [done|]. unfold memory_image in Hc. rewrite Hk in Hc. destruct Hc as (bm & Hbm' & Hram & Hsp).
  assert (bm = tr_bitmap r') as -> by congruence. pose proof (tk_size _ _ _ _ T) as Hts.
  apply overlay_sparse; [unfold zlen in *; lia|congruence|done|]. intros k Hne. specialize (Hmark k Hne).
  assert (Z.of_nat k < sz) as Hlt.
  { apply Znot_ge_lt. intros Hge. apply Hne. rewrite !lookup_ge_None_2; unfold zlen in *; done || lia. }
  replace (Z.of_nat k) with (start + Z.of_nat k - start) by lia. apply (tk_cover _ _ _ _ T); [done|lia].
Qed.

End theorems.

(** ** A concrete save *)

#[export] Instance vec_reader_laws : PageReaderLaws (list Z).
Proof.
  refine {| pr_memory := fun bytes => bytes |}. intros bytes off n bs Hoff. cbn. unfold vec_read_at, checked_add.
  destruct (Z.ltb_spec (off + Z.of_nat n) (2 ^ 64)); [|done].
  destruct (Z.ltb_spec (zlen bytes) (off + Z.of_nat n)); [done|]. intros [= <-]. split; [done|].
  unfold slice. rewrite length_take, length_drop. unfold zlen in *. lia.
Defined.

Definition demo_state : MicrovmState :=
  mkMicrovmState (mkVmInfo 128 false [] (lit "/k/Image") None (lit "console=ttyAMA0") true)
    [VcpuState_new 0] [mkDeviceState (lit "virtio-block") (lit "rootfs") 0 [1; 2; 3]]
    (GicState_from_bytes [9; 8; 7]) None.

(** A serializer that knows the demo state. *)
#[local] Instance demo_codec : Codec MicrovmState := {
  bitcode_serialize s := if decide (s = Snapshot_new demo_state) then Ok [0xB1; 0x7C; 0xDE] else Err (lit "unknown");
  bitcode_deserialize bs := if decide (bs = [0xB1; 0x7C; 0xDE]) then Ok (Snapshot_new demo_state) else Err (lit "invalid")
}.

#[local] Instance demo_codec_laws : CodecLaws MicrovmState.
Proof.
  split; intros s bs; cbn; case_decide; try done; intros [= <-].
  - repeat constructor; unfold byte_ok; lia.
  - by subst.
Qed.

Definition demo_dir : list Z := lit "/d".
Definition demo_snap : list Z := lit "/d/vm.snap".
Definition demo_mem : list Z := lit "/d/vm.mem".

(** A directory with an old pair, and a host on which writes come short, a call is
    interrupted and the last rename fails. *)
Definition demo_image : Image :=
  mkImage {[ demo_snap := 0%nat; demo_mem := 1%nat ]} [mkFile [1] true; mkFile [2] true].

Definition demo_disk (script : list Outcome) : Disk :=
  mkDisk demo_image [demo_image] {[ demo_dir := mkDirMeta 7 64 ]} [] script.

Definition flaky_script : list Outcome :=
  [Proceeds; Proceeds; Proceeds; Takes 1; Fails EINTR; Proceeds; Takes 3; Proceeds] ++
  [Proceeds; Proceeds; Proceeds; Proceeds; Takes 2; Fails EINTR] ++ repeat Proceeds 5 ++ [Fails (mkIoError 28)].

(** Forty bytes of guest memory. *)
Definition demo_memory : list Z := map Z.of_nat (List.seq 100 40).

Definition demo_full : SaveRequest (list Z) :=
  mkSaveRequest demo_snap demo_mem Full demo_state demo_memory 40 16 None.

Lemma demo_image_wf : names_wf demo_image.
Proof.
  split; cbn.
  - intros p q i. rewrite !lookup_insert_Some, !lookup_empty. intuition congruence.
  - intros p i. rewrite !lookup_insert_Some, !lookup_empty. intros [[_ <-]|[_ [[_ <-]|[_ [=]]]]]; lia.
Qed.

Lemma demo_full_ok : request_ok demo_full.
Proof. split; vm_compute; done. Qed.

Example flaky_save_fails :
  option_map snd (save demo_full (demo_disk flaky_script)) = Some (Err (AtomicCommitFailed (mkIoError 28))).
Proof. vm_compute. reflexivity. Qed.

(** The failed save left the new state file beside the old memory file, and the
    pair loads: nothing ties a memory file to its state file. *)
Example mismatched_pair_loads :
  match save demo_full (demo_disk flaky_script) with
  | Some (d, _) =>
      at_path (dk_now d) demo_mem = Some (mkFile [2] true) /\
      option_map snd (load demo_snap d) = Some (Ok (mkLoaded demo_state SNAPSHOT_VERSION))
  | None => False
  end.
Proof. vm_compute. split; reflexivity. Qed.

Lemma save_crash_safe_witness :
  exists d' r, save demo_full (demo_disk flaky_script) = Some (d', r) /\
    (exists images, dk_past d' = images ++ [demo_image] /\ Forall (pair_of demo_full demo_image) images) /\
    match r with
    | Ok _ => new_state demo_full (at_path (dk_now d') demo_snap) /\ new_memory demo_full (at_path (dk_now d') demo_mem)
    | Err _ => at_path (dk_now d') demo_mem = Some (mkFile [2] true)
    end.
Proof. exact (save_crash_safe demo_full (demo_disk flaky_script) demo_image_wf demo_full_ok). Defined.

Lemma save_load_roundtrip_witness :
  exists d' rep, save demo_full (demo_disk []) = Some (d', Ok rep) /\
    exists d2, load demo_snap d' = Some (d2, Ok (mkLoaded demo_state SNAPSHOT_VERSION)).
Proof.
  destruct (save demo_full (demo_disk [])) as [[d' [rep|e]]|] eqn:Hs;
    [|exfalso; apply (f_equal (option_map snd)) in Hs; vm_compute in Hs; discriminate Hs|
      exfalso; apply (f_equal (option_map snd)) in Hs; vm_compute in Hs; discriminate Hs].
  exists d', rep. split; [reflexivity|].
  destruct (save_load_roundtrip demo_full (demo_disk []) d' rep [0xB1; 0x7C; 0xDE] demo_image_wf demo_full_ok Hs)
    as (d2 & r & Hl & [->|[Hsc _]]); [vm_compute; reflexivity|vm_compute; discriminate|by exists d2|].
  exfalso. apply Hsc.
  assert (option_map (fun x => dk_script x.1) (save demo_full (demo_disk [])) = Some []) as Hn by (vm_compute; reflexivity).
  rewrite Hs in Hn. by injection Hn.
Defined.

(** A region of forty bytes with pages of sixteen and four bytes, and a guest that
    wrote two of them since the last drain. *)
Definition demo_geometry : PageGeometry := mkGeometry 4 4 16 4.

Definition demo_ops : list RegionOp := [Mark 3; Drain; Mark 5; Tick 200000000; Mark 38].

Definition demo_base : list Z := <[38%nat := 0]> (<[5%nat := 0]> demo_memory).

Definition demo_region : TrackedRegion :=
  match region_with_threshold 0 40 demo_geometry 0 0 with
  | Ok r => r
  | Err _ => mkRegion sample_bitmap (controller_new 1 0) demo_geometry
  end.

Definition demo_tracked : TrackedRegion := default demo_region (region_run demo_region demo_ops).

Definition demo_diff : SaveRequest (list Z) :=
  mkSaveRequest demo_snap demo_mem Diff demo_state demo_memory 40 4 (Some (tr_bitmap demo_tracked)).

Lemma demo_geometry_ok : geometry_ok demo_geometry.
Proof. split; cbn; [by exists 4|by exists 2|lia]. Qed.

Lemma demo_tracked_wf : bitmap_wf (tr_bitmap demo_tracked).
Proof.
  destruct (tracks_run 0 40 demo_ops demo_region []) as (r' & Hr & T).
  { eapply (tracks_new 0 40 demo_geometry 0 0); [unfold in_u; lia|unfold in_u; lia|exact demo_geometry_ok|reflexivity]. }
  unfold demo_tracked. rewrite Hr. exact (tk_wf _ _ _ _ T).
Qed.

Lemma demo_diff_ok : request_ok demo_diff.
Proof.
  split; [vm_compute; done..|]. intros bm Hbm. change (Some (tr_bitmap demo_tracked) = Some bm) in Hbm.
  assert (tr_bitmap demo_tracked = bm) as <- by congruence. exact demo_tracked_wf.
Qed.

Lemma demo_changed : forall k : nat, demo_memory !! k <> demo_base !! k -> In (0 + Z.of_nat k) (marked_since_drain demo_ops).
Proof.
  intros k Hne. change (marked_since_drain demo_ops) with [38; 5]. unfold demo_base in Hne.
  destruct (decide (k = 38%nat)) as [->|H38]; [by left|]. rewrite list_lookup_insert_ne in Hne by done.
  destruct (decide (k = 5%nat)) as [->|H5]; [by right; left|]. by rewrite list_lookup_insert_ne in Hne.
Qed.

Lemma diff_completes_base_witness :
  exists d' rep c, save demo_diff (demo_disk []) = Some (d', Ok rep) /\
    at_path (dk_now d') demo_mem = Some (mkFile c true) /\
    overlay (tr_bitmap demo_tracked) demo_base c = demo_memory.
Proof.
  destruct (save demo_diff (demo_disk [])) as [[d' [rep|e]]|] eqn:Hs;
    [|exfalso; apply (f_equal (option_map snd)) in Hs; vm_compute in Hs; discriminate Hs|
      exfalso; apply (f_equal (option_map snd)) in Hs; vm_compute in Hs; discriminate Hs].
  destruct (diff_completes_base 0 40 demo_geometry 0 0 demo_region demo_ops demo_tracked demo_diff demo_base
    (demo_disk []) d' rep) as (c & Hc & Ho);
    [unfold in_u; lia|unfold in_u; lia|exact demo_geometry_ok|reflexivity|vm_compute; reflexivity|reflexivity|reflexivity|
     exact demo_changed|reflexivity|reflexivity|exact demo_image_wf|exact demo_diff_ok|exact Hs|].
  exists d', rep, c. split; [reflexivity|]. split; [exact Hc|exact Ho].
Defined.

(** ** Two limits of the pre-flight check *)

(** A destination that is a bare file name is rejected: its parent is the empty
    path, which no [stat] accepts. *)
Lemma bare_name_rejected name d d' r :
  names_file name -> dk_dirs d !! [] = None -> AtomicWriter_open name d = Some (d', r) -> exists e, r = Err (Io e).
Proof.
  intros Hn Hd. unfold AtomicWriter_open, check_same_filesystem. rewrite parent_bare by done. cbn [default].
  unfold p_bind, p_map_err, metadata_dev, sys, next_outcome. destruct (dk_script d) as [|[| |e] script]; cbn;
    rewrite ?Hd; cbn; intros [= <- <-]; by eexists.
Qed.

(** The temporary file of a file in a directory has the same parent, so the
    cross-filesystem error cannot be returned for it. *)
Lemma cross_fs_unreachable dir name d d' r a b :
  names_file name -> AtomicWriter_open (dir ++ SLASH :: name) d = Some (d', r) -> r <> Err (AtomicCommitCrossFs a b).
Proof.
  intros Hn Ho. set (dest := dir ++ SLASH :: name) in *.
  assert (parent (derive_temp_path dest) = parent dest) as Hp.
  { unfold derive_temp_path, dest. rewrite <- app_assoc. cbn [app]. rewrite !parent_in; [done|done|].
    apply names_file_app; [done|]. repeat constructor; done. }
  assert (wp (AtomicWriter_open dest) (fun _ r => r <> Err (AtomicCommitCrossFs a b)) d) as Hw.
  { unfold AtomicWriter_open. repeat wp_step. wp_use check_same_filesystem_spec.
    intros d1 [[]|e] [_ He]; [|intros [= ->]; by apply (He Hp a b)].
    repeat wp_step. unfold open_truncate. apply (wp_mono _ (fun _ _ => True)); [by apply wp_sys|].
    intros d2 [h|e] _; cbn [map_err]; [|done]. by apply wp_ret. }
  unfold wp in Hw. by rewrite Ho in Hw.
Qed.
