(* ===== verification/VcpuSave.v ===== *)
(** * VcpuSave: capturing and restoring a vCPU

    Models [src/crates/arch/src/sysregs.rs] (the curated system registers and
    their wire encoding), [src/crates/snapshot/src/vcpu_save.rs] (capture and
    restore over the source and target traits) and
    [src/crates/hv/src/vcpu_save.rs] (their implementation over the hypervisor's
    vCPU).  The vCPU of the [applevisor] crate is the class [VirtualCpu]. *)

From stdpp Require Import base numbers list option strings.
From Stdlib Require Import ZArith Lia.
From S2P Require Import Prelude Text SnapError SnapState.

Local Open Scope Z_scope.
Local Open Scope squib_scope.

(** ** The system registers *)

Inductive SysReg :=
  | SctlrEl1 | Ttbr0El1 | Ttbr1El1 | MairEl1 | AmairEl1 | TcrEl1 | SpEl1 | ElrEl1 | SpsrEl1 | VbarEl1
  | IdAa64Mmfr0El1 | IdAa64Mmfr1El1 | IdAa64Pfr0El1 | IdAa64Pfr1El1 | IdAa64Dfr0El1 | IdAa64Isar0El1
  | IdAa64Isar1El1 | MpidrEl1 | CntvCtlEl0 | CntvCvalEl0 | CntvOffEl2 | CntFrqEl0 | CntKctlEl1 | CntpCtlEl0
  | CntpCvalEl0 | PmCcntrEl0 | PmCcfiltrEl0 | PmUserEnrEl0 | PmCrEl0 | PmCntEnSetEl0 | PmOvsSetEl0
  | PmSelrEl0 | EsrEl1 | FarEl1 | Afsr0El1 | Afsr1El1 | ContextIdrEl1 | TpidrEl0 | TpidrroEl0 | TpidrEl1
  | ParEl1 | Fpcr | Fpsr | CpacrEl1 | MdscrEl1 | OslarEl1 | OsdlrEl1.

#[export] Instance SysReg_eq_dec : EqDecision SysReg.
Proof. solve_decision. Defined.

Definition as_encoded (r : SysReg) : Z :=
  match r with
  | SctlrEl1 => 1 | Ttbr0El1 => 2 | Ttbr1El1 => 3 | MairEl1 => 4 | AmairEl1 => 5 | TcrEl1 => 6 | SpEl1 => 7
  | ElrEl1 => 8 | SpsrEl1 => 9 | VbarEl1 => 10 | IdAa64Mmfr0El1 => 11 | IdAa64Mmfr1El1 => 12
  | IdAa64Pfr0El1 => 13 | IdAa64Pfr1El1 => 14 | IdAa64Dfr0El1 => 15 | IdAa64Isar0El1 => 16
  | IdAa64Isar1El1 => 17 | MpidrEl1 => 18 | CntvCtlEl0 => 19 | CntvCvalEl0 => 20 | CntvOffEl2 => 21
  | CntFrqEl0 => 22 | CntKctlEl1 => 23 | CntpCtlEl0 => 24 | CntpCvalEl0 => 25 | PmCcntrEl0 => 26
  | PmCcfiltrEl0 => 27 | PmUserEnrEl0 => 28 | PmCrEl0 => 29 | PmCntEnSetEl0 => 30 | PmOvsSetEl0 => 31
  | PmSelrEl0 => 32 | EsrEl1 => 33 | FarEl1 => 34 | Afsr0El1 => 35 | Afsr1El1 => 36 | ContextIdrEl1 => 37
  | TpidrEl0 => 38 | TpidrroEl0 => 39 | TpidrEl1 => 40 | ParEl1 => 41 | Fpcr => 42 | Fpsr => 43
  | CpacrEl1 => 44 | MdscrEl1 => 45 | OslarEl1 => 46 | OsdlrEl1 => 47
  end.

Definition from_encoded (key : Z) : option SysReg :=
  match key with
  | 1 => Some SctlrEl1 | 2 => Some Ttbr0El1 | 3 => Some Ttbr1El1 | 4 => Some MairEl1 | 5 => Some AmairEl1
  | 6 => Some TcrEl1 | 7 => Some SpEl1 | 8 => Some ElrEl1 | 9 => Some SpsrEl1 | 10 => Some VbarEl1
  | 11 => Some IdAa64Mmfr0El1 | 12 => Some IdAa64Mmfr1El1 | 13 => Some IdAa64Pfr0El1
  | 14 => Some IdAa64Pfr1El1 | 15 => Some IdAa64Dfr0El1 | 16 => Some IdAa64Isar0El1
  | 17 => Some IdAa64Isar1El1 | 18 => Some MpidrEl1 | 19 => Some CntvCtlEl0 | 20 => Some CntvCvalEl0
  | 21 => Some CntvOffEl2 | 22 => Some CntFrqEl0 | 23 => Some CntKctlEl1 | 24 => Some CntpCtlEl0
  | 25 => Some CntpCvalEl0 | 26 => Some PmCcntrEl0 | 27 => Some PmCcfiltrEl0 | 28 => Some PmUserEnrEl0
  | 29 => Some PmCrEl0 | 30 => Some PmCntEnSetEl0 | 31 => Some PmOvsSetEl0 | 32 => Some PmSelrEl0
  | 33 => Some EsrEl1 | 34 => Some FarEl1 | 35 => Some Afsr0El1 | 36 => Some Afsr1El1
  | 37 => Some ContextIdrEl1 | 38 => Some TpidrEl0 | 39 => Some TpidrroEl0 | 40 => Some TpidrEl1
  | 41 => Some ParEl1 | 42 => Some Fpcr | 43 => Some Fpsr | 44 => Some CpacrEl1 | 45 => Some MdscrEl1
  | 46 => Some OslarEl1 | 47 => Some OsdlrEl1
  | _ => None
  end.

(** [SysReg::all]. *)
Definition all_sys_regs : list SysReg :=
  [SctlrEl1; Ttbr0El1; Ttbr1El1; MairEl1; AmairEl1; TcrEl1; SpEl1; ElrEl1; SpsrEl1; VbarEl1; IdAa64Mmfr0El1;
   IdAa64Mmfr1El1; IdAa64Pfr0El1; IdAa64Pfr1El1; IdAa64Dfr0El1; IdAa64Isar0El1; IdAa64Isar1El1; MpidrEl1;
   CntvCtlEl0; CntvCvalEl0; CntvOffEl2; CntFrqEl0; CntKctlEl1; CntpCtlEl0; CntpCvalEl0; PmCcntrEl0;
   PmCcfiltrEl0; PmUserEnrEl0; PmCrEl0; PmCntEnSetEl0; PmOvsSetEl0; PmSelrEl0; EsrEl1; FarEl1; Afsr0El1;
   Afsr1El1; ContextIdrEl1; TpidrEl0; TpidrroEl0; TpidrEl1; ParEl1; Fpcr; Fpsr; CpacrEl1; MdscrEl1; OslarEl1;
   OsdlrEl1].

(** ** The registers of the hypervisor *)

(** The [Reg]s, [SysReg]s and [SimdFpReg]s of the crate that the code names. *)
Inductive HvfReg :=
  | RegX0 | RegX1 | RegX2 | RegX3 | RegX4 | RegX5 | RegX6 | RegX7 | RegX8 | RegX9 | RegX10 | RegX11 | RegX12 | RegX13 | RegX14 | RegX15 | RegX16 | RegX17 | RegX18
  | RegX19 | RegX20 | RegX21 | RegX22 | RegX23 | RegX24 | RegX25 | RegX26 | RegX27 | RegX28 | RegX29 | RegX30 | PC | CPSR | FPCR | FPSR.

Inductive HvfSysReg :=
  | SCTLR_EL1 | TTBR0_EL1 | TTBR1_EL1 | MAIR_EL1 | AMAIR_EL1 | TCR_EL1 | SP_EL1 | ELR_EL1 | SPSR_EL1
  | VBAR_EL1 | ID_AA64MMFR0_EL1 | ID_AA64MMFR1_EL1 | ID_AA64PFR0_EL1 | ID_AA64PFR1_EL1 | ID_AA64DFR0_EL1
  | ID_AA64ISAR0_EL1 | ID_AA64ISAR1_EL1 | MPIDR_EL1 | CNTV_CTL_EL0 | CNTV_CVAL_EL0 | CNTVOFF_EL2
  | CNTKCTL_EL1 | CNTP_CTL_EL0 | CNTP_CVAL_EL0 | ESR_EL1 | FAR_EL1 | AFSR0_EL1 | AFSR1_EL1 | CONTEXTIDR_EL1
  | TPIDR_EL0 | TPIDRRO_EL0 | TPIDR_EL1 | PAR_EL1 | CPACR_EL1 | MDSCR_EL1.

Inductive SimdFpReg :=
  | Q0 | Q1 | Q2 | Q3 | Q4 | Q5 | Q6 | Q7 | Q8 | Q9 | Q10 | Q11 | Q12 | Q13 | Q14 | Q15 | Q16 | Q17 | Q18
  | Q19 | Q20 | Q21 | Q22 | Q23 | Q24 | Q25 | Q26 | Q27 | Q28 | Q29 | Q30 | Q31.

#[export] Instance HvfReg_eq_dec : EqDecision HvfReg.
Proof. solve_decision. Defined.
#[export] Instance HvfSysReg_eq_dec : EqDecision HvfSysReg.
Proof. solve_decision. Defined.
#[export] Instance SimdFpReg_eq_dec : EqDecision SimdFpReg.
Proof. solve_decision. Defined.

Definition map_to_hvf_sys_reg (reg : SysReg) : option HvfSysReg :=
  match reg with
  | SctlrEl1 => Some SCTLR_EL1 | Ttbr0El1 => Some TTBR0_EL1 | Ttbr1El1 => Some TTBR1_EL1
  | MairEl1 => Some MAIR_EL1 | AmairEl1 => Some AMAIR_EL1 | TcrEl1 => Some TCR_EL1 | SpEl1 => Some SP_EL1
  | ElrEl1 => Some ELR_EL1 | SpsrEl1 => Some SPSR_EL1 | VbarEl1 => Some VBAR_EL1
  | IdAa64Mmfr0El1 => Some ID_AA64MMFR0_EL1 | IdAa64Mmfr1El1 => Some ID_AA64MMFR1_EL1
  | IdAa64Pfr0El1 => Some ID_AA64PFR0_EL1 | IdAa64Pfr1El1 => Some ID_AA64PFR1_EL1
  | IdAa64Dfr0El1 => Some ID_AA64DFR0_EL1 | IdAa64Isar0El1 => Some ID_AA64ISAR0_EL1
  | IdAa64Isar1El1 => Some ID_AA64ISAR1_EL1 | MpidrEl1 => Some MPIDR_EL1 | CntvCtlEl0 => Some CNTV_CTL_EL0
  | CntvCvalEl0 => Some CNTV_CVAL_EL0 | CntvOffEl2 => Some CNTVOFF_EL2 | CntKctlEl1 => Some CNTKCTL_EL1
  | CntpCtlEl0 => Some CNTP_CTL_EL0 | CntpCvalEl0 => Some CNTP_CVAL_EL0 | EsrEl1 => Some ESR_EL1
  | FarEl1 => Some FAR_EL1 | Afsr0El1 => Some AFSR0_EL1 | Afsr1El1 => Some AFSR1_EL1
  | ContextIdrEl1 => Some CONTEXTIDR_EL1 | TpidrEl0 => Some TPIDR_EL0 | TpidrroEl0 => Some TPIDRRO_EL0
  | TpidrEl1 => Some TPIDR_EL1 | ParEl1 => Some PAR_EL1 | CpacrEl1 => Some CPACR_EL1
  | MdscrEl1 => Some MDSCR_EL1
  | _ => None
  end.

Definition map_to_hvf_reg (reg : SysReg) : option HvfReg :=
  match reg with
  | Fpcr => Some FPCR
  | Fpsr => Some FPSR
  | _ => None
  end.

(** The table of [read_gp_regs] and [write_gp_regs], and [Q_REGS]. *)
Definition x_table : list HvfReg :=
  [RegX0; RegX1; RegX2; RegX3; RegX4; RegX5; RegX6; RegX7; RegX8; RegX9; RegX10; RegX11; RegX12; RegX13; RegX14; RegX15; RegX16; RegX17; RegX18; RegX19; RegX20; RegX21; RegX22;
   RegX23; RegX24; RegX25; RegX26; RegX27; RegX28; RegX29; RegX30].

Definition q_table : list SimdFpReg :=
  [Q0; Q1; Q2; Q3; Q4; Q5; Q6; Q7; Q8; Q9; Q10; Q11; Q12; Q13; Q14; Q15; Q16; Q17; Q18; Q19; Q20; Q21; Q22;
   Q23; Q24; Q25; Q26; Q27; Q28; Q29; Q30; Q31].

(** ** Capture and restore *)

Class VcpuSnapshotSource (S : Type) := {
  src_mpidr : S -> Z;
  src_read_gp_regs : S -> result SnapshotError GpRegs;
  src_read_fp_simd : S -> result SnapshotError FpSimdRegs;
  src_read_sys_reg : S -> SysReg -> result SnapshotError (option Z);
  src_psci_state : S -> PsciVcpuState
}.

Class VcpuRestoreTarget (T : Type) := {
  tgt_write_gp_regs : GpRegs -> stm T SnapshotError unit;
  tgt_write_fp_simd : FpSimdRegs -> stm T SnapshotError unit;
  tgt_write_sys_reg : SysReg -> Z -> stm T SnapshotError unit;
  tgt_set_psci_state : PsciVcpuState -> stm T SnapshotError unit
}.

(** The loop over [SysReg::all()]. *)
Fixpoint capture_sys_regs {S} `{!VcpuSnapshotSource S} (source : S) (regs : list SysReg) (sys_regs : RegMap)
  : result SnapshotError RegMap :=
  match regs with
  | [] => Ok sys_regs
  | reg :: regs' =>
      let? value := src_read_sys_reg source reg in
      capture_sys_regs source regs'
        (match value with Some v => regs_insert (as_encoded reg) v sys_regs | None => sys_regs end)
  end.

Definition capture_vcpu_state {S} `{!VcpuSnapshotSource S} (source : S) : result SnapshotError VcpuState :=
  let? regs := src_read_gp_regs source in
  let? fp_regs := src_read_fp_simd source in
  let? sys_regs := capture_sys_regs source all_sys_regs [] in
  Ok (mkVcpuState (src_mpidr source) regs fp_regs sys_regs (src_psci_state source)).

Definition normalized_psci_state (vcpu_index : Z) : PsciVcpuState :=
  if vcpu_index =? 0 then PsciOn else PsciOff.

(** The loop over the saved registers, in the order of their keys. *)
Fixpoint restore_sys_regs {T} `{!VcpuRestoreTarget T} (sys_regs : RegMap) : stm T SnapshotError unit :=
  match sys_regs with
  | [] => st_ret tt
  | (encoded, value) :: sys_regs' =>
      match from_encoded encoded with
      | None => st_fail Incompatible
      | Some reg => let! _ := tgt_write_sys_reg reg value in restore_sys_regs sys_regs'
      end
  end.

Definition restore_vcpu_state {T} `{!VcpuRestoreTarget T} (state : VcpuState) (vcpu_index : Z)
  : stm T SnapshotError unit :=
  let! _ := tgt_write_gp_regs (vs_regs state) in
  let! _ := tgt_write_fp_simd (vs_fp_regs state) in
  let! _ := restore_sys_regs (vs_sys_regs state) in
  let! _ := tgt_set_psci_state (normalized_psci_state vcpu_index) in
  st_ret tt.

(** ** Over the hypervisor *)

(** [applevisor::vcpu::Vcpu]; [hv_debug] is the [Debug] text of its errors. *)
Class VirtualCpu (V E : Type) := {
  get_reg : V -> HvfReg -> result E Z;
  set_reg : HvfReg -> Z -> stm V E unit;
  get_sys_reg : V -> HvfSysReg -> result E Z;
  set_sys_reg : HvfSysReg -> Z -> stm V E unit;
  get_simd_fp_reg : V -> SimdFpReg -> result E Z;
  set_simd_fp_reg : SimdFpReg -> Z -> stm V E unit;
  hv_debug : E -> list Z
}.

Section hvf.
Context {V E : Type} `{!VirtualCpu V E}.

Definition err_to_snap (ctx : list Z) (e : E) : SnapshotError :=
  Capture (lit "HVF " ++ ctx ++ lit ": " ++ hv_debug e).

(** A write whose error is wrapped. *)
Definition wrapped (ctx : list Z) (c : stm V E unit) : stm V SnapshotError unit :=
  fun v => let (v', r) := c v in (v', map_err (err_to_snap ctx) r).

Record HvfVcpuSnapshot := mkHvfVcpu { hs_vcpu : V; hs_mpidr : Z }.

Fixpoint read_table {A B} (read : A -> result SnapshotError B) (table : list A) : result SnapshotError (list B) :=
  match table with
  | [] => Ok []
  | a :: table' => let? x := read a in let? xs := read_table read table' in Ok (x :: xs)
  end.

Definition read_gp_regs (vcpu : V) : result SnapshotError GpRegs :=
  let? x := read_table (fun reg => map_err (err_to_snap (lit "get_reg X")) (get_reg vcpu reg)) x_table in
  let? sp := map_err (err_to_snap (lit "get_sys_reg SP_EL1")) (get_sys_reg vcpu SP_EL1) in
  let? pc := map_err (err_to_snap (lit "get_reg PC")) (get_reg vcpu PC) in
  let? pstate := map_err (err_to_snap (lit "get_reg CPSR")) (get_reg vcpu CPSR) in
  Ok (mkGpRegs x sp pc pstate).

(** The halves of a 128-bit register. *)
Definition split_u128 (raw : Z) : Z * Z := (wrap 64 raw, wrap 64 (Z.shiftr raw 64)).

Definition join_u128 (halves : Z * Z) : Z := Z.lor (wrap 128 (Z.shiftl halves.2 64)) halves.1.

Definition read_fp_simd (vcpu : V) : result SnapshotError FpSimdRegs :=
  let? v := read_table (fun q =>
    let? raw := map_err (err_to_snap (lit "get_simd_fp_reg")) (get_simd_fp_reg vcpu q) in
    Ok (split_u128 raw)) q_table in
  let? control := map_err (err_to_snap (lit "get_reg FPCR")) (get_reg vcpu FPCR) in
  let? status := map_err (err_to_snap (lit "get_reg FPSR")) (get_reg vcpu FPSR) in
  Ok (mkFpSimdRegs v status control).

Definition read_sys_reg (vcpu : V) (reg : SysReg) : result SnapshotError (option Z) :=
  match map_to_hvf_sys_reg reg with
  | Some hvf => let? v := map_err (err_to_snap (lit "get_sys_reg")) (get_sys_reg vcpu hvf) in Ok (Some v)
  | None =>
      match map_to_hvf_reg reg with
      | Some hvf_reg =>
          let? v := map_err (err_to_snap (lit "get_reg (FPCR/FPSR)")) (get_reg vcpu hvf_reg) in Ok (Some v)
      | None => Ok None
      end
  end.

#[export] Instance hvf_source : VcpuSnapshotSource HvfVcpuSnapshot := {
  src_mpidr := hs_mpidr;
  src_read_gp_regs s := read_gp_regs (hs_vcpu s);
  src_read_fp_simd s := read_fp_simd (hs_vcpu s);
  src_read_sys_reg s := read_sys_reg (hs_vcpu s);
  src_psci_state _ := PsciOn
}.

Fixpoint write_table {A B} (write : A -> B -> stm V SnapshotError unit) (table : list A) (values : list B)
  : stm V SnapshotError unit :=
  match table, values with
  | a :: table', x :: values' => let! _ := write a x in write_table write table' values'
  | _, _ => st_ret tt
  end.

Definition write_gp_regs (regs : GpRegs) : stm V SnapshotError unit :=
  let! _ := write_table (fun reg x => wrapped (lit "set_reg X") (set_reg reg x)) x_table (gp_x regs) in
  let! _ := wrapped (lit "set_sys_reg SP_EL1") (set_sys_reg SP_EL1 (gp_sp regs)) in
  let! _ := wrapped (lit "set_reg PC") (set_reg PC (gp_pc regs)) in
  wrapped (lit "set_reg CPSR") (set_reg CPSR (gp_pstate regs)).

Definition write_fp_simd (regs : FpSimdRegs) : stm V SnapshotError unit :=
  let! _ := write_table (fun q halves => wrapped (lit "set_simd_fp_reg") (set_simd_fp_reg q (join_u128 halves)))
              q_table (fp_v regs) in
  let! _ := wrapped (lit "set_reg FPCR") (set_reg FPCR (fp_fpcr regs)) in
  wrapped (lit "set_reg FPSR") (set_reg FPSR (fp_fpsr regs)).

Definition write_sys_reg (reg : SysReg) (value : Z) : stm V SnapshotError unit :=
  match map_to_hvf_sys_reg reg with
  | Some hvf => wrapped (lit "set_sys_reg") (set_sys_reg hvf value)
  | None =>
      match map_to_hvf_reg reg with
      | Some hvf_reg => wrapped (lit "set_reg (FPCR/FPSR)") (set_reg hvf_reg value)
      | None => st_ret tt
      end
  end.

(** A write through the wrapper's reference to its vCPU. *)
Definition on_vcpu (c : stm V SnapshotError unit) : stm HvfVcpuSnapshot SnapshotError unit :=
  fun s => let (v, r) := c (hs_vcpu s) in (mkHvfVcpu v (hs_mpidr s), r).

#[export] Instance hvf_target : VcpuRestoreTarget HvfVcpuSnapshot := {
  tgt_write_gp_regs regs := on_vcpu (write_gp_regs regs);
  tgt_write_fp_simd regs := on_vcpu (write_fp_simd regs);
  tgt_write_sys_reg reg value := on_vcpu (write_sys_reg reg value);
  tgt_set_psci_state _ := st_ret tt
}.

End hvf.
Arguments HvfVcpuSnapshot : clear implicits.

(** ** The wire encoding of the registers *)

(** Every register has a key of its own that decodes to it, no other key decodes,
    and [all] lists each register once in ascending order of the keys. *)
Lemma sysreg_wire_exact :
  (forall r k, from_encoded k = Some r <-> k = as_encoded r) /\
  (forall r, In r all_sys_regs) /\ map as_encoded all_sys_regs = map Z.of_nat (List.seq 1 47).
Proof.
  split_and!; [|intros []; vm_compute; tauto|reflexivity].
  intros r k. split; [|intros ->; by destruct r].
  unfold from_encoded. repeat case_match; intros; by simplify_eq.
Qed.

(** ** A restored vCPU is the captured one *)

Inductive AnyReg := AReg (r : HvfReg) | ASys (r : HvfSysReg) | ASimd (q : SimdFpReg).

#[export] Instance AnyReg_eq_dec : EqDecision AnyReg.
Proof. solve_decision. Defined.

Section exact.
Context {V E : Type} `{!VirtualCpu V E}.

Definition get_any (v : V) (a : AnyReg) : result E Z :=
  match a with
  | AReg r => get_reg v r
  | ASys r => get_sys_reg v r
  | ASimd q => get_simd_fp_reg v q
  end.

(** [v'] is [v] with one register set. *)
Definition stored (a : AnyReg) (x : Z) (v v' : V) : Prop :=
  forall b, get_any v' b = if decide (b = a) then Ok x else get_any v b.
End exact.

(** A register that was set reads back, and the other registers are as before. *)
Class VirtualCpuLaws (V E : Type) `{!VirtualCpu V E} := {
  set_reg_stored : forall r x v v', set_reg r x v = (v', Ok tt) -> stored (AReg r) x v v';
  set_sys_reg_stored : forall r x v v', set_sys_reg r x v = (v', Ok tt) -> stored (ASys r) x v v';
  set_simd_stored : forall q x v v', in_u 128 x -> set_simd_fp_reg q x v = (v', Ok tt) -> stored (ASimd q) x v v';
  get_simd_u128 : forall q v x, get_simd_fp_reg v q = Ok x -> in_u 128 x
}.

Lemma join_split_u128 x : in_u 128 x -> join_u128 (split_u128 x) = x.
Proof.
  intros [H0 H1]. unfold join_u128, split_u128, wrap. cbn [fst snd].
  rewrite Z.shiftr_div_pow2, Z.shiftl_mul_pow2 by lia.
  assert (0 <= x / 2 ^ 64 < 2 ^ 64) as Hd.
  { split; [apply Z.div_pos; lia|]. apply Z.div_lt_upper_bound; lia. }
  rewrite (Z.mod_small (x / 2 ^ 64)), (Z.mod_small (_ * _)) by lia.
  pose proof (Z.mod_pos_bound x (2 ^ 64) ltac:(lia)).
  rewrite lor_mul_pow2 by (lia || done). pose proof (Z.div_mod x (2 ^ 64) ltac:(lia)). lia.
Qed.

Section copy.
Context {V E : Type} `{!VirtualCpu V E, !VirtualCpuLaws V E}.
Context (v1 : V).

(** The registers in [bs] read as in the source. *)
Definition copied (bs : list AnyReg) (v : V) : Prop := Forall (fun b => get_any v b = get_any v1 b) bs.

Lemma copied_store bs a x v v' : get_any v1 a = Ok x -> stored a x v v' -> copied bs v -> copied (a :: bs) v'.
Proof.
  intros Ha Hs Hc. constructor; [rewrite Hs, decide_True by done; done|].
  eapply Forall_impl; [exact Hc|]. intros b Hb. rewrite Hs. case_decide; [by subst|done].
Qed.

Lemma wrapped_ok ctx (c : stm V E unit) v v' : wrapped ctx c v = (v', Ok tt) -> c v = (v', Ok tt).
Proof. unfold wrapped. destruct (c v) as [v2 [[]|e]]; cbn; congruence. Qed.

Lemma copy_table {A B} (inj : A -> AnyReg) (read : A -> result SnapshotError B) (write : A -> B -> stm V SnapshotError unit) :
  (forall a x, read a = Ok x -> forall bs v v', write a x v = (v', Ok tt) -> copied bs v -> copied (inj a :: bs) v') ->
  forall table xs bs v v', read_table read table = Ok xs -> write_table write table xs v = (v', Ok tt) ->
    copied bs v -> exists bs', copied bs' v' /\ forall b, In b (map inj table) \/ In b bs -> In b bs'.
Proof.
  intros Hw table. induction table as [|a table IH]; intros xs bs v v' Hr; cbn in Hr.
  { intros [= <-] Hc. injection Hr as <-. exists bs. split; [done|]. intros b [[]|]; done. }
  apply let_ok_inv in Hr as (x & Hx & (xs' & Hxs & [= <-])%let_ok_inv).
  intros (u & v2 & H1 & H2)%st_bind_ok Hc. destruct u. pose proof (Hw _ _ Hx bs v v2 H1 Hc) as Hc2.
  destruct (IH _ _ _ _ Hxs H2 Hc2) as (bs' & Hc' & Hin). exists bs'. split; [done|].
  intros b [[<-|Hb]|Hb]; apply Hin; [right; by left|by left|right; by right].
Qed.

Lemma copy_reg r x ctx bs v v' :
  get_reg v1 r = Ok x -> wrapped ctx (set_reg r x) v = (v', Ok tt) -> copied bs v -> copied (AReg r :: bs) v'.
Proof. intros Hr Hs%wrapped_ok%set_reg_stored. by apply (copied_store _ _ x v). Qed.

Lemma copy_sys r x ctx bs v v' :
  get_sys_reg v1 r = Ok x -> wrapped ctx (set_sys_reg r x) v = (v', Ok tt) -> copied bs v -> copied (ASys r :: bs) v'.
Proof. intros Hr Hs%wrapped_ok%set_sys_reg_stored. by apply (copied_store _ _ x v). Qed.

Lemma copy_gp regs bs v v' :
  read_gp_regs v1 = Ok regs -> write_gp_regs regs v = (v', Ok tt) -> copied bs v ->
  exists bs', copied bs' v' /\ forall b, In b (map AReg (x_table ++ [PC; CPSR])) \/ In b bs -> In b bs'.
Proof.
  unfold read_gp_regs, write_gp_regs.
  intros (xs & Hx & (sp & Hsp%map_err_ok & (pc & Hpc%map_err_ok & (ps & Hps%map_err_ok & [= <-])%let_ok_inv)%let_ok_inv)%let_ok_inv)%let_ok_inv.
  cbn [gp_x gp_sp gp_pc gp_pstate].
  intros ([] & v2 & H2 & ([] & v3 & H3 & ([] & v4 & H4 & H5)%st_bind_ok)%st_bind_ok)%st_bind_ok Hc.
  eapply (copy_table AReg) in H2 as (bs' & Hc' & Hin); [| |exact Hx|exact Hc].
  2: { intros a x Ha%map_err_ok bs0 w w' Hw. by eapply copy_reg. }
  apply (copy_sys _ _ _ _ _ _ Hsp H3) in Hc'. apply (copy_reg _ _ _ _ _ _ Hpc H4) in Hc'.
  apply (copy_reg _ _ _ _ _ _ Hps H5) in Hc'. eexists. split; [exact Hc'|].
  intros b. rewrite map_app, in_app_iff. cbn [map]. intros [[Hb|[<-|[<-|[]]]]|Hb];
    [do 3 right; apply Hin; by left|right; by left|by left|do 3 right; apply Hin; by right].
Qed.

Lemma copy_fp regs bs v v' :
  read_fp_simd v1 = Ok regs -> write_fp_simd regs v = (v', Ok tt) -> copied bs v ->
  exists bs', copied bs' v' /\ forall b, In b (map ASimd q_table ++ [AReg FPCR; AReg FPSR]) \/ In b bs -> In b bs'.
Proof.
  unfold read_fp_simd, write_fp_simd.
  intros (xs & Hx & (ctl & Hctl%map_err_ok & (st & Hst%map_err_ok & [= <-])%let_ok_inv)%let_ok_inv)%let_ok_inv.
  cbn [fp_v fp_fpcr fp_fpsr]. intros ([] & v2 & H2 & ([] & v3 & H3 & H4)%st_bind_ok)%st_bind_ok Hc.
  eapply (copy_table ASimd) in H2 as (bs' & Hc' & Hin); [| |exact Hx|exact Hc].
  2: { intros q x (raw & Hraw%map_err_ok & [= <-])%let_ok_inv bs0 w w' Hw%wrapped_ok Hc0.
       pose proof (get_simd_u128 _ _ _ Hraw) as Hu. rewrite join_split_u128 in Hw by done.
       apply set_simd_stored in Hw; [|done]. by eapply copied_store. }
  apply (copy_reg _ _ _ _ _ _ Hctl H3) in Hc'. apply (copy_reg _ _ _ _ _ _ Hst H4) in Hc'. eexists. split; [exact Hc'|].
  intros b. rewrite in_app_iff. intros [[Hb|[<-|[<-|[]]]]|Hb];
    [do 2 right; apply Hin; by left|right; by left|by left|do 2 right; apply Hin; by right].
Qed.

(** *** The system registers *)

(** The hypervisor register a system register is kept in. *)
Definition kept_in (reg : SysReg) : option AnyReg :=
  match map_to_hvf_sys_reg reg with
  | Some hvf => Some (ASys hvf)
  | None => option_map AReg (map_to_hvf_reg reg)
  end.

Lemma regs_insert_In k v m e : In e (regs_insert k v m) -> e = (k, v) \/ In e m.
Proof.
  induction m as [|[k' v'] m IH]; cbn; [intuition|]. destruct (k <? k'), (k =? k'); cbn; intuition.
Qed.

Lemma regs_get_In k v m : regs_get k m = Some v -> In (k, v) m.
Proof.
  induction m as [|[k' v'] m IH]; cbn; [done|]. destruct (Z.eqb_spec k k') as [->|]; [intros [= ->]; by left|].
  intros H. right. by apply IH.
Qed.

(** The entries a capture adds are readings, and every reading is an entry. *)
Lemma captured_sound {S} `{!VcpuSnapshotSource S} (source : S) regs : forall m0 m,
  capture_sys_regs source regs m0 = Ok m ->
  forall k x, In (k, x) m -> In (k, x) m0 \/ exists reg, k = as_encoded reg /\ src_read_sys_reg source reg = Ok (Some x).
Proof.
  induction regs as [|reg regs IH]; intros m0 m; cbn; [intros [= <-]; by left|].
  intros (o & Ho & Hm)%let_ok_inv k x Hin. apply (IH _ _ Hm) in Hin as [Hin|]; [|by right].
  destruct o as [v|]; [|by left]. apply regs_insert_In in Hin as [[= -> ->]|]; [right; by exists reg|by left].
Qed.

Lemma as_encoded_inj a b : as_encoded a = as_encoded b -> a = b.
Proof.
  destruct sysreg_wire_exact as [H _]. intros He. apply (f_equal from_encoded) in He.
  rewrite (proj2 (H a _) eq_refl), (proj2 (H b _) eq_refl) in He. congruence.
Qed.

Lemma captured_complete {S} `{!VcpuSnapshotSource S} (source : S) reg x :
  src_read_sys_reg source reg = Ok (Some x) ->
  forall regs m0 m, capture_sys_regs source regs m0 = Ok m ->
    regs_get (as_encoded reg) m0 = Some x \/ In reg regs -> regs_get (as_encoded reg) m = Some x.
Proof.
  intros Hx regs. induction regs as [|r regs IH]; intros m0 m; cbn; [intros [= <-] [|[]]; done|].
  intros (o & Ho & Hm)%let_ok_inv Hor. apply (IH _ _ Hm).
  assert (forall v, o = Some v -> r = reg -> v = x) as Hv by (intros v -> ->; congruence).
  destruct (decide (r = reg)) as [->|Hne].
  - left. assert (o = Some x) as -> by congruence. by rewrite regs_get_insert, Z.eqb_refl.
  - destruct Hor as [Hor|[Hr|Hr]]; [left|done|by right]. destruct o as [v|]; [|done].
    rewrite regs_get_insert, (proj2 (Z.eqb_neq _ _)); [done|]. intros He%as_encoded_inj. by subst.
Qed.

Lemma captured_ok {S} `{!VcpuSnapshotSource S} (source : S) reg regs : forall m0 m,
  capture_sys_regs source regs m0 = Ok m -> In reg regs -> exists o, src_read_sys_reg source reg = Ok o.
Proof.
  induction regs as [|r regs IH]; intros m0 m; cbn; [done|]. intros (o & Ho & Hm)%let_ok_inv [->|Hr]; [by exists o|].
  by eapply IH.
Qed.

(** Every system register the code names in the hypervisor is kept for some
    curated register. *)
Lemma kept_sys r : exists reg, map_to_hvf_sys_reg reg = Some r.
Proof.
  assert (In (Some r) (map map_to_hvf_sys_reg all_sys_regs)) as (reg & H & _)%in_map_iff by (destruct r; vm_compute; tauto).
  by exists reg.
Qed.

Lemma copy_sys_regs m : forall mp bs v s',
  (forall k x, In (k, x) m -> exists reg, k = as_encoded reg /\ read_sys_reg v1 reg = Ok (Some x)) ->
  restore_sys_regs m (mkHvfVcpu v mp) = (s', Ok tt) -> copied bs v ->
  exists bs', copied bs' (hs_vcpu s') /\
    forall b, In b bs \/ (exists reg x, In (as_encoded reg, x) m /\ kept_in reg = Some b) -> In b bs'.
Proof.
  induction m as [|[k x] m IH]; intros mp bs v s' Hm; cbn.
  { intros [= <-] Hc. exists bs. split; [done|]. intros b [|(? & ? & [] & _)]; done. }
  destruct (Hm k x (or_introl eq_refl)) as (reg & -> & Hr). destruct sysreg_wire_exact as [Hw _].
  rewrite (proj2 (Hw reg _) eq_refl). intros ([] & s2 & H1 & H2)%st_bind_ok Hc.
  unfold on_vcpu in H1. cbn [hs_vcpu hs_mpidr] in H1. destruct (write_sys_reg reg x v) as [v2 r2] eqn:Ew.
  injection H1 as <- ->.
  assert (exists bs2, copied bs2 v2 /\ forall b, In b bs \/ kept_in reg = Some b -> In b bs2) as (bs2 & Hc2 & Hin2).
  { unfold write_sys_reg, read_sys_reg, kept_in in *. destruct (map_to_hvf_sys_reg reg) as [h|].
    - apply let_ok_inv in Hr as (y & Hy%map_err_ok & [= ->]). apply (copy_sys _ _ _ _ _ _ Hy Ew) in Hc.
      eexists. split; [exact Hc|]. intros b [Hb|[= <-]]; [by right|by left].
    - destruct (map_to_hvf_reg reg) as [h|]; [|done].
      apply let_ok_inv in Hr as (y & Hy%map_err_ok & [= ->]). apply (copy_reg _ _ _ _ _ _ Hy Ew) in Hc.
      eexists. split; [exact Hc|]. intros b [Hb|[= <-]]; [by right|by left]. }
  destruct (IH _ _ _ _ (fun k x H => Hm k x (or_intror H)) H2 Hc2) as (bs3 & Hc3 & Hin3).
  exists bs3. split; [done|]. intros b [Hb|(reg' & x' & [[= Hk ->]|Hi] & Hkept)]; apply Hin3.
  - left. apply Hin2. by left.
  - apply as_encoded_inj in Hk as ->. left. apply Hin2. by right.
  - right. by exists reg', x'.
Qed.

End copy.

(** C17: A restored vCPU is the captured one.  When the state captured from one
    vCPU is restored into another and every write succeeds, all general-purpose,
    control and SIMD registers and all curated system registers the hypervisor
    exposes read as they did on the first. *)
Theorem vcpu_restore_exact {V E : Type} `{!VirtualCpu V E, !VirtualCpuLaws V E} (v1 v2 : V) mp1 mp2 state index s :
  capture_vcpu_state (mkHvfVcpu v1 mp1) = Ok state ->
  restore_vcpu_state state index (mkHvfVcpu v2 mp2) = (s, Ok tt) ->
  vs_mpidr state = mp1 /\ (forall r, get_reg (hs_vcpu s) r = get_reg v1 r) /\
  (forall r, get_sys_reg (hs_vcpu s) r = get_sys_reg v1 r) /\
  (forall q, get_simd_fp_reg (hs_vcpu s) q = get_simd_fp_reg v1 q).
Proof.
  unfold capture_vcpu_state, restore_vcpu_state.
  intros (regs & Hg & (fp & Hf & (m & Hm & [= <-])%let_ok_inv)%let_ok_inv)%let_ok_inv.
  cbn [vs_regs vs_fp_regs vs_sys_regs vs_mpidr src_mpidr hvf_source hs_mpidr].
  intros ([] & s2 & H2 & ([] & s3 & H3 & ([] & s4 & H4 & ([] & s5 & [= ->] & [= ->])%st_bind_ok)%st_bind_ok)%st_bind_ok)%st_bind_ok.
  cbn in H2, H3. unfold on_vcpu in H2, H3. cbn [hs_vcpu hs_mpidr] in H2.
  destruct (write_gp_regs regs v2) as [w2 r2] eqn:E2. injection H2 as <- ->. cbn [hs_vcpu hs_mpidr] in H3.
  destruct (write_fp_simd fp w2) as [w3 r3] eqn:E3. injection H3 as <- ->.
  destruct (copy_gp v1 regs [] _ _ Hg E2 ltac:(constructor)) as (b2 & C2 & I2).
  destruct (copy_fp v1 fp b2 _ _ Hf E3 C2) as (b3 & C3 & I3).
  assert (forall reg x, read_sys_reg v1 reg = Ok (Some x) -> In (as_encoded reg, x) m) as Hall.
  { intros reg x Hx. apply regs_get_In. eapply (captured_complete (mkHvfVcpu v1 mp1)); [exact Hx|exact Hm|].
    right. apply sysreg_wire_exact. }
  eapply (copy_sys_regs v1) in H4 as (b4 & C4 & I4); [| |exact C3].
  2: { intros k x Hin. by destruct (captured_sound _ _ _ _ Hm k x Hin) as [[]|]. }
  unfold copied in C4. rewrite List.Forall_forall in C4.
  split; [done|]. split_and!.
  - intros r. apply (C4 (AReg r)), I4. left. apply I3. destruct r; first [by right; apply I2; left; vm_compute; tauto | left; vm_compute; tauto].
  - intros r. destruct (kept_sys r) as [reg Hk]. apply (C4 (ASys r)), I4. right. exists reg.
    destruct (captured_ok _ reg _ _ _ Hm (proj1 (proj2 sysreg_wire_exact) reg)) as [o Ho]. cbn in Ho.
    assert (exists x, o = Some x) as [x ->].
    { unfold read_sys_reg in Ho. rewrite Hk in Ho. apply let_ok_inv in Ho as (x & _ & [= <-]). by exists x. }
    exists x. split; [by apply Hall|]. unfold kept_in. by rewrite Hk.
  - intros q. apply (C4 (ASimd q)), I4. left. apply I3. left. destruct q; vm_compute; tauto.
Qed.

(** A vCPU whose registers are cells. *)
Record CellCpu := mkCells { cc_reg : HvfReg -> Z; cc_sys : HvfSysReg -> Z; cc_simd : SimdFpReg -> Z }.

#[export] Instance cell_cpu : VirtualCpu CellCpu unit := {
  get_reg v r := Ok (cc_reg v r);
  set_reg r x v := (mkCells (fun r' => if decide (r' = r) then x else cc_reg v r') (cc_sys v) (cc_simd v), Ok tt);
  get_sys_reg v r := Ok (cc_sys v r);
  set_sys_reg r x v := (mkCells (cc_reg v) (fun r' => if decide (r' = r) then x else cc_sys v r') (cc_simd v), Ok tt);
  get_simd_fp_reg v q := Ok (wrap 128 (cc_simd v q));
  set_simd_fp_reg q x v := (mkCells (cc_reg v) (cc_sys v) (fun q' => if decide (q' = q) then x else cc_simd v q'), Ok tt);
  hv_debug _ := []
}.

#[export] Instance cell_cpu_laws : VirtualCpuLaws CellCpu unit.
Proof.
  split.
  - intros r x v v' [= <-] [b|b|b]; cbn; [by case_decide; case_decide; simplify_eq|done|done].
  - intros r x v v' [= <-] [b|b|b]; cbn; [done|by case_decide; case_decide; simplify_eq|done].
  - intros q x v v' Hx [= <-] [b|b|b]; cbn; [done|done|].
    case_decide; case_decide; simplify_eq; try done. by rewrite wrap_small.
  - intros q v x [= <-]. apply wrap_in_u. lia.
Qed.

Definition running_cpu : CellCpu := mkCells (fun _ => 0x40) (fun _ => 0x11) (fun _ => 2 ^ 100 + 5).
Definition reset_cpu : CellCpu := mkCells (fun _ => 0) (fun _ => 0) (fun _ => 0).

Lemma vcpu_restore_exact_witness :
  exists state s, capture_vcpu_state (mkHvfVcpu running_cpu 0) = Ok state /\
    restore_vcpu_state state 1 (mkHvfVcpu reset_cpu 1) = (s, Ok tt) /\
    get_reg (hs_vcpu s) PC = Ok 0x40 /\ get_sys_reg (hs_vcpu s) TTBR0_EL1 = Ok 0x11 /\
    get_simd_fp_reg (hs_vcpu s) Q7 = Ok (2 ^ 100 + 5).
Proof.
  destruct (capture_vcpu_state (mkHvfVcpu running_cpu 0)) as [state|e] eqn:Hc;
    [|exfalso; vm_compute in Hc; discriminate Hc].
  destruct (restore_vcpu_state state 1 (mkHvfVcpu reset_cpu 1)) as [s r] eqn:Hr.
  assert (r = Ok tt) as ->.
  { assert (match capture_vcpu_state (mkHvfVcpu running_cpu 0) with
            | Ok st => snd (restore_vcpu_state st 1 (mkHvfVcpu reset_cpu 1)) | Err e => Err e end = Ok tt) as H
      by (vm_compute; reflexivity).
    rewrite Hc, Hr in H. exact H. }
  destruct (vcpu_restore_exact running_cpu reset_cpu 0 1 state 1 s Hc Hr) as (_ & Hg & Hs & Hq).
  exists state, s. split; [reflexivity|]. split; [exact Hr|].
  rewrite Hg, Hs, Hq. split; [reflexivity|]. split; [reflexivity|]. vm_compute. reflexivity.
Defined.

(** ** The interrupt controller and the metadata store *)

(** The static VM instance of [applevisor] and its GIC state handles; [get] fills a
    buffer of the length it is given. *)
Class GicStateApi (W G E : Type) := {
  vm_get_gic : W -> bool;
  gic_state_create : stm W E G;
  gic_state_size : G -> result E nat;
  gic_state_get : G -> nat -> result E (list Z);
  gic_state_set : G -> list Z -> stm W E unit;
  gic_debug : E -> list Z
}.

Section gic.
Context {W G E : Type} `{!GicStateApi W G E}.

Definition gic_err (ctx : list Z) (e : E) : SnapshotError := Capture (lit "HVF " ++ ctx ++ lit ": " ++ gic_debug e).

(** [HvfGicSnapshot::new]. *)
Definition HvfGicSnapshot_new : stm W SnapshotError G :=
  fun w => if vm_get_gic w then let (w', r) := gic_state_create w in (w', map_err (gic_err (lit "gic_state_create")) r)
           else (w, Err (Capture (lit "HVF VM not yet initialised"))).

(** [capture] draws from a fresh handle. *)
Definition gic_capture : stm W SnapshotError (list Z) :=
  let! state := HvfGicSnapshot_new in
  fun w => (w, let? size := map_err (gic_err (lit "gic_state size")) (gic_state_size state) in
               map_err (gic_err (lit "gic_state get")) (gic_state_get state size)).

Definition gic_restore (state : G) (data : list Z) : stm W SnapshotError unit :=
  fun w => let (w', r) := gic_state_set state data w in (w', map_err (gic_err (lit "gic_state set")) r).

End gic.

(** [InProcMmdsSnapshot]: a cell. *)
Record InProcMmdsSnapshot := mkInProcMmds { ip_state : option MmdsState }.

Definition mmds_snapshot_set (state : option MmdsState) (s : InProcMmdsSnapshot) : InProcMmdsSnapshot := mkInProcMmds state.

Definition mmds_snapshot_capture (s : InProcMmdsSnapshot) : result SnapshotError (option MmdsState) := Ok (ip_state s).

Definition mmds_snapshot_restore (state : option MmdsState) : stm InProcMmdsSnapshot SnapshotError unit :=
  fun _ => (mkInProcMmds state, Ok tt).

(** The trait says that restoring from a snapshot without metadata leaves the store
    as it is; this implementation clears it. *)
Example mmds_restore_none_clears m :
  mmds_snapshot_restore None (mkInProcMmds (Some m)) = (mkInProcMmds None, Ok tt).
Proof. reflexivity. Qed.
