(* ===== verification/Pager.v ===== *)
(** * Pager: serving guest pages from a snapshot on demand

    Models [src/crates/host/src/pager.rs]: the page sources (the memory file on
    disk and the page server on a socket), the pager with its regions and
    counters, and the two server loops of the Mach thread.  The socket and the
    Mach kernel are the classes [PageSocket] and [Mach]; the text of an open error
    is kept as what it is formatted from. *)

From stdpp Require Import base numbers list option gmap strings.
From Stdlib Require Import ZArith Lia.
From S2P Require Import Prelude Text Prog SnapError Dirty Paths Disk SnapState Envelope Snapshot.

Local Open Scope Z_scope.
Local Open Scope squib_scope.

(** ** Requests and errors *)

(** [poll_interval] in nanoseconds. *)
Record PagerConfig := mkPagerConfig { pc_poll_interval : Z; pc_prewarm : list Z }.

Definition PagerConfig_default : PagerConfig := mkPagerConfig 1000000000 [].

Definition from_boot_critical (kernel_text_ipa vcpu0_stack_ipa fdt_ipa : Z) : list Z :=
  [kernel_text_ipa; vcpu0_stack_ipa; fdt_ipa].

Record PageRequest := mkPageRequest { rq_ipa : Z; rq_page_size : Z }.

Inductive OpenError :=
  | OpenFile (path : list Z) (e : IoError)
  | Connect (path : list Z) (e : IoError)
  | BelowRam (ipa ram_start : Z)
  | ProtocolViolation (ipa size echo_ipa echo_size : Z).

Inductive PageSourceError :=
  | Short (got expected : Z)
  | Open (what : OpenError)
  | SourceIo (e : IoError).

(** Where pages come from: [fetch] may change the state of the source. *)
Class PageSource (S : Type) := { ps_fetch : PageRequest -> prog S PageSourceError (list Z) }.

(** ** The memory file *)

Record FilePageSource := mkFileSource { fs_file : nat; fs_ram_start : Z }.

Definition FilePageSource_open (path : list Z) (ram_start : Z) : prog Disk PageSourceError FilePageSource :=
  let* file := p_map_err (fun e => Open (OpenFile path e)) (open_read path) in
  p_ret (mkFileSource file ram_start).

(** [x & !(page_size - 1)]. *)
Definition page_floor (x page_size : Z) : Z := Z.land x (wnot 64 (wrap 64 (page_size - 1))).

Definition file_fetch (src : FilePageSource) (req : PageRequest) : prog Disk PageSourceError (list Z) :=
  if rq_ipa req <? fs_ram_start src then p_fail (Open (BelowRam (rq_ipa req) (fs_ram_start src)))
  else
    let offset := rq_ipa req - fs_ram_start src in
    let aligned := page_floor offset (rq_page_size req) in
    let* read := p_map_err SourceIo (pread (fs_file src) (Z.to_nat (rq_page_size req)) aligned) in
    if zlen read <? rq_page_size req then p_fail (Short (zlen read) (rq_page_size req)) else p_ret read.

#[export] Instance file_source : PageSource (Disk * FilePageSource) := {
  ps_fetch req st := p_zoom (file_fetch st.2 req) st
}.

(** ** The page server *)

(** [UnixStream]: [write_all] and [read_exact]. *)
Class PageSocket (K : Type) := {
  sock_write_all : list Z -> stm K IoError unit;
  sock_read_exact : nat -> stm K IoError (list Z)
}.

Definition sock_prog {K A} (c : stm K IoError A) : prog K PageSourceError A :=
  fun k => let (k', r) := c k in Some (k', map_err SourceIo r).

Definition uffd_fetch {K} `{!PageSocket K} (req : PageRequest) : prog K PageSourceError (list Z) :=
  let* _ := sock_prog (sock_write_all (le_bytes 8 (rq_ipa req))) in
  let* _ := sock_prog (sock_write_all (le_bytes 8 (rq_page_size req))) in
  let* hdr := sock_prog (sock_read_exact 16) in
  let echo_ipa := le_val (slice 0 8 hdr) in
  let echo_size := le_val (slice 8 8 hdr) in
  if negb (echo_ipa =? rq_ipa req) || negb (echo_size =? rq_page_size req) then
    p_fail (Open (ProtocolViolation (rq_ipa req) (rq_page_size req) echo_ipa echo_size))
  else sock_prog (sock_read_exact (Z.to_nat (rq_page_size req))).

#[export] Instance uffd_source {K} `{!PageSocket K} : PageSource K := { ps_fetch := uffd_fetch }.

(** ** The pager *)

Record PagerStats := mkStats {
  st_faults : Z;
  st_prewarmed : Z;
  st_port_reinstalls : Z;
  st_forwarded_exceptions : Z
}.

Inductive PagerError :=
  | OutOfRegion (ipa : Z)
  | Source (e : PageSourceError)
  | MachError (call : list Z) (kr : Z)
  | Spawn (e : IoError).

(** [regions] maps the base of a region to its size. *)
Record Pager (S : Type) := mkPager {
  pg_source : S;
  pg_config : PagerConfig;
  pg_regions : RegMap;
  pg_stats : PagerStats;
  pg_shutdown : bool
}.
Arguments mkPager {S}.
Arguments pg_source {S}.
Arguments pg_config {S}.
Arguments pg_regions {S}.
Arguments pg_stats {S}.
Arguments pg_shutdown {S}.

Definition region_contains (region : Z * Z) (ipa : Z) : bool :=
  (region.1 <=? ipa) && (ipa <? saturating_add 64 region.1 region.2).

Definition host_page_size : Z := 16 * 1024.

Section pager.
Context {S : Type} `{!PageSource S}.

Definition Pager_new (source : S) (config : PagerConfig) : Pager S :=
  mkPager source config [] (mkStats 0 0 0 0) false.

Definition register_region (base size : Z) (p : Pager S) : Pager S :=
  mkPager (pg_source p) (pg_config p) (regs_insert base size (pg_regions p)) (pg_stats p) (pg_shutdown p).

Definition contains_ipa (p : Pager S) (ipa : Z) : bool :=
  existsb (fun r => region_contains r ipa) (pg_regions p).

Definition with_source (p : Pager S) (source : S) (stats : PagerStats) : Pager S :=
  mkPager source (pg_config p) (pg_regions p) stats (pg_shutdown p).

Definition add_fault (s : PagerStats) : PagerStats :=
  mkStats (wadd 64 (st_faults s) 1) (st_prewarmed s) (st_port_reinstalls s) (st_forwarded_exceptions s).

Definition add_prewarmed (s : PagerStats) : PagerStats :=
  mkStats (st_faults s) (wadd 64 (st_prewarmed s) 1) (st_port_reinstalls s) (st_forwarded_exceptions s).

Definition serve_fault (ipa page_size : Z) : prog (Pager S) PagerError (list Z) :=
  fun p =>
    if negb (contains_ipa p ipa) then Some (p, Err (OutOfRegion ipa))
    else
      match ps_fetch (mkPageRequest (page_floor ipa page_size) page_size) (pg_source p) with
      | None => None
      | Some (source, Err e) => Some (with_source p source (pg_stats p), Err (Source e))
      | Some (source, Ok bytes) => Some (with_source p source (add_fault (pg_stats p)), Ok bytes)
      end.

(** The loop of [prewarm]. *)
Fixpoint prewarm_pages (pages : list Z) : prog (Pager S) PagerError unit :=
  match pages with
  | [] => p_ret tt
  | ipa :: pages' =>
      let* _ := serve_fault ipa host_page_size in
      fun p => prewarm_pages pages' (with_source p (pg_source p) (add_prewarmed (pg_stats p)))
  end.

Definition prewarm : prog (Pager S) PagerError unit := fun p => prewarm_pages (pc_prewarm (pg_config p)) p.

Definition request_shutdown (p : Pager S) : Pager S :=
  mkPager (pg_source p) (pg_config p) (pg_regions p) (pg_stats p) true.

Definition record_port_reinstall (p : Pager S) : Pager S :=
  with_source p (pg_source p)
    (mkStats (st_faults (pg_stats p)) (st_prewarmed (pg_stats p)) (wadd 64 (st_port_reinstalls (pg_stats p)) 1)
             (st_forwarded_exceptions (pg_stats p))).

Definition record_forwarded (p : Pager S) : Pager S :=
  with_source p (pg_source p)
    (mkStats (st_faults (pg_stats p)) (st_prewarmed (pg_stats p)) (st_port_reinstalls (pg_stats p))
             (wadd 64 (st_forwarded_exceptions (pg_stats p)) 1)).

End pager.

(** ** The Mach server thread *)

(** What the thread sees of its world: the kernel's calls with their return codes,
    the clock and the shutdown flag, which other threads change. *)
Class Mach (W : Type) := {
  mk_kern_success : Z;
  mk_rcv_msg : Z;
  mk_rcv_timeout : Z;
  mk_rcv_too_large : Z;
  mk_timeout_none : Z;
  mk_exc_bad_access : Z;
  mach_port_allocate : W -> W * (Z * Z);
  mach_port_deallocate : W -> Z -> W * Z;
  task_swap_exception_ports : W -> Z -> Z -> W * Z;
  task_get_exception_ports : W -> Z -> W * (Z * list (Z * Z));
  mach_msg : W -> Z -> Z -> Z -> W * Z;
  instant_now : W -> W * Z;
  park_timeout : W -> Z -> W;
  shutting_down : W -> W * bool
}.

Inductive ServerLog :=
  | ReceivedException
  | PollTimeout
  | OversizeDropped
  | UnexpectedReturn (kr : Z)
  | DriftDetected
  | DriftFailed (kr : Z)
  | DeallocateFailed (kr : Z)
  | ServerExiting.

Section server.
Context {W : Type} `{!Mach W}.

Definition allocate_receive_port : stm W Z Z :=
  fun w => let '(w', (kr, port)) := mach_port_allocate w in
           (w', if kr =? mk_kern_success then Ok port else Err kr).

Definition install_exception_port (port : Z) : stm W Z unit :=
  fun w => let (w', kr) := task_swap_exception_ports w mk_exc_bad_access port in
           (w', if kr =? mk_kern_success then Ok tt else Err kr).

(** [drift_check_live], with whether it found the ports changed. *)
Definition drift_check_live (our_port : Z) : stm W Z bool :=
  fun w =>
    let '(w1, (kr, ports)) := task_get_exception_ports w mk_exc_bad_access in
    if negb (kr =? mk_kern_success) then (w1, Err kr)
    else if existsb (fun e => negb (Z.land e.1 mk_exc_bad_access =? 0) && negb (e.2 =? our_port)) ports then
      (let! _ := install_exception_port our_port in st_ret true) w1
    else (w1, Ok false).

Definition recv_one (port timeout_ms : Z) : W -> W * Z :=
  fun w =>
    if timeout_ms =? 0 then mach_msg w mk_rcv_msg port mk_timeout_none
    else mach_msg w (Z.lor mk_rcv_msg mk_rcv_timeout) port timeout_ms.

(** [u32::try_from(poll_interval.as_millis()).unwrap_or(u32::MAX)]. *)
Definition timeout_millis (poll_interval : Z) : Z :=
  let ms := poll_interval / 1000000 in if ms <? 2 ^ 32 then ms else 2 ^ 32 - 1.

Definition recv_log (kr : Z) : ServerLog :=
  if kr =? mk_kern_success then ReceivedException
  else if kr =? mk_rcv_timeout then PollTimeout
  else if kr =? mk_rcv_too_large then OversizeDropped
  else UnexpectedReturn kr.

(** What the drift check logs. *)
Definition drift_log (r : result Z bool) : list ServerLog :=
  match r with
  | Ok true => [DriftDetected]
  | Ok false => []
  | Err kr => [DriftFailed kr]
  end.

(** One round of the server loop; the loop state is the time of the last drift
    check, the store the world and the log, latest first. *)
Definition live_round (poll_interval our_port : Z) (last_drift_check : Z)
  : prog (W * list ServerLog) PagerError (Z + unit) :=
  fun '(w, log) =>
    let (w, stop) := shutting_down w in
    if stop then Some ((w, log), Ok (inr tt))
    else
      let (w, kr) := recv_one our_port (timeout_millis poll_interval) w in
      let log := recv_log kr :: log in
      let (w, now) := instant_now w in
      if poll_interval <=? now - last_drift_check then
        let (w, r) := drift_check_live our_port w in
        let (w, now) := instant_now w in
        Some ((w, drift_log r ++ log), Ok (inl now))
      else Some ((w, log), Ok (inl last_drift_check)).

Definition run_live_server (budget : nat) (poll_interval : Z) : prog (W * list ServerLog) PagerError unit :=
  fun '(w, log) =>
    match allocate_receive_port w with
    | (w, Err kr) => Some ((w, log), Err (MachError (lit "mach_port_allocate") kr))
    | (w, Ok our_port) =>
        match install_exception_port our_port w with
        | (w, Err kr) => Some ((w, log), Err (MachError (lit "task_swap_exception_ports install") kr))
        | (w, Ok _) =>
            let (w, now) := instant_now w in
            match p_loop budget (live_round poll_interval our_port) now (w, log) with
            | Some ((w, log), Ok _) =>
                let (w, kr) := mach_port_deallocate w our_port in
                Some ((w, ServerExiting :: (if kr =? mk_kern_success then log else DeallocateFailed kr :: log)), Ok tt)
            | other => other
            end
        end
    end.

(** The default build's loop: parks and checks nothing. *)
Definition skeleton_round (poll_interval : Z) (last_drift_check : Z) : prog W PagerError (Z + unit) :=
  fun w =>
    let (w, stop) := shutting_down w in
    if stop then Some (w, Ok (inr tt))
    else
      let w := park_timeout w poll_interval in
      let (w, now) := instant_now w in
      if poll_interval <=? now - last_drift_check then
        let (w, now) := instant_now w in Some (w, Ok (inl now))
      else Some (w, Ok (inl last_drift_check)).

Definition run_skeleton_loop (budget : nat) (poll_interval : Z) : prog W PagerError unit :=
  fun w => let (w, now) := instant_now w in p_loop budget (skeleton_round poll_interval) now w.

End server.

(** ** Faults served from a saved memory file *)

Lemma page_floor_eq x k : 0 <= k < 64 -> in_u 64 x -> page_floor x (2 ^ k) = x - x mod 2 ^ k.
Proof.
  intros Hk Hx. unfold page_floor. rewrite wrap_small; [by apply land_wnot_align|].
  pose proof (Z.pow_pos_nonneg 2 k ltac:(lia) ltac:(lia)). pose proof (Z.pow_lt_mono_r 2 k 64). unfold in_u. lia.
Qed.

(** One [pread]: the bytes at the offset, unless the script interferes. *)
Lemma pread_spec h i pos c n off d :
  contains h i pos c d ->
  wp (pread h n off) (fun d' r => touches h i d d' /\
    (r = Ok (take n (drop (Z.to_nat off) c)) \/ (dk_script d <> [] /\
      match r with Ok bs => exists m, (m <= n)%nat /\ bs = take m (drop (Z.to_nat off) c) | Err _ => True end))) d.
Proof.
  intros [b Hh]. unfold wp, pread. destruct (next_outcome d) as [d1 o] eqn:Eo.
  pose proof (next_outcome_touches h i _ _ _ Eo) as Ht. pose proof (next_outcome_holds _ _ _ _ _ _ _ Eo Hh) as Hh1.
  assert (o <> Proceeds -> dk_script d <> []) as Ho.
  { unfold next_outcome in Eo. destruct (dk_script d); [by injection Eo as _ <-|done]. }
  destruct o as [|k|e]; [| |split; [done|]; right; by split; [apply Ho|]];
    rewrite (on_fd_holds _ _ _ _ _ _ Hh1); cbn [f_bytes]; (split; [done|]); [by left|].
  right. split; [by apply Ho|]. eexists. split; [|done]. lia.
Qed.

Section lazy_restore.
Context {h i : nat} {pos ram_start k : Z} {c : list Z}.
Context (Hk : 0 <= k < 64) (Hstart : 0 <= ram_start) (Hend : ram_start + zlen c < 2 ^ 64).
Context (Hal : ram_start mod 2 ^ k = 0) (Hlen : zlen c mod 2 ^ k = 0).

(** The page of an address is inside the file. *)
Lemma page_in_file ipa :
  ram_start <= ipa < ram_start + zlen c ->
  let off := ipa - ipa mod 2 ^ k - ram_start in
  0 <= off /\ off + 2 ^ k <= zlen c /\ page_floor (page_floor ipa (2 ^ k) - ram_start) (2 ^ k) = off /\
  page_floor ipa (2 ^ k) = off + ram_start.
Proof.
  intros Hipa off. pose proof (Z.pow_pos_nonneg 2 k ltac:(lia) ltac:(lia)) as Hp.
  pose proof (Z.mod_pos_bound ipa (2 ^ k) Hp). pose proof (Z.div_mod ipa (2 ^ k) ltac:(lia)).
  pose proof (Z.div_mod ram_start (2 ^ k) ltac:(lia)). pose proof (Z.div_mod (zlen c) (2 ^ k) ltac:(lia)).
  assert (off = (ipa / 2 ^ k - ram_start / 2 ^ k) * 2 ^ k) as Hoff by (unfold off; lia).
  pose proof (Z.div_le_mono ram_start ipa (2 ^ k) Hp ltac:(lia)).
  assert (ipa / 2 ^ k < ram_start / 2 ^ k + zlen c / 2 ^ k) by (apply Z.div_lt_upper_bound; lia).
  assert (0 <= off) as Hlo by (rewrite Hoff; nia).
  assert (off + 2 ^ k <= zlen c) as Hhi by (rewrite Hoff; nia).
  rewrite (page_floor_eq ipa) by (unfold in_u; lia). fold off.
  split_and!; [done|done| |unfold off; lia]. rewrite page_floor_eq by (unfold in_u; lia).
  rewrite Hoff at 2. rewrite Z.mod_mul by lia. lia.
Qed.

(** A fault in the region gets the page of the file, or an error of the host. *)
Lemma serve_from_file (p : Pager (Disk * FilePageSource)) ipa :
  contains h i pos c (pg_source p).1 -> (pg_source p).2 = mkFileSource h ram_start ->
  contains_ipa p ipa = true -> ram_start <= ipa < ram_start + zlen c ->
  wp (serve_fault ipa (2 ^ k)) (fun p' r =>
    (r = Ok (slice (Z.to_nat (ipa - ipa mod 2 ^ k - ram_start)) (Z.to_nat (2 ^ k)) c) /\
     st_faults (pg_stats p') = wadd 64 (st_faults (pg_stats p)) 1) \/
    (dk_script (pg_source p).1 <> [] /\ (exists e, r = Err (Source e)) /\ pg_stats p' = pg_stats p)) p.
Proof.
  intros Hc Hs Hin Hipa. destruct (page_in_file ipa Hipa) as (Hlo & Hhi & Hf & Hfl).
  set (off := ipa - _ - _) in *. pose proof (Z.pow_pos_nonneg 2 k ltac:(lia) ltac:(lia)) as Hp.
  unfold wp, serve_fault. rewrite Hin. cbn [negb ps_fetch file_source]. unfold p_zoom. rewrite Hs.
  unfold file_fetch. cbn [rq_ipa rq_page_size fs_ram_start fs_file]. rewrite Hf.
  rewrite (proj2 (Z.ltb_ge (page_floor ipa (2 ^ k)) ram_start)) by lia. unfold p_bind, p_map_err.
  assert (zlen (slice (Z.to_nat off) (Z.to_nat (2 ^ k)) c) = 2 ^ k) as Hz.
  { unfold zlen, slice in *. rewrite length_take, length_drop. lia. }
  destruct (wp_total _ _ _ (pread_spec h i pos c (Z.to_nat (2 ^ k)) off _ Hc)) as (d' & r & -> & _ & Hr).
  destruct Hr as [->|[Hne Hr]]; cbn [map_err].
  - fold (slice (Z.to_nat off) (Z.to_nat (2 ^ k)) c). rewrite Hz, Z.ltb_irrefl. cbn. by left.
  - destruct r as [bs|e]; cbn; [|right; split_and!; [done|by eexists|done]].
    destruct (Z.ltb_spec (zlen bs) (2 ^ k)) as [Hlt|Hge]; cbn; [right; split_and!; [done|by eexists|done]|].
    left. split; [|done]. destruct Hr as (n & Hn & ->). unfold zlen in Hge. rewrite length_take in Hge.
    by replace n with (Z.to_nat (2 ^ k)) by lia.
Qed.

End lazy_restore.

Lemma file_source_open path start f d d' src :
  at_path (dk_now d) path = Some f -> FilePageSource_open path start d = Some (d', Ok src) ->
  exists h i, src = mkFileSource h start /\ contains h i 0 (f_bytes f) d'.
Proof.
  unfold at_path. destruct (im_dir (dk_now d) !! path) as [i|] eqn:Ei; [|done]. cbn. intros Hi Ho.
  assert (wp (FilePageSource_open path start) (fun d' r => forall src, r = Ok src ->
    exists h i, src = mkFileSource h start /\ contains h i 0 (f_bytes f) d') d) as Hw.
  { unfold FilePageSource_open. repeat wp_step. wp_use open_read_spec; [exact Ei|exact Hi|].
    intros d1 [h|e] Hr; cbn [map_err]; [|done]. apply wp_ret. intros ? [= <-]. exists h, i. by destruct Hr. }
  unfold wp in Hw. rewrite Ho in Hw. by apply Hw.
Qed.

Section theorems.
Context {R : Type} `{!PageReader R, !PageReaderLaws R, !Codec MicrovmState, !Crc, !CodecLaws MicrovmState, !CrcLaws}.

(** C18: A lazy restore serves the saved memory.  A full save succeeds, the pager
    opens its memory file and registers the guest's RAM, page-aligned at both
    ends.  Then the fault of any address in the RAM is answered with exactly the
    saved memory's page, and counted; only a failing or short read of the host
    makes it an error. *)
Theorem lazy_restore_exact (req : SaveRequest R) d d1 rep start k cfg d2 src ipa :
  names_wf (dk_now d) -> request_ok req -> sr_kind req = Full -> save req d = Some (d1, Ok rep) ->
  FilePageSource_open (sr_memory_path req) start d1 = Some (d2, Ok src) ->
  0 <= k < 64 -> 0 <= start -> start mod 2 ^ k = 0 -> sr_ram_size req mod 2 ^ k = 0 ->
  start + sr_ram_size req < 2 ^ 64 -> start <= ipa < start + sr_ram_size req ->
  exists p' r, serve_fault ipa (2 ^ k) (register_region start (sr_ram_size req) (Pager_new (d2, src) cfg)) = Some (p', r) /\
    ((r = Ok (slice (Z.to_nat (ipa - ipa mod 2 ^ k - start)) (Z.to_nat (2 ^ k)) (pr_memory (sr_memory req))) /\
      st_faults (pg_stats p') = 1) \/
     (dk_script d2 <> [] /\ exists e, r = Err (Source e))).
Proof.
  intros Hw Hreq Hk Hs Ho H1 H2 H3 H4 H5 Hipa.
  destruct (wp_total _ _ _ (save_spec req Hreq d Hw)) as (d1' & r1 & Hs1 & _ & Hr1).
  rewrite Hs in Hs1. injection Hs1 as <- <-. destruct Hr1 as [_ (c & Hc & Hat)].
  unfold memory_image in Hc. rewrite Hk in Hc. destruct Hc as [Hlen ->].
  pose proof (rq_ram _ Hreq) as Hram. set (mem := pr_memory _) in *.
  assert (zlen (take (Z.to_nat (sr_ram_size req)) mem) = sr_ram_size req) as Hz.
  { unfold zlen, in_u in *. rewrite length_take. lia. }
  destruct (file_source_open _ _ _ _ _ _ Hat Ho) as (h & i & -> & Hcon). cbn [f_bytes] in Hcon.
  set (p := register_region _ _ _).
  destruct (wp_total _ _ _ (serve_from_file (h := h) (i := i) (pos := 0) (ram_start := start) (k := k)
    (c := take (Z.to_nat (sr_ram_size req)) mem) H1 H2 ltac:(lia) H3 ltac:(by rewrite Hz) p ipa Hcon eq_refl
    ltac:(unfold p, contains_ipa, region_contains, saturating_add, in_u in *; cbn; lia) ltac:(lia)))
    as (p' & r & Hp & Hr).
  exists p', r. split; [exact Hp|]. destruct Hr as [[-> Hf]|(Hne & He & _)]; [left|right; done].
  split; [|exact Hf]. f_equal. destruct (page_in_file (k := k) (ram_start := start) (c := take (Z.to_nat (sr_ram_size req)) mem)
    H1 H2 ltac:(lia) H3 ltac:(by rewrite Hz) ipa ltac:(lia)) as (Hlo & Hhi & _).
  unfold slice. rewrite skipn_firstn_comm, take_take. f_equal. lia.
Qed.

End theorems.

#[local] Existing Instance demo_codec.
#[local] Existing Instance demo_codec_laws.

(** The demo save, its memory file opened for a guest at two gigabytes, and a
    fault on its fourteenth byte. *)
Lemma lazy_restore_exact_witness :
  exists d1 rep d2 src p' r, save demo_full (demo_disk []) = Some (d1, Ok rep) /\
    FilePageSource_open demo_mem 0x80000000 d1 = Some (d2, Ok src) /\
    serve_fault 0x8000000D (2 ^ 3) (register_region 0x80000000 40 (Pager_new (d2, src) PagerConfig_default)) = Some (p', r) /\
    ((r = Ok (slice 8 8 demo_memory) /\ st_faults (pg_stats p') = 1) \/ (dk_script d2 <> [] /\ exists e, r = Err (Source e))).
Proof.
  destruct (save demo_full (demo_disk [])) as [[d1 [rep|e]]|] eqn:Hs;
    [|exfalso; apply (f_equal (option_map snd)) in Hs; vm_compute in Hs; discriminate Hs|
      exfalso; apply (f_equal (option_map snd)) in Hs; vm_compute in Hs; discriminate Hs].
  destruct (FilePageSource_open demo_mem 0x80000000 d1) as [[d2 [src|e]]|] eqn:Ho.
  2, 3: exfalso; assert (match save demo_full (demo_disk []) with
      | Some (d, _) => option_map (fun x => is_ok x.2) (FilePageSource_open demo_mem 0x80000000 d) | None => None end = Some true) as Hc
      by (vm_compute; reflexivity); rewrite Hs, Ho in Hc; discriminate Hc.
  destruct (lazy_restore_exact demo_full (demo_disk []) d1 rep 0x80000000 3 PagerConfig_default d2 src 0x8000000D
    demo_image_wf demo_full_ok eq_refl Hs Ho) as (p' & r & Hp & Hr);
    [lia|lia|reflexivity|reflexivity|reflexivity|cbn; lia|].
  exists d1, rep, d2, src, p', r. split; [reflexivity|]. split; [exact Ho|]. split; [exact Hp|exact Hr].
Defined.

(** ** The page server's protocol *)

(** A server that answers each request of sixteen bytes with the request and the
    page, over a connection with what it has not read and what the client has not
    read. *)
Record ServerConn := mkConn { sc_unread : list Z; sc_replies : list Z }.

Section protocol.
Context (page : Z -> Z -> list Z).

Definition server_reply (request : list Z) : list Z :=
  request ++ page (le_val (slice 0 8 request)) (le_val (slice 8 8 request)).

Definition server_step (c : ServerConn) : ServerConn :=
  if (16 <=? length (sc_unread c))%nat
  then mkConn (drop 16 (sc_unread c)) (sc_replies c ++ server_reply (take 16 (sc_unread c)))
  else c.

#[local] Instance server_socket : PageSocket ServerConn := {
  sock_write_all bs c := (server_step (mkConn (sc_unread c ++ bs) (sc_replies c)), Ok tt);
  sock_read_exact n c :=
    if (n <=? length (sc_replies c))%nat
    then (mkConn (sc_unread c) (drop n (sc_replies c)), Ok (take n (sc_replies c)))
    else (mkConn (sc_unread c) [], Err UNEXPECTED_EOF)
}.

Context (page_length : forall ipa size, 0 <= size -> zlen (page ipa size) = size).

(** The bytes of a request. *)
Definition request_bytes (req : PageRequest) : list Z := le_bytes 8 (rq_ipa req) ++ le_bytes 8 (rq_page_size req).

Lemma request_bytes_length req : length (request_bytes req) = 16%nat.
Proof. unfold request_bytes. by rewrite length_app, !le_bytes_length. Qed.

Lemma request_bytes_decode req :
  in_u 64 (rq_ipa req) -> in_u 64 (rq_page_size req) ->
  le_val (slice 0 8 (request_bytes req)) = rq_ipa req /\ le_val (slice 8 8 (request_bytes req)) = rq_page_size req.
Proof.
  intros Hi Hs. unfold request_bytes, slice. set (a := le_bytes 8 (rq_ipa req)). set (b := le_bytes 8 (rq_page_size req)).
  assert (length a = 8%nat) as Ha by apply le_bytes_length. assert (length b = 8%nat) as Hb by apply le_bytes_length.
  rewrite drop_0, (take_app_le a) by lia. rewrite (take_ge a) by lia. rewrite (drop_app_ge a) by lia. rewrite Ha, Nat.sub_diag, drop_0, take_ge by lia.
  split; by apply le_val_bytes_id.
Qed.

(** The two writes of a fetch make the server answer. *)
Lemma request_sent req out (k : unit -> prog ServerConn PageSourceError (list Z)) :
  (let* _ := sock_prog (sock_write_all (le_bytes 8 (rq_ipa req))) in
   let* _ := sock_prog (sock_write_all (le_bytes 8 (rq_page_size req))) in k tt) (mkConn [] out) =
  k tt (mkConn [] (out ++ server_reply (request_bytes req))).
Proof.
  unfold p_bind, sock_prog. cbn [sock_write_all server_socket map_err sc_unread sc_replies app].
  assert (server_step (mkConn (le_bytes 8 (rq_ipa req)) out) = mkConn (le_bytes 8 (rq_ipa req)) out) as ->.
  { unfold server_step. cbn [sc_unread]. by rewrite le_bytes_length. }
  cbn [sc_unread sc_replies]. fold (request_bytes req). unfold server_step. cbn [sc_unread sc_replies].
  rewrite request_bytes_length. cbn [Nat.leb]. by rewrite take_ge, drop_ge by (by rewrite request_bytes_length).
Qed.

Lemma read_exact_app xs ys : sock_read_exact (length xs) (mkConn [] (xs ++ ys)) = (mkConn [] ys, Ok xs).
Proof.
  cbn [sock_read_exact server_socket sc_unread sc_replies]. rewrite length_app.
  rewrite (proj2 (Nat.leb_le _ _)) by lia. by rewrite take_app_length, drop_app_length.
Qed.

(** On a connection in step, a fetch gets the server's page and leaves the
    connection in step. *)
Lemma uffd_fetch_exact req :
  in_u 64 (rq_ipa req) -> in_u 64 (rq_page_size req) ->
  uffd_fetch req (mkConn [] []) = Some (mkConn [] [], Ok (page (rq_ipa req) (rq_page_size req))).
Proof.
  intros Hi Hs. unfold uffd_fetch. rewrite (request_sent req [] (fun _ => _)). cbn [app].
  destruct (request_bytes_decode req Hi Hs) as [Hd1 Hd2]. unfold server_reply. rewrite Hd1, Hd2.
  set (pg := page _ _). assert (zlen pg = rq_page_size req) as Hpg by (apply page_length; unfold in_u in Hs; lia).
  unfold p_bind, sock_prog. rewrite <- (request_bytes_length req) at 1. rewrite read_exact_app. cbn [map_err].
  rewrite Hd1, Hd2, !Z.eqb_refl. cbn [negb orb]. rewrite <- Hpg. unfold zlen. rewrite Nat2Z.id.
  rewrite <- (app_nil_r pg) at 2. by rewrite read_exact_app.
Qed.

(** After a reply that does not echo the request, its payload stays unread, and is
    taken for the header of the next reply. *)
Lemma uffd_violation_desyncs req hdr payload :
  length hdr = 16%nat -> le_val (slice 0 8 hdr) <> rq_ipa req ->
  exists err, uffd_fetch req (mkConn [] (hdr ++ payload)) =
    Some (mkConn [] (payload ++ server_reply (request_bytes req)), Err err).
Proof.
  intros Hh Hne. unfold uffd_fetch. rewrite (request_sent req _ (fun _ => _)), <- app_assoc.
  unfold p_bind, sock_prog. rewrite <- Hh. rewrite read_exact_app. cbn [map_err].
  rewrite (proj2 (Z.eqb_neq _ _) Hne). cbn [negb orb]. by eexists.
Qed.

End protocol.

(** ** The server stops when it is asked to *)

Section stops.
Context {W : Type} `{!Mach W}.

(** [polls_left w] bounds how often the flag is still read as clear: the supervisor
    sets it at some point, and no call of the server delays that. *)
Context (polls_left : W -> Z).
Hypothesis polls_nonneg : forall w, 0 <= polls_left w.
Hypothesis poll_clear : forall w w', shutting_down w = (w', false) -> polls_left w' < polls_left w.
Hypothesis poll_set : forall w w', shutting_down w = (w', true) -> polls_left w' <= polls_left w.
Hypothesis allocate_keeps : forall w, polls_left (mach_port_allocate w).1 <= polls_left w.
Hypothesis swap_keeps : forall w mask port, polls_left (task_swap_exception_ports w mask port).1 <= polls_left w.
Hypothesis get_keeps : forall w mask, polls_left (task_get_exception_ports w mask).1 <= polls_left w.
Hypothesis msg_keeps : forall w option port timeout, polls_left (mach_msg w option port timeout).1 <= polls_left w.
Hypothesis now_keeps : forall w, polls_left (instant_now w).1 <= polls_left w.

Lemma install_keeps port w : polls_left (install_exception_port port w).1 <= polls_left w.
Proof.
  unfold install_exception_port. pose proof (swap_keeps w mk_exc_bad_access port) as H.
  destruct (task_swap_exception_ports w _ _). exact H.
Qed.

Lemma drift_keeps port w : polls_left (drift_check_live port w).1 <= polls_left w.
Proof.
  unfold drift_check_live. pose proof (get_keeps w mk_exc_bad_access) as H.
  destruct (task_get_exception_ports w _) as [w1 [kr ports]]. cbn in H. destruct (negb _); [done|].
  destruct (existsb _ _); [|done]. unfold st_bind. pose proof (install_keeps port w1) as H2.
  destruct (install_exception_port port w1) as [w2 [[]|e]]; cbn in *; lia.
Qed.

Lemma live_round_decreases poll port last w log :
  wp (live_round poll port last) (fun st r =>
    match r with Ok (inl _) => polls_left st.1 < polls_left w | Ok (inr _) => True | Err _ => False end) (w, log).
Proof.
  unfold wp, live_round. destruct (shutting_down w) as [w1 [|]] eqn:Es; [done|]. apply poll_clear in Es.
  assert (polls_left (recv_one port (timeout_millis poll) w1).1 <= polls_left w1) as Hr
    by (unfold recv_one; destruct (_ =? 0); apply msg_keeps).
  destruct (recv_one port (timeout_millis poll) w1) as [w2 kr]. cbn [fst] in Hr.
  pose proof (now_keeps w2) as Hn. destruct (instant_now w2) as [w3 now]. cbn [fst] in Hn.
  destruct (poll <=? now - last); [|cbn; lia].
  pose proof (drift_keeps port w3) as Hd. destruct (drift_check_live port w3) as [w4 r]. cbn [fst] in Hd.
  pose proof (now_keeps w4) as Hn4. destruct (instant_now w4) as [w5 now5]. cbn in *. lia.
Qed.

(** Once its port is installed, the server ends normally within the rounds the flag
    leaves it, whatever the kernel answers. *)
Lemma live_server_stops budget poll w log :
  polls_left w < Z.of_nat (2 ^ budget) ->
  exists w' log' r, run_live_server budget poll (w, log) = Some ((w', log'), r) /\
    match r with Ok _ => exists rest, log' = ServerExiting :: rest | Err e => exists call kr, e = MachError call kr end.
Proof.
  intros Hb. unfold run_live_server, allocate_receive_port. pose proof (allocate_keeps w) as Ha.
  destruct (mach_port_allocate w) as [w1 [kr port]]. cbn [fst] in Ha.
  destruct (kr =? mk_kern_success); [|by do 3 eexists; split; [done|]; cbn; eauto].
  pose proof (install_keeps port w1) as Hi. destruct (install_exception_port port w1) as [w2 [[]|e]]; cbn [fst] in Hi;
    [|by do 3 eexists; split; [done|]; cbn; eauto].
  pose proof (now_keeps w2) as Hn. destruct (instant_now w2) as [w3 now]. cbn [fst] in Hn.
  destruct (wp_total (p_loop budget (live_round poll port) now) (fun _ r => is_ok r = true) (w3, log))
    as ([w4 log4] & r & -> & Hr).
  { apply (wp_loop (fun _ _ => True) (fun _ st => polls_left st.1)); [|done|cbn; lia].
    intros t [w' log'] _. split; [apply polls_nonneg|]. wp_use live_round_decreases. intros st [[t'|]|e]; done. }
  destruct r as [[]|e]; [|done]. destruct (mach_port_deallocate w4 port) as [w5 kr5]. eexists _, _, _. split; [done|].
  by eexists.
Qed.

End stops.
