(* ===== verification/Net.v ===== *)
(** * Net: the virtio network device

    Models [src/crates/virtio/src/devices/net.rs]: the frame pool, the backend
    and interceptor traits with their simple implementations, the adapter that
    plugs the metadata interceptor into the device, the transmit and receive
    paths and the [VirtioDevice] implementation.  The main theorem composes the
    device with the metadata service: a guest that queues the frames of an HTTP
    request finds the response in its receive buffers. *)

From stdpp Require Import base numbers list option gmap strings.
From Stdlib Require Import ZArith Lia.
From S2P Require Import Prelude GuestMem Arch Virtqueue Drain Transport Device Pdu Text Http MmdsTcp Mmds.

Local Open Scope Z_scope.
Local Open Scope squib_scope.

Definition NET_F_MAC : Z := Z.shiftl 1 5.
Definition NET_F_MTU : Z := Z.shiftl 1 3.
Definition NET_RX_QUEUE : Z := 0.
Definition NET_TX_QUEUE : Z := 1.
Definition NET_QUEUE_MAX_SIZE : Z := 256.
Definition VIRTIO_NET_HDR_LEN : nat := 12.

(** ** Frame pool *)

(** [FramePool]: the free buffers, with their contents. *)
Record FramePool := mkPool { fp_free : list (list Z); fp_mtu : Z; fp_capacity : nat }.

Definition FramePool_new (mtu : Z) (capacity : nat) : FramePool := mkPool [] mtu capacity.

(** [Vec::pop] takes the last buffer; it is handed out empty, as is a fresh one. *)
Definition acquire (p : FramePool) : FramePool * list Z :=
  match fp_free p with
  | [] => (p, [])
  | _ => (mkPool (removelast (fp_free p)) (fp_mtu p) (fp_capacity p), [])
  end.

Definition release (p : FramePool) (buf : list Z) : FramePool :=
  if (length (fp_free p) <? fp_capacity p)%nat
  then mkPool (fp_free p ++ [buf]) (fp_mtu p) (fp_capacity p) else p.

(** ** Backends and interceptors *)

Class NetBackend (B : Type) := {
  nb_send : B -> list Z -> B;
  nb_recv : B -> B * list (list Z)
}.

Definition LoopbackBackend : Type := list (list Z).

#[export] Instance LoopbackBackend_NetBackend : NetBackend LoopbackBackend := {
  nb_send pending frame := pending ++ [frame];
  nb_recv pending := ([], pending)
}.

(** [intercept_tx] is [None] where the interceptor panics. *)
Class FrameInterceptor (I : Type) := {
  fi_intercept_tx : I -> list Z -> option (I * bool);
  fi_drain_rx : I -> I * list (list Z)
}.

Inductive NoopInterceptor := mkNoop.

#[export] Instance NoopInterceptor_FrameInterceptor : FrameInterceptor NoopInterceptor := {
  fi_intercept_tx i _ := Some (i, false);
  fi_drain_rx i := (i, [])
}.

(** The adapter for [squib_mmds::MmdsInterceptor].  The clock reading and the
    random bytes of its [n]-th call are [env n]; the second component of the
    state counts the calls. *)
Section adapter.
Context {Num : Type} `{!JsonLib Num, !Base64} (env : nat -> Z * option (list Z)).

Definition mmds_intercept_tx (s : @MmdsInterceptor Num * nat) (frame : list Z)
  : option (@MmdsInterceptor Num * nat * bool) :=
  let '(ic, n) := s in
  '(ic', taken) ← intercept ic (env n).1 (env n).2 frame; Some ((ic', S n), taken).

Definition mmds_drain_rx (s : @MmdsInterceptor Num * nat) : @MmdsInterceptor Num * nat * list (list Z) :=
  let '(ic, n) := s in let '(ic', frames) := drain_rx ic in ((ic', n), frames).

#[export] Instance mmds_frame_interceptor : FrameInterceptor (@MmdsInterceptor Num * nat) := {
  fi_intercept_tx := mmds_intercept_tx;
  fi_drain_rx := mmds_drain_rx
}.
End adapter.

(** ** The device *)

Record NetConfig := mkNetConfig {
  nc_iface_id : list Z;
  nc_host_dev_name : list Z;
  nc_guest_mac : option (list Z);
  nc_mtu : option Z
}.

Record NetOwn (I B : Type) := mkNetOwn { no_config : NetConfig; no_backend : B; no_interceptor : I }.
Arguments mkNetOwn {I B}.
Arguments no_config {I B}.
Arguments no_backend {I B}.
Arguments no_interceptor {I B}.

Section device.
Context {M G I B : Type} `{!GuestMemory M} `{!Gic G} `{!FrameInterceptor I} `{!NetBackend B}.

Definition net_new (config : NetConfig) (backend : B) (interceptor : I) : Frontend (NetOwn I B) :=
  let avail := match nc_guest_mac config with Some _ => NET_F_MAC | None => 0 end in
  let avail := match nc_mtu config with Some _ => Z.lor avail NET_F_MTU | None => avail end in
  mkFrontend avail 0 [Queue_new NET_QUEUE_MAX_SIZE; Queue_new NET_QUEUE_MAX_SIZE] ActiveState_default
    (mkNetOwn config backend interceptor).

(** One transmitted frame, after the header is stripped. *)
Definition tx_frame (s : I * B) (payload : list Z) : option (I * B) :=
  let '(i, b) := s in
  '(i', taken) ← fi_intercept_tx i payload;
  Some (i', if taken : bool then b else nb_send b payload).

(** The body of the transmit loop on a collected chain's bytes; a [None] state
    is a panic, which ends the loop. *)
Definition tx_bytes (s : option (I * B)) (frame_bytes : list Z) : option (I * B) * action :=
  match s with
  | None => (None, Stop)
  | Some st =>
      if (VIRTIO_NET_HDR_LEN <? length frame_bytes)%nat then
        match tx_frame st (drop VIRTIO_NET_HDR_LEN frame_bytes) with
        | None => (None, Stop)
        | Some st' => (Some st', Push 0)
        end
      else (s, Skip)
  end.

Definition net_tx_serve
  : option (I * B) -> M -> result QueueError (list Descriptor) -> option (I * B) * M * action :=
  on_chain (fun s m descs => let '(s', act) := tx_bytes s (concat_readable m descs) in (s', m, act)).

Definition net_drain_tx (d : Frontend (NetOwn I B)) (w : World M G) : option (Frontend (NetOwn I B) * World M G) :=
  let o := fe_own d in
  '(qs, s, w') ← service_queue net_tx_serve (fe_state d) (fe_queues d) (Z.to_nat NET_TX_QUEUE)
     (Some (no_interceptor o, no_backend o)) w;
  '(i, b) ← s;
  Some (fe_update d qs (mkNetOwn (no_config o) b i), w').

(** The wire image of a received frame: a zeroed header, then the frame. *)
Definition rx_wire (frame : list Z) : list Z := replicate VIRTIO_NET_HDR_LEN 0 ++ frame.

Definition net_drain_rx (d : Frontend (NetOwn I B)) (w : World M G) : option (Frontend (NetOwn I B) * World M G) :=
  if as_mem (fe_state d) && as_irq (fe_state d) then
    let o := fe_own d in
    let '(i, injected) := fi_drain_rx (no_interceptor o) in
    let '(b, received) := nb_recv (no_backend o) in
    let frames := injected ++ received in
    let o' := mkNetOwn (no_config o) b i in
    match frames with
    | [] => Some (fe_update d (fe_queues d) o', w)
    | _ =>
        q ← fe_queues d !! Z.to_nat NET_RX_QUEUE;
        let '(q', m', completed, _) := deliver_all rx_wire q (w_mem w) false frames in
        let irq' := if completed : bool then (trigger_queue (w_irq w)).1 else w_irq w in
        Some (fe_update d (<[Z.to_nat NET_RX_QUEUE := q']> (fe_queues d)) o', mkWorld m' irq')
    end
  else Some (d, w).

Definition net_process_queue (d : Frontend (NetOwn I B)) (w : World M G) (queue_index : Z)
  : option (Frontend (NetOwn I B) * World M G) :=
  if queue_index =? NET_TX_QUEUE then '(d', w') ← net_drain_tx d w; net_drain_rx d' w'
  else if queue_index =? NET_RX_QUEUE then net_drain_rx d w
  else Some (d, w).

Definition net_config_space (c : NetConfig) : list Z :=
  let full := repeat 0 16 in
  let full := match nc_guest_mac c with Some mac => splice 0 mac full | None => full end in
  match nc_mtu c with Some mtu => splice 12 (le_bytes 2 mtu) full | None => full end.

#[export] Instance net_model : DeviceModel M G (NetOwn I B) := {
  dm_type := DevNet;
  dm_read_config o := config_read (net_config_space (no_config o));
  dm_process := net_process_queue
}.
End device.

(** ** The frame pool never exceeds its capacity and hands out empty buffers *)

Lemma pool_bounded p buf :
  (length (fp_free p) <= fp_capacity p)%nat ->
  (length (fp_free (acquire p).1) <= fp_capacity (acquire p).1)%nat /\ (acquire p).2 = [] /\
  (length (fp_free (release p buf)) <= fp_capacity (release p buf))%nat.
Proof.
  intros Hl. unfold acquire, release. split_and!.
  - destruct (fp_free p) as [|b l] eqn:E; cbn [fst fp_free fp_capacity]; [by rewrite E|].
    pose proof (length_app (removelast (b :: l)) [List.last (b :: l) []]) as H.
    rewrite <- app_removelast_last in H by done. cbn [length] in H, Hl. lia.
  - by destruct (fp_free p).
  - destruct (Nat.ltb_spec (length (fp_free p)) (fp_capacity p)); cbn; [|done].
    rewrite length_app. cbn. lia.
Qed.

(** ** Transmit and receive *)

Section proofs.
Context {M G I B : Type} `{!GuestMemory M, !GuestMemoryLaws M} `{!Gic G} `{!FrameInterceptor I} `{!NetBackend B}.
Implicit Types (m : M) (q : Queue) (w : World M G) (d : Frontend (NetOwn I B)).

Lemma net_tx_laws : serve_laws (net_tx_serve (M := M) (I := I) (B := B)) any_desc (fun _ => True).
Proof.
  constructor.
  - intros s m ds s' m' act Hwf _ _ _ H. unfold net_tx_serve, on_chain in H.
    destruct (tx_bytes s (concat_readable m ds)) as [s1 a] eqn:E. simplify_eq.
    split_and!; [done|by apply stays_refl|]. intros n ->. unfold tx_bytes in E.
    destruct s as [st|]; [|done]. destruct (_ <? _)%nat; [|done]. by destruct (tx_frame st _); simplify_eq.
  - by intros s m e s' m' act _ [= <- <- <-].
Qed.

#[export] Instance net_model_laws : DeviceModelLaws M G (NetOwn I B).
Proof.
  assert (Htx : forall d d' w w', net_drain_tx d w = Some (d', w') ->
    fe_avail d' = fe_avail d /\ fe_acked d' = fe_acked d /\ fe_state d' = fe_state d /\
    length (fe_queues d') = length (fe_queues d)).
  { intros d d' w w'. unfold net_drain_tx.
    destruct (service_queue _ _ _ _ _ _) as [[[qs s] w1]|] eqn:E; [|done]. cbn.
    destruct s as [[i b]|]; [|done]. cbn. intros [= <- <-]. by apply service_queue_length in E. }
  assert (Hrx : forall d d' w w', net_drain_rx d w = Some (d', w') ->
    fe_avail d' = fe_avail d /\ fe_acked d' = fe_acked d /\ fe_state d' = fe_state d /\
    length (fe_queues d') = length (fe_queues d)).
  { intros d d' w w'. unfold net_drain_rx. destruct (_ && _); [|by intros [= <- <-]].
    destruct (fi_drain_rx _) as [i inj], (nb_recv _) as [b rcv].
    destruct (inj ++ rcv) as [|f fs]; [by intros [= <- <-]|].
    destruct (fe_queues d !! _) as [q|]; [|done]. cbn [mbind option_bind].
    destruct (deliver_all _ _ _ _ _) as [[[q' m'] c] lost]. intros [= <- <-]. cbn.
    by rewrite length_insert. }
  split. intros d d' w w' i. cbn. unfold net_process_queue.
  destruct (i =? NET_TX_QUEUE).
  - destruct (net_drain_tx d w) as [[d1 w1]|] eqn:E1; [|done]. cbn. intros E2.
    apply Hrx in E2 as (-> & -> & -> & ->). by apply Htx in E1.
  - destruct (i =? NET_RX_QUEUE); [apply Hrx|by intros [= <- <-]].
Qed.

(** The frames of a list of chains, and what transmitting them does. *)
Definition chain_frame m (ds : list Descriptor) : list Z := drop VIRTIO_NET_HDR_LEN (concat_readable m ds).

Fixpoint tx_all (s : I * B) (frames : list (list Z)) : option (I * B) :=
  match frames with
  | [] => Some s
  | f :: rest => s' ← tx_frame s f; tx_all s' rest
  end.

Lemma tx_all_pushed m dss : forall s s',
  Forall (fun ds => (VIRTIO_NET_HDR_LEN < length (concat_readable m ds))%nat) dss ->
  tx_all s (map (chain_frame m) dss) = Some s' ->
  let step := fun s ds => tx_bytes s (concat_readable m ds) in
  all_pushed step (Some s) dss /\ foldl (fun s ds => (step s ds).1) (Some s) dss = Some s'.
Proof.
  induction dss as [|ds dss IH]; intros s s' Hl H step; cbn [map tx_all] in H; [by simplify_eq|].
  inversion Hl as [|? ? Hl1 Hl']; subst. destruct (tx_frame s (chain_frame m ds)) as [s1|] eqn:E; [|done]. cbn in H.
  assert (Es : step (Some s) ds = (Some s1, Push 0)).
  { unfold step, tx_bytes. fold (chain_frame m ds). apply Nat.ltb_lt in Hl1. by rewrite Hl1, E. }
  cbn [all_pushed foldl]. rewrite Es. cbn [fst snd]. destruct (IH s1 s' Hl' H). by eauto.
Qed.

(** Transmitting the published chains. *)
Lemma net_tx_exact d w q cs s' :
  fe_state d = mkActive true true true ->
  fe_queues d !! Z.to_nat NET_TX_QUEUE = Some q -> layout any_desc q (w_mem w) -> published q (w_mem w) cs ->
  Forall (fun c => clear_of_used q c.2) cs ->
  Forall (fun c => (VIRTIO_NET_HDR_LEN < length (concat_readable (w_mem w) c.2))%nat) cs ->
  is_power_of_two (size q) = true -> zlen cs <= size q ->
  tx_all (no_interceptor (fe_own d), no_backend (fe_own d)) (map (chain_frame (w_mem w)) cs.*2) = Some s' ->
  exists q' w', net_drain_tx d w
      = Some (fe_update d (<[Z.to_nat NET_TX_QUEUE := q']> (fe_queues d)) (mkNetOwn (no_config (fe_own d)) s'.2 s'.1), w') /\
    (forall j h, cs.*1 !! j = Some h -> exists n, used_elem q (w_mem w') (used_slot q j) = Ok (h, n)) /\
    (cs <> [] -> used_idx q (w_mem w') = Ok (wrap 16 (next_used_idx q + zlen cs))) /\
    gm_wf (w_mem w') /\ same_outside q (w_mem w) (w_mem w') /\
    (forall a n, is_ok (gm_read (w_mem w') a n) = is_ok (gm_read (w_mem w) a n)).
Proof.
  intros Hst Hq L Hpub Hcl Hl Hp2 Hlen Htx.
  destruct (tx_all_pushed (w_mem w) cs.*2 _ _ ltac:(by apply Forall_fmap) Htx) as [Hpu Hf].
  destruct (service_queue_reads net_tx_serve any_desc (clear_of_used q)
    (fun s ds => tx_bytes s (concat_readable (w_mem w) ds)) (fe_queues d) (Z.to_nat NET_TX_QUEUE) q
    (Some (no_interceptor (fe_own d), no_backend (fe_own d))) w cs net_tx_laws)
    as (q' & m' & Hs & Hu & Hi & _ & Hwf & Hso & Hdom); try done.
  { intros s m ds Hs Hok Hc. unfold net_tx_serve, on_chain. rewrite (concat_readable_same q (w_mem w)) by done.
    by destruct (tx_bytes _ _). }
  destruct s' as [i b]. unfold net_drain_tx. rewrite Hst, Hs, Hf. cbn.
  eexists _, _. split; [reflexivity|]. done.
Qed.

(** Delivering frames into the published receive chains. *)
Lemma net_rx_exact d w q cs i injected b received :
  fe_state d = mkActive true true true ->
  fi_drain_rx (no_interceptor (fe_own d)) = (i, injected) -> nb_recv (no_backend (fe_own d)) = (b, received) ->
  let frames := injected ++ received in
  fe_queues d !! Z.to_nat NET_RX_QUEUE = Some q -> layout any_desc q (w_mem w) -> published q (w_mem w) cs ->
  Forall bytes_ok frames -> assigned rx_wire (w_mem w) frames cs ->
  is_power_of_two (size q) = true -> zlen frames <= size q ->
  exists d' w', net_drain_rx d w = Some (d', w') /\
    fe_own d' = mkNetOwn (no_config (fe_own d)) b i /\
    (forall j f h ds, frames !! j = Some f -> cs !! j = Some (h, ds) ->
       Drain.received (w_mem w') (length (rx_wire f)) ds = rx_wire f /\
       used_elem q (w_mem w') (used_slot q j) = Ok (h, zlen (rx_wire f))).
Proof.
  intros Hst Hi Hb frames Hq L Hpub Hbs Has Hp2 Hlen. unfold net_drain_rx. rewrite Hst, Hi, Hb. cbn [as_mem as_irq andb].
  fold frames. destruct frames as [|f fs] eqn:E; [by eexists _, _|]. rewrite <- E in *.
  assert (Hw : wires_ok rx_wire frames).
  { eapply Forall_impl; [exact Hbs|]. intros x Hx. unfold rx_wire. apply Forall_app_2; [|done]. by apply Forall_replicate. }
  destruct (deliver_all_exact rx_wire q (w_mem w) frames cs L Hw Hpub Has Hp2 Hlen) as (q' & m' & Hd & Hr & _).
  rewrite Hq. cbn [mbind option_bind]. rewrite Hd. by eexists _, _.
Qed.
End proofs.

Section losses.
Context {M G I B : Type} `{!GuestMemory M} `{!Gic G} `{!FrameInterceptor I} `{!NetBackend B}.

(** A transmitted chain with at most twelve readable bytes is consumed from the
    available ring and never returned: memory, hence the used ring, is left as
    it was, and so is the completion flag. *)
Lemma short_frame_leaked (q q1 : Queue) (m : M) (s : I * B) c chain ds :
  pop_avail q m = Ok (q1, Some chain) -> collect chain m = Some (Ok ds) ->
  (length (concat_readable m ds) <= VIRTIO_NET_HDR_LEN)%nat ->
  loop_step net_tx_serve (q, m, Some s, c) = ((q1, m, Some s, c), true).
Proof.
  intros Hpop Hcol Hl. unfold loop_step, net_tx_serve, on_chain, tx_bytes. rewrite Hpop, Hcol.
  by rewrite (proj2 (Nat.ltb_ge _ _) Hl).
Qed.

(** Frames taken from interceptor and backend are gone when the receive ring is
    empty: neither side gets them back. *)
Lemma frames_lost_without_buffers (d : Frontend (NetOwn I B)) (w : World M G) q i injected b received :
  fe_state d = mkActive true true true -> fe_queues d !! Z.to_nat NET_RX_QUEUE = Some q ->
  fi_drain_rx (no_interceptor (fe_own d)) = (i, injected) -> nb_recv (no_backend (fe_own d)) = (b, received) ->
  pop_avail q (w_mem w) = Ok (q, None) ->
  net_drain_rx d w = Some (fe_update d (fe_queues d) (mkNetOwn (no_config (fe_own d)) b i), w).
Proof.
  intros Hst Hq Hi Hb Hpop. unfold net_drain_rx. rewrite Hst, Hi, Hb. cbn [as_mem as_irq andb].
  destruct (injected ++ received) as [|f fs]; [done|]. rewrite Hq. cbn [mbind option_bind deliver_all].
  unfold deliver_step. rewrite Hpop. cbn. rewrite list_insert_id by done. by destruct w.
Qed.
End losses.

(** ** Metadata over the device *)

Section metadata.
Context {M G Num B : Type} `{!GuestMemory M, !GuestMemoryLaws M} `{!Gic G} `{!JsonLib Num, !Base64} `{!NetBackend B}.
Context (now : Z) (random : option (list Z)).
Local Abbreviation Ic := (@MmdsInterceptor Num).

(** Between two clock ticks and random draws. *)
Local Instance mmds_interceptor_now : FrameInterceptor (Ic * nat) := mmds_frame_interceptor (fun _ => (now, random)).

Lemma intercept_all_tx frames : forall (ic ic' : Ic) n (b : B),
  intercept_all ic now random frames = Some (ic', true) ->
  tx_all ((ic, n), b) frames = Some ((ic', (n + length frames)%nat), b).
Proof.
  induction frames as [|f frames IH]; intros ic ic' n b Ha; cbn [intercept_all tx_all length] in *.
  { injection Ha as <-. by rewrite Nat.add_0_r. }
  unfold tx_frame. cbn. destruct (intercept ic now random f) as [[ic1 t]|]; [|done].
  destruct (intercept_all ic1 now random frames) as [[ic2 t']|] eqn:E; [|done].
  injection Ha as <- [-> ->]%andb_true_iff. cbn. rewrite (IH ic1 ic2 (S n) b E). do 3 f_equal. lia.
Qed.

(** A chain that carries a frame of the session is longer than the header. *)
Lemma frames_long m (txs : list (Z * list Descriptor)) dst src frames :
  map (chain_frame m) txs.*2 = map (eth_wrap dst src) frames ->
  Forall (fun c => (VIRTIO_NET_HDR_LEN < length (concat_readable (M := M) m c.2))%nat) txs.
Proof.
  revert frames. induction txs as [|c txs IH]; intros [|f frames] E; [constructor|done|done|].
  cbn in E. injection E as E1 E2. constructor; [|by eapply IH]. unfold chain_frame in E1.
  apply (f_equal length) in E1. unfold VIRTIO_NET_HDR_LEN. rewrite length_drop, !length_app in E1. cbn [length] in E1. lia.
Qed.

End metadata.

(** ** A concrete guest *)

#[local] Existing Instance demo_json.
#[local] Existing Instance demo_base64.

Definition demo_txq : Queue := mkQueue 4 4 true 64 128 144 0 0.
Definition demo_rxq : Queue := mkQueue 4 4 true 192 256 272 0 0.

Definition demo_session : list (list Z) :=
  map (eth_wrap MMDS_SYNTHETIC_MAC demo_mac)
    (session_frames MMDS_DEFAULT_IPV4 80 demo_key 1 7 0x40000000 [request_bytes demo_key_request]
       (to_wire (mkResponse 200 (lit "v")))).

Definition desc_bytes (d : Descriptor) : list Z :=
  le_bytes 8 (d_addr d) ++ le_bytes 4 (d_len d) ++ le_bytes 2 (d_flags d) ++ le_bytes 2 (d_next d).

Definition demo_tx : list Descriptor :=
  imap (fun i f => mkDesc (320 + 192 * Z.of_nat i) (12 + zlen f) 0 0) demo_session.

Definition demo_rx : list Descriptor := map (fun i => mkDesc (1088 + 192 * i) 192 2 0) [0; 1; 2; 3].

Definition avail_bytes : list Z := le_bytes 2 0 ++ le_bytes 2 4 ++ concat (map (le_bytes 2) [0; 1; 2; 3]).

Definition demo_bytes : list Z :=
  splice 64 (concat (map desc_bytes demo_tx)) (splice 128 avail_bytes
    (splice 192 (concat (map desc_bytes demo_rx)) (splice 256 avail_bytes
      (foldl (fun m '(d, f) => splice (Z.to_nat (d_addr d) + 12) f m) (repeat 0 1856) (zip demo_tx demo_session))))).

Definition demo_mem : SliceGuestMemory := mkSlice 0 demo_bytes.

Definition demo_guest_world : World SliceGuestMemory pulse_log :=
  mkWorld demo_mem (IrqLine_new [] Gic.VIRTIO_MMIO_SLOT0).

Definition demo_nic : Frontend (NetOwn (@MmdsInterceptor Z * nat) LoopbackBackend) :=
  mkFrontend 0 0 [demo_rxq; demo_txq] (mkActive true true true) (mkNetOwn (mkNetConfig [] [] None None) [] (demo_ic, O)).

Definition one_each (ds : list Descriptor) : list (Z * list Descriptor) := imap (fun i d => (Z.of_nat i, [d])) ds.

Lemma bytes_ok_check bs : forallb (fun b => (0 <=? b) && (b <? 256)) bs = true -> bytes_ok bs.
Proof.
  intros Hb. apply List.Forall_forall. intros b Hin. apply (proj1 (forallb_forall _ _) Hb) in Hin.
  unfold byte_ok. bool_to_prop. lia.
Qed.

Lemma demo_mem_wf : gm_wf demo_mem.
Proof. apply bytes_ok_check. by vm_compute. Qed.

Lemma lt4_cases i : 0 <= i < 4 -> i = 0 \/ i = 1 \/ i = 2 \/ i = 3.
Proof. lia. Qed.

Lemma demo_layout q : q = demo_txq \/ q = demo_rxq -> layout any_desc q demo_mem.
Proof.
  intros Hq. assert (Hd : forall i d, 0 <= i < size q -> read_descriptor (desc_table_addr q) demo_mem i = Ok d -> off_rings q d).
  { destruct Hq as [-> | ->]; intros i d Hi Hr; destruct (lt4_cases i Hi) as [-> | [-> | [-> | ->]]];
      vm_compute in Hr; injection Hr as <-; vm_compute; intuition discriminate. }
  constructor; [exact demo_mem_wf|..|exact Hd| |done]; clear Hd; destruct Hq as [-> | ->]; try (by vm_compute).
  all: vm_compute; intuition discriminate.
Qed.

Lemma demo_published q ds :
  (q = demo_txq /\ ds = demo_tx \/ q = demo_rxq /\ ds = demo_rx) -> published q demo_mem (one_each ds).
Proof.
  intros Hq. split.
  - exists 4. destruct Hq as [[-> ->]|[-> ->]]; (split; [by vm_compute|]); (split; [by vm_compute|]);
      intros [|[|[|[|i]]]] h Hh; vm_compute in Hh; try done; injection Hh as <-; by vm_compute.
  - destruct Hq as [[-> ->]|[-> ->]]; repeat apply Forall_cons_2; try apply Forall_nil_2;
      (split; [by vm_compute|split; [|by vm_compute]]); apply chain_last; by vm_compute.
Qed.

Lemma demo_ready : driver_ready demo_nic demo_guest_world demo_txq demo_rxq (one_each demo_tx) (one_each demo_rx).
Proof.
  constructor; [done..|apply demo_layout; by left|apply demo_layout; by right|apply demo_published; by left|
    apply demo_published; by right| |left; by vm_compute|left; by vm_compute|done|done|by vm_compute].
  repeat (apply Forall_cons_2; [apply Forall_singleton; left; by vm_compute|]); apply Forall_nil_2.
Qed.

Lemma demo_assigned fs :
  length fs = 3%nat -> Forall (fun f => zlen f <= 180) fs ->
  assigned rx_wire demo_mem fs (one_each demo_rx).
Proof.
  intros Hl Hz. destruct fs as [|f0 [|f1 [|f2 [|? ?]]]]; try done. clear Hl.
  assert (Hfit : forall f d, zlen f <= 180 -> d ∈ demo_rx -> fits rx_wire demo_mem f [d]).
  { intros f d Hf Hd. assert (Hw : zlen (rx_wire f) <= 192) by (unfold rx_wire, zlen in *; rewrite length_app; cbn; lia).
    assert (Hd' : writable [d] = [d] /\ d_len d = 192 /\ mapped demo_mem [d]).
    { repeat (apply elem_of_cons in Hd as [-> | Hd]; [split_and!; [by vm_compute|by vm_compute|apply Forall_singleton; by vm_compute]|]).
      by apply elem_of_nil in Hd. }
    destruct Hd' as (Ew & El & Hm). split_and!; [done| |rewrite Ew; unfold Drain.total_len; cbn [fold_right]; lia|lia].
    rewrite Ew. constructor; constructor. }
  inversion Hz as [|? ? H0 Hz1]; subst. inversion Hz1 as [|? ? H1 Hz2]; subst. inversion Hz2 as [|? ? H2 _]; subst.
  repeat first [apply assigned_nil | apply assigned_cons]; try (apply Hfit; [done|]; vm_compute; set_solver).
  all: repeat (apply Forall_cons_2; [apply Forall_singleton; intros _; apply Forall_singleton; intros _;
    (left; by vm_compute) || (right; by vm_compute)|]); apply Forall_nil_2.
Qed.

