(* ===== verification/NetHost.v ===== *)
(** * NetHost: the host side of the network device

    Models [src/crates/net/src]: [mode.rs], the vmnet interface ([iface.rs],
    [sys/iface_impl.rs], the status codes of [sys/mod.rs], the queue label check of
    [sys/dispatch.rs]), the batching backend of [backend.rs] and the gvproxy backend of
    [gvproxy.rs] with its framing, reader, writer and start-up checks.  Each backend is
    an instance of the [NetBackend] interface of the virtio device.  The vmnet framework,
    XPC dictionaries and process creation are classes. *)

From stdpp Require Import base numbers list option gmap strings.
From Stdlib Require Import ZArith Lia.
From S2P Require Import Prelude GuestMem Arch Virtqueue Drain Transport Device Text Schemas Net.

Local Open Scope Z_scope.
Local Open Scope squib_scope.

(** ** Modes *)

(** Built with the [bridged] feature. *)
Inductive VmnetMode := VmShared | VmHost | VmBridged.

Definition as_xpc_value (m : VmnetMode) : Z :=
  match m with VmHost => 1000 | VmShared => 1001 | VmBridged => 1002 end.

Inductive NetMode := NmVmnet (m : VmnetMode) | NmUserspace.

Definition needs_restricted_entitlement (m : NetMode) : bool :=
  match m with NmVmnet VmBridged => true | NmVmnet _ | NmUserspace => false end.

(** ** vmnet *)

Inductive VmnetReturn :=
  | VrSuccess | VrFailure | VrMemFailure | VrInvalidArgument | VrSetupIncomplete | VrInvalidAccess
  | VrPacketTooBig | VrBufferExhausted | VrTooManyPackets | VrSharingServiceBusy | VrUnknown.

#[export] Instance VmnetReturn_eq_dec : EqDecision VmnetReturn.
Proof. solve_decision. Defined.

(** [self as u32]. *)
Definition VmnetReturn_code (r : VmnetReturn) : Z :=
  match r with
  | VrSuccess => 1000 | VrFailure => 1001 | VrMemFailure => 1002 | VrInvalidArgument => 1003
  | VrSetupIncomplete => 1004 | VrInvalidAccess => 1005 | VrPacketTooBig => 1006
  | VrBufferExhausted => 1007 | VrTooManyPackets => 1008 | VrSharingServiceBusy => 1009
  | VrUnknown => 2 ^ 32 - 1
  end.

Definition VmnetReturn_from_raw (raw : Z) : VmnetReturn :=
  if raw =? 1000 then VrSuccess else if raw =? 1001 then VrFailure else if raw =? 1002 then VrMemFailure
  else if raw =? 1003 then VrInvalidArgument else if raw =? 1004 then VrSetupIncomplete
  else if raw =? 1005 then VrInvalidAccess else if raw =? 1006 then VrPacketTooBig
  else if raw =? 1007 then VrBufferExhausted else if raw =? 1008 then VrTooManyPackets
  else if raw =? 1009 then VrSharingServiceBusy else VrUnknown.

Definition BATCH : nat := 32.

Record IfaceStats := mkIfaceStats { st_rx_bytes : Z; st_tx_bytes : Z; st_rx_frames : Z; st_tx_frames : Z }.

(** The [io::Error]s of [Queue::create_serial]. *)
Inductive QueueError := LabelNul | QueueNull.

Inductive InnerError :=
  | DispatchQueue (source : QueueError)
  | StartFailed (code : VmnetReturn)
  | StopFailed (code : VmnetReturn)
  | ReadFailed (code : VmnetReturn)
  | WriteFailed (code : VmnetReturn)
  | StartTimeout (timeout_ms : Z)
  | MissingField (field : list Z).

Record StartParams := mkStartParams {
  sp_iface_id : list Z;
  sp_mode : Z;
  sp_bridged_iface_name : option (list Z);
  sp_mtu : option Z;
  sp_start_timeout_ms : Z;
  sp_enable_isolation : bool
}.

(** A non-null [vmnet_interface_ref]. *)
Definition VmnetRef : Type := nat.

Record Inner := mkInner {
  in_handle : option VmnetRef;
  in_mtu : Z;
  in_max_packet_size : Z;
  in_mac : list Z;
  in_stats : IfaceStats
}.

(** XPC dictionaries. *)
Class Xpc (D : Type) := {
  xpc_new : D;
  xpc_set_uint64 : D -> list Z -> Z -> D;
  xpc_set_string : D -> list Z -> list Z -> D;
  xpc_set_bool : D -> list Z -> bool -> D;
  xpc_set_uuid : D -> list Z -> list Z -> D;
  xpc_get_uint64 : D -> list Z -> Z;
  xpc_get_string : D -> list Z -> option (list Z)
}.

(** [uuid::Uuid::new_v5] over the OID namespace. *)
Class Uuid5 := uuid_new_v5 : list Z -> list Z.

(** The framework.  [vmnet_wait_start] is the wait for the start callback: [None] when
    the timeout came first, else what the callback received.  Reads are given the
    lengths of the buffers and return the size and the bytes of each packet. *)
Class Vmnet (V D : Type) := {
  dispatch_queue_create : V -> list Z -> V * bool;
  vmnet_start_interface : V -> D -> V * option VmnetRef;
  vmnet_wait_start : V -> VmnetRef -> option Z -> V * option (Z * option D);
  vmnet_stop_interface : V -> VmnetRef -> V * Z;
  vmnet_read : V -> VmnetRef -> list nat -> V * (Z * Z * list (Z * list Z));
  vmnet_write : V -> VmnetRef -> list (list Z) -> V * (Z * Z)
}.

Section iface_impl.
Context {V D : Type} `{!Xpc D, !Vmnet V D, !Uuid5}.

Definition KEY_OPERATION_MODE : list Z := lit "vmnet_operation_mode".
Definition KEY_INTERFACE_ID : list Z := lit "vmnet_interface_id".
Definition KEY_MTU : list Z := lit "vmnet_mtu".
Definition KEY_MAX_PACKET_SIZE : list Z := lit "vmnet_max_packet_size".
Definition KEY_MAC_ADDRESS : list Z := lit "vmnet_mac_address".
Definition KEY_ENABLE_ISOLATION : list Z := lit "vmnet_enable_isolation".
Definition KEY_SHARED_INTERFACE_NAME : list Z := lit "vmnet_shared_interface_name".

(** [XpcObject::set_string]: a value with a NUL is skipped. *)
Definition set_string (d : D) (key value : list Z) : D :=
  if bool_decide (0 ∈ value) then d else xpc_set_string d key value.

Definition build_descriptor (params : StartParams) : D :=
  let dict := xpc_set_uint64 xpc_new KEY_OPERATION_MODE (sp_mode params) in
  let dict := xpc_set_uuid dict KEY_INTERFACE_ID (uuid_new_v5 (sp_iface_id params)) in
  let dict := match sp_mtu params with Some mtu => xpc_set_uint64 dict KEY_MTU mtu | None => dict end in
  let dict :=
    match sp_bridged_iface_name params with
    | Some name => set_string dict KEY_SHARED_INTERFACE_NAME name
    | None => dict
    end in
  xpc_set_bool dict KEY_ENABLE_ISOLATION (sp_enable_isolation params).

Fixpoint parse_octets (parts : list (list Z)) : option (list Z) :=
  match parts with
  | [] => Some []
  | p :: ps => o ← u8_from_hex p; os ← parse_octets ps; Some (o :: os)
  end.

Definition parse_mac_string (raw : list Z) : option (list Z) :=
  let parts := split_on 58 [] raw in
  if (length parts =? 6)%nat then parse_octets parts else None.

Definition create_serial (v : V) (label : list Z) : V * result QueueError unit :=
  if bool_decide (0 ∈ label) then (v, Err LabelNul)
  else let (v, ok) := dispatch_queue_create v label in (v, if ok then Ok tt else Err QueueNull).

(** [u32::try_from(x).unwrap_or(d)]. *)
Definition u32_or (d x : Z) : Z := if x <? 2 ^ 32 then x else d.

Definition stats_zero : IfaceStats := mkIfaceStats 0 0 0 0.

Definition Inner_start (v : V) (params : StartParams) : V * result InnerError Inner :=
  let (v, q) := create_serial v (lit "squib-net." ++ sp_iface_id params) in
  match q with
  | Err e => (v, Err (DispatchQueue e))
  | Ok _ =>
      let (v, handle) := vmnet_start_interface v (build_descriptor params) in
      match handle with
      | None => (v, Err (StartFailed VrFailure))
      | Some handle =>
          let timeout := if sp_start_timeout_ms params =? 0 then None
                         else Some (saturating_mul 64 (sp_start_timeout_ms params) 1000000) in
          let (v, signalled) := vmnet_wait_start v handle timeout in
          (v,
           match signalled with
           | None => Err (StartTimeout (sp_start_timeout_ms params))
           | Some (status, param) =>
               if bool_decide (VmnetReturn_from_raw status = VrSuccess) then
                 match param with
                 | None => Err (StartFailed VrFailure)
                 | Some param =>
                     let mtu := u32_or 1500 (xpc_get_uint64 param KEY_MTU) in
                     let max_packet_size := u32_or 1518 (xpc_get_uint64 param KEY_MAX_PACKET_SIZE) in
                     match xpc_get_string param KEY_MAC_ADDRESS with
                     | None => Err (MissingField (lit "vmnet_mac_address_key"))
                     | Some mac_str =>
                         match parse_mac_string mac_str with
                         | None => Err (MissingField (lit "vmnet_mac_address_key (parse)"))
                         | Some mac => Ok (mkInner (Some handle) mtu max_packet_size mac stats_zero)
                         end
                     end
                 end
               else Err (StartFailed (VmnetReturn_from_raw status))
           end)
      end
  end.

Definition set_handle (i : Inner) (h : option VmnetRef) : Inner :=
  mkInner h (in_mtu i) (in_max_packet_size i) (in_mac i) (in_stats i).

Definition set_stats (i : Inner) (s : IfaceStats) : Inner :=
  mkInner (in_handle i) (in_mtu i) (in_max_packet_size i) (in_mac i) s.

Definition Inner_stop (v : V) (i : Inner) : V * Inner * result InnerError unit :=
  match in_handle i with
  | None => (v, i, Ok tt)
  | Some h =>
      let (v, rc) := vmnet_stop_interface v h in
      (v, set_handle i None,
       if rc =? VmnetReturn_code VrSuccess then Ok tt else Err (StopFailed (VmnetReturn_from_raw rc)))
  end.

(** [usize::try_from(count.max(0)).unwrap_or(0).min(n)]. *)
Definition delivered_count (count : Z) (n : nat) : nat := Nat.min (Z.to_nat (Z.max count 0)) n.

(** The saturating byte count of a batch. *)
Definition count_bytes (lens : list Z) : Z := foldl (fun acc l => saturating_add 64 acc l) 0 lens.

(** [read_into_sized] with buffers of the given lengths and as many size slots: the
    packets delivered, as vmnet sized and filled them. *)
Definition read_into_sized (v : V) (i : Inner) (bufs : list nat) : V * Inner * result InnerError (list (Z * list Z)) :=
  let n := Nat.min (length bufs) BATCH in
  match in_handle i with
  | None => (v, i, Ok [])
  | Some h =>
      if (n =? 0)%nat then (v, i, Ok [])
      else
        let (v, out) := vmnet_read v h (take n bufs) in
        let '(rc, count, pkts) := out in
        if rc =? VmnetReturn_code VrSuccess then
          let pkts := take (delivered_count count n) pkts in
          let s := in_stats i in
          (v, set_stats i (mkIfaceStats (saturating_add 64 (st_rx_bytes s) (count_bytes (map fst pkts))) (st_tx_bytes s)
                             (saturating_add 64 (st_rx_frames s) (Z.of_nat (delivered_count count n))) (st_tx_frames s)),
           Ok pkts)
        else (v, i, Err (ReadFailed (VmnetReturn_from_raw rc)))
  end.

Definition write_frames (v : V) (i : Inner) (frames : list (list Z)) : V * Inner * result InnerError nat :=
  let n := Nat.min (length frames) BATCH in
  match in_handle i with
  | None => (v, i, Ok 0%nat)
  | Some h =>
      if (n =? 0)%nat then (v, i, Ok 0%nat)
      else
        let (v, out) := vmnet_write v h (take n frames) in
        let '(rc, count) := out in
        if rc =? VmnetReturn_code VrSuccess then
          let delivered := delivered_count count n in
          let s := in_stats i in
          (v, set_stats i (mkIfaceStats (st_rx_bytes s)
                             (saturating_add 64 (st_tx_bytes s) (count_bytes (map zlen (take delivered frames))))
                             (st_rx_frames s) (saturating_add 64 (st_tx_frames s) (Z.of_nat delivered))),
           Ok delivered)
        else (v, i, Err (WriteFailed (VmnetReturn_from_raw rc)))
  end.
End iface_impl.

(** ** The interface *)

Inductive IfaceError := NotSupported | InnerErr (e : InnerError).

Record InterfaceParams := mkInterfaceParams {
  ip_iface_id : list Z;
  ip_mode : VmnetMode;
  ip_bridged_iface_name : option (list Z);
  ip_mtu : option Z;
  ip_start_timeout_ms : Z;
  ip_enable_isolation : bool
}.

Definition InterfaceParams_new (iface_id : list Z) (mode : VmnetMode) : InterfaceParams :=
  mkInterfaceParams iface_id mode None None 5000 true.

Record VmnetIface := mkIface { vi_iface_id : list Z; vi_inner : option Inner }.

Section iface.
Context {V D : Type} `{!Xpc D, !Vmnet V D, !Uuid5}.

Definition VmnetIface_start (v : V) (params : InterfaceParams) : V * result IfaceError VmnetIface :=
  let timeout_ms := if ip_start_timeout_ms params <? 2 ^ 64 then ip_start_timeout_ms params else 2 ^ 64 - 1 in
  let inner_params :=
    mkStartParams (ip_iface_id params) (as_xpc_value (ip_mode params)) (ip_bridged_iface_name params) (ip_mtu params)
      timeout_ms (ip_enable_isolation params) in
  let (v, r) := Inner_start v inner_params in
  (v, match r with
      | Ok inner => Ok (mkIface (ip_iface_id params) (Some inner))
      | Err e => Err (InnerErr e)
      end).

Definition iface_mtu (i : VmnetIface) : Z := from_option in_mtu 1500 (vi_inner i).

Definition iface_host_mac (i : VmnetIface) : list Z := from_option in_mac (repeat 0 6) (vi_inner i).

Definition iface_stats (i : VmnetIface) : IfaceStats := from_option in_stats stats_zero (vi_inner i).

Definition iface_read (v : V) (i : VmnetIface) (bufs : list nat)
  : V * VmnetIface * result IfaceError (list (Z * list Z)) :=
  match vi_inner i with
  | None => (v, i, Err NotSupported)
  | Some inner =>
      let '(v, inner, r) := read_into_sized v inner bufs in
      (v, mkIface (vi_iface_id i) (Some inner), map_err InnerErr r)
  end.

Definition iface_write (v : V) (i : VmnetIface) (frames : list (list Z)) : V * VmnetIface * result IfaceError nat :=
  match vi_inner i with
  | None => (v, i, Err NotSupported)
  | Some inner =>
      let '(v, inner, r) := write_frames v inner frames in
      (v, mkIface (vi_iface_id i) (Some inner), map_err InnerErr r)
  end.

(** [Inner]'s own [Drop] finds the handle cleared. *)
Definition iface_stop (v : V) (i : VmnetIface) : V * VmnetIface * result IfaceError unit :=
  match vi_inner i with
  | None => (v, i, Ok tt)
  | Some inner =>
      let '(v, _, r) := Inner_stop v inner in
      (v, mkIface (vi_iface_id i) None, map_err InnerErr r)
  end.

(** ** The batching backend *)

Definition TX_BATCH_DEPTH : nat := 32.
Definition RX_BATCH_DEPTH : nat := 32.

(** [vb_world] is the framework behind the interface. *)
Record VmnetHostBackend := mkVmnetBackend {
  vb_world : V;
  vb_iface : VmnetIface;
  vb_tx_queue : list (list Z)
}.

Definition VmnetHostBackend_new (v : V) (iface : VmnetIface) : VmnetHostBackend := mkVmnetBackend v iface [].

(** [slices.chunks(BATCH)]; [fuel] bounds the number of chunks. *)
Fixpoint chunks (fuel : nat) (l : list (list Z)) : list (list (list Z)) :=
  match fuel, l with
  | S fuel', _ :: _ => take BATCH l :: chunks fuel' (drop BATCH l)
  | _, _ => []
  end.

Fixpoint write_chunks (v : V) (i : VmnetIface) (cs : list (list (list Z))) : V * VmnetIface * result IfaceError unit :=
  match cs with
  | [] => (v, i, Ok tt)
  | c :: cs' =>
      match iface_write v i c with
      | (v, i, Ok _) => write_chunks v i cs'
      | (v, i, Err e) => (v, i, Err e)
      end
  end.

Definition flush_tx (b : VmnetHostBackend) : VmnetHostBackend * result IfaceError unit :=
  match vb_tx_queue b with
  | [] => (b, Ok tt)
  | pending =>
      let '(v, i, r) := write_chunks (vb_world b) (vb_iface b) (chunks (length pending) pending) in
      (mkVmnetBackend v i [], r)
  end.

Definition vmnet_send (b : VmnetHostBackend) (frame : list Z) : VmnetHostBackend :=
  let b := mkVmnetBackend (vb_world b) (vb_iface b) (vb_tx_queue b ++ [frame]) in
  if (length (vb_tx_queue b) <? TX_BATCH_DEPTH)%nat then b else (flush_tx b).1.

(** A buffer truncated to the reported size. *)
Definition rx_frame (pkt : Z * list Z) : list Z := take (Z.to_nat (Z.min pkt.1 (zlen pkt.2))) pkt.2.

Definition vmnet_recv (b : VmnetHostBackend) : VmnetHostBackend * list (list Z) :=
  let b := (flush_tx b).1 in
  let mtu := Z.to_nat (Z.max (iface_mtu (vb_iface b)) 1500 + 32) in
  let '(v, i, r) := iface_read (vb_world b) (vb_iface b) (repeat mtu RX_BATCH_DEPTH) in
  (mkVmnetBackend v i (vb_tx_queue b),
   match r with Ok pkts => map rx_frame pkts | Err _ => [] end).
End iface.
Arguments VmnetHostBackend : clear implicits.

#[export] Instance Vmnet_NetBackend {V D} `{!Vmnet V D} : NetBackend (VmnetHostBackend V) := {
  nb_send := vmnet_send;
  nb_recv := vmnet_recv
}.

(** ** gvproxy: the link *)

Definition RX_QUEUE_CAP : nat := 256.
Definition TX_CHANNEL : nat := 256.

(** The bytes the writer task puts on the socket for a frame. *)
Definition frame_header (frame : list Z) : list Z :=
  be_bytes 4 (if zlen frame <? 2 ^ 32 then zlen frame else 2 ^ 32 - 1).

Definition frame_wire (frame : list Z) : list Z := frame_header frame ++ frame.

(** The reader drops the oldest frame when the buffer is full. *)
Definition push_frame (buf : list (list Z)) (frame : list Z) : list (list Z) :=
  (if (RX_QUEUE_CAP <=? length buf)%nat then drop 1 buf else buf) ++ [frame].

(** How the reader task stands: waiting for more bytes, or ended. *)
Inductive ReaderState := Reading | ReaderClosed.

(** [run_reader] on the bytes that have arrived and are not yet consumed; a
    [read_exact] waits until all of its bytes are there.  Every iteration that goes on
    consumes at least four bytes. *)
Fixpoint run_reader (fuel : nat) (max_frame_bytes : Z) (bytes : list Z) (rx : list (list Z))
  : list Z * list (list Z) * ReaderState :=
  match fuel with
  | O => (bytes, rx, Reading)
  | S fuel' =>
      if (length bytes <? 4)%nat then (bytes, rx, Reading)
      else
        let len := be_val (take 4 bytes) in
        let rest := drop 4 bytes in
        if max_frame_bytes <? len then (rest, rx, ReaderClosed)
        else if len =? 0 then run_reader fuel' max_frame_bytes rest rx
        else if zlen rest <? len then (bytes, rx, Reading)
        else run_reader fuel' max_frame_bytes (drop (Z.to_nat len) rest) (push_frame rx (take (Z.to_nat len) rest))
  end.

(** The backend with its two tasks: the receive buffer, the outbound channel, the
    reader with its unconsumed bytes, and the writer with all it wrote. *)
Record Gvproxy := mkGv {
  gv_rx : list (list Z);
  gv_tx : list (list Z);
  gv_unread : list Z;
  gv_reading : bool;
  gv_writing : bool;
  gv_written : list Z;
  gv_max : Z;
  gv_child : option nat
}.

(** A write of the header or of the body can fail after some bytes. *)
Inductive WriteOutcome := WroteAll | HeaderFailed (n : nat) | BodyFailed (n : nat).

Definition gv_send (g : Gvproxy) (frame : list Z) : Gvproxy :=
  if gv_writing g && (length (gv_tx g) <? TX_CHANNEL)%nat
  then mkGv (gv_rx g) (gv_tx g ++ [frame]) (gv_unread g) (gv_reading g) (gv_writing g) (gv_written g) (gv_max g) (gv_child g)
  else g.

Definition gv_recv (g : Gvproxy) : Gvproxy * list (list Z) :=
  (mkGv [] (gv_tx g) (gv_unread g) (gv_reading g) (gv_writing g) (gv_written g) (gv_max g) (gv_child g), gv_rx g).

(** One iteration of [run_writer]. *)
Definition writer_step (g : Gvproxy) (o : WriteOutcome) : Gvproxy :=
  match gv_tx g with
  | frame :: tx =>
      if gv_writing g then
        let '(out, go) :=
          match o with
          | WroteAll => (frame_wire frame, true)
          | HeaderFailed n => (take n (frame_header frame), false)
          | BodyFailed n => (frame_header frame ++ take n frame, false)
          end in
        mkGv (gv_rx g) (if go then tx else []) (gv_unread g) (gv_reading g) go (gv_written g ++ out) (gv_max g) (gv_child g)
      else g
  | [] => g
  end.

(** Bytes arrive from gvproxy. *)
Definition reader_step (g : Gvproxy) (chunk : list Z) : Gvproxy :=
  if gv_reading g then
    let bytes := gv_unread g ++ chunk in
    let '(unread, rx, st) := run_reader (S (length bytes)) (gv_max g) bytes (gv_rx g) in
    mkGv rx (gv_tx g) unread (match st with Reading => true | ReaderClosed => false end) (gv_writing g)
      (gv_written g) (gv_max g) (gv_child g)
  else g.

(** The stream ends or fails. *)
Definition reader_eof (g : Gvproxy) : Gvproxy :=
  mkGv (gv_rx g) (gv_tx g) (gv_unread g) false (gv_writing g) (gv_written g) (gv_max g) (gv_child g).

#[export] Instance Gvproxy_NetBackend : NetBackend Gvproxy := {
  nb_send := gv_send;
  nb_recv := gv_recv
}.

(** ** gvproxy: start and stop *)

Inductive GvproxyError :=
  | GvSocketPair (e : IoError)
  | GvSpawn (path : list Z) (e : IoError)
  | GvInvalidBinaryPath (reason : list Z)
  | GvInvalidExtraArg (index : nat) (reason : list Z)
  | GvIo (e : IoError).

Record GvproxyParams := mkGvParams { gp_binary_path : list Z; gp_extra_args : list (list Z); gp_max_frame_bytes : Z }.

Definition GvproxyParams_new (binary_path : list Z) : GvproxyParams := mkGvParams binary_path [] 65536.

(** Process and socket calls; [os_is_file] is [metadata(path)] with [is_file]. *)
Class ProcessHost (O : Type) := {
  os_is_file : O -> list Z -> result IoError bool;
  os_socketpair : O -> O * result IoError unit;
  os_dup : O -> O * result IoError unit;
  os_spawn : O -> list Z -> list (list Z) -> O * result IoError nat;
  os_nonblocking : O -> O * result IoError unit;
  os_register : O -> O * result IoError unit;
  os_kill : O -> nat -> O
}.

Section gvproxy_start.
Context {O : Type} `{!ProcessHost O}.

Definition validate_binary_path (o : O) (path : list Z) : result GvproxyError unit :=
  if (length path =? 0)%nat then Err (GvInvalidBinaryPath (lit "must not be empty"))
  else if bool_decide (0 ∈ path) then Err (GvInvalidBinaryPath (lit "must not contain NUL bytes"))
  else if 1024 <? zlen path then Err (GvInvalidBinaryPath (lit "exceeds PATH_MAX (1024 bytes)"))
  else match os_is_file o path with
       | Err _ => Err (GvInvalidBinaryPath (lit "could not stat binary path"))
       | Ok false => Err (GvInvalidBinaryPath (lit "not a regular file"))
       | Ok true => Ok tt
       end.

Fixpoint check_args (i : nat) (args : list (list Z)) : result GvproxyError unit :=
  match args with
  | [] => Ok tt
  | a :: args' =>
      if 512 <? zlen a then Err (GvInvalidExtraArg i (lit "exceeds 512 bytes"))
      else if bool_decide (0 ∈ a) then Err (GvInvalidExtraArg i (lit "contains NUL byte"))
      else check_args (S i) args'
  end.

Definition validate_extra_args (args : list (list Z)) : result GvproxyError unit :=
  if 32 <? zlen args then Err (GvInvalidExtraArg 32 (lit "more than 32 extra args"))
  else check_args 0 args.

(** A child spawned before a later step fails is killed when it is dropped. *)
Definition GvproxyBackend_start (params : GvproxyParams) : stm O GvproxyError Gvproxy :=
  fun o =>
  match (let? _ := validate_binary_path o (gp_binary_path params) in validate_extra_args (gp_extra_args params)) with
  | Err e => (o, Err e)
  | Ok _ =>
      let (o, pair) := os_socketpair o in
      match pair with
      | Err e => (o, Err (GvSocketPair e))
      | Ok _ =>
          let (o, dup) := os_dup o in
          match dup with
          | Err e => (o, Err (GvIo e))
          | Ok _ =>
              let (o, child) := os_spawn o (gp_binary_path params) (gp_extra_args params) in
              match child with
              | Err e => (o, Err (GvSpawn (gp_binary_path params) e))
              | Ok pid =>
                  let (o, nb) := os_nonblocking o in
                  match nb with
                  | Err e => (os_kill o pid, Err (GvIo e))
                  | Ok _ =>
                      let (o, reg) := os_register o in
                      match reg with
                      | Err e => (os_kill o pid, Err (GvIo e))
                      | Ok _ => (o, Ok (mkGv [] [] [] true true [] (gp_max_frame_bytes params) (Some pid)))
                      end
                  end
              end
          end
      end
  end.

(** [Drop]: the child is killed once, and the channel closes. *)
Definition Gvproxy_drop (o : O) (g : Gvproxy) : O * Gvproxy :=
  match gv_child g with
  | Some pid =>
      (os_kill o pid, mkGv (gv_rx g) (gv_tx g) (gv_unread g) (gv_reading g) (gv_writing g) (gv_written g) (gv_max g) None)
  | None => (o, g)
  end.
End gvproxy_start.

(** ** The backend of a mode *)

Inductive NetHostBackend (V : Type) :=
  | NbVmnet (b : VmnetHostBackend V)
  | NbGvproxy (b : Gvproxy)
  | NbLoopback (b : LoopbackBackend).
Arguments NbVmnet {V}.
Arguments NbGvproxy {V}.
Arguments NbLoopback {V}.

Section host_backend.
Context {V D : Type} `{!Vmnet V D}.

Definition host_send (b : NetHostBackend V) (frame : list Z) : NetHostBackend V :=
  match b with
  | NbVmnet b => NbVmnet (nb_send b frame)
  | NbGvproxy b => NbGvproxy (nb_send b frame)
  | NbLoopback b => NbLoopback (nb_send b frame)
  end.

Definition host_recv (b : NetHostBackend V) : NetHostBackend V * list (list Z) :=
  match b with
  | NbVmnet b => let (b, fs) := nb_recv b in (NbVmnet b, fs)
  | NbGvproxy b => let (b, fs) := nb_recv b in (NbGvproxy b, fs)
  | NbLoopback b => let (b, fs) := nb_recv b in (NbLoopback b, fs)
  end.
End host_backend.

#[export] Instance Host_NetBackend {V D} `{!Vmnet V D} : NetBackend (NetHostBackend V) := {
  nb_send := host_send;
  nb_recv := host_recv
}.

(** ** The framing *)

(** The frames in a byte stream, what is left of it, and whether the reader is still
    reading. *)
Fixpoint deframe (fuel : nat) (max : Z) (bytes : list Z) : list Z * list (list Z) * ReaderState :=
  match fuel with
  | O => (bytes, [], Reading)
  | S fuel' =>
      if (length bytes <? 4)%nat then (bytes, [], Reading)
      else
        let len := be_val (take 4 bytes) in
        let rest := drop 4 bytes in
        if max <? len then (rest, [], ReaderClosed)
        else if len =? 0 then deframe fuel' max rest
        else if zlen rest <? len then (bytes, [], Reading)
        else let '(u, fs, st) := deframe fuel' max (drop (Z.to_nat len) rest) in
             (u, take (Z.to_nat len) rest :: fs, st)
  end.

Definition deframed (max : Z) (bytes : list Z) : list Z * list (list Z) * ReaderState :=
  deframe (S (length bytes)) max bytes.
#[local] Arguments deframed : simpl never.

Lemma run_reader_deframe max : forall fuel bytes rx,
  run_reader fuel max bytes rx =
  let '(u, fs, st) := deframe fuel max bytes in (u, foldl push_frame rx fs, st).
Proof.
  induction fuel as [|fuel IH]; intros bytes rx; [done|]. cbn [run_reader deframe].
  destruct (length bytes <? 4)%nat; [done|]. destruct (max <? _); [done|].
  destruct (_ =? 0); [apply IH|]. destruct (_ <? _); [done|]. rewrite IH.
  by destruct (deframe fuel max _) as [[u fs] st].
Qed.

(** More fuel than bytes is enough. *)
Lemma deframe_fuel max : forall fuel1 fuel2 bytes,
  (length bytes < fuel1)%nat -> (length bytes < fuel2)%nat -> deframe fuel1 max bytes = deframe fuel2 max bytes.
Proof.
  induction fuel1 as [|f1 IH]; intros [|f2] bytes H1 H2; try lia. cbn [deframe].
  destruct (Nat.ltb_spec (length bytes) 4); [done|]. destruct (max <? _); [done|].
  destruct (_ =? 0); [by apply IH; rewrite length_drop; lia|]. destruct (_ <? _); [done|].
  rewrite (IH f2) by (rewrite !length_drop; lia). done.
Qed.

Lemma deframe_enough max fuel bytes : (length bytes < fuel)%nat -> deframe fuel max bytes = deframed max bytes.
Proof. intros H. apply deframe_fuel; lia. Qed.

Lemma deframed_step max bytes :
  deframed max bytes =
  if (length bytes <? 4)%nat then (bytes, [], Reading)
  else
    let len := be_val (take 4 bytes) in
    let rest := drop 4 bytes in
    if max <? len then (rest, [], ReaderClosed)
    else if len =? 0 then deframed max rest
    else if zlen rest <? len then (bytes, [], Reading)
    else let '(u, fs, st) := deframed max (drop (Z.to_nat len) rest) in
         (u, take (Z.to_nat len) rest :: fs, st).
Proof.
  unfold deframed at 1. cbn [deframe]. destruct (Nat.ltb_spec (length bytes) 4); [done|].
  rewrite !deframe_enough by (rewrite ?length_drop; lia). done.
Qed.

(** Bytes may arrive in any pieces. *)
Lemma deframed_app max n : forall a b, (length a < n)%nat ->
  deframed max (a ++ b) =
  let '(u, fs, st) := deframed max a in
  match st with
  | ReaderClosed => (u ++ b, fs, ReaderClosed)
  | Reading => let '(u', fs', st') := deframed max (u ++ b) in (u', fs ++ fs', st')
  end.
Proof.
  induction n as [|n IH]; intros a b Hn; [lia|].
  rewrite (deframed_step max a). destruct (Nat.ltb_spec (length a) 4) as [Hs|Hs].
  { by destruct (deframed max (a ++ b)) as [[u fs] st]. }
  assert (Hab : deframed max (a ++ b) = deframed max (a ++ b)) by done.
  rewrite (deframed_step max (a ++ b)) in Hab at 1.
  rewrite (proj2 (Nat.ltb_ge _ _)) in Hab by (rewrite length_app; lia). cbn zeta in *.
  rewrite take_app_le, drop_app_le in Hab by lia.
  destruct (max <? be_val (take 4 a)) eqn:Hm; [by rewrite <- Hab|]. destruct (_ =? 0) eqn:Hz.
  { rewrite <- Hab, IH by (rewrite length_drop; lia). done. }
  destruct (Z.ltb_spec (zlen (drop 4 a)) (be_val (take 4 a))) as [Hl|Hl].
  { by destruct (deframed max (a ++ b)) as [[u fs] st]. }
  unfold zlen in *. rewrite (proj2 (Z.ltb_ge _ _)) in Hab by (rewrite length_app; lia).
  apply Z.eqb_neq in Hz. rewrite take_app_le, drop_app_le in Hab by lia. rewrite <- Hab, IH by (rewrite !length_drop; lia).
  destruct (deframed max (drop (Z.to_nat _) (drop 4 a))) as [[u fs] []]; [|done].
  by destruct (deframed max (u ++ b)) as [[u' fs'] st'].
Qed.

Definition frame_ok (max : Z) (f : list Z) : Prop := 0 < zlen f <= max.

Lemma frame_wire_length f : length (frame_wire f) = (4 + length f)%nat.
Proof. unfold frame_wire, frame_header. by rewrite length_app, be_bytes_length. Qed.

Lemma deframed_frame max f rest :
  max < 2 ^ 32 -> frame_ok max f ->
  deframed max (frame_wire f ++ rest) = let '(u, fs, st) := deframed max rest in (u, f :: fs, st).
Proof.
  intros Hmax [Hp Hl]. rewrite deframed_step, (proj2 (Nat.ltb_ge _ _)) by (rewrite length_app, frame_wire_length; lia).
  unfold frame_wire. rewrite <- (assoc_L (++)).
  assert (H4 : length (frame_header f) = 4%nat) by apply be_bytes_length.
  rewrite take_app_length', drop_app_length' by done. cbn zeta.
  assert (be_val (frame_header f) = zlen f) as ->.
  { unfold frame_header. rewrite (proj2 (Z.ltb_lt _ _)) by lia. apply be_val_bytes_id. unfold in_u. lia. }
  rewrite (proj2 (Z.ltb_ge _ _)), (proj2 (Z.eqb_neq _ _)) by lia. unfold zlen in *.
  rewrite (proj2 (Z.ltb_ge _ _)) by (rewrite length_app; lia).
  by rewrite Nat2Z.id, take_app_length, drop_app_length.
Qed.

(** The reader inverts the writer. *)
Lemma deframed_frames max fs rest :
  max < 2 ^ 32 -> Forall (frame_ok max) fs ->
  deframed max (concat (map frame_wire fs) ++ rest) = let '(u, gs, st) := deframed max rest in (u, fs ++ gs, st).
Proof.
  intros Hmax. induction 1 as [|f fs Hf _ IH]; cbn [map concat].
  - cbn [app]. by destruct (deframed max rest) as [[u gs] st].
  - rewrite <- (assoc_L (++)), deframed_frame, IH by done. by destruct (deframed max rest) as [[u gs] st].
Qed.

(** ** The link, whatever the order of events *)

Inductive GvEvent :=
  | EvSend (frame : list Z)
  | EvRecv
  | EvWrite (o : WriteOutcome)
  | EvChunk (bytes : list Z)
  | EvEof.

Definition gv_step (g : Gvproxy) (e : GvEvent) : Gvproxy * list (list Z) :=
  match e with
  | EvSend f => (gv_send g f, [])
  | EvRecv => gv_recv g
  | EvWrite o => (writer_step g o, [])
  | EvChunk bytes => (reader_step g bytes, [])
  | EvEof => (reader_eof g, [])
  end.

(** The state after the events and the frames handed to the device. *)
Fixpoint gv_run (g : Gvproxy) (es : list GvEvent) : Gvproxy * list (list Z) :=
  match es with
  | [] => (g, [])
  | e :: es' =>
      let r := gv_step g e in
      let r' := gv_run r.1 es' in
      (r'.1, r.2 ++ r'.2)
  end.

(** The frames the device sent, and the bytes that arrived before the end of the stream. *)
Fixpoint gv_sends (es : list GvEvent) : list (list Z) :=
  match es with
  | [] => []
  | EvSend f :: es' => f :: gv_sends es'
  | _ :: es' => gv_sends es'
  end.

Fixpoint gv_received (es : list GvEvent) : list Z :=
  match es with
  | [] | EvEof :: _ => []
  | EvChunk bytes :: es' => bytes ++ gv_received es'
  | _ :: es' => gv_received es'
  end.

Lemma push_sublist rx f : push_frame rx f `sublist_of` rx ++ [f].
Proof. unfold push_frame. destruct (_ <=? _)%nat; [|done]. apply sublist_app; [apply sublist_drop|done]. Qed.

Lemma pushes_sublist fs : forall rx, foldl push_frame rx fs `sublist_of` rx ++ fs.
Proof.
  induction fs as [|f fs IH]; intros rx; cbn; [by rewrite app_nil_r|].
  etrans; [apply IH|]. rewrite (cons_middle f rx fs), (assoc_L (++)). apply sublist_app; [apply push_sublist|done].
Qed.

Lemma pushes_all fs : forall rx, (length (rx ++ fs) <= RX_QUEUE_CAP)%nat -> foldl push_frame rx fs = rx ++ fs.
Proof.
  induction fs as [|f fs IH]; intros rx H; cbn [foldl]; [by rewrite app_nil_r|].
  rewrite length_app in H. cbn [length] in H. assert (Hp : push_frame rx f = rx ++ [f]).
  { unfold push_frame. by rewrite (proj2 (Nat.leb_gt _ _)) by lia. }
  rewrite Hp. rewrite IH by (rewrite !length_app; cbn; lia). by rewrite <- (assoc_L (++)).
Qed.

Lemma pushes_bound fs : forall rx, (length rx <= RX_QUEUE_CAP)%nat -> (length (foldl push_frame rx fs) <= RX_QUEUE_CAP)%nat.
Proof.
  induction fs as [|f fs IH]; intros rx H; cbn [foldl]; [done|]. apply IH. unfold push_frame.
  destruct (Nat.leb_spec RX_QUEUE_CAP (length rx)); rewrite length_app, ?length_drop; cbn [length]; unfold RX_QUEUE_CAP in *; lia.
Qed.

(** Frames [have] reach the device in order; all of them while the buffer never fills. *)
Definition delivers (have got : list (list Z)) : Prop :=
  got `sublist_of` have /\ ((length have <= RX_QUEUE_CAP)%nat -> got = have).

Lemma delivers_refl l : delivers l l.
Proof. by split. Qed.

Lemma delivers_push rx fs more got :
  delivers (foldl push_frame rx fs ++ more) got -> delivers (rx ++ fs ++ more) got.
Proof.
  intros [Hs He]. rewrite (assoc_L (++)). split.
  - etrans; [exact Hs|]. apply sublist_app; [apply pushes_sublist|done].
  - intros Hl. assert (Hp : foldl push_frame rx fs = rx ++ fs).
    { apply pushes_all. rewrite !length_app in *. lia. }
    rewrite Hp in He. by apply He.
Qed.

Definition gv_frames (g : Gvproxy) (es : list GvEvent) : list (list Z) :=
  if gv_reading g then (deframed (gv_max g) (gv_unread g ++ gv_received es)).1.2 else [].

(** The reader has consumed what it can. *)
Definition gv_settled (g : Gvproxy) : Prop :=
  gv_reading g = true -> deframed (gv_max g) (gv_unread g) = (gv_unread g, [], Reading).

Lemma deframed_idem max n : forall bytes u fs, (length bytes < n)%nat ->
  deframed max bytes = (u, fs, Reading) -> deframed max u = (u, [], Reading).
Proof.
  induction n as [|n IH]; intros bytes u fs Hn H; [lia|]. pose proof H as H'. rewrite deframed_step in H.
  destruct (Nat.ltb_spec (length bytes) 4) as [Hs|Hs]; [by injection H as <- <-|]. cbn zeta in H.
  destruct (_ <? _); [done|]. destruct (_ =? 0); [eapply IH, H; rewrite length_drop; lia|].
  destruct (_ <? _); [by injection H as <- <-|].
  destruct (deframed max (drop _ _)) as [[u' fs'] st] eqn:Hd. injection H as -> _ ->.
  eapply IH, Hd. rewrite !length_drop. lia.
Qed.

Lemma reader_step_eq g bytes :
  gv_reading g = true ->
  let '(u, fs, st) := deframed (gv_max g) (gv_unread g ++ bytes) in
  reader_step g bytes =
  mkGv (foldl push_frame (gv_rx g) fs) (gv_tx g) u (match st with Reading => true | ReaderClosed => false end)
    (gv_writing g) (gv_written g) (gv_max g) (gv_child g).
Proof.
  intros Hr. unfold reader_step. rewrite Hr, run_reader_deframe. fold (deframed (gv_max g) (gv_unread g ++ bytes)).
  by destruct (deframed _ _) as [[u fs] st].
Qed.

Lemma gv_rx_run es : forall g, gv_settled g ->
  let r := gv_run g es in
  delivers (gv_rx g ++ gv_frames g es) (r.2 ++ gv_rx r.1) /\
  ((length (gv_rx g) <= RX_QUEUE_CAP)%nat -> (length (gv_rx r.1) <= RX_QUEUE_CAP)%nat).
Proof.
  induction es as [|e es IH]; intros g Hset; cbn [gv_run].
  { unfold gv_frames. cbn. rewrite app_nil_r. destruct (gv_reading g) eqn:Hr; [rewrite Hset by done|];
      cbn; rewrite app_nil_r; (split; [apply delivers_refl|done]). }
  destruct e as [f| |o|bytes|]; cbn [gv_step fst snd app].
  - assert (gv_settled (gv_send g f)) as Hs' by (unfold gv_send; by destruct (_ && _)).
    specialize (IH _ Hs'). cbn zeta in IH. unfold gv_send in *. by destruct (_ && _).
  - destruct (IH (gv_recv g).1 Hset) as [[Hsub Heq] Hb]. cbn in Hsub, Heq, Hb. unfold gv_frames in *. cbn in *.
    split; [|intros; apply Hb; unfold RX_QUEUE_CAP; lia]. rewrite <- (assoc_L (++)). split; [by apply sublist_app|].
    intros Hl. rewrite Heq; [done|]. rewrite length_app in Hl. lia.
  - assert (gv_settled (writer_step g o)) as Hs'.
    { unfold writer_step. destruct (gv_tx g); [done|]. destruct (gv_writing g); [|done]. by destruct o. }
    specialize (IH _ Hs'). cbn zeta in IH. unfold writer_step in *. destruct (gv_tx g); [done|].
    destruct (gv_writing g); [|done]. by destruct o.
  - destruct (gv_reading g) eqn:Hr; cycle 1.
    { assert (reader_step g bytes = g) as Hg by (unfold reader_step; by rewrite Hr). rewrite Hg.
      specialize (IH g Hset). cbn zeta in IH. unfold gv_frames in *. by rewrite Hr in *. }
    pose proof (reader_step_eq g bytes Hr) as Hg. unfold gv_frames. rewrite Hr. cbn [gv_received].
    rewrite (assoc_L (++)), (deframed_app _ (S (length (gv_unread g ++ bytes)))) by lia.
    destruct (deframed (gv_max g) (gv_unread g ++ bytes)) as [[u fs] st] eqn:Hd. rewrite Hg.
    destruct (IH (reader_step g bytes)) as [Hdel Hb].
    { rewrite Hg. intros Hre. cbn in *. destruct st; [|done]. eapply (deframed_idem _ (S (length (gv_unread g ++ bytes)))), Hd. lia. }
    rewrite Hg in Hdel, Hb. unfold gv_frames in Hdel. cbn [gv_reading gv_max gv_unread gv_rx] in Hdel, Hb.
    split; [|intros Hl; by apply Hb, pushes_bound].
    destruct st; [destruct (deframed _ (u ++ gv_received es)) as [[u' fs'] st']; by apply delivers_push|].
    apply (delivers_push _ _ []) in Hdel. by rewrite app_nil_r in Hdel.
  - specialize (IH (reader_eof g) ltac:(done)). cbn zeta in IH. unfold gv_frames in *. cbn [gv_received].
    rewrite app_nil_r. destruct (gv_reading g) eqn:Hr; [rewrite Hset by done|]; exact IH.
Qed.

(** The transmit side: [done] is what the writer finished, [part] what a failed write
    left on the socket. *)
Record gv_sent (g g' : Gvproxy) (sends done : list (list Z)) (part : list Z) : Prop := mkGvSent {
  gs_written : gv_written g' = gv_written g ++ concat (map frame_wire done) ++ part;
  gs_whole : gv_writing g' = true -> part = [];
  gs_order : done ++ gv_tx g' `sublist_of` gv_tx g ++ sends;
  gs_all : gv_writing g' = true -> (length (gv_tx g ++ sends) <= TX_CHANNEL)%nat -> done ++ gv_tx g' = gv_tx g ++ sends
}.

Lemma gv_stopped es : forall g, gv_writing g = false ->
  let g' := (gv_run g es).1 in gv_writing g' = false /\ gv_written g' = gv_written g /\ gv_tx g' = gv_tx g.
Proof.
  induction es as [|e es IH]; intros g Hw; [done|]. cbn [gv_run fst].
  assert (He : gv_writing (gv_step g e).1 = false /\ gv_written (gv_step g e).1 = gv_written g /\ gv_tx (gv_step g e).1 = gv_tx g).
  { destruct e as [f| |o|bytes|]; cbn; try done.
    - unfold gv_send. by rewrite Hw.
    - unfold writer_step. rewrite Hw. by destruct (gv_tx g) eqn:Ht; rewrite ?Ht.
    - unfold reader_step. destruct (gv_reading g); [|done]. by destruct (run_reader _ _ _ _) as [[u rx] []]. }
  destruct He as (Hw' & Hwr & Htx). destruct (IH _ Hw') as (? & -> & ->). by rewrite Hwr, Htx.
Qed.

Lemma gv_sent_skip g g1 g' sends done part :
  gv_written g1 = gv_written g -> gv_tx g1 = gv_tx g ->
  gv_sent g1 g' sends done part -> gv_sent g g' sends done part.
Proof. intros Hw Ht [H1 H2 H3 H4]. rewrite Hw, Ht in *. by constructor. Qed.

Lemma gv_tx_run es : forall g, gv_writing g = true ->
  exists done part, gv_sent g (gv_run g es).1 (gv_sends es) done part.
Proof.
  induction es as [|e es IH]; intros g Hw; cbn [gv_run fst gv_sends].
  { exists [], []. constructor; cbn; rewrite ?app_nil_r; done. }
  destruct e as [f| |o|bytes|]; cbn [gv_step fst snd].
  - unfold gv_send. rewrite Hw. cbn [andb]. destruct (Nat.ltb_spec (length (gv_tx g)) TX_CHANNEL) as [Hl|Hl].
    + destruct (IH (mkGv (gv_rx g) (gv_tx g ++ [f]) (gv_unread g) (gv_reading g) true (gv_written g) (gv_max g) (gv_child g)) eq_refl)
        as (done & part & [H1 H2 H3 H4]).
      cbn in H1, H3, H4. rewrite <- (assoc_L (++)) in H3, H4. exists done, part. by constructor.
    + destruct (IH g Hw) as (done & part & [H1 H2 H3 H4]). exists done, part. constructor; try done.
      * etrans; [exact H3|]. by apply sublist_app; [|apply sublist_cons].
      * intros _ Hx. rewrite length_app in Hx. cbn in Hx. lia.
  - destruct (IH (gv_recv g).1 Hw) as (done & part & H). exists done, part. by eapply gv_sent_skip, H.
  - unfold writer_step. rewrite Hw. destruct (gv_tx g) as [|frame tx] eqn:Htx.
    { destruct (IH g Hw) as (done & part & H). by exists done, part. }
    destruct o as [|n|n].
    + destruct (IH (mkGv (gv_rx g) tx (gv_unread g) (gv_reading g) true (gv_written g ++ frame_wire frame) (gv_max g) (gv_child g)) eq_refl)
        as (done & part & [H1 H2 H3 H4]). cbn in H1, H3, H4. exists (frame :: done), part.
      constructor; rewrite ?Htx; cbn; [by rewrite H1, <- !(assoc_L (++))|done|by apply sublist_skip|].
      intros Hgo Hx. rewrite H4; [done|done|lia].
    + destruct (gv_stopped es (mkGv (gv_rx g) [] (gv_unread g) (gv_reading g) false (gv_written g ++ take n (frame_header frame)) (gv_max g) (gv_child g)) eq_refl)
        as (H1 & H2 & H3). exists [], (take n (frame_header frame)).
      constructor; [by rewrite H2|by rewrite H1|rewrite H3; apply sublist_nil_l|by rewrite H1].
    + destruct (gv_stopped es (mkGv (gv_rx g) [] (gv_unread g) (gv_reading g) false (gv_written g ++ frame_header frame ++ take n frame) (gv_max g) (gv_child g)) eq_refl)
        as (H1 & H2 & H3). exists [], (frame_header frame ++ take n frame).
      constructor; [by rewrite H2|by rewrite H1|rewrite H3; apply sublist_nil_l|by rewrite H1].
  - assert (gv_writing (reader_step g bytes) = true /\ gv_written (reader_step g bytes) = gv_written g /\
            gv_tx (reader_step g bytes) = gv_tx g) as (Hw' & Hwr & Htx).
    { unfold reader_step. destruct (gv_reading g); [|done]. by destruct (run_reader _ _ _ _) as [[u rx] []]. }
    destruct (IH _ Hw') as (done & part & H). exists done, part. by eapply gv_sent_skip, H.
  - destruct (IH (reader_eof g) Hw) as (done & part & H). exists done, part. by eapply gv_sent_skip, H.
Qed.

(** A freshly started gvproxy backend. *)
Definition gv_fresh (max : Z) (pid : nat) : Gvproxy := mkGv [] [] [] true true [] max (Some pid).

(** C20: Over any interleaving of the device, the reader, the writer and the socket:
    the bytes written are the length-prefixed frames the device sent, in
    order, each at most once and whole unless the socket failed, and none is lost while
    at most 256 were sent; and whatever the pieces in which a framed stream arrives,
    the device receives its frames in order, all of them while at most 256 arrived,
    with never more than 256 buffered. *)
Theorem gvproxy_link_exact max pid es fs tail :
  max < 2 ^ 32 -> Forall (frame_ok max) fs ->
  gv_received es = concat (map frame_wire fs) ++ tail -> (deframed max tail).1.2 = [] ->
  let r := gv_run (gv_fresh max pid) es in
  delivers fs (r.2 ++ gv_rx r.1) /\ (length (gv_rx r.1) <= RX_QUEUE_CAP)%nat /\
  exists done part, gv_sent (gv_fresh max pid) r.1 (gv_sends es) done part.
Proof.
  intros Hmax Hfs Hrec Htail r. destruct (gv_rx_run es (gv_fresh max pid)) as [Hd Hb]; [done|].
  unfold gv_frames in Hd. cbn in Hd. rewrite Hrec, deframed_frames in Hd by done.
  destruct (deframed max tail) as [[u gs] st]. cbn in Htail, Hd. subst gs. rewrite app_nil_r in Hd.
  split; [done|]. split; [apply Hb; cbn; unfold RX_QUEUE_CAP; lia|]. by apply gv_tx_run.
Qed.

(** Two frames arrive in three pieces around a receive, while one is sent. *)
Lemma gvproxy_link_exact_witness :
  let r := gv_run (gv_fresh 65536 7)
             [EvChunk [0; 0]; EvSend [9; 9]; EvChunk [0; 2; 1]; EvWrite WroteAll; EvChunk [2; 0; 0; 0; 1; 3; 0]; EvRecv] in
  r.2 = [[1; 2]; [3]] /\ gv_written r.1 = [0; 0; 0; 2; 9; 9].
Proof.
  pose proof (gvproxy_link_exact 65536 7
    [EvChunk [0; 0]; EvSend [9; 9]; EvChunk [0; 2; 1]; EvWrite WroteAll; EvChunk [2; 0; 0; 0; 1; 3; 0]; EvRecv]
    [[1; 2]; [3]] [0]) as H.
  destruct H as ([_ Hall] & _ & _).
  - lia.
  - repeat (apply List.Forall_cons; [split; vm_compute; [reflexivity|discriminate]|]). apply List.Forall_nil.
  - vm_compute. reflexivity.
  - vm_compute. reflexivity.
  - split; [|vm_compute; reflexivity]. assert (Hr : (2 <= RX_QUEUE_CAP)%nat) by (unfold RX_QUEUE_CAP; lia).
    specialize (Hall Hr). vm_compute in Hall |- *. exact Hall.
Defined.

(** ** The batching backend keeps the order *)

(** What the framework promises: [vmnet_write] takes the reported number of packets from
    the front, and [vmnet_read] fills the buffers it is given. *)
Class VmnetLaws (V D : Type) `{!Vmnet V D} := {
  vm_accepted : V -> list (list Z);
  write_accepts : forall v h fs,
    let out := vmnet_write v h fs in
    vm_accepted out.1 =
    vm_accepted v ++ (if out.2.1 =? VmnetReturn_code VrSuccess then take (delivered_count out.2.2 (length fs)) fs else []);
  read_keeps : forall v h bufs, vm_accepted (vmnet_read v h bufs).1 = vm_accepted v;
  read_fills : forall v h bufs, Forall2 (fun (p : Z * list Z) n => length p.2 = n) (vmnet_read v h bufs).2.2 bufs
}.

Section batching.
Context {V D : Type} `{!Vmnet V D, !VmnetLaws V D}.

(** The interface is up. *)
Definition started (i : VmnetIface) : Prop := exists inner h, vi_inner i = Some inner /\ in_handle inner = Some h.

(** The framework takes every packet it is given. *)
Definition reliable : Prop := forall v h fs, (vmnet_write v h fs).2 = (VmnetReturn_code VrSuccess, zlen fs).

(** A step of the backend that hands [offered] to the framework. *)
Record hands_over (v v' : V) (i i' : VmnetIface) (offered : list (list Z)) : Prop := mkHands {
  ho_keeps : started i -> started i';
  ho_mtu : iface_mtu i' = iface_mtu i;
  ho_taken : exists taken, vm_accepted v' = vm_accepted v ++ taken /\ taken `sublist_of` offered /\
    (reliable -> started i -> taken = offered)
}.

Lemma hands_nothing v i offered : (reliable -> started i -> offered = []) -> hands_over v v i i offered.
Proof.
  intros H. split; [done|done|]. exists []. rewrite app_nil_r. split; [done|]. split; [apply sublist_nil_l|].
  intros Hr Hs. by rewrite H.
Qed.

Lemma iface_write_hands v i fs :
  (length fs <= BATCH)%nat ->
  let r := iface_write v i fs in
  hands_over v r.1.1 i r.1.2 fs /\ (reliable -> started i -> exists n, r.2 = Ok n).
Proof.
  intros Hl r. subst r. unfold iface_write. destruct (vi_inner i) as [inner|] eqn:Hi; cycle 1.
  { cbn. split; [apply hands_nothing|]; intros _ (? & ? & ? & _); congruence. }
  unfold write_frames. destruct (in_handle inner) as [h|] eqn:Hh; cycle 1.
  { cbn. split; [|eauto]. destruct i as [name oi]. cbn in *. subst oi.
    apply hands_nothing. intros _ (inn & h & Hin & ?). cbn in Hin. congruence. }
  rewrite (Nat.min_l _ _ Hl). destruct (Nat.eqb_spec (length fs) 0) as [H0|H0].
  { apply nil_length_inv in H0 as ->. cbn. split; [|eauto]. destruct i as [name oi]. cbn in *. subst oi. by apply hands_nothing. }
  rewrite firstn_all. pose proof (write_accepts v h fs) as Ha.
  destruct (vmnet_write v h fs) as [v' [rc count]] eqn:Hw. cbn in Ha |- *.
  destruct (rc =? 1000) eqn:Hrc; cbn.
  - split; [|eauto]. split; cbn; [intros _; by eexists _, _|by unfold iface_mtu; rewrite Hi|].
    eexists. split; [exact Ha|]. split; [apply sublist_take|]. intros Hr _. specialize (Hr v h fs). rewrite Hw in Hr.
    injection Hr as -> ->. unfold delivered_count, zlen. rewrite take_ge; [done|]. lia.
  - split.
    + split; cbn; [intros _; by eexists _, _|by unfold iface_mtu; rewrite Hi|]. exists []. split; [done|].
      split; [apply sublist_nil_l|]. intros Hr _. specialize (Hr v h fs). rewrite Hw in Hr. by injection Hr as -> ->.
    + intros Hr _. specialize (Hr v h fs). rewrite Hw in Hr. by injection Hr as -> ->.
Qed.

Lemma write_chunks_hands cs : forall v i, Forall (fun c => (length c <= BATCH)%nat) cs ->
  let r := write_chunks v i cs in hands_over v r.1.1 i r.1.2 (concat cs).
Proof.
  induction cs as [|c cs IH]; intros v i Hl; [by apply hands_nothing|]. apply Forall_cons_iff in Hl as [Hc Hl].
  cbn [write_chunks concat]. destruct (iface_write_hands v i c Hc) as [[Hk Hm (t & Ht & Hs & Hr)] Hok].
  destruct (iface_write v i c) as [[v1 i1] [n|e]]; cbn in *.
  - destruct (IH v1 i1 Hl) as [Hk1 Hm1 (t1 & Ht1 & Hs1 & Hr1)]. split; [by auto|by rewrite Hm1|].
    exists (t ++ t1). rewrite Ht1, Ht, (assoc_L (++)). split; [done|]. split; [by apply sublist_app|].
    intros R S. rewrite Hr, Hr1 by auto. done.
  - split; [done|done|]. exists t. split; [done|]. split; [by apply sublist_inserts_r|].
    intros R S. by destruct (Hok R S).
Qed.

Lemma chunks_ok fuel : forall l, (length l <= fuel)%nat ->
  concat (chunks fuel l) = l /\ Forall (fun c => (length c <= BATCH)%nat) (chunks fuel l).
Proof.
  induction fuel as [|fuel IH]; intros [|x l] Hl; cbn [chunks concat]; try (by split; [|constructor]); [cbn in Hl; lia|].
  destruct (IH (drop BATCH (x :: l))) as [Hc Hf]; [rewrite length_drop; cbn in *; unfold BATCH; lia|].
  rewrite Hc, take_drop. split; [done|]. constructor; [rewrite length_take; lia|done].
Qed.

Lemma flush_hands b :
  let b' := (flush_tx b).1 in
  hands_over (vb_world b) (vb_world b') (vb_iface b) (vb_iface b') (vb_tx_queue b) /\ vb_tx_queue b' = [].
Proof.
  unfold flush_tx. destruct (vb_tx_queue b) as [|f q] eqn:Hq; [by split; [apply hands_nothing|]|].
  destruct (chunks_ok (length (f :: q)) (f :: q)) as [Hc Hf]; [done|].
  pose proof (write_chunks_hands _ (vb_world b) (vb_iface b) Hf) as H. rewrite Hc in H.
  destruct (write_chunks _ _ _) as [[v i] r]. by split.
Qed.

Inductive NbEvent := NbSend (frame : list Z) | NbRecv.

Fixpoint nb_run (b : VmnetHostBackend V) (es : list NbEvent) : VmnetHostBackend V * list (list (list Z)) :=
  match es with
  | [] => (b, [])
  | NbSend f :: es' => nb_run (nb_send b f) es'
  | NbRecv :: es' =>
      let r := nb_recv b in
      let r' := nb_run r.1 es' in
      (r'.1, r.2 :: r'.2)
  end.

Fixpoint nb_sends (es : list NbEvent) : list (list Z) :=
  match es with
  | [] => []
  | NbSend f :: es' => f :: nb_sends es'
  | NbRecv :: es' => nb_sends es'
  end.

(** What a batch of receives gives: at most 32 frames, none longer than its buffer. *)
Definition rx_bounded (mtu : Z) (frames : list (list Z)) : Prop :=
  (length frames <= RX_BATCH_DEPTH)%nat /\ Forall (fun f => zlen f <= Z.max mtu 1500 + 32) frames.

Lemma iface_read_spec v i bufs size :
  0 <= size -> Forall (fun n => Z.of_nat n <= size) bufs -> (length bufs <= RX_BATCH_DEPTH)%nat ->
  let r := iface_read v i bufs in
  hands_over v r.1.1 i r.1.2 [] /\
  match r.2 with
  | Ok pkts => (length pkts <= RX_BATCH_DEPTH)%nat /\ Forall (fun f => zlen f <= size) (map rx_frame pkts)
  | Err _ => True
  end.
Proof.
  intros Hsz Hb Hl r. subst r. unfold iface_read. destruct (vi_inner i) as [inner|] eqn:Hi; [|by split; [apply hands_nothing|]].
  assert (Hsame : {| vi_iface_id := vi_iface_id i; vi_inner := Some inner |} = i) by (destruct i; cbn in *; congruence).
  assert (H0 : (length (A := Z * list Z) [] <= RX_BATCH_DEPTH)%nat /\ Forall (fun f => zlen f <= size) (map rx_frame [])).
  { split; [cbn; lia|constructor]. }
  unfold read_into_sized. destruct (in_handle inner) as [h|] eqn:Hh; [|cbn; rewrite Hsame; split; [by apply hands_nothing|done]].
  destruct (_ =? 0)%nat; [cbn; rewrite Hsame; split; [by apply hands_nothing|done]|].
  set (n := Nat.min (length bufs) BATCH). pose proof (read_keeps v h (take n bufs)) as Hk.
  pose proof (read_fills v h (take n bufs)) as Hf.
  destruct (vmnet_read v h (take n bufs)) as [v' [[rc count] pkts]]. cbn in Hk, Hf |- *.
  assert (Hh' : forall i', started i' -> iface_mtu i' = iface_mtu i -> hands_over v v' i i' []).
  { intros i' Hs Hm. split; [done|done|]. exists []. by rewrite app_nil_r. }
  destruct (rc =? 1000); cbn; [|split; [|done]; apply Hh'; [by exists inner, h|unfold iface_mtu; by rewrite Hi]].
  split; [apply Hh'; [by eexists _, h|unfold iface_mtu; by rewrite Hi]|]. split.
  - rewrite length_take. pose proof (Forall2_length _ _ _ Hf) as He. rewrite length_take in He. subst n. unfold BATCH, RX_BATCH_DEPTH in *. lia.
  - apply Forall_map, Forall_take. assert (Hbt : Forall (fun n => Z.of_nat n <= size) (take n bufs)) by (by apply Forall_take).
    clear - Hf Hbt. induction Hf as [|p m pkts bufs' Hp _ IH]; [constructor|].
    apply Forall_cons_iff in Hbt as [Hm Hbt]. constructor; [|by apply IH].
    unfold rx_frame, zlen. rewrite length_take. lia.
Qed.

Lemma vmnet_recv_hands b :
  let r := vmnet_recv b in
  hands_over (vb_world b) (vb_world r.1) (vb_iface b) (vb_iface r.1) (vb_tx_queue b) /\ vb_tx_queue r.1 = [] /\
  rx_bounded (iface_mtu (vb_iface b)) r.2.
Proof.
  intros r. subst r. unfold vmnet_recv. destruct (flush_hands b) as [[Hk Hm (t & Ht & Hs & Hr)] Hq].
  set (b1 := (flush_tx b).1) in *. set (size := Z.max (iface_mtu (vb_iface b1)) 1500 + 32).
  destruct (iface_read_spec (vb_world b1) (vb_iface b1) (repeat (Z.to_nat size) RX_BATCH_DEPTH) size)
    as [[Hk1 Hm1 (t1 & Ht1 & Hs1 & Hr1)] Hf].
  { lia. }
  { apply Forall_forall. intros x Hx. apply list_elem_of_In, repeat_spec in Hx as ->. lia. }
  { by rewrite repeat_length. }
  destruct (iface_read _ _ _) as [[v i] r]. cbn in *. apply sublist_nil_r in Hs1 as ->. rewrite app_nil_r in Ht1.
  split; [|split; [done|]].
  - split; [by auto|congruence|]. exists t. rewrite Ht1. done.
  - unfold rx_bounded. rewrite <- Hm. destruct r; [by rewrite length_map|cbn; split; [lia|constructor]].
Qed.

Lemma nb_run_hands es : forall b,
  let b' := (nb_run b es).1 in
  exists taken, vm_accepted (vb_world b') = vm_accepted (vb_world b) ++ taken /\
    taken ++ vb_tx_queue b' `sublist_of` vb_tx_queue b ++ nb_sends es /\
    (reliable -> started (vb_iface b) -> taken ++ vb_tx_queue b' = vb_tx_queue b ++ nb_sends es) /\
    ((length (vb_tx_queue b) < TX_BATCH_DEPTH)%nat -> (length (vb_tx_queue b') < TX_BATCH_DEPTH)%nat) /\
    Forall (rx_bounded (iface_mtu (vb_iface b))) (nb_run b es).2.
Proof.
  induction es as [|[f|] es IH]; intros b; cbn [nb_run nb_sends fst snd nb_send nb_recv Vmnet_NetBackend].
  - exists []. rewrite !app_nil_r. by split_and!.
  - rewrite (cons_middle f), (assoc_L (++)). unfold vmnet_send. cbn [vb_tx_queue].
    set (b1 := mkVmnetBackend (vb_world b) (vb_iface b) (vb_tx_queue b ++ [f])).
    destruct (Nat.ltb_spec (length (vb_tx_queue b ++ [f])) TX_BATCH_DEPTH) as [Hl|Hl].
    { destruct (IH b1) as (t & Ht & Hs & Hr & Hq & Hrx). exists t.
      do 3 (split; [done|]). split; [intros _; by apply Hq|done]. }
    destruct (flush_hands b1) as [[Hk Hm (t & Ht & Hs & Hr)] Hq]. destruct (IH (flush_tx b1).1) as (t' & Ht' & Hs' & Hr' & Hq' & Hrx).
    cbn in Ht, Hs, Hr, Hm. rewrite Hq in *. cbn in Hs', Hr', Hq'. exists (t ++ t').
    rewrite Ht', Ht, <- (assoc_L (++) t t'), <- (assoc_L (++) _ t t').
    split; [done|]. split; [by apply sublist_app|]. split; [intros R S; rewrite Hr, Hr' by auto; done|].
    split; [intros _; apply Hq'; unfold TX_BATCH_DEPTH; lia|]. by rewrite Hm in Hrx.
  - destruct (vmnet_recv_hands b) as ([Hk Hm (t & Ht & Hs & Hr)] & Hq & Hb).
    destruct (IH (vmnet_recv b).1) as (t' & Ht' & Hs' & Hr' & Hq' & Hrx). rewrite Hq in *. cbn in Hs', Hr', Hq'.
    exists (t ++ t'). rewrite Ht', Ht, <- (assoc_L (++) t t'), <- (assoc_L (++) _ t t'). split; [done|]. split; [by apply sublist_app|].
    split; [intros R S; rewrite Hr, Hr' by auto; done|]. split; [intros _; apply Hq'; unfold TX_BATCH_DEPTH; lia|].
    rewrite Hm in Hrx. by constructor.
Qed.

(** C21: Whatever the order of sends and receives, the frames the framework has
    taken followed by those still queued are the frames the device sent, in order and
    each at most once, and exactly those when the framework takes all it is given;
    fewer than 32 are ever left queued, none after a receive; and a receive returns at
    most 32 frames that fit their buffers. *)
Theorem vmnet_frames_in_order v i es (Hup : started i) :
  let b := VmnetHostBackend_new v i in
  let r := nb_run b es in
  (exists taken, vm_accepted (vb_world r.1) = vm_accepted v ++ taken /\
     taken ++ vb_tx_queue r.1 `sublist_of` nb_sends es /\
     (reliable -> taken ++ vb_tx_queue r.1 = nb_sends es)) /\
  (length (vb_tx_queue r.1) < TX_BATCH_DEPTH)%nat /\
  vb_tx_queue (nb_recv r.1).1 = [] /\
  Forall (rx_bounded (iface_mtu i)) r.2.
Proof.
  intros b r. destruct (nb_run_hands es b) as (t & Ht & Hs & Hr & Hq & Hrx). split; [|split; [|split]].
  - exists t. split; [done|]. split; [done|]. intros R. by apply Hr.
  - apply Hq. cbn. unfold TX_BATCH_DEPTH. lia.
  - apply (vmnet_recv_hands r.1).
  - done.
Qed.
End batching.

(** ** A concrete framework *)

(** It opens every interface, never delivers the start callback for those whose mode it
    does not know, takes all packets, and has nothing to read. *)
Record DemoVmnet := mkDemoVmnet { dv_open : list VmnetRef; dv_log : list (list Z) }.

#[local] Instance demo_xpc : Xpc (list (list Z * Z)) := {|
  xpc_new := []; xpc_set_uint64 d k x := (k, x) :: d; xpc_set_string d _ _ := d;
  xpc_set_bool d _ _ := d; xpc_set_uuid d _ _ := d;
  xpc_get_uint64 d k := from_option snd 0 (List.find (fun p => bool_decide (p.1 = k)) d);
  xpc_get_string d k := if bool_decide (k = KEY_MAC_ADDRESS) then Some (lit "06:00:ac:10:00:02") else None
|}.

#[local] Instance demo_uuid : Uuid5 := fun name => take 16 (name ++ repeat 0 16).

#[local] Instance demo_vmnet : Vmnet DemoVmnet (list (list Z * Z)) := {|
  dispatch_queue_create v _ := (v, true);
  vmnet_start_interface v d := (mkDemoVmnet (length (dv_open v) :: dv_open v) (dv_log v), Some (length (dv_open v)));
  vmnet_wait_start v _ t := (v, match t with Some _ => None | None => Some (1000, Some [(KEY_MTU, 9000)]) end);
  vmnet_stop_interface v h := (mkDemoVmnet (List.remove Nat.eq_dec h (dv_open v)) (dv_log v), 1000);
  vmnet_read v _ bufs := (v, (1000, 0, map (fun n => (0, repeat 0 n)) bufs));
  vmnet_write v _ fs := (mkDemoVmnet (dv_open v) (dv_log v ++ fs), (1000, zlen fs))
|}.

#[local] Instance demo_vmnet_laws : VmnetLaws DemoVmnet (list (list Z * Z)).
Proof.
  refine {| vm_accepted := dv_log |}.
  - intros v h fs. cbn. unfold delivered_count, zlen. rewrite take_ge by lia. done.
  - done.
  - intros v h bufs. cbn. induction bufs as [|n bufs IH]; constructor; [apply repeat_length|done].
Defined.

Definition demo_start (timeout_ms : Z) : DemoVmnet * result IfaceError VmnetIface :=
  VmnetIface_start (mkDemoVmnet [] []) (mkInterfaceParams (lit "eth0") VmShared None None timeout_ms true).

Definition demo_iface : VmnetIface :=
  match (demo_start 0).2 with Ok i => i | Err _ => mkIface [] None end.

Lemma vmnet_frames_in_order_witness :
  let r := nb_run (VmnetHostBackend_new (mkDemoVmnet [0%nat] []) demo_iface) [NbSend [1]; NbSend [2]; NbRecv; NbSend [3]] in
  started demo_iface /\
  (exists taken, dv_log (vb_world r.1) = taken /\ taken ++ vb_tx_queue r.1 = [[1]; [2]; [3]]) /\
  vb_tx_queue r.1 = [[3]].
Proof.
  assert (Hup : started demo_iface) by (by eexists _, 0%nat).
  pose proof (vmnet_frames_in_order (mkDemoVmnet [0%nat] []) demo_iface [NbSend [1]; NbSend [2]; NbRecv; NbSend [3]] Hup) as H.
  destruct H as ((taken & Ht & _ & Hall) & _). split; [exact Hup|]. split; [|vm_compute; reflexivity].
  exists taken. split; [exact Ht|]. apply Hall. intros v h fs. reflexivity.
Defined.

(** A start that times out reports an error and leaves the interface open: nobody holds
    the handle any more, so nobody can stop it. *)
Lemma start_timeout_leaks :
  demo_start 5000 = (mkDemoVmnet [0%nat] [], Err (InnerErr (StartTimeout 5000))).
Proof. vm_compute. reflexivity. Qed.

(** A missing MTU reads as 0, not as the 1500 the interface documents. *)
Lemma missing_mtu_is_zero : u32_or 1500 (xpc_get_uint64 [] KEY_MTU) = 0.
Proof. vm_compute. reflexivity. Qed.
