(* ===== verification/Vsock.v ===== *)
(** * Vsock: the virtio socket device

    Models [src/crates/virtio/src/devices/vsock.rs]: the 44-byte packet header,
    the multiplexer trait with its in-memory implementation, the transmit and
    receive paths and the [VirtioDevice] implementation. *)

From stdpp Require Import base numbers list option.
From Stdlib Require Import ZArith Lia.
From S2P Require Import Prelude GuestMem Arch Virtqueue Drain Transport Device.

Local Open Scope Z_scope.
Local Open Scope squib_scope.

Definition VMADDR_CID_HOST : Z := 2.
Definition MIN_GUEST_CID : Z := 3.
Definition TYPE_STREAM : Z := 1.

(** ** Packets *)

Inductive VsockOp :=
  | OpInvalid | OpRequest | OpResponse | OpRst | OpShutdown | OpRw | OpCreditUpdate | OpCreditRequest.

#[export] Instance VsockOp_eq_dec : EqDecision VsockOp.
Proof. solve_decision. Defined.

Definition op_from_wire (value : Z) : VsockOp :=
  if value =? 1 then OpRequest
  else if value =? 2 then OpResponse
  else if value =? 3 then OpRst
  else if value =? 4 then OpShutdown
  else if value =? 5 then OpRw
  else if value =? 6 then OpCreditUpdate
  else if value =? 7 then OpCreditRequest
  else OpInvalid.

(** [self.op as u16]. *)
Definition op_to_wire (op : VsockOp) : Z :=
  match op with
  | OpInvalid => 0
  | OpRequest => 1
  | OpResponse => 2
  | OpRst => 3
  | OpShutdown => 4
  | OpRw => 5
  | OpCreditUpdate => 6
  | OpCreditRequest => 7
  end.

Record VsockHeader := mkVsockHeader {
  vh_src_cid : Z;
  vh_dst_cid : Z;
  vh_src_port : Z;
  vh_dst_port : Z;
  vh_len : Z;
  vh_type : Z;
  vh_op : VsockOp;
  vh_flags : Z;
  vh_buf_alloc : Z;
  vh_fwd_cnt : Z
}.

Definition VSOCK_HDR_SIZE : nat := 44.

Inductive VsockParseError := HeaderTooShort.

Definition vsock_from_bytes (bytes : list Z) : result VsockParseError VsockHeader :=
  if (length bytes <? VSOCK_HDR_SIZE)%nat then Err HeaderTooShort
  else
    let u64 i := le_val (slice i 8 bytes) in
    let u32 i := le_val (slice i 4 bytes) in
    let u16 i := le_val (slice i 2 bytes) in
    Ok (mkVsockHeader (u64 0) (u64 8) (u32 16) (u32 20) (u32 24) (u16 28) (op_from_wire (u16 30))
          (u32 32) (u32 36) (u32 40))%nat.

Definition vsock_to_bytes (h : VsockHeader) : list Z :=
  let out := repeat 0 VSOCK_HDR_SIZE in
  let out := splice 0 (le_bytes 8 (vh_src_cid h)) out in
  let out := splice 8 (le_bytes 8 (vh_dst_cid h)) out in
  let out := splice 16 (le_bytes 4 (vh_src_port h)) out in
  let out := splice 20 (le_bytes 4 (vh_dst_port h)) out in
  let out := splice 24 (le_bytes 4 (vh_len h)) out in
  let out := splice 28 (le_bytes 2 (vh_type h)) out in
  let out := splice 30 (le_bytes 2 (op_to_wire (vh_op h))) out in
  let out := splice 32 (le_bytes 4 (vh_flags h)) out in
  let out := splice 36 (le_bytes 4 (vh_buf_alloc h)) out in
  splice 40 (le_bytes 4 (vh_fwd_cnt h)) out.

Record VsockPacket := mkPacket { pk_hdr : VsockHeader; pk_payload : list Z }.

(** ** Multiplexers *)

Class VsockMuxer (X : Type) := {
  vm_handle_tx : X -> VsockPacket -> X * list VsockPacket;
  vm_drain_rx : X -> X * list VsockPacket
}.

Record InMemoryMuxer := mkMuxer {
  mx_tx_log : list VsockPacket;
  mx_rx_queue : list VsockPacket;
  mx_auto_respond : bool
}.

Definition auto_response (h : VsockHeader) : VsockPacket :=
  mkPacket (mkVsockHeader (vh_dst_cid h) (vh_src_cid h) (vh_dst_port h) (vh_src_port h) 0 (vh_type h) OpResponse
              (vh_flags h) (vh_buf_alloc h) (vh_fwd_cnt h)) [].

#[export] Instance InMemoryMuxer_VsockMuxer : VsockMuxer InMemoryMuxer := {
  vm_handle_tx x pkt :=
    (mkMuxer (mx_tx_log x ++ [pkt]) (mx_rx_queue x) (mx_auto_respond x),
     if mx_auto_respond x && bool_decide (vh_op (pk_hdr pkt) = OpRequest) then [auto_response (pk_hdr pkt)] else []);
  vm_drain_rx x := (mkMuxer (mx_tx_log x) [] (mx_auto_respond x), mx_rx_queue x)
}.

(** ** The device *)

Record VsockConfig := mkVsockConfig {
  vc_vsock_id : list Z;
  vc_guest_cid : Z;
  vc_uds_path : list Z;
  vc_tsi : bool
}.

Definition VSOCK_RX_QUEUE : Z := 0.
Definition VSOCK_TX_QUEUE : Z := 1.
Definition VSOCK_QUEUE_MAX_SIZE : Z := 256.

Record VsockOwn (X : Type) := mkVsockOwn { vo_config : VsockConfig; vo_muxer : X; vo_rx_buffer : list VsockPacket }.
Arguments mkVsockOwn {X}.
Arguments vo_config {X}.
Arguments vo_muxer {X}.
Arguments vo_rx_buffer {X}.

Inductive VsockNewError := InvalidGuestCid.

Section device.
Context {M G X : Type} `{!GuestMemory M} `{!Gic G} `{!VsockMuxer X}.

Definition vsock_new (config : VsockConfig) (muxer : X) : result VsockNewError (Frontend (VsockOwn X)) :=
  if vc_guest_cid config <? MIN_GUEST_CID then Err InvalidGuestCid
  else
    let q := Queue_new VSOCK_QUEUE_MAX_SIZE in
    Ok (mkFrontend 0 0 [q; q; q] ActiveState_default (mkVsockOwn config muxer [])).

(** The packet in a transmitted chain's bytes. *)
Definition packet_of (hdr : VsockHeader) (buf : list Z) : VsockPacket :=
  let payload_len := Nat.min (Z.to_nat (vh_len hdr)) (length buf - VSOCK_HDR_SIZE) in
  mkPacket hdr (slice VSOCK_HDR_SIZE payload_len buf).

(** The transmit body: the multiplexer and the packets buffered for the guest. *)
Definition vsock_tx_bytes (s : X * list VsockPacket) (buf : list Z) : (X * list VsockPacket) * action :=
  let '(x, rx_buffer) := s in
  if (length buf <? VSOCK_HDR_SIZE)%nat then (s, PushQuiet)
  else
    match vsock_from_bytes (take VSOCK_HDR_SIZE buf) with
    | Err _ => (s, Skip)
    | Ok hdr =>
        let '(x', replies) := vm_handle_tx x (packet_of hdr buf) in
        ((x', rx_buffer ++ replies), Push 0)
    end.

Definition vsock_tx_serve
  : X * list VsockPacket -> M -> result QueueError (list Descriptor) -> (X * list VsockPacket) * M * action :=
  on_chain (fun s m descs => let '(s', act) := vsock_tx_bytes s (concat_readable m descs) in (s', m, act)).

Definition vsock_drain_tx (d : Frontend (VsockOwn X)) (w : World M G) : option (Frontend (VsockOwn X) * World M G) :=
  let o := fe_own d in
  '(qs, s, w') ← service_queue vsock_tx_serve (fe_state d) (fe_queues d) (Z.to_nat VSOCK_TX_QUEUE)
     (vo_muxer o, vo_rx_buffer o) w;
  Some (fe_update d qs (mkVsockOwn (vo_config o) s.1 s.2), w').

Definition packet_wire (p : VsockPacket) : list Z := vsock_to_bytes (pk_hdr p) ++ pk_payload p.

Definition vsock_drain_rx (d : Frontend (VsockOwn X)) (w : World M G) : option (Frontend (VsockOwn X) * World M G) :=
  if as_mem (fe_state d) && as_irq (fe_state d) then
    let o := fe_own d in
    let '(x, fresh) := vm_drain_rx (vo_muxer o) in
    let packets := vo_rx_buffer o ++ fresh in
    match packets with
    | [] => Some (fe_update d (fe_queues d) (mkVsockOwn (vo_config o) x []), w)
    | _ =>
        q ← fe_queues d !! Z.to_nat VSOCK_RX_QUEUE;
        let '(q', m', completed, stuck) := deliver_all packet_wire q (w_mem w) false packets in
        let irq' := if completed : bool then (trigger_queue (w_irq w)).1 else w_irq w in
        Some (fe_update d (<[Z.to_nat VSOCK_RX_QUEUE := q']> (fe_queues d))
                (mkVsockOwn (vo_config o) x (option_list stuck)), mkWorld m' irq')
    end
  else Some (d, w).

Definition vsock_process_queue (d : Frontend (VsockOwn X)) (w : World M G) (queue_index : Z)
  : option (Frontend (VsockOwn X) * World M G) :=
  if queue_index =? VSOCK_TX_QUEUE then '(d', w') ← vsock_drain_tx d w; vsock_drain_rx d' w'
  else if queue_index =? VSOCK_RX_QUEUE then vsock_drain_rx d w
  else Some (d, w).

#[export] Instance vsock_model : DeviceModel M G (VsockOwn X) := {
  dm_type := DevVsock;
  dm_read_config o := config_read (le_bytes 8 (vc_guest_cid (vo_config o)));
  dm_process := vsock_process_queue
}.
End device.

(** ** The packet header *)

Definition header_ok (h : VsockHeader) : Prop :=
  in_u 64 (vh_src_cid h) /\ in_u 64 (vh_dst_cid h) /\ in_u 32 (vh_src_port h) /\ in_u 32 (vh_dst_port h) /\
  in_u 32 (vh_len h) /\ in_u 16 (vh_type h) /\ in_u 32 (vh_flags h) /\ in_u 32 (vh_buf_alloc h) /\ in_u 32 (vh_fwd_cnt h).

(** The header as the concatenation of its fields. *)
Lemma vsock_to_bytes_fields h :
  vsock_to_bytes h =
  le_bytes 8 (vh_src_cid h) ++ le_bytes 8 (vh_dst_cid h) ++ le_bytes 4 (vh_src_port h) ++ le_bytes 4 (vh_dst_port h) ++
  le_bytes 4 (vh_len h) ++ le_bytes 2 (vh_type h) ++ le_bytes 2 (op_to_wire (vh_op h)) ++
  le_bytes 4 (vh_flags h) ++ le_bytes 4 (vh_buf_alloc h) ++ le_bytes 4 (vh_fwd_cnt h).
Proof. reflexivity. Qed.

Lemma vsock_to_bytes_length h : length (vsock_to_bytes h) = VSOCK_HDR_SIZE.
Proof. reflexivity. Qed.

Lemma vsock_to_bytes_ok h : bytes_ok (vsock_to_bytes h).
Proof. rewrite vsock_to_bytes_fields. repeat apply Forall_app_2; apply le_bytes_ok. Qed.

Lemma op_wire_roundtrip op : op_from_wire (op_to_wire op) = op.
Proof. by destruct op. Qed.

Lemma vsock_from_to h rest : header_ok h -> vsock_from_bytes (vsock_to_bytes h ++ rest) = Ok h.
Proof.
  intros (H1 & H2 & H3 & H4 & H5 & H6 & H7 & H8 & H9). unfold vsock_from_bytes.
  rewrite length_app, vsock_to_bytes_length.
  destruct (Nat.ltb_spec (VSOCK_HDR_SIZE + length rest) VSOCK_HDR_SIZE); [lia|].
  rewrite vsock_to_bytes_fields, <- !app_assoc.
  set (f := mkVsockHeader).
  assert (Hop : le_val (le_bytes 2 (op_to_wire (vh_op h))) = op_to_wire (vh_op h)).
  { apply le_val_bytes_id. by destruct (vh_op h). }
  change ((Ok (f (le_val (le_bytes 8 (vh_src_cid h))) (le_val (le_bytes 8 (vh_dst_cid h)))
    (le_val (le_bytes 4 (vh_src_port h))) (le_val (le_bytes 4 (vh_dst_port h))) (le_val (le_bytes 4 (vh_len h)))
    (le_val (le_bytes 2 (vh_type h))) (op_from_wire (le_val (le_bytes 2 (op_to_wire (vh_op h)))))
    (le_val (le_bytes 4 (vh_flags h))) (le_val (le_bytes 4 (vh_buf_alloc h))) (le_val (le_bytes 4 (vh_fwd_cnt h)))) : result VsockParseError _) = Ok h).
  rewrite Hop, op_wire_roundtrip, !le_val_bytes_id by done. by destruct h.
Qed.

(** The socket packet header round-trips.  Parsing the bytes of a header
    gives the header back, whatever follows it; and re-serialising a parsed
    44-byte header gives the same bytes when its operation is a defined one (an
    undefined operation becomes 0). *)
Theorem vsock_header_roundtrip :
  (forall h rest, header_ok h -> vsock_from_bytes (vsock_to_bytes h ++ rest) = Ok h) /\
  (forall bs h, bytes_ok bs -> length bs = VSOCK_HDR_SIZE -> le_val (slice 30 2 bs) <= 7 ->
     vsock_from_bytes bs = Ok h -> vsock_to_bytes h = bs).
Proof.
  split; [exact vsock_from_to|]. intros bs h Hb Hl Hop Hp. unfold vsock_from_bytes in Hp. rewrite Hl in Hp.
  cbn [Nat.ltb Nat.leb VSOCK_HDR_SIZE] in Hp. injection Hp as <-. rewrite vsock_to_bytes_fields.
  cbn [vh_src_cid vh_dst_cid vh_src_port vh_dst_port vh_len vh_type vh_op vh_flags vh_buf_alloc vh_fwd_cnt].
  assert (Hf : forall i n, (i + n <= VSOCK_HDR_SIZE)%nat -> le_bytes n (le_val (slice i n bs)) = slice i n bs).
  { intros i n Hi. rewrite <- (slice_length i n bs) at 1 by lia. by apply le_bytes_val, slice_Forall. }
  assert (Hw : op_to_wire (op_from_wire (le_val (slice 30 2 bs))) = le_val (slice 30 2 bs)).
  { pose proof (le_val_bound (slice 30 2 bs) (slice_Forall _ _ _ _ Hb)) as [Hv _].
    generalize dependent (le_val (slice 30 2 bs)). intros v ? ?.
    assert (v = 0 \/ v = 1 \/ v = 2 \/ v = 3 \/ v = 4 \/ v = 5 \/ v = 6 \/ v = 7) as Hcase by lia.
    by destruct Hcase as [-> | [-> | [-> | [-> | [-> | [-> | [-> | ->]]]]]]]. }
  rewrite Hw, !Hf by (unfold VSOCK_HDR_SIZE; lia).
  rewrite <- (slice_app 36 4 4), <- (slice_app 32 4 8), <- (slice_app 30 2 12), <- (slice_app 28 2 14), <- (slice_app 24 4 16),
    <- (slice_app 20 4 20), <- (slice_app 16 4 24), <- (slice_app 8 8 28), <- (slice_app 0 8 36).
  unfold slice. rewrite drop_0. apply take_ge. rewrite Hl. unfold VSOCK_HDR_SIZE. lia.
Qed.

(** ** Transmit and receive *)

Definition packet_ok (p : VsockPacket) : Prop :=
  header_ok (pk_hdr p) /\ vh_len (pk_hdr p) = zlen (pk_payload p).

Section proofs.
Context {M G X : Type} `{!GuestMemory M, !GuestMemoryLaws M} `{!Gic G} `{!VsockMuxer X}.
Implicit Types (m : M) (w : World M G) (d : Frontend (VsockOwn X)).

Lemma vsock_tx_laws : serve_laws (vsock_tx_serve (M := M) (X := X)) any_desc (fun _ => True).
Proof.
  constructor.
  - intros s m ds s' m' act Hwf _ _ _ Hs. unfold vsock_tx_serve, on_chain in Hs.
    destruct (vsock_tx_bytes s (concat_readable m ds)) as [s1 a] eqn:E. simplify_eq.
    split_and!; [done|by apply stays_refl|]. intros n ->. unfold vsock_tx_bytes in E.
    destruct s as [x rx]. destruct (_ <? _)%nat; [done|]. destruct (vsock_from_bytes _); [|done].
    by destruct (vm_handle_tx _ _); simplify_eq.
  - by intros s m e s' m' act _ [= <- <- <-].
Qed.

#[export] Instance vsock_model_laws : DeviceModelLaws M G (VsockOwn X).
Proof.
  assert (Htx : forall d d' w w', vsock_drain_tx d w = Some (d', w') ->
    fe_avail d' = fe_avail d /\ fe_acked d' = fe_acked d /\ fe_state d' = fe_state d /\
    length (fe_queues d') = length (fe_queues d)).
  { intros d d' w w'. unfold vsock_drain_tx.
    destruct (service_queue _ _ _ _ _ _) as [[[qs s] w1]|] eqn:E; [|done]. cbn. intros [= <- <-].
    by apply service_queue_length in E. }
  assert (Hrx : forall d d' w w', vsock_drain_rx d w = Some (d', w') ->
    fe_avail d' = fe_avail d /\ fe_acked d' = fe_acked d /\ fe_state d' = fe_state d /\
    length (fe_queues d') = length (fe_queues d)).
  { intros d d' w w'. unfold vsock_drain_rx. destruct (_ && _); [|by intros [= <- <-]].
    destruct (vm_drain_rx _) as [x fresh]. destruct (_ ++ fresh) as [|p ps]; [by intros [= <- <-]|].
    destruct (fe_queues d !! _) as [q|]; [|done]. cbn [mbind option_bind].
    destruct (deliver_all _ _ _ _ _) as [[[q' m'] c] lost]. intros [= <- <-]. cbn. by rewrite length_insert. }
  split. intros d d' w w' i. cbn. unfold vsock_process_queue. destruct (i =? VSOCK_TX_QUEUE).
  - destruct (vsock_drain_tx d w) as [[d1 w1]|] eqn:E1; [|done]. cbn. intros E2.
    apply Hrx in E2 as (-> & -> & -> & ->). by apply Htx in E1.
  - destruct (i =? VSOCK_RX_QUEUE); [apply Hrx|by intros [= <- <-]].
Qed.

(** Handing packets to the multiplexer one after the other, collecting its
    replies. *)
Fixpoint handle_all (x : X) (ps : list VsockPacket) : X * list VsockPacket :=
  match ps with
  | [] => (x, [])
  | p :: rest =>
      let '(x1, r1) := vm_handle_tx x p in
      let '(x2, r2) := handle_all x1 rest in (x2, r1 ++ r2)
  end.

(** The bytes of a well-formed packet reach the multiplexer as that packet. *)
Lemma vsock_tx_packet x rx p :
  packet_ok p ->
  vsock_tx_bytes (x, rx) (packet_wire p) = (((vm_handle_tx x p).1, rx ++ (vm_handle_tx x p).2), Push 0).
Proof.
  intros [Hh Hl]. unfold vsock_tx_bytes, packet_wire.
  assert (Hlen : length (vsock_to_bytes (pk_hdr p) ++ pk_payload p) = (VSOCK_HDR_SIZE + length (pk_payload p))%nat)
    by (by rewrite length_app, vsock_to_bytes_length).
  rewrite Hlen. destruct (Nat.ltb_spec (VSOCK_HDR_SIZE + length (pk_payload p)) VSOCK_HDR_SIZE); [lia|].
  rewrite <- (vsock_to_bytes_length (pk_hdr p)) at 1. rewrite take_app_length.
  rewrite <- (app_nil_r (vsock_to_bytes (pk_hdr p))) at 1. rewrite vsock_from_to by done.
  assert (packet_of (pk_hdr p) (vsock_to_bytes (pk_hdr p) ++ pk_payload p) = p) as ->.
  { unfold packet_of. rewrite Hlen, Hl. unfold zlen. rewrite Nat2Z.id.
    replace (Nat.min (length (pk_payload p)) _) with (length (pk_payload p)) by lia.
    unfold slice. rewrite <- (vsock_to_bytes_length (pk_hdr p)) at 1. rewrite drop_app_length, take_ge by lia.
    by destruct p. }
  by destruct (vm_handle_tx x p).
Qed.

Lemma vsock_tx_all m dss : forall x rx ps,
  Forall packet_ok ps -> map (concat_readable m) dss = map packet_wire ps ->
  let step := fun s ds => vsock_tx_bytes s (concat_readable m ds) in
  all_pushed step (x, rx) dss /\
  foldl (fun s ds => (step s ds).1) (x, rx) dss = ((handle_all x ps).1, rx ++ (handle_all x ps).2).
Proof.
  induction dss as [|ds dss IH]; intros x rx [|p ps] Hok E step; try done; [by rewrite app_nil_r|].
  inversion Hok as [|? ? Hp Hok']; subst. injection E as E1 E2. cbn [all_pushed foldl handle_all].
  assert (Es : step (x, rx) ds = (((vm_handle_tx x p).1, rx ++ (vm_handle_tx x p).2), Push 0)).
  { unfold step. rewrite E1. by apply vsock_tx_packet. }
  rewrite Es. cbn [fst snd]. destruct (IH (vm_handle_tx x p).1 (rx ++ (vm_handle_tx x p).2) ps Hok' E2) as [H1 H2].
  unfold step in *. rewrite H2. split; [eauto|]. destruct (vm_handle_tx x p) as [x1 r1]. cbn [fst snd].
  destruct (handle_all x1 ps) as [x2 r2]. cbn. by rewrite app_assoc.
Qed.

(** C40: socket packets travel both ways unchanged.  When the chains published
    for transmission carry well-formed packets, one notification hands exactly
    these packets to the multiplexer in order; its replies, after those already
    buffered and before what it has pending, are written into the published
    receive buffers in order and complete, the used ring gives each head and
    length, and nothing stays buffered. *)
Theorem vsock_exchange d w qt qr txs rxs ps :
  driver_ready d w qt qr txs rxs -> Forall packet_ok ps ->
  map (concat_readable (w_mem w)) txs.*2 = map packet_wire ps ->
  let handled := handle_all (vo_muxer (fe_own d)) ps in
  let drained := vm_drain_rx handled.1 in
  let packets := (vo_rx_buffer (fe_own d) ++ handled.2) ++ drained.2 in
  Forall (fun p => bytes_ok (pk_payload p)) packets -> assigned packet_wire (w_mem w) packets rxs ->
  zlen packets <= size qr ->
  exists d' w', vsock_process_queue d w VSOCK_TX_QUEUE = Some (d', w') /\
    fe_own d' = mkVsockOwn (vo_config (fe_own d)) drained.1 [] /\
    (forall j p h ds, packets !! j = Some p -> rxs !! j = Some (h, ds) ->
       received (w_mem w') (length (packet_wire p)) ds = packet_wire p /\
       used_elem qr (w_mem w') (used_slot qr j) = Ok (h, zlen (packet_wire p))).
Proof.
  intros R Hps E handled fresh packets Hb Has Hsz.
  destruct (vsock_tx_all (w_mem w) txs.*2 (vo_muxer (fe_own d)) (vo_rx_buffer (fe_own d)) ps Hps E) as [Hpu Hf].
  destruct (service_queue_reads vsock_tx_serve any_desc (clear_of_used qt)
    (fun s ds => vsock_tx_bytes s (concat_readable (w_mem w) ds)) (fe_queues d) 1%nat qt
    (vo_muxer (fe_own d), vo_rx_buffer (fe_own d)) w txs vsock_tx_laws)
    as (q' & m' & Hs & _ & _ & _ & Hwf & Hso & Hdom); try done; try apply R.
  { intros s m ds Hs Hok Hc. unfold vsock_tx_serve, on_chain. rewrite (concat_readable_same qt (w_mem w)) by done.
    by destruct (vsock_tx_bytes _ _). }
  set (w1 := mkWorld m' _) in Hs. rewrite Hf in Hs.
  destruct (rings_survive d w w1 qt qr txs rxs R Hwf Hso Hdom) as [L1 Hpub1].
  unfold vsock_process_queue, vsock_drain_tx. cbn [Z.eqb]. rewrite (dr_state _ _ _ _ _ _ R).
  change (Z.to_nat VSOCK_TX_QUEUE) with 1%nat. rewrite Hs. cbn [mbind option_bind fst snd].
  unfold vsock_drain_rx. cbn [fe_update fe_state fe_own fe_queues vo_muxer vo_rx_buffer vo_config].
  rewrite (dr_state _ _ _ _ _ _ R). cbn [as_mem as_irq andb]. fold handled.
  unfold packets in *. unfold fresh in *. destruct (vm_drain_rx handled.1) as [x fr]. cbn [fst snd] in *.
  destruct ((vo_rx_buffer (fe_own d) ++ handled.2) ++ fr) as [|p0 ps0] eqn:Ep; [by eexists _, _|]. rewrite <- Ep in *.
  change (Z.to_nat VSOCK_RX_QUEUE) with 0%nat. rewrite list_lookup_insert_ne by done.
  rewrite (dr_rx _ _ _ _ _ _ R). cbn [mbind option_bind].
  assert (Hw : wires_ok packet_wire ((vo_rx_buffer (fe_own d) ++ handled.2) ++ fr)).
  { eapply Forall_impl; [|exact Hb]. intros p Hp. unfold packet_wire. apply Forall_app. split; [apply vsock_to_bytes_ok|done]. }
  destruct (deliver_all_exact packet_wire qr (w_mem w1) _ rxs L1 Hw Hpub1) as (q2 & m2 & Hd & Hr & _).
  { eapply assigned_domain, Has. exact Hdom. }
  { apply R. }
  { done. }
  rewrite Hd. by eexists _, _.
Qed.

(** Of several packets that find the receive ring empty only the first is kept
    for the next attempt. *)
Lemma packets_dropped_without_buffers d w q x fresh p ps :
  fe_state d = mkActive true true true -> fe_queues d !! Z.to_nat VSOCK_RX_QUEUE = Some q ->
  vm_drain_rx (vo_muxer (fe_own d)) = (x, fresh) -> vo_rx_buffer (fe_own d) ++ fresh = p :: ps ->
  pop_avail q (w_mem w) = Ok (q, None) ->
  vsock_drain_rx d w = Some (fe_update d (fe_queues d) (mkVsockOwn (vo_config (fe_own d)) x [p]), w).
Proof.
  intros Hst Hq Hx Hp Hpop. unfold vsock_drain_rx. rewrite Hst, Hx, Hp, Hq. cbn [as_mem as_irq andb mbind option_bind deliver_all].
  unfold deliver_step. rewrite Hpop. cbn. rewrite list_insert_id by done. by destruct w.
Qed.
End proofs.

(** ** A concrete connection request *)

Definition ex_vtxq : Queue := mkQueue 2 2 true 16 64 80 0 0.
Definition ex_vrxq : Queue := mkQueue 2 2 true 128 176 192 0 0.

Definition ex_request : VsockPacket := mkPacket (mkVsockHeader 3 2 1024 80 0 TYPE_STREAM OpRequest 0 65536 0) [].

Definition ex_vsock_bytes : list Z :=
  splice 16 (le_bytes 8 256 ++ le_bytes 4 44 ++ le_bytes 2 0 ++ le_bytes 2 0)
    (splice 64 (le_bytes 2 0 ++ le_bytes 2 1)
      (splice 128 (le_bytes 8 320 ++ le_bytes 4 64 ++ le_bytes 2 2 ++ le_bytes 2 0)
        (splice 176 (le_bytes 2 0 ++ le_bytes 2 1)
          (splice 256 (packet_wire ex_request) (repeat 0 384))))).

Definition ex_vsock_world : World SliceGuestMemory pulse_log :=
  mkWorld (mkSlice 0 ex_vsock_bytes) (IrqLine_new [] Gic.VIRTIO_MMIO_SLOT0).

Definition ex_vsock : Frontend (VsockOwn InMemoryMuxer) :=
  mkFrontend 0 0 [ex_vrxq; ex_vtxq; Queue_new 256] (mkActive true true true)
    (mkVsockOwn (mkVsockConfig [] 3 [] false) (mkMuxer [] [] true) []).

Lemma ex_vsock_layout q : q = ex_vtxq \/ q = ex_vrxq -> layout any_desc q (w_mem ex_vsock_world).
Proof.
  intros Hq. assert (Hd : forall i d, 0 <= i < size q ->
    read_descriptor (desc_table_addr q) (w_mem ex_vsock_world) i = Ok d -> off_rings q d).
  { destruct Hq as [-> | ->]; intros i d Hi Hr; (assert (i = 0 \/ i = 1) as [-> | ->] by (cbn in Hi; lia));
      vm_compute in Hr; injection Hr as <-; vm_compute; intuition discriminate. }
  constructor; [|..|exact Hd| |done]; clear Hd; destruct Hq as [-> | ->]; try (by vm_compute).
  1, 2: vm_compute; repeat constructor; discriminate.
  all: vm_compute; intuition discriminate.
Qed.

Lemma ex_vsock_ready :
  driver_ready ex_vsock ex_vsock_world ex_vtxq ex_vrxq [(0, [mkDesc 256 44 0 0])] [(0, [mkDesc 320 64 2 0])].
Proof.
  assert (Hpub : forall q d, q = ex_vtxq /\ d = mkDesc 256 44 0 0 \/ q = ex_vrxq /\ d = mkDesc 320 64 2 0 ->
    published q (w_mem ex_vsock_world) [(0, [d])]).
  { intros q d Hq. split.
    - exists 1. destruct Hq as [[-> _]|[-> _]]; (split; [by vm_compute|]); (split; [by vm_compute|]);
        intros [|i] h Hh; try done; vm_compute in Hh; injection Hh as <-; by vm_compute.
    - destruct Hq as [[-> ->]|[-> ->]]; (constructor; [|constructor]);
        (split; [by vm_compute|split; [|by vm_compute]]); apply chain_last; by vm_compute. }
  constructor; [done..|apply ex_vsock_layout; by left|apply ex_vsock_layout; by right|apply Hpub; by left|
    apply Hpub; by right| |left; by vm_compute|left; by vm_compute|done|done|by vm_compute].
  repeat constructor. by vm_compute.
Qed.

Lemma vsock_exchange_witness :
  exists d' w', vsock_process_queue ex_vsock ex_vsock_world VSOCK_TX_QUEUE = Some (d', w') /\
    received (w_mem w') 44 [mkDesc 320 64 2 0] = packet_wire (auto_response (pk_hdr ex_request)) /\
    used_elem ex_vrxq (w_mem w') 0 = Ok (0, 44).
Proof.
  destruct (vsock_exchange ex_vsock ex_vsock_world ex_vtxq ex_vrxq [(0, [mkDesc 256 44 0 0])]
    [(0, [mkDesc 320 64 2 0])] [ex_request] ex_vsock_ready) as (d' & w' & Hp & _ & Hr).
  - repeat constructor; by vm_compute.
  - by vm_compute.
  - repeat constructor.
  - constructor; [|constructor|constructor]. split_and!; [repeat constructor; by vm_compute| |by vm_compute|by vm_compute].
    repeat constructor.
  - by vm_compute.
  - exists d', w'. split; [exact Hp|]. exact (Hr 0%nat _ _ _ eq_refl eq_refl).
Defined.

Lemma vsock_header_roundtrip_witness :
  vsock_from_bytes (vsock_to_bytes (pk_hdr ex_request) ++ [7]) = Ok (pk_hdr ex_request).
Proof. apply (proj1 vsock_header_roundtrip). by vm_compute. Defined.
