(* ===== verification/Muxer.v ===== *)
(** * Muxer: the host side of the virtio socket

    Models [src/crates/squib/src/vsock_muxer.rs].  The multiplexer is shared by
    the vCPU thread, which calls [handle_tx] and [drain_rx], and, per host
    connection, a main task, a reader and a writer.  A transition of [step] is
    one critical section, one [await] or one wake-up call, so every interleaving
    the locks allow is a sequence of events.  A channel is the list of messages
    in it; [tokio::sync::Notify] is the class [NotifyLib]. *)

From stdpp Require Import base numbers list option gmap strings.
From Stdlib Require Import ZArith Lia.
From S2P Require Import Prelude Text Vsock.

Local Open Scope Z_scope.
Local Open Scope squib_scope.

Definition DEFAULT_BUF_ALLOC : Z := 1024 * 1024.
Definition RW_CHUNK_BYTES : Z := 4096.

(** ** Wake-ups *)

(** What the code uses of [Notify]: [notified()] is a ticket, an [await] on a
    ticket returns once it is ready. *)
Class NotifyLib (N T : Type) := {
  nf_new : N;
  nf_notify_waiters : N -> N;
  nf_notified : N -> T;
  nf_ready : N -> T -> bool
}.

(** The documented guarantee: a ticket receives the wake-up of every
    [notify_waiters] call made after it was created. *)
Class NotifyLaws (N T : Type) `{!NotifyLib N T} := {
  nf_issued : N -> T -> Prop;
  nf_issued_new n : nf_issued n (nf_notified n);
  nf_issued_later n t : nf_issued n t -> nf_issued (nf_notify_waiters n) t;
  nf_wakes n t : nf_issued n t -> nf_ready (nf_notify_waiters n) t = true;
  nf_stays_ready n t : nf_ready n t = true -> nf_issued n t -> nf_ready (nf_notify_waiters n) t = true
}.

(** ** Connections *)

Record ConnectionKey := mkKey { ck_host_port : Z; ck_guest_port : Z }.

#[export] Instance ConnectionKey_eq_dec : EqDecision ConnectionKey.
Proof. solve_decision. Defined.

#[export] Instance ConnectionKey_countable : Countable ConnectionKey.
Proof.
  refine (inj_countable' (fun k => (ck_host_port k, ck_guest_port k)) (fun p => mkKey p.1 p.2) _). by intros [].
Defined.

(** The channel sender, the one-shot sender and the shared [Notify] are named
    by the index of the connection task that made them. *)
Record Connection := mkConn {
  guest_to_host_tx : nat;
  response_signal : option nat;
  guest_buf_alloc : Z;
  guest_fwd_cnt : Z;
  host_forwarded : Z;
  guest_rx_forwarded : Z;
  credit_notify : nat;
  closed : bool
}.

(** The connection [handle_host_connection] inserts. *)
Definition new_connection (i : nat) : Connection := mkConn i (Some i) 0 0 0 0 i false.

(** What every guest packet on a connection refreshes. *)
Definition refresh (c : Connection) (h : VsockHeader) : Connection :=
  mkConn (guest_to_host_tx c) (response_signal c) (vh_buf_alloc h) (vh_fwd_cnt h) (host_forwarded c)
    (guest_rx_forwarded c) (credit_notify c) (closed c).

Definition take_signal (c : Connection) : Connection :=
  mkConn (guest_to_host_tx c) None (guest_buf_alloc c) (guest_fwd_cnt c) (host_forwarded c)
    (guest_rx_forwarded c) (credit_notify c) (closed c).

Definition count_rx (c : Connection) (n : Z) (failed : bool) : Connection :=
  mkConn (guest_to_host_tx c) (response_signal c) (guest_buf_alloc c) (guest_fwd_cnt c) (host_forwarded c)
    (saturating_add 32 (guest_rx_forwarded c) n) (credit_notify c) (failed || closed c).

Definition count_forwarded (c : Connection) (n : Z) : Connection :=
  mkConn (guest_to_host_tx c) (response_signal c) (guest_buf_alloc c) (guest_fwd_cnt c)
    (saturating_add 32 (host_forwarded c) n) (guest_rx_forwarded c) (credit_notify c) (closed c).

(** Bytes the guest has room for. *)
Definition credit_bytes (c : Connection) : Z :=
  saturating_sub (guest_buf_alloc c) (wrap 32 (host_forwarded c - guest_fwd_cnt c)).

(** ** Tasks *)

(** Where the reader of a connection stands: before the first lock, before
    [notified()], before the second lock, waiting for credit, before the third
    lock, reading up to [chunk] bytes, before the accounting lock, before the
    push; then the shutdown sequence. *)
Inductive ReaderPc (T : Type) :=
  | RTop
  | RRegister
  | RCheck (t : T)
  | RWait (t : T)
  | RWindow
  | RRead (chunk : Z)
  | RAccount (payload : list Z)
  | RPush (payload : list Z) (buf_alloc fwd_cnt : Z)
  | RClose
  | RShutdown (fwd_cnt : Z)
  | RRemove
  | REnd.
Arguments RTop {T}.
Arguments RRegister {T}.
Arguments RCheck {T} t.
Arguments RWait {T} t.
Arguments RWindow {T}.
Arguments RRead {T} chunk.
Arguments RAccount {T} payload.
Arguments RPush {T} payload buf_alloc fwd_cnt.
Arguments RClose {T}.
Arguments RShutdown {T} fwd_cnt.
Arguments RRemove {T}.
Arguments REnd {T}.

Inductive WriterPc := WLoop | WClosing | WEnd.

(** Where [handle_host_connection] stands. *)
Inductive Phase (T : Type) :=
  | Preamble (line : list Z)
  | Connect
  | Insert
  | Dial
  | Await
  | Refuse
  | Cleanup
  | Ack
  | Streaming (r : ReaderPc T) (w : WriterPc)
  | Failed.
Arguments Preamble {T} line.
Arguments Connect {T}.
Arguments Insert {T}.
Arguments Dial {T}.
Arguments Await {T}.
Arguments Refuse {T}.
Arguments Cleanup {T}.
Arguments Ack {T}.
Arguments Streaming {T} r w.
Arguments Failed {T}.

(** One accepted host connection: [tk_in] holds the bytes the client has
    written and the tasks have not read, [tk_out] what was written to it. *)
Record Task (N T : Type) := mkTask {
  tk_guest_port : Z;
  tk_host_port : option Z;
  tk_phase : Phase T;
  tk_chan : list (list Z);
  tk_signalled : bool;
  tk_notify : N;
  tk_in : list Z;
  tk_eof : bool;
  tk_out : list Z
}.
Arguments mkTask {N T}.
Arguments tk_guest_port {N T}.
Arguments tk_host_port {N T}.
Arguments tk_phase {N T}.
Arguments tk_chan {N T}.
Arguments tk_signalled {N T}.
Arguments tk_notify {N T}.
Arguments tk_in {N T}.
Arguments tk_eof {N T}.
Arguments tk_out {N T}.

(** What [handle_tx] still has to do after it released the table. *)
Inductive Effect := EffSignal (i : nat) | EffNotify (i : nat) | EffPush (pkt : VsockPacket).

#[export] Instance Effect_is_signal_dec (i : nat) (e : Effect) : Decision (e = EffSignal i).
Proof. destruct e as [j|j|p]; [destruct (decide (j = i)) as [->|]; [by left|right; congruence]|by right|by right]. Defined.

(** The shared state, the connection tasks, the listeners and the vCPU thread. *)
Record Sys (N T : Type) := mkSys {
  guest_cid : Z;
  next_host_port : Z;
  rx_queue : list VsockPacket;
  rx_permit : bool;
  connections : gmap ConnectionKey Connection;
  listeners : list Z;
  tasks : list (Task N T);
  vcpu : list Effect
}.
Arguments mkSys {N T}.
Arguments guest_cid {N T}.
Arguments next_host_port {N T}.
Arguments rx_queue {N T}.
Arguments rx_permit {N T}.
Arguments connections {N T}.
Arguments listeners {N T}.
Arguments tasks {N T}.
Arguments vcpu {N T}.

Section muxer.
Context {N T : Type} `{!NotifyLib N T}.
Implicit Types (s : Sys N T) (t : Task N T).

Definition set_tasks s ts : Sys N T := mkSys (guest_cid s) (next_host_port s) (rx_queue s) (rx_permit s) (connections s) (listeners s) ts (vcpu s).
Definition set_task s i t : Sys N T := set_tasks s (<[i := t]> (tasks s)).
Definition set_conns s cs : Sys N T := mkSys (guest_cid s) (next_host_port s) (rx_queue s) (rx_permit s) cs (listeners s) (tasks s) (vcpu s).
Definition set_vcpu s es : Sys N T := mkSys (guest_cid s) (next_host_port s) (rx_queue s) (rx_permit s) (connections s) (listeners s) (tasks s) es.
Definition set_rx s q b : Sys N T := mkSys (guest_cid s) (next_host_port s) q b (connections s) (listeners s) (tasks s) (vcpu s).

Definition set_phase t ph : Task N T := mkTask (tk_guest_port t) (tk_host_port t) ph (tk_chan t) (tk_signalled t) (tk_notify t) (tk_in t) (tk_eof t) (tk_out t).
Definition set_in t ph bs : Task N T := mkTask (tk_guest_port t) (tk_host_port t) ph (tk_chan t) (tk_signalled t) (tk_notify t) bs (tk_eof t) (tk_out t).
Definition set_chan t c : Task N T := mkTask (tk_guest_port t) (tk_host_port t) (tk_phase t) c (tk_signalled t) (tk_notify t) (tk_in t) (tk_eof t) (tk_out t).
Definition put_out t ph bs : Task N T := mkTask (tk_guest_port t) (tk_host_port t) ph (tk_chan t) (tk_signalled t) (tk_notify t) (tk_in t) (tk_eof t) (tk_out t ++ bs).

Definition push_rx s (pkt : VsockPacket) : Sys N T := set_rx s (rx_queue s ++ [pkt]) true.

(** [fetch_add(1)] on the port counter. *)
Definition allocate_host_port s : Sys N T * Z :=
  (mkSys (guest_cid s) (wadd 32 (next_host_port s) 1) (rx_queue s) (rx_permit s) (connections s) (listeners s) (tasks s) (vcpu s),
   next_host_port s).

(** [UdsVsockMuxer::spawn]; [bind] says whether binding a port's path succeeds. *)
Definition spawn (cid : Z) (ports : list Z) (bind : Z -> bool) : result unit (Sys N T) :=
  if forallb bind ports then Ok (mkSys cid 1024 [] false ∅ ports [] []) else Err tt.

(** The header of a packet from the host. *)
Definition host_header s (src_port dst_port len : Z) (op : VsockOp) (flags buf_alloc fwd_cnt : Z) : VsockHeader :=
  mkVsockHeader VMADDR_CID_HOST (guest_cid s) src_port dst_port len TYPE_STREAM op flags buf_alloc fwd_cnt.

Definition rst_packet s (h : VsockHeader) : VsockPacket :=
  mkPacket (host_header s (vh_dst_port h) (vh_src_port h) 0 OpRst 0 0 0) [].

Definition credit_packet s (h : VsockHeader) (fwd_cnt : Z) : VsockPacket :=
  mkPacket (host_header s (vh_dst_port h) (vh_src_port h) 0 OpCreditUpdate 0 DEFAULT_BUF_ALLOC fwd_cnt) [].

(** The receiver half of the byte channel is owned by the main task, then by
    the writer. *)
Definition receiver_alive t : bool :=
  match tk_phase t with Failed | Streaming _ WEnd => false | _ => true end.

(** [guest_to_host_tx.send(payload)]. *)
Definition send s (i : nat) (payload : list Z) : Sys N T * bool :=
  match tasks s !! i with
  | Some t => if receiver_alive t then (set_task s i (set_chan t (tk_chan t ++ [payload])), true) else (s, false)
  | None => (s, false)
  end.

Definition packet_key (h : VsockHeader) : ConnectionKey := mkKey (vh_dst_port h) (vh_src_port h).

(** [handle_tx] up to the release of the table; the rest is left in [vcpu]. *)
Definition handle_tx_locked s (pkt : VsockPacket) : Sys N T * list VsockPacket :=
  let h := pk_hdr pkt in
  let key := packet_key h in
  match vh_op h with
  | OpRequest => (s, [rst_packet s h])
  | OpResponse =>
      match connections s !! key with
      | Some c =>
          let s := set_conns s (<[key := take_signal (refresh c h)]> (connections s)) in
          (set_vcpu s (match response_signal c with Some i => [EffSignal i] | None => [] end ++ [EffNotify (credit_notify c)]), [])
      | None => (s, [])
      end
  | OpRw =>
      let payload_len := Z.min (zlen (pk_payload pkt)) (2 ^ 32 - 1) in
      match connections s !! key with
      | Some c =>
          if closed c then (s, [])
          else
            let '(s, sent) := send s (guest_to_host_tx c) (pk_payload pkt) in
            let c' := refresh (count_rx c payload_len (negb sent)) h in
            let s := set_conns s (<[key := c']> (connections s)) in
            (set_vcpu s [EffPush (credit_packet s h (guest_rx_forwarded c')); EffNotify (credit_notify c)], [])
      | None => (s, [])
      end
  | OpShutdown | OpRst => (set_conns s (delete key (connections s)), [])
  | OpCreditUpdate | OpCreditRequest =>
      match connections s !! key with
      | Some c =>
          let s := set_conns s (<[key := refresh c h]> (connections s)) in
          (set_vcpu s ((if decide (vh_op h = OpCreditRequest) then [EffPush (credit_packet s h (guest_rx_forwarded c))] else [])
                       ++ [EffNotify (credit_notify c)]), [])
      | None => (s, [])
      end
  | OpInvalid => (s, [])
  end.

Definition run_effect s (e : Effect) : Sys N T :=
  match e with
  | EffPush pkt => push_rx s pkt
  | EffSignal i =>
      match tasks s !! i with
      | Some t => set_task s i (mkTask (tk_guest_port t) (tk_host_port t) (tk_phase t) (tk_chan t) true (tk_notify t) (tk_in t) (tk_eof t) (tk_out t))
      | None => s
      end
  | EffNotify i =>
      match tasks s !! i with
      | Some t => set_task s i (mkTask (tk_guest_port t) (tk_host_port t) (tk_phase t) (tk_chan t) (tk_signalled t)
                                  (nf_notify_waiters (tk_notify t)) (tk_in t) (tk_eof t) (tk_out t))
      | None => s
      end
  end.

(** [handle_tx] without interference, and [drain_rx]. *)
Definition handle_tx s (pkt : VsockPacket) : Sys N T * list VsockPacket :=
  let '(s, replies) := handle_tx_locked s pkt in
  (set_vcpu (foldl run_effect s (vcpu s)) [], replies).

Definition drain_rx s : Sys N T * list VsockPacket := (set_rx s [] (rx_permit s), rx_queue s).

#[export] Instance UdsVsockMuxer : VsockMuxer (Sys N T) := { vm_handle_tx := handle_tx; vm_drain_rx := drain_rx }.

(** *** The main task of a connection *)

(** How an [await] ends where it is not determined: with a result, after [k]
    bytes with an error, with the deadline, or with [n] bytes read. *)
Inductive Outcome := Done | Fails (k : nat) | Elapses | Reads (n : nat).

(** A one-shot sender is in the table or in the hands of [handle_tx]. *)
Definition signal_held s (i : nat) : bool :=
  existsb (fun kc => bool_decide (response_signal kc.2 = Some i)) (map_to_list (connections s)) ||
  existsb (fun e => bool_decide (e = EffSignal i)) (vcpu s).

Definition sender_alive s (i : nat) : bool :=
  existsb (fun kc => bool_decide (guest_to_host_tx kc.2 = i)) (map_to_list (connections s)).

Definition ok_line (host_port : Z) : list Z := lit "OK " ++ decimal host_port ++ [10].
Definition rst_line (guest_port : Z) : list Z := lit "RST " ++ decimal guest_port ++ [10].

Definition request_packet s (key : ConnectionKey) : VsockPacket :=
  mkPacket (host_header s (ck_host_port key) (ck_guest_port key) 0 OpRequest 0 DEFAULT_BUF_ALLOC 0) [].

Definition task_key t : option ConnectionKey :=
  host_port ← tk_host_port t; Some (mkKey host_port (tk_guest_port t)).

(** [handle_host_connection] up to the split of the stream. *)
Definition main_step s (i : nat) t (o : Outcome) : option (Sys N T) :=
  match tk_phase t, o with
  | Preamble line, Reads 1 =>
      match tk_in t with
      | b :: rest =>
          let line := line ++ [b] in
          let ph := if b =? 10 then Connect else if (64 <? length line)%nat then Failed else Preamble line in
          Some (set_task s i (set_in t ph rest))
      | [] => None
      end
  | Preamble _, Reads 0 =>
      match tk_in t with [] => if tk_eof t then Some (set_task s i (set_phase t Failed)) else None | _ => None end
  | Preamble _, Fails _ => Some (set_task s i (set_phase t Failed))
  | Connect, Done =>
      let '(s, host_port) := allocate_host_port s in
      Some (set_task s i (mkTask (tk_guest_port t) (Some host_port) Insert [] false nf_new (tk_in t) (tk_eof t) (tk_out t)))
  | Insert, Done =>
      key ← task_key t;
      Some (set_task (set_conns s (<[key := new_connection i]> (connections s))) i (set_phase t Dial))
  | Dial, Done =>
      key ← task_key t;
      Some (set_task (push_rx s (request_packet s key)) i (set_phase t Await))
  | Await, Done =>
      if tk_signalled t then Some (set_task s i (set_phase t Ack))
      else if signal_held s i then None
      else Some (set_task s i (set_phase t Refuse))
  | Await, Elapses => if tk_signalled t then None else Some (set_task s i (set_phase t Refuse))
  | Refuse, Done => Some (set_task s i (put_out t Cleanup (rst_line (tk_guest_port t))))
  | Refuse, Fails k => Some (set_task s i (put_out t Cleanup (take k (rst_line (tk_guest_port t)))))
  | Cleanup, Done =>
      key ← task_key t;
      Some (set_task (set_conns s (delete key (connections s))) i (set_phase t Failed))
  | Ack, Done =>
      host_port ← tk_host_port t;
      Some (set_task s i (put_out t (Streaming RTop WLoop) (ok_line host_port)))
  | Ack, Fails k =>
      host_port ← tk_host_port t;
      Some (set_task s i (put_out t Failed (take k (ok_line host_port))))
  | _, _ => None
  end.

(** *** The reader: host socket to guest *)

(** The connection under [key], unless it is gone or closed. *)
Definition open_conn s (key : ConnectionKey) : option Connection :=
  c ← connections s !! key; if closed c then None else Some c.

Definition rw_packet s (key : ConnectionKey) (payload : list Z) (buf_alloc fwd_cnt : Z) : VsockPacket :=
  mkPacket (host_header s (ck_host_port key) (ck_guest_port key) (wrap 32 (zlen payload)) OpRw 0 buf_alloc fwd_cnt) payload.

Definition shutdown_packet s (key : ConnectionKey) (fwd_cnt : Z) : VsockPacket :=
  mkPacket (host_header s (ck_host_port key) (ck_guest_port key) 0 OpShutdown 3 DEFAULT_BUF_ALLOC fwd_cnt) [].

Definition reader_step s (i : nat) t (r : ReaderPc T) (w : WriterPc) (o : Outcome) : option (Sys N T) :=
  key ← task_key t;
  let goto r' := Some (set_task s i (set_phase t (Streaming r' w))) in
  match r, o with
  | RTop, Done => match open_conn s key with Some _ => goto RRegister | None => goto REnd end
  | RRegister, Done => goto (RCheck (nf_notified (tk_notify t)))
  | RCheck k, Done =>
      match open_conn s key with
      | Some c => if 0 <? credit_bytes c then goto RWindow else goto (RWait k)
      | None => goto REnd
      end
  | RWait k, Done => if nf_ready (tk_notify t) k then goto RTop else None
  | RWindow, Done =>
      match open_conn s key with
      | Some c => goto (RRead (Z.max (Z.min RW_CHUNK_BYTES (credit_bytes c)) 1))
      | None => goto REnd
      end
  | RRead _, Reads O => match tk_in t with [] => if tk_eof t then goto RClose else None | _ => None end
  | RRead chunk, Reads n =>
      if (Z.of_nat n <=? chunk) && (n <=? length (tk_in t))%nat then
        Some (set_task s i (set_in t (Streaming (RAccount (take n (tk_in t))) w) (drop n (tk_in t))))
      else None
  | RRead _, Fails _ => goto RClose
  | RAccount payload, Done =>
      match open_conn s key with
      | Some c =>
          Some (set_task (set_conns s (<[key := count_forwarded c (wrap 32 (zlen payload))]> (connections s))) i
                  (set_phase t (Streaming (RPush payload DEFAULT_BUF_ALLOC (guest_rx_forwarded c)) w)))
      | None => goto REnd
      end
  | RPush payload buf_alloc fwd_cnt, Done =>
      Some (set_task (push_rx s (rw_packet s key payload buf_alloc fwd_cnt)) i (set_phase t (Streaming RTop w)))
  | RClose, Done =>
      goto (RShutdown (match connections s !! key with Some c => guest_rx_forwarded c | None => 0 end))
  | RShutdown fwd_cnt, Done =>
      Some (set_task (push_rx s (shutdown_packet s key fwd_cnt)) i (set_phase t (Streaming RRemove w)))
  | RRemove, Done =>
      Some (set_task (set_conns s (delete key (connections s))) i (set_phase t (Streaming REnd w)))
  | _, _ => None
  end.

(** *** The writer: guest to host socket *)

Definition writer_step s (i : nat) t (r : ReaderPc T) (w : WriterPc) (o : Outcome) : option (Sys N T) :=
  match w, o with
  | WLoop, Done =>
      match tk_chan t with
      | payload :: rest => Some (set_task s i (set_chan (put_out t (Streaming r WLoop) payload) rest))
      | [] => if sender_alive s i then None else Some (set_task s i (set_phase t (Streaming r WClosing)))
      end
  | WLoop, Fails k =>
      match tk_chan t with
      | payload :: rest => Some (set_task s i (set_chan (put_out t (Streaming r WClosing) (take k payload)) rest))
      | [] => None
      end
  | WClosing, _ => Some (set_task s i (set_phase t (Streaming r WEnd)))
  | _, _ => None
  end.

(** *** The system *)

Inductive Event :=
  | EvAccept (port : Z)
  | EvAcceptFails (port : Z)
  | EvHostWrites (i : nat) (bs : list Z)
  | EvHostCloses (i : nat)
  | EvMain (i : nat) (o : Outcome)
  | EvReader (i : nat) (o : Outcome)
  | EvWriter (i : nat) (o : Outcome)
  | EvGuestTx (pkt : VsockPacket)
  | EvEffect
  | EvDrainRx
  | EvNotified.

Definition step s (e : Event) : option (Sys N T) :=
  match e with
  | EvAccept port =>
      if decide (port ∈ listeners s)
      then Some (set_tasks s (tasks s ++ [mkTask port None (Preamble []) [] false nf_new [] false []]))
      else None
  | EvAcceptFails port =>
      Some (mkSys (guest_cid s) (next_host_port s) (rx_queue s) (rx_permit s) (connections s)
              (filter (fun p => p <> port) (listeners s)) (tasks s) (vcpu s))
  | EvHostWrites i bs => t ← tasks s !! i; if tk_eof t then None else Some (set_task s i (set_in t (tk_phase t) (tk_in t ++ bs)))
  | EvHostCloses i =>
      t ← tasks s !! i;
      Some (set_task s i (mkTask (tk_guest_port t) (tk_host_port t) (tk_phase t) (tk_chan t) (tk_signalled t) (tk_notify t) (tk_in t) true (tk_out t)))
  | EvMain i o => t ← tasks s !! i; main_step s i t o
  | EvReader i o => t ← tasks s !! i; match tk_phase t with Streaming r w => reader_step s i t r w o | _ => None end
  | EvWriter i o => t ← tasks s !! i; match tk_phase t with Streaming r w => writer_step s i t r w o | _ => None end
  | EvGuestTx pkt => match vcpu s with [] => Some (handle_tx_locked s pkt).1 | _ => None end
  | EvEffect => match vcpu s with e :: es => Some (run_effect (set_vcpu s es) e) | [] => None end
  | EvDrainRx => match vcpu s with [] => Some (drain_rx s).1 | _ => None end
  | EvNotified => if rx_permit s then Some (set_rx s (rx_queue s) false) else None
  end.

(** What an event shows: bytes the client wrote, the guest's answer to a
    connection request, guest bytes accepted for a connection, packets handed to
    the device. *)
Inductive Obs :=
  | ObWrote (i : nat) (bs : list Z)
  | ObAnswered (i : nat)
  | ObAccepted (i : nat) (bs : list Z)
  | ObDrained (pkts : list VsockPacket).

Definition observe s (e : Event) : list Obs :=
  match e with
  | EvHostWrites i bs => [ObWrote i bs]
  | EvGuestTx pkt =>
      match vh_op (pk_hdr pkt), open_conn s (packet_key (pk_hdr pkt)) with
      | OpRw, Some c => if (send s (guest_to_host_tx c) (pk_payload pkt)).2 then [ObAccepted (guest_to_host_tx c) (pk_payload pkt)] else []
      | OpResponse, _ =>
          match c ← connections s !! packet_key (pk_hdr pkt); response_signal c with Some i => [ObAnswered i] | None => [] end
      | _, _ => []
      end
  | EvDrainRx => [ObDrained (rx_queue s)]
  | _ => []
  end.

Fixpoint run s (es : list Event) : option (Sys N T * list Obs) :=
  match es with
  | [] => Some (s, [])
  | e :: es =>
      s' ← step s e;
      '(s'', obs) ← run s' es;
      Some (s'', observe s e ++ obs)
  end.
End muxer.

(** ** Reachable states *)

#[local] Arguments ok_line : simpl never.
#[local] Arguments rst_line : simpl never.

Section reachable.
Context {N T : Type} `{!NotifyLib N T}.
Implicit Types (s : Sys N T) (t : Task N T).

(** The states of a multiplexer started with [spawn], with what was seen. *)
Inductive reach : Sys N T -> list Obs -> Prop :=
  | reach_spawn cid ports bind s : spawn cid ports bind = Ok s -> reach s []
  | reach_step s obs e s' : reach s obs -> step s e = Some s' -> reach s' (obs ++ observe s e).

Lemma run_reach s obs es s' obs' : reach s obs -> run s es = Some (s', obs') -> reach s' (obs ++ obs').
Proof.
  revert s obs obs'. induction es as [|e es IH]; intros s obs obs' Hr; cbn [run].
  - intros [= <- <-]. by rewrite app_nil_r.
  - destruct (step s e) as [s1|] eqn:E1; [|done]. cbn [mbind option_bind].
    destruct (run s1 es) as [[s2 obs2]|] eqn:E2; [|done]. intros [= <- <-].
    rewrite app_assoc. eapply IH; [|done]. by econstructor.
Qed.

Lemma tasks_grow s e s' : step s e = Some s' -> (length (tasks s) <= length (tasks s'))%nat.
Proof.
  destruct e as [port|port|i bs|i|i o|i o|i o|pkt| | |]; cbn [step]; intros H.
  - case_decide; simplify_eq/=. rewrite length_app. lia.
  - by simplify_eq/=.
  - destruct (tasks s !! i); simplify_eq/=. case_match; simplify_eq/=. by rewrite length_insert.
  - destruct (tasks s !! i); simplify_eq/=. by rewrite length_insert.
  - destruct (tasks s !! i) as [t|]; [cbn in H|done]. unfold main_step, allocate_host_port in H.
    repeat case_match; simplify_eq/=; rewrite ?length_insert; try done;
      destruct (task_key t), (tk_host_port t); simplify_eq/=; by rewrite ?length_insert.
  - destruct (tasks s !! i) as [t|]; [cbn in H|done]. case_match; [done..| |done]. unfold reader_step in H.
    destruct (task_key t); [cbn in H|done]. repeat case_match; simplify_eq/=; by rewrite ?length_insert.
  - destruct (tasks s !! i) as [t|]; [cbn in H|done]. case_match; [done..| |done]. unfold writer_step in H.
    repeat case_match; simplify_eq/=; by rewrite ?length_insert.
  - case_match; simplify_eq/=. unfold handle_tx_locked, send.
    repeat case_match; simplify_eq/=; by rewrite ?length_insert.
  - destruct (vcpu s) as [|[] ?]; simplify_eq/=; try case_match; cbn; by rewrite ?length_insert.
  - by case_match; simplify_eq/=.
  - by case_match; simplify_eq/=.
Qed.

(** *** Tables, ports and the vCPU thread *)

(** The port of a connection is allocated when the preamble was read. *)
Definition port_ok t : Prop :=
  match tk_phase t with
  | Preamble _ | Connect => tk_host_port t = None
  | Failed => True
  | _ => is_Some (tk_host_port t)
  end.

Record table_inv s : Prop := mkTableInv {
  ti_conn k c : connections s !! k = Some c ->
    credit_notify c = guest_to_host_tx c /\ (forall i, response_signal c = Some i -> i = guest_to_host_tx c) /\
    exists t, tasks s !! guest_to_host_tx c = Some t /\ task_key t = Some k /\ tk_phase t <> Insert;
  ti_phase i t : tasks s !! i = Some t -> port_ok t;
  ti_ports i j t u hp : tasks s !! i = Some t -> tasks s !! j = Some u ->
    tk_host_port t = Some hp -> tk_host_port u = Some hp -> i = j;
  ti_range i t hp : tasks s !! i = Some t -> tk_host_port t = Some hp -> 1024 <= hp < next_host_port s;
  ti_next : next_host_port s = 1024 + zlen (omap tk_host_port (tasks s));
  ti_push pkt : EffPush pkt ∈ vcpu s -> vh_op (pk_hdr pkt) <> OpRw
}.

(** Connections are opened fewer than [2^32 - 1024] times: the 32-bit port
    counter has not wrapped. *)
Definition few s : Prop := zlen (tasks s) < 2 ^ 32 - 1024.

Lemma step_few s e s' : few s' -> step s e = Some s' -> few s.
Proof. intros ? H. pose proof (tasks_grow _ _ _ H). unfold few, zlen in *. lia. Qed.

Lemma run_few s es s' obs : few s' -> run s es = Some (s', obs) -> few s.
Proof.
  revert s obs. induction es as [|e es IH]; cbn [run]; intros s obs Hf H; [by simplify_eq|].
  apply bind_Some in H as (s1 & H1 & H). apply bind_Some in H as ([s2 o2] & H2 & [= <- <-]).
  eapply step_few; [|done]. by eapply IH.
Qed.

Lemma omap_length_le {A B} (f : A -> option B) (l : list A) : (length (omap f l) <= length l)%nat.
Proof. induction l as [|x l IH]; cbn; [done|]. destruct (f x); cbn; lia. Qed.

Lemma omap_set (i : nat) t t' (ts : list (Task N T)) :
  ts !! i = Some t ->
  (length (omap tk_host_port (<[i := t']> ts)) + (if tk_host_port t is Some _ then 1 else 0) =
   length (omap tk_host_port ts) + (if tk_host_port t' is Some _ then 1 else 0))%nat.
Proof.
  revert i. induction ts as [|x ts IH]; intros [|i]; cbn; [done..| |]; intros H; simplify_eq.
  - destruct (tk_host_port t), (tk_host_port t'); cbn; lia.
  - specialize (IH i H). destruct (tk_host_port x); [exact (f_equal S IH)|exact IH].
Qed.

(** A task moves on, keeping its ports. *)
Lemma table_set_task s i t t' :
  table_inv s -> tasks s !! i = Some t -> tk_host_port t' = tk_host_port t -> tk_guest_port t' = tk_guest_port t ->
  port_ok t' -> (tk_phase t' = Insert -> tk_phase t = Insert) -> table_inv (set_task s i t').
Proof.
  intros [H1 H2 H3 H4 H5 H6] Ht Hh Hg Hp Hi. pose proof (lookup_lt_Some _ _ _ Ht) as Hlt.
  assert (Hk : task_key t' = task_key t) by (unfold task_key; by rewrite Hh, Hg).
  assert (Hport : forall j u, <[i := t']> (tasks s) !! j = Some u ->
    exists u0, tasks s !! j = Some u0 /\ tk_host_port u = tk_host_port u0).
  { intros j u [(-> & -> & _)|[? ?]]%list_lookup_insert_Some; eauto. }
  split; cbn.
  - intros k c Hc. destruct (H1 k c Hc) as (? & ? & u & Hu & Huk & Hup). split_and!; [done..|].
    destruct (decide (guest_to_host_tx c = i)) as [He|].
    + rewrite He in Hu |- *. exists t'. rewrite list_lookup_insert_eq by done. simplify_eq. split_and!; [done|congruence|auto].
    + exists u. by rewrite list_lookup_insert_ne.
  - intros j u [(-> & -> & _)|[? ?]]%list_lookup_insert_Some; eauto.
  - intros j k u v hp (u0 & Hu & Eu)%Hport (v0 & Hv & Ev)%Hport. rewrite Eu, Ev. eauto.
  - intros j u hp (u0 & Hu & Eu)%Hport. rewrite Eu. eauto.
  - rewrite H5. unfold zlen. pose proof (omap_set i t t' _ Ht) as E. rewrite Hh in E. lia.
  - done.
Qed.

(** Changes of the table. *)
Lemma table_set_conn s k c c' :
  table_inv s -> connections s !! k = Some c -> guest_to_host_tx c' = guest_to_host_tx c ->
  credit_notify c' = credit_notify c -> (response_signal c' = response_signal c \/ response_signal c' = None) ->
  table_inv (set_conns s (<[k := c']> (connections s))).
Proof.
  intros [H1 H2 H3 H4 H5 H6] Hc Ht Hn Hr. split; cbn; try done.
  intros k' c'' [[<- <-]|[? ?]]%lookup_insert_Some; [|by apply H1].
  destruct (H1 _ _ Hc) as (? & Hs & ?). rewrite Ht, Hn. split_and!; try done. intros i Hi. apply Hs.
  destruct Hr; congruence.
Qed.

Lemma table_delete s k : table_inv s -> table_inv (set_conns s (delete k (connections s))).
Proof. intros [H1 H2 H3 H4 H5 H6]. split; cbn; try done. intros k' c [? ?]%lookup_delete_Some. by apply H1. Qed.

Lemma table_push s pkt : table_inv s -> table_inv (push_rx s pkt).
Proof. by intros []. Qed.

Lemma table_vcpu s es :
  table_inv s -> (forall pkt, EffPush pkt ∈ es -> vh_op (pk_hdr pkt) <> OpRw) -> table_inv (set_vcpu s es).
Proof. by intros []. Qed.

Lemma table_accept s port :
  table_inv s -> table_inv (set_tasks s (tasks s ++ [mkTask port None (Preamble []) [] false nf_new [] false []])).
Proof.
  intros [H1 H2 H3 H4 H5 H6]. split; cbn.
  - intros k c Hc. destruct (H1 k c Hc) as (? & ? & t & Ht & ?). split_and!; [done..|]. exists t.
    split; [by apply lookup_app_l_Some|done].
  - intros i t [?|[_ [_ <-]%list_lookup_singleton_Some]]%lookup_app_Some; [|done]. eauto.
  - intros i j t u hp [?|[_ [_ <-]%list_lookup_singleton_Some]]%lookup_app_Some
      [?|[_ [_ <-]%list_lookup_singleton_Some]]%lookup_app_Some; try done. eauto.
  - intros i t hp [?|[_ [_ <-]%list_lookup_singleton_Some]]%lookup_app_Some; [|done]. eauto.
  - rewrite omap_app, H5. unfold zlen. rewrite length_app. cbn. lia.
  - done.
Qed.

Lemma table_alloc s i t :
  few s -> table_inv s -> tasks s !! i = Some t -> tk_phase t = Connect ->
  table_inv (set_task (allocate_host_port s).1 i
    (mkTask (tk_guest_port t) (Some (next_host_port s)) Insert [] false nf_new (tk_in t) (tk_eof t) (tk_out t))).
Proof.
  intros Hf [H1 H2 H3 H4 H5 H6] Ht Hp. pose proof (lookup_lt_Some _ _ _ Ht) as Hlt.
  assert (Hn : tk_host_port t = None) by (specialize (H2 _ _ Ht); unfold port_ok in H2; by rewrite Hp in H2).
  set (t' := mkTask _ _ _ _ _ _ _ _ _). pose proof (omap_set i t t' _ Ht) as E. rewrite Hn in E. cbn in E.
  assert (Hw : wadd 32 (next_host_port s) 1 = next_host_port s + 1).
  { apply wrap_small. pose proof (omap_length_le tk_host_port (<[i := t']> (tasks s))) as Hl.
    rewrite length_insert in Hl. unfold few, zlen, in_u in *. lia. }
  split; cbn; rewrite ?Hw.
  - intros k c Hc. destruct (H1 k c Hc) as (? & ? & u & Hu & Huk & Hup). split_and!; [done..|]. exists u.
    split; [|done]. rewrite list_lookup_insert_ne; [done|]. intros ->. simplify_eq.
    unfold task_key in Huk. by rewrite Hn in Huk.
  - intros j u [(-> & <- & _)|[? ?]]%list_lookup_insert_Some; [by eexists|eauto].
  - intros j k u v hp [(<- & <- & _)|[? Hu]]%list_lookup_insert_Some
      [(<- & <- & _)|[? Hv]]%list_lookup_insert_Some; cbn; intros Eu Ev; simplify_eq; try done; try (by eauto).
    + specialize (H4 _ _ _ Hv Ev). lia.
    + specialize (H4 _ _ _ Hu Eu). lia.
  - intros j u hp [(<- & <- & _)|[? Hu]]%list_lookup_insert_Some; cbn; intros Eu; simplify_eq.
    + rewrite H5. unfold zlen. lia.
    + specialize (H4 _ _ _ Hu Eu). lia.
  - rewrite H5. unfold zlen. lia.
  - done.
Qed.

Lemma table_insert s i t k :
  table_inv s -> tasks s !! i = Some t -> tk_phase t = Insert -> task_key t = Some k ->
  table_inv (set_task (set_conns s (<[k := new_connection i]> (connections s))) i (set_phase t Dial)).
Proof.
  intros [H1 H2 H3 H4 H5 H6] Ht Hp Hk. pose proof (lookup_lt_Some _ _ _ Ht) as Hlt.
  assert (Hd : tk_host_port (set_phase t Dial) = tk_host_port t) by done.
  assert (Hport : forall j u, <[i := set_phase t Dial]> (tasks s) !! j = Some u ->
    exists u0, tasks s !! j = Some u0 /\ tk_host_port u = tk_host_port u0).
  { intros j u [(-> & <- & _)|[? ?]]%list_lookup_insert_Some; eauto. }
  split; cbn.
  - intros k' c [[<- <-]|[Hne Hc]]%lookup_insert_Some; cbn.
    + split_and!; [done|by intros ? [= <-]|]. exists (set_phase t Dial). by rewrite list_lookup_insert_eq.
    + destruct (H1 _ _ Hc) as (? & ? & u & Hu & Huk & Hup). split_and!; [done..|].
      exists u. rewrite list_lookup_insert_ne; [done|]. intros ->. simplify_eq.
  - intros j u [(-> & <- & _)|[? ?]]%list_lookup_insert_Some; [|eauto].
    specialize (H2 _ _ Ht). unfold port_ok in H2 |- *. by rewrite Hp in H2.
  - intros j k' u v hp (u0 & Hu & Eu)%Hport (v0 & Hv & Ev)%Hport. rewrite Eu, Ev. eauto.
  - intros j u hp (u0 & Hu & Eu)%Hport. rewrite Eu. eauto.
  - rewrite H5. unfold zlen. pose proof (omap_set i t (set_phase t Dial) _ Ht) as E. rewrite Hd in E. lia.
  - done.
Qed.

Lemma table_handle s pkt : table_inv s -> vcpu s = [] -> table_inv (handle_tx_locked s pkt).1.
Proof.
  intros HI Hv. unfold handle_tx_locked. destruct (vh_op (pk_hdr pkt)) eqn:Hop; try done.
  - destruct (connections s !! _) as [c|] eqn:Hc; [|done]. cbn.
    eapply table_vcpu; [eapply table_set_conn; eauto|].
    intros p [Hp|Hp]%elem_of_app; [destruct (response_signal c)|];
      repeat (apply elem_of_cons in Hp as [Hp|Hp]; [done|]); by apply elem_of_nil in Hp.
  - by apply table_delete.
  - by apply table_delete.
  - destruct (connections s !! _) as [c|] eqn:Hc; [|done]. destruct (closed c) eqn:Hcl; [done|].
    assert (Hs : table_inv (send s (guest_to_host_tx c) (pk_payload pkt)).1 /\
      connections (send s (guest_to_host_tx c) (pk_payload pkt)).1 !! packet_key (pk_hdr pkt) = Some c).
    { unfold send. destruct (tasks s !! _) as [t|] eqn:Ht; [|done]. destruct (receiver_alive t); [|done]. split; [|done].
      cbn [fst]. eapply table_set_task; try done. by apply (ti_phase _ HI _ _ Ht). }
    destruct (send _ _ _) as [s1 sent]. destruct Hs as [Hs1 Hc1]. cbn [fst] in *.
    eapply table_vcpu; [eapply table_set_conn; eauto|].
    intros p [[= ->]|[?|Hp%elem_of_nil]%elem_of_cons]%elem_of_cons; done.
  - destruct (connections s !! _) as [c|] eqn:Hc; [|done]. cbn.
    eapply table_vcpu; [eapply table_set_conn; eauto|].
    by intros p [Hp%elem_of_nil|[?|Hp%elem_of_nil]%elem_of_cons]%elem_of_app.
  - destruct (connections s !! _) as [c|] eqn:Hc; [|done]. cbn.
    eapply table_vcpu; [eapply table_set_conn; eauto|].
    intros p [[[= ->]|Hp%elem_of_nil]%elem_of_cons|[?|Hp%elem_of_nil]%elem_of_cons]%elem_of_app; done.
Qed.

(** Split a task step into its branches. *)
Ltac task_cases H :=
  unfold main_step, allocate_host_port, reader_step, writer_step in H;
  repeat (first [apply bind_Some in H as (? & ? & H) | case_match; try discriminate H]);
  injection H as H; subst.

Lemma table_main s i t o s' :
  few s -> table_inv s -> tasks s !! i = Some t -> main_step s i t o = Some s' -> table_inv s'.
Proof.
  intros Hf HI Ht H. pose proof (ti_phase _ HI _ _ Ht) as Hp.
  assert (Hset : forall s0 t', table_inv s0 -> tasks s0 !! i = Some t -> tk_host_port t' = tk_host_port t ->
    tk_guest_port t' = tk_guest_port t -> tk_phase t' <> Insert -> port_ok t' -> table_inv (set_task s0 i t')).
  { intros. eapply table_set_task; eauto. done. }
  unfold port_ok in Hp. task_cases H; simplify_eq;
    try (apply Hset; [by eauto using table_push, table_delete|done|done|done|cbn; repeat case_match; done|
      unfold port_ok; cbn; by repeat case_match]).
  - by apply (table_alloc s).
  - by apply (table_insert s).
Qed.

Lemma open_conn_Some s k c : open_conn s k = Some c <-> connections s !! k = Some c /\ closed c = false.
Proof.
  unfold open_conn. rewrite bind_Some. split; [|intros [? E]; exists c; by rewrite E]. intros (c' & Hc & ?).
  by destruct (closed c') eqn:?; simplify_eq.
Qed.

Lemma table_reader s i t r w o s' :
  table_inv s -> tasks s !! i = Some t -> tk_phase t = Streaming r w -> reader_step s i t r w o = Some s' -> table_inv s'.
Proof.
  intros HI Ht Hph H. pose proof (ti_phase _ HI _ _ Ht) as Hp. unfold port_ok in Hp. rewrite Hph in Hp.
  assert (Hset : forall s0 t' r' w', table_inv s0 -> tasks s0 !! i = Some t -> tk_host_port t' = tk_host_port t ->
    tk_guest_port t' = tk_guest_port t -> tk_phase t' = Streaming r' w' -> table_inv (set_task s0 i t')).
  { intros s0 t' r' w' ? ? E ? Hs. eapply table_set_task; eauto; [|by rewrite Hs].
    unfold port_ok. by rewrite Hs, E. }
  task_cases H; simplify_eq; (eapply Hset; [|done|done|done|done]); eauto using table_push, table_delete.
  match goal with H : open_conn _ _ = Some _ |- _ => apply open_conn_Some in H as [? _] end.
  eapply table_set_conn; eauto.
Qed.

Lemma table_writer s i t r w o s' :
  table_inv s -> tasks s !! i = Some t -> tk_phase t = Streaming r w -> writer_step s i t r w o = Some s' -> table_inv s'.
Proof.
  intros HI Ht Hph H. pose proof (ti_phase _ HI _ _ Ht) as Hp. unfold port_ok in Hp. rewrite Hph in Hp.
  task_cases H; simplify_eq; by eapply table_set_task.
Qed.

Lemma table_step s e s' : few s' -> table_inv s -> step s e = Some s' -> table_inv s'.
Proof.
  intros Hf HI H. pose proof (tasks_grow _ _ _ H) as Hg.
  assert (Hf' : few s) by (unfold few, zlen in *; lia). clear Hf Hg.
  destruct e as [port|port|i bs|i|i o|i o|i o|pkt| | |]; cbn [step] in H.
  - case_decide; simplify_eq. by apply table_accept.
  - simplify_eq. by destruct HI.
  - apply bind_Some in H as (t & Ht & H). case_match; simplify_eq.
    eapply table_set_task; try done. by apply (ti_phase _ HI _ _ Ht).
  - apply bind_Some in H as (t & Ht & H). simplify_eq.
    eapply table_set_task; try done. by apply (ti_phase _ HI _ _ Ht).
  - apply bind_Some in H as (t & Ht & H). by eapply table_main.
  - apply bind_Some in H as (t & Ht & H). case_match; try done. by eapply table_reader.
  - apply bind_Some in H as (t & Ht & H). case_match; try done. by eapply table_writer.
  - case_match; simplify_eq. by apply table_handle.
  - destruct (vcpu s) as [|e es] eqn:Hv; simplify_eq.
    assert (HI' : table_inv (set_vcpu s es)).
    { apply table_vcpu; [done|]. intros p Hp. apply (ti_push _ HI). rewrite Hv. by right. }
    destruct e as [i|i|p]; cbn [run_effect]; [| |by apply table_push]; case_match; try done;
      (eapply table_set_task; try done); by apply (ti_phase _ HI i t).
  - case_match; simplify_eq. by destruct HI.
  - case_match; simplify_eq. by destruct HI.
Qed.

Lemma reach_table s obs : reach s obs -> few s -> table_inv s.
Proof.
  induction 1 as [cid ports bind s H|s obs e s' _ IH H]; intros Hf.
  - unfold spawn in H. case_match; simplify_eq.
    split; cbn; [intros k c; by rewrite lookup_empty|done|done|done|done|by intros p ?%elem_of_nil].
  - eapply table_step; eauto using step_few.
Qed.

(** *** The byte streams *)

Definition wrote (i : nat) (obs : list Obs) : list Z :=
  concat (map (fun o => match o with ObWrote j bs => if decide (j = i) then bs else [] | _ => [] end) obs).

Definition accepted (i : nat) (obs : list Obs) : list Z :=
  concat (map (fun o => match o with ObAccepted j bs => if decide (j = i) then bs else [] | _ => [] end) obs).

(** All packets queued for the guest so far. *)
Definition rx_log s (obs : list Obs) : list VsockPacket :=
  concat (map (fun o => match o with ObDrained pkts => pkts | _ => [] end) obs) ++ rx_queue s.

(** The payload bytes of a connection in a sequence of packets. *)
Definition rw_bytes (k : option ConnectionKey) (pkts : list VsockPacket) : list Z :=
  concat (map (fun p => if decide (vh_op (pk_hdr p) = OpRw /\ k = Some (mkKey (vh_src_port (pk_hdr p)) (vh_dst_port (pk_hdr p))))
                        then pk_payload p else []) pkts).

(** Bytes read from the client and not yet queued; nothing is claimed of a
    reader that gave up. *)
Definition inflight (ph : Phase T) : option (list Z) :=
  match ph with
  | Failed | Streaming REnd _ => None
  | Streaming (RAccount p) _ | Streaming (RPush p _ _) _ => Some p
  | _ => Some []
  end.

(** A task, given the payload bytes queued for the guest, the bytes the client
    wrote, the guest bytes accepted and whether the guest answered. *)
Record task_ok (kb wr acc : list Z) (ans : Prop) t : Prop := mkTaskOk {
  to_in : exists line lost, wr = line ++ kb ++ lost ++ tk_in t /\ (length line <= 65)%nat /\
    (forall l, inflight (tk_phase t) = Some l -> lost = l) /\
    (forall l, tk_phase t = Preamble l -> line = l /\ (length l <= 64)%nat);
  to_kb : match tk_phase t with Streaming _ _ | Failed => True | _ => kb = [] end;
  to_out : match tk_phase t with
    | Preamble _ | Connect => tk_out t = [] /\ tk_chan t = [] /\ acc = []
    | Insert | Dial | Await | Ack => tk_out t = [] /\ concat (tk_chan t) = acc
    | Refuse => tk_out t = []
    | Cleanup => tk_out t `prefix_of` rst_line (tk_guest_port t)
    | Streaming _ WLoop => exists hp, tk_host_port t = Some hp /\ tk_out t ++ concat (tk_chan t) = ok_line hp ++ acc
    | Streaming _ _ => exists hp, tk_host_port t = Some hp /\ tk_out t `prefix_of` ok_line hp ++ acc
    | Failed => tk_out t `prefix_of` rst_line (tk_guest_port t) \/
                (ans /\ exists hp, tk_host_port t = Some hp /\ tk_out t `prefix_of` ok_line hp)
    end;
  to_signal : tk_signalled t = true -> ans;
  to_ans : match tk_phase t with Ack | Streaming _ _ => ans | _ => True end
}.

Record stream_inv s (obs : list Obs) : Prop := mkStreamInv {
  si_task i t : tasks s !! i = Some t ->
    task_ok (rw_bytes (task_key t) (rx_log s obs)) (wrote i obs) (accepted i obs) (ObAnswered i ∈ obs) t;
  si_new i : (length (tasks s) <= i)%nat -> wrote i obs = [] /\ accepted i obs = [];
  si_fresh pkt : pkt ∈ rx_log s obs -> vh_op (pk_hdr pkt) = OpRw -> vh_src_port (pk_hdr pkt) < next_host_port s;
  si_signal i : EffSignal i ∈ vcpu s -> ObAnswered i ∈ obs
}.

Lemma wrote_app i a b : wrote i (a ++ b) = wrote i a ++ wrote i b.
Proof. unfold wrote. by rewrite map_app, concat_app. Qed.

Lemma accepted_app i a b : accepted i (a ++ b) = accepted i a ++ accepted i b.
Proof. unfold accepted. by rewrite map_app, concat_app. Qed.

Lemma rw_bytes_app k a b : rw_bytes k (a ++ b) = rw_bytes k a ++ rw_bytes k b.
Proof. unfold rw_bytes. by rewrite map_app, concat_app. Qed.

Lemma rw_bytes_other k p : vh_op (pk_hdr p) <> OpRw -> rw_bytes k [p] = [].
Proof. intros H. unfold rw_bytes. cbn. rewrite decide_False; [done|]. by intros [? _]. Qed.

Lemma rw_bytes_fresh k pkts :
  (forall p, p ∈ pkts -> vh_op (pk_hdr p) = OpRw -> vh_src_port (pk_hdr p) < ck_host_port k) -> rw_bytes (Some k) pkts = [].
Proof.
  induction pkts as [|p pkts IH]; intros H; [done|]. change (p :: pkts) with ([p] ++ pkts).
  rewrite rw_bytes_app, IH by (intros q Hq; apply H; by right). rewrite app_nil_r. unfold rw_bytes. cbn.
  rewrite decide_False; [done|]. intros [Ho [= ->]]. cbn in H. specialize (H p ltac:(by left) Ho). lia.
Qed.

Lemma task_ok_mono kb wr acc (ans ans' : Prop) t : (ans -> ans') -> task_ok kb wr acc ans t -> task_ok kb wr acc ans' t.
Proof.
  intros Ha [H1 Hk H2 H3 H4]. split; [done|done| |auto|by case_match; auto].
  destruct (tk_phase t); try done. destruct H2 as [?|[? ?]]; auto.
Qed.

(** One task changes; what the others see does not. *)
Lemma stream_update s obs s' o i t' :
  stream_inv s obs -> tasks s' = <[i := t']> (tasks s) -> (i < length (tasks s))%nat ->
  (forall j, j <> i -> wrote j o = [] /\ accepted j o = []) ->
  (forall j u, j <> i -> tasks s !! j = Some u ->
     rw_bytes (task_key u) (rx_log s' (obs ++ o)) = rw_bytes (task_key u) (rx_log s obs)) ->
  task_ok (rw_bytes (task_key t') (rx_log s' (obs ++ o))) (wrote i (obs ++ o)) (accepted i (obs ++ o))
    (ObAnswered i ∈ obs ++ o) t' ->
  (forall pkt, pkt ∈ rx_log s' (obs ++ o) -> vh_op (pk_hdr pkt) = OpRw -> vh_src_port (pk_hdr pkt) < next_host_port s') ->
  (forall j, EffSignal j ∈ vcpu s' -> EffSignal j ∈ vcpu s \/ ObAnswered j ∈ o) ->
  stream_inv s' (obs ++ o).
Proof.
  intros [H1 H2 H3 H4] Ht Hi Ho Hrw Hok Hfr Hsg. split.
  - rewrite Ht. intros j u [(-> & <- & _)|[Hne Hu]]%list_lookup_insert_Some; [done|].
    destruct (Ho j) as [E1 E2]; [done|]. rewrite wrote_app, accepted_app, E1, E2, !app_nil_r, (Hrw j u) by done.
    eapply task_ok_mono; [|by apply H1]. intros ?. apply elem_of_app. by left.
  - rewrite Ht, length_insert. intros j Hj. destruct (Ho j) as [E1 E2]; [lia|].
    rewrite wrote_app, accepted_app, E1, E2, !app_nil_r. by apply H2.
  - done.
  - intros j [?|?]%Hsg; apply elem_of_app; auto.
Qed.

(** A silent step of one task. *)
Lemma stream_local s obs s' i t t' :
  stream_inv s obs -> tasks s !! i = Some t -> tasks s' = <[i := t']> (tasks s) -> rx_queue s' = rx_queue s ->
  next_host_port s' = next_host_port s -> (forall e, e ∈ vcpu s' -> e ∈ vcpu s) -> task_key t' = task_key t ->
  (forall kb wr acc (ans : Prop), (ObAnswered i ∈ obs -> ans) -> task_ok kb wr acc ans t -> task_ok kb wr acc ans t') ->
  stream_inv s' (obs ++ []).
Proof.
  intros HI Ht Hs Hq Hn Hv Hk Hok. assert (El : rx_log s' (obs ++ []) = rx_log s obs) by (unfold rx_log; by rewrite app_nil_r, Hq).
  eapply stream_update; try done.
  - by eapply lookup_lt_Some.
  - intros. by rewrite El.
  - rewrite El, Hk, app_nil_r. apply Hok; [done|]. by apply HI.
  - rewrite El, Hn. apply HI.
  - auto.
Qed.

(** A packet that carries no payload of a connection is queued by a task. *)
Lemma stream_push s obs s' i t t' pkt :
  stream_inv s obs -> tasks s !! i = Some t -> tasks s' = <[i := t']> (tasks s) -> rx_queue s' = rx_queue s ++ [pkt] ->
  next_host_port s' = next_host_port s -> (forall e, e ∈ vcpu s' -> e ∈ vcpu s) -> task_key t' = task_key t ->
  vh_op (pk_hdr pkt) <> OpRw ->
  (forall kb wr acc (ans : Prop), (ObAnswered i ∈ obs -> ans) -> task_ok kb wr acc ans t -> task_ok kb wr acc ans t') ->
  stream_inv s' (obs ++ []).
Proof.
  intros HI Ht Hs Hq Hn Hv Hk Hop Hok.
  assert (El : rx_log s' (obs ++ []) = rx_log s obs ++ [pkt]) by (unfold rx_log; by rewrite app_nil_r, Hq, app_assoc).
  assert (Er : forall k, rw_bytes k (rx_log s' (obs ++ [])) = rw_bytes k (rx_log s obs))
    by (intros k; by rewrite El, rw_bytes_app, (rw_bytes_other _ pkt), app_nil_r).
  eapply stream_update; try done.
  - by eapply lookup_lt_Some.
  - rewrite Er, Hk, app_nil_r. apply Hok; [done|]. by apply HI.
  - rewrite El, Hn. intros p [?|Hp]%elem_of_app; [by apply HI|]. by apply list_elem_of_singleton in Hp as ->.
  - auto.
Qed.

(** The pure part of a task's move: what was read stays read. *)
Ltac task_move :=
  intros kb wr acc ans Ha [(line0 & lost & Hw & Hl & Hi & Hpre) Hkb Hout Hsig Hans];
  repeat match goal with H : tk_phase _ = _ |- _ => rewrite H in * end; cbn in *;
  split; cbn in *; try done;
  try (exists line0, lost; split_and!; [done|done|first [exact Hi|by intros ? [=]]|first [exact Hpre|by intros ? [=]]]).

Lemma preamble_in kb wr acc ans t line b rest ph :
  tk_phase t = Preamble line -> tk_in t = b :: rest -> task_ok kb wr acc ans t ->
  (ph = Connect \/ ph = Failed \/ ph = Preamble (line ++ [b]) /\ (length (line ++ [b]) <= 64)%nat) ->
  task_ok kb wr acc ans (set_in t ph rest).
Proof.
  intros Hp Hin [(line0 & lost & Hw & Hl & Hi & Hpre) Hkb Hout Hsig Hans] Hph. rewrite Hp in *. cbn in *.
  destruct (Hpre _ eq_refl) as (-> & Hlen). subst kb. specialize (Hi _ eq_refl) as ->.
  rewrite Hin in Hw. split; cbn; [|by destruct Hph as [->|[->|[-> _]]]|destruct Hph as [->|[->|[-> _]]]; [done|left; destruct Hout as (-> & _); apply prefix_nil|done]|done|
    by destruct Hph as [->|[->|[-> _]]]].
  exists (line ++ [b]), []. rewrite <- app_assoc. split_and!; [done|rewrite length_app; cbn; lia| |].
  - destruct Hph as [->|[->|[-> _]]]; by intros ? [= <-].
  - destruct Hph as [->|[->|[-> ?]]]; by intros ? [= <-].
Qed.

Lemma rw_bytes_none pkts : rw_bytes None pkts = [].
Proof. induction pkts as [|p pkts IH]; [done|]. cbn. rewrite decide_False by (by intros [? [=]]). exact IH. Qed.

Lemma stream_alloc s obs i t :
  few s -> table_inv s -> stream_inv s obs -> tasks s !! i = Some t -> tk_phase t = Connect ->
  stream_inv (set_task (allocate_host_port s).1 i
    (mkTask (tk_guest_port t) (Some (next_host_port s)) Insert [] false nf_new (tk_in t) (tk_eof t) (tk_out t))) (obs ++ []).
Proof.
  intros Hf HT HI Ht Hp. set (s' := set_task _ _ _).
  assert (El : rx_log s' (obs ++ []) = rx_log s obs) by (unfold rx_log; by rewrite app_nil_r).
  assert (Hn : next_host_port s' = next_host_port s + 1).
  { pose proof (ti_next _ (table_alloc s i t Hf HT Ht Hp)) as Hn. fold s' in Hn. rewrite Hn, (ti_next _ HT).
    pose proof (ti_phase _ HT _ _ Ht) as Hpo. unfold port_ok in Hpo. rewrite Hp in Hpo. unfold zlen, s'. cbn.
    match goal with |- context [<[i := ?t']> _] => pose proof (omap_set i t t' _ Ht) as E end. rewrite Hpo in E. cbn in E. lia. }
  eapply stream_update; try done.
  - by eapply lookup_lt_Some.
  - intros. by rewrite El.
  - unfold task_key. cbn [tk_host_port tk_guest_port mbind option_bind].
    rewrite El, rw_bytes_fresh by (cbn; apply (si_fresh _ _ HI)). rewrite app_nil_r.
    destruct (si_task _ _ HI _ _ Ht) as [(line & lost & Hw & Hl & Hi & _) Hkb Hout _ _]. rewrite Hp in Hi, Hout.
    pose proof (ti_phase _ HT _ _ Ht) as Hpo. unfold port_ok in Hpo. rewrite Hp in Hpo.
    unfold task_key in Hw. rewrite Hpo in Hw. cbn in Hw. rewrite rw_bytes_none in Hw. destruct Hout as (Ho & Hc & Ha).
    split; cbn; [|done|by rewrite Ho, Ha|done|done]. by exists line, lost.
  - rewrite El, Hn. intros pkt Hin Hop. pose proof (si_fresh _ _ HI pkt Hin Hop). lia.
  - auto.
Qed.

Lemma stream_main s obs i t o s' :
  few s -> table_inv s -> stream_inv s obs -> tasks s !! i = Some t -> main_step s i t o = Some s' -> stream_inv s' (obs ++ []).
Proof.
  intros Hf HT HI Ht H. task_cases H; simplify_eq.
  - eapply stream_local; try done. task_move. left. destruct Hout as (-> & _). apply prefix_nil.
  - eapply stream_local; try done. task_move. left. destruct Hout as (-> & _). apply prefix_nil.
  - eapply stream_local; try done. intros kb wr acc ans _ Hok. eapply preamble_in; eauto.
  - eapply stream_local; try done. intros kb wr acc ans _ Hok. eapply preamble_in; eauto.
  - eapply stream_local; try done. intros kb wr acc ans _ Hok. eapply preamble_in; eauto.
    right; right. split; [done|]. by apply Nat.ltb_ge.
  - by apply (stream_alloc s).
  - eapply stream_local; try done. task_move.
  - eapply stream_push; try done. task_move.
  - eapply stream_local; try done. task_move. auto.
  - eapply stream_local; try done. task_move. by destruct Hout as (-> & _).
  - eapply stream_local; try done. task_move. by destruct Hout as (-> & _).
  - eapply stream_local; try done. task_move. by rewrite Hout.
  - eapply stream_local; try done. task_move. rewrite Hout. apply prefix_take.
  - eapply stream_local; try done. task_move. by left.
  - eapply stream_local; try done. task_move. destruct Hout as (-> & <-). eauto.
  - eapply stream_local; try done. task_move. destruct Hout as (-> & <-). right. split; [done|]. eexists. split; [done|]. apply prefix_take.
Qed.

Lemma stream_rw s obs i t w payload buf_alloc fwd_cnt k :
  table_inv s -> stream_inv s obs -> tasks s !! i = Some t -> task_key t = Some k ->
  tk_phase t = Streaming (RPush payload buf_alloc fwd_cnt) w ->
  stream_inv (set_task (push_rx s (rw_packet s k payload buf_alloc fwd_cnt)) i (set_phase t (Streaming RTop w))) (obs ++ []).
Proof.
  intros HT HI Ht Hk Hp. set (s' := set_task _ _ _). set (pkt := rw_packet s k payload buf_alloc fwd_cnt).
  assert (El : rx_log s' (obs ++ []) = rx_log s obs ++ [pkt]) by (unfold rx_log, s'; cbn [rx_queue set_task set_tasks push_rx set_rx]; by rewrite app_nil_r, app_assoc).
  pose proof Hk as Hk'. unfold task_key in Hk'. apply bind_Some in Hk' as (hp & Hhp & [= Ek]).
  eapply stream_update; try done.
  - by eapply lookup_lt_Some.
  - intros j u Hne Hu. rewrite El, rw_bytes_app. unfold rw_bytes at 2. cbn.
    rewrite decide_False; [by rewrite !app_nil_r|]. intros [_ Hku]. rewrite <- Ek in Hku. cbn in Hku.
    unfold task_key in Hku. apply bind_Some in Hku as (hp' & Hhp' & [= -> _]).
    by destruct (Hne (ti_ports _ HT _ _ _ _ _ Hu Ht Hhp' Hhp)).
  - rewrite app_nil_r. destruct (si_task _ _ HI _ _ Ht) as [(line & lost & Hw & Hl & Hi & _) Hkb Hout Hsg Ha].
    rewrite Hp in Hi, Hout, Ha. specialize (Hi _ eq_refl) as ->.
    split; cbn; [|done|done|done|done]. exists line, []. split_and!; [|done|by intros ? [= <-]|by intros ? [=]].
    rewrite Hw. f_equal. rewrite app_nil_r in El. rewrite El, rw_bytes_app, <- app_assoc. f_equal. cbn. f_equal.
    unfold rw_bytes. cbn. rewrite decide_True; [by rewrite app_nil_r|]. split; [done|].
    by rewrite Hhp, <- Ek.
  - rewrite El. intros p [?|Hp']%elem_of_app; [by apply HI|]. apply list_elem_of_singleton in Hp' as ->. intros _. cbn.
    rewrite <- Ek. cbn. by destruct (ti_range _ HT _ _ _ Ht Hhp).
  - auto.
Qed.

Lemma stream_reader s obs i t r w o s' :
  table_inv s -> stream_inv s obs -> tasks s !! i = Some t -> tk_phase t = Streaming r w ->
  reader_step s i t r w o = Some s' -> stream_inv s' (obs ++ []).
Proof.
  intros HT HI Ht Hp H. task_cases H; simplify_eq.
  all: try (by (eapply stream_local; try done; task_move)).
  - eapply stream_local; try done. intros kb wr acc ans _ [(line & lost & Hw & Hl & Hi & Hpre) Hkb Hout Hsig Hans].
    rewrite Hp in *. specialize (Hi _ eq_refl) as ->. split; cbn; [|done|done|done|done].
    exists line. eexists. split_and!; [|done|by intros ? [= <-]|by intros ? [=]]. rewrite Hw. cbn. by rewrite take_drop.
  - by eapply stream_rw.
  - eapply stream_push; try done. task_move.
Qed.

Lemma stream_writer s obs i t r w o s' :
  stream_inv s obs -> tasks s !! i = Some t -> tk_phase t = Streaming r w ->
  writer_step s i t r w o = Some s' -> stream_inv s' (obs ++ []).
Proof.
  intros HI Ht Hp H. task_cases H; simplify_eq; (eapply stream_local; try done); task_move;
    destruct Hout as (hp & Hhp & Ho); exists hp; (split; [done|]); rewrite <- ?Ho;
    match goal with E : tk_chan t = _ |- _ => rewrite E; cbn end.
  - by rewrite app_nil_r.
  - by rewrite <- app_assoc.
  - apply prefix_app, prefix_app_r, prefix_take.
Qed.

(** Case analysis on the pending effects. *)
Ltac in_effects :=
  let j := fresh in intros j; rewrite ?elem_of_app, ?elem_of_cons, ?elem_of_nil; intros;
  repeat match goal with H : _ \/ _ |- _ => destruct H end; simplify_eq; try done.

(** What the guest's packet does to a task whose channel takes the payload. *)
Lemma accept_in kb wr acc (ans : Prop) t payload :
  receiver_alive t = true -> (forall l, tk_phase t <> Preamble l) -> tk_phase t <> Connect ->
  task_ok kb wr acc ans t -> task_ok kb wr (acc ++ payload) ans (set_chan t (tk_chan t ++ [payload])).
Proof.
  intros Hr Hp1 Hp2 [H1 Hk H2 H3 H4]. split; cbn; try done. unfold receiver_alive in Hr.
  destruct (tk_phase t) as [l| | | | | | | |r [| |]|] eqn:Hp; try done; try (by destruct (Hp1 l)).
  1-4: destruct H2 as [-> <-]; rewrite concat_app; cbn; by rewrite app_nil_r.
  - destruct H2 as (hp & Hhp & Ho). exists hp. split; [done|]. rewrite concat_app. cbn.
    by rewrite app_nil_r, !app_assoc, Ho.
  - destruct H2 as (hp & Hhp & Ho). exists hp. split; [done|]. rewrite app_assoc. by apply prefix_app_r.
Qed.

(** Nothing a task depends on changes, or the guest's answer is recorded. *)
Lemma stream_silent s obs s' o :
  stream_inv s obs -> tasks s' = tasks s -> next_host_port s' = next_host_port s ->
  (forall j, wrote j o = [] /\ accepted j o = []) ->
  (forall k, rw_bytes k (rx_log s' (obs ++ o)) = rw_bytes k (rx_log s obs)) ->
  (forall pkt, pkt ∈ rx_log s' (obs ++ o) -> pkt ∈ rx_log s obs \/ vh_op (pk_hdr pkt) <> OpRw) ->
  (forall j, EffSignal j ∈ vcpu s' -> EffSignal j ∈ vcpu s \/ ObAnswered j ∈ o) ->
  stream_inv s' (obs ++ o).
Proof.
  intros [H1 H2 H3 H4] Ht Hn Ho Hrw Hin Hsg. split.
  - rewrite Ht. intros j u Hu. destruct (Ho j) as [E1 E2].
    rewrite wrote_app, accepted_app, E1, E2, !app_nil_r, Hrw.
    eapply task_ok_mono; [|by apply H1]. intros ?. apply elem_of_app. by left.
  - rewrite Ht. intros j Hj. destruct (Ho j) as [E1 E2]. rewrite wrote_app, accepted_app, E1, E2, !app_nil_r. by apply H2.
  - rewrite Hn. intros pkt [?|?]%Hin; auto. done.
  - intros j [?|?]%Hsg; apply elem_of_app; auto.
Qed.

Lemma stream_guest s obs pkt :
  table_inv s -> stream_inv s obs -> vcpu s = [] ->
  stream_inv (handle_tx_locked s pkt).1 (obs ++ observe s (EvGuestTx pkt)).
Proof.
  intros HT HI Hv.
  assert (Hsil : forall s' o, tasks s' = tasks s -> next_host_port s' = next_host_port s -> rx_queue s' = rx_queue s ->
    (o = [] \/ exists i, o = [ObAnswered i]) -> (forall j, EffSignal j ∈ vcpu s' -> ObAnswered j ∈ o) -> stream_inv s' (obs ++ o)).
  { intros s' o Hs Hn Hq Ho Hsg.
    assert (El : rx_log s' (obs ++ o) = rx_log s obs).
    { unfold rx_log. rewrite map_app, concat_app, Hq. destruct Ho as [-> | [i ->]]; cbn; by rewrite app_nil_r. }
    eapply stream_silent; try done; rewrite ?El; auto. intros j. by destruct Ho as [-> | [i ->]]. }
  unfold handle_tx_locked, observe, open_conn.
  destruct (connections s !! packet_key (pk_hdr pkt)) as [c|] eqn:Hc; cbn [mbind option_bind];
    destruct (vh_op (pk_hdr pkt)) eqn:Hop;
    try (apply Hsil; cbn; rewrite ?Hv; auto; by intros j ?%elem_of_nil).
  - apply Hsil; cbn; auto; destruct (response_signal c); eauto; in_effects; by left.
  - destruct (closed c) eqn:Hcl; [apply Hsil; cbn; rewrite ?Hv; auto; by intros j ?%elem_of_nil|].
    destruct (ti_conn _ HT _ _ Hc) as (_ & _ & t & Ht & Hk & _). unfold send. rewrite Ht.
    destruct (receiver_alive t) eqn:Hr; [|apply Hsil; cbn; auto; in_effects]. cbn [snd fst].
    pose proof (ti_phase _ HT _ _ Ht) as Hp. unfold task_key in Hk. apply bind_Some in Hk as (hp & Hhp & _).
    unfold port_ok in Hp. set (s' := set_vcpu _ _).
    assert (El : rx_log s' (obs ++ [ObAccepted (guest_to_host_tx c) (pk_payload pkt)]) = rx_log s obs).
    { unfold rx_log. rewrite map_app, concat_app. cbn. by rewrite app_nil_r. }
    eapply stream_update; rewrite ?El; try done.
    + by eapply lookup_lt_Some.
    + intros j Hj. unfold wrote, accepted. cbn. by rewrite decide_False.
    + rewrite wrote_app, accepted_app, app_nil_r. unfold accepted at 2. cbn. rewrite decide_True, app_nil_r by done.
      apply accept_in; [done| |by intros E; rewrite E in Hp; congruence|].
      * intros l E. rewrite E in Hp. congruence.
      * eapply task_ok_mono; [|by apply HI]. intros ?. apply elem_of_app. by left.
    + apply HI.
    + cbn. in_effects.
  - apply Hsil; cbn; auto. case_decide; in_effects.
  - apply Hsil; cbn; auto. case_decide; in_effects.
Qed.

Lemma stream_accept s obs port :
  stream_inv s obs ->
  stream_inv (set_tasks s (tasks s ++ [mkTask port None (Preamble []) [] false nf_new [] false []])) (obs ++ []).
Proof.
  intros [H1 H2 H3 H4]. rewrite app_nil_r. split; try done; cbn.
  - intros i t [?|[Hi [Hn <-]%list_lookup_singleton_Some]]%lookup_app_Some; [by apply H1|].
    destruct (H2 i Hi) as [-> ->]. cbn. rewrite rw_bytes_none. split; cbn; try done.
    exists [], []. split_and!; try done; [cbn; lia|by intros ? [= <-]|intros ? [= <-]; split_and!; [done..|cbn; lia]].
  - intros i Hi. apply H2. rewrite length_app in Hi. lia.
Qed.

Lemma stream_wrote s obs i t bs :
  stream_inv s obs -> tasks s !! i = Some t ->
  stream_inv (set_task s i (set_in t (tk_phase t) (tk_in t ++ bs))) (obs ++ [ObWrote i bs]).
Proof.
  intros HI Ht. set (s' := set_task _ _ _).
  assert (El : rx_log s' (obs ++ [ObWrote i bs]) = rx_log s obs).
  { unfold rx_log. rewrite map_app, concat_app. cbn. by rewrite app_nil_r. }
  eapply stream_update; rewrite ?El; try done; [by eapply lookup_lt_Some| | |apply HI|auto].
  - intros j Hj. unfold wrote, accepted. cbn. by rewrite decide_False.
  - rewrite wrote_app, accepted_app, app_nil_r. unfold wrote at 2. cbn. rewrite decide_True, app_nil_r by done.
    change (task_key (set_in t (tk_phase t) (tk_in t ++ bs))) with (task_key t).
    eapply task_ok_mono; [intros Hin; apply elem_of_app; left; exact Hin|].
    destruct (si_task _ _ HI _ _ Ht) as [(line & lost & Hw & Hl & Hi & Hpre) Hkb Hout Hsg Ha].
    split; cbn; try done. exists line, lost. split_and!; try done. by rewrite Hw, !app_assoc.
Qed.

Lemma stream_effect s obs e es :
  table_inv s -> stream_inv s obs -> vcpu s = e :: es -> stream_inv (run_effect (set_vcpu s es) e) (obs ++ []).
Proof.
  intros HT HI Hv. assert (Hes : forall e', e' ∈ es -> e' ∈ vcpu s) by (rewrite Hv; intros; by right).
  destruct e as [i|i|p]; cbn [run_effect].
  - destruct (tasks _ !! i) as [t|] eqn:Ht; cbn in Ht.
    + eapply stream_local; try done. task_move. intros _. apply Ha, (si_signal _ _ HI). rewrite Hv. by left.
    + eapply stream_silent; try done; cbn; rewrite ?app_nil_r; auto.
  - destruct (tasks _ !! i) as [t|] eqn:Ht; cbn in Ht.
    + eapply stream_local; try done. task_move.
    + eapply stream_silent; try done; cbn; rewrite ?app_nil_r; auto.
  - assert (Hop : vh_op (pk_hdr p) <> OpRw) by (apply (ti_push _ HT); rewrite Hv; by left).
    set (s' := push_rx _ _). assert (El : rx_log s' (obs ++ []) = rx_log s obs ++ [p]).
    { unfold rx_log, s'. cbn. by rewrite app_nil_r, app_assoc. }
    eapply stream_silent; try done; rewrite ?El; auto.
    + intros k. by rewrite rw_bytes_app, (rw_bytes_other k p), app_nil_r.
    + intros q [?|Hq]%elem_of_app; [by left|right]. by apply list_elem_of_singleton in Hq as ->.
Qed.

Lemma stream_step s obs e s' :
  few s -> table_inv s -> stream_inv s obs -> step s e = Some s' -> stream_inv s' (obs ++ observe s e).
Proof.
  intros Hf HT HI H. destruct e as [port|port|i bs|i|i o|i o|i o|pkt| | |]; cbn [step] in H.
  - case_decide; simplify_eq. by apply stream_accept.
  - simplify_eq. eapply stream_silent; try done; cbn; rewrite ?app_nil_r; auto.
  - apply bind_Some in H as (t & Ht & H). case_match; simplify_eq. by apply stream_wrote.
  - apply bind_Some in H as (t & Ht & H). simplify_eq. eapply stream_local; try done. task_move.
  - apply bind_Some in H as (t & Ht & H). by eapply stream_main.
  - apply bind_Some in H as (t & Ht & H). case_match; try done. by eapply stream_reader.
  - apply bind_Some in H as (t & Ht & H). case_match; try done. by eapply stream_writer.
  - case_match; simplify_eq. by apply stream_guest.
  - destruct (vcpu s) as [|e es] eqn:Hv; simplify_eq. by apply stream_effect.
  - case_match; simplify_eq. assert (El : rx_log (drain_rx s).1 (obs ++ [ObDrained (rx_queue s)]) = rx_log s obs).
    { unfold rx_log. rewrite map_app, concat_app. cbn. by rewrite !app_nil_r. }
    eapply stream_silent; try done; cbn [observe]; rewrite ?El; auto.
  - case_match; simplify_eq. eapply stream_silent; try done; cbn; rewrite ?app_nil_r; auto.
Qed.

Lemma reach_stream s obs : reach s obs -> few s -> stream_inv s obs.
Proof.
  induction 1 as [cid ports bind s H|s obs e s' Hr IH H]; intros Hf.
  - unfold spawn in H. case_match; simplify_eq. split; cbn; [done|done|by intros p ?%elem_of_nil|by intros i ?%elem_of_nil].
  - eapply stream_step; eauto using step_few, reach_table.
Qed.


(** *** Wake-ups *)

Context `{!NotifyLaws N T}.

(** A reader that waits will be woken, or is right to wait, or its connection
    is gone. *)
Definition wait_ok s (i : nat) t : Prop :=
  match tk_phase t with
  | Streaming (RCheck k) _ => nf_issued (tk_notify t) k
  | Streaming (RWait k) _ =>
      nf_issued (tk_notify t) k /\
      (nf_ready (tk_notify t) k = true \/ EffNotify i ∈ vcpu s \/
       forall key c, task_key t = Some key -> connections s !! key = Some c -> closed c = false /\ credit_bytes c = 0)
  | _ => True
  end.

Definition wake_inv s : Prop := forall i t, tasks s !! i = Some t -> wait_ok s i t.

Lemma wait_mono s s' i t :
  (forall key c, task_key t = Some key -> connections s' !! key = Some c -> connections s !! key = Some c \/ EffNotify i ∈ vcpu s') ->
  (EffNotify i ∈ vcpu s -> EffNotify i ∈ vcpu s') -> wait_ok s i t -> wait_ok s' i t.
Proof.
  intros Hc Hv. unfold wait_ok. destruct (tk_phase t) as [l| | | | | | | |[]|]; try done.
  intros [Hi [?|[?|Hw]]]; (split; [done|]); auto. destruct (task_key t) as [key|]; [|by right; right].
  destruct (connections s' !! key) as [c|] eqn:E; [destruct (Hc key c eq_refl E)|]; auto; right; right;
    intros ? c' [= <-] ?; simplify_eq; eauto.
Qed.

(** Two tasks never share a key. *)
Lemma keys_apart s i j t u k : table_inv s -> tasks s !! i = Some t -> tasks s !! j = Some u ->
  task_key t = Some k -> task_key u = Some k -> i = j.
Proof.
  intros HT Ht Hu Hk Hl. unfold task_key in *. apply bind_Some in Hk as (hp & Hhp & [= <-]).
  apply bind_Some in Hl as (hp' & Hhp' & [= -> _]). by eapply ti_ports.
Qed.

(** Task [i] moves and touches the table only under its own key. *)
Lemma wake_local s s' i t t' :
  table_inv s -> wake_inv s -> tasks s !! i = Some t -> tasks s' = <[i := t']> (tasks s) -> vcpu s' = vcpu s ->
  (forall k c, task_key t <> Some k -> connections s' !! k = Some c -> connections s !! k = Some c) ->
  wait_ok s' i t' -> wake_inv s'.
Proof.
  intros HT HI Ht Hs Hv Hc Hok j u. rewrite Hs.
  intros [(-> & <- & _)|[Hne Hu]]%list_lookup_insert_Some; [done|].
  apply (wait_mono s); [|by rewrite Hv|by apply HI].
  intros k c Hk Hkc. left. apply Hc; [|done]. intros Hk'. by destruct (Hne (keys_apart _ _ _ _ _ _ HT Ht Hu Hk' Hk)).
Qed.

Lemma wake_main s i t o s' :
  few s -> table_inv s -> wake_inv s -> tasks s !! i = Some t -> main_step s i t o = Some s' -> wake_inv s'.
Proof.
  intros Hf HT HI Ht H.
  task_cases H; simplify_eq; (eapply wake_local; [exact HT|exact HI|exact Ht|reflexivity|reflexivity| |]);
    try (unfold wait_ok; cbn; by repeat case_match); try done; cbn.
  - intros k c Hne Hk. rewrite lookup_insert_ne in Hk by congruence. done.
  - intros k c Hne Hk. by apply lookup_delete_Some in Hk as [_ ?].
Qed.

Lemma wake_reader s i t r w o s' :
  table_inv s -> wake_inv s -> tasks s !! i = Some t -> tk_phase t = Streaming r w ->
  reader_step s i t r w o = Some s' -> wake_inv s'.
Proof.
  intros HT HI Ht Hp H.
  task_cases H; simplify_eq; (eapply wake_local; [exact HT|exact HI|exact Ht|reflexivity|reflexivity| |]);
    try done; cbn.
  all: try (intros k c' Hne Hk; by apply lookup_delete_Some in Hk as [_ ?]).
  all: try (intros k c' Hne Hk; rewrite lookup_insert_ne in Hk by congruence; done).
  - apply nf_issued_new.
  - split; [|right; right].
    + specialize (HI _ _ Ht). unfold wait_ok in HI. by rewrite Hp in HI.
    + intros key c' Hk Hc. change (task_key t = Some key) in Hk.
      match goal with H : open_conn _ _ = Some _ |- _ => apply open_conn_Some in H as [? ?] end. simplify_eq.
      split; [done|]. bool_to_prop. unfold credit_bytes, saturating_sub in *. lia.
Qed.

Lemma wake_writer s i t r w o s' :
  table_inv s -> wake_inv s -> tasks s !! i = Some t -> tk_phase t = Streaming r w ->
  writer_step s i t r w o = Some s' -> wake_inv s'.
Proof.
  intros HT HI Ht Hp H. assert (Hw : wait_ok s i t) by (by apply HI).
  task_cases H; simplify_eq; (eapply wake_local; [exact HT|exact HI|exact Ht|reflexivity|reflexivity|done|]);
    unfold wait_ok in *; rewrite Hp in Hw; cbn; by destruct r.
Qed.

Lemma wake_guest s pkt : table_inv s -> wake_inv s -> vcpu s = [] -> wake_inv (handle_tx_locked s pkt).1.
Proof.
  intros HT HI Hv. set (k := packet_key (pk_hdr pkt)).
  assert (Hchange : forall s' c c', connections s !! k = Some c -> connections s' = <[k := c']> (connections s) ->
    EffNotify (credit_notify c) ∈ vcpu s' ->
    (forall i u, tasks s' !! i = Some u -> exists u0, tasks s !! i = Some u0 /\ task_key u = task_key u0 /\
       tk_phase u = tk_phase u0 /\ tk_notify u = tk_notify u0) -> wake_inv s').
  { intros s' c c' Hc Hcs Hin Hts i u Hu. destruct (Hts i u Hu) as (u0 & Hu0 & Ek & Ep & En).
    destruct (ti_conn _ HT _ _ Hc) as (Hn & _ & t & Ht & Hk & _).
    apply (wait_mono s).
    - rewrite Hcs. intros key c0 Hkey [[<- <-]|[_ ?]]%lookup_insert_Some; [right|by left].
      rewrite Ek in Hkey. by rewrite <- (keys_apart _ _ _ _ _ _ HT Ht Hu0 Hk Hkey), <- Hn.
    - rewrite Hv. by intros ?%elem_of_nil.
    - specialize (HI _ _ Hu0). unfold wait_ok in *. by rewrite Ep, En, Ek. }
  unfold handle_tx_locked. fold k. destruct (vh_op (pk_hdr pkt)); try done.
  - destruct (connections s !! k) as [c|] eqn:Hc; [|done]. eapply Hchange; eauto. cbn. rewrite ?elem_of_app, ?elem_of_cons. auto.
  - intros i u Hu. eapply (wait_mono s); [|cbn; auto|by apply HI]. cbn. intros key c _ [_ ?]%lookup_delete_Some. by left.
  - intros i u Hu. eapply (wait_mono s); [|cbn; auto|by apply HI]. cbn. intros key c _ [_ ?]%lookup_delete_Some. by left.
  - destruct (connections s !! k) as [c|] eqn:Hc; [|done]. destruct (closed c); [done|].
    unfold send. destruct (tasks s !! guest_to_host_tx c) as [t|] eqn:Ht; [destruct (receiver_alive t)|];
      (eapply Hchange; [done|reflexivity|cbn; rewrite !elem_of_cons; auto|cbn; eauto]).
    intros i u [(<- & <- & _)|[? ?]]%list_lookup_insert_Some; eauto.
  - destruct (connections s !! k) as [c|] eqn:Hc; [|done]. eapply Hchange; eauto. cbn. rewrite ?elem_of_app, ?elem_of_cons. auto.
  - destruct (connections s !! k) as [c|] eqn:Hc; [|done]. eapply Hchange; eauto. cbn. rewrite ?elem_of_app, ?elem_of_cons. auto.
Qed.

Lemma wake_effect s e es : wake_inv s -> vcpu s = e :: es -> wake_inv (run_effect (set_vcpu s es) e).
Proof.
  intros HI Hv.
  assert (Hother : forall s' i u, connections s' = connections s -> vcpu s' = es -> e <> EffNotify i -> wait_ok s i u -> wait_ok s' i u).
  { intros s' i u Hc Hes Hne. apply wait_mono; rewrite ?Hc, ?Hes, ?Hv; [auto|]. by intros [<-|?]%elem_of_cons. }
  destruct e as [i|i|p]; cbn [run_effect].
  - destruct (tasks _ !! i) as [t|] eqn:Ht; cbn in Ht; intros j u Hu; [|eapply Hother; try done; by apply HI].
    cbn in Hu. apply list_lookup_insert_Some in Hu as [(-> & <- & _)|[? ?]]; eapply Hother; try done; [|by apply HI].
    exact (HI _ _ Ht).
  - destruct (tasks _ !! i) as [t|] eqn:Ht; cbn in Ht; intros j u Hu.
    + cbn in Hu. apply list_lookup_insert_Some in Hu as [(-> & <- & _)|[? ?]].
      * specialize (HI _ _ Ht). unfold wait_ok in *. cbn. destruct (tk_phase t) as [l| | | | | | | |[]|]; try done.
        -- by apply nf_issued_later.
        -- destruct HI as [? _]. split; [by apply nf_issued_later|]. left. by apply nf_wakes.
      * eapply Hother; try done; [congruence|by apply HI].
    + eapply Hother; try done; [intros [= ->]; cbn in Hu; congruence|by apply HI].
  - intros j u Hu. eapply Hother; try done. by apply HI.
Qed.

Lemma wake_step s e s' : few s -> table_inv s -> wake_inv s -> step s e = Some s' -> wake_inv s'.
Proof.
  intros Hf HT HI H. destruct e as [port|port|i bs|i|i o|i o|i o|pkt| | |]; cbn [step] in H.
  - case_decide; simplify_eq. intros i t [Ht|[_ [_ <-]%list_lookup_singleton_Some]]%lookup_app_Some; [|done]. exact (HI _ _ Ht).
  - simplify_eq. exact HI.
  - apply bind_Some in H as (t & Ht & H). case_match; simplify_eq.
    eapply wake_local; [exact HT|exact HI|exact Ht|reflexivity|reflexivity|done|]. exact (HI _ _ Ht).
  - apply bind_Some in H as (t & Ht & H). simplify_eq.
    eapply wake_local; [exact HT|exact HI|exact Ht|reflexivity|reflexivity|done|]. exact (HI _ _ Ht).
  - apply bind_Some in H as (t & Ht & H). by eapply wake_main.
  - apply bind_Some in H as (t & Ht & H). case_match; try done. by eapply wake_reader.
  - apply bind_Some in H as (t & Ht & H). case_match; try done. by eapply wake_writer.
  - case_match; simplify_eq. by apply wake_guest.
  - destruct (vcpu s) as [|e es] eqn:Hv; simplify_eq. by apply wake_effect.
  - case_match; simplify_eq. exact HI.
  - case_match; simplify_eq. exact HI.
Qed.

Lemma reach_wake s obs : reach s obs -> few s -> wake_inv s.
Proof.
  induction 1 as [cid ports bind s H|s obs e s' Hr IH H]; intros Hf.
  - unfold spawn in H. by case_match; simplify_eq.
  - pose proof (step_few _ _ _ Hf H) as Hf'. eapply wake_step; eauto using reach_table.
Qed.

(** C38: no credit wake-up is lost.  Whenever the vCPU thread has finished its
    calls, a reader waiting for credit can go on, or its connection is open and
    the guest has granted nothing, or the connection was removed. *)
Theorem no_lost_wakeup s obs i t k w key :
  reach s obs -> few s -> vcpu s = [] -> tasks s !! i = Some t -> tk_phase t = Streaming (RWait k) w ->
  task_key t = Some key ->
  is_Some (step s (EvReader i Done)) \/ connections s !! key = None \/
  exists c, open_conn s key = Some c /\ credit_bytes c = 0.
Proof.
  intros Hr Hf Hv Ht Hp Hk. pose proof (reach_wake _ _ Hr Hf _ _ Ht) as Hw. unfold wait_ok in Hw. rewrite Hp, Hv in Hw.
  cbn. rewrite Ht. cbn. rewrite Hp. unfold reader_step. rewrite Hk. cbn.
  destruct Hw as [_ [->|[?%elem_of_nil|Hw]]]; [by left|done|right].
  destruct (connections s !! key) as [c|] eqn:Hc; [right|by left]. destruct (Hw key c Hk Hc).
  exists c. by rewrite open_conn_Some.
Qed.

(** *** A reader whose connection was removed while it waited *)

Definition abandoned s (i : nat) (k : T) : Prop :=
  exists t w key, tasks s !! i = Some t /\ tk_phase t = Streaming (RWait k) w /\ task_key t = Some key /\
    nf_ready (tk_notify t) k = false /\ connections s !! key = None /\ EffNotify i ∉ vcpu s.

(** Task [i] keeps waiting when another task moves. *)
Lemma abandoned_other s s' i j k u u' :
  table_inv s -> abandoned s i k -> i <> j -> tasks s !! j = Some u -> tasks s' = <[j := u']> (tasks s) -> vcpu s' = vcpu s ->
  (forall key, task_key u <> Some key -> connections s !! key = None -> connections s' !! key = None) -> abandoned s' i k.
Proof.
  intros HT (t & w & key & Ht & Hp & Hk & Hn & Hc & Hv) Hne Hu Hs Hv' Hcs. exists t, w, key.
  rewrite Hs, Hv', list_lookup_insert_ne by done. split_and!; try done. apply Hcs; [|done].
  intros Hk'. by destruct (Hne (keys_apart _ _ _ _ _ _ HT Ht Hu Hk Hk')).
Qed.

Lemma abandoned_guest s pkt i k :
  table_inv s -> vcpu s = [] -> abandoned s i k -> abandoned (handle_tx_locked s pkt).1 i k.
Proof.
  intros HT Hv (t & w & key & Ht & Hp & Hk & Hn & Hc & Hnv). unfold handle_tx_locked.
  set (pk := packet_key (pk_hdr pkt)).
  assert (Hother : forall s' c c', connections s !! pk = Some c -> connections s' = <[pk := c']> (connections s) ->
    (forall n, EffNotify n ∈ vcpu s' -> n = credit_notify c) ->
    (exists t', tasks s' !! i = Some t' /\ tk_phase t' = tk_phase t /\ task_key t' = task_key t /\ tk_notify t' = tk_notify t) ->
    abandoned s' i k).
  { intros s' c c' Hpk Hs Heff (t' & Ht' & E1 & E2 & E3). exists t', w, key. rewrite E1, E2, E3, Hs.
    split_and!; try done; [rewrite lookup_insert_ne; [done|congruence]|].
    intros ->%Heff. destruct (ti_conn _ HT _ _ Hpk) as (En & _ & u & Hu & Hku & _). rewrite <- En in Hu.
    rewrite Ht in Hu. simplify_eq. }
  assert (Hsame : forall cs, cs !! key = None -> abandoned (set_conns s cs) i k) by (intros; by exists t, w, key).
  assert (Hself : abandoned s i k) by (by exists t, w, key).
  destruct (vh_op (pk_hdr pkt)); try done.
  - destruct (connections s !! pk) as [c|] eqn:E; [|done]. eapply Hother; eauto. cbn.
    intros n. rewrite elem_of_app, elem_of_cons. intros [Hin|[[= ->]|?%elem_of_nil]]; [|done|done].
    destruct (response_signal c); [apply elem_of_cons in Hin as [?|Hin]; [done|]|]; by apply elem_of_nil in Hin.
  - apply Hsame. by rewrite lookup_delete_None; right.
  - apply Hsame. by rewrite lookup_delete_None; right.
  - destruct (connections s !! pk) as [c|] eqn:E; [|done]. destruct (closed c); [done|].
    unfold send. destruct (tasks s !! guest_to_host_tx c) as [u|] eqn:Hu; [destruct (receiver_alive u)|];
      (eapply Hother; [done|reflexivity| |cbn; eauto]).
    2: destruct (ti_conn _ HT _ _ E) as (_ & _ & u' & Hu' & Hku & _); rewrite list_lookup_insert_ne; [by exists t|];
       intros Ei; rewrite Ei in Hu'; simplify_eq.
    all: intros n; cbn; rewrite !elem_of_cons, elem_of_nil; by intros [?|[[= ->]|?]].
  - destruct (connections s !! pk) as [c|] eqn:E; [|done]. eapply Hother; eauto. cbn.
    intros n. case_decide; [done|]. cbn. rewrite elem_of_cons, elem_of_nil. by intros [[= ->]|?].
  - destruct (connections s !! pk) as [c|] eqn:E; [|done]. eapply Hother; eauto. cbn.
    intros n. case_decide; [|done]. cbn. rewrite !elem_of_cons, elem_of_nil. by intros [?|[[= ->]|?]].
Qed.

Lemma abandoned_step s e s' i k : table_inv s -> abandoned s i k -> step s e = Some s' -> abandoned s' i k.
Proof.
  intros HT HA H. pose proof HA as (t & w & key & Ht & Hp & Hk & Hn & Hc & Hv).
  assert (Hself : forall t' s', tasks s' = <[i := t']> (tasks s) -> connections s' = connections s -> vcpu s' = vcpu s ->
    (exists w', tk_phase t' = Streaming (RWait k) w') -> task_key t' = task_key t -> tk_notify t' = tk_notify t -> abandoned s' i k).
  { intros t' s0 Hs Hcs Hvs [w' Hp'] Ek En. exists t', w', key. rewrite Hs, Hcs, Hvs, Ek, En.
    rewrite list_lookup_insert_eq by (by eapply lookup_lt_Some). done. }
  destruct e as [port|port|j bs|j|j o|j o|j o|pkt| | |]; cbn [step] in H.
  - case_decide; simplify_eq. exists t, w, key. cbn. split_and!; try done. by apply lookup_app_l_Some.
  - simplify_eq. exact HA.
  - apply bind_Some in H as (u & Hu & H). case_match; simplify_eq.
    destruct (decide (i = j)) as [->|]; [simplify_eq; by eapply Hself; [..|exists w| |]|]. by eapply abandoned_other.
  - apply bind_Some in H as (u & Hu & H). simplify_eq.
    destruct (decide (i = j)) as [->|]; [simplify_eq; by eapply Hself; [..|exists w| |]|]. by eapply abandoned_other.
  - apply bind_Some in H as (u & Hu & H). destruct (decide (i = j)) as [->|Hne].
    { simplify_eq. unfold main_step in H. by rewrite Hp in H. }
    task_cases H; (eapply abandoned_other; [exact HT|exact HA|exact Hne|exact Hu|reflexivity|reflexivity|]); try done; cbn.
    + intros key' Hne' Hc'. rewrite lookup_insert_ne by congruence. done.
    + intros key' Hne' Hc'. by apply lookup_delete_None; right.
  - apply bind_Some in H as (u & Hu & H). destruct (decide (i = j)) as [->|Hne].
    { simplify_eq. rewrite Hp in H. unfold reader_step in H. rewrite Hk in H. cbn in H. rewrite Hn in H. by destruct o. }
    case_match; try done.
    task_cases H; (eapply abandoned_other; [exact HT|exact HA|exact Hne|exact Hu|reflexivity|reflexivity|]); try done; cbn;
      intros key' Hne' Hc'.
    + rewrite lookup_insert_ne by congruence. done.
    + by apply lookup_delete_None; right.
  - apply bind_Some in H as (u & Hu & H). case_match; try done. destruct (decide (i = j)) as [->|Hne].
    + simplify_eq. assert (r = RWait k) as -> by congruence. task_cases H; (eapply Hself; [done|done|done|by eexists|done|done]).
    + task_cases H; by eapply abandoned_other.
  - case_match; simplify_eq. by apply abandoned_guest.
  - destruct (vcpu s) as [|e es] eqn:Hvs; simplify_eq. rewrite elem_of_cons in Hv.
    assert (Hbase : abandoned (set_vcpu s es) i k) by (exists t, w, key; naive_solver).
    assert (HT' : table_inv (set_vcpu s es)).
    { apply table_vcpu; [done|]. intros p Hin. apply (ti_push _ HT). rewrite Hvs. by right. }
    destruct e as [j|j|p]; cbn [run_effect]; [| |exact Hbase].
    + destruct (tasks _ !! j) as [u|] eqn:Hu; [|done]. cbn in Hu. destruct (decide (i = j)) as [->|Hne].
      * simplify_eq. exists (mkTask (tk_guest_port t) (tk_host_port t) (tk_phase t) (tk_chan t) true (tk_notify t) (tk_in t) (tk_eof t) (tk_out t)), w, key.
        cbn. rewrite list_lookup_insert_eq by (by eapply lookup_lt_Some). naive_solver.
      * by eapply (abandoned_other (set_vcpu s es)).
    + destruct (tasks _ !! j) as [u|] eqn:Hu; [|done]. cbn in Hu.
      eapply (abandoned_other (set_vcpu s es)); [done|exact Hbase| |done|reflexivity|done|done]. naive_solver.
  - case_match; simplify_eq. exact HA.
  - case_match; simplify_eq. exact HA.
Qed.

(** A removed connection strands its reader.  When the guest resets or
    shuts down a connection whose reader waits for credit, nothing notifies the
    reader: in every continuation it is still waiting, whatever the guest, the
    client and the other tasks do, so the task and its socket are never
    released. *)
Theorem reader_stranded s obs i t k w key pkt es s' obs' :
  reach s obs -> vcpu s = [] -> tasks s !! i = Some t -> tk_phase t = Streaming (RWait k) w -> task_key t = Some key ->
  nf_ready (tk_notify t) k = false -> packet_key (pk_hdr pkt) = key ->
  (vh_op (pk_hdr pkt) = OpRst \/ vh_op (pk_hdr pkt) = OpShutdown) ->
  run s (EvGuestTx pkt :: es) = Some (s', obs') -> few s' ->
  exists t' w', tasks s' !! i = Some t' /\ tk_phase t' = Streaming (RWait k) w' /\ forall o, step s' (EvReader i o) = None.
Proof.
  intros Hr Hv Ht Hp Hk Hn Hpk Hop Hrun Hf.
  assert (Hstep : exists s1 o1, step s (EvGuestTx pkt) = Some s1 /\ run s1 es = Some (s', o1) /\ abandoned s1 i k).
  { cbn [run] in Hrun. apply bind_Some in Hrun as (s1 & H1 & Hrun). apply bind_Some in Hrun as ([s2 o2] & H2 & [= <- <-]).
    exists s1, o2. split_and!; [done..|]. cbn in H1. rewrite Hv in H1. injection H1 as <-. exists t, w, key.
    assert (E : (handle_tx_locked s pkt).1 = set_conns s (delete key (connections s)))
      by (unfold handle_tx_locked; rewrite Hpk; by destruct Hop as [-> | ->]).
    rewrite E. cbn. rewrite lookup_delete_eq, Hv. split_and!; try done. by intros ?%elem_of_nil. }
  destruct Hstep as (s1 & o1 & H1 & H2 & HA).
  assert (Hend : abandoned s' i k).
  { assert (Hr1 : reach s1 (obs ++ observe s (EvGuestTx pkt))) by (by econstructor).
    clear -HA H2 Hr1 Hf. revert HA Hr1 o1 H2. generalize (obs ++ observe s (EvGuestTx pkt)). revert s1.
    induction es as [|e es IH]; cbn [run]; intros s1 ob HA Hr1 o1 H2; [by simplify_eq|].
    apply bind_Some in H2 as (s2 & Hs2 & H2). apply bind_Some in H2 as ([s3 o3] & H3 & [= <- <-]).
    eapply (IH s2); [|by econstructor|done]. eapply abandoned_step; [|done|done]. eapply reach_table; [done|].
    eapply step_few; [|done]. eapply run_few; done. }
  destruct Hend as (t' & w' & key' & Ht' & Hp' & Hk' & Hn' & _). exists t', w'. split_and!; try done.
  intros o. cbn. rewrite Ht'. cbn. rewrite Hp'. unfold reader_step. rewrite Hk'. cbn. rewrite Hn'. by destruct o.
Qed.

(** *** Credit *)

(** A guest that keeps the credit protocol: on a connection its buffer never
    shrinks and its count of consumed bytes never goes back or past what was
    forwarded to it. *)
Definition fair s (e : Event) : Prop :=
  match e with
  | EvGuestTx pkt =>
      forall c, connections s !! packet_key (pk_hdr pkt) = Some c ->
        guest_buf_alloc c <= vh_buf_alloc (pk_hdr pkt) < 2 ^ 32 /\
        guest_fwd_cnt c <= vh_fwd_cnt (pk_hdr pkt) <= host_forwarded c
  | _ => True
  end.

Inductive fair_reach : Sys N T -> list Obs -> Prop :=
  | fair_spawn cid ports bind s : spawn cid ports bind = Ok s -> fair_reach s []
  | fair_step s obs e s' : fair_reach s obs -> fair s e -> step s e = Some s' -> fair_reach s' (obs ++ observe s e).

Lemma fair_reach_reach s obs : fair_reach s obs -> reach s obs.
Proof. induction 1; by econstructor. Qed.

(** Bytes accounted for and not yet queued. *)
Definition accounted (ph : Phase T) : Z :=
  match ph with Streaming (RPush p _ _) _ => zlen p | _ => 0 end.

Definition in_flight (c : Connection) : Z := host_forwarded c - guest_fwd_cnt c.

(** A connection and its task, with [n] payload bytes queued so far. *)
Record credit_ok (n : Z) (c : Connection) t : Prop := mkCreditOk {
  co_count : host_forwarded c = n + accounted (tk_phase t);
  co_fwd : 0 <= guest_fwd_cnt c <= host_forwarded c;
  co_flight : in_flight c <= guest_buf_alloc c < 2 ^ 32;
  co_phase : match tk_phase t with
    | Streaming RWindow _ => in_flight c < guest_buf_alloc c
    | Streaming (RRead chunk) _ => in_flight c + chunk <= guest_buf_alloc c
    | Streaming (RAccount p) _ => in_flight c + zlen p <= guest_buf_alloc c
    | _ => True
    end
}.

Definition credit_inv s obs : Prop :=
  forall k c t, connections s !! k = Some c -> tasks s !! guest_to_host_tx c = Some t ->
    credit_ok (zlen (rw_bytes (Some k) (rx_log s obs))) c t.

Lemma credit_eq n c t : credit_ok n c t -> credit_bytes c = guest_buf_alloc c - in_flight c.
Proof.
  intros [_ H1 H2 _]. unfold credit_bytes, saturating_sub, in_flight in *. rewrite wrap_small by (unfold in_u; lia). lia.
Qed.

(** Task [i] moves and touches the table only under its own key. *)
Lemma credit_local s obs s' o i t t' :
  table_inv s -> table_inv s' -> credit_inv s obs -> tasks s !! i = Some t -> tasks s' = <[i := t']> (tasks s) ->
  (forall k c, task_key t' <> Some k -> connections s' !! k = Some c -> connections s !! k = Some c) ->
  (forall k, task_key t' <> Some k -> rw_bytes (Some k) (rx_log s' (obs ++ o)) = rw_bytes (Some k) (rx_log s obs)) ->
  (forall k c, task_key t' = Some k -> connections s' !! k = Some c -> guest_to_host_tx c = i ->
     credit_ok (zlen (rw_bytes (Some k) (rx_log s' (obs ++ o)))) c t') ->
  credit_inv s' (obs ++ o).
Proof.
  intros HT HT' HI Ht Hs Hc Hrw Hok k c u Hk Hu. destruct (ti_conn _ HT' _ _ Hk) as (_ & _ & u' & Hu' & Hku & _). simplify_eq.
  assert (Ht' : tasks s' !! i = Some t') by (rewrite Hs; apply list_lookup_insert_eq; by eapply lookup_lt_Some).
  destruct (decide (guest_to_host_tx c = i)) as [Ei|Hne].
  - rewrite Ei in Hu. simplify_eq. by apply Hok.
  - assert (Hnk : task_key t' <> Some k) by (intros E; by destruct (Hne (keys_apart _ _ _ _ _ _ HT' Hu Ht' Hku E))).
    rewrite Hrw by done. apply HI; [by apply Hc|]. by rewrite Hs, list_lookup_insert_ne in Hu by done.
Qed.

(** A move that leaves table and queue alone. *)
Lemma credit_quiet s obs s' i t t' :
  table_inv s -> table_inv s' -> credit_inv s obs -> tasks s !! i = Some t -> tasks s' = <[i := t']> (tasks s) ->
  (forall k c, connections s' !! k = Some c -> connections s !! k = Some c) -> rx_queue s' = rx_queue s ->
  (forall k c n, connections s' !! k = Some c -> task_key t' = Some k -> credit_ok n c t -> credit_ok n c t') ->
  credit_inv s' (obs ++ []).
Proof.
  intros HT HT' HI Ht Hs Hc Hq Hok.
  assert (El : rx_log s' (obs ++ []) = rx_log s obs) by (unfold rx_log; by rewrite app_nil_r, Hq).
  apply (credit_local s obs s' [] i t t'); auto; rewrite El; [done|]. intros k c Hk Hkc Hi. subst i. eapply Hok; eauto.
Qed.

Lemma credit_push s obs s' i t t' pkt :
  table_inv s -> table_inv s' -> credit_inv s obs -> tasks s !! i = Some t -> tasks s' = <[i := t']> (tasks s) ->
  connections s' = connections s -> rx_queue s' = rx_queue s ++ [pkt] -> vh_op (pk_hdr pkt) <> OpRw ->
  (forall n c, credit_ok n c t -> credit_ok n c t') -> credit_inv s' (obs ++ []).
Proof.
  intros HT HT' HI Ht Hs Hc Hq Hop Hok.
  assert (El : forall k, rw_bytes k (rx_log s' (obs ++ [])) = rw_bytes k (rx_log s obs)).
  { intros k. unfold rx_log. by rewrite app_nil_r, Hq, app_assoc, rw_bytes_app, (rw_bytes_other _ pkt), app_nil_r. }
  apply (credit_local s obs s' [] i t t'); auto; [by rewrite Hc|]. intros k c Hk Hkc Hi. rewrite El. subst i. apply Hok, HI; [by rewrite <- Hc|done].
Qed.

Ltac credit_move :=
  intros; match goal with H : credit_ok _ _ _ |- _ => destruct H as [? ? ? ?] end;
  repeat match goal with H : tk_phase _ = _ |- _ => rewrite H in * end; cbn in *; split; cbn; done.

Lemma credit_main s obs i t o s' :
  few s -> table_inv s -> stream_inv s obs -> credit_inv s obs -> tasks s !! i = Some t -> main_step s i t o = Some s' ->
  credit_inv s' (obs ++ []).
Proof.
  intros Hf HT HS HI Ht H. assert (HT' : table_inv s') by (by eapply table_main).
  task_cases H; simplify_eq.
  all: try (by (eapply credit_quiet; [exact HT|exact HT'|exact HI|exact Ht|reflexivity|done|reflexivity|credit_move])).
  all: try (by (eapply credit_push; [exact HT|exact HT'|exact HI|exact Ht|reflexivity|done|reflexivity|done|credit_move])).
  - assert (El : forall cs u, rx_log (set_task (set_conns s cs) i u) (obs ++ []) = rx_log s obs)
      by (intros; unfold rx_log; by rewrite app_nil_r).
    apply (credit_local s obs _ [] i t (set_phase t Dial)); try done; cbn [connections set_task set_tasks set_conns].
    + intros k c Hne. change (task_key t <> Some k) in Hne. rewrite lookup_insert_ne by congruence. done.
    + intros k _. by rewrite El.
    + intros k c Hk Hc _. change (task_key t = Some k) in Hk. simplify_eq. rewrite lookup_insert_eq in Hc. simplify_eq.
      rewrite El. pose proof (to_kb _ _ _ _ _ (si_task _ _ HS _ _ Ht)) as Hkb.
      match goal with H : tk_phase t = _ |- _ => rewrite H in Hkb end.
      match goal with H : task_key t = _ |- _ => rewrite H in Hkb end. rewrite Hkb. by split.
  - eapply credit_quiet; [exact HT|exact HT'|exact HI|exact Ht|reflexivity| |reflexivity|credit_move].
    intros k c Hk. cbn in Hk. by apply lookup_delete_Some in Hk as [_ ?].
Qed.

(** What was queued and read fits what the client wrote. *)
Lemma rw_bound s obs i t l :
  stream_inv s obs -> tasks s !! i = Some t -> inflight (tk_phase t) = Some l ->
  zlen (rw_bytes (task_key t) (rx_log s obs)) + zlen l <= zlen (wrote i obs).
Proof.
  intros HS Ht Hl. destruct (to_in _ _ _ _ _ (si_task _ _ HS _ _ Ht)) as (line & lost & -> & _ & Hi & _).
  rewrite (Hi _ Hl). unfold zlen. rewrite !length_app. lia.
Qed.

(** The accounting step, and the push it announces. *)
Lemma account_ok n c t payload w ba fc :
  tk_phase t = Streaming (RAccount payload) w -> n + zlen payload < 2 ^ 32 -> credit_ok n c t ->
  credit_ok n (count_forwarded c (wrap 32 (zlen payload))) (set_phase t (Streaming (RPush payload ba fc) w)).
Proof.
  intros Hp Hn [H1 H2 H3 H4]. rewrite Hp in *. cbn in *. assert (0 <= zlen payload) by (unfold zlen; lia).
  unfold in_flight in *. assert (E : wrap 32 (zlen payload) = zlen payload) by (apply wrap_small; unfold in_u; lia).
  split; unfold in_flight; cbn; rewrite ?E; unfold saturating_add; try done; lia.
Qed.

Lemma credit_rw s obs i t w payload ba fc k :
  table_inv s -> credit_inv s obs -> tasks s !! i = Some t -> task_key t = Some k -> tk_phase t = Streaming (RPush payload ba fc) w ->
  table_inv (set_task (push_rx s (rw_packet s k payload ba fc)) i (set_phase t (Streaming RTop w))) ->
  credit_inv (set_task (push_rx s (rw_packet s k payload ba fc)) i (set_phase t (Streaming RTop w))) (obs ++ []).
Proof.
  intros HT HI Ht Hk Hp HT'. set (s' := set_task _ _ _) in *.
  assert (El : rx_log s' (obs ++ []) = rx_log s obs ++ [rw_packet s k payload ba fc])
    by (unfold rx_log, s'; cbn [rx_queue set_task set_tasks push_rx set_rx]; by rewrite app_nil_r, app_assoc).
  apply (credit_local s obs s' [] i t (set_phase t (Streaming RTop w))); try done.
  - intros k' Hne. change (task_key t <> Some k') in Hne. rewrite El, rw_bytes_app. unfold rw_bytes at 2. cbn.
    rewrite decide_False; [by rewrite !app_nil_r|]. destruct k. cbn. intros [_ [= ->]]. by destruct Hne.
  - intros k' c Hk' Hc Hi. change (task_key t = Some k') in Hk'. simplify_eq. rewrite El, rw_bytes_app.
    assert (Er : rw_bytes (Some k) [rw_packet s k payload ba fc] = payload).
    { unfold rw_bytes. cbn. rewrite decide_True by (by destruct k). apply app_nil_r. }
    rewrite Er. destruct (HI _ _ _ Hc Ht) as [H1 H2 H3 H4]. rewrite Hp in *. cbn in *. split; cbn; try done.
    rewrite H1. unfold zlen. rewrite length_app. lia.
Qed.

Lemma credit_reader s obs i t r w o s' :
  zlen (wrote i obs) < 2 ^ 32 -> table_inv s -> stream_inv s obs -> credit_inv s obs -> tasks s !! i = Some t ->
  tk_phase t = Streaming r w -> reader_step s i t r w o = Some s' -> credit_inv s' (obs ++ []).
Proof.
  intros Hsm HT HS HI Ht Hp H. assert (HT' : table_inv s') by (by eapply table_reader).
  assert (Hq : forall s1 t1, table_inv s1 -> tasks s1 = <[i := t1]> (tasks s) -> connections s1 = connections s ->
    rx_queue s1 = rx_queue s -> task_key t1 = task_key t ->
    (forall k c n, task_key t = Some k -> connections s !! k = Some c -> credit_ok n c t -> credit_ok n c t1) ->
    credit_inv s1 (obs ++ [])).
  { intros s1 t1 ? ? Hc ? Hk Hok. eapply (credit_quiet s obs s1 i t t1); try done; [by rewrite Hc|].
    intros k c n. rewrite Hc, Hk. eauto. }
  task_cases H; simplify_eq.
  all: try (by (eapply credit_quiet; [exact HT|exact HT'|exact HI|exact Ht|reflexivity|done|reflexivity|credit_move])).
  all: try (by (eapply credit_push; [exact HT|exact HT'|exact HI|exact Ht|reflexivity|done|reflexivity|done|credit_move])).
  all: try match goal with H : open_conn _ _ = Some _ |- _ => apply open_conn_Some in H as [? _] end.
  - eapply Hq; try done. intros k c' n Hk Hc Hok. simplify_eq. pose proof (credit_eq _ _ _ Hok) as E. bool_to_prop.
    destruct Hok as [C1 C2 C3 C4]. rewrite Hp in *. split; cbn in *; try done. lia.
  - eapply Hq; try done. intros k c' n Hk Hc Hok. simplify_eq. pose proof (credit_eq _ _ _ Hok) as E.
    destruct Hok as [C1 C2 C3 C4]. rewrite Hp in *. split; cbn [tk_phase set_phase accounted] in *; try done. lia.
  - eapply Hq; try done. intros k c' n Hk Hc [C1 C2 C3 C4]. bool_to_prop.
    match goal with H : (_ <=? length _)%nat = true |- _ => apply Nat.leb_le in H end.
    rewrite Hp in *. split; cbn [tk_phase set_in accounted] in *; try done. unfold zlen. rewrite length_take. lia.
  - set (s1 := set_task _ _ _) in *.
    assert (El : rx_log s1 (obs ++ []) = rx_log s obs) by (unfold rx_log; by rewrite app_nil_r).
    eapply (credit_local s obs s1 [] i t); try done; rewrite ?El; try done.
    + intros k c' Hne. change (task_key t <> Some k) in Hne. cbn. rewrite lookup_insert_ne by congruence. done.
    + intros k c' Hk Hc Hi. change (task_key t = Some k) in Hk. cbn in Hc. simplify_eq. rewrite lookup_insert_eq in Hc.
      simplify_eq. apply account_ok; [done| |by apply HI].
      pose proof (rw_bound _ _ _ _ payload HS Ht ltac:(by rewrite Hp)) as Hb.
      match goal with H : task_key t = _ |- _ => rewrite H in Hb end. lia.
  - by apply credit_rw.
  - eapply (credit_quiet s obs); [exact HT|exact HT'|exact HI|exact Ht|reflexivity| |reflexivity|credit_move].
    intros k c Hk. cbn in Hk. by apply lookup_delete_Some in Hk as [_ ?].
Qed.

Lemma credit_writer s obs i t r w o s' :
  table_inv s -> credit_inv s obs -> tasks s !! i = Some t -> tk_phase t = Streaming r w ->
  writer_step s i t r w o = Some s' -> credit_inv s' (obs ++ []).
Proof.
  intros HT HI Ht Hp H. assert (HT' : table_inv s') by (by eapply table_writer).
  task_cases H; simplify_eq; (eapply credit_quiet; [exact HT|exact HT'|exact HI|exact Ht|reflexivity|done|reflexivity|]);
    intros ? ? ? _ _ [C1 C2 C3 C4]; rewrite Hp in *; split; cbn in *; try done; by destruct r.
Qed.

(** Fresher credit on a connection. *)
Lemma refresh_ok n c c' t t' h :
  credit_ok n c t -> guest_buf_alloc c <= vh_buf_alloc h < 2 ^ 32 -> guest_fwd_cnt c <= vh_fwd_cnt h <= host_forwarded c ->
  host_forwarded c' = host_forwarded c -> guest_buf_alloc c' = vh_buf_alloc h -> guest_fwd_cnt c' = vh_fwd_cnt h ->
  tk_phase t' = tk_phase t -> credit_ok n c' t'.
Proof.
  intros [C1 C2 C3 C4] Hb Hf E1 E2 E3 Ep. unfold in_flight in *.
  split; unfold in_flight; rewrite ?Ep, ?E1, ?E2, ?E3; try done; try lia.
  destruct (tk_phase t) as [l| | | | | | | |[]|]; try done; lia.
Qed.

Lemma credit_guest s obs pkt :
  table_inv s -> credit_inv s obs -> fair s (EvGuestTx pkt) ->
  credit_inv (handle_tx_locked s pkt).1 (obs ++ observe s (EvGuestTx pkt)).
Proof.
  intros HT HI Hfair. cbn [fair] in Hfair. set (k := packet_key (pk_hdr pkt)) in *. set (o := observe _ _).
  assert (Hlog : forall s', rx_queue s' = rx_queue s -> rx_log s' (obs ++ o) = rx_log s obs).
  { intros s' Hq. unfold rx_log. rewrite map_app, concat_app, Hq. unfold o, observe. repeat case_match; cbn; by rewrite app_nil_r. }
  assert (Hchange : forall s' c c', connections s !! k = Some c -> connections s' = <[k := c']> (connections s) ->
    rx_queue s' = rx_queue s -> guest_to_host_tx c' = guest_to_host_tx c ->
    host_forwarded c' = host_forwarded c -> guest_buf_alloc c' = vh_buf_alloc (pk_hdr pkt) -> guest_fwd_cnt c' = vh_fwd_cnt (pk_hdr pkt) ->
    (forall i u, tasks s' !! i = Some u -> exists u0, tasks s !! i = Some u0 /\ tk_phase u = tk_phase u0) -> credit_inv s' (obs ++ o)).
  { intros s' c c' Hc Hcs Hq Etx E1 E2 E3 Hts k' c0 u Hk' Hu. rewrite Hlog by done. rewrite Hcs in Hk'.
    destruct (Hts _ _ Hu) as (u0 & Hu0 & Ep). destruct (Hfair _ Hc) as [Hb Hf].
    apply lookup_insert_Some in Hk' as [[<- <-]|[Hne Hk']].
    - rewrite Etx in Hu0. eapply refresh_ok; eauto.
    - destruct (HI _ _ _ Hk' Hu0) as [C1 C2 C3 C4]. split; rewrite ?Ep; done. }
  assert (Hless : forall cs, (forall k' c, cs !! k' = Some c -> connections s !! k' = Some c) -> credit_inv (set_conns s cs) (obs ++ o)).
  { intros cs Hcs k' c u Hk' Hu. rewrite Hlog by done. apply HI; [by apply Hcs|done]. }
  assert (Hself : credit_inv s (obs ++ o)) by (intros k' c u Hk' Hu; rewrite Hlog by done; by apply HI).
  clearbody o. unfold handle_tx_locked. fold k. destruct (vh_op (pk_hdr pkt)); try done.
  - destruct (connections s !! k) as [c|] eqn:Hc; [|done]. eapply Hchange; eauto.
  - apply Hless. intros k' c Hk. by apply lookup_delete_Some in Hk as [_ ?].
  - apply Hless. intros k' c Hk. by apply lookup_delete_Some in Hk as [_ ?].
  - destruct (connections s !! k) as [c|] eqn:Hc; [|done]. destruct (closed c); [done|].
    unfold send. destruct (tasks s !! guest_to_host_tx c) as [t|] eqn:Ht; [destruct (receiver_alive t)|];
      (eapply Hchange; [done|reflexivity|done|done|done|done|done|cbn; eauto]).
    intros i u [(<- & <- & _)|[? ?]]%list_lookup_insert_Some; eauto.
  - destruct (connections s !! k) as [c|] eqn:Hc; [|done]. eapply Hchange; eauto.
  - destruct (connections s !! k) as [c|] eqn:Hc; [|done]. eapply Hchange; eauto.
Qed.

(** Nothing about connections changes. *)
Lemma credit_silent s obs s' o :
  credit_inv s obs -> connections s' = connections s -> (forall k, rw_bytes k (rx_log s' (obs ++ o)) = rw_bytes k (rx_log s obs)) ->
  (forall i u, tasks s' !! i = Some u -> (exists u0, tasks s !! i = Some u0 /\ tk_phase u = tk_phase u0) \/ tk_host_port u = None) ->
  table_inv s' -> credit_inv s' (obs ++ o).
Proof.
  intros HI Hc Hrw Hts HT k c u Hk Hu. destruct (ti_conn _ HT _ _ Hk) as (_ & _ & u' & Hu' & Hku & _). simplify_eq.
  destruct (Hts _ _ Hu) as [(u0 & Hu0 & Ep)|Hn]; [|unfold task_key in Hku; by rewrite Hn in Hku].
  rewrite Hrw, Hc in *. destruct (HI _ _ _ Hk Hu0) as [C1 C2 C3 C4]. split; rewrite ?Ep; done.
Qed.

Lemma credit_step s obs e s' :
  few s -> (forall i, zlen (wrote i obs) < 2 ^ 32) -> table_inv s -> table_inv s' -> stream_inv s obs -> credit_inv s obs ->
  fair s e -> step s e = Some s' -> credit_inv s' (obs ++ observe s e).
Proof.
  intros Hf Hsm HT HT' HS HI Hfair H. destruct e as [port|port|i bs|i|i o|i o|i o|pkt| | |]; cbn [step] in H.
  all: try (apply bind_Some in H as (t & Ht & H)).
  - case_decide; simplify_eq. eapply credit_silent; try done; [by intros; rewrite app_nil_r|]. cbn.
    intros i u [?|[_ [_ <-]%list_lookup_singleton_Some]]%lookup_app_Some; eauto.
  - simplify_eq. eapply credit_silent; try done; [by intros; rewrite app_nil_r|]. cbn. eauto.
  - case_match; simplify_eq. eapply credit_silent; try done; cbn.
    + intros k. f_equal. unfold rx_log. rewrite map_app, concat_app. cbn. by rewrite app_nil_r.
    + intros j u [(<- & <- & _)|[? ?]]%list_lookup_insert_Some; eauto.
  - simplify_eq. eapply credit_silent; try done; [by intros; rewrite app_nil_r|]. cbn.
    intros j u [(<- & <- & _)|[? ?]]%list_lookup_insert_Some; eauto.
  - by eapply credit_main.
  - case_match; try done. by eapply (credit_reader s obs i t); [apply Hsm|..].
  - case_match; try done. by eapply (credit_writer s).
  - case_match; simplify_eq. by apply credit_guest.
  - destruct (vcpu s) as [|e es] eqn:Hv; simplify_eq. eapply credit_silent; try done.
    + by destruct e; cbn; try case_match.
    + intros k. destruct e as [j|j|p]; cbn; [case_match; by rewrite app_nil_r..|]. unfold rx_log. cbn.
      rewrite app_nil_r, app_assoc, rw_bytes_app, (rw_bytes_other _ p), app_nil_r; [done|].
      apply (ti_push _ HT). rewrite Hv. by left.
    + intros j u. destruct e as [n|n|p]; cbn; [case_match; cbn..|]; eauto;
        intros [(<- & <- & _)|[? ?]]%list_lookup_insert_Some; eauto.
  - case_match; simplify_eq. eapply credit_silent; try done; cbn; [|eauto].
    intros k. f_equal. unfold rx_log. rewrite map_app, concat_app. cbn. by rewrite !app_nil_r.
  - case_match; simplify_eq. eapply credit_silent; try done; [by intros; rewrite app_nil_r|]. cbn. eauto.
Qed.

Lemma fair_reach_credit s obs :
  fair_reach s obs -> few s -> (forall i, zlen (wrote i obs) < 2 ^ 32) -> credit_inv s obs.
Proof.
  induction 1 as [cid ports bind s H|s obs e s' Hr IH Hfe H]; intros Hf Hsm.
  - unfold spawn in H. case_match; simplify_eq. intros k c t. cbn. by rewrite lookup_empty.
  - assert (Hf' : few s) by (by eapply step_few). pose proof (fair_reach_reach _ _ Hr) as Hr'.
    assert (Hsm' : forall i, zlen (wrote i obs) < 2 ^ 32).
    { intros i. specialize (Hsm i). rewrite wrote_app in Hsm. unfold zlen in *. rewrite length_app in Hsm. lia. }
    eapply credit_step; eauto using reach_table, reach_stream. eapply reach_table; [by econstructor|done].
Qed.


Fixpoint all_fair s (es : list Event) : bool :=
  match es with
  | [] => true
  | e :: es =>
      match e with
      | EvGuestTx pkt =>
          match connections s !! packet_key (pk_hdr pkt) with
          | Some c => (guest_buf_alloc c <=? vh_buf_alloc (pk_hdr pkt)) && (vh_buf_alloc (pk_hdr pkt) <? 2 ^ 32) &&
                      (guest_fwd_cnt c <=? vh_fwd_cnt (pk_hdr pkt)) && (vh_fwd_cnt (pk_hdr pkt) <=? host_forwarded c)
          | None => true
          end
      | _ => true
      end && match step s e with Some s' => all_fair s' es | None => true end
  end.

Lemma all_fair_reach s obs es s' obs' :
  fair_reach s obs -> all_fair s es = true -> run s es = Some (s', obs') -> fair_reach s' (obs ++ obs').
Proof.
  revert s obs obs'. induction es as [|e es IH]; intros s obs obs' Hr Ha; cbn [run all_fair] in *.
  - intros [= <- <-]. by rewrite app_nil_r.
  - apply andb_true_iff in Ha as [Hf Ha]. destruct (step s e) as [s1|] eqn:E1; [|done]. cbn [mbind option_bind].
    destruct (run s1 es) as [[s2 obs2]|] eqn:E2; [|done]. intros [= <- <-].
    rewrite app_assoc. eapply IH; [|done|done]. econstructor; [done| |done].
    destruct e; try done. cbn. intros c Hc. rewrite Hc in Hf. bool_to_prop. lia.
Qed.
End reachable.

(** The counters saturate where the protocol lets them wrap: after 4 GiB a
    guest that has consumed everything still leaves no credit. *)
Lemma credit_stalls_after_4gib c chunks buf :
  Forall (fun n => 0 <= n) chunks -> host_forwarded c = 0 -> 2 ^ 32 <= foldr Z.add 0 chunks ->
  0 <= buf < 2 ^ 31 -> foldr Z.add 0 chunks mod 2 ^ 32 < 2 ^ 31 ->
  let c' := foldl count_forwarded c chunks in
  let c'' := mkConn (guest_to_host_tx c') (response_signal c') buf (foldr Z.add 0 chunks mod 2 ^ 32) (host_forwarded c')
               (guest_rx_forwarded c') (credit_notify c') (closed c') in
  host_forwarded c' = 2 ^ 32 - 1 /\ credit_bytes c'' = 0.
Proof.
  intros Hn H0 Ht Hb Hm c' c''.
  assert (Hs : forall l c0, Forall (fun n => 0 <= n) l -> 0 <= host_forwarded c0 < 2 ^ 32 ->
    host_forwarded (foldl count_forwarded c0 l) = Z.min (host_forwarded c0 + foldr Z.add 0 l) (2 ^ 32 - 1)).
  { clear. induction l as [|n l IH]; intros c0 Hl Hc; cbn [foldl foldr]; [lia|]. inversion Hl as [|? ? Hn Hl']; subst.
    assert (0 <= foldr Z.add 0 l) by (clear -Hl'; induction Hl'; cbn; lia).
    rewrite IH; [|done|]; cbn; unfold saturating_add; lia. }
  assert (E : host_forwarded c' = 2 ^ 32 - 1) by (unfold c'; rewrite Hs; [lia|done|lia]).
  split; [done|]. pose proof (Z.mod_pos_bound (foldr Z.add 0 chunks) (2 ^ 32) ltac:(lia)).
  unfold credit_bytes, saturating_sub, c''. cbn. rewrite E, wrap_small by (unfold in_u; lia). lia.
Qed.

(** ** A session *)

(** A [Notify] as the number of wake-ups so far. *)
#[export] Instance counting_notify : NotifyLib nat nat := {
  nf_new := O;
  nf_notify_waiters := S;
  nf_notified n := n;
  nf_ready n t := negb (Nat.eqb t n)
}.

#[export, refine] Instance counting_notify_laws : NotifyLaws nat nat := { nf_issued n t := (t <= n)%nat }.
Proof.
  - done.
  - intros. cbn. lia.
  - intros n t H. cbn. apply negb_true_iff, Nat.eqb_neq. lia.
  - intros n t _ H. cbn. apply negb_true_iff, Nat.eqb_neq. lia.
Defined.

Module Session.
Definition guest_packet (op : VsockOp) (buf_alloc fwd_cnt : Z) (payload : list Z) : VsockPacket :=
  mkPacket (mkVsockHeader 3 VMADDR_CID_HOST 5001 1024 (zlen payload) TYPE_STREAM op 0 buf_alloc fwd_cnt) payload.

Definition init : Sys nat nat := mkSys 3 1024 [] false ∅ [5001] [] [].

(** A client connects and writes two bytes; the guest answers, grants one byte
    of credit and sends two bytes back; the reader ends up waiting. *)
Definition events : list Event :=
  [EvAccept 5001; EvHostWrites 0 (lit "CONNECT 5001" ++ [10; 104; 105])] ++ repeat (EvMain 0 (Reads 1)) 13 ++
  [EvMain 0 Done; EvMain 0 Done; EvMain 0 Done; EvDrainRx; EvGuestTx (guest_packet OpResponse 1 0 []); EvEffect; EvEffect;
   EvMain 0 Done; EvMain 0 Done; EvReader 0 Done; EvReader 0 Done; EvReader 0 Done; EvReader 0 Done; EvReader 0 (Reads 1);
   EvGuestTx (guest_packet OpRw 1 0 [111; 107]); EvReader 0 Done; EvEffect; EvReader 0 Done; EvEffect; EvWriter 0 Done;
   EvReader 0 Done; EvReader 0 Done; EvReader 0 Done].

Definition state : Sys nat nat := default init (fst <$> run init events).
Definition seen : list Obs := default [] (snd <$> run init events).

Lemma run_events : run init events = Some (state, seen).
Proof. vm_compute. reflexivity. Qed.

Lemma init_spawned : spawn 3 [5001] (fun _ => true) = Ok init.
Proof. reflexivity. Qed.

Lemma reached : reach state seen.
Proof. rewrite <- (app_nil_l seen). exact (run_reach _ _ _ _ _ (reach_spawn _ _ _ _ init_spawned) run_events). Qed.

Lemma reached_fairly : fair_reach state seen.
Proof.
  rewrite <- (app_nil_l seen).
  refine (all_fair_reach _ _ _ _ _ (fair_spawn _ _ _ _ init_spawned) _ run_events). vm_compute. reflexivity.
Qed.

Definition client : Task nat nat :=
  default (mkTask 0 None Failed [] false O [] false []) (tasks state !! O).

Definition key : ConnectionKey := mkKey 1024 5001.

(** The client has been told [OK 1024] and [ok]; one of its two bytes is queued
    for the guest and the reader waits for credit. *)
Lemma client_now :
  tasks state !! O = Some client /\ tk_phase client = Streaming (RWait 2%nat) WLoop /\ tk_host_port client = Some 1024 /\
  task_key client = Some key /\ vcpu state = [] /\ nf_ready (tk_notify client) 2%nat = false /\ few state.
Proof. by vm_compute. Qed.
End Session.


Lemma no_lost_wakeup_witness :
  is_Some (step Session.state (EvReader O Done)) \/ connections Session.state !! Session.key = None \/
  exists c, open_conn Session.state Session.key = Some c /\ credit_bytes c = 0.
Proof.
  destruct Session.client_now as (Ht & Hp & _ & Hk & Hv & _ & Hf).
  exact (no_lost_wakeup Session.state Session.seen O Session.client 2%nat WLoop Session.key Session.reached Hf Hv Ht Hp Hk).
Defined.

(** The guest resets the connection; the client then writes and closes. *)
Lemma reader_stranded_witness :
  exists s obs, run Session.state [EvGuestTx (Session.guest_packet OpRst 0 0 []); EvHostWrites O [1]; EvHostCloses O; EvWriter O Done]
                  = Some (s, obs) /\
  exists t w, tasks s !! O = Some t /\ tk_phase t = Streaming (RWait 2%nat) w /\ forall o, step s (EvReader O o) = None.
Proof.
  destruct Session.client_now as (Ht & Hp & _ & Hk & Hv & Hn & _).
  destruct (run Session.state [EvGuestTx (Session.guest_packet OpRst 0 0 []); EvHostWrites O [1]; EvHostCloses O; EvWriter O Done])
    as [[s obs]|] eqn:Hr; [|vm_compute in Hr; discriminate Hr]. exists s, obs. split; [reflexivity|].
  refine (reader_stranded Session.state Session.seen O Session.client 2%nat WLoop Session.key _ _ s obs
    Session.reached Hv Ht Hp Hk Hn _ _ Hr _); [reflexivity|left; reflexivity|].
  unfold few. enough (E : length (tasks s) = 1%nat) by (unfold zlen; rewrite E; reflexivity).
  assert (Hl : (fun r => length (tasks r.1)) <$> run Session.state [EvGuestTx (Session.guest_packet OpRst 0 0 []); EvHostWrites O [1]; EvHostCloses O; EvWriter O Done]
    = Some 1%nat) by (vm_compute; reflexivity). rewrite Hr in Hl. by injection Hl.
Defined.

