(* ===== verification/Loader.v ===== *)
(** * Loader: the kernel image loader

    Models [src/crates/loader/src/lib.rs]: path checks, format detection, the
    bounded decompression loop, the boot header and the check that a kernel fits
    in guest memory.  The file system and the gzip and zstd decoders are the
    classes [HostFs] and [Decoders]. *)

From stdpp Require Import base numbers list option gmap strings.
From Stdlib Require Import ZArith Lia.
From S2P Require Import Prelude Text Arch.

Local Open Scope Z_scope.
Local Open Scope squib_scope.

(** ** Constants and errors *)

Definition MAGIC_PE : list Z := [0x4D; 0x5A].
Definition MAGIC_GZ : list Z := [0x1F; 0x8B].
Definition MAGIC_ZST : list Z := [0x28; 0xB5; 0x2F; 0xFD].
Definition MAGIC_AARCH64_IMAGE : list Z := [0x41; 0x52; 0x4D; 0x64].
Definition AARCH64_MAGIC_OFFSET : nat := 0x38.
Definition MIN_IMAGE_SIZE : nat := 64.
Definition DEFAULT_MAX_COMPRESSED : Z := 1024 * 1024 * 1024.
Definition DEFAULT_MAX_DECOMPRESSED : Z := 4 * 1024 * 1024 * 1024.
Definition PATH_MAX : Z := 1024.

Inductive LoaderError :=
  | LoaderIo (e : IoError)
  | ImageTooSmall (size : Z)
  | UnknownFormat
  | MissingAarch64Magic
  | CompressedTooLarge (size cap : Z)
  | DecompressedTooLarge (size cap : Z)
  | DoesNotFitInRam (load_addr image_size ram_end : Z)
  | InvalidTextOffset (text_offset : Z)
  | PathRejected (reason : string).

Inductive ImageFormat := Aarch64Image | Pe | Gzip | Zstd.

Record MaxSizes := mkMaxSizes { mx_compressed : Z; mx_decompressed : Z }.

Definition MaxSizes_default : MaxSizes := mkMaxSizes DEFAULT_MAX_COMPRESSED DEFAULT_MAX_DECOMPRESSED.

Record LoadedKernel := mkKernel {
  lk_bytes : list Z;
  lk_format : ImageFormat;
  lk_text_offset : Z;
  lk_image_size : Z
}.

(** ** What the loader calls *)

(** [std::fs::metadata(path).len()] and [std::fs::read]. *)
Class HostFs (F : Type) := {
  fs_len : F -> list Z -> result IoError Z;
  fs_read : F -> list Z -> result IoError (list Z)
}.

(** The streaming decoders of [flate2] and [zstd] over the compressed bytes:
    [read] is called with the length of its buffer. *)
Class Decoders (R : Type) := {
  dec_gzip : list Z -> R;
  dec_zstd : list Z -> result IoError R;
  dec_read : R -> nat -> R * result IoError (list Z)
}.

(** The contract of [Read::read]: bytes, and at most as many as the buffer holds. *)
Class DecoderLaws (R : Type) `{!Decoders R} := {
  dec_read_bound : forall r n r' bs, dec_read r n = (r', Ok bs) -> (length bs <= n)%nat;
  dec_read_bytes : forall r n r' bs, dec_read r n = (r', Ok bs) -> bytes_ok bs
}.

(** A file's length is a [u64] and its contents are bytes. *)
Class HostFsLaws (F : Type) `{!HostFs F} := {
  fs_len_u64 : forall fs path n, fs_len fs path = Ok n -> in_u 64 n;
  fs_read_bytes : forall fs path bs, fs_read fs path = Ok bs -> bytes_ok bs
}.

(** ** Operations *)

(** [enforce_path_bounds]; a path is the bytes of its [OsStr]. *)
Definition enforce_path_bounds (path : list Z) : result LoaderError unit :=
  match from_utf8 path with
  | None => Err (PathRejected "path is not valid UTF-8")
  | Some _ =>
      if decide (path = []) then Err (PathRejected "path must not be empty")
      else if PATH_MAX <? zlen path then Err (PathRejected "path exceeds PATH_MAX bytes")
      else if existsb (Z.eqb 0) path then Err (PathRejected "path contains a NUL byte")
      else Ok tt
  end.

Definition load_address (k : LoadedKernel) : result LoaderError Z :=
  match checked_add 64 Layout.DRAM_BASE (lk_text_offset k) with
  | None => Err (InvalidTextOffset (lk_text_offset k))
  | Some raw => Ok (Z.max raw (Layout.DRAM_BASE + Layout.KERNEL_LOAD_OFFSET))
  end.

Definition image_bytes (k : LoadedKernel) : Z :=
  if lk_image_size k =? 0 then zlen (lk_bytes k) else lk_image_size k.

Definition check_fits_in_ram (k : LoadedKernel) (ram_size_bytes : Z) : result LoaderError Z :=
  let? load_addr := load_address k in
  let ram_end :=
    e ← checked_add 64 Layout.DRAM_BASE ram_size_bytes;
    if e <=? Layout.DRAM_MAX_END then Some e else None in
  match ram_end with
  | None => Err (DoesNotFitInRam load_addr (image_bytes k) Layout.DRAM_MAX_END)
  | Some ram_end =>
      let needed := image_bytes k in
      match checked_add 64 load_addr needed with
      | None => Err (DoesNotFitInRam load_addr needed ram_end)
      | Some e => if ram_end <? e then Err (DoesNotFitInRam load_addr needed ram_end) else Ok load_addr
      end
  end.

(** [bytes.get(off..off + n)]. *)
Definition get_range (bytes : list Z) (off n : nat) : option (list Z) :=
  if (off + n <=? length bytes)%nat then Some (slice off n bytes) else None.

Definition has_aarch64_magic (bytes : list Z) : bool :=
  bool_decide (get_range bytes AARCH64_MAGIC_OFFSET 4 = Some MAGIC_AARCH64_IMAGE).

Definition detect_format (bytes : list Z) : option ImageFormat :=
  if (4 <=? length bytes)%nat && bool_decide (take 4 bytes = MAGIC_ZST) then Some Zstd
  else if (2 <=? length bytes)%nat && bool_decide (take 2 bytes = MAGIC_GZ) then Some Gzip
  else if (2 <=? length bytes)%nat && bool_decide (take 2 bytes = MAGIC_PE) then Some Pe
  else if has_aarch64_magic bytes then Some Aarch64Image
  else None.

Definition read_le_u64_at (bytes : list Z) (offset : nat) : result LoaderError Z :=
  match get_range bytes offset 8 with
  | None => Err (ImageTooSmall (zlen bytes))
  | Some s => Ok (le_val s)
  end.

Section loading.
Context {R : Type} `{!Decoders R}.

Definition READ_BUF : nat := Z.to_nat (64 * 1024).

Lemma READ_BUF_val : Z.of_nat READ_BUF = 64 * 1024.
Proof. unfold READ_BUF. lia. Qed.

#[local] Opaque READ_BUF.

(** One round of [bounded_read_to_end]. *)
Definition read_step (cap : Z) (s : R * list Z) : R * list Z + result LoaderError (list Z) :=
  let (r, out) := s in
  match dec_read r READ_BUF with
  | (_, Err e) => inr (Err (LoaderIo e))
  | (r', Ok chunk) =>
      match chunk with
      | [] => inr (Ok out)
      | _ =>
          let next_total := zlen out + zlen chunk in
          if cap <? next_total then inr (Err (DecompressedTooLarge next_total cap))
          else inl (r', out ++ chunk)
      end
  end.

(** Every round but the last adds a byte, up to the cap; [None] would be running out of rounds. *)
Definition bounded_read_to_end (r : R) (cap : Z) : option (result LoaderError (list Z)) :=
  match iter_pow2 (rounds (cap + 1)) (read_step cap) (r, []) with
  | inr res => Some res
  | inl _ => None
  end.

Definition decompress_gzip (bytes : list Z) (cap : Z) : option (result LoaderError (list Z)) :=
  bounded_read_to_end (dec_gzip bytes) cap.

Definition decompress_zstd (bytes : list Z) (cap : Z) : option (result LoaderError (list Z)) :=
  match dec_zstd bytes with
  | Err e => Some (Err (LoaderIo e))
  | Ok r => bounded_read_to_end r cap
  end.

(** The checks on a payload, and its boot header. *)
Definition parse_image (format : ImageFormat) (payload : list Z) : result LoaderError LoadedKernel :=
  if (length payload <? MIN_IMAGE_SIZE)%nat then Err (ImageTooSmall (zlen payload))
  else if negb (has_aarch64_magic payload) then Err MissingAarch64Magic
  else
    let? text_offset := read_le_u64_at payload 8 in
    let? image_size := read_le_u64_at payload 16 in
    Ok (mkKernel payload format text_offset image_size).

Definition load_from_bytes_with_caps (bytes : list Z) (caps : MaxSizes) : option (result LoaderError LoadedKernel) :=
  if mx_compressed caps <? zlen bytes then Some (Err (CompressedTooLarge (zlen bytes) (mx_compressed caps)))
  else
    match detect_format bytes with
    | None => Some (Err UnknownFormat)
    | Some format =>
        payload ← match format with
                  | Aarch64Image | Pe => Some (Ok bytes)
                  | Gzip => decompress_gzip bytes (mx_decompressed caps)
                  | Zstd => decompress_zstd bytes (mx_decompressed caps)
                  end;
        Some (let? p := payload in parse_image format p)
    end.

Definition load_from_path_with_caps {F} `{!HostFs F} (fs : F) (path : list Z) (caps : MaxSizes)
  : option (result LoaderError LoadedKernel) :=
  match enforce_path_bounds path with
  | Err e => Some (Err e)
  | Ok _ =>
      match fs_len fs path with
      | Err e => Some (Err (LoaderIo e))
      | Ok len =>
          if mx_compressed caps <? len then Some (Err (CompressedTooLarge len (mx_compressed caps)))
          else
            match fs_read fs path with
            | Err e => Some (Err (LoaderIo e))
            | Ok bytes => load_from_bytes_with_caps bytes caps
            end
      end
  end.

Definition load_from_bytes (bytes : list Z) := load_from_bytes_with_caps bytes MaxSizes_default.
Definition load_from_path {F} `{!HostFs F} (fs : F) (path : list Z) := load_from_path_with_caps fs path MaxSizes_default.

(** ** The decompression loop *)

Lemma read_total n r cap out :
  Z.of_nat n > cap - zlen out -> zlen out <= cap -> (0 < n)%nat ->
  exists res, iter_n n (read_step cap) (r, out) = inr res.
Proof.
  revert r out. induction n as [|n IH]; intros r out Hf Ho H0; [lia|]. cbn [iter_n read_step].
  destruct (dec_read r READ_BUF) as [r' [chunk|e]]; [|by eexists]. destruct chunk as [|b chunk]; [by eexists|].
  assert (Hc : 1 <= zlen (b :: chunk)) by (unfold zlen; cbn; lia).
  destruct (Z.ltb_spec cap (zlen out + zlen (b :: chunk))); [by eexists|].
  apply IH; unfold zlen in *; rewrite ?length_app; lia.
Qed.

(** The chunks a decoder yields up to its first empty read. *)
Inductive yields : R -> list Z -> Prop :=
  | yields_end r r' : dec_read r READ_BUF = (r', Ok []) -> yields r []
  | yields_more r r' chunk rest :
      dec_read r READ_BUF = (r', Ok chunk) -> chunk <> [] -> yields r' rest -> yields r (chunk ++ rest).

Lemma read_yields n r cap out bs :
  iter_n n (read_step cap) (r, out) = inr (Ok bs) -> zlen out <= cap ->
  exists rest, bs = out ++ rest /\ yields r rest /\ zlen bs <= cap.
Proof.
  revert r out. induction n as [|n IH]; intros r out H Ho; cbn [iter_n read_step] in H; [done|].
  destruct (dec_read r READ_BUF) as [r' [chunk|e]] eqn:E; [|done]. destruct chunk as [|b chunk].
  - simplify_eq. exists []. rewrite app_nil_r. by split_and!; [|econstructor|].
  - destruct (Z.ltb_spec cap (zlen out + zlen (b :: chunk))); [done|].
    apply IH in H as (rest & -> & Hy & Hl); [|unfold zlen in *; rewrite length_app; lia].
    exists ((b :: chunk) ++ rest). rewrite <- app_assoc in Hl |- *. by split_and!; [|econstructor|].
Qed.

Lemma yields_read n r rest : yields r rest -> forall cap out,
  zlen out + zlen rest <= cap -> Z.of_nat n > cap - zlen out ->
  iter_n n (read_step cap) (r, out) = inr (Ok (out ++ rest)).
Proof.
  intros Hy. revert n. induction Hy as [r r' E|r r' chunk rest E Hne Hy IH]; intros n cap out Hc Hf.
  - destruct n as [|n]; [unfold zlen in *; cbn in *; lia|]. cbn [iter_n read_step]. by rewrite E, app_nil_r.
  - destruct n as [|n]; [unfold zlen in *; rewrite length_app in Hc; lia|]. cbn [iter_n read_step]. rewrite E.
    destruct chunk as [|b chunk]; [done|]. set (ch := b :: chunk) in *.
    assert (1 <= zlen ch) by (unfold zlen; cbn; lia).
    assert (zlen (ch ++ rest) = zlen ch + zlen rest) by (unfold zlen; rewrite length_app; lia).
    assert (zlen (out ++ ch) = zlen out + zlen ch) by (unfold zlen; rewrite length_app; lia).
    assert (0 <= zlen rest) by (unfold zlen; lia).
    rewrite (proj2 (Z.ltb_ge cap (zlen out + zlen ch))) by lia.
    rewrite IH by lia. by rewrite app_assoc.
Qed.

Lemma yields_unique r a b : yields r a -> yields r b -> a = b.
Proof.
  intros Ha. revert b. induction Ha as [r r' E|r r' chunk rest E Hne Hy IH]; intros b Hb.
  - inversion Hb; subst; [done|]. congruence.
  - inversion Hb as [|? r1 chunk1 rest1 E1]; subst; [congruence|]. rewrite E in E1. injection E1 as <- <-. f_equal. auto.
Qed.

(** ** Loaded kernels *)

(** What is decoded for a format, independently of the caps. *)
Definition decoded (bytes : list Z) (f : ImageFormat) (payload : list Z) : Prop :=
  match f with
  | Aarch64Image | Pe => payload = bytes
  | Gzip => yields (dec_gzip bytes) payload
  | Zstd => exists r, dec_zstd bytes = Ok r /\ yields r payload
  end.

(** A well-formed kernel image. *)
Definition image_ok (payload : list Z) : Prop :=
  (MIN_IMAGE_SIZE <= length payload)%nat /\ slice AARCH64_MAGIC_OFFSET 4 payload = MAGIC_AARCH64_IMAGE.

Lemma parse_image_ok f payload :
  image_ok payload ->
  parse_image f payload = Ok (mkKernel payload f (le_val (slice 8 8 payload)) (le_val (slice 16 8 payload))).
Proof.
  intros [Hl Hm]. unfold parse_image, has_aarch64_magic, read_le_u64_at, get_range, MIN_IMAGE_SIZE, AARCH64_MAGIC_OFFSET in *.
  rewrite (proj2 (Nat.ltb_ge _ _)) by lia. rewrite !(proj2 (Nat.leb_le _ _)) by lia.
  rewrite bool_decide_true by (by rewrite Hm). done.
Qed.

Lemma parse_image_inv f payload k : parse_image f payload = Ok k -> image_ok payload.
Proof.
  unfold parse_image, has_aarch64_magic, get_range, image_ok, MIN_IMAGE_SIZE, AARCH64_MAGIC_OFFSET.
  destruct (Nat.ltb_spec (length payload) 64); [done|]. rewrite (proj2 (Nat.leb_le _ _)) by lia.
  case_bool_decide; [|done]. simplify_eq. done.
Qed.

(** A payload within the cap of its format. *)
Definition within_cap (f : ImageFormat) (payload : list Z) (cap : Z) : Prop :=
  match f with
  | Gzip | Zstd => zlen payload <= cap
  | _ => True
  end.

Definition payload_of (bytes : list Z) (f : ImageFormat) (cap : Z) : option (result LoaderError (list Z)) :=
  match f with
  | Aarch64Image | Pe => Some (Ok bytes)
  | Gzip => decompress_gzip bytes cap
  | Zstd => decompress_zstd bytes cap
  end.

Lemma read_to_end_exact r cap payload :
  0 <= cap -> bounded_read_to_end r cap = Some (Ok payload) <-> yields r payload /\ zlen payload <= cap.
Proof.
  intros Hc. pose proof (rounds_spec (cap + 1) ltac:(lia)). unfold bounded_read_to_end. rewrite iter_pow2_n. split.
  - destruct (iter_n _ _ _) as [s|res] eqn:E; [done|]. intros [= ->].
    apply read_yields in E as (rest & -> & Hy & Hl); done.
  - intros [Hy Hl]. rewrite (yields_read _ _ _ Hy); [done|unfold zlen in *; cbn [length] in *; lia..].
Qed.

Lemma read_to_end_total r cap : 0 <= cap -> is_Some (bounded_read_to_end r cap).
Proof.
  intros Hc. pose proof (rounds_spec (cap + 1) ltac:(lia)). unfold bounded_read_to_end. rewrite iter_pow2_n.
  destruct (read_total (2 ^ rounds (cap + 1)) r cap []) as [res ->]; [unfold zlen; cbn [length]; lia..|]. by eexists.
Qed.

Lemma payload_of_exact bytes f cap payload :
  0 <= cap -> payload_of bytes f cap = Some (Ok payload) <-> decoded bytes f payload /\ within_cap f payload cap.
Proof.
  intros Hc. destruct f; cbn [payload_of decoded within_cap];
    [split; [intros H; by simplify_eq|by intros [-> _]]..| |].
  - by apply read_to_end_exact.
  - unfold decompress_zstd. destruct (dec_zstd bytes) as [r|e].
    + rewrite read_to_end_exact by done. split; [intros [??]; split; [by exists r|done]|].
      intros [(r' & [= <-] & ?) ?]. done.
    + split; [done|intros [(r & ? & _) _]; done].
Qed.

Lemma payload_of_total bytes f cap : 0 <= cap -> is_Some (payload_of bytes f cap).
Proof.
  intros Hc.
  assert (Hr : forall r, is_Some (bounded_read_to_end r cap))
    by (intros r; apply read_to_end_total, Hc).
  destruct f; cbn [payload_of]; [by eexists..|apply Hr|].
  unfold decompress_zstd. destruct (dec_zstd bytes); [apply Hr|by eexists].
Qed.

Lemma load_payload bytes caps :
  load_from_bytes_with_caps bytes caps =
    if mx_compressed caps <? zlen bytes then Some (Err (CompressedTooLarge (zlen bytes) (mx_compressed caps)))
    else match detect_format bytes with
         | None => Some (Err UnknownFormat)
         | Some f => payload ← payload_of bytes f (mx_decompressed caps); Some (let? p := payload in parse_image f p)
         end.
Proof. done. Qed.

Lemma load_total bytes caps : 0 <= mx_decompressed caps -> is_Some (load_from_bytes_with_caps bytes caps).
Proof.
  intros Hc. rewrite load_payload. case_match; [by eexists|]. destruct (detect_format bytes) as [f|]; [|by eexists].
  destruct (payload_of_total bytes f _ Hc) as [r ->]. by eexists.
Qed.

Lemma load_ok_iff bytes caps k : 0 <= mx_decompressed caps ->
  load_from_bytes_with_caps bytes caps = Some (Ok k) <->
    zlen bytes <= mx_compressed caps /\
    exists f payload,
      detect_format bytes = Some f /\ decoded bytes f payload /\ within_cap f payload (mx_decompressed caps) /\
      image_ok payload /\
      k = mkKernel payload f (le_val (slice 8 8 payload)) (le_val (slice 16 8 payload)).
Proof.
  intros Hc. rewrite load_payload.
  destruct (Z.ltb_spec (mx_compressed caps) (zlen bytes)) as [Hl|Hl]; [split; [done|intros [? _]; lia]|].
  destruct (detect_format bytes) as [f|]; [|split; [done|intros (_ & f & p & ? & _); done]].
  destruct (payload_of_total bytes f _ Hc) as [r Hr]. rewrite Hr. cbn [mbind option_bind]. split.
  - destruct r as [p|e]; [|done]. intros [= Hp]. split; [done|]. exists f, p.
    apply payload_of_exact in Hr as [Hd Hw]; [|done].
    pose proof (parse_image_inv _ _ _ Hp) as Hi. rewrite (parse_image_ok f p Hi) in Hp. by simplify_eq.
  - intros (_ & f' & p & [= <-] & Hd & Hw & Hi & ->).
    rewrite (proj2 (payload_of_exact bytes f _ p Hc)) in Hr by done. simplify_eq. by rewrite (parse_image_ok f p Hi).
Qed.

(** C28: Loading terminates for every input and every decoder, and it succeeds exactly on the
    inputs within the compressed cap whose recognised format decodes, within the
    decompressed cap, to a payload of at least 64 bytes carrying the arm64 magic.  The
    kernel holds that payload and the two header words at offsets 8 and 16. *)
Theorem load_exact bytes caps (Hcap : 0 <= mx_decompressed caps) :
  is_Some (load_from_bytes_with_caps bytes caps) /\
  forall k, load_from_bytes_with_caps bytes caps = Some (Ok k) <->
    zlen bytes <= mx_compressed caps /\
    exists f payload,
      detect_format bytes = Some f /\ decoded bytes f payload /\ within_cap f payload (mx_decompressed caps) /\
      image_ok payload /\
      k = mkKernel payload f (le_val (slice 8 8 payload)) (le_val (slice 16 8 payload)).
Proof. split; [by apply load_total|]. intros k. by apply load_ok_iff. Qed.

(** A decoder that never ends is cut off within one buffer of the cap. *)
Lemma read_overrun `{!DecoderLaws R} k r cap out n c :
  iter_n k (read_step cap) (r, out) = inr (Err (DecompressedTooLarge n c)) -> zlen out <= cap ->
  c = cap /\ cap < n <= cap + 64 * 1024.
Proof.
  revert r out. induction k as [|k IH]; intros r out H Ho; cbn [iter_n read_step] in H; [done|].
  destruct (dec_read r READ_BUF) as [r' [chunk|e]] eqn:E; [|done]. destruct chunk as [|b chunk]; [done|].
  apply dec_read_bound in E. destruct (Z.ltb_spec cap (zlen out + zlen (b :: chunk))) as [Hlt|Hge].
  - injection H as <- <-. split; [done|]. split; [done|]. pose proof READ_BUF_val. unfold zlen in *. lia.
  - apply (IH _ _ H). unfold zlen in *. rewrite length_app. lia.
Qed.
End loading.

(** ** Fitting in guest memory *)

Definition lk_wf (k : LoadedKernel) : Prop := in_u 64 (lk_text_offset k) /\ in_u 64 (image_bytes k).

Lemma yields_bytes {R} `{!Decoders R, !DecoderLaws R} r payload : yields r payload -> bytes_ok payload.
Proof.
  induction 1 as [|r r' chunk rest E _ _ IH]; [constructor|].
  apply Forall_app. split; [by eapply dec_read_bytes|done].
Qed.

Lemma load_wf {R} `{!Decoders R, !DecoderLaws R} bytes k :
  bytes_ok bytes -> load_from_bytes bytes = Some (Ok k) -> lk_wf k /\ bytes_ok (lk_bytes k).
Proof.
  intros Hb H. apply load_ok_iff in H as (Hl & f & p & _ & Hd & Hw & Hi & ->); [|vm_compute; discriminate].
  assert (Hp : bytes_ok p).
  { destruct f; cbn in Hd; [by subst..| |destruct Hd as (? & _ & Hd)]; by eapply yields_bytes. }
  assert (Hlen : zlen p < 2 ^ 64).
  { destruct f; cbn in Hd, Hw; subst; cbn in Hl; unfold DEFAULT_MAX_COMPRESSED, DEFAULT_MAX_DECOMPRESSED in *; lia. }
  destruct Hi as [Hm _]. unfold MIN_IMAGE_SIZE in Hm.
  assert (Hu : forall off, (off + 8 <= 64)%nat -> in_u 64 (le_val (slice off 8 p))).
  { intros off Ho. pose proof (le_val_in_u (slice off 8 p)) as Hv. unfold zlen in Hv.
    rewrite slice_length in Hv by lia. apply Hv, slice_Forall, Hp. }
  split; [|done]. split; [apply Hu; lia|]. unfold image_bytes. cbn [lk_image_size lk_bytes].
  case_match; [unfold in_u, zlen in *; lia|apply Hu; lia].
Qed.

(** Where a kernel is placed. *)
Definition placed_at (k : LoadedKernel) : Z :=
  Layout.DRAM_BASE + Z.max (lk_text_offset k) Layout.KERNEL_LOAD_OFFSET.

(** [check_fits_in_ram] accepts exactly when memory ends within the layout and the claimed
    image ends within memory. *)
Lemma check_fits_exact k ram a :
  lk_wf k -> in_u 64 ram ->
  check_fits_in_ram k ram = Ok a <->
    a = placed_at k /\ Layout.DRAM_BASE + ram <= Layout.DRAM_MAX_END /\ a + image_bytes k <= Layout.DRAM_BASE + ram.
Proof.
  intros [Ht Hi] Hr.
  unfold check_fits_in_ram, load_address, placed_at, checked_add, in_u, Layout.DRAM_MAX_END, Layout.DRAM_BASE, Layout.KERNEL_LOAD_OFFSET in *.
  repeat (case_match; cbn [mbind option_bind] in *; simplify_eq/=);
    repeat match goal with
           | H : (_ <? _) = _ |- _ => first [apply Z.ltb_lt in H|apply Z.ltb_ge in H]
           | H : (_ <=? _) = _ |- _ => first [apply Z.leb_le in H|apply Z.leb_gt in H]
           end;
    split; intros; destruct_and?; simplify_eq; try (split_and!; lia); try (exfalso; lia); try done; try (f_equal; lia).
Qed.

(** ** A decoder of stored data *)

(** A decoder that drops a two-byte marker and streams what follows. *)
#[export] Instance stored_decoders : Decoders (list Z) := {
  dec_gzip := drop 2;
  dec_zstd bs := Ok (drop 4 bs);
  dec_read r n := (drop n r, Ok (map (fun b => b mod 256) (take n r)))
}.

#[export] Instance stored_laws : DecoderLaws (list Z).
Proof.
  split; intros r n r' bs [= <- <-].
  - rewrite length_map, length_take. lia.
  - apply Forall_fmap, Forall_true. intros b. cbn. unfold byte_ok. apply Z.mod_pos_bound. lia.
Qed.

(** A 64-byte image with the given text offset and image size. *)
Definition image_of (text_offset image_size : Z) : list Z :=
  replicate 8 0 ++ le_bytes 8 text_offset ++ le_bytes 8 image_size ++ replicate 32 0 ++
  MAGIC_AARCH64_IMAGE ++ replicate 4 0.

Definition tiny_image : list Z := image_of 0x80000 0x1000.

Lemma load_exact_witness :
  load_from_bytes (MAGIC_GZ ++ tiny_image) =
    Some (Ok (mkKernel tiny_image Gzip 0x80000 0x1000)).
Proof.
  apply (load_exact (MAGIC_GZ ++ tiny_image) MaxSizes_default ltac:(vm_compute; discriminate)).
  split; [vm_compute; discriminate|]. exists Gzip, tiny_image. split_and!.
  - vm_compute. reflexivity.
  - apply (read_to_end_exact (dec_gzip (MAGIC_GZ ++ tiny_image)) 80 tiny_image ltac:(lia)). vm_compute. reflexivity.
  - vm_compute. discriminate.
  - vm_compute. split; [repeat constructor|reflexivity].
  - vm_compute. reflexivity.
Defined.
