(* ===== verification/Replay.v ===== *)
(** * Replay: static configuration

    Models [src/crates/api/src/replay.rs] and [schemas/config_file.rs].  Replaying a file is
    one [task] with many dispatches; [run_alone] drives a task when nothing else talks to
    the controller, which is the situation at start-up.  The JSON parser is a class. *)

From stdpp Require Import base numbers list option gmap strings.
From Stdlib Require Import ZArith Lia.
From S2P Require Import Prelude Text Schemas Controller Api Loader.

Local Open Scope Z_scope.
Local Open Scope squib_scope.

(** ** The static configuration *)

Inductive SquibNetworkMode := NetShared | NetBridged | NetHost | NetUserspace.

Record SquibExtension := mkExtension {
  sx_network : option SquibNetworkMode;
  sx_vsock_tsi : bool;
  sx_gvproxy_path : option (list Z);
  sx_macos_sandbox_profile : option (list Z)
}.

Section replay.
Context `{J : SerdeJson}.

Record ConfigFile := mkConfigFile {
  cf_boot_source : option RawBootSourceConfig;
  cf_drives : list RawDriveConfig;
  cf_machine_config : option RawMachineConfig;
  cf_cpu_config : option RawCpuConfig;
  cf_network_interfaces : list RawNetworkInterfaceConfig;
  cf_vsock : option RawVsockConfig;
  cf_mmds_config : option RawMmdsConfig;
  cf_mmds : option JsonValue;
  cf_balloon : option RawBalloonConfig;
  cf_entropy : option RawEntropyConfig;
  cf_serial : option RawSerialConfig;
  cf_pmem : list RawPmemConfig;
  cf_hotplug_memory : option RawHotplugMemoryConfig;
  cf_logger : option RawLoggerConfig;
  cf_metrics : option RawMetricsConfig;
  cf_squib : SquibExtension
}.

(** [serde_json::Error] is known by its text. *)
Inductive ReplayError :=
  | ReplayIo (path : list Z) (source : Text.IoError)
  | ReplayParse (path source : list Z)
  | MissingBootSource
  | CollectionCap (field : list Z) (max : Z)
  | Validation (msg : list Z)
  | ReplayDispatch (label : list Z) (source : ApiError)
  | ReplayFault (label : list Z) (status : Z) (fault_message : list Z).

(** [serde_json::from_slice::<ConfigFile>]. *)
Class ConfigParser := parse_config : list Z -> result (list Z) ConfigFile.

Definition parse_config_file {Fs} `{!HostFs Fs, !ConfigParser} (fs : Fs) (path : list Z)
  : result ReplayError ConfigFile :=
  let? bytes := map_err (ReplayIo path) (fs_read fs path) in
  let? cfg := map_err (ReplayParse path) (parse_config bytes) in
  Ok cfg.

(** ** Replay *)

Definition task_map_err {E F A} (f : E -> F) (t : task (result E A)) : task (result F A) :=
  task_bind t (fun r => Done (map_err f r)).

Definition replay_dispatch (action : ApiAction) : task (result ReplayError unit) :=
  let label := action_label action in
  let~ resp := task_map_err (ReplayDispatch label) (dispatch action) in
  Done (match resp with
        | NoContent | Json _ => Ok tt
        | Fault status msg => Err (ReplayFault label status msg)
        end).

(** One entry: validate, then dispatch. *)
Definition replay_entry {Raw Cfg} (conv : Raw -> result (list Z) Cfg) (mk : Cfg -> ApiAction) (raw : Raw)
  : task (result ReplayError unit) :=
  let~ validated := Done (map_err Validation (conv raw)) in
  replay_dispatch (mk validated).

(** [if let Some(raw) = .. { .. }] and [for raw in .. { .. }]. *)
Definition if_some {A} (f : A -> task (result ReplayError unit)) (o : option A) : task (result ReplayError unit) :=
  match o with Some a => f a | None => Done (Ok tt) end.

Fixpoint for_each {A} (f : A -> task (result ReplayError unit)) (l : list A) : task (result ReplayError unit) :=
  match l with
  | [] => Done (Ok tt)
  | a :: l' => let~ _ := f a in for_each f l'
  end.

Definition replay_config (cfg : ConfigFile) (start_microvm : bool) : task (result ReplayError unit) :=
  match cf_boot_source cfg with
  | None => Done (Err MissingBootSource)
  | Some _ =>
      if MAX_DRIVES <? zlen (cf_drives cfg) then Done (Err (CollectionCap (lit "drives") MAX_DRIVES))
      else if MAX_NICS <? zlen (cf_network_interfaces cfg)
      then Done (Err (CollectionCap (lit "network-interfaces") MAX_NICS))
      else if MAX_PMEM <? zlen (cf_pmem cfg) then Done (Err (CollectionCap (lit "pmem") MAX_PMEM))
      else
        let~ _ := if_some (replay_entry MachineConfig_try_from PutMachineConfig) (cf_machine_config cfg) in
        let~ _ := if_some (replay_entry CpuConfig_try_from PutCpuConfig) (cf_cpu_config cfg) in
        let~ _ := if_some (replay_entry BootSourceConfig_try_from PutBootSource) (cf_boot_source cfg) in
        let~ _ := for_each (replay_entry DriveConfig_try_from PutDrive) (cf_drives cfg) in
        let~ _ := for_each (replay_entry NetworkInterfaceConfig_try_from PutNetwork) (cf_network_interfaces cfg) in
        let~ _ := if_some (replay_entry VsockConfig_try_from PutVsock) (cf_vsock cfg) in
        let~ _ := if_some (replay_entry MmdsConfig_try_from PutMmdsConfig) (cf_mmds_config cfg) in
        let~ _ := if_some (fun value => replay_dispatch (PutMmds (mkMmdsContents value))) (cf_mmds cfg) in
        let~ _ := if_some (replay_entry BalloonConfig_try_from PutBalloon) (cf_balloon cfg) in
        let~ _ := if_some (replay_entry EntropyConfig_try_from PutEntropy) (cf_entropy cfg) in
        let~ _ := if_some (replay_entry SerialConfig_try_from PutSerial) (cf_serial cfg) in
        let~ _ := for_each (replay_entry PmemConfig_try_from PutPmem) (cf_pmem cfg) in
        let~ _ := if_some (replay_entry HotplugMemoryConfig_try_from PutHotplugMemory) (cf_hotplug_memory cfg) in
        let~ _ := if_some (replay_entry LoggerConfig_try_from PutLogger) (cf_logger cfg) in
        let~ _ := if_some (replay_entry MetricsConfig_try_from PutMetrics) (cf_metrics cfg) in
        let~ _ := if start_microvm then replay_dispatch (Action InstanceStart) else Done (Ok tt) in
        Done (Ok tt)
  end.

(** ** A task that runs alone *)

(** What the environment decides: whether request [id] outlives its time budget, and
    what booting the gathered configuration gives. *)
Record Host := mkHost {
  h_late : nat -> bool;
  h_boot : BootState -> result (list Z) RunningVm
}.

(** One dispatch, from validation to reply, while nothing else uses the controller.  The
    loop serves a late request too, after its client has given up. *)
Definition alone (h : Host) (capacity : nat) (s : System) (a : ApiAction)
  : option (System * result ApiError ApiResponse) :=
  let id := sy_next s in
  let boots := Serve (h_boot h (vl_state (sy_loop s))) in
  r ← sys_run capacity s
        (match admit_action (sy_ctl s) a with
         | Err _ => [Request a]
         | Ok _ => if h_late h id then [Request a; Send id; Expire id; boots]
                   else [Request a; Send id; boots; Finish id]
         end);
  match r.2 with (_, reply) :: _ => Some (r.1, reply) | [] => None end.

(** [None]: some dispatch got no reply. *)
Fixpoint run_alone {A} (h : Host) (capacity : nat) (s : System) (t : task A) : option (System * A) :=
  match t with
  | Done a => Some (s, a)
  | Dispatch action k =>
      r ← alone h capacity s action;
      run_alone h capacity r.1 (k r.2)
  end.

(** ** What the file asks for *)

Fixpoint traverse {E A B} (f : A -> result E B) (l : list A) : result E (list B) :=
  match l with
  | [] => Ok []
  | a :: l' => let? b := f a in let? bs := traverse f l' in Ok (b :: bs)
  end.

Definition optional {E A B} (f : A -> result E B) (o : option A) : result E (option B) :=
  match o with Some a => let? b := f a in Ok (Some b) | None => Ok None end.

(** The file with every member validated. *)
Record Plan := mkPlan {
  p_machine : option MachineConfig;
  p_cpu : option CpuConfig;
  p_boot : option BootSourceConfig;
  p_drives : list DriveConfig;
  p_nics : list NetworkInterfaceConfig;
  p_vsock : option VsockConfig;
  p_mmds_config : option MmdsConfig;
  p_mmds : option JsonValue;
  p_balloon : option BalloonConfig;
  p_entropy : option EntropyConfig;
  p_serial : option SerialConfig;
  p_pmem : list PmemConfig;
  p_hotplug : option HotplugMemoryConfig;
  p_logger : option LoggerConfig;
  p_metrics : option MetricsConfig
}.

Definition validate_file (cfg : ConfigFile) : result (list Z) Plan :=
  let? machine := optional MachineConfig_try_from (cf_machine_config cfg) in
  let? cpu := optional CpuConfig_try_from (cf_cpu_config cfg) in
  let? boot := optional BootSourceConfig_try_from (cf_boot_source cfg) in
  let? drives := traverse DriveConfig_try_from (cf_drives cfg) in
  let? nics := traverse NetworkInterfaceConfig_try_from (cf_network_interfaces cfg) in
  let? vsock := optional VsockConfig_try_from (cf_vsock cfg) in
  let? mmds_config := optional MmdsConfig_try_from (cf_mmds_config cfg) in
  let? balloon := optional BalloonConfig_try_from (cf_balloon cfg) in
  let? entropy := optional EntropyConfig_try_from (cf_entropy cfg) in
  let? serial := optional SerialConfig_try_from (cf_serial cfg) in
  let? pmem := traverse PmemConfig_try_from (cf_pmem cfg) in
  let? hotplug := optional HotplugMemoryConfig_try_from (cf_hotplug_memory cfg) in
  let? logger := optional LoggerConfig_try_from (cf_logger cfg) in
  let? metrics := optional MetricsConfig_try_from (cf_metrics cfg) in
  Ok (mkPlan machine cpu boot drives nics vsock mmds_config (cf_mmds cfg) balloon entropy serial pmem
        hotplug logger metrics).

Definition of_option {A} (mk : A -> ApiAction) (o : option A) : list ApiAction :=
  match o with Some a => [mk a] | None => [] end.

(** The order the documentation fixes. *)
Definition plan_actions (p : Plan) : list ApiAction :=
  of_option PutMachineConfig (p_machine p) ++
  of_option PutCpuConfig (p_cpu p) ++
  of_option PutBootSource (p_boot p) ++
  map PutDrive (p_drives p) ++
  map PutNetwork (p_nics p) ++
  of_option PutVsock (p_vsock p) ++
  of_option PutMmdsConfig (p_mmds_config p) ++
  of_option (fun v => PutMmds (mkMmdsContents v)) (p_mmds p) ++
  of_option PutBalloon (p_balloon p) ++
  of_option PutEntropy (p_entropy p) ++
  of_option PutSerial (p_serial p) ++
  map PutPmem (p_pmem p) ++
  of_option PutHotplugMemory (p_hotplug p) ++
  of_option PutLogger (p_logger p) ++
  of_option PutMetrics (p_metrics p).

(** What the loop has gathered once the file is in: the last drive and interface win. *)
Definition plan_boot (p : Plan) : BootState :=
  mkBoot (p_boot p) (p_machine p) (last (p_drives p)) (last (p_nics p)) (p_vsock p).

Definition plan_limits (host : Z) (p : Plan) : LimitsState :=
  mkLimits host (mc_mem_size_mib <$> p_machine p) (zlen (p_drives p)) (zlen (p_nics p)) (zlen (p_pmem p)).

(** The script of the file: its entries in the documented order, validated or not. *)
Definition entry {Raw Cfg} (conv : Raw -> result (list Z) Cfg) (mk : Cfg -> ApiAction) (raw : Raw)
  : result (list Z) ApiAction :=
  let? c := conv raw in Ok (mk c).

Definition config_script (cfg : ConfigFile) : list (result (list Z) ApiAction) :=
  map (entry MachineConfig_try_from PutMachineConfig) (option_list (cf_machine_config cfg)) ++
  map (entry CpuConfig_try_from PutCpuConfig) (option_list (cf_cpu_config cfg)) ++
  map (entry BootSourceConfig_try_from PutBootSource) (option_list (cf_boot_source cfg)) ++
  map (entry DriveConfig_try_from PutDrive) (cf_drives cfg) ++
  map (entry NetworkInterfaceConfig_try_from PutNetwork) (cf_network_interfaces cfg) ++
  map (entry VsockConfig_try_from PutVsock) (option_list (cf_vsock cfg)) ++
  map (entry MmdsConfig_try_from PutMmdsConfig) (option_list (cf_mmds_config cfg)) ++
  map (fun v => Ok (PutMmds (mkMmdsContents v))) (option_list (cf_mmds cfg)) ++
  map (entry BalloonConfig_try_from PutBalloon) (option_list (cf_balloon cfg)) ++
  map (entry EntropyConfig_try_from PutEntropy) (option_list (cf_entropy cfg)) ++
  map (entry SerialConfig_try_from PutSerial) (option_list (cf_serial cfg)) ++
  map (entry PmemConfig_try_from PutPmem) (cf_pmem cfg) ++
  map (entry HotplugMemoryConfig_try_from PutHotplugMemory) (option_list (cf_hotplug_memory cfg)) ++
  map (entry LoggerConfig_try_from PutLogger) (option_list (cf_logger cfg)) ++
  map (entry MetricsConfig_try_from PutMetrics) (option_list (cf_metrics cfg)).

Definition start_script (start : bool) : list (result (list Z) ApiAction) :=
  if start then [Ok (Action InstanceStart)] else [].

Definition within_caps (cfg : ConfigFile) : Prop :=
  zlen (cf_drives cfg) <= MAX_DRIVES /\ zlen (cf_network_interfaces cfg) <= MAX_NICS /\ zlen (cf_pmem cfg) <= MAX_PMEM.

#[export] Instance within_caps_dec cfg : Decision (within_caps cfg).
Proof. unfold within_caps. apply _. Defined.

(** ** One request on a quiet controller *)

Record quiet (s : System) : Prop := mkQuiet {
  qu_alive : sy_alive s = true;
  qu_queue : sy_queue s = [];
  qu_clients : sy_clients s = ∅
}.

(** The effect of one request: refused, served late, or served. *)
Definition settle (h : Host) (s : System) (a : ApiAction) : System * result ApiError ApiResponse :=
  match admit_action (sy_ctl s) a with
  | Err e => (s, Err e)
  | Ok _ =>
      let out := serve (sy_ctl s) (sy_loop s) a (h_boot h (vl_state (sy_loop s))) in
      let f := finish_dispatch out.1.1.1 (action_class a) (kick_for_action a)
                 (if h_late h (sy_next s) then Elapsed else Responded out.1.2) in
      (mkSystem f.1 out.1.1.2 out.2 [] ∅ (S (sy_next s)), f.2)
  end.

Lemma alone_settle h capacity s a :
  (0 < capacity)%nat -> quiet s -> alone h capacity s a = Some (settle h s a).
Proof.
  intros Hc [Hal Hq Hcl]. unfold alone, settle. destruct s as [c l al q cl n]. cbn in *. subst.
  destruct capacity as [|cap]; [lia|].
  destruct (admit_action c a) as [[]|e] eqn:Had; [|by cbn; rewrite Had].
  destruct (h_late h n); cbn; rewrite Had; cbn; rewrite lookup_insert_eq; cbn.
  - rewrite lookup_insert_eq. cbn. rewrite insert_insert_eq, delete_insert_eq, delete_empty.
    destruct (serve c l a _) as [[[c' l'] r] []] eqn:Hs; cbn; unfold answer; by rewrite lookup_empty.
  - destruct (serve c l a _) as [[[c' l'] r] []] eqn:Hs; cbn; unfold answer;
      rewrite lookup_insert_eq; cbn; rewrite lookup_insert_eq; cbn;
      by rewrite !insert_insert_eq, delete_insert_eq, delete_empty.
Qed.

(** ** Scripts *)

(** Play a script on a quiet controller; the first failure ends it. *)
Fixpoint play (h : Host) (s : System) (script : list (result (list Z) ApiAction)) : System * result ReplayError unit :=
  match script with
  | [] => (s, Ok tt)
  | Err msg :: _ => (s, Err (Validation msg))
  | Ok a :: rest =>
      let r := settle h s a in
      match r.2 with
      | Err e => (r.1, Err (ReplayDispatch (action_label a) e))
      | Ok (Fault status msg) => (r.1, Err (ReplayFault (action_label a) status msg))
      | Ok _ => play h r.1 rest
      end
  end.

Definition calm (script : list (result (list Z) ApiAction)) : Prop := Forall (fun r => r <> Ok ActionShutdown) script.

Lemma settle_quiet h s a : a <> ActionShutdown -> quiet s -> quiet (settle h s a).1.
Proof.
  intros Ha Q. unfold settle. destruct (admit_action _ a); [|done].
  assert (Hgo : (serve (sy_ctl s) (sy_loop s) a (h_boot h (vl_state (sy_loop s)))).2 = true).
  { destruct_action a; try done; cbn [serve].
    - by destruct (bs_machine_config _).
    - by destruct (start_microvm _ _). }
  by constructor.
Qed.

Lemma play_quiet h script : forall s, calm script -> quiet s -> quiet (play h s script).1.
Proof.
  induction script as [|[a|msg] script IH]; intros s Hc Q; [done| |done].
  apply Forall_cons_iff in Hc as [Ha Hc]. cbn.
  assert (Hq : quiet (settle h s a).1) by (apply settle_quiet; [congruence|done]).
  destruct (settle h s a).2 as [[]|]; [by apply IH|by apply IH|done|done].
Qed.

Lemma play_app h l1 l2 : forall s,
  play h s (l1 ++ l2) =
  match (play h s l1).2 with Ok _ => play h (play h s l1).1 l2 | Err e => ((play h s l1).1, Err e) end.
Proof.
  induction l1 as [|[a|msg] l1 IH]; intros s; [done| |done]. cbn.
  destruct (settle h s a).2 as [[]|]; [by rewrite IH|by rewrite IH|done|done].
Qed.

Lemma run_alone_bind {A B} h capacity (t : task A) (f : A -> task B) : forall s,
  run_alone h capacity s (task_bind t f) =
  (r ← run_alone h capacity s t; run_alone h capacity r.1 (f r.2)).
Proof.
  induction t as [a|a k IH]; intros s; [done|]. cbn.
  destruct (alone h capacity s a) as [r|]; cbn; [apply IH|done].
Qed.

(** A task that plays a script. *)
Definition plays (h : Host) (capacity : nat) (t : task (result ReplayError unit))
    (script : list (result (list Z) ApiAction)) : Prop :=
  calm script /\ forall s, quiet s -> run_alone h capacity s t = Some (play h s script).

Lemma plays_done h capacity : plays h capacity (Done (Ok tt)) [].
Proof. by split; [constructor|]. Qed.

Lemma plays_then h capacity t u l1 l2 :
  plays h capacity t l1 -> plays h capacity u l2 ->
  plays h capacity (try_bind t (fun _ => u)) (l1 ++ l2).
Proof.
  intros [C1 H1] [C2 H2]. split; [by apply Forall_app|]. intros s Q. unfold try_bind.
  rewrite run_alone_bind, H1 by done. cbn. rewrite play_app.
  destruct (play h s l1).2 as [[]|e] eqn:Hp; [|done]. apply H2. by apply play_quiet.
Qed.

Lemma plays_dispatch h capacity a :
  (0 < capacity)%nat -> a <> ActionShutdown -> plays h capacity (replay_dispatch a) [Ok a].
Proof.
  intros Hc Ha. split; [by repeat constructor; congruence|]. intros s Q. cbn.
  rewrite alone_settle by done. cbn. by destruct (settle h s a).2 as [[]|].
Qed.

Lemma plays_entry h capacity {Raw Cfg} (conv : Raw -> result (list Z) Cfg) mk raw :
  (0 < capacity)%nat -> (forall c, mk c <> ActionShutdown) ->
  plays h capacity (replay_entry conv mk raw) [entry conv mk raw].
Proof.
  intros Hc Hm. unfold replay_entry, entry. destruct (conv raw) as [c|msg]; cbn.
  - by apply plays_dispatch.
  - split; [by repeat constructor|done].
Qed.

Lemma plays_some h capacity {A} (f : A -> task (result ReplayError unit)) g o :
  (forall a, plays h capacity (f a) [g a]) -> plays h capacity (if_some f o) (map g (option_list o)).
Proof. intros H. destruct o; [apply H|apply plays_done]. Qed.

Lemma plays_each h capacity {A} (f : A -> task (result ReplayError unit)) g l :
  (forall a, plays h capacity (f a) [g a]) -> plays h capacity (for_each f l) (map g l).
Proof.
  intros H. induction l as [|a l IH]; [apply plays_done|]. by apply (plays_then _ _ _ _ [g a]).
Qed.

(** The whole replay plays the script of the file. *)
Lemma replay_plays h capacity cfg start :
  (0 < capacity)%nat -> is_Some (cf_boot_source cfg) -> within_caps cfg ->
  plays h capacity (replay_config cfg start) (config_script cfg ++ start_script start).
Proof.
  intros Hc [b Hb] (Hd & Hn & Hp). unfold replay_config. rewrite Hb.
  rewrite (proj2 (Z.ltb_ge _ _) Hd), (proj2 (Z.ltb_ge _ _) Hn), (proj2 (Z.ltb_ge _ _) Hp), <- Hb.
  unfold config_script. rewrite <- !(assoc_L (++)).
  repeat (apply plays_then;
    [first [apply plays_some; intros; apply plays_entry; done
           |apply plays_each; intros; apply plays_entry; done
           |apply plays_some; intros; apply plays_dispatch; done]|]).
  rewrite <- (app_nil_r (start_script start)). apply plays_then; [|apply plays_done].
  destruct start; [by apply plays_dispatch|apply plays_done].
Qed.

(** ** When a script succeeds *)

(** A controller before boot whose loop has gathered [b], with limits [g] and [n]
    requests behind it. *)
Definition gathered (snap : ControllerSnapshot) (t : TimeoutTable) (b : BootState) (g : LimitsState) (n : nat) : System :=
  mkSystem (mkController snap t g) (mkVmmLoop b None []) true [] ∅ n.

(** The PUTs a file can ask for. *)
Definition is_config (a : ApiAction) : bool :=
  match a with
  | PutMachineConfig _ | PutCpuConfig _ | PutBootSource _ | PutDrive _ | PutNetwork _ | PutVsock _
  | PutMmdsConfig _ | PutMmds _ | PutBalloon _ | PutEntropy _ | PutSerial _ | PutPmem _
  | PutHotplugMemory _ | PutLogger _ | PutMetrics _ => true
  | _ => false
  end.

Definition absorb (b : BootState) (a : ApiAction) : BootState :=
  match a with
  | PutBootSource x => mkBoot (Some x) (bs_machine_config b) (bs_drive b) (bs_net b) (bs_vsock b)
  | PutMachineConfig x => mkBoot (bs_boot_source b) (Some x) (bs_drive b) (bs_net b) (bs_vsock b)
  | PutDrive x => mkBoot (bs_boot_source b) (bs_machine_config b) (Some x) (bs_net b) (bs_vsock b)
  | PutNetwork x => mkBoot (bs_boot_source b) (bs_machine_config b) (bs_drive b) (Some x) (bs_vsock b)
  | PutVsock x => mkBoot (bs_boot_source b) (bs_machine_config b) (bs_drive b) (bs_net b) (Some x)
  | _ => b
  end.

Fixpoint admit_all (g : LimitsState) (acts : list ApiAction) : option LimitsState :=
  match acts with
  | [] => Some g
  | a :: acts' =>
      match validate_cross_field g a with
      | Ok _ => admit_all (kick_apply (kick_for_action a) g) acts'
      | Err _ => None
      end
  end.

Definition on_time (h : Host) (n len : nat) : Prop := forall i, (i < len)%nat -> h_late h (n + i) = false.

Lemma on_time_S h n len : on_time h n (S len) <-> h_late h n = false /\ on_time h (S n) len.
Proof.
  split.
  - intros H. split; [rewrite <- (Nat.add_0_r n); apply H; lia|].
    intros i Hi. rewrite Nat.add_succ_l, <- Nat.add_succ_r. apply H. lia.
  - intros [H0 H] [|i] Hi; [by rewrite Nat.add_0_r|]. rewrite Nat.add_succ_r, <- Nat.add_succ_l. apply H. lia.
Qed.

Lemma settle_config h snap t b g n a :
  phase_is_pre_boot (cs_phase snap) = true -> cs_phase snap <> Starting -> is_config a = true ->
  settle h (gathered snap t b g n) a =
  match validate_cross_field g a with
  | Err e => (gathered snap t b g n, Err e)
  | Ok _ =>
      if h_late h n then (gathered snap t (absorb b a) g (S n), Err (ApiTimeout (class_label ClassPreBootConfig)))
      else (gathered snap t (absorb b a) (kick_apply (kick_for_action a) g) (S n), Ok NoContent)
  end.
Proof.
  intros Hp Hs Ha. unfold settle, admit_action.
  assert (Hph : validate_phase (cs_phase snap) a = Ok tt).
  { destruct_action a; try done; by destruct (cs_phase snap). }
  cbn [gathered sy_ctl snapshot]. rewrite Hph. cbn [limits].
  destruct (validate_cross_field g a) as [[]|e]; [|done].
  cbn [sy_next gathered]. destruct_action a; try done; by destruct (h_late h n).
Qed.

Definition all_config (acts : list ApiAction) : Prop := Forall (fun a => is_config a = true) acts.

Lemma play_config_ok h snap t acts :
  phase_is_pre_boot (cs_phase snap) = true -> cs_phase snap <> Starting -> forall b g n s',
  all_config acts ->
  play h (gathered snap t b g n) (map Ok acts) = (s', Ok tt) <->
  exists g', admit_all g acts = Some g' /\ on_time h n (length acts) /\
    s' = gathered snap t (foldl absorb b acts) g' (n + length acts).
Proof.
  intros Hp Hs. induction acts as [|a acts IH]; intros b g n s' Hc; cbn.
  { rewrite Nat.add_0_r. split; [intros [= <-]|by intros (? & [= <-] & _ & ->)].
    exists g. split; [done|]. split; [|done]. intros i Hi. lia. }
  apply Forall_cons_iff in Hc as [Ha Hc]. rewrite settle_config by done.
  setoid_rewrite on_time_S. rewrite Nat.add_succ_r, <- Nat.add_succ_l.
  destruct (validate_cross_field g a) as [[]|e]; cbn.
  - destruct (h_late h n); cbn; [split; [done|]|].
    + by intros (? & _ & [? _] & _).
    + rewrite IH by done. split; intros (g' & Hg & Ht & ->); exists g'; [done|]. by destruct Ht.
  - split; [done|]. by intros (? & ? & _).
Qed.

(** Validation failures end a script that is otherwise accepted. *)
Lemma play_script_ok h script : forall s s',
  play h s script = (s', Ok tt) <->
  exists acts, traverse id script = Ok acts /\ play h s (map Ok acts) = (s', Ok tt).
Proof.
  induction script as [|[a|msg] script IH]; intros s s'; cbn.
  - split; [intros H; by exists []|]. by intros (? & [= <-] & ?).
  - destruct (settle h s a).2 as [[]|] eqn:Hr; try rewrite IH;
      (split;
       [try done; intros (acts & Ht & Hp); exists (a :: acts); rewrite Ht; cbn; by rewrite Hr
       |intros (acts & Ht & Hp); destruct (traverse id script) as [acts'|]; [|done];
        injection Ht as <-; cbn in Hp; rewrite Hr in Hp; try done; eauto]).
  - split; [done|]. by intros (? & ? & _).
Qed.

(** *** The validated script of a file is its plan *)

Lemma traverse_app {E A B} (f : A -> result E B) l1 l2 :
  traverse f (l1 ++ l2) = (let? a := traverse f l1 in let? b := traverse f l2 in Ok (a ++ b)).
Proof.
  induction l1 as [|x l1 IH]; cbn; [by destruct (traverse f l2)|]. rewrite IH.
  destruct (f x); [|done]. destruct (traverse f l1); [|done]. by destruct (traverse f l2).
Qed.

Lemma traverse_entries {Raw Cfg} (conv : Raw -> result (list Z) Cfg) mk l :
  traverse id (map (entry conv mk) l) = (let? cs := traverse conv l in Ok (map mk cs)).
Proof.
  induction l as [|x l IH]; cbn; [done|]. rewrite IH. unfold entry.
  destruct (conv x); cbn; [|done]. by destruct (traverse conv l).
Qed.

Lemma traverse_entry {Raw Cfg} (conv : Raw -> result (list Z) Cfg) mk o :
  traverse id (map (entry conv mk) (option_list o)) = (let? c := optional conv o in Ok (of_option mk c)).
Proof. destruct o as [x|]; cbn; [|done]. unfold entry. by destruct (conv x). Qed.

Lemma traverse_values {E A} (mk : A -> ApiAction) o :
  traverse (E := E) id (map (fun v => Ok (mk v)) (option_list o)) = Ok (of_option mk o).
Proof. by destruct o. Qed.

Lemma script_plan cfg :
  traverse id (config_script cfg) = (let? p := validate_file cfg in Ok (plan_actions p)).
Proof.
  unfold config_script, validate_file. rewrite !traverse_app, !traverse_entry, !traverse_entries, traverse_values.
  repeat match goal with |- context [match match ?c with Ok _ => _ | Err _ => _ end with Ok _ => _ | Err _ => _ end] =>
    first [destruct (optional _ _)|destruct (traverse _ _)] end; try done.
Qed.

(** *** What the plan does to the loop and the limits *)

Lemma admit_all_app acts1 acts2 : forall g,
  admit_all g (acts1 ++ acts2) = (g' ← admit_all g acts1; admit_all g' acts2).
Proof.
  induction acts1 as [|a acts1 IH]; intros g; [done|]. cbn.
  destruct (validate_cross_field g a); [apply IH|done].
Qed.

(** Actions the limits neither restrict nor count. *)
Definition free (a : ApiAction) : Prop :=
  kick_for_action a = KickNone /\ forall g, validate_cross_field g a = Ok tt.

Lemma admit_free acts g : Forall free acts -> admit_all g acts = Some g.
Proof.
  induction 1 as [|a acts [Hk Hv] _ IH]; [done|]. cbn. by rewrite Hv, Hk.
Qed.

Lemma option_free {A} (mk : A -> ApiAction) o : (forall a, free (mk a)) -> Forall free (of_option mk o).
Proof. intros H. destruct o; [constructor; [apply H|constructor]|constructor]. Qed.

Definition add_drives n g := mkLimits (host_ram_mib g) (mem_size_mib g) (running_drives g + n) (running_nics g) (running_pmem g).
Definition add_nics n g := mkLimits (host_ram_mib g) (mem_size_mib g) (running_drives g) (running_nics g + n) (running_pmem g).
Definition add_pmem n g := mkLimits (host_ram_mib g) (mem_size_mib g) (running_drives g) (running_nics g) (running_pmem g + n).

(** Devices below their cap are all counted. *)
Lemma admit_devices {A} (mk : A -> ApiAction) (add : Z -> LimitsState -> LimitsState) (count : LimitsState -> Z) cap l :
  (forall g a, 0 <= count g < cap ->
     validate_cross_field g (mk a) = Ok tt /\ kick_apply (kick_for_action (mk a)) g = add 1 g) ->
  (forall g n m, add n (add m g) = add (m + n) g) -> (forall g, add 0 g = g) ->
  (forall g n, count (add n g) = count g + n) ->
  forall g, 0 <= count g -> count g + zlen l <= cap -> admit_all g (map mk l) = Some (add (zlen l) g).
Proof.
  intros Hone Hadd H0 Hc. induction l as [|a l IH]; intros g Hg Hl; cbn [map admit_all]; [by rewrite H0|].
  unfold zlen in *. cbn [length] in *.
  destruct (Hone g a) as [-> ->]; [lia|]. rewrite IH by (rewrite Hc; lia). rewrite Hadd. do 2 f_equal. lia.
Qed.

Lemma absorb_drives l : forall bo m d n v,
  foldl absorb (mkBoot bo m d n v) (map PutDrive l) = mkBoot bo m (from_option Some d (last l)) n v.
Proof. induction l as [|a l IH]; intros; [done|]. cbn [map foldl absorb]. rewrite IH, last_cons. by destruct (last l). Qed.

Lemma absorb_nics l : forall bo m d n v,
  foldl absorb (mkBoot bo m d n v) (map PutNetwork l) = mkBoot bo m d (from_option Some n (last l)) v.
Proof. induction l as [|a l IH]; intros; [done|]. cbn [map foldl absorb]. rewrite IH, last_cons. by destruct (last l). Qed.

Lemma absorb_options bo m d n v :
  (forall o, foldl absorb (mkBoot bo m d n v) (of_option PutBootSource o) = mkBoot (from_option Some bo o) m d n v) /\
  (forall o, foldl absorb (mkBoot bo m d n v) (of_option PutMachineConfig o) = mkBoot bo (from_option Some m o) d n v) /\
  (forall o, foldl absorb (mkBoot bo m d n v) (of_option PutVsock o) = mkBoot bo m d n (from_option Some v o)).
Proof. split_and!; by intros []. Qed.

Lemma absorb_none acts b : Forall (fun a => forall b, absorb b a = b) acts -> foldl absorb b acts = b.
Proof. induction 1 as [|a acts H _ IH]; [done|]. cbn. by rewrite H. Qed.

Lemma option_same {A} (mk : A -> ApiAction) o b :
  (forall b a, absorb b (mk a) = b) -> foldl absorb b (of_option mk o) = b.
Proof. intros H. destruct o; [apply H|done]. Qed.

Lemma map_same {A} (mk : A -> ApiAction) l b :
  (forall b a, absorb b (mk a) = b) -> foldl absorb b (map mk l) = b.
Proof. intros H. induction l as [|a l IH]; [done|]. cbn. by rewrite H. Qed.

Lemma from_option_Some {A} (o : option A) : from_option Some None o = o.
Proof. by destruct o. Qed.

Lemma plan_absorb p : foldl absorb BootState_default (plan_actions p) = plan_boot p.
Proof.
  unfold plan_actions, plan_boot, BootState_default. rewrite !foldl_app.
  rewrite (proj1 (proj2 (absorb_options _ _ _ _ _))), (option_same PutCpuConfig), (proj1 (absorb_options _ _ _ _ _)) by done.
  rewrite absorb_drives, absorb_nics, (proj2 (proj2 (absorb_options _ _ _ _ _))).
  rewrite (map_same PutPmem) by (intros; apply eq_refl). rewrite !option_same by done.
  by rewrite !from_option_Some.
Qed.

(** The memory fits the host, and the balloon the memory. *)
Definition plan_fits (host : Z) (p : Plan) : Prop :=
  (forall m, p_machine p = Some m -> mc_mem_size_mib m <= host) /\
  (forall m b, p_machine p = Some m -> p_balloon p = Some b ->
     bc_amount_mib b <= saturating_sub (mc_mem_size_mib m) 32).

Definition plan_within_caps (p : Plan) : Prop :=
  zlen (p_drives p) <= MAX_DRIVES /\ zlen (p_nics p) <= MAX_NICS /\ zlen (p_pmem p) <= MAX_PMEM.

Lemma admit_machine host o :
  admit_all (from_host_ram_mib host) (of_option PutMachineConfig o) =
  match o with
  | Some m => if host <? mc_mem_size_mib m then None else Some (mkLimits host (Some (mc_mem_size_mib m)) 0 0 0)
  | None => Some (from_host_ram_mib host)
  end.
Proof. destruct o as [m|]; [|done]. cbn. by destruct (host <? mc_mem_size_mib m). Qed.

Lemma admit_balloon g o rest :
  admit_all g (of_option PutBalloon o ++ rest) =
  if forallb (fun b => forallb (fun m => bc_amount_mib b <=? saturating_sub m 32) (option_list (mem_size_mib g)))
       (option_list o)
  then admit_all g rest else None.
Proof.
  destruct o as [b|]; [|done]. cbn. unfold cross_check_balloon. destruct (mem_size_mib g) as [m|]; cbn; [|done].
  rewrite Z.ltb_antisym, !andb_true_r. by destruct (_ <=? _).
Qed.

Lemma admit_free_then acts rest g : Forall free acts -> admit_all g (acts ++ rest) = admit_all g rest.
Proof. intros H. rewrite admit_all_app. by rewrite admit_free. Qed.

Lemma sat_add_1 a cap : 0 <= a < cap -> cap <= 8 -> u32_saturating_add a 1 = a + 1.
Proof. unfold u32_saturating_add. lia. Qed.

Lemma admit_drives l rest g :
  0 <= running_drives g -> running_drives g + zlen l <= MAX_DRIVES ->
  admit_all g (map PutDrive l ++ rest) = admit_all (add_drives (zlen l) g) rest.
Proof.
  intros. rewrite admit_all_app. rewrite (admit_devices PutDrive add_drives running_drives MAX_DRIVES); try done.
  - intros g' a Hg. cbn. rewrite (proj2 (Z.leb_gt _ _)) by lia. by rewrite (sat_add_1 _ MAX_DRIVES).
  - intros g' n m. unfold add_drives. cbn. f_equal. lia.
  - intros []. unfold add_drives. cbn. f_equal. lia.
Qed.

Lemma admit_nics l rest g :
  0 <= running_nics g -> running_nics g + zlen l <= MAX_NICS ->
  admit_all g (map PutNetwork l ++ rest) = admit_all (add_nics (zlen l) g) rest.
Proof.
  intros. rewrite admit_all_app. rewrite (admit_devices PutNetwork add_nics running_nics MAX_NICS); try done.
  - intros g' a Hg. cbn. rewrite (proj2 (Z.leb_gt _ _)) by lia. by rewrite (sat_add_1 _ MAX_NICS).
  - intros g' n m. unfold add_nics. cbn. f_equal. lia.
  - intros []. unfold add_nics. cbn. f_equal. lia.
Qed.

Lemma admit_pmems l rest g :
  0 <= running_pmem g -> running_pmem g + zlen l <= MAX_PMEM ->
  admit_all g (map PutPmem l ++ rest) = admit_all (add_pmem (zlen l) g) rest.
Proof.
  intros. rewrite admit_all_app. rewrite (admit_devices PutPmem add_pmem running_pmem MAX_PMEM); try done.
  - intros g' a Hg. cbn. rewrite (proj2 (Z.leb_gt _ _)) by lia. by rewrite (sat_add_1 _ MAX_PMEM).
  - intros g' n m. unfold add_pmem. cbn. f_equal. lia.
  - intros []. unfold add_pmem. cbn. f_equal. lia.
Qed.

Lemma admit_rest p g : 0 <= running_pmem g -> running_pmem g + zlen (p_pmem p) <= MAX_PMEM ->
  admit_all g
    (of_option PutEntropy (p_entropy p) ++ of_option PutSerial (p_serial p) ++ map PutPmem (p_pmem p) ++
     of_option PutHotplugMemory (p_hotplug p) ++ of_option PutLogger (p_logger p) ++ of_option PutMetrics (p_metrics p)) =
  Some (add_pmem (zlen (p_pmem p)) g).
Proof.
  intros. rewrite !admit_free_then by (by apply option_free). rewrite admit_pmems by done.
  rewrite !admit_free_then by (by apply option_free). by apply admit_free, option_free.
Qed.

Lemma plan_admit host p g :
  plan_within_caps p ->
  admit_all (from_host_ram_mib host) (plan_actions p) = Some g <-> plan_fits host p /\ g = plan_limits host p.
Proof.
  intros (Hd & Hn & Hp). unfold plan_actions. rewrite admit_all_app, admit_machine. unfold plan_fits, plan_limits.
  destruct (p_machine p) as [m|] eqn:Hm; cbn [mbind option_bind];
    [destruct (Z.ltb_spec host (mc_mem_size_mib m)) as [Hbig|Hfit]|]; cbn [mbind option_bind].
  - split; [done|]. intros [[Hmem _] _]. specialize (Hmem m eq_refl). lia.
  - rewrite !admit_free_then by (by apply option_free).
    rewrite admit_drives, admit_nics by (cbn; lia). rewrite !admit_free_then by (by apply option_free).
    rewrite admit_balloon. cbn [add_drives add_nics mem_size_mib option_list forallb]. rewrite admit_rest by (cbn; lia).
    destruct (p_balloon p) as [b|]; cbn; rewrite ?andb_true_r.
    + destruct (Z.leb_spec (bc_amount_mib b) (saturating_sub (mc_mem_size_mib m) 32)).
      * split; [intros [= <-]; split; [by split; [intros ? [= <-]|intros ?? [= <-] [= <-]]|done]|by intros [_ ->]].
      * split; [done|]. intros [[_ Hb] _]. specialize (Hb m b eq_refl eq_refl). lia.
    + split; [intros [= <-]; split; [by split; [intros ? [= <-]|intros ?? _ [=]]|done]|by intros [_ ->]].
  - rewrite !admit_free_then by (by apply option_free).
    rewrite admit_drives, admit_nics by (cbn; lia). rewrite !admit_free_then by (by apply option_free).
    rewrite admit_balloon. cbn [add_drives add_nics mem_size_mib from_host_ram_mib option_list forallb]. rewrite admit_rest by (cbn; lia).
    destruct (p_balloon p) as [b|]; cbn;
      (split; [intros [= <-]; split; [by split; [intros ? [=]|intros ?? [=]]|done]|by intros [_ ->]]).
Qed.

Lemma plan_config p : all_config (plan_actions p).
Proof.
  unfold plan_actions, all_config.
  repeat apply Forall_app_2; first [by apply Forall_map, Forall_true|by destruct (_ p); repeat constructor].
Qed.

Lemma traverse_zlen {E A B} (f : A -> result E B) l bs : traverse f l = Ok bs -> zlen bs = zlen l.
Proof.
  revert bs. unfold zlen. induction l as [|a l IH]; intros bs H; cbn in H; [by injection H as <-|].
  destruct (f a); [|done]. destruct (traverse f l) as [bs'|]; [|done]. injection H as <-. cbn.
  specialize (IH bs' eq_refl). lia.
Qed.

Lemma validate_file_inv cfg p :
  validate_file cfg = Ok p ->
  optional BootSourceConfig_try_from (cf_boot_source cfg) = Ok (p_boot p) /\
  optional MachineConfig_try_from (cf_machine_config cfg) = Ok (p_machine p) /\
  zlen (p_drives p) = zlen (cf_drives cfg) /\ zlen (p_nics p) = zlen (cf_network_interfaces cfg) /\
  zlen (p_pmem p) = zlen (cf_pmem cfg).
Proof.
  unfold validate_file. intros H.
  repeat match type of H with match ?c with Ok _ => _ | Err _ => _ end = _ => let E := fresh "E" in destruct c eqn:E; [|done] end.
  injection H as <-. cbn. split; [done|]. split; [done|]. by split; [eapply traverse_zlen|split; eapply traverse_zlen].
Qed.

Lemma over_caps h capacity s cfg start :
  is_Some (cf_boot_source cfg) -> ~ within_caps cfg ->
  exists e, run_alone h capacity s (replay_config cfg start) = Some (s, Err e).
Proof.
  intros [b Hb] Hw. unfold replay_config. rewrite Hb.
  destruct (Z.ltb_spec MAX_DRIVES (zlen (cf_drives cfg))); [by eexists|].
  destruct (Z.ltb_spec MAX_NICS (zlen (cf_network_interfaces cfg))); [by eexists|].
  destruct (Z.ltb_spec MAX_PMEM (zlen (cf_pmem cfg))); [by eexists|]. by destruct Hw.
Qed.

(** Replay always ends, and leaves the controller quiet. *)
Lemma replay_total h capacity s cfg start :
  (0 < capacity)%nat -> quiet s ->
  exists s' r, run_alone h capacity s (replay_config cfg start) = Some (s', r) /\ quiet s'.
Proof.
  intros Hc Q. destruct (decide (is_Some (cf_boot_source cfg))) as [Hb|Hb]; cycle 1.
  { apply eq_None_not_Some in Hb. exists s, (Err MissingBootSource). unfold replay_config. by rewrite Hb. }
  destruct (decide (within_caps cfg)) as [Hw|Hw].
  - destruct (replay_plays h capacity cfg start Hc Hb Hw) as [Hcalm Hrun]. rewrite Hrun by done.
    destruct (play h s _) as [s' r] eqn:Hp. exists s', r. split; [done|].
    change s' with (s', r).1. rewrite <- Hp. by apply play_quiet.
  - destruct (over_caps h capacity s cfg start Hb Hw) as (e & He). eauto.
Qed.

(** Booting from a gathered configuration. *)
Lemma play_start_ok h snap t b g n s' :
  phase_is_pre_boot (cs_phase snap) = true -> cs_phase snap <> Starting -> is_Some (bs_boot_source b) ->
  play h (gathered snap t b g n) [Ok (Action InstanceStart)] = (s', Ok tt) <->
  h_late h n = false /\ is_Some (bs_machine_config b) /\
  exists vm, h_boot h b = Ok vm /\
    s' = mkSystem (mkController (mark_running snap) t g) (mkVmmLoop b (Some vm) []) true [] ∅ (S n).
Proof.
  intros Hp Hs [bo Hb]. unfold play, settle, admit_action. cbn [gathered sy_ctl snapshot].
  assert (Hph : validate_phase (cs_phase snap) (Action InstanceStart) = Ok tt) by (by destruct (cs_phase snap)).
  rewrite Hph. cbn. unfold start_microvm. rewrite Hb.
  destruct (bs_machine_config b) as [m|]; cbn.
  - destruct (h_boot h b) as [vm|e] eqn:Hv; cbn; destruct (h_late h n); cbn.
    + split; [done|]. by intros [? _].
    + split; [intros [= <-]; eauto 10|]. by intros (_ & _ & ? & [= <-] & ->).
    + split; [done|]. by intros [? _].
    + split; [done|]. by intros (_ & _ & ? & ? & _).
  - destruct (h_late h n); cbn; (split; [done|]; by intros (_ & [? ?] & _)).
Qed.

Definition start_len (start : bool) : nat := if start then 1 else 0.

(** The configuration a file with plan [p] leaves behind on a fresh controller. *)
Definition replayed (snap : ControllerSnapshot) (t : TimeoutTable) (host : Z) (p : Plan) (vm : option RunningVm) : System :=
  mkSystem (mkController (match vm with Some _ => mark_running snap | None => snap end) t (plan_limits host p))
    (mkVmmLoop (plan_boot p) vm []) true [] ∅ (length (plan_actions p) + start_len (bool_decide (is_Some vm))).

Definition boots (h : Host) (start : bool) (p : Plan) (vm : option RunningVm) : Prop :=
  if start then is_Some (p_machine p) /\ exists v, vm = Some v /\ h_boot h (plan_boot p) = Ok v else vm = None.

Lemma play_plan_ok h snap t host cfg s' :
  phase_is_pre_boot (cs_phase snap) = true -> cs_phase snap <> Starting -> within_caps cfg ->
  play h (gathered snap t BootState_default (from_host_ram_mib host) 0) (config_script cfg) = (s', Ok tt) <->
  exists p, validate_file cfg = Ok p /\ plan_fits host p /\ on_time h 0 (length (plan_actions p)) /\
    s' = gathered snap t (plan_boot p) (plan_limits host p) (length (plan_actions p)).
Proof.
  intros Hp Hs Hc. rewrite play_script_ok, script_plan. destruct (validate_file cfg) as [p|e] eqn:Hv.
  - assert (plan_within_caps p) as Hw.
    { destruct (validate_file_inv _ _ Hv) as (_ & _ & Hd & Hn & Hm). unfold plan_within_caps. by rewrite Hd, Hn, Hm. }
    split.
    + intros (acts & [= <-] & H). apply play_config_ok in H as (g & Ha & Ht & ->); [|done|done|apply plan_config].
      apply plan_admit in Ha as [Hf ->]; [|done]. exists p. rewrite plan_absorb. done.
    + intros (? & [= <-] & Hf & Ht & ->). exists (plan_actions p). split; [done|].
      apply play_config_ok; [done|done|apply plan_config|]. exists (plan_limits host p). rewrite plan_absorb.
      split; [by apply plan_admit|done].
  - split; [by intros (? & ? & _)|by intros (? & ? & _)].
Qed.

Lemma on_time_snoc h n len : on_time h n (len + 1) <-> on_time h n len /\ h_late h (n + len) = false.
Proof.
  split.
  - intros H. split; [intros i Hi; apply H; lia|apply H; lia].
  - intros [H Hl] i Hi. destruct (decide (i = len)) as [->|]; [done|]. apply H. lia.
Qed.

Lemma play_file_ok h id fc vmm t host cfg start s' :
  is_Some (cf_boot_source cfg) -> within_caps cfg ->
  play h (sys_init id fc vmm t (from_host_ram_mib host)) (config_script cfg ++ start_script start) = (s', Ok tt) <->
  exists p vm, validate_file cfg = Ok p /\ plan_fits host p /\
    on_time h 0 (length (plan_actions p) + start_len start) /\ boots h start p vm /\
    s' = replayed (Snapshot_new id fc vmm) t host p vm.
Proof.
  intros Hb Hc. change (sys_init id fc vmm t (from_host_ram_mib host)) with
    (gathered (Snapshot_new id fc vmm) t BootState_default (from_host_ram_mib host) 0).
  rewrite play_app. destruct (play h _ (config_script cfg)) as [s1 [[]|e]] eqn:Hplay; cbn [fst snd].
  - apply play_plan_ok in Hplay as (p & Hv & Hf & Ht & ->); [|done|done|done].
    assert (is_Some (bs_boot_source (plan_boot p))) as Hbo.
    { destruct (validate_file_inv _ _ Hv) as (Ho & _). destruct Hb as [b Hb]. rewrite Hb in Ho. cbn in Ho.
      destruct (BootSourceConfig_try_from b); [|done]. injection Ho as Ho. cbn. rewrite <- Ho. eauto. }
    destruct start; cbn [start_script start_len boots].
    + rewrite play_start_ok by done. split.
      * intros (Hl & Hm & vm & Hvm & ->). exists p, (Some vm). rewrite on_time_snoc. unfold replayed.
        rewrite bool_decide_true, Nat.add_1_r by eauto. eauto 15.
      * intros (p' & vm & Hv' & _ & Hot & (Hm & v & -> & Hvm) & ->).
        assert (p' = p) as -> by congruence. apply on_time_snoc in Hot as [_ Hl]. split; [done|]. split; [done|].
        exists v. split; [done|]. unfold replayed. by rewrite bool_decide_true, Nat.add_1_r by eauto.
    + split.
      * intros [= <-]. exists p, None. unfold replayed. rewrite !Nat.add_0_r. eauto 10.
      * intros (p' & vm & Hv' & _ & _ & -> & ->). assert (p' = p) as -> by congruence.
        unfold replayed. by rewrite Nat.add_0_r.
  - split; [done|]. intros (p & vm & Hv & Hf & Ht & _). exfalso.
    assert (Hok : play h (gathered (Snapshot_new id fc vmm) t BootState_default (from_host_ram_mib host) 0) (config_script cfg) =
      (gathered (Snapshot_new id fc vmm) t (plan_boot p) (plan_limits host p) (length (plan_actions p)), Ok tt)).
    { apply play_plan_ok; [done|done|done|]. exists p. split; [done|]. split; [done|]. split; [|done].
      intros i Hi. apply Ht. lia. }
    by rewrite Hok in Hplay.
Qed.

(** What a successful replay went through. *)
Lemma replay_ok_inv h capacity id fc vmm t host cfg start s' :
  (0 < capacity)%nat ->
  run_alone h capacity (sys_init id fc vmm t (from_host_ram_mib host)) (replay_config cfg start) = Some (s', Ok tt) ->
  is_Some (cf_boot_source cfg) /\ within_caps cfg /\
  exists p vm, validate_file cfg = Ok p /\ plan_fits host p /\ boots h start p vm /\
    s' = replayed (Snapshot_new id fc vmm) t host p vm.
Proof.
  intros Hc Hrun. destruct (decide (is_Some (cf_boot_source cfg))) as [Hb|Hb]; cycle 1.
  { apply eq_None_not_Some in Hb. unfold replay_config in Hrun. by rewrite Hb in Hrun. }
  destruct (decide (within_caps cfg)) as [Hw|Hw].
  - split; [done|]. split; [done|]. destruct (replay_plays h capacity cfg start Hc Hb Hw) as [_ Hplay].
    rewrite Hplay in Hrun by done. injection Hrun as Hrun. apply play_file_ok in Hrun; [|done|done].
    destruct Hrun as (p & vm & Hv & Hf & _ & Hbt & ->). by exists p, vm.
  - destruct (over_caps h capacity (sys_init id fc vmm t (from_host_ram_mib host)) cfg start Hb Hw) as (e & He). congruence.
Qed.

End replay.

(** ** A file with two drives *)

#[local] Existing Instance unit_json.

Definition demo_raw_drive (name path : string) : RawDriveConfig :=
  mkRawDrive (lit name) (lit path) false false CacheUnsafe EngineSync None None None.

Definition demo_file : ConfigFile :=
  mkConfigFile (Some (mkRawBootSource (lit "/vmlinux") None None))
    [demo_raw_drive "rootfs" "/img"; demo_raw_drive "data" "/data"]
    (Some (mkRawMachineConfig 2 256 false false None None)) None [] None None None None None None [] None None None
    (mkExtension None false None None).

Definition demo_host : Host := mkHost (fun _ => false) (fun _ => Ok 7%nat).

Definition demo_plan : Plan :=
  match validate_file demo_file with
  | Ok p => p
  | Err _ => mkPlan None None None [] [] None None None None None None [] None None None
  end.

