(* ===== verification/Facade.v ===== *)
(** * Facade: the embeddable runtime

    Models [src/crates/squib/src/lib.rs] and [bind_listener] of
    [src/crates/api/src/server.rs]: the builder, [spawn] (controller, event loop, replay
    of a configuration file, API socket), [shutdown] and [Drop], and the stub event loop
    of hosts without a hypervisor.  [shutdown] waits twice (for the acknowledgement and for
    the loop to end) while other clients go on, so it is a step function whose events
    interleave with those of the controller. *)

From stdpp Require Import base numbers list option gmap strings.
From Stdlib Require Import ZArith Lia.
From S2P Require Import Prelude Text Schemas Controller Api Net NetHost Loader Replay.

Local Open Scope Z_scope.
Local Open Scope squib_scope.

Definition DEFAULT_VMM_CHANNEL_CAPACITY : nat := 1024.
Definition FIRECRACKER_COMPAT_VERSION : list Z := lit "1.16.0".
Definition DEFAULT_MMDS_SIZE_LIMIT : Z := 8192.

(** How a joined task ended abnormally. *)
Inductive JoinError := JoinCancelled | JoinPanicked.

(** ** The builder *)

(** [sb_run_budget] is in seconds. *)
Record SquibBuilder := mkBuilder {
  sb_instance_id : list Z;
  sb_config_file : option (list Z);
  sb_start_microvm : bool;
  sb_api_socket : option (list Z);
  sb_http_api_max_payload_size : Z;
  sb_timeouts : TimeoutTable;
  sb_channel_capacity : nat;
  sb_network_mode : NetMode;
  sb_gvproxy_path : option (list Z);
  sb_bridged_iface : option (list Z);
  sb_run_budget : Z;
  sb_mmds_size_limit : Z;
  sb_firecracker_version : list Z
}.

Definition SquibBuilder_default : SquibBuilder :=
  mkBuilder (lit "anonymous") None true None DEFAULT_MAX_PAYLOAD timeouts_from_spec DEFAULT_VMM_CHANNEL_CAPACITY
    (NmVmnet VmShared) None None 300 DEFAULT_MMDS_SIZE_LIMIT FIRECRACKER_COMPAT_VERSION.

Definition with_instance_id (b : SquibBuilder) (id : InstanceId) : SquibBuilder :=
  mkBuilder (instance_id_str id) (sb_config_file b) (sb_start_microvm b) (sb_api_socket b) (sb_http_api_max_payload_size b)
    (sb_timeouts b) (sb_channel_capacity b) (sb_network_mode b) (sb_gvproxy_path b) (sb_bridged_iface b) (sb_run_budget b)
    (sb_mmds_size_limit b) (sb_firecracker_version b).

Definition with_config_file (b : SquibBuilder) (path : list Z) : SquibBuilder :=
  mkBuilder (sb_instance_id b) (Some path) (sb_start_microvm b) (sb_api_socket b) (sb_http_api_max_payload_size b)
    (sb_timeouts b) (sb_channel_capacity b) (sb_network_mode b) (sb_gvproxy_path b) (sb_bridged_iface b) (sb_run_budget b)
    (sb_mmds_size_limit b) (sb_firecracker_version b).

Definition with_start_microvm (b : SquibBuilder) (start : bool) : SquibBuilder :=
  mkBuilder (sb_instance_id b) (sb_config_file b) start (sb_api_socket b) (sb_http_api_max_payload_size b)
    (sb_timeouts b) (sb_channel_capacity b) (sb_network_mode b) (sb_gvproxy_path b) (sb_bridged_iface b) (sb_run_budget b)
    (sb_mmds_size_limit b) (sb_firecracker_version b).

Definition with_api_socket (b : SquibBuilder) (path : option (list Z)) : SquibBuilder :=
  mkBuilder (sb_instance_id b) (sb_config_file b) (sb_start_microvm b) path (sb_http_api_max_payload_size b)
    (sb_timeouts b) (sb_channel_capacity b) (sb_network_mode b) (sb_gvproxy_path b) (sb_bridged_iface b) (sb_run_budget b)
    (sb_mmds_size_limit b) (sb_firecracker_version b).

Definition with_http_api_max_payload_size (b : SquibBuilder) (bytes : Z) : SquibBuilder :=
  mkBuilder (sb_instance_id b) (sb_config_file b) (sb_start_microvm b) (sb_api_socket b) bytes
    (sb_timeouts b) (sb_channel_capacity b) (sb_network_mode b) (sb_gvproxy_path b) (sb_bridged_iface b) (sb_run_budget b)
    (sb_mmds_size_limit b) (sb_firecracker_version b).

Definition with_timeouts (b : SquibBuilder) (timeouts : TimeoutTable) : SquibBuilder :=
  mkBuilder (sb_instance_id b) (sb_config_file b) (sb_start_microvm b) (sb_api_socket b) (sb_http_api_max_payload_size b)
    timeouts (sb_channel_capacity b) (sb_network_mode b) (sb_gvproxy_path b) (sb_bridged_iface b) (sb_run_budget b)
    (sb_mmds_size_limit b) (sb_firecracker_version b).

Definition with_channel_capacity (b : SquibBuilder) (capacity : nat) : SquibBuilder :=
  mkBuilder (sb_instance_id b) (sb_config_file b) (sb_start_microvm b) (sb_api_socket b) (sb_http_api_max_payload_size b)
    (sb_timeouts b) capacity (sb_network_mode b) (sb_gvproxy_path b) (sb_bridged_iface b) (sb_run_budget b)
    (sb_mmds_size_limit b) (sb_firecracker_version b).

Definition with_network_mode (b : SquibBuilder) (mode : NetMode) : SquibBuilder :=
  mkBuilder (sb_instance_id b) (sb_config_file b) (sb_start_microvm b) (sb_api_socket b) (sb_http_api_max_payload_size b)
    (sb_timeouts b) (sb_channel_capacity b) mode (sb_gvproxy_path b) (sb_bridged_iface b) (sb_run_budget b)
    (sb_mmds_size_limit b) (sb_firecracker_version b).

Definition with_gvproxy_path (b : SquibBuilder) (path : list Z) : SquibBuilder :=
  mkBuilder (sb_instance_id b) (sb_config_file b) (sb_start_microvm b) (sb_api_socket b) (sb_http_api_max_payload_size b)
    (sb_timeouts b) (sb_channel_capacity b) (sb_network_mode b) (Some path) (sb_bridged_iface b) (sb_run_budget b)
    (sb_mmds_size_limit b) (sb_firecracker_version b).

Definition with_bridged_iface (b : SquibBuilder) (iface : list Z) : SquibBuilder :=
  mkBuilder (sb_instance_id b) (sb_config_file b) (sb_start_microvm b) (sb_api_socket b) (sb_http_api_max_payload_size b)
    (sb_timeouts b) (sb_channel_capacity b) (sb_network_mode b) (sb_gvproxy_path b) (Some iface) (sb_run_budget b)
    (sb_mmds_size_limit b) (sb_firecracker_version b).

Definition with_run_budget (b : SquibBuilder) (budget : Z) : SquibBuilder :=
  mkBuilder (sb_instance_id b) (sb_config_file b) (sb_start_microvm b) (sb_api_socket b) (sb_http_api_max_payload_size b)
    (sb_timeouts b) (sb_channel_capacity b) (sb_network_mode b) (sb_gvproxy_path b) (sb_bridged_iface b) budget
    (sb_mmds_size_limit b) (sb_firecracker_version b).

Definition with_mmds_size_limit (b : SquibBuilder) (bytes : Z) : SquibBuilder :=
  mkBuilder (sb_instance_id b) (sb_config_file b) (sb_start_microvm b) (sb_api_socket b) (sb_http_api_max_payload_size b)
    (sb_timeouts b) (sb_channel_capacity b) (sb_network_mode b) (sb_gvproxy_path b) (sb_bridged_iface b) (sb_run_budget b)
    bytes (sb_firecracker_version b).

Definition with_firecracker_version (b : SquibBuilder) (version : list Z) : SquibBuilder :=
  mkBuilder (sb_instance_id b) (sb_config_file b) (sb_start_microvm b) (sb_api_socket b) (sb_http_api_max_payload_size b)
    (sb_timeouts b) (sb_channel_capacity b) (sb_network_mode b) (sb_gvproxy_path b) (sb_bridged_iface b) (sb_run_budget b)
    (sb_mmds_size_limit b) version.

(** ** Sockets *)

Class SocketFs (F : Type) := {
  sk_exists : F -> list Z -> bool;
  sk_remove_file : F -> list Z -> F * result IoError unit;
  sk_bind : F -> list Z -> F * result IoError unit
}.

(** [ErrorKind::Interrupted]. *)
Definition io_interrupted (e : IoError) : bool := io_code e =? 4.

Section facade.
Context `{J : SerdeJson}.

Inductive SquibError :=
  | InvalidInstanceId (msg : list Z)
  | SqConfig (source : ReplayError)
  | SqApi (source : ApiError)
  | SqIo (source : IoError)
  | SqJoin (source : JoinError).

Definition try_instance_id (b : SquibBuilder) (id : list Z) : result SquibError SquibBuilder :=
  let? instance_id := map_err InvalidInstanceId (InstanceId_new id) in
  Ok (with_instance_id b instance_id).

Context {F : Type} `{!HostFs F, !SocketFs F} {PC : ConfigParser}.

Definition bind_listener (fs : F) (opts : ServeOptions) : F * result IoError unit :=
  if sk_exists fs (so_socket_path opts) then
    match sk_remove_file fs (so_socket_path opts) with
    | (fs, Err e) => (fs, Err e)
    | (fs, Ok _) => sk_bind fs (so_socket_path opts)
    end
  else sk_bind fs (so_socket_path opts).

(** ** The handle *)

(** The API server task: serving, or ended with what joining it gives. *)
Inductive ApiTask := ApiServing (opts : ServeOptions) | ApiEnded (r : result JoinError (result IoError unit)).

(** [sq_vmm_task] tells whether the handle still owns the event loop's task. *)
Record Squib := mkSquib {
  sq_vmm_task : bool;
  sq_api_task : option ApiTask;
  sq_shutdown_sent : bool
}.

(** ** Stopping the event loop *)

(** Where [stop_vmm_task] stands: sending the shutdown, waiting for its acknowledgement
    as client [id], joining the loop, returned. *)
Inductive StopAt := AtSend | AtAck (id : nat) | AtJoin | AtEnd.

Record Stopping := mkStopping { sp_sys : System; sp_at : StopAt }.

(** What can happen meanwhile: a step of the controller and its other clients, or one
    of the three waits coming to its end. *)
Inductive StopEvent := Work (e : Event) | Pushed | Acked | Joined.

(** The request is sent past [dispatch]: no validation, no time budget. *)
Definition push_shutdown (s : System) : System :=
  mkSystem (sy_ctl s) (sy_loop s) true (sy_queue s ++ [(sy_next s, ActionShutdown)])
    (<[sy_next s := Waiting ClassOther KickNone]> (sy_clients s)) (S (sy_next s)).

Definition own_event (at_ : StopAt) (e : Event) : bool :=
  match at_, e with
  | AtAck id, (Finish j | Expire j) => bool_decide (j = id)
  | _, _ => false
  end.

Definition forget_client (s : System) (id : nat) : System :=
  mkSystem (sy_ctl s) (sy_loop s) (sy_alive s) (sy_queue s) (delete id (sy_clients s)) (sy_next s).

(** [None]: not enabled.  A closed channel fails the send, and drops the acknowledgement. *)
Definition stop_step (capacity : nat) (st : Stopping) (e : StopEvent) : option Stopping :=
  let s := sp_sys st in
  match sp_at st, e with
  | AtEnd, _ => None
  | at_, Work e =>
      if own_event at_ e then None
      else r ← sys_step capacity s e; Some (mkStopping r.1 at_)
  | AtSend, Pushed =>
      if sy_alive s then
        if (length (sy_queue s) <? capacity)%nat then Some (mkStopping (push_shutdown s) (AtAck (sy_next s))) else None
      else Some (mkStopping s AtJoin)
  | AtAck id, Acked =>
      match sy_clients s !! id with
      | Some (Answered _ _ _) => Some (mkStopping (forget_client s id) AtJoin)
      | Some (Waiting _ _) => if sy_alive s then None else Some (mkStopping (forget_client s id) AtJoin)
      | _ => None
      end
  | AtJoin, Joined => if sy_alive s then None else Some (mkStopping s AtEnd)
  | _, _ => None
  end.

Fixpoint stop_run (capacity : nat) (st : Stopping) (es : list StopEvent) : option Stopping :=
  match es with
  | [] => Some st
  | e :: es' => st' ← stop_step capacity st e; stop_run capacity st' es'
  end.

(** ** [spawn] *)

(** The runtime a handle belongs to. *)
Record Runtime := mkRuntime { rt_fs : F; rt_sys : System }.

Definition serve_api (b : SquibBuilder) (w : Runtime) : Runtime * result SquibError (option ApiTask) :=
  match sb_api_socket b with
  | Some socket_path =>
      let opts := with_max_payload_size (ServeOptions_new socket_path) (sb_http_api_max_payload_size b) in
      match bind_listener (rt_fs w) opts with
      | (fs, Ok _) => (mkRuntime fs (rt_sys w), Ok (Some (ApiServing opts)))
      | (fs, Err e) => (mkRuntime fs (rt_sys w), Err (SqIo e))
      end
  | None => (w, Ok None)
  end.

(** The [startup] block; nothing else uses the controller yet. *)
Definition startup (h : Host) (b : SquibBuilder) (w : Runtime) : option (Runtime * result SquibError (option ApiTask)) :=
  match sb_config_file b with
  | Some config_path =>
      match parse_config_file (rt_fs w) config_path with
      | Err e => Some (w, Err (SqConfig e))
      | Ok cfg =>
          r ← run_alone h (sb_channel_capacity b) (rt_sys w) (replay_config cfg (sb_start_microvm b));
          let w := mkRuntime (rt_fs w) r.1 in
          match r.2 with
          | Err e => Some (w, Err (SqConfig e))
          | Ok _ => Some (serve_api b w)
          end
      end
  | None => Some (serve_api b w)
  end.

(** [stop_vmm_task] with no other client. *)
Definition stop_vmm_task (h : Host) (capacity : nat) (s : System) : option System :=
  st ← stop_run capacity (mkStopping s AtSend)
         [Pushed; Work (Serve (h_boot h (vl_state (sy_loop s)))); Acked; Joined];
  Some (sp_sys st).

(** The end of [spawn]: a failed start-up stops the loop and reports its own error. *)
Definition finish_spawn (h : Host) (b : SquibBuilder) (r : Runtime * result SquibError (option ApiTask))
  : option (Runtime * result SquibError Squib) :=
  match r.2 with
  | Ok api_task => Some (r.1, Ok (mkSquib true api_task false))
  | Err err =>
      s ← stop_vmm_task h (sb_channel_capacity b) (rt_sys r.1);
      Some (mkRuntime (rt_fs r.1) s, Err err)
  end.

(** [None]: the channel cannot be created ([mpsc::channel] panics on 0).  The version
    string of the build is [pkg]; the controller starts with the default limits. *)
Definition spawn (h : Host) (pkg : list Z) (b : SquibBuilder) (fs : F) : option (Runtime * result SquibError Squib) :=
  if (sb_channel_capacity b =? 0)%nat then None
  else
    let s := sys_init (sb_instance_id b) (sb_firecracker_version b)
               (sb_firecracker_version b ++ lit " (squib " ++ pkg ++ lit ")") (sb_timeouts b) limits_default in
    r ← startup h b (mkRuntime fs s);
    finish_spawn h b r.

(** ** [shutdown] and [Drop] *)

(** [JoinHandle::abort] then the join: a task still serving ends cancelled, or as
    [race] says if it came to its end first. *)
Definition abort_join (t : ApiTask) (race : option (result IoError unit)) : result JoinError (result IoError unit) :=
  match t with
  | ApiServing _ => match race with Some r => Ok r | None => Err JoinCancelled end
  | ApiEnded r => r
  end.

Definition abort_api_server (q : Squib) (race : option (result IoError unit)) : Squib * result SquibError unit :=
  match sq_api_task q with
  | None => (q, Ok tt)
  | Some task =>
      (mkSquib (sq_vmm_task q) None (sq_shutdown_sent q),
       match abort_join task race with
       | Ok (Ok _) => Ok tt
       | Ok (Err err) => if io_interrupted err then Ok tt else Err (SqIo err)
       | Err JoinCancelled => Ok tt
       | Err err => Err (SqJoin err)
       end)
  end.

(** [shutdown] up to its first wait: where the stopping of the loop begins. *)
Definition shutdown (q : Squib) (race : option (result IoError unit)) : Squib * result SquibError StopAt :=
  match abort_api_server q race with
  | (q, Err e) => (q, Err e)
  | (q, Ok _) =>
      if sq_vmm_task q
      then (mkSquib false (sq_api_task q) true, Ok (if sq_shutdown_sent q then AtJoin else AtSend))
      else (q, Ok AtEnd)
  end.

(** [Drop]: one attempt to queue the shutdown, which nobody waits for. *)
Definition Squib_drop (capacity : nat) (q : Squib) (s : System) : System :=
  if sq_shutdown_sent q then s
  else if sy_alive s && (length (sy_queue s) <? capacity)%nat
  then mkSystem (sy_ctl s) (sy_loop s) true (sy_queue s ++ [(sy_next s, ActionShutdown)]) (sy_clients s) (S (sy_next s))
  else s.

(** [dispatch] of the handle goes the way of the HTTP handlers. *)
Definition facade_dispatch (action : ApiAction) : task (result SquibError ApiResponse) :=
  task_map_err SqApi (dispatch action).

(** [join_api_server]: a task still serving ends as [ended] says. *)
Definition join_api_server (q : Squib) (ended : result JoinError (result IoError unit)) : Squib * result SquibError unit :=
  match sq_api_task q with
  | None => (q, Ok tt)
  | Some task =>
      (mkSquib (sq_vmm_task q) None (sq_shutdown_sent q),
       match (match task with ApiServing _ => ended | ApiEnded r => r end) with
       | Err err => Err (SqJoin err)
       | Ok (Err err) => Err (SqIo err)
       | Ok (Ok _) => Ok tt
       end)
  end.

(** ** Hosts without a hypervisor *)

(** The answers of [stub_vmm_loop] to the actions it receives, until a shutdown. *)
Fixpoint stub_vmm_loop (actions : list ApiAction) : list ApiResponse :=
  match actions with
  | [] => []
  | action :: rest =>
      match action with
      | Action InstanceStart =>
          Fault 400 (lit "InstanceStart failed: VMM backend is only available on macOS") :: stub_vmm_loop rest
      | PatchVm _ => Fault 400 (lit "VM state changes require a running macOS HVF backend") :: stub_vmm_loop rest
      | SnapshotCreate _ | SnapshotLoad _ =>
          Fault 400 (lit "Snapshot actions require a running macOS HVF backend") :: stub_vmm_loop rest
      | ActionShutdown => [NoContent]
      | _ => NoContent :: stub_vmm_loop rest
      end
  end.

(** The loop's task is given up exactly when the shutdown is sent, so the branch of
    [shutdown] that only joins is never taken, and a second call has nothing to do. *)
Definition handle_ok (q : Squib) : Prop := sq_shutdown_sent q = negb (sq_vmm_task q).

Lemma shutdown_twice q race race' :
  handle_ok q ->
  let (q1, r1) := shutdown q race in
  handle_ok q1 /\ sq_api_task q1 = None /\ r1 <> Ok AtJoin /\
  match r1 with
  | Err _ => sq_vmm_task q1 = sq_vmm_task q
  | Ok _ => shutdown q1 race' = (q1, Ok AtEnd)
  end.
Proof.
  unfold handle_ok. intros Hq. destruct q as [vmm api sent_]. cbn in Hq. subst sent_. unfold shutdown, abort_api_server. cbn.
  destruct api as [task|]; [destruct (abort_join task race) as [[[]|err]|[]]; [|destruct (io_interrupted err)|..]|];
    destruct vmm; done.
Qed.

(** ** Stopping always works *)

(** Before the loop stops, the shutdown is in the queue and its sender waits. *)
Definition ack_pending (s : System) (id : nat) : Prop :=
  sent s id /\
  (sy_alive s = true ->
   In (id, ActionShutdown) (sy_queue s) /\ exists class k, sy_clients s !! id = Some (Waiting class k)).

Record stop_ok (st : Stopping) : Prop := mkStopOk {
  sto_ids : ids_ok (sp_sys st);
  sto_life : life_ok (sp_sys st);
  sto_at : match sp_at st with
           | AtSend => True
           | AtAck id => ack_pending (sp_sys st) id
           | AtJoin | AtEnd => sy_alive (sp_sys st) = false
           end
}.

Lemma sent_other s s' id :
  sy_clients s' !! id = sy_clients s !! id -> sent s id -> sent s' id.
Proof. intros Hc. unfold sent. by rewrite Hc. Qed.

(** A step that touches neither the client nor its place in the queue. *)
Lemma ack_frame s s' id :
  sy_clients s' !! id = sy_clients s !! id -> (sy_alive s' = true -> sy_alive s = true) ->
  (forall a, sy_alive s' = true -> In (id, a) (sy_queue s) -> In (id, a) (sy_queue s')) ->
  ack_pending s id -> ack_pending s' id.
Proof.
  intros Hc Ha Hq [Hs Hp]. split; [by eapply sent_other|]. intros Hal. destruct (Hp (Ha Hal)) as [Hin Hw].
  split; [by apply Hq|by rewrite Hc].
Qed.

Lemma ack_serve s id j a q env :
  ids_ok s -> sy_queue s = (j, a) :: q -> sy_alive s = true -> ack_pending s id ->
  ack_pending (after_serve s j q (serve (sy_ctl s) (sy_loop s) a env)) id.
Proof.
  intros I Hq Hal [Hs Hp]. split; [by apply sent_serve|]. destruct (Hp Hal) as [Hin Hw].
  pose proof (ids_nodup s I) as Hn. rewrite Hq in Hin, Hn. cbn in Hn. apply NoDup_cons in Hn as [Hj _].
  rewrite after_serve_proj. cbn. intros Hgo. rewrite Hgo. destruct Hin as [[= -> ->]|Hin]; [done|].
  split; [done|]. rewrite answer_lookup. destruct (decide (id = j)) as [->|]; [|done].
  exfalso. apply Hj, list_elem_of_In, In_fst_elem. by exists ActionShutdown.
Qed.

Lemma ack_work capacity s id e s' out :
  ids_ok s -> own_event (AtAck id) e = false -> sys_step capacity s e = Some (s', out) ->
  ack_pending s id -> ack_pending s' id.
Proof.
  intros I Hown Hs Hp. pose proof Hp as [(class & k & Hsent) _].
  assert (Hne : forall a, sy_clients s !! id <> Some (Sending a)) by (intros a Ha; destruct Hsent as [Hx|(r & Hx)]; congruence).
  destruct e as [a|j|env|j|j]; cbn [sys_step] in Hs.
  - destruct (admit_action _ _); [|by injection Hs as <- _]. injection Hs as <- _. eapply ack_frame, Hp; try done.
    cbn. rewrite lookup_insert_ne; [done|]. intros Heq.
    assert (Hlt : (id < sy_next s)%nat) by (destruct Hsent as [Hx|(r & Hx)]; by eapply ids_clients).
    lia.
  - destruct (sy_clients s !! j) as [[a| |]|] eqn:Hj; try done.
    assert (Hji : j <> id) by (intros ->; by apply (Hne a)).
    destruct (sy_alive s) eqn:Hal.
    + destruct (Nat.ltb _ _); [|done]. injection Hs as <- _. eapply ack_frame, Hp; cbn; [by rewrite lookup_insert_ne|done|].
      intros b _ Hin. apply in_or_app. by left.
    + injection Hs as <- _. eapply ack_frame, Hp; cbn; [by rewrite lookup_delete_ne|done|done].
  - destruct (sy_queue s) as [|[j a] q] eqn:Hq; [done|]. destruct (sy_alive s) eqn:Hal; [|done]. injection Hs as <- _.
    by apply ack_serve.
  - cbn in Hown. apply bool_decide_eq_false in Hown.
    assert (Hl : forall class k o, ack_pending (leave s j class k o).1 id).
    { intros. eapply ack_frame, Hp; cbn; [by rewrite lookup_delete_ne|done|done]. }
    destruct (sy_clients s !! j) as [[|cl' k'|cl' k' r']|]; try done.
    + destruct (sy_alive s); [done|]. injection Hs as <- _. exact (Hl cl' k' ChannelClosed).
    + injection Hs as <- _. exact (Hl cl' k' (Responded r')).
  - cbn in Hown. apply bool_decide_eq_false in Hown. destruct (sy_clients s !! j) as [[| |]|]; try done.
    injection Hs as <- _. eapply ack_frame, Hp; cbn; [by rewrite lookup_delete_ne|done|done].
Qed.

Lemma push_change s :
  sy_alive s = true ->
  exists s1, change (fun _ => True) s s1 /\ change (fun _ => True) s1 (push_shutdown s).
Proof.
  intros Hal.
  set (s1 := mkSystem (sy_ctl s) (sy_loop s) (sy_alive s) (sy_queue s) (<[sy_next s := Sending ActionShutdown]> (sy_clients s)) (S (sy_next s))).
  exists s1. split; [by apply change_enter|].
  assert (Hp : push_shutdown s = mkSystem (sy_ctl s1) (sy_loop s1) true (sy_queue s1 ++ [(sy_next s, ActionShutdown)])
    (<[sy_next s := Waiting (action_class ActionShutdown) (kick_for_action ActionShutdown)]> (sy_clients s1)) (sy_next s1)).
  { unfold push_shutdown, s1. cbn. by rewrite insert_insert_eq. }
  rewrite Hp. apply change_send; [|done]. cbn. by rewrite lookup_insert_eq.
Qed.

Lemma forget_change s id c :
  sy_clients s !! id = Some c -> (forall a, c <> Sending a) -> change (fun _ => True) s (forget_client s id).
Proof.
  intros Hc Hs. assert (Hf : forget_client s id = (leave s id ClassOther (client_kick c) ChannelClosed).1).
  { by destruct s as [[] ? ? ? ? ?]. }
  rewrite Hf. apply change_leave; [done|]. intros _. destruct c; [by destruct (Hs a)|done|done].
Qed.

Lemma inv_change s s' : change (fun _ => True) s s' -> ids_ok s /\ life_ok s -> ids_ok s' /\ life_ok s'.
Proof. intros Hc [I L]. split; [by eapply ids_change|by eapply life_change]. Qed.

Lemma dead_step capacity s e s' out : sys_step capacity s e = Some (s', out) -> sy_alive s = false -> sy_alive s' = false.
Proof.
  intros Hs Hal. apply (sys_step_change (fun _ => True)) in Hs; [|by destruct e].
  destruct Hs as [|a _ Ha|id a Hid Hal'|id a q env Hq Hal'|id c class o Hid Hk]; try done; congruence.
Qed.

Lemma stop_step_ok capacity st e st' : stop_ok st -> stop_step capacity st e = Some st' -> stop_ok st'.
Proof.
  intros [I L Hat] Hs. destruct st as [s at_]. cbn in *. destruct e as [e| | |].
  - assert (Hw : exists r, sys_step capacity s e = Some r /\ st' = mkStopping r.1 at_ /\ own_event at_ e = false /\ at_ <> AtEnd).
    { assert (Hne : at_ <> AtEnd) by (by destruct at_).
      assert (Hs' : (if own_event at_ e then None else r ← sys_step capacity s e; Some (mkStopping r.1 at_)) = Some st')
        by (by destruct at_).
      destruct (own_event at_ e); [done|]. destruct (sys_step capacity s e) as [r|]; [|done]. injection Hs' as <-.
      by exists r. }
    destruct Hw as ([s' out] & Hstep & -> & Hown & Hne). pose proof Hstep as Hc.
    apply (sys_step_change (fun _ => True)) in Hc; [|by destruct e]. destruct (inv_change _ _ Hc) as [I' L']; [done|].
    constructor; [done|done|]. cbn. destruct at_; [done|exact (ack_work _ _ _ _ _ _ I Hown Hstep Hat)|by eapply dead_step|done].
  - destruct at_; try done. cbn [stop_step sp_at sp_sys] in Hs.
    destruct (sy_alive s) eqn:Hal; [|injection Hs as <-; by constructor].
    destruct (_ <? _)%nat; [|done]. injection Hs as <-. destruct (push_change s Hal) as (s1 & Hc1 & Hc2).
    destruct (inv_change _ _ Hc2) as [I' L']; [by eapply inv_change|]. constructor; [done|done|]. cbn.
    assert (Hcl : sy_clients (push_shutdown s) !! sy_next s = Some (Waiting ClassOther KickNone)) by (cbn; by rewrite lookup_insert_eq).
    split; [exists ClassOther, KickNone; by left|]. intros _. split; [apply in_or_app; right; by left|eauto].
  - destruct at_ as [|id| |]; try done. cbn in Hs, Hat. destruct Hat as [Hsent Hp].
    destruct (sy_clients s !! id) as [c|] eqn:Hc; [|done].
    assert (Hf : (forall a, c <> Sending a) -> sy_alive s = false -> stop_ok (mkStopping (forget_client s id) AtJoin)).
    { intros Hns Hal. destruct (inv_change s (forget_client s id)) as [I' L']; [by eapply forget_change|done|]. by constructor. }
    destruct c as [a|class k|class k r]; [done| |].
    + destruct (sy_alive s) eqn:Hal; [done|]. injection Hs as <-. by apply Hf.
    + injection Hs as <-. apply Hf; [done|]. destruct (sy_alive s); [|done].
      destruct (Hp eq_refl) as (_ & cl & k' & Hw). congruence.
  - destruct at_; try done. cbn in Hs. destruct (sy_alive s) eqn:Hal; [done|]. injection Hs as <-. by constructor.
Qed.

Lemma stop_run_ok capacity es : forall st st', stop_ok st -> stop_run capacity st es = Some st' -> stop_ok st'.
Proof.
  induction es as [|e es IH]; intros st st' Ho H; cbn in H; [by injection H as <-|].
  destruct (stop_step capacity st e) as [st1|] eqn:Hs; [|done]. eapply IH, H. by eapply stop_step_ok.
Qed.

(** From every stage the waits come to their ends, by serving what is queued. *)
Lemma ack_completes capacity (env : result (list Z) RunningVm) n : forall s id,
  stop_ok (mkStopping s (AtAck id)) -> (length (sy_queue s) <= n)%nat ->
  exists es s', (length es <= n + 2)%nat /\ stop_run capacity (mkStopping s (AtAck id)) es = Some (mkStopping s' AtEnd).
Proof.
  induction n as [|n IH]; intros s id Ho Hl; pose proof Ho as [I L [Hsent Hp]]; cbn in *;
    destruct (sy_alive s) eqn:Hal.
  2, 4: exists [Acked; Joined], (forget_client s id); split; [cbn; lia|]; cbn;
    destruct Hsent as (cl & k & [Hc|(r & Hc)]); rewrite Hc; rewrite ?Hal; cbn; by rewrite Hal.
  - destruct (Hp eq_refl) as [Hin _]. rewrite (nil_length_inv (sy_queue s)) in Hin by lia. done.
  - destruct (Hp eq_refl) as [Hin _]. destruct (sy_queue s) as [|[j a] q] eqn:Hq; [done|]. rewrite ?Hq in Hl.
    set (s1 := after_serve s j q (serve (sy_ctl s) (sy_loop s) a env)).
    assert (Hstep : stop_step capacity (mkStopping s (AtAck id)) (Work (Serve env)) = Some (mkStopping s1 (AtAck id))).
    { cbn. by rewrite Hq, Hal. }
    destruct (IH s1 id) as (es & s' & Hes & Hrun).
    { by eapply stop_step_ok. }
    { unfold s1. rewrite after_serve_proj. cbn in *. destruct (serve _ _ _ _) as [o []]; cbn; lia. }
    exists (Work (Serve env) :: es), s'. split; [cbn; lia|]. cbn [stop_run]. rewrite Hstep. exact Hrun.
Qed.

Lemma send_completes capacity (env : result (list Z) RunningVm) n : forall s,
  (0 < capacity)%nat -> stop_ok (mkStopping s AtSend) -> (length (sy_queue s) <= n)%nat ->
  exists es s', (length es <= n + 4)%nat /\ stop_run capacity (mkStopping s AtSend) es = Some (mkStopping s' AtEnd).
Proof.
  induction n as [|n IH]; intros s Hcap Ho Hl; (destruct (sy_alive s) eqn:Hal).
  2, 4: exists [Pushed; Joined], s; split; [cbn; lia|]; cbn; rewrite Hal; cbn; by rewrite Hal.
  all: destruct (Nat.ltb_spec (length (sy_queue s)) capacity) as [Hroom|Hfull].
  1, 3: assert (Hstep : stop_step capacity (mkStopping s AtSend) Pushed = Some (mkStopping (push_shutdown s) (AtAck (sy_next s))))
      by (cbn [stop_step sp_at sp_sys]; by rewrite Hal, (proj2 (Nat.ltb_lt _ _) Hroom));
    (destruct (ack_completes capacity env (S (length (sy_queue s))) (push_shutdown s) (sy_next s)) as (es & s' & Hes & Hrun);
      [by eapply stop_step_ok|cbn; rewrite length_app; cbn; lia|]);
    exists (Pushed :: es), s'; split; [cbn; lia|]; cbn [stop_run]; rewrite Hstep; exact Hrun.
  - lia.
  - destruct (sy_queue s) as [|[j a] q] eqn:Hq; rewrite ?Hq in Hfull, Hl; [cbn in Hfull; lia|].
    set (s1 := after_serve s j q (serve (sy_ctl s) (sy_loop s) a env)).
    assert (Hstep : stop_step capacity (mkStopping s AtSend) (Work (Serve env)) = Some (mkStopping s1 AtSend)).
    { cbn. by rewrite Hq, Hal. }
    destruct (IH s1) as (es & s' & Hes & Hrun); [done|by eapply stop_step_ok| |].
    { unfold s1. rewrite after_serve_proj. cbn in *. destruct (serve _ _ _ _) as [o []]; cbn; lia. }
    exists (Work (Serve env) :: es), s'. split; [cbn; lia|]. cbn [stop_run]. rewrite Hstep. exact Hrun.
Qed.


(** ** [spawn] *)

Definition init_of (pkg : list Z) (b : SquibBuilder) : System :=
  sys_init (sb_instance_id b) (sb_firecracker_version b) (sb_firecracker_version b ++ lit " (squib " ++ pkg ++ lit ")")
    (sb_timeouts b) limits_default.

Lemma stop_quiet h capacity s :
  (0 < capacity)%nat -> quiet s ->
  exists s', stop_vmm_task h capacity s = Some s' /\ sy_alive s' = false /\ vl_running (sy_loop s') = None.
Proof.
  intros Hc [Hal Hq Hcl]. unfold stop_vmm_task. destruct s as [c l al q cl n]. cbn in *. subst.
  destruct capacity as [|cap]; [lia|]. cbn. unfold answer. rewrite !lookup_insert_eq. by eexists.
Qed.

(** What the parts of [spawn] did when it returned a handle. *)
Record spawned (h : Host) (pkg : list Z) (b : SquibBuilder) (fs : F) (w : Runtime) (q : Squib) : Prop := mkSpawned {
  spw_owned : sq_vmm_task q = true /\ sq_shutdown_sent q = false;
  spw_alive : sy_alive (rt_sys w) = true;
  spw_config :
    match sb_config_file b with
    | None => rt_sys w = init_of pkg b
    | Some path => exists cfg, parse_config_file fs path = Ok cfg /\
        run_alone h (sb_channel_capacity b) (init_of pkg b) (replay_config cfg (sb_start_microvm b)) = Some (rt_sys w, Ok tt)
    end;
  spw_api :
    match sb_api_socket b with
    | None => sq_api_task q = None /\ rt_fs w = fs
    | Some path => exists opts, sq_api_task q = Some (ApiServing opts) /\ so_socket_path opts = path /\
        MIN_MAX_PAYLOAD <= so_max_payload_size opts <= MAX_MAX_PAYLOAD /\ bind_listener fs opts = (rt_fs w, Ok tt)
    end
}.

Lemma serve_api_spec b w :
  let r := serve_api b w in
  rt_sys r.1 = rt_sys w /\
  match r.2 with
  | Err _ => True
  | Ok t =>
      match sb_api_socket b with
      | None => t = None /\ rt_fs r.1 = rt_fs w
      | Some path => exists opts, t = Some (ApiServing opts) /\ so_socket_path opts = path /\
          MIN_MAX_PAYLOAD <= so_max_payload_size opts <= MAX_MAX_PAYLOAD /\ bind_listener (rt_fs w) opts = (rt_fs r.1, Ok tt)
      end
  end.
Proof.
  unfold serve_api. destruct (sb_api_socket b) as [path|]; [|done].
  set (opts := with_max_payload_size _ _). destruct (bind_listener (rt_fs w) opts) as [fs [[]|e]] eqn:Hb; [|done].
  split; [done|]. exists opts. split; [done|]. split; [done|]. split; [|done].
  unfold opts, with_max_payload_size. cbn. unfold MIN_MAX_PAYLOAD, MAX_MAX_PAYLOAD. lia.
Qed.

(** What a caller of [spawn] is left with. *)
Definition spawn_outcome (h : Host) (pkg : list Z) (b : SquibBuilder) (fs : F) (w : Runtime) (r : result SquibError Squib) : Prop :=
  match r with
  | Ok q => spawned h pkg b fs w q
  | Err _ => sy_alive (rt_sys w) = false /\ vl_running (sy_loop (rt_sys w)) = None
  end.

Lemma finish_spawn_ok h pkg b fs r :
  (0 < sb_channel_capacity b)%nat -> quiet (rt_sys r.1) ->
  (forall t, r.2 = Ok t -> spawned h pkg b fs r.1 (mkSquib true t false)) ->
  exists w q, finish_spawn h b r = Some (w, q) /\ spawn_outcome h pkg b fs w q.
Proof.
  intros Hc Q Ht. unfold finish_spawn. destruct r as [w [t|e]]; cbn [fst snd] in *.
  { exists w, (Ok (mkSquib true t false)). split; [done|]. by apply Ht. }
  destruct (stop_quiet h (sb_channel_capacity b) (rt_sys w) Hc Q) as (s' & -> & Hal & Hr). by eexists _, _.
Qed.

Lemma serve_finish h pkg b fs s :
  (0 < sb_channel_capacity b)%nat -> quiet s ->
  match sb_config_file b with
  | None => s = init_of pkg b
  | Some path => exists cfg, parse_config_file fs path = Ok cfg /\
      run_alone h (sb_channel_capacity b) (init_of pkg b) (replay_config cfg (sb_start_microvm b)) = Some (s, Ok tt)
  end ->
  exists w q, finish_spawn h b (serve_api b (mkRuntime fs s)) = Some (w, q) /\ spawn_outcome h pkg b fs w q.
Proof.
  intros Hc Q Hcfg. destruct (serve_api_spec b (mkRuntime fs s)) as [Hs Ht]. cbn in Hs.
  apply finish_spawn_ok; [done|by rewrite Hs|]. intros t Hr. rewrite Hr in Ht.
  constructor; [done|rewrite Hs; apply Q|by rewrite Hs|done].
Qed.

(** C13: [spawn] always returns: either a handle, with the loop alive, the
    configuration file read, parsed and replayed in full, and the API socket bound with a
    body limit inside its bounds; or an error, and then the loop it had started has
    stopped and no VM runs. *)
Theorem spawn_all_or_nothing h pkg b fs :
  (0 < sb_channel_capacity b)%nat ->
  exists w r, spawn h pkg b fs = Some (w, r) /\ spawn_outcome h pkg b fs w r.
Proof.
  intros Hc. unfold spawn. rewrite (proj2 (Nat.eqb_neq _ _)) by lia. fold (init_of pkg b).
  assert (Q0 : quiet (init_of pkg b)) by done.
  unfold startup. cbn [rt_fs rt_sys]. destruct (sb_config_file b) as [path|] eqn:Hp; cbn [mbind option_bind].
  - destruct (parse_config_file fs path) as [cfg|e] eqn:Hparse; cbn [mbind option_bind]; [|by apply finish_spawn_ok].
    destruct (replay_total h (sb_channel_capacity b) (init_of pkg b) cfg (sb_start_microvm b) Hc Q0) as (s' & r & Hrun & Q).
    rewrite Hrun. cbn [mbind option_bind fst snd]. destruct r as [[]|e]; cbn [mbind option_bind]; [|by apply finish_spawn_ok].
    apply serve_finish; [done|done|]. rewrite Hp. by exists cfg.
  - apply serve_finish; [done|done|]. by rewrite Hp.
Qed.
End facade.

(** ** A runtime on a small host *)

#[local] Existing Instance unit_json.

(** Files and bound sockets. *)
Record DemoFs := mkDemoFs { df_files : list (list Z * list Z); df_sockets : list (list Z) }.

#[local] Instance demo_host_fs : HostFs DemoFs := {|
  fs_len fs path := match List.find (fun p => bool_decide (p.1 = path)) (df_files fs) with
                    | Some p => Ok (zlen p.2) | None => Err (mkIoError 2) end;
  fs_read fs path := match List.find (fun p => bool_decide (p.1 = path)) (df_files fs) with
                     | Some p => Ok p.2 | None => Err (mkIoError 2) end
|}.

#[local] Instance demo_sockets : SocketFs DemoFs := {|
  sk_exists fs path := bool_decide (path ∈ df_sockets fs);
  sk_remove_file fs path := (mkDemoFs (df_files fs) (filter (fun p => p <> path) (df_sockets fs)), Ok tt);
  sk_bind fs path := (mkDemoFs (df_files fs) (path :: df_sockets fs), Ok tt)
|}.

#[local] Instance demo_parser : ConfigParser :=
  fun bytes => if bool_decide (bytes = lit "demo") then Ok demo_file else Err (lit "expected value").

Definition demo_builder : SquibBuilder :=
  with_api_socket (with_config_file SquibBuilder_default (lit "vm.json")) (Some (lit "/tmp/squib.sock")).

Definition demo_world : DemoFs := mkDemoFs [(lit "vm.json", lit "demo")] [].

Lemma spawn_all_or_nothing_witness :
  exists w r, spawn demo_host (lit "0.1.0") demo_builder demo_world = Some (w, r) /\
    spawn_outcome demo_host (lit "0.1.0") demo_builder demo_world w r /\
    vl_running (sy_loop (rt_sys w)) = Some 7%nat /\ df_sockets (rt_fs w) = [lit "/tmp/squib.sock"].
Proof.
  assert (Hc : (0 < sb_channel_capacity demo_builder)%nat) by (cbn; unfold DEFAULT_VMM_CHANNEL_CAPACITY; lia).
  destruct (spawn_all_or_nothing demo_host (lit "0.1.0") demo_builder demo_world Hc) as (w & r & Hs & Ho).
  exists w, r. split; [exact Hs|]. split; [exact Ho|].
  assert (Hv : (fun o => match o with Some (w', _) => (vl_running (sy_loop (rt_sys w')), df_sockets (rt_fs w')) | None => (None, []) end)
    (spawn demo_host (lit "0.1.0") demo_builder demo_world) = (Some 7%nat, [lit "/tmp/squib.sock"])) by (vm_compute; reflexivity).
  rewrite Hs in Hv. injection Hv as -> ->. split; reflexivity.
Defined.

(** A file that cannot be parsed: nothing is left running. *)
Example spawn_bad_file :
  option_map (fun r => (sy_alive (rt_sys r.1), r.2)) (spawn demo_host (lit "0.1.0") demo_builder (mkDemoFs [(lit "vm.json", lit "{")] [])) =
  Some (false, Err (SqConfig (ReplayParse (lit "vm.json") (lit "expected value")))).
Proof. vm_compute. reflexivity. Qed.

Definition demo_stop : list StopEvent := [Pushed; Work (Serve (Err [])); Acked; Joined].

