(* ===== verification/Fdt.v ===== *)
(** * Fdt: boot arguments and the device tree

    Models [src/crates/fdt/src/lib.rs]: the composition of the kernel command line
    and the device tree written for the guest.  The writer of the [vm-fdt] crate is the
    class [FdtWriter]; the tree is stated as the value [microvm_tree], and [build] is
    shown to write it with any writer. *)

From stdpp Require Import base numbers list option gmap strings.
From Stdlib Require Import ZArith Lia.
From S2P Require Import Prelude Text Arch.

Local Open Scope Z_scope.
Local Open Scope squib_scope.

(** ** Boot arguments *)

(** [char::is_ascii_whitespace]. *)
Definition is_ascii_whitespace (c : Z) : bool :=
  (c =? 32) || (c =? 9) || (c =? 10) || (c =? 12) || (c =? 13).

(** [str::split_ascii_whitespace]; [cur] is the token read so far. *)
Fixpoint split_ascii_from (cur s : list Z) : list (list Z) :=
  match s with
  | [] => if decide (cur = []) then [] else [cur]
  | c :: s' =>
      if is_ascii_whitespace c
      then (if decide (cur = []) then [] else [cur]) ++ split_ascii_from [] s'
      else split_ascii_from (cur ++ [c]) s'
  end.

Definition split_ascii_whitespace (s : list Z) : list (list Z) := split_ascii_from [] s.

(** The part of a token before its first equals sign: [split_once('=').map_or(token, |(k, _)| k)]. *)
Fixpoint token_head (t : list Z) : list Z :=
  match t with
  | [] => []
  | c :: t' => if c =? 61 then [] else c :: token_head t'
  end.

Definition key_present (args key : list Z) : bool :=
  existsb (fun t => bool_decide (token_head t = key)) (split_ascii_whitespace args).

Definition push_arg (buf arg : list Z) : list Z :=
  (if decide (buf = []) then [] else buf ++ [32]) ++ arg.

Definition compose_boot_args (user_args : list Z) (root_partuuid : option (list Z)) : list Z :=
  let trimmed := trim user_args in
  let out := trimmed in
  let out := if negb (key_present trimmed (lit "console")) then push_arg out (lit "console=ttyAMA0") else out in
  let out := if negb (key_present trimmed (lit "panic")) then push_arg out (lit "panic=1") else out in
  match root_partuuid with
  | Some uuid => if negb (key_present trimmed (lit "root")) then push_arg out (lit "root=PARTUUID=" ++ uuid) else out
  | None => out
  end.

(** ** Inputs and errors *)

Record InitrdRange := mkInitrd { ir_start : Z; ir_end : Z }.
Record MemoryRegion := mkRegion { mr_base : Z; mr_size : Z }.
Definition MemoryRegion_dram (size : Z) : MemoryRegion := mkRegion Layout.DRAM_BASE size.
Record VirtioSlot := mkVirtioSlot { vs_slot : Z }.

Record FdtBuildArgs := mkFdtArgs {
  fa_vcpu_count : Z;
  fa_memory : MemoryRegion;
  fa_boot_args : list Z;
  fa_initrd : option InitrdRange;
  fa_virtio_devices : list VirtioSlot;
  fa_gicr_size_per_vcpu : Z;
  fa_gicd_size : Z
}.

Definition FdtBuildArgs_new (vcpu_count : Z) (memory : MemoryRegion) (boot_args : list Z)
    (initrd : option InitrdRange) (devices : list VirtioSlot) : FdtBuildArgs :=
  mkFdtArgs vcpu_count memory boot_args initrd devices Layout.GICR_REDISTRIBUTOR_SIZE_PER_VCPU 0x00010000.

(** The error of the writer, and the errors of [build].  [Builder] holds what its text is
    rendered from. *)
Record FdtBuildError := mkFdtBuildError { fb_code : Z }.

Inductive FdtError :=
  | Builder (e : FdtBuildError + Gic.IntIdError)
  | NoVcpus
  | TooManyVirtioSlots (requested : Z)
  | NulInBootArgs.

(** One [property_*] call of the writer. *)
Inductive FdtProp :=
  | property_string (name v : list Z)
  | property_string_list (name : list Z) (v : list (list Z))
  | property_u32 (name : list Z) (v : Z)
  | property_u64 (name : list Z) (v : Z)
  | property_array_u32 (name : list Z) (v : list Z)
  | property_array_u64 (name : list Z) (v : list Z)
  | property_null (name : list Z)
  | property_phandle (v : Z).

(** [vm_fdt::FdtWriter]; [N] is the token that [begin_node] returns. *)
Class FdtWriter (W N : Type) := {
  fw_new : result FdtBuildError W;
  fw_begin_node : list Z -> stm W FdtBuildError N;
  fw_end_node : N -> stm W FdtBuildError unit;
  fw_property : FdtProp -> stm W FdtBuildError unit;
  fw_finish : W -> result FdtBuildError (list Z)
}.

(** ** Constants *)

Definition PHANDLE_GIC : Z := 1.
Definition PHANDLE_APB_CLK : Z := 2.
Definition CNTV : Gic.IntId := Gic.mkIntId (Gic.PPI_INTID_MIN + 11).
Definition CNTHP : Gic.IntId := Gic.mkIntId (Gic.PPI_INTID_MIN + 10).
Definition CNTP : Gic.IntId := Gic.mkIntId (Gic.PPI_INTID_MIN + 14).
Definition CNTPS : Gic.IntId := Gic.mkIntId (Gic.PPI_INTID_MIN + 13).
Definition CPU_SUSPEND : Z := 0xC4000001.
Definition MIGRATE : Z := 0xC4000005.
Definition virtio_mmio_stride : Z := 0x1000.
Definition virtio_mmio_slots : Z := 32.

(** The digits of [{:x}]. *)
Definition hex_digit (d : Z) : Z := if d <? 10 then 48 + d else 87 + d.

Fixpoint hex_loop (fuel : nat) (n : Z) (acc : list Z) : list Z :=
  match fuel with
  | O => acc
  | S fuel => let acc := hex_digit (n mod 16) :: acc in if n <? 16 then acc else hex_loop fuel (n / 16) acc
  end.

Definition hex (n : Z) : list Z := hex_loop (S (Z.to_nat (Z.log2 n))) n [].

Definition irq_cell (intid : Gic.IntId) (trigger : Gic.Trigger) : list Z :=
  [Gic.fdt_cell_type intid; Gic.fdt_cell_offset intid; Gic.fdt_flags trigger].

Definition ipi_cell (intid : Gic.IntId) (flags : Z) : list Z :=
  [Gic.fdt_cell_type intid; Gic.fdt_cell_offset intid; flags].

Definition mpidr_for_index (index : Z) : Z :=
  let aff0 := Z.land index 0xF in
  let aff1 := Z.land (Z.shiftr index 4) 0xFF in
  Z.lor (Z.shiftl aff1 8) aff0.

(** ** The tree *)

(** A device tree: a name, the properties in order, then the children in order. *)
#[warnings="-register-all"]
Inductive fdt_node := FdtNode (name : list Z) (props : list FdtProp) (children : list fdt_node).

Definition initrd_props (rd : option InitrdRange) : list FdtProp :=
  match rd with
  | Some rd => [property_u64 (lit "linux,initrd-start") (ir_start rd); property_u64 (lit "linux,initrd-end") (ir_end rd)]
  | None => []
  end.

Definition chosen_node (args : FdtBuildArgs) : fdt_node :=
  FdtNode (lit "chosen")
    ([property_string (lit "bootargs") (fa_boot_args args);
      property_string (lit "stdout-path") (lit "/pl011@e0a0000");
      property_null (lit "linux,earlycon")] ++ initrd_props (fa_initrd args)) [].

Definition memory_node (m : MemoryRegion) : fdt_node :=
  FdtNode (lit "memory@" ++ hex (mr_base m))
    [property_string (lit "device_type") (lit "memory"); property_array_u64 (lit "reg") [mr_base m; mr_size m]] [].

(** The affinity value of the vCPU at an index below 2^12. *)
Definition affinity (index : Z) : Z := 256 * (index / 16) + index mod 16.

Definition cpu_node (index : Z) : fdt_node :=
  FdtNode (lit "cpu@" ++ hex (affinity index))
    [property_string (lit "device_type") (lit "cpu"); property_string (lit "compatible") (lit "arm,armv8");
     property_string (lit "enable-method") (lit "psci"); property_u32 (lit "reg") (affinity index)] [].

Definition cpus_node (n : nat) : fdt_node :=
  FdtNode (lit "cpus") [property_u32 (lit "#address-cells") 1; property_u32 (lit "#size-cells") 0]
    (map (fun i => cpu_node (Z.of_nat i)) (seq 0 n)).

Definition psci_node : fdt_node :=
  FdtNode (lit "psci")
    [property_string_list (lit "compatible") [lit "arm,psci-1.0"; lit "arm,psci-0.2"; lit "arm,psci"];
     property_string (lit "method") (lit "hvc"); property_u32 (lit "cpu_on") Psci.CPU_ON;
     property_u32 (lit "cpu_off") Psci.CPU_OFF; property_u32 (lit "cpu_suspend") CPU_SUSPEND;
     property_u32 (lit "migrate") MIGRATE] [].

(** Private interrupts 13, 14, 11 and 10, each with flags 0xf04. *)
Definition timer_node : fdt_node :=
  FdtNode (lit "timer")
    [property_string (lit "compatible") (lit "arm,armv8-timer"); property_null (lit "always-on");
     property_array_u32 (lit "interrupts") [1; 13; 0xf04; 1; 14; 0xf04; 1; 11; 0xf04; 1; 10; 0xf04]] [].

Definition gic_node (args : FdtBuildArgs) : fdt_node :=
  FdtNode (lit "intc@8000000")
    [property_string (lit "compatible") (lit "arm,gic-v3"); property_u32 (lit "#interrupt-cells") 3;
     property_null (lit "interrupt-controller"); property_u32 (lit "#redistributor-regions") 1;
     property_u64 (lit "redistributor-stride") (fa_gicr_size_per_vcpu args);
     property_array_u64 (lit "reg")
       [0x08000000; fa_gicd_size args; 0x080A0000; wmul 64 (fa_vcpu_count args) (fa_gicr_size_per_vcpu args)];
     property_phandle 1] [].

Definition pl011_node : fdt_node :=
  FdtNode (lit "pl011@e0a0000")
    [property_string_list (lit "compatible") [lit "arm,pl011"; lit "arm,primecell"];
     property_array_u64 (lit "reg") [0x0E0A0000; 0x1000]; property_array_u32 (lit "interrupts") [0; 1; 4];
     property_u32 (lit "clocks") 2; property_string (lit "clock-names") (lit "apb_pclk")] [].

(** The node of the transport in a slot: its window, and a shared edge-triggered interrupt. *)
Definition virtio_node (sl : Slots.Slot) : fdt_node :=
  FdtNode (lit "virtio_mmio@" ++ hex (Slots.sl_base sl))
    [property_string (lit "compatible") (lit "virtio,mmio");
     property_array_u64 (lit "reg") [Slots.sl_base sl; 0x1000];
     property_array_u32 (lit "interrupts") [0; Gic.as_raw (Slots.sl_intid sl) - 32; 1]] [].

Definition apb_clk_node : fdt_node :=
  FdtNode (lit "apb_clk")
    [property_string (lit "compatible") (lit "fixed-clock"); property_u32 (lit "#clock-cells") 0;
     property_u32 (lit "clock-frequency") 24000000; property_string (lit "clock-output-names") (lit "clk24mhz");
     property_phandle 2] [].

(** The whole tree, for transports in the given slots. *)
Definition microvm_tree (args : FdtBuildArgs) (slots : list Slots.Slot) : fdt_node :=
  FdtNode []
    [property_string (lit "model") (lit "squib,microvm");
     property_string_list (lit "compatible") [lit "linux,squib-microvm"; lit "linux,dummy-virt"];
     property_u32 (lit "#address-cells") 2; property_u32 (lit "#size-cells") 2; property_u32 (lit "interrupt-parent") 1]
    ([chosen_node args; memory_node (fa_memory args); cpus_node (Z.to_nat (fa_vcpu_count args));
      psci_node; timer_node; gic_node args; pl011_node] ++ map virtio_node slots ++ [apb_clk_node]).

(** ** Writing the tree *)

Section build.
Context {W N : Type} `{!FdtWriter W N}.

Definition fdtm := stm W FdtError.

(** [?] on a writer call. *)
Definition lift {A} (c : stm W FdtBuildError A) : fdtm A :=
  fun w => let (w', r) := c w in (w', map_err (fun e => Builder (inl e)) r).

Definition begin_node (name : list Z) : fdtm N := lift (fw_begin_node name).
Definition end_node (n : N) : fdtm unit := lift (fw_end_node n).
Definition property (p : FdtProp) : fdtm unit := lift (fw_property p).

Definition for_each {A} (f : A -> fdtm unit) : list A -> fdtm unit :=
  fix go l :=
    match l with
    | [] => st_ret tt
    | a :: l' => let! _ := f a in go l'
    end.

Definition add_chosen (args : FdtBuildArgs) : fdtm unit :=
  let! chosen := begin_node (lit "chosen") in
  let! _ := property (property_string (lit "bootargs") (fa_boot_args args)) in
  let! _ := property (property_string (lit "stdout-path") (lit "/pl011@e0a0000")) in
  let! _ := property (property_null (lit "linux,earlycon")) in
  let! _ := match fa_initrd args with
            | Some rd =>
                let! _ := property (property_u64 (lit "linux,initrd-start") (ir_start rd)) in
                property (property_u64 (lit "linux,initrd-end") (ir_end rd))
            | None => st_ret tt
            end in
  end_node chosen.

Definition add_memory (args : FdtBuildArgs) : fdtm unit :=
  let! memory := begin_node (lit "memory@" ++ hex (mr_base (fa_memory args))) in
  let! _ := property (property_string (lit "device_type") (lit "memory")) in
  let! _ := property (property_array_u64 (lit "reg") [mr_base (fa_memory args); mr_size (fa_memory args)]) in
  end_node memory.

Definition add_cpu (index : Z) : fdtm unit :=
  let mpidr := mpidr_for_index index in
  let! cpu := begin_node (lit "cpu@" ++ hex (Z.land mpidr 0x00FFFFFF)) in
  let! _ := property (property_string (lit "device_type") (lit "cpu")) in
  let! _ := property (property_string (lit "compatible") (lit "arm,armv8")) in
  let! _ := property (property_string (lit "enable-method") (lit "psci")) in
  let! _ := property (property_u32 (lit "reg") (wrap 32 (Z.land mpidr 0x00FFFFFF))) in
  end_node cpu.

Definition add_cpus (args : FdtBuildArgs) : fdtm unit :=
  let! cpus := begin_node (lit "cpus") in
  let! _ := property (property_u32 (lit "#address-cells") 1) in
  let! _ := property (property_u32 (lit "#size-cells") 0) in
  let! _ := for_each add_cpu (map Z.of_nat (seq 0 (Z.to_nat (fa_vcpu_count args)))) in
  end_node cpus.

Definition add_psci : fdtm unit :=
  let! psci := begin_node (lit "psci") in
  let! _ := property (property_string_list (lit "compatible") [lit "arm,psci-1.0"; lit "arm,psci-0.2"; lit "arm,psci"]) in
  let! _ := property (property_string (lit "method") (lit "hvc")) in
  let! _ := property (property_u32 (lit "cpu_on") Psci.CPU_ON) in
  let! _ := property (property_u32 (lit "cpu_off") Psci.CPU_OFF) in
  let! _ := property (property_u32 (lit "cpu_suspend") CPU_SUSPEND) in
  let! _ := property (property_u32 (lit "migrate") MIGRATE) in
  end_node psci.

Definition add_timer : fdtm unit :=
  let! timer := begin_node (lit "timer") in
  let! _ := property (property_string (lit "compatible") (lit "arm,armv8-timer")) in
  let! _ := property (property_null (lit "always-on")) in
  let level_high_shareable := Z.lor (Z.shiftl 0xF 8) (Gic.fdt_flags Gic.LevelHigh) in
  let interrupts := [ipi_cell CNTPS level_high_shareable; ipi_cell CNTP level_high_shareable;
                     ipi_cell CNTV level_high_shareable; ipi_cell CNTHP level_high_shareable] in
  let! _ := property (property_array_u32 (lit "interrupts") (mjoin interrupts)) in
  end_node timer.

Definition add_gic (args : FdtBuildArgs) : fdtm unit :=
  let! gic := begin_node (lit "intc@" ++ hex Layout.GICD_BASE) in
  let! _ := property (property_string (lit "compatible") (lit "arm,gic-v3")) in
  let! _ := property (property_u32 (lit "#interrupt-cells") 3) in
  let! _ := property (property_null (lit "interrupt-controller")) in
  let! _ := property (property_u32 (lit "#redistributor-regions") 1) in
  let! _ := property (property_u64 (lit "redistributor-stride") (fa_gicr_size_per_vcpu args)) in
  let live_redistributor := wmul 64 (fa_vcpu_count args) (fa_gicr_size_per_vcpu args) in
  let! _ := property (property_array_u64 (lit "reg")
              [Layout.GICD_BASE; fa_gicd_size args; Layout.GICR_BASE; live_redistributor]) in
  let! _ := property (property_phandle PHANDLE_GIC) in
  end_node gic.

Definition add_pl011 : fdtm unit :=
  let! pl011 := begin_node (lit "pl011@" ++ hex Layout.PL011_BASE) in
  let! _ := property (property_string_list (lit "compatible") [lit "arm,pl011"; lit "arm,primecell"]) in
  let! _ := property (property_array_u64 (lit "reg") [Layout.PL011_BASE; Layout.PL011_SIZE]) in
  let! _ := property (property_array_u32 (lit "interrupts") (irq_cell Gic.PL011 Gic.LevelHigh)) in
  let! _ := property (property_u32 (lit "clocks") PHANDLE_APB_CLK) in
  let! _ := property (property_string (lit "clock-names") (lit "apb_pclk")) in
  end_node pl011.

Definition virtio_base (dev : VirtioSlot) : Z :=
  wadd 64 Layout.VIRTIO_MMIO_BASE (wmul 64 (vs_slot dev) virtio_mmio_stride).

Definition add_virtio_device (dev : VirtioSlot) : fdtm unit :=
  let base := virtio_base dev in
  let! node := begin_node (lit "virtio_mmio@" ++ hex base) in
  let! _ := property (property_string (lit "compatible") (lit "virtio,mmio")) in
  let! _ := property (property_array_u64 (lit "reg") [base; virtio_mmio_stride]) in
  match Gic.from_spi_cell (wadd 32 16 (vs_slot dev)) with
  | Err e => st_fail (Builder (inr e))
  | Ok intid =>
      let! _ := property (property_array_u32 (lit "interrupts") (irq_cell intid Gic.EdgeRising)) in
      end_node node
  end.

Definition add_virtio (args : FdtBuildArgs) : fdtm unit :=
  for_each add_virtio_device (fa_virtio_devices args).

Definition add_apb_clk : fdtm unit :=
  let! clk := begin_node (lit "apb_clk") in
  let! _ := property (property_string (lit "compatible") (lit "fixed-clock")) in
  let! _ := property (property_u32 (lit "#clock-cells") 0) in
  let! _ := property (property_u32 (lit "clock-frequency") 24000000) in
  let! _ := property (property_string (lit "clock-output-names") (lit "clk24mhz")) in
  let! _ := property (property_phandle PHANDLE_APB_CLK) in
  end_node clk.

Definition write_root (args : FdtBuildArgs) : fdtm unit :=
  let! root := begin_node [] in
  let! _ := property (property_string (lit "model") (lit "squib,microvm")) in
  let! _ := property (property_string_list (lit "compatible") [lit "linux,squib-microvm"; lit "linux,dummy-virt"]) in
  let! _ := property (property_u32 (lit "#address-cells") 2) in
  let! _ := property (property_u32 (lit "#size-cells") 2) in
  let! _ := property (property_u32 (lit "interrupt-parent") PHANDLE_GIC) in
  let! _ := add_chosen args in
  let! _ := add_memory args in
  let! _ := add_cpus args in
  let! _ := add_psci in
  let! _ := add_timer in
  let! _ := add_gic args in
  let! _ := add_pl011 in
  let! _ := add_virtio args in
  let! _ := add_apb_clk in
  end_node root.

(** The loop over the slots with its set of slots seen. *)
Fixpoint slots_ok (seen : list Z) (devs : list VirtioSlot) : bool :=
  match devs with
  | [] => true
  | dev :: devs =>
      if (virtio_mmio_slots <=? vs_slot dev) || bool_decide (vs_slot dev ∈ seen) then false
      else slots_ok (vs_slot dev :: seen) devs
  end.

(** The checks of [build] before it writes anything. *)
Definition check_args (args : FdtBuildArgs) : result FdtError unit :=
  if fa_vcpu_count args =? 0 then Err NoVcpus
  else if virtio_mmio_slots <? zlen (fa_virtio_devices args)
  then Err (TooManyVirtioSlots (zlen (fa_virtio_devices args)))
  else if existsb (Z.eqb 0) (to_string (fa_boot_args args)) then Err NulInBootArgs
  else if slots_ok [] (fa_virtio_devices args) then Ok tt
  else Err (TooManyVirtioSlots (zlen (fa_virtio_devices args))).

Definition build (args : FdtBuildArgs) : result FdtError (list Z) :=
  let? _ := check_args args in
  let? fdt := map_err (fun e => Builder (inl e)) fw_new in
  match write_root args fdt with
  | (_, Err e) => Err e
  | (fdt, Ok _) => map_err (fun e => Builder (inl e)) (fw_finish fdt)
  end.

Fixpoint write_node (n : fdt_node) : fdtm unit :=
  match n with
  | FdtNode name props children =>
      let! t := begin_node name in
      let! _ := for_each property props in
      let! _ := for_each write_node children in
      end_node t
  end.

Lemma for_each_app {A} (f : A -> fdtm unit) l1 l2 :
  st_eq (for_each f (l1 ++ l2)) (let! _ := for_each f l1 in for_each f l2).
Proof.
  induction l1 as [|a l1 IH]; cbn [for_each app]; [by rewrite st_bind_ret|].
  rewrite st_bind_assoc. by setoid_rewrite IH.
Qed.

Lemma for_each_ext {A B} (f : A -> fdtm unit) (g : B -> fdtm unit) l l' :
  Forall2 (fun a b => st_eq (f a) (g b)) l l' -> st_eq (for_each f l) (for_each g l').
Proof. induction 1 as [|a b l l' H _ IH]; [done|]. cbn [for_each]. rewrite H. by setoid_rewrite IH. Qed.

Lemma for_each_cons_bind {A B} (f : A -> fdtm unit) a l (k : unit -> fdtm B) :
  st_eq (let! x := for_each f (a :: l) in k x) (let! _ := f a in let! x := for_each f l in k x).
Proof. apply st_bind_assoc. Qed.

Lemma for_each_nil_bind {A B} (f : A -> fdtm unit) (k : unit -> fdtm B) :
  st_eq (let! x := for_each f [] in k x) (k tt).
Proof. done. Qed.

Lemma bind_cong {A B} (c d : fdtm A) (k l : A -> fdtm B) :
  st_eq c d -> (forall a, st_eq (k a) (l a)) -> st_eq (let! x := c in k x) (let! x := d in l x).
Proof. intros H K. by apply st_bind_proper. Qed.

(** A sequence of calls against the loops that [write_node] runs. *)
Ltac same_calls :=
  cbn [write_node app initrd_props];
  repeat first [ reflexivity | eassumption
               | rewrite for_each_cons_bind | rewrite for_each_nil_bind | rewrite st_bind_assoc | rewrite st_bind_ret
               | apply bind_cong; [try reflexivity; try done|intros ?] ].

Lemma add_chosen_tree args : st_eq (add_chosen args) (write_node (chosen_node args)).
Proof. unfold add_chosen, chosen_node. destruct (fa_initrd args); same_calls. Qed.

Lemma add_memory_tree args : st_eq (add_memory args) (write_node (memory_node (fa_memory args))).
Proof. unfold add_memory, memory_node. same_calls. Qed.

Lemma mpidr_affinity i : 0 <= i < 2 ^ 12 -> Z.land (mpidr_for_index i) 0x00FFFFFF = affinity i.
Proof.
  intros Hi. unfold mpidr_for_index, affinity.
  change 0xF with (Z.ones 4). change 0xFF with (Z.ones 8). change 0x00FFFFFF with (Z.ones 24).
  rewrite !Z.land_ones, Z.shiftr_div_pow2, Z.shiftl_mul_pow2 by lia.
  assert (0 <= i / 2 ^ 4 < 2 ^ 8) by (split; [apply Z.div_pos|apply Z.div_lt_upper_bound]; lia).
  rewrite (Z.mod_small (i / 2 ^ 4)) by lia.
  pose proof (Z.mod_pos_bound i (2 ^ 4) ltac:(lia)).
  rewrite lor_mul_pow2 by lia. rewrite Z.mod_small by lia. change (2 ^ 4) with 16 in *. lia.
Qed.

Lemma add_cpu_tree i : 0 <= i < 2 ^ 12 -> st_eq (add_cpu i) (write_node (cpu_node i)).
Proof.
  intros Hi. unfold add_cpu, cpu_node. cbn zeta. rewrite mpidr_affinity by done.
  assert (Ha : 0 <= affinity i < 2 ^ 24) by (unfold affinity; pose proof (Z.div_mod i 16); pose proof (Z.mod_pos_bound i 16); lia).
  rewrite (wrap_small 32 (affinity i)) by (unfold in_u; lia). same_calls.
Qed.

Lemma add_cpus_tree args :
  0 <= fa_vcpu_count args <= 2 ^ 12 -> st_eq (add_cpus args) (write_node (cpus_node (Z.to_nat (fa_vcpu_count args)))).
Proof.
  intros Hn. unfold add_cpus, cpus_node. same_calls. apply for_each_ext.
  rewrite Forall2_fmap_l, Forall2_fmap_r. apply Forall_Forall2_diag, Forall_forall.
  intros i Hi%elem_of_seq. apply add_cpu_tree. lia.
Qed.

Lemma add_psci_tree : st_eq add_psci (write_node psci_node).
Proof. unfold add_psci, psci_node. same_calls. Qed.

Lemma add_timer_tree : st_eq add_timer (write_node timer_node).
Proof. unfold add_timer, timer_node. cbn zeta. same_calls. Qed.

Lemma add_gic_tree args : st_eq (add_gic args) (write_node (gic_node args)).
Proof. unfold add_gic, gic_node. cbn zeta. same_calls. Qed.

Lemma add_pl011_tree : st_eq add_pl011 (write_node pl011_node).
Proof. unfold add_pl011, pl011_node. same_calls. Qed.

Lemma add_apb_clk_tree : st_eq add_apb_clk (write_node apb_clk_node).
Proof. unfold add_apb_clk, apb_clk_node. same_calls. Qed.

(** The slot that the node of a device describes. *)
Definition slot_of (dev : VirtioSlot) : Slots.Slot :=
  Slots.mkSlot (vs_slot dev) (0x0F000000 + vs_slot dev * 0x1000) (Gic.mkIntId (48 + vs_slot dev)).

Lemma virtio_base_slot dev : 0 <= vs_slot dev < 32 -> virtio_base dev = Slots.sl_base (slot_of dev).
Proof.
  intros Hs. unfold virtio_base, wadd, wmul, virtio_mmio_stride, Layout.VIRTIO_MMIO_BASE.
  by rewrite !wrap_small by (unfold in_u; rewrite ?wrap_small; unfold in_u; lia).
Qed.

Lemma spi_cell_edge i :
  32 <= i <= Gic.SPI_INTID_MAX -> irq_cell (Gic.mkIntId i) Gic.EdgeRising = [0; i - 32; 1].
Proof.
  unfold Gic.SPI_INTID_MAX. intros Hi. unfold irq_cell, Gic.fdt_cell_type, Gic.fdt_cell_offset, Gic.is_ppi. cbn [Gic.as_raw].
  unfold Gic.PPI_INTID_MIN, Gic.PPI_INTID_MAX, Gic.SPI_INTID_MIN.
  destruct (Z.leb_spec 16 i), (Z.leb_spec i 31); try lia. cbn [andb].
  by rewrite wrap_small by (unfold in_u; lia).
Qed.

Lemma add_virtio_device_tree dev :
  0 <= vs_slot dev < 32 -> st_eq (add_virtio_device dev) (write_node (virtio_node (slot_of dev))).
Proof.
  intros Hs. unfold add_virtio_device, virtio_node. cbn zeta. rewrite (virtio_base_slot dev Hs).
  rewrite (from_spi_cell_ok (wadd 32 16 (vs_slot dev))) by (apply wrap_in_u; lia).
  unfold wadd. rewrite wrap_small by (unfold in_u; lia). rewrite (proj2 (Z.leb_le _ _)) by lia.
  rewrite spi_cell_edge by (unfold Gic.SPI_INTID_MAX; lia).
  replace (32 + (16 + vs_slot dev) - 32) with (Gic.as_raw (Slots.sl_intid (slot_of dev)) - 32) by (cbn; lia).
  same_calls.
Qed.

Lemma slots_ok_spec seen devs :
  slots_ok seen devs = true <->
  Forall (fun d => vs_slot d < 32) devs /\ NoDup (map vs_slot devs) /\ Forall (fun d => vs_slot d ∉ seen) devs.
Proof.
  revert seen. induction devs as [|d devs IH]; intros seen; cbn [slots_ok map].
  { split; [intros _; repeat split; constructor|done]. }
  unfold virtio_mmio_slots. rewrite !Forall_cons, NoDup_cons.
  destruct (Z.leb_spec 32 (vs_slot d)); cbn [orb]; [split; [done|intros [[? _] _]; lia]|].
  case_bool_decide as Hin; [split; [done|intros (_ & _ & [? _]); done]|].
  rewrite IH, list_elem_of_fmap. setoid_rewrite not_elem_of_cons. rewrite Forall_and. split.
  - intros (H1 & H2 & H3 & H4). split_and!; try done. intros (x & Hx & Hd). rewrite Forall_forall in H3. by eapply H3.
  - intros ([_ H1] & [H2 H3] & [_ H4]). split_and!; try done. apply Forall_forall. intros x Hx Hd.
    apply H2. by exists x.
Qed.

(** The slots of accepted arguments. *)
Definition tree_slots (args : FdtBuildArgs) : list Slots.Slot := map slot_of (fa_virtio_devices args).

Lemma add_virtio_tree args :
  Forall (fun d => 0 <= vs_slot d < 32) (fa_virtio_devices args) ->
  st_eq (add_virtio args) (for_each write_node (map virtio_node (tree_slots args))).
Proof.
  intros Hd. unfold add_virtio, tree_slots. apply for_each_ext. rewrite !Forall2_fmap_r.
  apply Forall_Forall2_diag. eapply Forall_impl; [exact Hd|]. intros d Hs. by apply add_virtio_device_tree.
Qed.

Lemma write_child c n (k d : fdtm unit) ns :
  st_eq c (write_node n) -> st_eq k (let! _ := for_each write_node ns in d) ->
  st_eq (let! _ := c in k) (let! _ := for_each write_node (n :: ns) in d).
Proof. intros Hc Hk. rewrite for_each_cons_bind. by apply bind_cong. Qed.

Lemma write_root_tree args :
  0 <= fa_vcpu_count args <= 2 ^ 12 -> Forall (fun d => 0 <= vs_slot d < 32) (fa_virtio_devices args) ->
  st_eq (write_root args) (write_node (microvm_tree args (tree_slots args))).
Proof.
  intros Hn Hd. unfold write_root, microvm_tree. cbn [write_node app].
  apply bind_cong; [done|intros root]. do 5 (rewrite for_each_cons_bind; apply bind_cong; [done|intros _]).
  rewrite for_each_nil_bind.
  apply write_child; [apply add_chosen_tree|]. apply write_child; [apply add_memory_tree|].
  apply write_child; [by apply add_cpus_tree|]. apply write_child; [apply add_psci_tree|].
  apply write_child; [apply add_timer_tree|]. apply write_child; [apply add_gic_tree|].
  apply write_child; [apply add_pl011_tree|].
  rewrite for_each_app, st_bind_assoc. apply bind_cong; [by apply add_virtio_tree|intros _].
  apply write_child; [apply add_apb_clk_tree|]. done.
Qed.

(** Arguments that [build] accepts, by their values. *)
Definition args_ok (args : FdtBuildArgs) : Prop :=
  fa_vcpu_count args <> 0 /\ zlen (fa_virtio_devices args) <= 32 /\ (0 ∉ to_string (fa_boot_args args)) /\
  Forall (fun d => vs_slot d < 32) (fa_virtio_devices args) /\ NoDup (map vs_slot (fa_virtio_devices args)).

Lemma check_args_spec args : check_args args = Ok tt <-> args_ok args.
Proof.
  unfold check_args, args_ok, virtio_mmio_slots.
  destruct (Z.eqb_spec (fa_vcpu_count args) 0); [split; [done|intros [? _]; done]|].
  destruct (Z.ltb_spec 32 (zlen (fa_virtio_devices args))); [split; [done|intros (_ & ? & _); lia]|].
  destruct (existsb (Z.eqb 0) (to_string (fa_boot_args args))) eqn:E.
  - apply existsb_exists in E as (x & Hx & <-%Z.eqb_eq). split; [done|]. intros (_ & _ & Hn & _).
    by apply list_elem_of_In in Hx.
  - assert (0 ∉ to_string (fa_boot_args args)).
    { intros Hx%list_elem_of_In. apply not_true_iff_false in E. apply E, existsb_exists. by exists 0. }
    pose proof (slots_ok_spec [] (fa_virtio_devices args)) as Hs.
    destruct (slots_ok [] (fa_virtio_devices args)).
    + split; [intros _|done]. by destruct (proj1 Hs eq_refl) as (? & ? & _).
    + split; [done|]. intros (_ & _ & _ & H1 & H2). enough (false = true) by done. apply Hs.
      split_and!; [done..|]. apply Forall_forall. intros x _. apply not_elem_of_nil.
Qed.

Lemma build_ok_inv args bytes :
  0 <= fa_vcpu_count args <= 2 ^ 12 -> Forall (fun d => 0 <= vs_slot d) (fa_virtio_devices args) ->
  build args = Ok bytes ->
  args_ok args /\
  exists w w', fw_new = Ok w /\ write_node (microvm_tree args (tree_slots args)) w = (w', Ok tt) /\ fw_finish w' = Ok bytes.
Proof.
  intros Hn Hs H. unfold build in H. destruct (check_args args) as [[]|] eqn:Hc; [|done].
  apply check_args_spec in Hc as Ha. split; [done|].
  destruct fw_new as [w|]; cbn in H; [|done]. exists w.
  assert (Hd : Forall (fun d => 0 <= vs_slot d < 32) (fa_virtio_devices args)).
  { destruct Ha as (_ & _ & _ & Ha & _). rewrite Forall_forall in Hs, Ha |- *. intros d Hd. split; [by apply Hs|by apply Ha]. }
  rewrite (write_root_tree args Hn Hd) in H. destruct (write_node _ w) as [w' [[]|e]] eqn:Hw; [|done].
  exists w'. split; [done|]. split; [done|]. by destruct (fw_finish w'); simplify_eq/=.
Qed.

End build.

(** ** Names and cells of the tree *)

Definition hex_undigit (c : Z) : Z := if c <? 58 then c - 48 else c - 87.

Definition hex_val (s : list Z) (acc : Z) : Z := fold_left (fun a c => 16 * a + hex_undigit c) s acc.

Lemma hex_undigit_digit d : 0 <= d < 16 -> hex_undigit (hex_digit d) = d.
Proof.
  intros Hd. unfold hex_undigit, hex_digit. destruct (Z.ltb_spec d 10).
  - destruct (Z.ltb_spec (48 + d) 58); lia.
  - destruct (Z.ltb_spec (87 + d) 58); lia.
Qed.

Lemma hex_loop_val fuel : forall n acc, 0 <= n < 2 ^ Z.of_nat fuel -> (0 < fuel)%nat ->
  hex_val (hex_loop fuel n acc) 0 = hex_val acc n.
Proof.
  induction fuel as [|fuel IH]; intros n acc Hn Hf; [lia|]. cbn [hex_loop].
  pose proof (Z.div_mod n 16 ltac:(lia)). pose proof (Z.mod_pos_bound n 16 ltac:(lia)).
  destruct (Z.ltb_spec n 16) as [Hlt|Hge].
  - unfold hex_val. cbn [fold_left]. rewrite hex_undigit_digit by lia. f_equal. rewrite Z.mod_small by lia. lia.
  - rewrite Nat2Z.inj_succ, Z.pow_succ_r in Hn by lia. destruct fuel as [|fuel]; [cbn in Hn; lia|].
    rewrite IH by lia. unfold hex_val. cbn [fold_left]. rewrite hex_undigit_digit by lia. f_equal. lia.
Qed.

Lemma hex_val_hex n : 0 <= n -> hex_val (hex n) 0 = n.
Proof. intros Hn. unfold hex. rewrite hex_loop_val; [done|by apply decimal_fuel|lia]. Qed.

Lemma hex_inj m n : 0 <= m -> 0 <= n -> hex m = hex n -> m = n.
Proof. intros Hm Hn H. by rewrite <- (hex_val_hex m Hm), <- (hex_val_hex n Hn), H. Qed.

Definition node_name (n : fdt_node) : list Z := match n with FdtNode name _ _ => name end.
Definition node_props (n : fdt_node) : list FdtProp := match n with FdtNode _ props _ => props end.
Definition node_children (n : fdt_node) : list fdt_node := match n with FdtNode _ _ children => children end.

Lemma affinity_inj i j : 0 <= i -> 0 <= j -> affinity i = affinity j -> i = j.
Proof.
  unfold affinity. intros Hi Hj H.
  pose proof (Z.div_mod i 16 ltac:(lia)). pose proof (Z.mod_pos_bound i 16 ltac:(lia)).
  pose proof (Z.div_mod j 16 ltac:(lia)). pose proof (Z.mod_pos_bound j 16 ltac:(lia)). lia.
Qed.

Lemma slot_of_index d : 0 <= vs_slot d < 32 -> Slots.from_index (vs_slot d) = Ok (slot_of d).
Proof. intros Hd. by rewrite slot_from_index by done. Qed.

Lemma slot_base_inj d d' : Slots.sl_base (slot_of d) = Slots.sl_base (slot_of d') -> vs_slot d = vs_slot d'.
Proof. cbn. lia. Qed.

Lemma cpu_names_NoDup n : NoDup (map node_name (node_children (cpus_node n))).
Proof.
  cbn [cpus_node node_children]. rewrite map_map. apply NoDup_fmap_2_strong; [|apply NoDup_seq].
  intros i j _ _ H. cbn [node_name cpu_node] in H. apply app_inv_head in H.
  assert (Ha : forall k, 0 <= affinity (Z.of_nat k)) by
    (intros k; unfold affinity; pose proof (Z.mod_pos_bound (Z.of_nat k) 16); pose proof (Z.div_pos (Z.of_nat k) 16); lia).
  apply hex_inj in H; [|apply Ha..]. apply affinity_inj in H; lia.
Qed.

Lemma virtio_names_NoDup args :
  Forall (fun d => 0 <= vs_slot d) (fa_virtio_devices args) -> NoDup (map vs_slot (fa_virtio_devices args)) ->
  NoDup (map node_name (map virtio_node (tree_slots args))).
Proof.
  intros H0 Hd. unfold tree_slots. rewrite !map_map.
  rewrite (map_ext _ (fun d => (fun i => lit "virtio_mmio@" ++ hex (0x0F000000 + i * 0x1000)) (vs_slot d))) by done.
  rewrite <- (map_map vs_slot (fun i => lit "virtio_mmio@" ++ hex (0x0F000000 + i * 0x1000))).
  apply NoDup_fmap_2_strong; [|done]. rewrite Forall_forall in H0.
  intros i j (d & -> & Hi)%list_elem_of_fmap (d' & -> & Hj)%list_elem_of_fmap H%app_inv_head.
  apply hex_inj in H; [lia| |]; [specialize (H0 d Hi)|specialize (H0 d' Hj)]; cbn in *; lia.
Qed.

(** No name of the tree's fixed children begins like that of a transport. *)
Lemma root_names_NoDup args :
  Forall (fun d => 0 <= vs_slot d) (fa_virtio_devices args) -> NoDup (map vs_slot (fa_virtio_devices args)) ->
  NoDup (map node_name (node_children (microvm_tree args (tree_slots args)))).
Proof.
  intros H0 Hd. cbn [microvm_tree node_children]. rewrite !map_app. apply NoDup_app. split_and!.
  - cbn. repeat (apply NoDup_cons; split; [rewrite ?not_elem_of_cons; repeat split; try discriminate; apply not_elem_of_nil|]).
    constructor.
  - intros n Hn [Hv|Ha]%elem_of_app.
    + apply list_elem_of_fmap in Hv as (y & -> & (sl & -> & _)%list_elem_of_fmap). revert Hn. cbn.
      rewrite !elem_of_cons. intros Hn. by destruct_or? Hn; [..|apply not_elem_of_nil in Hn].
    + apply list_elem_of_singleton in Ha as ->. revert Hn. cbn.
      rewrite !elem_of_cons. intros Hn. by destruct_or? Hn; [..|apply not_elem_of_nil in Hn].
  - apply NoDup_app. split_and!; [by apply virtio_names_NoDup| |apply NoDup_singleton].
    intros n (y & -> & (sl & -> & _)%list_elem_of_fmap)%list_elem_of_fmap Ha. by apply list_elem_of_singleton in Ha.
Qed.

(** The tree of accepted arguments names each of its nodes apart from its siblings, gives each
    device the window of its slot in the slot allocator, and an interrupt cell that
    decodes to the interrupt of that slot. *)
Theorem tree_describes_slots args (Hok : args_ok args)
    (Hs : Forall (fun d => 0 <= vs_slot d) (fa_virtio_devices args)) :
  NoDup (map node_name (node_children (microvm_tree args (tree_slots args)))) /\
  NoDup (map node_name (node_children (cpus_node (Z.to_nat (fa_vcpu_count args))))) /\
  Forall2 (fun d sl =>
      Slots.from_index (vs_slot d) = Ok sl /\
      exists cell, node_props (virtio_node sl) =
          [property_string (lit "compatible") (lit "virtio,mmio");
           property_array_u64 (lit "reg") [Slots.sl_base sl; Slots.VIRTIO_MMIO_REGION_SIZE];
           property_array_u32 (lit "interrupts") [Gic.FDT_CELL_TYPE_SPI; cell; Gic.fdt_flags Gic.EdgeRising]] /\
        Gic.from_spi_cell cell = Ok (Slots.sl_intid sl))
    (fa_virtio_devices args) (tree_slots args).
Proof.
  destruct Hok as (_ & _ & _ & Hlt & Hd). split_and!.
  - by apply root_names_NoDup.
  - apply cpu_names_NoDup.
  - unfold tree_slots. apply Forall2_fmap_r, Forall_Forall2_diag. rewrite Forall_forall in Hs, Hlt.
    apply Forall_forall. intros d Hin. specialize (Hs d Hin). specialize (Hlt d Hin). cbn in Hs, Hlt.
    split; [by apply slot_of_index|]. eexists. split; [reflexivity|]. cbn [slot_of Slots.sl_intid Gic.as_raw].
    rewrite from_spi_cell_ok by (unfold in_u; lia). rewrite (proj2 (Z.leb_le _ _)) by lia. do 2 f_equal. lia.
Qed.

(** ** Composing boot arguments *)

Lemma split_ascii_space a b cur :
  split_ascii_from cur (a ++ 32 :: b) = split_ascii_from cur a ++ split_ascii_whitespace b.
Proof.
  revert cur. induction a as [|c a IH]; intros cur; cbn [app split_ascii_from]; [done|].
  destruct (is_ascii_whitespace c); [|done]. by rewrite IH, app_assoc.
Qed.

Lemma split_push_arg buf arg :
  split_ascii_whitespace (push_arg buf arg) = split_ascii_whitespace buf ++ split_ascii_whitespace arg.
Proof.
  unfold push_arg. destruct (decide (buf = [])) as [->|]; [done|].
  rewrite <- app_assoc. apply (split_ascii_space buf arg []).
Qed.

(** What is appended for a key the user did not give. *)
Definition default_for (trimmed key arg : list Z) : list (list Z) :=
  if key_present trimmed key then [] else split_ascii_whitespace arg.

Definition root_default (trimmed : list Z) (p : option (list Z)) : list (list Z) :=
  match p with
  | Some uuid => default_for trimmed (lit "root") (lit "root=PARTUUID=" ++ uuid)
  | None => []
  end.

Lemma split_compose u p :
  split_ascii_whitespace (compose_boot_args u p) =
    split_ascii_whitespace (trim u) ++ default_for (trim u) (lit "console") (lit "console=ttyAMA0") ++
    default_for (trim u) (lit "panic") (lit "panic=1") ++ root_default (trim u) p.
Proof.
  unfold compose_boot_args, root_default, default_for.
  destruct (key_present (trim u) (lit "console")), (key_present (trim u) (lit "panic")), p as [uuid|];
    cbn [negb]; try destruct (key_present (trim u) (lit "root")); cbn [negb app];
    rewrite ?split_push_arg, ?app_nil_r, <- ?app_assoc; done.
Qed.

(** The values a command line gives a key, in order. *)
Definition values_of (key : list Z) (ts : list (list Z)) : list (list Z) :=
  filter (fun t => token_head t = key) ts.

Lemma key_present_values args key : key_present args key = true <-> values_of key (split_ascii_whitespace args) <> [].
Proof.
  unfold key_present, values_of. rewrite existsb_exists. split.
  - intros (t & Ht & Hh%bool_decide_eq_true) Hn. apply list_elem_of_In in Ht.
    eapply not_elem_of_nil. rewrite <- Hn. by apply list_elem_of_filter.
  - destruct (filter _ _) as [|t ts] eqn:E; [done|]. intros _. exists t.
    assert (Ht : t ∈ filter (fun t => token_head t = key) (split_ascii_whitespace args)) by (rewrite E; left).
    apply list_elem_of_filter in Ht as [? ?]. rewrite bool_decide_eq_true. by split; [apply list_elem_of_In|].
Qed.

Lemma split_word_ascii w : Forall (fun c => is_ascii_whitespace c = false) w -> w <> [] -> split_ascii_whitespace w = [w].
Proof.
  intros Hw Hne. unfold split_ascii_whitespace.
  enough (H : forall cur, cur ++ w <> [] -> split_ascii_from cur w = [cur ++ w]) by (by apply H).
  clear Hne. induction w as [|c w IH]; intros cur Hne; cbn [split_ascii_from].
  - rewrite app_nil_r in *. by destruct (decide (cur = [])).
  - apply Forall_cons_iff in Hw as [-> Hw]. rewrite IH by (try done; by destruct cur). by rewrite <- app_assoc.
Qed.

(** A partition identifier that is one word. *)
Definition uuid_ok (p : option (list Z)) : Prop :=
  match p with Some uuid => Forall (fun c => is_ascii_whitespace c = false) uuid | None => True end.

Lemma values_default trimmed k w key :
  Forall (fun c => is_ascii_whitespace c = false) w -> w <> [] -> token_head w = k ->
  values_of key (default_for trimmed k w) =
    if decide (key = k /\ values_of k (split_ascii_whitespace trimmed) = []) then [w] else [].
Proof.
  intros Hw Hne Hk. unfold default_for. pose proof (key_present_values trimmed k) as Hp.
  destruct (key_present trimmed k).
  - rewrite decide_False; [done|]. intros [_ H]. by apply Hp.
  - rewrite split_word_ascii by done. unfold values_of at 1. rewrite filter_cons, Hk, filter_nil.
    destruct (values_of k (split_ascii_whitespace trimmed)) as [|v vs]; [|discriminate (proj2 Hp ltac:(done))].
    by destruct (decide (k = key)) as [->|]; [rewrite decide_True|rewrite decide_False by (by intros [-> _])].
Qed.

Lemma values_root_default trimmed p key :
  uuid_ok p ->
  values_of key (root_default trimmed p) =
    match p with
    | Some uuid => if decide (key = lit "root" /\ values_of (lit "root") (split_ascii_whitespace trimmed) = [])
                   then [lit "root=PARTUUID=" ++ uuid] else []
    | None => []
    end.
Proof.
  intros Hp. destruct p as [uuid|]; [|done]. apply values_default; [|done|done].
  apply Forall_app. split; [repeat constructor|done].
Qed.

Lemma values_compose u p key :
  uuid_ok p ->
  let user := split_ascii_whitespace (trim u) in
  values_of key (split_ascii_whitespace (compose_boot_args u p)) =
    values_of key user ++
    (if decide (key = lit "console" /\ values_of (lit "console") user = []) then [lit "console=ttyAMA0"] else []) ++
    (if decide (key = lit "panic" /\ values_of (lit "panic") user = []) then [lit "panic=1"] else []) ++
    match p with
    | Some uuid => if decide (key = lit "root" /\ values_of (lit "root") user = [])
                   then [lit "root=PARTUUID=" ++ uuid] else []
    | None => []
    end.
Proof.
  intros Hp. cbn zeta. rewrite split_compose. unfold values_of at 1. rewrite !filter_app.
  fold (values_of key (split_ascii_whitespace (trim u))).
  fold (values_of key (default_for (trim u) (lit "console") (lit "console=ttyAMA0"))).
  fold (values_of key (default_for (trim u) (lit "panic") (lit "panic=1"))).
  fold (values_of key (root_default (trim u) p)).
  rewrite values_root_default by done. by rewrite !values_default by (try repeat constructor; done).
Qed.

(** Boot arguments are composed by appending: the user's words come first and unchanged, then
    a console, panic and root default for each of these keys the user did not set.  A key
    the user set keeps exactly the user's values, and no other key appears. *)
Theorem boot_args_append_if_absent u p (Hp : uuid_ok p) :
  let user := split_ascii_whitespace (trim u) in
  let all := split_ascii_whitespace (compose_boot_args u p) in
  user `prefix_of` all /\
  (forall key, values_of key user <> [] -> values_of key all = values_of key user) /\
  (forall key, key <> lit "console" -> key <> lit "panic" -> key <> lit "root" -> values_of key all = values_of key user) /\
  (values_of (lit "console") user = [] -> values_of (lit "console") all = [lit "console=ttyAMA0"]) /\
  (values_of (lit "panic") user = [] -> values_of (lit "panic") all = [lit "panic=1"]) /\
  (values_of (lit "root") user = [] ->
     values_of (lit "root") all = match p with Some uuid => [lit "root=PARTUUID=" ++ uuid] | None => [] end).
Proof.
  cbn zeta. pose proof (fun key => values_compose u p key Hp) as Hv. cbn zeta in Hv.
  split; [rewrite split_compose; by apply prefix_app_r|].
  split_and!; intros; rewrite Hv; clear Hv.
  - destruct p; rewrite !(decide_False (P := key = _ /\ _)) by (by intros [-> ?]); apply app_nil_r.
  - destruct p; rewrite !(decide_False (P := key = _ /\ _)) by (by intros [-> ?]); apply app_nil_r.
  - rewrite H, decide_True, decide_False by (done || intros [? _]; done). destruct p; [|done]. by rewrite decide_False by (intros [? _]; done).
  - rewrite H, (decide_False (P := lit "panic" = lit "console" /\ _)), decide_True by (done || intros [? _]; done).
    destruct p; [|done]. by rewrite decide_False by (intros [? _]; done).
  - rewrite H, !decide_False by (intros [? _]; done). destruct p; [|done]. by rewrite decide_True.
Qed.

Lemma boot_args_append_if_absent_witness :
  let all := split_ascii_whitespace (compose_boot_args (lit " console=ttyS0 quiet ") (Some (lit "abcd-01"))) in
  values_of (lit "console") all = [lit "console=ttyS0"] /\ values_of (lit "panic") all = [lit "panic=1"].
Proof.
  destruct (boot_args_append_if_absent (lit " console=ttyS0 quiet ") (Some (lit "abcd-01")) ltac:(repeat constructor))
    as (_ & Hkeep & _ & _ & Hpanic & _).
  split; [rewrite Hkeep; [vm_compute; reflexivity|vm_compute; discriminate]|apply Hpanic; vm_compute; reflexivity].
Defined.

(** ** A writer that logs names and checks nesting *)

#[export] Instance log_writer : FdtWriter (nat * list Z) nat := {
  fw_new := Ok (0%nat, []);
  fw_begin_node name := fun w => ((S w.1, w.2 ++ name ++ [0]), Ok (S w.1));
  fw_end_node n := fun w => if (n =? w.1)%nat then ((pred w.1, w.2), Ok tt) else (w, Err (mkFdtBuildError 1));
  fw_property _ := fun w => (w, Ok tt);
  fw_finish w := if (w.1 =? 0)%nat then Ok w.2 else Err (mkFdtBuildError 2)
}.

Definition demo_args : FdtBuildArgs :=
  FdtBuildArgs_new 2 (MemoryRegion_dram 0x8000000) (lit "quiet") (Some (mkInitrd 0x90000000 0x90001000))
    [mkVirtioSlot 0; mkVirtioSlot 3].

Lemma demo_args_ok : args_ok demo_args.
Proof. apply check_args_spec. vm_compute. reflexivity. Qed.


Lemma tree_describes_slots_witness :
  tree_slots demo_args = [Slots.mkSlot 0 0x0F000000 (Gic.mkIntId 48); Slots.mkSlot 3 0x0F003000 (Gic.mkIntId 51)] /\
  NoDup (map node_name (node_children (microvm_tree demo_args (tree_slots demo_args)))).
Proof.
  split; [reflexivity|].
  exact (proj1 (tree_describes_slots demo_args demo_args_ok ltac:(repeat constructor; cbn; lia))).
Defined.
