(* ===== verification/Boot.v ===== *)
(** * Boot: planning a boot and staging it in guest memory

    Models [src/crates/vmm/src/builder.rs] and [resources.rs], the VM set-up and region
    writes of [src/crates/hv/src/vmm.rs], [BootRegs] of [src/crates/arch/src/regs.rs] and
    the staging and register set-up of [src/crates/vmm/src/runner.rs].  The hypervisor
    framework is the class [AppleVisor]. *)

From stdpp Require Import base numbers list option gmap strings.
From Stdlib Require Import ZArith Lia.
From S2P Require Import Prelude GuestMem Text Arch Loader Fdt.

Local Open Scope Z_scope.
Local Open Scope squib_scope.

(** ** Resources *)

Definition INITRD_FALLBACK_OFFSET : Z := 0x10000000.

Inductive KernelSource := KernelPath (p : list Z).
Inductive InitrdSource := InitrdPath (p : list Z).

Record VmResources := mkResources {
  vr_vcpu_count : Z;
  vr_mem_size_mib : Z;
  vr_kernel : KernelSource;
  vr_initrd : option InitrdSource;
  vr_boot_args : list Z;
  vr_root_partuuid : option (list Z);
  vr_virtio_devices : list VirtioSlot
}.

Definition mem_size_bytes (r : VmResources) : Z := saturating_mul 64 (vr_mem_size_mib r) (1024 * 1024).

(** ** Boot registers *)

Definition BOOT_PSTATE : Z := 0x3C5.

Record BootRegs := mkBootRegs { br_kernel_load_addr : Z; br_fdt_addr : Z; br_pstate : Z }.

Definition BootRegs_new (kernel_load_addr fdt_addr : Z) : BootRegs :=
  mkBootRegs kernel_load_addr fdt_addr BOOT_PSTATE.

(** ** The hypervisor *)

(** [applevisor::error::HypervisorError], known by its code. *)
Record HypervisorError := mkHvError { hv_code : Z }.

Record GicSizes := mkGicSizes { gs_distributor : Z; gs_redistributor_per_vcpu : Z }.

(** The calls on [GicConfig], [VirtualMachineStaticInstance] and [Memory]. *)
Class AppleVisor (M : Type) := {
  av_distributor_size : result HypervisorError Z;
  av_redistributor_size : result HypervisorError Z;
  av_set_distributor_base : Z -> result HypervisorError unit;
  av_set_redistributor_base : Z -> result HypervisorError unit;
  av_set_msi_region_base : Z -> result HypervisorError unit;
  av_spi_interrupt_range : result HypervisorError (Z * Z);
  av_set_msi_interrupt_range : Z -> Z -> result HypervisorError unit;
  av_init_with_gic : result HypervisorError unit;
  av_get_gic : bool;
  av_memory_create : Z -> result HypervisorError M;
  av_memory_map : M -> Z -> result HypervisorError M
}.

Inductive InitError :=
  | InitHvf (e : HypervisorError)
  | InitNoGic
  | InitLayoutOverlap (vcpu_count live_gicr_end boundary : Z)
  | InitNoRegion (slot_index : Z)
  | InitEscapes (len offset size : Z)
  | InitMemory (e : Error).

Definition MSI_INTID_RESERVE : Z := 64.

(** [HvfVm]: the mapped regions, in order. *)
Record HvfVm (M : Type) := mkHvfVm { hv_mappings : list M; hv_vcpu_count : Z }.
Arguments mkHvfVm {M}.
Arguments hv_mappings {M}.
Arguments hv_vcpu_count {M}.

Record MappedRegion := mkMapped { md_guest_base : Z; md_size : Z; md_slot_index : nat }.

Section hv.
Context {M : Type} `{!GuestMemory M, !AppleVisor M}.

Definition GicSizes_query : result HypervisorError GicSizes :=
  let? distributor := av_distributor_size in
  let? redistributor := av_redistributor_size in
  Ok (mkGicSizes distributor redistributor).

(** The window of message interrupts at the top of the shared range. *)
Definition msi_window (spi_base spi_count : Z) : Z * Z :=
  let msi_count := Z.min spi_count MSI_INTID_RESERVE in
  (wrap 32 (wadd 32 spi_base spi_count - msi_count), msi_count).

Definition init_vm (vcpu_count redistributor_size_per_vcpu : Z) : result InitError (HvfVm M) :=
  match Layout.overlap_check vcpu_count redistributor_size_per_vcpu with
  | Layout.GicrOverlapsMmio n e b => Err (InitLayoutOverlap n e b)
  | Layout.LayoutOk =>
      let? _ := map_err InitHvf (av_set_distributor_base Layout.GICD_BASE) in
      let? _ := map_err InitHvf (av_set_redistributor_base Layout.GICR_BASE) in
      let? _ := map_err InitHvf (av_set_msi_region_base Layout.MSI_REGION_BASE) in
      let? range := map_err InitHvf av_spi_interrupt_range in
      let (msi_base, msi_count) := msi_window (fst range) (snd range) in
      let? _ := map_err InitHvf (av_set_msi_interrupt_range msi_base msi_count) in
      let? _ := map_err InitHvf av_init_with_gic in
      if av_get_gic then Ok (mkHvfVm [] vcpu_count) else Err InitNoGic
  end.

Definition map_memory (guest_addr size_bytes : Z) : stm (HvfVm M) InitError MappedRegion :=
  fun vm =>
    match (let? mem := map_err InitHvf (av_memory_create size_bytes) in map_err InitHvf (av_memory_map mem guest_addr)) with
    | Err e => (vm, Err e)
    | Ok mem =>
        (mkHvfVm (hv_mappings vm ++ [mem]) (hv_vcpu_count vm),
         Ok (mkMapped guest_addr size_bytes (length (hv_mappings vm))))
    end.

(** A write to the mapping at an index, at a guest address. *)
Definition write_mapping (i : nat) (guest_addr : Z) (bytes : list Z) : stm (HvfVm M) InitError unit :=
  fun vm =>
    match hv_mappings vm !! i with
    | None => (vm, Err (InitNoRegion (Z.of_nat i)))
    | Some mem =>
        match gm_write mem guest_addr bytes with
        | Err e => (vm, Err (InitMemory e))
        | Ok mem' => (mkHvfVm (<[i := mem']> (hv_mappings vm)) (hv_vcpu_count vm), Ok tt)
        end
    end.

Definition write_to_region (region : MappedRegion) (region_offset : Z) (bytes : list Z) : stm (HvfVm M) InitError unit :=
  fun vm =>
    match hv_mappings vm !! md_slot_index region with
    | None => (vm, Err (InitNoRegion (Z.of_nat (md_slot_index region))))
    | Some _ =>
        match (e ← checked_add 64 region_offset (zlen bytes); if e <=? md_size region then Some e else None) with
        | None => (vm, Err (InitEscapes (zlen bytes) region_offset (md_size region)))
        | Some _ => write_mapping (md_slot_index region) (wadd 64 (md_guest_base region) region_offset) bytes vm
        end
    end.

Definition write_to_first_region (region_offset : Z) (bytes : list Z) : stm (HvfVm M) InitError unit :=
  write_mapping 0 (wadd 64 Layout.DRAM_BASE region_offset) bytes.
End hv.

(** ** The plan *)

Inductive BootError :=
  | InvalidVcpuCount (n : Z)
  | RamTooSmall (needed_mib actual_mib : Z)
  | BootLoader (e : LoaderError)
  | BootFdt (e : FdtError)
  | FdtTooBig (len : Z)
  | BootHvf (e : InitError)
  | InitrdNoFit (size kernel_end fdt_base : Z)
  | BootIo (e : IoError).

Record BootArtifacts (M : Type) := mkBoot {
  ba_kernel : LoadedKernel;
  ba_kernel_load_addr : Z;
  ba_fdt_bytes : list Z;
  ba_fdt_base : Z;
  ba_initrd_range : option InitrdRange;
  ba_boot_regs : BootRegs;
  ba_effective_boot_args : list Z;
  ba_hvf_vm : option (HvfVm M)
}.
Arguments mkBoot {M}.
Arguments ba_kernel {M}.
Arguments ba_kernel_load_addr {M}.
Arguments ba_fdt_bytes {M}.
Arguments ba_fdt_base {M}.
Arguments ba_initrd_range {M}.
Arguments ba_boot_regs {M}.
Arguments ba_effective_boot_args {M}.
Arguments ba_hvf_vm {M}.

Definition align_up_2mib (addr : Z) : Z :=
  let ALIGN := 2 * 1024 * 1024 in
  Z.land (saturating_add 64 addr (ALIGN - 1)) (wnot 64 (ALIGN - 1)).

Section plan.
Context {F R W N M : Type}.
Context `{!HostFs F, !Decoders R, !FdtWriter W N, !GuestMemory M, !AppleVisor M}.

Definition plan_initrd_range (fs : F) (initrd : InitrdSource) (mem_bytes kernel_end : Z) : result BootError InitrdRange :=
  let 'InitrdPath path := initrd in
  let? size := map_err BootIo (fs_len fs path) in
  let fallback := saturating_add 64 Layout.DRAM_BASE INITRD_FALLBACK_OFFSET in
  let aligned_after_kernel := align_up_2mib (saturating_add 64 kernel_end (16 * 1024 * 1024)) in
  let start := Z.max fallback aligned_after_kernel in
  let end_ := saturating_add 64 start size in
  let ram_end := saturating_add 64 Layout.DRAM_BASE mem_bytes in
  let fdt_base := wrap 64 (ram_end - Layout.FDT_MAX_SIZE) in
  if fdt_base <? end_ then Err (InitrdNoFit size kernel_end fdt_base) else Ok (mkInitrd start end_).

(** [init_hvf_path]; [usize::try_from] of a [u64] succeeds. *)
Definition init_hvf_path (resources : VmResources) (mem_bytes : Z) : result BootError (option (HvfVm M)) :=
  let? sizes := map_err (fun e => BootHvf (InitHvf e)) GicSizes_query in
  let? vm := map_err BootHvf (init_vm (vr_vcpu_count resources) (gs_redistributor_per_vcpu sizes)) in
  match map_memory Layout.DRAM_BASE mem_bytes vm with
  | (_, Err e) => Err (BootHvf e)
  | (vm, Ok _) => Ok (Some vm)
  end.

(** The part of [build_microvm_for_boot] after the kernel is loaded. *)
Definition plan_boot (fs : F) (resources : VmResources) (kernel : LoadedKernel) : result BootError (BootArtifacts M) :=
  let mem_bytes := mem_size_bytes resources in
  let? kernel_load_addr := map_err BootLoader (check_fits_in_ram kernel mem_bytes) in
  let kernel_end := saturating_add 64 kernel_load_addr (image_bytes kernel) in
  let? initrd_range :=
    match vr_initrd resources with
    | Some initrd => let? r := plan_initrd_range fs initrd mem_bytes kernel_end in Ok (Some r)
    | None => Ok None
    end in
  let ram_end := saturating_add 64 Layout.DRAM_BASE mem_bytes in
  let fdt_base := wrap 64 (ram_end - Layout.FDT_MAX_SIZE) in
  let? _ :=
    match initrd_range with
    | Some range =>
        if fdt_base <? ir_end range
        then Err (InitrdNoFit (wrap 64 (ir_end range - ir_start range)) kernel_end fdt_base)
        else Ok tt
    | None => Ok tt
    end in
  let memory_region := MemoryRegion_dram mem_bytes in
  let effective_boot_args := compose_boot_args (vr_boot_args resources) (vr_root_partuuid resources) in
  let? fdt_bytes :=
    map_err BootFdt
      (build (FdtBuildArgs_new (vr_vcpu_count resources) memory_region effective_boot_args
                initrd_range (vr_virtio_devices resources))) in
  if Layout.FDT_MAX_SIZE <? zlen fdt_bytes then Err (FdtTooBig (zlen fdt_bytes))
  else
    let boot_regs := BootRegs_new kernel_load_addr fdt_base in
    let? hvf_vm := init_hvf_path resources mem_bytes in
    Ok (mkBoot kernel kernel_load_addr fdt_bytes fdt_base initrd_range boot_regs effective_boot_args hvf_vm).

Definition build_microvm_for_boot (fs : F) (resources : VmResources) : option (result BootError (BootArtifacts M)) :=
  if (vr_vcpu_count resources =? 0) || (Layout.MAX_SUPPORTED_VCPUS <? vr_vcpu_count resources)
  then Some (Err (InvalidVcpuCount (vr_vcpu_count resources)))
  else
    let 'KernelPath kernel_path := vr_kernel resources in
    loaded ← load_from_path_with_caps fs kernel_path MaxSizes_default;
    Some (let? kernel := map_err BootLoader loaded in plan_boot fs resources kernel).

(** ** Staging *)

Inductive StageError :=
  | KernelBelowDram
  | InitrdBelowDram
  | FdtBelowDram
  | WriteKernel (e : InitError)
  | WriteInitrd (e : InitError)
  | WriteFdt (e : InitError).

Definition st_map_err {S E E' A} (f : E -> E') (c : stm S E A) : stm S E' A :=
  fun s => let (s', r) := c s in (s', map_err f r).

(** A write to the first region at a guest address. *)
Definition stage (below : StageError) (wrap_err : InitError -> StageError) (addr : Z) (bytes : list Z)
  : stm (HvfVm M) StageError unit :=
  match checked_sub addr Layout.DRAM_BASE with
  | None => st_fail below
  | Some offset => st_map_err wrap_err (write_to_first_region offset bytes)
  end.

Definition write_kernel_to_guest (boot : BootArtifacts M) (initrd_bytes : option (list Z))
  : stm (HvfVm M) StageError unit :=
  let! _ := stage KernelBelowDram WriteKernel (ba_kernel_load_addr boot) (lk_bytes (ba_kernel boot)) in
  let! _ := match ba_initrd_range boot, initrd_bytes with
            | Some range, Some bytes => stage InitrdBelowDram WriteInitrd (ir_start range) bytes
            | _, _ => st_ret tt
            end in
  stage FdtBelowDram WriteFdt (ba_fdt_base boot) (ba_fdt_bytes boot).
End plan.

(** ** The plan is sound *)

Definition MIB2 : Z := 0x200000.

Lemma align_up_2mib_spec a :
  0 <= a -> a + MIB2 < 2 ^ 64 ->
  a <= align_up_2mib a < a + MIB2 /\ align_up_2mib a mod MIB2 = 0.
Proof.
  intros Ha Hb. unfold align_up_2mib, MIB2 in *. cbn zeta.
  change (2 * 1024 * 1024) with (2 ^ 21). change 0x200000 with (2 ^ 21) in *.
  unfold saturating_add. rewrite Z.min_l by lia.
  rewrite land_wnot_align by (unfold in_u; lia).
  pose proof (Z.div_mod (a + (2 ^ 21 - 1)) (2 ^ 21)). pose proof (Z.mod_pos_bound (a + (2 ^ 21 - 1)) (2 ^ 21)).
  split; [lia|]. by rewrite Zminus_mod_idemp_r, Z.sub_diag.
Qed.

Lemma sat_add_small a b : a + b < 2 ^ 64 -> saturating_add 64 a b = a + b.
Proof. unfold saturating_add. lia. Qed.

Section plan_facts.
Context {F R W N M : Type}.
Context `{!HostFs F, !HostFsLaws F, !Decoders R, !DecoderLaws R, !FdtWriter W N, !GuestMemory M, !AppleVisor M}.
Implicit Types (art : BootArtifacts M) (fs : F).

(** The initrd lies above the kernel with a gap of 16 MiB, and below the device tree. *)
Definition initrd_placed fs (initrd : option InitrdSource) (kernel_end fdt_base : Z) (r : option InitrdRange) : Prop :=
  match initrd, r with
  | None, None => True
  | Some (InitrdPath path), Some r =>
      fs_len fs path = Ok (ir_end r - ir_start r) /\
      kernel_end + 8 * MIB2 <= ir_start r /\ Layout.DRAM_BASE + INITRD_FALLBACK_OFFSET <= ir_start r /\
      ir_start r mod MIB2 = 0 /\ ir_end r <= fdt_base
  | _, _ => False
  end.

Definition plan_ok fs (res : VmResources) art : Prop :=
  let k := ba_kernel art in
  let ram_end := Layout.DRAM_BASE + mem_size_bytes res in
  let kernel_end := placed_at k + image_bytes k in
  lk_wf k /\ bytes_ok (lk_bytes k) /\
  ram_end <= Layout.DRAM_MAX_END /\
  ba_kernel_load_addr art = placed_at k /\ kernel_end <= ram_end /\
  ba_fdt_base art = ram_end - MIB2 /\ Layout.DRAM_BASE <= ba_fdt_base art /\ zlen (ba_fdt_bytes art) <= MIB2 /\
  initrd_placed fs (vr_initrd res) kernel_end (ba_fdt_base art) (ba_initrd_range art) /\
  ba_boot_regs art = mkBootRegs (placed_at k) (ba_fdt_base art) 0x3C5.

Lemma placed_at_low k : lk_wf k -> Layout.DRAM_BASE + MIB2 <= placed_at k.
Proof. unfold lk_wf, placed_at, in_u, Layout.DRAM_BASE, Layout.KERNEL_LOAD_OFFSET, MIB2. lia. Qed.

Lemma plan_initrd_ok fs initrd mem kernel_end r :
  Layout.DRAM_BASE <= kernel_end -> kernel_end <= Layout.DRAM_BASE + mem -> MIB2 <= mem ->
  Layout.DRAM_BASE + mem <= Layout.DRAM_MAX_END ->
  plan_initrd_range fs initrd mem kernel_end = Ok r ->
  initrd_placed fs (Some initrd) kernel_end (Layout.DRAM_BASE + mem - MIB2) (Some r).
Proof.
  intros Hk Hke Hm Hr H. destruct initrd as [path]. cbn [plan_initrd_range] in H.
  destruct (fs_len fs path) as [size|e] eqn:El; cbn [map_err] in H; [|done].
  pose proof (fs_len_u64 _ _ _ El) as Hs.
  unfold Layout.DRAM_MAX_END, Layout.DRAM_BASE, Layout.FDT_MAX_SIZE, INITRD_FALLBACK_OFFSET, MIB2, in_u in *.
  destruct (align_up_2mib_spec (kernel_end + 16 * 1024 * 1024)) as [Ha Hz]; [lia|unfold MIB2; lia|].
  rewrite (sat_add_small kernel_end), (sat_add_small 0x80000000 0x10000000), (sat_add_small 0x80000000 mem) in H by lia.
  rewrite wrap_small in H by (unfold in_u; lia).
  set (start := Z.max (0x80000000 + 0x10000000) (align_up_2mib (kernel_end + 16 * 1024 * 1024))) in *.
  assert (Hst : start mod 0x200000 = 0) by (unfold start; destruct (Z.max_spec (0x80000000 + 0x10000000) (align_up_2mib (kernel_end + 16 * 1024 * 1024))) as [[_ ->]|[_ ->]]; done).
  destruct (Z.ltb_spec (0x80000000 + mem - 0x200000) (saturating_add 64 start size)) as [|Hfit]; [done|].
  injection H as <-. cbn [ir_start ir_end initrd_placed].
  assert (start + size < 2 ^ 64) by (unfold saturating_add in Hfit; lia).
  rewrite (sat_add_small start) in * by lia. unfold MIB2, Layout.DRAM_BASE, INITRD_FALLBACK_OFFSET in *.
  split_and!; [rewrite El; f_equal; lia|lia|lia|done|lia].
Qed.

Lemma init_vm_ok n sz v : init_vm n sz = Ok v -> v = mkHvfVm [] n /\ Layout.overlap_check n sz = Layout.LayoutOk.
Proof.
  unfold init_vm. destruct (Layout.overlap_check n sz); [|done]. intros H. split; [|done].
  repeat (apply let_ok_inv in H as (? & _ & H)). by destruct av_get_gic; simplify_eq.
Qed.

(** What [init_hvf_path] leaves behind: one region, created with the size of memory and
    mapped at its base. *)
Lemma init_hvf_ok res mem vm :
  init_hvf_path res mem = Ok vm ->
  exists m0 m, av_memory_create mem = Ok m0 /\ av_memory_map m0 Layout.DRAM_BASE = Ok m /\
    vm = Some (mkHvfVm [m] (vr_vcpu_count res)).
Proof.
  unfold init_hvf_path. intros (sizes & _ & H)%let_ok_inv. apply let_ok_inv in H as (v & Hv & H).
  destruct (init_vm _ _) as [v'|] eqn:E; [|done]. cbn in Hv. injection Hv as ->. apply init_vm_ok in E as [-> _].
  unfold map_memory in H. cbn [hv_mappings hv_vcpu_count app] in H.
  destruct (av_memory_create mem) as [m0|] eqn:Ec; cbn in H; [|done].
  destruct (av_memory_map m0 Layout.DRAM_BASE) as [m|] eqn:Em; cbn in H; [|done].
  injection H as <-. by exists m0, m.
Qed.

Lemma plan_boot_ok fs res k art :
  lk_wf k -> bytes_ok (lk_bytes k) -> in_u 64 (mem_size_bytes res) -> plan_boot fs res k = Ok art ->
  ba_kernel art = k /\ plan_ok fs res art.
Proof.
  intros Hk Hb Hm H. unfold plan_boot in H. cbn zeta in H.
  apply let_ok_inv in H as (la & Hla & H).
  destruct (check_fits_in_ram k (mem_size_bytes res)) as [la'|] eqn:Ec; [|done]. injection Hla as ->.
  apply check_fits_exact in Ec as (-> & Hmax & Hend); [|done..].
  pose proof (placed_at_low k Hk) as Hlow. destruct Hk as [Ht Hi].
  assert (Hle : MIB2 <= mem_size_bytes res) by (unfold in_u in *; lia).
  set (ke := placed_at k + image_bytes k) in *.
  assert (Hke : Layout.DRAM_BASE <= ke) by (unfold in_u, ke, MIB2, Layout.DRAM_BASE in *; lia).
  assert (Hr64 : Layout.DRAM_BASE + mem_size_bytes res < 2 ^ 64)
    by (unfold Layout.DRAM_MAX_END, Layout.DRAM_BASE in *; lia).
  rewrite (sat_add_small (placed_at k)), (sat_add_small Layout.DRAM_BASE) in H by (fold ke; lia).
  fold ke in H. change Layout.FDT_MAX_SIZE with MIB2 in H.
  rewrite wrap_small in H by (unfold in_u, Layout.DRAM_BASE, MIB2 in *; lia).
  apply let_ok_inv in H as (ir & Hir & H). apply let_ok_inv in H as (_ & _ & H).
  apply let_ok_inv in H as (fb & Hfb & H).
  destruct (Z.ltb_spec MIB2 (zlen fb)); [done|].
  apply let_ok_inv in H as (vm & Hvm & H). injection H as <-. split; [done|].
  unfold plan_ok. cbn. split_and!; try done; try lia; try (split; done).
  destruct (vr_initrd res) as [initrd|].
  - apply let_ok_inv in Hir as (r & Hr & [= <-]). by apply plan_initrd_ok.
  - by injection Hir as <-.
Qed.

Lemma plan_boot_vm fs res k art :
  plan_boot fs res k = Ok art -> init_hvf_path res (mem_size_bytes res) = Ok (ba_hvf_vm art).
Proof.
  intros H. unfold plan_boot in H. cbn zeta in H. do 4 apply let_ok_inv in H as (? & _ & H).
  destruct (_ <? _); [done|]. apply let_ok_inv in H as (vm & Hvm & [= <-]). done.
Qed.

Lemma load_path_wf fs path k :
  load_from_path_with_caps fs path MaxSizes_default = Some (Ok k) -> lk_wf k /\ bytes_ok (lk_bytes k).
Proof.
  unfold load_from_path_with_caps. destruct (enforce_path_bounds path); [|done].
  destruct (fs_len fs path) as [n|]; [|done]. destruct (_ <? n); [done|].
  destruct (fs_read fs path) as [bs|] eqn:E; [|done]. apply load_wf. by eapply fs_read_bytes.
Qed.

Lemma mem_size_bytes_u64 res : 0 <= vr_mem_size_mib res -> in_u 64 (mem_size_bytes res).
Proof. unfold mem_size_bytes, saturating_mul, in_u. lia. Qed.

Lemma build_total fs res : is_Some (build_microvm_for_boot fs res).
Proof.
  unfold build_microvm_for_boot. case_match; [by eexists|]. destruct (vr_kernel res) as [path].
  assert (Hl : is_Some (load_from_path_with_caps fs path MaxSizes_default)).
  { unfold load_from_path_with_caps. repeat case_match; try by eexists. apply load_total. vm_compute. discriminate. }
  destruct Hl as [l ->]. by eexists.
Qed.

Lemma build_plan_ok fs res art :
  0 <= vr_vcpu_count res -> 0 <= vr_mem_size_mib res -> build_microvm_for_boot fs res = Some (Ok art) ->
  1 <= vr_vcpu_count res <= 32 /\ plan_ok fs res art.
Proof.
  intros Hv Hm H. unfold build_microvm_for_boot in H.
  destruct (Z.eqb_spec (vr_vcpu_count res) 0); [done|].
  destruct (Z.ltb_spec Layout.MAX_SUPPORTED_VCPUS (vr_vcpu_count res)) as [|Hmax]; [done|]. cbn [orb] in H.
  split; [unfold Layout.MAX_SUPPORTED_VCPUS in Hmax; lia|].
  destruct (vr_kernel res) as [path]. destruct (load_from_path_with_caps fs path MaxSizes_default) as [[k|]|] eqn:El; try done.
  cbn in H. injection H as H. apply load_path_wf in El as [Hk Hb].
  eapply plan_boot_ok; [exact Hk|done|by apply mem_size_bytes_u64|done].
Qed.

Lemma build_vm fs res art :
  build_microvm_for_boot fs res = Some (Ok art) ->
  exists m0 m, av_memory_create (mem_size_bytes res) = Ok m0 /\ av_memory_map m0 Layout.DRAM_BASE = Ok m /\
    ba_hvf_vm art = Some (mkHvfVm [m] (vr_vcpu_count res)).
Proof.
  unfold build_microvm_for_boot. case_match; [done|]. destruct (vr_kernel res) as [path].
  destruct (load_from_path_with_caps fs path MaxSizes_default) as [[k|]|]; try done. intros [= Hp].
  by apply plan_boot_vm, init_hvf_ok in Hp.
Qed.

End plan_facts.

(** ** Staging is exact *)

Section staging.
Context {M : Type} `{!GuestMemory M, !GuestMemoryLaws M}.
Implicit Types (m : M) (art : BootArtifacts M).

(** Every access between two addresses is granted. *)
Definition covers m (lo hi : Z) : Prop :=
  forall a n, lo <= a -> a + Z.of_nat n <= hi -> is_ok (gm_read m a n) = true.

Lemma covers_write m m' a bs lo hi : gm_write m a bs = Ok m' -> covers m lo hi -> covers m' lo hi.
Proof. intros Hw Hc b n ? ?. rewrite (gm_write_domain _ _ _ _ _ _ Hw). by apply Hc. Qed.

Lemma stage_ok below werr m ms n lo hi a bs :
  covers m lo hi -> Layout.DRAM_BASE <= lo -> hi < 2 ^ 64 -> lo <= a -> a + zlen bs <= hi ->
  exists m', gm_write m a bs = Ok m' /\ stage below werr a bs (mkHvfVm (m :: ms) n) = (mkHvfVm (m' :: ms) n, Ok tt).
Proof.
  intros Hc Hlo Hhi Ha Hb. pose proof (Hc a (length bs) Ha Hb) as Hr.
  destruct (gm_read m a (length bs)) as [v|] eqn:Er; [|done].
  destruct (gm_write_total _ _ _ _ Er) as [m' Hw]. exists m'. split; [done|].
  unfold stage, checked_sub. unfold Layout.DRAM_BASE, zlen in *.
  destruct (Z.ltb_spec a 2147483648); [lia|].
  unfold st_map_err, write_to_first_region, write_mapping, wadd, Layout.DRAM_BASE. cbn [hv_mappings lookup list_lookup].
  replace (2147483648 + (a - 2147483648)) with a by lia. rewrite wrap_small by (unfold in_u; lia).
  by rewrite Hw.
Qed.

(** The contract of the framework: a region that was created and mapped covers its size. *)
Class AppleVisorLaws `{!AppleVisor M} : Prop := {
  av_mapped_covers : forall size addr m0 m,
    av_memory_create size = Ok m0 -> av_memory_map m0 addr = Ok m -> covers m addr (addr + size)
}.

(** An initrd was read for the planned range, and has its size. *)
Definition initrd_as_planned (range : option InitrdRange) (bytes : option (list Z)) : Prop :=
  match range, bytes with
  | Some r, Some bs => zlen bs = ir_end r - ir_start r
  | None, None => True
  | _, _ => False
  end.

(** The three images, with their addresses. *)
Definition images art (initrd_bytes : option (list Z)) : list (Z * list Z) :=
  [(placed_at (ba_kernel art), lk_bytes (ba_kernel art))] ++
  match ba_initrd_range art, initrd_bytes with Some r, Some bs => [(ir_start r, bs)] | _, _ => [] end ++
  [(ba_fdt_base art, ba_fdt_bytes art)].

(** Later images lie above earlier ones. *)
Fixpoint stacked (lo : Z) (l : list (Z * list Z)) (hi : Z) : Prop :=
  match l with
  | [] => lo <= hi
  | (a, bs) :: l => lo <= a /\ stacked (a + zlen bs) l hi
  end.

Lemma stacked_le lo l hi : stacked lo l hi -> lo <= hi.
Proof.
  revert lo. induction l as [|[a bs] l IH]; intros lo; cbn; [done|]. intros [H1 H2%IH]. unfold zlen in H2. lia.
Qed.

(** Staging a stack of images one after the other. *)
Fixpoint stage_all (l : list (Z * list Z)) (m m' : M) : Prop :=
  match l with
  | [] => m' = m
  | (a, bs) :: l => exists m1, gm_write m a bs = Ok m1 /\ stage_all l m1 m'
  end.

Lemma stage_all_frame l m m' b n :
  stage_all l m m' -> Forall (fun i => disjoint_range i.1 (zlen i.2) b (Z.of_nat n)) l ->
  gm_read m' b n = gm_read m b n.
Proof.
  revert m. induction l as [|[a bs] l IH]; intros m; cbn; [by intros -> _|].
  intros (m1 & Hw & Hs) [Hd Hl]%Forall_cons_iff. rewrite (IH m1 Hs Hl). by eapply gm_read_write_disjoint.
Qed.

Lemma stacked_above lo l hi : stacked lo l hi -> Forall (fun i => lo <= i.1) l.
Proof.
  revert lo. induction l as [|[a bs] l IH]; intros lo; cbn; [done|]. intros [H1 H2%IH].
  constructor; [done|]. eapply Forall_impl; [exact H2|]. cbn. unfold zlen. intros. lia.
Qed.

Lemma stage_all_reads lo hi l m m' :
  stacked lo l hi -> stage_all l m m' -> Forall (fun i => gm_read m' i.1 (length i.2) = Ok i.2) l.
Proof.
  revert lo m. induction l as [|[a bs] l IH]; intros lo m; cbn; [done|].
  intros [H1 H2] (m1 & Hw & Hs). constructor; [|by eapply IH]. cbn.
  rewrite (stage_all_frame l m1 m' a (length bs) Hs); [by eapply gm_read_write_same|].
  eapply Forall_impl; [by eapply stacked_above|]. cbn. unfold disjoint_range, zlen. intros. lia.
Qed.

(** The stack of an accepted plan. *)
Lemma images_stacked {F} `{!HostFs F, !HostFsLaws F} fs res art ib :
  plan_ok (F := F) fs res art -> initrd_as_planned (ba_initrd_range art) ib ->
  zlen (lk_bytes (ba_kernel art)) <= image_bytes (ba_kernel art) ->
  (ba_initrd_range art = None -> placed_at (ba_kernel art) + zlen (lk_bytes (ba_kernel art)) <= ba_fdt_base art) ->
  stacked (Layout.DRAM_BASE + MIB2) (images art ib) (Layout.DRAM_BASE + mem_size_bytes res).
Proof.
  intros (Hk & Hb & Hmax & Hla & Hend & Hfb & Hlo & Hfl & Hi & Hr) Hp Hlen Hno.
  pose proof (placed_at_low _ Hk). unfold images, initrd_placed, initrd_as_planned in *.
  destruct (vr_initrd res) as [[path]|], (ba_initrd_range art) as [r|], ib as [bs|]; try done; cbn.
  - destruct Hi as (Hs & H1 & H2 & H3 & H4). unfold MIB2 in *. split_and!; lia.
  - specialize (Hno eq_refl). split_and!; lia.
Qed.

Lemma write_kernel_all art ib m ms n lo hi :
  covers m lo hi -> Layout.DRAM_BASE <= lo -> hi < 2 ^ 64 ->
  ba_kernel_load_addr art = placed_at (ba_kernel art) -> stacked lo (images art ib) hi ->
  exists m', write_kernel_to_guest art ib (mkHvfVm (m :: ms) n) = (mkHvfVm (m' :: ms) n, Ok tt) /\
    stage_all (images art ib) m m'.
Proof.
  intros Hc Hlo Hhi Hla Hs. unfold write_kernel_to_guest, images, st_bind in *. rewrite Hla. cbn [app] in Hs |- *.
  destruct Hs as [H1 Hs]. pose proof (stacked_le _ _ _ Hs).
  destruct (stage_ok KernelBelowDram WriteKernel m ms n lo hi _ _ Hc Hlo Hhi H1 ltac:(done)) as (m1 & Hw1 & ->).
  pose proof (covers_write _ _ _ _ _ _ Hw1 Hc) as Hc1.
  assert (0 <= zlen (lk_bytes (ba_kernel art))) by (unfold zlen; lia).
  destruct (ba_initrd_range art) as [r|], ib as [bs|].
  1: { cbn [app] in Hs |- *. destruct Hs as [H2 Hs]. pose proof (stacked_le _ _ _ Hs).
       destruct (stage_ok InitrdBelowDram WriteInitrd m1 ms n lo hi (ir_start r) bs Hc1 Hlo Hhi ltac:(lia) ltac:(done)) as (m2 & Hw2 & ->).
       pose proof (covers_write _ _ _ _ _ _ Hw2 Hc1) as Hc2. assert (0 <= zlen bs) by (unfold zlen; lia).
       destruct Hs as [Hf Hs]. cbn in Hs.
       destruct (stage_ok FdtBelowDram WriteFdt m2 ms n lo hi (ba_fdt_base art) (ba_fdt_bytes art) Hc2 Hlo Hhi ltac:(lia) Hs) as (m3 & Hw3 & ->).
       exists m3. split; [done|]. cbn. eauto 10. }
  all: cbn [app stacked] in Hs; destruct Hs as [Hf Hs];
    destruct (stage_ok FdtBelowDram WriteFdt m1 ms n lo hi (ba_fdt_base art) (ba_fdt_bytes art) Hc1 Hlo Hhi ltac:(lia) Hs) as (m3 & Hw3 & Hw3');
    exists m3; cbn [st_ret]; unfold st_ret; rewrite Hw3'; cbn; eauto 10.
Qed.

(** Staging an accepted plan in memory that covers the guest's RAM succeeds, and leaves in
    memory exactly the kernel at the entry point, the initrd at its planned start and the
    device tree where the registers point, every other byte as it was: given that the
    kernel's bytes do not exceed its claimed size, the initrd still has its planned size,
    and, without an initrd, the kernel ends below the device tree. *)
Theorem staging_exact {F} `{!HostFs F, !HostFsLaws F} (fs : F) res art ib m ms n
    (Hplan : plan_ok fs res art) (Hin : initrd_as_planned (ba_initrd_range art) ib)
    (Hlen : zlen (lk_bytes (ba_kernel art)) <= image_bytes (ba_kernel art))
    (Hno : ba_initrd_range art = None ->
       placed_at (ba_kernel art) + zlen (lk_bytes (ba_kernel art)) <= ba_fdt_base art)
    (Hcov : covers m Layout.DRAM_BASE (Layout.DRAM_BASE + mem_size_bytes res)) :
  exists m', write_kernel_to_guest art ib (mkHvfVm (m :: ms) n) = (mkHvfVm (m' :: ms) n, Ok tt) /\
    Forall (fun i => gm_read m' i.1 (length i.2) = Ok i.2) (images art ib) /\
    gm_read m' (br_kernel_load_addr (ba_boot_regs art)) (length (lk_bytes (ba_kernel art))) = Ok (lk_bytes (ba_kernel art)) /\
    gm_read m' (br_fdt_addr (ba_boot_regs art)) (length (ba_fdt_bytes art)) = Ok (ba_fdt_bytes art) /\
    forall b k, Forall (fun i => disjoint_range i.1 (zlen i.2) b (Z.of_nat k)) (images art ib) ->
      gm_read m' b k = gm_read m b k.
Proof.
  pose proof (images_stacked fs res art ib Hplan Hin Hlen Hno) as Hst.
  destruct Hplan as (Hk & _ & Hmax & Hla & _ & _ & _ & _ & _ & Hr).
  assert (Hc : covers m (Layout.DRAM_BASE + MIB2) (Layout.DRAM_BASE + mem_size_bytes res))
    by (intros a k Ha; apply Hcov; unfold MIB2 in *; lia).
  destruct (write_kernel_all art ib m ms n _ _ Hc ltac:(unfold MIB2; lia)
              ltac:(unfold Layout.DRAM_MAX_END, Layout.DRAM_BASE in *; lia) Hla Hst) as (m' & Hw & Hall).
  exists m'. split; [done|]. pose proof (stage_all_reads _ _ _ _ _ Hst Hall) as Hrd. split; [done|].
  rewrite Hr. cbn [br_kernel_load_addr br_fdt_addr]. unfold images in Hrd. rewrite !Forall_app in Hrd.
  destruct Hrd as (Hr1 & _ & Hr2). rewrite Forall_singleton in Hr1, Hr2. split_and!; [done..|].
  intros b k Hd. by apply (stage_all_frame (images art ib)).
Qed.
End staging.

(** ** A sparse memory, for examples of realistic size *)

Record SparseMem := mkSparse { sm_lo : Z; sm_hi : Z; sm_cells : gmap Z Z }.

Definition sm_granted (m : SparseMem) (a n : Z) : bool := (sm_lo m <=? a) && (a + n <=? sm_hi m).

Definition sm_byte (m : SparseMem) (a : Z) : Z := default 0 (sm_cells m !! a).

#[export] Instance SparseMem_GuestMemory : GuestMemory SparseMem := {
  gm_read m a n :=
    if sm_granted m a (Z.of_nat n) then Ok (map (fun i => sm_byte m (a + Z.of_nat i)) (seq 0 n))
    else Err (MemoryOutOfRange a (Z.of_nat n));
  gm_write m a bs :=
    if sm_granted m a (zlen bs) then Ok (mkSparse (sm_lo m) (sm_hi m) (map_seqZ a bs ∪ sm_cells m))
    else Err (MemoryOutOfRange a (zlen bs))
}.

Lemma sm_write_byte lo hi cells a bs b :
  sm_byte (mkSparse lo hi (map_seqZ a bs ∪ cells)) b =
    if decide (a <= b < a + zlen bs) then byte_at bs (Z.to_nat (b - a)) else default 0 (cells !! b).
Proof.
  unfold sm_byte, byte_at. cbn [sm_cells]. rewrite lookup_union.
  destruct (decide (a <= b < a + zlen bs)) as [Hin|Hout].
  - rewrite lookup_map_seqZ, option_guard_True by lia. cbn.
    destruct (lookup_lt_is_Some_2 bs (Z.to_nat (b - a))) as [v ->]; [unfold zlen in *; lia|]. by destruct (cells !! b).
  - replace (map_seqZ a bs !! b) with (None (A := Z)); [by destruct (cells !! b)|].
    symmetry. apply eq_None_not_Some. rewrite lookup_map_seqZ_is_Some. unfold zlen in *. lia.
Qed.

Lemma map_seq_byte_at (f : nat -> Z) bs : (forall i, (i < length bs)%nat -> f i = byte_at bs i) -> map f (seq 0 (length bs)) = bs.
Proof.
  intros H. apply list_eq. intros i. rewrite list_lookup_fmap.
  destruct (decide (i < length bs)%nat) as [Hi|Hi].
  - rewrite lookup_seq_lt by done. cbn. rewrite H by done. unfold byte_at.
    by destruct (lookup_lt_is_Some_2 bs i Hi) as [v ->].
  - rewrite lookup_seq_ge by lia. by rewrite lookup_ge_None_2 by lia.
Qed.

#[export] Program Instance SparseMem_laws : GuestMemoryLaws SparseMem := {
  gm_wf m := forall a, byte_ok (sm_byte m a)
}.
Next Obligation. intros m a n bs. cbn. case_match; [|done]. intros [= <-]. by rewrite length_map, length_seq. Qed.
Next Obligation.
  intros m a n bs Hm. cbn. case_match; [|done]. intros [= <-]. apply Forall_fmap, Forall_true. intros i. apply Hm.
Qed.
Next Obligation.
  intros m m' a bs Hm Hbs. cbn. case_match; [|done]. intros [= <-] b. rewrite sm_write_byte.
  case_decide; [|apply Hm]. unfold byte_at. destruct (bs !! _) as [v|] eqn:E; [|done]. cbn.
  by apply (Forall_lookup_1 _ _ _ _ Hbs E).
Qed.
Next Obligation. intros m a bs v. cbn. fold (zlen bs). case_match; [|done]. eauto. Qed.
Next Obligation. intros m m' a bs. cbn. fold (zlen bs). case_match; [|done]. eauto. Qed.
Next Obligation.
  intros m m' a bs. cbn. unfold sm_granted. fold (zlen bs). case_match eqn:E; [|done]. intros [= <-]. cbn. rewrite E. f_equal.
  apply map_seq_byte_at. intros i Hi. rewrite sm_write_byte, decide_True by (unfold zlen; lia). f_equal. lia.
Qed.
Next Obligation.
  intros m m' a bs b n. cbn. unfold sm_granted. case_match eqn:E; [|done]. intros [= <-] Hd. cbn.
  destruct (_ && _) eqn:E2 in |- *; [|done]. f_equal. apply map_ext_in. intros i Hi%in_seq.
  rewrite sm_write_byte, decide_False; [done|]. unfold disjoint_range in Hd. lia.
Qed.
Next Obligation.
  intros m m' a bs b n. cbn. unfold sm_granted. case_match; [|done]. intros [= <-]. cbn.
  by destruct ((sm_lo m <=? b) && (b + Z.of_nat n <=? sm_hi m)).
Qed.
Next Obligation.
  intros m a n bs off k. cbn. unfold sm_granted. destruct (_ && _) eqn:E; [|done]. intros [= <-] Hle.
  apply andb_true_iff in E as [E1%Z.leb_le E2%Z.leb_le].
  rewrite (proj2 (Z.leb_le _ _)), (proj2 (Z.leb_le _ _)) by lia. cbn [andb]. f_equal.
  unfold slice. rewrite skipn_map, firstn_map, drop_seq, take_seq. rewrite (Nat.min_l k) by lia.
  apply list_eq. intros i. rewrite !list_lookup_fmap. destruct (decide (i < k)%nat).
  - rewrite !lookup_seq_lt by done. cbn. do 2 f_equal. lia.
  - by rewrite !lookup_seq_ge by lia.
Qed.

(** ** Concrete boots *)

(** A file system given by its files. *)
#[export] Instance list_fs : HostFs (list (list Z * list Z)) := {
  fs_len fs path :=
    match list_find (fun f => f.1 = path) fs with
    | Some (_, f) => Ok (zlen f.2 mod 2 ^ 64)
    | None => Err (mkIoError 2)
    end;
  fs_read fs path :=
    match list_find (fun f => f.1 = path) fs with
    | Some (_, f) => Ok (map (fun b => b mod 256) f.2)
    | None => Err (mkIoError 2)
    end
}.

#[export] Instance list_fs_laws : HostFsLaws (list (list Z * list Z)).
Proof.
  split; cbn; intros fs path x; destruct (list_find _ fs) as [[? f]|]; try done; intros [= <-].
  - by apply Z.mod_pos_bound.
  - apply Forall_fmap, Forall_true. intros b. by apply Z.mod_pos_bound.
Qed.

#[export] Instance demo_applevisor : AppleVisor SparseMem := {
  av_distributor_size := Ok 0x10000;
  av_redistributor_size := Ok 0x20000;
  av_set_distributor_base _ := Ok tt;
  av_set_redistributor_base _ := Ok tt;
  av_set_msi_region_base _ := Ok tt;
  av_spi_interrupt_range := Ok (32, 988);
  av_set_msi_interrupt_range _ _ := Ok tt;
  av_init_with_gic := Ok tt;
  av_get_gic := true;
  av_memory_create size := Ok (mkSparse 0 size ∅);
  av_memory_map m addr := Ok (mkSparse addr (addr + sm_hi m) ∅)
}.

Definition demo_fs : list (list Z * list Z) :=
  [(lit "vmlinux", image_of 0 0x200000); (lit "initrd", replicate 100 7)].

Definition demo_resources (mib : Z) (initrd : option InitrdSource) : VmResources :=
  mkResources 2 mib (KernelPath (lit "vmlinux")) initrd (lit "quiet") None [].

Definition demo_build mib initrd : option (result BootError (BootArtifacts SparseMem)) :=
  build_microvm_for_boot (R := list Z) (W := nat * list Z) (N := nat) demo_fs (demo_resources mib initrd).


Lemma sparse_covers lo hi cells : covers (mkSparse lo hi cells) lo hi.
Proof. intros a n Ha Hn. cbn. unfold sm_granted. cbn. by rewrite !(proj2 (Z.leb_le _ _)) by lia. Qed.

Definition demo_art (mib : Z) (initrd : option InitrdSource) : BootArtifacts SparseMem :=
  match demo_build mib initrd with
  | Some (Ok art) => art
  | _ => mkBoot (mkKernel [] Pe 0 0) 0 [] 0 None (mkBootRegs 0 0 0) [] None
  end.

Definition with_initrd : option InitrdSource := Some (InitrdPath (lit "initrd")).

Lemma demo_plan_ok : plan_ok demo_fs (demo_resources 512 with_initrd) (demo_art 512 with_initrd).
Proof. eapply build_plan_ok; [cbn; lia..|]. vm_compute. reflexivity. Qed.

#[export] Instance demo_applevisor_laws : AppleVisorLaws (M := SparseMem).
Proof. constructor. intros size addr m0 m [= <-] [= <-]. apply sparse_covers. Qed.

Lemma staging_exact_witness :
  exists m',
    write_kernel_to_guest (demo_art 512 with_initrd) (Some (replicate 100 7)) (mkHvfVm [mkSparse 0x80000000 0xA0000000 ∅] 2)
      = (mkHvfVm [m'] 2, Ok tt) /\
    gm_read m' 0x80200000 64 = Ok (image_of 0 0x200000).
Proof.
  destruct (staging_exact demo_fs (demo_resources 512 with_initrd) (demo_art 512 with_initrd) (Some (replicate 100 7))
              (mkSparse 0x80000000 0xA0000000 ∅) [] 2 demo_plan_ok) as (m' & Hw & _ & Hr & _).
  - vm_compute. reflexivity.
  - vm_compute. discriminate.
  - vm_compute. discriminate.
  - apply sparse_covers.
  - exists m'. split; [exact Hw|].
    assert (Ea : br_kernel_load_addr (ba_boot_regs (demo_art 512 with_initrd)) = 0x80200000) by (vm_compute; reflexivity).
    assert (Ek : lk_bytes (ba_kernel (demo_art 512 with_initrd)) = image_of 0 0x200000) by (vm_compute; reflexivity).
    rewrite Ea, Ek in Hr. exact Hr.
Defined.

(** Without an initrd nothing keeps the kernel clear of the device tree: this plan is
    accepted, the two coincide, and after staging the entry point holds the device tree. *)
Example fdt_overwrites_entry :
  let art := demo_art 4 None in
  demo_build 4 None = Some (Ok art) /\
  br_kernel_load_addr (ba_boot_regs art) = br_fdt_addr (ba_boot_regs art) /\
  match write_kernel_to_guest art None (mkHvfVm [mkSparse 0x80000000 0x80400000 ∅] 2) with
  | (vm, Ok _) =>
      match hv_mappings vm with
      | [m] => gm_read m (br_kernel_load_addr (ba_boot_regs art)) (length (ba_fdt_bytes art)) = Ok (ba_fdt_bytes art) /\
               gm_read m (br_kernel_load_addr (ba_boot_regs art)) 64 <> Ok (lk_bytes (ba_kernel art))
      | _ => False
      end
  | _ => False
  end.
Proof. cbn zeta. split; [vm_compute; reflexivity|]. split; [vm_compute; reflexivity|]. vm_compute. done. Qed.
