(* ===== verification/Hv.v ===== *)
(** * Hv: pieces of the hypervisor crate that the devices use

    Models [irq.rs], [vcpu.rs] and [hotplug.rs] of [src/crates/hv/src]: the bitset of
    pending interrupts that devices fill while the vCPU thread drains it, the check that a
    vCPU is used by its own thread, and the memory-hotplug backend over the hypervisor,
    an instance of the interface of the virtio memory device.  The hypervisor's memory
    calls are the class [MemoryApi]. *)

From stdpp Require Import base numbers list option gmap strings.
From Stdlib Require Import ZArith Lia.
From S2P Require Import Prelude GuestMem Transport Device Peripherals SnapError Dirty Text Boot.

Local Open Scope Z_scope.
Local Open Scope squib_scope.

(** ** The interrupt shadow *)

Module Irq.

Definition MAX_TRACKED_INTID : Z := 1024.
Definition WORD_BITS : Z := 64.
Definition WORDS : nat := 16.

(** Atomic words; every operation of the code is one access. *)
Abbreviation IrqShadow := (list Z).

Definition IrqShadow_new : IrqShadow := replicate WORDS 0.

Definition bit_position (intid : Z) : option (nat * Z) :=
  if MAX_TRACKED_INTID <=? intid then None
  else Some (Z.to_nat (intid / WORD_BITS), wrap 64 (Z.shiftl 1 (intid mod WORD_BITS))).

(** [fetch_or]; [true] if the bit was clear. *)
Definition inject (s : IrqShadow) (intid : Z) : IrqShadow * bool :=
  match bit_position intid with
  | None => (s, false)
  | Some (word, mask) =>
      let prev := default 0 (s !! word) in
      (<[word := Z.lor prev mask]> s, Z.land prev mask =? 0)
  end.

(** The [while bits != 0] loop. *)
Fixpoint emit_bits (fuel : nat) (base bits : Z) : list Z :=
  match fuel with
  | O => []
  | S fuel' =>
      if bits =? 0 then []
      else
        let bit := trailing_zeros bits in
        (base + bit) :: emit_bits fuel' base (Z.land bits (wnot 64 (Z.shiftl 1 bit)))
  end.

(** One word of [drain]: swapped with 0, its bits emitted. *)
Definition drain_word (s : IrqShadow) (idx : nat) : IrqShadow * list Z :=
  (<[idx := 0]> s, emit_bits 64 (Z.of_nat idx * WORD_BITS) (default 0 (s !! idx))).

(** What devices and the vCPU thread do, in some order; a drain is one [Swap] per word. *)
Inductive IrqEvent := Inject (intid : Z) | Swap (idx : nat).

(** The shadow, the identifiers whose injection set a bit, and those emitted. *)
Record Trace := mkTrace { tr_shadow : IrqShadow; tr_set : list Z; tr_emitted : list Z }.

Definition irq_step (t : Trace) (e : IrqEvent) : Trace :=
  match e with
  | Inject intid =>
      let (s, fresh) := inject (tr_shadow t) intid in
      mkTrace s (if fresh then tr_set t ++ [intid] else tr_set t) (tr_emitted t)
  | Swap idx => let (s, ids) := drain_word (tr_shadow t) idx in mkTrace s (tr_set t) (tr_emitted t ++ ids)
  end.

Definition irq_run (es : list IrqEvent) : Trace := foldl irq_step (mkTrace IrqShadow_new [] []) es.

Definition irq_event_ok (e : IrqEvent) : Prop :=
  match e with Inject intid => 0 <= intid < 2 ^ 32 | Swap idx => (idx < WORDS)%nat end.

Definition pending (s : IrqShadow) (intid : Z) : bool := word_bit s 0 intid.

Definition is_empty (s : IrqShadow) : bool := forallb (fun w => w =? 0) s.

Record shadow_ok (s : IrqShadow) : Prop := mkShadowOk { so_length : length s = WORDS; so_words : Forall (in_u 64) s }.

Lemma emit_scan fuel base bits : in_u 64 bits -> emit_bits fuel base bits = (fun b => base + b) <$> scan_bits fuel bits.
Proof.
  revert bits. induction fuel as [|fuel IH]; intros bits Hb; cbn [emit_bits scan_bits]; [done|].
  destruct (Z.eqb_spec bits 0) as [|Hne]; [done|]. cbn [fmap list_fmap]. f_equal.
  destruct (clear_lowest bits) as (Ht & _ & Hclr & Hnn & Hk0); [unfold in_u in Hb; lia|]. set (k := trailing_zeros bits) in *.
  assert (Hk : k < 64) by (destruct (decide (k < 64)); [done|]; by rewrite (in_u_testbit_high 64 bits) in Ht by (done || lia)).
  assert (Z.land bits (wnot 64 (Z.shiftl 1 k)) = Z.land bits (bits - 1)) as ->.
  { apply Z.bits_inj'. intros i Hi. rewrite Hclr by done. rewrite Z.land_spec.
    rewrite Z.shiftl_1_l. destruct (decide (i < 64)) as [Hlt|Hge].
    - rewrite wnot_testbit; [|lia| |lia]; [|split; [lia|apply Z.pow_lt_mono_r; lia]]. rewrite Z.pow2_bits_eqb by lia. by rewrite (Z.eqb_sym k).
    - by rewrite (in_u_testbit_high 64 bits) by (done || lia). }
  apply IH. apply in_u_land; [done|done|unfold in_u in Hb; lia].
Qed.

Lemma count_filter_range f lo n x :
  count_occ Z.eq_dec (List.filter f (range lo n)) x = if decide (lo <= x < lo + Z.of_nat n) then (if f x then 1 else 0)%nat else 0%nat.
Proof.
  revert lo. induction n as [|n IH]; intros lo; cbn [range List.filter]; [rewrite decide_False by lia; done|].
  destruct (decide (x = lo)) as [->|Hx].
  - rewrite decide_True by lia. destruct (f lo) eqn:Hf; [rewrite count_occ_cons_eq by done|]; rewrite IH, decide_False by lia; done.
  - assert (count_occ Z.eq_dec (List.filter f (range (lo + 1) n)) x =
      count_occ Z.eq_dec (if f lo then lo :: List.filter f (range (lo + 1) n) else List.filter f (range (lo + 1) n)) x) as <-
      by (destruct (f lo); [by rewrite count_occ_cons_neq|done]).
    rewrite IH. repeat case_decide; (done || lia).
Qed.

(** A swapped word gives each of its pending identifiers once. *)
Lemma drain_word_count s idx x :
  shadow_ok s -> (idx < WORDS)%nat -> 0 <= x ->
  count_occ Z.eq_dec (drain_word s idx).2 x = (if bool_decide (Z.to_nat (x / 64) = idx) && pending s x then 1 else 0)%nat.
Proof.
  intros [Hl Hw] Hi Hx. destruct (lookup_lt_is_Some_2 s idx ltac:(by rewrite Hl)) as [w Hs].
  pose proof (Forall_lookup_1 _ _ _ _ Hw Hs) as Hu. unfold drain_word. cbn [snd]. rewrite Hs. cbn [default].
  rewrite emit_scan by done.
  replace ((fun b => Z.of_nat idx * WORD_BITS + b) <$> scan_bits 64 w) with (word_pages idx w) by done.
  rewrite word_pages_spec, count_filter_range by done. unfold pending, word_bit. rewrite Nat.sub_0_r.
  change (Z.of_nat 64) with 64. destruct (decide (Z.of_nat idx * 64 <= x < Z.of_nat idx * 64 + 64)) as [Hr|Hr].
  - rewrite (word_index_in idx x Hr), bool_decide_eq_true_2, Hs by done. cbn. done.
  - rewrite bool_decide_eq_false_2; [done|]. intros <-. apply Hr. pose proof (Z.div_mod x 64 ltac:(lia)).
    pose proof (Z.mod_pos_bound x 64 ltac:(lia)). assert (0 <= x / 64) by (apply Z.div_pos; lia). lia.
Qed.

Lemma word_bit_insert s (idx : nat) w x :
  (idx < length s)%nat -> 0 <= x ->
  word_bit (<[idx := w]> s) 0 x = if bool_decide (Z.to_nat (x / 64) = idx) then Z.testbit w (x mod 64) else word_bit s 0 x.
Proof.
  intros Hi Hx. unfold word_bit. rewrite Nat.sub_0_r. case_bool_decide as E.
  - by rewrite E, list_lookup_insert_eq.
  - by rewrite list_lookup_insert_ne.
Qed.

(** What a swap changes: the bits of its word, which it hands out. *)
Lemma drain_word_spec s idx :
  shadow_ok s -> (idx < WORDS)%nat ->
  let (s', ids) := drain_word s idx in
  shadow_ok s' /\
  (forall x, 0 <= x -> pending s' x = pending s x && negb (bool_decide (Z.to_nat (x / 64) = idx))) /\
  (forall x, 0 <= x -> count_occ Z.eq_dec ids x = (if bool_decide (Z.to_nat (x / 64) = idx) && pending s x then 1 else 0)%nat).
Proof.
  intros Hs Hi. pose proof (fun x => drain_word_count s idx x Hs Hi) as Hc. pose proof (eq_refl (drain_word s idx).1) as H1.
  unfold drain_word at 2 in H1. cbn [fst] in H1. destruct (drain_word s idx) as [s' ids]. cbn [fst snd] in *. subst s'.
  destruct Hs as [Hl Hw]. split; [|split; [|exact Hc]].
  - split; [by rewrite length_insert|]. apply Forall_insert; [done|]. unfold in_u. lia.
  - intros x Hx. unfold pending. rewrite word_bit_insert by (by rewrite ?Hl). case_bool_decide; cbn [negb].
    + by rewrite Z.testbit_0_l, andb_false_r.
    + by rewrite andb_true_r.
Qed.

(** What an injection changes: the one bit. *)
Lemma inject_spec s intid :
  shadow_ok s -> 0 <= intid ->
  let (s', fresh) := inject s intid in
  shadow_ok s' /\ fresh = (intid <? MAX_TRACKED_INTID) && negb (pending s intid) /\
  forall x, 0 <= x -> pending s' x = pending s x || (bool_decide (x = intid) && (intid <? MAX_TRACKED_INTID)).
Proof.
  intros [Hl Hw] Hi. unfold inject, bit_position. change MAX_TRACKED_INTID with 1024.
  destruct (Z.leb_spec 1024 intid) as [Hge|Hlt].
  { rewrite (proj2 (Z.ltb_ge intid 1024)) by done. split; [done|]. split; [done|]. intros. by rewrite andb_false_r, orb_false_r. }
  rewrite (proj2 (Z.ltb_lt intid 1024)) by done. cbn [andb]. change WORD_BITS with 64.
  pose proof (Z.mod_pos_bound intid 64 ltac:(lia)) as Hm. pose proof (Z.div_mod intid 64 ltac:(lia)) as Hd.
  assert (Hidx : (Z.to_nat (intid / 64) < length s)%nat).
  { rewrite Hl. change WORDS with 16%nat. assert (intid / 64 < 16) by (apply Z.div_lt_upper_bound; lia). lia. }
  destruct (lookup_lt_is_Some_2 s _ Hidx) as [w Hs]. pose proof (Forall_lookup_1 _ _ _ _ Hw Hs) as Hu. rewrite Hs. cbn [default].
  rewrite Z.shiftl_1_l, wrap_small by (split; [lia|apply Z.pow_lt_mono_r; lia]).
  assert (Hp : pending s intid = Z.testbit w (intid mod 64)) by (unfold pending, word_bit; by rewrite Nat.sub_0_r, Hs).
  split; [|split].
  - split; [by rewrite length_insert|]. apply Forall_insert; [done|]. apply in_u_lor; [done|done|].
    split; [lia|apply Z.pow_lt_mono_r; lia].
  - rewrite Hp. by rewrite land_pow2_testbit by lia.
  - intros x Hx. rewrite andb_true_r. unfold pending. rewrite word_bit_insert by done. case_bool_decide as E.
    + rewrite Z.lor_spec, Z.pow2_bits_eqb by lia. assert (word_bit s 0 x = Z.testbit w (x mod 64)) as ->.
      { unfold word_bit. by rewrite Nat.sub_0_r, E, Hs. }
      f_equal. pose proof (Z.div_mod x 64 ltac:(lia)). pose proof (Z.mod_pos_bound x 64 ltac:(lia)).
      assert (0 <= x / 64) by (apply Z.div_pos; lia). assert (0 <= intid / 64) by (apply Z.div_pos; lia).
      destruct (Z.eqb_spec (intid mod 64) (x mod 64)); case_bool_decide; (done || (subst; lia) || (exfalso; lia)).
    + rewrite bool_decide_eq_false_2; [by rewrite orb_false_r|]. intros ->. done.
Qed.

(** What is pending, per identifier. *)
Definition balanced (t : Trace) : Prop :=
  shadow_ok (tr_shadow t) /\
  forall x, 0 <= x -> count_occ Z.eq_dec (tr_set t) x =
    (count_occ Z.eq_dec (tr_emitted t) x + if pending (tr_shadow t) x then 1 else 0)%nat.

Lemma irq_step_balanced t e : balanced t -> irq_event_ok e -> balanced (irq_step t e).
Proof.
  intros [Hs Hc] He. destruct e as [intid|idx]; cbn in He.
  - pose proof (inject_spec (tr_shadow t) intid Hs ltac:(lia)) as Hi. unfold irq_step.
    destruct (inject (tr_shadow t) intid) as [s' fresh]. destruct Hi as (Hs' & -> & Hp). split; [exact Hs'|].
    intros x Hx. cbn [tr_set tr_emitted tr_shadow]. rewrite (Hp x Hx). specialize (Hc x Hx).
    destruct (intid <? MAX_TRACKED_INTID); cbn [andb]; [|rewrite andb_false_r, orb_false_r; exact Hc]. rewrite andb_true_r.
    destruct (decide (x = intid)) as [->|Hne].
    + rewrite bool_decide_eq_true_2 by done. destruct (pending (tr_shadow t) intid); cbn [negb orb]; [exact Hc|].
      rewrite count_occ_app. cbn [count_occ]. destruct (Z.eq_dec intid intid); [lia|done].
    + rewrite bool_decide_eq_false_2, orb_false_r by done. destruct (negb _); [|exact Hc].
      rewrite count_occ_app. cbn [count_occ]. destruct (Z.eq_dec intid x); [by subst|lia].
  - pose proof (drain_word_spec (tr_shadow t) idx Hs He) as Hd. unfold irq_step.
    destruct (drain_word (tr_shadow t) idx) as [s' ids]. destruct Hd as (Hs' & Hp & Hn). split; [exact Hs'|].
    intros x Hx. cbn [tr_set tr_emitted tr_shadow]. rewrite count_occ_app, (Hn x Hx), (Hp x Hx), (Hc x Hx).
    case_bool_decide; cbn [andb negb]; [rewrite andb_false_r|rewrite andb_true_r]; lia.
Qed.

(** No interrupt is lost or delivered twice, however injections and the words of drains
    interleave: an identifier was emitted as often as an injection set its bit, once less
    while it is pending; and a drain of every word leaves nothing pending. *)
Lemma irq_exact es x :
  Forall irq_event_ok es -> 0 <= x ->
  let t := irq_run es in
  count_occ Z.eq_dec (tr_set t) x =
    (count_occ Z.eq_dec (tr_emitted t) x + if pending (tr_shadow t) x then 1 else 0)%nat.
Proof.
  intros Hes Hx t. assert (balanced t) as [_ H]; [|by apply H]. unfold t, irq_run.
  assert (balanced (mkTrace IrqShadow_new [] [])) as H0.
  { split; [split; [done|]; apply Forall_replicate; unfold in_u; lia|]. intros y Hy. cbn [tr_set tr_emitted tr_shadow count_occ].
    unfold pending, word_bit, IrqShadow_new. destruct (replicate WORDS 0 !! _) eqn:E; cbn; [|by rewrite Z.testbit_0_l].
    apply lookup_replicate in E as [-> _]. by rewrite Z.testbit_0_l. }
  revert H0. generalize (mkTrace IrqShadow_new [] []). induction Hes as [|e es He _ IH]; intros t0 H0; [done|].
  cbn. by apply IH, irq_step_balanced.
Qed.
End Irq.

(** ** Thread affinity *)

Record ThreadAffinityError := mkAffinity { ta_expected : nat; ta_actual : nat }.

Record HvfVcpu (V : Type) := mkHvfVcpu {
  hc_index : Z;
  hc_mpidr : Z;
  hc_owning_thread : nat;
  hc_irq_shadow : list Z;
  hc_inner : V
}.
Arguments mkHvfVcpu {V}.
Arguments hc_index {V}.
Arguments hc_mpidr {V}.
Arguments hc_owning_thread {V}.
Arguments hc_irq_shadow {V}.
Arguments hc_inner {V}.

(** On the thread [current]. *)
Definition HvfVcpu_new {V} (current : nat) (index mpidr : Z) (inner : V) : HvfVcpu V :=
  mkHvfVcpu index mpidr current Irq.IrqShadow_new inner.

(** In a release build. *)
Definition check_affinity {V} (current : nat) (v : HvfVcpu V) : result ThreadAffinityError unit :=
  if (current =? hc_owning_thread v)%nat then Ok tt else Err (mkAffinity (hc_owning_thread v) current).

Definition inner_mut {V} (current : nat) (v : HvfVcpu V) : result ThreadAffinityError V :=
  let? _ := check_affinity current v in Ok (hc_inner v).

(** ** The hotplug backend *)

(** The hypervisor's memory objects, known by a handle: creating one, mapping it at a
    guest address, unmapping it, and the [Drop] that unmaps what is still mapped. *)
Class MemoryApi (H : Type) := {
  ma_create : H -> Z -> H * result HypervisorError nat;
  ma_map : H -> nat -> Z -> H * result HypervisorError unit;
  ma_unmap : H -> nat -> H * result HypervisorError unit;
  ma_drop : H -> nat -> H
}.

Record HvfMemBackend (H : Type) := mkHvfMem { mb_vm : H; mb_regions : gmap Z nat }.
Arguments mkHvfMem {H}.
Arguments mb_vm {H}.
Arguments mb_regions {H}.

Section hotplug.
Context {H : Type} `{!MemoryApi H}.

Definition HvfMemBackend_new (vm : H) : HvfMemBackend H := mkHvfMem vm ∅.

Definition plugged_region_count (b : HvfMemBackend H) : nat := size (mb_regions b).

Definition hvf_plug (b : HvfMemBackend H) (guest_base len : Z) : HvfMemBackend H * result unit unit :=
  match ma_create (mb_vm b) len with
  | (vm, Err _) => (mkHvfMem vm (mb_regions b), Err tt)
  | (vm, Ok mem) =>
      match ma_map vm mem guest_base with
      | (vm, Err _) => (mkHvfMem (ma_drop vm mem) (mb_regions b), Err tt)
      | (vm, Ok _) =>
          let regions := <[guest_base := mem]> (mb_regions b) in
          match mb_regions b !! guest_base with
          | Some old => (mkHvfMem (ma_drop vm old) regions, Err tt)
          | None => (mkHvfMem vm regions, Ok tt)
          end
      end
  end.

(** The length is only printed. *)
Definition hvf_unplug (b : HvfMemBackend H) (guest_base len : Z) : HvfMemBackend H * result unit unit :=
  match mb_regions b !! guest_base with
  | None => (b, Err tt)
  | Some mem =>
      let regions := delete guest_base (mb_regions b) in
      match ma_unmap (mb_vm b) mem with
      | (vm, Err _) => (mkHvfMem (ma_drop vm mem) regions, Err tt)
      | (vm, Ok _) => (mkHvfMem (ma_drop vm mem) regions, Ok tt)
      end
  end.

#[export] Instance HvfMemBackend_backend : MemHotplugBackend (HvfMemBackend H) := {
  mh_plug := hvf_plug;
  mh_unplug := hvf_unplug
}.
End hotplug.

(** What the hypervisor documents: [ma_at] is where an object is mapped.  A mapping is
    not empty and overlaps no other. *)
Class MemoryApiLaws (H : Type) `{!MemoryApi H} := {
  ma_at : H -> nat -> option (Z * Z);
  ma_create_at : forall h len h' r, ma_create h len = (h', r) ->
    (forall m, ma_at h' m = ma_at h m) /\ forall m, r = Ok m -> ma_at h m = None;
  ma_map_at : forall h m base h' r, ma_map h m base = (h', r) ->
    (forall n, n <> m -> ma_at h' n = ma_at h n) /\
    match r with
    | Ok _ => exists len, ma_at h' m = Some (base, len) /\ 0 < len /\
        forall n b l, n <> m -> ma_at h n = Some (b, l) -> b + l <= base \/ base + len <= b
    | Err _ => ma_at h' m = ma_at h m
    end;
  ma_unmap_at : forall h m h' r, ma_unmap h m = (h', r) ->
    (forall n, n <> m -> ma_at h' n = ma_at h n) /\
    match r with Ok _ => ma_at h' m = None | Err _ => ma_at h' m = ma_at h m end;
  ma_drop_at : forall h m n, ma_at (ma_drop h m) n = if decide (n = m) then None else ma_at h n;
  ma_at_positive : forall h m b l, ma_at h m = Some (b, l) -> 0 < l
}.

Section hotplug_correct.
Context {H : Type} `{!MemoryApi H} {ML : MemoryApiLaws H}.

(** The table lists exactly what is mapped, under the address it is mapped at. *)
Definition table_exact (b : HvfMemBackend H) : Prop :=
  forall base m, mb_regions b !! base = Some m <-> exists len, ma_at (mb_vm b) m = Some (base, len).

(** A plug that succeeds or fails leaves an exact table, and the check for a second
    mapping at one address never fires. *)
Lemma hvf_plug_exact b base len b' r :
  table_exact b -> hvf_plug b base len = (b', r) ->
  table_exact b' /\
  match r with
  | Ok _ => exists m l, mb_regions b' = <[base := m]> (mb_regions b) /\ ma_at (mb_vm b') m = Some (base, l) /\
      mb_regions b !! base = None
  | Err _ => mb_regions b' = mb_regions b
  end.
Proof.
  intros Ht. unfold hvf_plug. destruct (ma_create (mb_vm b) len) as [vm rc] eqn:Hc.
  destruct (ma_create_at _ _ _ _ Hc) as [Hsame Hfresh].
  destruct rc as [m|e]; [|intros [= <- <-]; split; [|done]; intros x n; cbn; by rewrite Hsame].
  specialize (Hfresh m eq_refl). destruct (ma_map vm m base) as [vm' rm] eqn:Hm.
  destruct (ma_map_at _ _ _ _ _ Hm) as [Hothers Hr]. destruct rm as [[]|e].
  - destruct Hr as (l & Hat & Hpos & Hdis).
    assert (mb_regions b !! base = None) as Hnone.
    { destruct (mb_regions b !! base) as [old|] eqn:Hold; [|done]. apply Ht in Hold as [lo Hlo].
      assert (old <> m) as Hne by congruence. pose proof (ma_at_positive _ _ _ _ Hlo).
      rewrite <- Hsame in Hlo. destruct (Hdis _ _ _ Hne Hlo); lia. }
    rewrite Hnone. intros [= <- <-]. split; [|by exists m, l]. intros x n. cbn.
    rewrite lookup_insert_Some. destruct (decide (n = m)) as [->|Hn].
    + rewrite Hat. split; [intros [[<- _]|[_ Hx]]; [by eexists|]|intros [l' [= <- <-]]; by left].
      apply Ht in Hx as [l' Hx]. congruence.
    + rewrite Hothers, Hsame by done. rewrite (Ht x n). split; [intros [[_ <-]|[_ Hx]]; done|].
      intros [l' Hx]. right. split; [|by eexists]. intros <-. assert (mb_regions b !! base = Some n) by (apply Ht; by eexists). congruence.
  - intros [= <- <-]. split; [|done]. intros x n. cbn. rewrite ma_drop_at. case_decide as Hn.
    + subst n. split; [|by intros [? ?]]. intros Hx. apply Ht in Hx as [l' Hx]. congruence.
    + rewrite Hothers, Hsame by done. apply Ht.
Qed.

(** An unplug removes the whole region that was plugged at the address, whatever length
    it is asked for. *)
Lemma hvf_unplug_exact b base len b' r :
  table_exact b -> hvf_unplug b base len = (b', r) ->
  table_exact b' /\ mb_regions b' = delete base (mb_regions b) /\ (r = Ok tt -> is_Some (mb_regions b !! base)).
Proof.
  intros Ht. unfold hvf_unplug. destruct (mb_regions b !! base) as [m|] eqn:Hb; cycle 1.
  { intros [= <- <-]. split; [done|]. split; [by rewrite delete_id|done]. }
  destruct (ma_unmap (mb_vm b) m) as [vm ru] eqn:Hu. destruct (ma_unmap_at _ _ _ _ Hu) as [Hothers _].
  assert (forall x n, delete base (mb_regions b) !! x = Some n <-> exists l, ma_at (ma_drop vm m) n = Some (x, l)) as Hx.
  { intros x n. rewrite lookup_delete_Some, ma_drop_at. case_decide as Hn.
    - subst n. split; [|by intros [? ?]]. intros [Hne Hx]. apply Ht in Hb as [l1 H1], Hx as [l2 H2]. congruence.
    - rewrite Hothers by done. rewrite (Ht x n). split; [by intros [_ ?]|]. intros Hl. split; [|done]. intros <-.
      apply (Ht base n) in Hl. congruence. }
  destruct ru; intros [= <- <-]; by split_and!.
Qed.

(** Over any sequence of calls the table stays exact: nothing is mapped that it does not
    list, and what it lists is mapped. *)
Inductive HotplugCall := Plug (base len : Z) | Unplug (base len : Z).

Definition hotplug_step (b : HvfMemBackend H) (c : HotplugCall) : HvfMemBackend H :=
  match c with Plug base len => (mh_plug b base len).1 | Unplug base len => (mh_unplug b base len).1 end.

Lemma hvf_backend_exact vm cs :
  (forall m, ma_at vm m = None) -> table_exact (foldl hotplug_step (HvfMemBackend_new vm) cs).
Proof.
  intros Hnone. assert (table_exact (HvfMemBackend_new vm)) as H0.
  { intros base m. cbn. rewrite lookup_empty. split; [done|]. intros [l Hl]. by rewrite Hnone in Hl. }
  revert H0. generalize (HvfMemBackend_new vm). induction cs as [|c cs IH]; intros b Hb; [done|]. apply IH. destruct c as [base len|base len]; cbn.
  - destruct (hvf_plug b base len) as [b' r] eqn:E. by destruct (hvf_plug_exact _ _ _ _ _ Hb E).
  - destruct (hvf_unplug b base len) as [b' r] eqn:E. by destruct (hvf_unplug_exact _ _ _ _ _ Hb E).
Qed.
End hotplug_correct.

(** ** A hypervisor in memory *)

(** Objects with their size and where they are mapped. *)
Abbreviation DemoVm := (list (Z * option Z)).

Definition demo_overlaps (h : DemoVm) (base len : Z) : bool :=
  existsb (fun o => match o.2 with Some b => (b <? base + len) && (base <? b + o.1) | None => false end) h.

#[export] Instance demo_memory_api : MemoryApi DemoVm := {
  ma_create h len := if 0 <? len then (h ++ [(len, None)], Ok (length h)) else (h, Err (mkHvError 1));
  ma_map h m base :=
    match h !! m with
    | Some (len, None) => if (len <=? 0) || demo_overlaps h base len then (h, Err (mkHvError 2)) else (<[m := (len, Some base)]> h, Ok tt)
    | _ => (h, Err (mkHvError 3))
    end;
  ma_unmap h m :=
    match h !! m with
    | Some (len, Some _) => (<[m := (len, None)]> h, Ok tt)
    | _ => (h, Err (mkHvError 3))
    end;
  ma_drop h m := match h !! m with Some (len, _) => <[m := (len, None)]> h | None => h end
}.

Definition demo_at (h : DemoVm) (m : nat) : option (Z * Z) :=
  match h !! m with
  | Some (len, Some base) => if 0 <? len then Some (base, len) else None
  | _ => None
  end.

Lemma demo_at_insert h m (x : Z * option Z) n :
  (m < length h)%nat ->
  demo_at (<[m := x]> h) n =
    if decide (n = m) then (match x with (len, Some base) => if 0 <? len then Some (base, len) else None | _ => None end)
    else demo_at h n.
Proof.
  intros Hm. unfold demo_at. case_decide as E; [subst; by rewrite list_lookup_insert_eq|by rewrite list_lookup_insert_ne].
Qed.

Lemma demo_apart h base len n b l :
  demo_overlaps h base len = false -> demo_at h n = Some (b, l) -> b + l <= base \/ base + len <= b.
Proof.
  intros Ho Hn. unfold demo_at in Hn. destruct (h !! n) as [[l' [b'|]]|] eqn:E; try done.
  destruct (0 <? l') eqn:Hl; [|done]. injection Hn as -> ->. apply list_elem_of_lookup_2, list_elem_of_In in E.
  unfold demo_overlaps in Ho. destruct (Z.ltb_spec b (base + len)); [|by right].
  destruct (Z.ltb_spec base (b + l)); [|by left]. exfalso. apply not_true_iff_false in Ho. apply Ho.
  apply List.existsb_exists. exists (l, Some b). split; [done|]. cbn. apply andb_true_iff. split; by apply Z.ltb_lt.
Qed.

#[export] Instance demo_memory_laws : MemoryApiLaws DemoVm.
Proof.
  refine {| ma_at := demo_at |}; cbn.
  - intros h len h' r. destruct (0 <? len); intros [= <- <-]; [|done].
    assert (forall m, demo_at (h ++ [(len, None)]) m = demo_at h m) as Hs.
    { intros m. unfold demo_at. destruct (decide (m < length h)%nat) as [Hm|Hm]; [by rewrite lookup_app_l|].
      rewrite lookup_app_r, (lookup_ge_None_2 h m) by lia. by destruct (m - length h)%nat as [|k]; [|destruct k]. }
    split; [done|]. intros m [= <-]. unfold demo_at. by rewrite (lookup_ge_None_2 h) by lia.
  - intros h m base h' r. destruct (h !! m) as [[len [b|]]|] eqn:E; [by intros [= <- <-]| |by intros [= <- <-]].
    pose proof (lookup_lt_Some _ _ _ E) as Hlt. destruct (Z.leb_spec len 0) as [|Hpos]; [by intros [= <- <-]|].
    destruct (demo_overlaps h base len) eqn:Ho; intros [= <- <-]; [done|].
    split; [intros n Hn; by rewrite demo_at_insert, decide_False|]. exists len.
    rewrite demo_at_insert, decide_True, (proj2 (Z.ltb_lt 0 len)) by done. split; [done|]. split; [done|].
    intros n b l _. by apply demo_apart.
  - intros h m h' r. destruct (h !! m) as [[len [b|]]|] eqn:E; intros [= <- <-]; [|done|done].
    pose proof (lookup_lt_Some _ _ _ E). split; [intros n Hn; by rewrite demo_at_insert, decide_False|].
    by rewrite demo_at_insert, decide_True.
  - intros h m n. destruct (h !! m) as [[len b]|] eqn:E.
    + by rewrite demo_at_insert by (by eapply lookup_lt_Some).
    + case_decide; [subst; unfold demo_at; by rewrite E|done].
  - intros h m b l. unfold demo_at. destruct (h !! m) as [[l' [b'|]]|]; try done. destruct (Z.ltb_spec 0 l'); [|done].
    by intros [= <- <-].
Defined.

Definition demo_mapped (b : HvfMemBackend DemoVm) (a : Z) : bool := demo_overlaps (mb_vm b) a 1.

Definition demo_mem : MemOwn (HvfMemBackend DemoVm) :=
  mkMemOwn (mkMemConfig [] (2 ^ 30) (4 * BLOCK_SIZE) 0) [false; false; false; false] (HvfMemBackend_new []).

(** Two blocks plugged by one request, the first unplugged by another, both acknowledged:
    the bitmap says that the second block is plugged, but it is no longer mapped. *)
Example partial_unplug_unmaps_all :
  let (o1, r1) := issue_request demo_mem REQ_PLUG (2 ^ 30) 2 in
  let (o2, r2) := issue_request o1 REQ_UNPLUG (2 ^ 30) 1 in
  (r1, r2) = (RESP_ACK, RESP_ACK) /\ mo_plugged o2 = [false; true; false; false] /\
  demo_mapped (mo_backend o1) (2 ^ 30 + BLOCK_SIZE) = true /\ demo_mapped (mo_backend o2) (2 ^ 30 + BLOCK_SIZE) = false.
Proof. vm_compute. by split_and!. Qed.

(** Unplugging everything after that plug fails, and leaves a block marked that nothing maps. *)
Example unplug_all_after_range :
  let (o1, _) := issue_request demo_mem REQ_PLUG (2 ^ 30) 2 in
  let (o2, r2) := issue_request o1 REQ_UNPLUG_ALL 0 0 in
  r2 = RESP_ERROR /\ mo_plugged o2 = [false; true; false; false] /\ demo_mapped (mo_backend o2) (2 ^ 30 + BLOCK_SIZE) = false.
Proof. vm_compute. by split_and!. Qed.
