(* ===== verification/Machine.v ===== *)
(** * Machine: the devices of a microVM on one bus

    Models [src/crates/vmm/src/device_manager.rs] and the vsock receive pump of
    [src/crates/squib/src/vmm_loop.rs]: the devices are built in the order of the code,
    placed on one bus, and share guest memory and the interrupt controller.  [machine_step]
    composes [Bus], [Pl011], [Transport] and the device models. *)

From stdpp Require Import base numbers list option gmap strings.
From Stdlib Require Import ZArith Lia.
From S2P Require Import Prelude GuestMem Bus Virtqueue Arch Transport Drain Device Block Peripherals Pl011 Text Http MmdsTcp Mmds Net Vsock Loader Fdt.

Local Open Scope Z_scope.
Local Open Scope squib_scope.

(** ** Devices *)

(** The [VirtioDevice] implementations the manager plugs in. *)
Inductive VDev (E B C I NB X : Type) :=
  | VRng (d : Frontend E)
  | VBlock (d : BlockDevice B)
  | VNet (d : Frontend (NetOwn I NB))
  | VConsole (d : Frontend (ConsoleSink C))
  | VVsock (d : Frontend (VsockOwn X)).
Arguments VRng {E B C I NB X}.
Arguments VBlock {E B C I NB X}.
Arguments VNet {E B C I NB X}.
Arguments VConsole {E B C I NB X}.
Arguments VVsock {E B C I NB X}.

Section vdev.
Context {M G E B C I NB X : Type} `{!GuestMemory M, !GuestMemoryLaws M} `{!Gic G}.
Context `{!EntropySource E, !BlockBackend B, !HostWriter C, !FrameInterceptor I, !NetBackend NB, !VsockMuxer X}.
Local Abbreviation W := (World M G).
Local Abbreviation V := (VDev E B C I NB X).

(** A method call through [dyn VirtioDevice]. *)
Definition vdev_get {A} (f : forall D, VirtioDevice W D -> D -> A) (v : V) : A :=
  match v with
  | VRng d => f _ _ d
  | VBlock d => f _ _ d
  | VNet d => f _ _ d
  | VConsole d => f _ _ d
  | VVsock d => f _ _ d
  end.

Definition vdev_set (f : forall D, VirtioDevice W D -> D -> D) (v : V) : V :=
  match v with
  | VRng d => VRng (f _ _ d)
  | VBlock d => VBlock (f _ _ d)
  | VNet d => VNet (f _ _ d)
  | VConsole d => VConsole (f _ _ d)
  | VVsock d => VVsock (f _ _ d)
  end.

Definition vdev_run {A} (f : forall D, VirtioDevice W D -> D -> D * A) (v : V) : V * A :=
  match v with
  | VRng d => let (d', a) := f _ _ d in (VRng d', a)
  | VBlock d => let (d', a) := f _ _ d in (VBlock d', a)
  | VNet d => let (d', a) := f _ _ d in (VNet d', a)
  | VConsole d => let (d', a) := f _ _ d in (VConsole d', a)
  | VVsock d => let (d', a) := f _ _ d in (VVsock d', a)
  end.

#[export] Instance VDev_VirtioDevice : VirtioDevice W V := {
  vd_device_id := vdev_get (fun _ _ => vd_device_id);
  vd_avail_features := vdev_get (fun _ _ => vd_avail_features);
  vd_acked_features := vdev_get (fun _ _ => vd_acked_features);
  vd_set_acked_features v x := vdev_set (fun _ _ d => vd_set_acked_features d x) v;
  vd_queues := vdev_get (fun _ _ => vd_queues);
  vd_set_queues v qs := vdev_set (fun _ _ d => vd_set_queues d qs) v;
  vd_read_config v o bs := vdev_get (fun _ _ d => vd_read_config d o bs) v;
  vd_write_config v o bs := vdev_set (fun _ _ d => vd_write_config d o bs) v;
  vd_activate v w := vdev_run (fun _ _ d => vd_activate d w) v;
  vd_is_activated := vdev_get (fun _ _ => vd_is_activated);
  vd_process_queue v w i := vdev_run (fun _ _ d => vd_process_queue d w i) v
}.

Lemma vdev_run_fst {A} (f : forall D, VirtioDevice W D -> D -> D * A) (v : V) :
  (vdev_run f v).1 = vdev_set (fun D H d => (f D H d).1) v.
Proof. destruct v; cbn [vdev_run vdev_set]; by destruct (f _ _ _). Qed.

#[export] Instance VDev_VirtioDeviceLaws : VirtioDeviceLaws W V.
Proof.
  split; intros v; intros;
    cbn [vd_avail_features vd_acked_features vd_set_acked_features vd_queues vd_set_queues vd_write_config
         vd_activate vd_is_activated vd_process_queue VDev_VirtioDevice] in *; rewrite ?vdev_run_fst;
    destruct v; cbn [vdev_get vdev_set vdev_run] in *;
    try match goal with
        | H : (let (_, _) := vd_activate ?d ?w in _) = _ |- _ =>
            destruct (vd_activate d w) as [? ?] eqn:Ha; injection H as <- ->; cbn [vdev_get]
        end;
    first [ apply vd_avail_u64 | apply vd_acked_set | apply vd_acked_queues | apply vd_acked_config | apply vd_acked_activate
          | apply vd_acked_process | apply vd_avail_set | apply vd_avail_queues | apply vd_avail_config
          | apply vd_avail_activate | apply vd_avail_process | by apply vd_queues_set | apply vd_queues_acked
          | apply vd_queues_activate | by eapply vd_activated_ok | by eapply vd_activated_err | apply vd_activated_set
          | apply vd_activated_queues | apply vd_activated_config | apply vd_activated_process ].
Qed.
End vdev.

(** ** The machine *)

(** A bus device: the UART, or a transport with its interrupt line's number and status word. *)
Inductive MDev (S G V : Type) :=
  | MUart (u : Pl011 S G)
  | MVirtio (t : VirtioMmioTransport V) (intid : Gic.IntId) (status : Z).
Arguments MUart {S G V}.
Arguments MVirtio {S G V}.

(** The frozen bus, the devices its handles name, and what they share. *)
Record Machine (M G D : Type) := mkMachine { mc_bus : devmap; mc_devs : list D; mc_mem : M; mc_gic : G }.
Arguments mkMachine {M G D}.
Arguments mc_bus {M G D}.
Arguments mc_devs {M G D}.
Arguments mc_mem {M G D}.
Arguments mc_gic {M G D}.

(** The UART holds a clone of the shared controller's handle. *)
Definition uart_with_gic {S G} (u : Pl011 S G) (g : G) : Pl011 S G :=
  mkPl011 (sink u) (rx_queue u) (imsc u) (ris u) (ibrd u) (fbrd u) (lcrh u) (cr u) (iflss u) (dmacr u) (ilpr u)
    g (uart_intid u).

Definition default_guest_mac : list Z := [0x06; 0x00; 0xAC; 0x10; 0x00; 0x02].

Definition VIRTIO_MMIO_REGION_BYTES : Z := 0x1000.

Inductive DeviceError :=
  | DevBus (e : BusError)
  | SlotExhausted (e : Slots.SlotError)
  | DevBackend (e : Text.IoError + VsockNewError)
  | DevIntId (e : Gic.IntIdError)
  | DevEntropy (code : Z).

Record BlockConfigSpec := mkBlockSpec { bs_id : list Z; bs_path : list Z; bs_read_only : bool }.

Record NetSpec (NB : Type) := mkNetSpec {
  ns_iface_id : list Z;
  ns_host_dev_name : list Z;
  ns_guest_mac : option (list Z);
  ns_mtu : option Z;
  ns_backend : NB
}.
Arguments mkNetSpec {NB}.
Arguments ns_iface_id {NB}.
Arguments ns_host_dev_name {NB}.
Arguments ns_guest_mac {NB}.
Arguments ns_mtu {NB}.
Arguments ns_backend {NB}.

Record VsockSpec (X : Type) := mkVsockSpec {
  vp_vsock_id : list Z;
  vp_guest_cid : Z;
  vp_uds_path : list Z;
  vp_tsi : bool;
  vp_muxer : X
}.
Arguments mkVsockSpec {X}.
Arguments vp_vsock_id {X}.
Arguments vp_guest_cid {X}.
Arguments vp_uds_path {X}.
Arguments vp_tsi {X}.
Arguments vp_muxer {X}.

Record DeviceBuildArgs (S NB X : Type) := mkBuildArgs {
  da_pl011_sink : S;
  da_mmds_size_cap : Z;
  da_block : option BlockConfigSpec;
  da_net : option (NetSpec NB);
  da_enable_console : bool;
  da_vsock : option (VsockSpec X)
}.
Arguments mkBuildArgs {S NB X}.
Arguments da_pl011_sink {S NB X}.
Arguments da_mmds_size_cap {S NB X}.
Arguments da_block {S NB X}.
Arguments da_net {S NB X}.
Arguments da_enable_console {S NB X}.
Arguments da_vsock {S NB X}.

(** What the manager asks of the host: the entropy device, a file opened as a disk, the
    interceptor's initial state for a size cap, and the MTU of a live vmnet interface. *)
Class HostDevices (E B I NB : Type) := {
  hd_entropy : result Z E;
  hd_open : list Z -> bool -> result Text.IoError B;
  hd_mmds : Z -> I;
  hd_vmnet_mtu : NB -> option Z
}.

Section machine.
Context {M G S E B C I NB X : Type} `{!GuestMemory M} `{!Gic G} `{!Pl011Sink S}.
Context `{!EntropySource E, !BlockBackend B, !HostWriter C, !FrameInterceptor I, !NetBackend NB, !VsockMuxer X}.
Local Abbreviation V := (VDev E B C I NB X).
Local Abbreviation D := (MDev S G V).
Local Abbreviation MC := (Machine M G D).

(** [BusDevice::write] on a device, with the shared memory and controller. *)
Definition dev_write (d : D) (m : M) (g : G) (offset : Z) (data : list Z) : D * M * G :=
  match d with
  | MUart u => let u' := uart_write (uart_with_gic u g) offset data in (MUart u', m, uart_gic u')
  | MVirtio t intid st =>
      let '(t', w') := transport_write t (mkWorld m (mkIrq g intid st)) offset data in
      (MVirtio t' intid (irq_status (w_irq w')), w_mem w', irq_gic (w_irq w'))
  end.

(** [BusDevice::read]. *)
Definition dev_read (d : D) (m : M) (g : G) (offset : Z) (data : list Z) : D * G * list Z :=
  match d with
  | MUart u => let '(u', data') := uart_read (uart_with_gic u g) offset data in (MUart u', uart_gic u', data')
  | MVirtio t intid st => (d, g, transport_read t (mkWorld m (mkIrq g intid st)) offset data)
  end.

Definition machine_write (mc : MC) (addr : Z) (data : list Z) : MC * result BusError unit :=
  match resolve (mc_bus mc) addr with
  | Err e => (mc, Err e)
  | Ok (offset, h) =>
      match mc_devs mc !! h with
      | None => (mc, Ok tt)
      | Some d =>
          let '(d', m', g') := dev_write d (mc_mem mc) (mc_gic mc) offset data in
          (mkMachine (mc_bus mc) (<[h := d']> (mc_devs mc)) m' g', Ok tt)
      end
  end.

Definition machine_read (mc : MC) (addr : Z) (data : list Z) : MC * list Z * result BusError unit :=
  match resolve (mc_bus mc) addr with
  | Err e => (mc, data, Err e)
  | Ok (offset, h) =>
      match mc_devs mc !! h with
      | None => (mc, data, Ok tt)
      | Some d =>
          let '(d', g', data') := dev_read d (mc_mem mc) (mc_gic mc) offset data in
          (mkMachine (mc_bus mc) (<[h := d']> (mc_devs mc)) (mc_mem mc) g', data', Ok tt)
      end
  end.

(** One round of [vsock_rx_pump] on the device behind a handle. *)
Definition vsock_pump (mc : MC) (h : handle) : MC :=
  match mc_devs mc !! h with
  | Some (MVirtio t intid st) =>
      match t_device t with
      | VVsock d =>
          if vd_is_activated (W := World M G) d
          then
            let '(d', w') := vd_process_queue d (mkWorld (mc_mem mc) (mkIrq (mc_gic mc) intid st)) VSOCK_RX_QUEUE in
            mkMachine (mc_bus mc) (<[h := MVirtio (with_device t (VVsock d')) intid (irq_status (w_irq w'))]> (mc_devs mc))
              (w_mem w') (irq_gic (w_irq w'))
          else mc
      | _ => mc
      end
  | _ => mc
  end.

(** What happens to a running machine: guest accesses and rounds of the pump. *)
Inductive event :=
  | GuestRead (addr : Z) (data : list Z)
  | GuestWrite (addr : Z) (data : list Z)
  | VsockPump (h : handle).

Definition machine_step (mc : MC) (ev : event) : MC :=
  match ev with
  | GuestRead addr data => (machine_read mc addr data).1.1
  | GuestWrite addr data => (machine_write mc addr data).1
  | VsockPump h => vsock_pump mc h
  end.

Definition machine_run (mc : MC) (evs : list event) : MC := foldl machine_step mc evs.

(** ** Building the layout *)

Record Builder := mkBuilder {
  bl_bus : devmap;
  bl_devs : list D;
  bl_alloc : Slots.SlotAllocator;
  bl_slots : list VirtioSlot
}.

Definition build_m := stm Builder DeviceError.

(** [builder.insert]: the new device's handle is its place in the store. *)
Definition bus_insert (d : D) (base len : Z) : build_m handle :=
  fun b =>
    let h := length (bl_devs b) in
    match Bus.insert (bl_bus b) h base len with
    | Err e => (b, Err (DevBus e))
    | Ok bus => (mkBuilder bus (bl_devs b ++ [d]) (bl_alloc b) (bl_slots b), Ok h)
    end.

Definition alloc_or_fail : build_m Slots.Slot :=
  fun b =>
    match Slots.allocate (bl_alloc b) with
    | (a, Ok slot) => (mkBuilder (bl_bus b) (bl_devs b) a (bl_slots b), Ok slot)
    | (a, Err e) => (mkBuilder (bl_bus b) (bl_devs b) a (bl_slots b), Err (SlotExhausted e))
    end.

Definition push_slot (slot : Slots.Slot) : build_m unit :=
  fun b => (mkBuilder (bl_bus b) (bl_devs b) (bl_alloc b) (bl_slots b ++ [mkVirtioSlot (Slots.sl_index slot)]), Ok tt).

Definition plug_virtio (slot : Slots.Slot) (device : V) : build_m handle :=
  bus_insert (MVirtio (Transport_new device) (Slots.sl_intid slot) 0) (Slots.sl_base slot) VIRTIO_MMIO_REGION_BYTES.

Definition lift_res {A F} (f : F -> DeviceError) (r : result F A) : build_m A :=
  fun b => (b, map_err f r).

Context `{!HostDevices E B I NB}.

(** The MTU offered to the guest, clamped to that of a live vmnet interface. *)
Definition effective_mtu (backend : NB) (mtu : option Z) : Z :=
  match hd_vmnet_mtu backend, mtu with
  | Some live, Some m => Z.min (if live <? 2 ^ 16 then live else 1500) m
  | Some live, None => if live <? 2 ^ 16 then live else 1500
  | None, Some m => m
  | None, None => 1500
  end.

Definition build_pl011 (gic : G) (sink : S) : build_m unit :=
  let! intid := lift_res DevIntId (Gic.from_spi_cell 1) in
  let! _ := bus_insert (MUart (Pl011_new sink gic intid)) Layout.PL011_BASE 0x1000 in
  st_ret tt.

Definition build_rng : build_m unit :=
  let! rng_slot := alloc_or_fail in
  let! source := lift_res DevEntropy hd_entropy in
  let! _ := plug_virtio rng_slot (VRng (rng_with_source source)) in
  push_slot rng_slot.

Definition build_block (spec : BlockConfigSpec) : build_m unit :=
  let! backend := lift_res (fun e => DevBackend (inl e)) (hd_open (bs_path spec) (bs_read_only spec)) in
  let block := BlockDevice_new (mkBlockConfig (bs_id spec) (bs_read_only spec) Writeback) backend in
  let! block_slot := alloc_or_fail in
  let! _ := plug_virtio block_slot (VBlock block) in
  push_slot block_slot.

Definition build_net (mmds : I) (spec : NetSpec NB) : build_m unit :=
  let! net_slot := alloc_or_fail in
  let mtu := effective_mtu (ns_backend spec) (ns_mtu spec) in
  let net := net_new (mkNetConfig (ns_iface_id spec) (ns_host_dev_name spec)
               (Some (default default_guest_mac (ns_guest_mac spec))) (Some mtu)) (ns_backend spec) mmds in
  let! _ := plug_virtio net_slot (VNet net) in
  push_slot net_slot.

Definition build_console : build_m unit :=
  let! console_slot := alloc_or_fail in
  let! _ := plug_virtio console_slot (VConsole (console_new SinkDiscard)) in
  push_slot console_slot.

Definition build_vsock (spec : VsockSpec X) : build_m handle :=
  let! vsock_slot := alloc_or_fail in
  let vsock_config := mkVsockConfig (vp_vsock_id spec) (vp_guest_cid spec) (vp_uds_path spec) (vp_tsi spec) in
  let! device := lift_res (fun e => DevBackend (inr e)) (vsock_new vsock_config (vp_muxer spec)) in
  let! h := plug_virtio vsock_slot (VVsock device) in
  let! _ := push_slot vsock_slot in
  st_ret h.

Definition opt_m {A R} (o : option A) (f : A -> build_m R) : build_m (option R) :=
  match o with
  | Some a => let! r := f a in st_ret (Some r)
  | None => st_ret None
  end.

(** The constructors in their boot-time order; the result names the vsock device. *)
Definition build_devices (gic : G) (mmds : I) (args : DeviceBuildArgs S NB X) : build_m (option handle) :=
  let! _ := build_pl011 gic (da_pl011_sink args) in
  let! _ := build_rng in
  let! _ := opt_m (da_block args) build_block in
  let! _ := opt_m (da_net args) (build_net mmds) in
  let! _ := opt_m (if da_enable_console args then Some tt else None) (fun _ => build_console) in
  opt_m (da_vsock args) build_vsock.

Record DeviceLayout := mkLayout {
  dl_bus : devmap;
  dl_devs : list D;
  dl_virtio_slots : list VirtioSlot;
  dl_mmds : I;
  dl_vsock_device : option handle
}.

Definition build_device_layout (gic : G) (args : DeviceBuildArgs S NB X) : result DeviceError DeviceLayout :=
  let mmds := hd_mmds (da_mmds_size_cap args) in
  match build_devices gic mmds args (mkBuilder [] [] Slots.SlotAllocator_new []) with
  | (_, Err e) => Err e
  | (b, Ok vsock) => Ok (mkLayout (bl_bus b) (bl_devs b) (bl_slots b) mmds vsock)
  end.

(** The machine a layout starts as. *)
Definition boot_machine (l : DeviceLayout) (m : M) (g : G) : MC := mkMachine (dl_bus l) (dl_devs l) m g.
End machine.

(** ** The layout, as a value *)

(** The window of the [i]-th virtio device. *)
Definition slot_range (i : nat) : BusRange := mkBusRange (0x0F000000 + Z.of_nat i * 0x1000) 0x1000.

(** The bus with the UART and [n] virtio devices: handle 0, then one handle per slot. *)
Definition bus_of (n : nat) : devmap :=
  (mkBusRange 0x0E0A0000 0x1000, 0%nat) :: map (fun i => (slot_range i, S i)) (seq 0 n).

Lemma bus_of_snoc n : bus_of (S n) = bus_of n ++ [(slot_range n, S n)].
Proof. unfold bus_of. by rewrite seq_S, map_app. Qed.

Lemma slot_range_ok i : (i <= 32)%nat -> range_ok (slot_range i).
Proof. intros Hi. unfold range_ok, slot_range. cbn. lia. Qed.

Lemma bus_of_inv n : (n <= 32)%nat -> bus_inv (bus_of n).
Proof.
  intros Hn. unfold bus_of. constructor; [unfold range_ok; cbn; lia| |].
  { apply Forall_fmap, Forall_true. intros i. cbn. lia. }
  assert (Hg : forall k, (k + n <= 32)%nat -> bus_inv (map (fun i => (slot_range i, S i)) (seq k n))).
  { clear Hn. induction n as [|n IH]; intros k Hk; cbn; [constructor|]. constructor; [apply slot_range_ok; lia| |apply IH; lia].
    apply Forall_fmap, Forall_forall. intros i Hi%elem_of_seq. cbn. lia. }
  apply Hg. lia.
Qed.

Lemma check_overlap_above r m :
  range_ok r -> bus_inv m -> Forall (fun e => br_base e.1 + br_len e.1 <= br_base r) m -> check_overlap r m = Ok tt.
Proof.
  intros Hr Hm%bus_inv_ranges. induction m as [|[k v] m IH]; intros Hf; [done|]. cbn [check_overlap].
  apply Forall_cons_iff in Hf as [Hk Hf]. apply Forall_cons_iff in Hm as [Hok Hm]. cbn in Hk, Hok.
  unfold overlaps. rewrite !br_end_ok by done.
  destruct (Z.ltb_spec (br_base k) (br_base r + br_len r)), (Z.ltb_spec (br_base r) (br_base k + br_len k)); try lia; by apply IH.
Qed.

Lemma map_insert_last r h m : Forall (fun e => br_base e.1 < br_base r) m -> map_insert r h m = m ++ [(r, h)].
Proof.
  induction 1 as [|[k v] m Hk _ IH]; [done|]. cbn [map_insert app]. unfold range_cmp. cbn in Hk.
  destruct (Z.compare_spec (br_base r) (br_base k)); [lia|lia|by rewrite IH].
Qed.

Lemma insert_slot n : (n < 32)%nat ->
  Bus.insert (bus_of n) (S n) (0x0F000000 + Z.of_nat n * 0x1000) 0x1000 = Ok (bus_of (S n)).
Proof.
  intros Hn. unfold Bus.insert, BusRange_new, checked_add. cbn [Z.eqb].
  destruct (Z.ltb_spec (0x0F000000 + Z.of_nat n * 0x1000 + 0x1000) (2 ^ 64)); [|lia].
  change (mkBusRange (0x0F000000 + Z.of_nat n * 0x1000) 0x1000) with (slot_range n).
  assert (Hb : Forall (fun e => br_base e.1 + br_len e.1 <= br_base (slot_range n)) (bus_of n)).
  { unfold bus_of. constructor; [cbn; lia|]. apply Forall_fmap, Forall_forall. intros i Hi%elem_of_seq. cbn. lia. }
  rewrite check_overlap_above; [|apply slot_range_ok; lia|apply bus_of_inv; lia|done].
  rewrite map_insert_last, bus_of_snoc; [done|]. pose proof (bus_inv_ranges _ (bus_of_inv n ltac:(lia))) as Hr.
  rewrite Forall_forall in Hb, Hr |- *. intros e He. specialize (Hb e He). specialize (Hr e He). unfold range_ok in Hr. lia.
Qed.

Lemma resolve_bus_of n addr off h : (n <= 32)%nat ->
  resolve (bus_of n) addr = Ok (off, h) <->
    (h = 0%nat /\ 0x0E0A0000 <= addr < 0x0E0A1000 /\ off = addr - 0x0E0A0000) \/
    exists i, h = S i /\ (i < n)%nat /\ br_base (slot_range i) <= addr < br_base (slot_range i) + 0x1000 /\
      off = addr - br_base (slot_range i).
Proof.
  intros Hn. rewrite resolve_eq_spec, resolve_spec_ok by by apply bus_of_inv. unfold bus_of. split.
  - intros (r & [[= -> ->]|(i & [= -> ->] & Hi%elem_of_seq)%list_elem_of_fmap]%elem_of_cons & Ha & ->);
      [left; cbn in Ha |- *; lia|]. right. exists i. split_and!; [done|lia|cbn in *; lia..].
  - intros [(-> & Ha & ->)|(i & -> & Hi & Ha & ->)].
    + eexists. split; [left|]. cbn. lia.
    + exists (slot_range i). split; [right; apply list_elem_of_fmap; exists i; split; [done|apply elem_of_seq; lia]|].
      split; [|done]. cbn in *. lia.
Qed.

Section layout.
Context {M G S E B C I NB X : Type} `{!GuestMemory M, !GuestMemoryLaws M} `{!Gic G} `{!Pl011Sink S}.
Context `{!EntropySource E, !BlockBackend B, !HostWriter C, !FrameInterceptor I, !NetBackend NB, !VsockMuxer X}.
Context `{!HostDevices E B I NB}.
Local Abbreviation V := (VDev E B C I NB X).
Local Abbreviation D := (MDev S G V).

(** The device in the [i]-th slot, as it is plugged in. *)
Definition plugged (i : nat) (v : V) : D := MVirtio (Transport_new v) (Gic.mkIntId (48 + Z.of_nat i)) 0.

(** The builder after the UART [u] and the devices [vs]; [k] slots are taken. *)
Definition builder_of (u : Pl011 S G) (vs : list V) (k : nat) : Builder :=
  mkBuilder (bus_of (length vs)) (MUart u :: imap plugged vs) (Slots.mkAlloc (Z.of_nat k))
    (map (fun i => mkVirtioSlot (Z.of_nat i)) (seq 0 (length vs))).

Definition nth_slot (i : nat) : Slots.Slot :=
  Slots.mkSlot (Z.of_nat i) (0x0F000000 + Z.of_nat i * 0x1000) (Gic.mkIntId (48 + Z.of_nat i)).

Lemma alloc_step u vs : (length vs < 32)%nat ->
  alloc_or_fail (builder_of u vs (length vs)) = (builder_of u vs (Datatypes.S (length vs)), Ok (nth_slot (length vs))).
Proof.
  intros Hl. unfold alloc_or_fail, Slots.allocate, builder_of. cbn [bl_alloc Slots.sa_next].
  rewrite slot_from_index by lia. unfold wadd. rewrite wrap_small by (unfold in_u; lia).
  cbn [bl_bus bl_devs bl_slots]. do 3 f_equal. lia.
Qed.

Lemma plug_step u vs v : (length vs < 32)%nat ->
  exists b, plug_virtio (nth_slot (length vs)) v (builder_of u vs (Datatypes.S (length vs))) = (b, Ok (Datatypes.S (length vs))) /\
    push_slot (nth_slot (length vs)) b = (builder_of u (vs ++ [v]) (length (vs ++ [v])), Ok tt).
Proof.
  intros Hl. unfold plug_virtio, bus_insert, builder_of. cbn [bl_bus bl_devs bl_alloc bl_slots nth_slot Slots.sl_base Slots.sl_intid length].
  rewrite length_imap. unfold VIRTIO_MMIO_REGION_BYTES. rewrite insert_slot by done.
  eexists. split; [reflexivity|]. unfold push_slot. cbn [bl_bus bl_devs bl_alloc bl_slots Slots.sl_index].
  rewrite length_app. cbn [length]. rewrite Nat.add_1_r, seq_S, map_app, imap_app. cbn [imap app].
  unfold plugged at 3. cbn. by rewrite Nat.add_0_r.
Qed.

Definition bof (u : Pl011 S G) (vs : list V) : Builder := builder_of u vs (length vs).

(** A build step that plugs in the devices of [r], or fails. *)
Definition adds {A} (f : build_m A) (u : Pl011 S G) (vs : list V) (r : result DeviceError (list V * A)) : Prop :=
  match r with
  | Ok (ds, a) => f (bof u vs) = (bof u (vs ++ ds), Ok a)
  | Err e => exists b, f (bof u vs) = (b, Err e)
  end.

(** One device after another. *)
Definition seq_adds {A R} (r : result DeviceError (list V * A)) (k : list V -> A -> result DeviceError (list V * R))
  : result DeviceError (list V * R) :=
  match r with
  | Err e => Err e
  | Ok (ds, a) => match k ds a with Err e => Err e | Ok (ds', b) => Ok (ds ++ ds', b) end
  end.

Lemma adds_bind {A R} (f : build_m A) (k : A -> build_m R) u vs r s :
  adds f u vs r -> (forall ds a, r = Ok (ds, a) -> adds (k a) u (vs ++ ds) (s ds a)) ->
  adds (let! a := f in k a) u vs (seq_adds r s).
Proof.
  unfold adds, seq_adds, st_bind. destruct r as [[ds a]|e].
  - intros -> Hk. specialize (Hk ds a eq_refl). destruct (s ds a) as [[ds' b]|e']; [|done].
    by rewrite Hk, app_assoc.
  - intros [b ->] _. eauto.
Qed.

Lemma adds_ret {A} (a : A) u vs : adds (st_ret a) u vs (Ok ([], a)).
Proof. unfold adds, st_ret. by rewrite app_nil_r. Qed.

Lemma adds_lift {A F} (f : F -> DeviceError) (r : result F A) u vs :
  adds (lift_res f r) u vs (let? a := map_err f r in Ok ([], a)).
Proof. unfold adds, lift_res. destruct r; cbn; [by rewrite app_nil_r|eauto]. Qed.

Definition net_device (mmds : I) (spec : NetSpec NB) : V :=
  VNet (net_new (mkNetConfig (ns_iface_id spec) (ns_host_dev_name spec)
    (Some (default default_guest_mac (ns_guest_mac spec)))
    (Some (effective_mtu (ns_backend spec) (ns_mtu spec)))) (ns_backend spec) mmds).

(** The devices of a build, in slot order, or the host's failure. *)
Definition devices_of (mmds : I) (args : DeviceBuildArgs S NB X) : result DeviceError (list V) :=
  let? source := map_err DevEntropy hd_entropy in
  let? block := match da_block args with
                | Some spec =>
                    let? backend := map_err (fun e => DevBackend (inl e)) (hd_open (bs_path spec) (bs_read_only spec)) in
                    Ok [VBlock (BlockDevice_new (mkBlockConfig (bs_id spec) (bs_read_only spec) Writeback) backend)]
                | None => Ok []
                end in
  let net := match da_net args with
             | Some spec => [net_device mmds spec]
             | None => []
             end in
  let console := if da_enable_console args then [VConsole (console_new SinkDiscard)] else [] in
  let? vsock := match da_vsock args with
                | Some spec =>
                    let? device := map_err (fun e => DevBackend (inr e))
                       (vsock_new (mkVsockConfig (vp_vsock_id spec) (vp_guest_cid spec) (vp_uds_path spec) (vp_tsi spec)) (vp_muxer spec)) in
                    Ok [VVsock device]
                | None => Ok []
                end in
  Ok (VRng (rng_with_source source) :: block ++ net ++ console ++ vsock).

(** The layout of a list of devices. *)
Definition layout_of (gic : G) (mmds : I) (args : DeviceBuildArgs S NB X) (vs : list V) : DeviceLayout :=
  mkLayout (bus_of (length vs)) (MUart (Pl011_new (da_pl011_sink args) gic (Gic.mkIntId 33)) :: imap plugged vs)
    (map (fun i => mkVirtioSlot (Z.of_nat i)) (seq 0 (length vs))) mmds
    (match da_vsock args with Some _ => Some (length vs) | None => None end).

Lemma build_pl011_ok gic sink b0 :
  b0 = mkBuilder [] [] Slots.SlotAllocator_new [] ->
  build_pl011 gic sink b0 = (bof (Pl011_new sink gic (Gic.mkIntId 33)) [], Ok tt).
Proof. intros ->. vm_compute. reflexivity. Qed.

(** Allocating, building the device, plugging it in and recording the slot. *)
Ltac plug_in u Hl v :=
  unfold adds, bof, st_bind, lift_res; rewrite ?alloc_step by exact Hl; cbn [map_err];
  destruct (plug_step u _ v Hl) as (? & -> & ->); reflexivity.

Lemma build_rng_adds u vs : (length vs < 32)%nat ->
  adds build_rng u vs (let? source := map_err DevEntropy hd_entropy in Ok ([VRng (rng_with_source source)], tt)).
Proof.
  intros Hl. unfold build_rng. destruct hd_entropy as [s|e].
  - plug_in u Hl (VRng (rng_with_source s) : V).
  - unfold adds, bof, st_bind, lift_res. rewrite alloc_step by done. by eexists.
Qed.

Lemma build_block_adds spec u vs : (length vs < 32)%nat ->
  adds (build_block spec) u vs
    (let? backend := map_err (fun e => DevBackend (inl e)) (hd_open (bs_path spec) (bs_read_only spec)) in
     Ok ([VBlock (BlockDevice_new (mkBlockConfig (bs_id spec) (bs_read_only spec) Writeback) backend)], tt)).
Proof.
  intros Hl. unfold build_block. destruct (hd_open _ _) as [b|e].
  - plug_in u Hl (VBlock (BlockDevice_new (mkBlockConfig (bs_id spec) (bs_read_only spec) Writeback) b) : V).
  - unfold adds, bof, st_bind, lift_res. by eexists.
Qed.

Lemma build_net_adds mmds spec u vs : (length vs < 32)%nat ->
  adds (build_net mmds spec) u vs (Ok ([net_device mmds spec], tt)).
Proof. intros Hl. unfold build_net. cbn zeta. fold (net_device mmds spec). plug_in u Hl (net_device mmds spec). Qed.

Lemma build_console_adds u vs : (length vs < 32)%nat ->
  adds build_console u vs (Ok ([VConsole (console_new SinkDiscard)], tt)).
Proof. intros Hl. unfold build_console. plug_in u Hl (VConsole (console_new SinkDiscard) : V). Qed.

Lemma build_vsock_adds spec u vs : (length vs < 32)%nat ->
  adds (build_vsock spec) u vs
    (let? device := map_err (fun e => DevBackend (inr e))
       (vsock_new (mkVsockConfig (vp_vsock_id spec) (vp_guest_cid spec) (vp_uds_path spec) (vp_tsi spec)) (vp_muxer spec)) in
     Ok ([VVsock device], Datatypes.S (length vs))).
Proof.
  intros Hl. unfold build_vsock. cbn zeta. destruct (vsock_new _ _) as [d|e].
  - plug_in u Hl (VVsock d : V).
  - unfold adds, bof, st_bind, lift_res. rewrite alloc_step by done. by eexists.
Qed.

Lemma opt_m_adds {A R} (o : option A) (f : A -> build_m R) u vs r :
  (forall a, o = Some a -> adds (f a) u vs (r a)) ->
  adds (opt_m o f) u vs
    match o with
    | Some a => let? p := r a in Ok (p.1, Some p.2)
    | None => Ok ([], None)
    end.
Proof.
  intros H. destruct o as [a|]; [|apply adds_ret]. specialize (H a eq_refl). unfold opt_m, adds, st_bind in *.
  destruct (r a) as [[ds x]|e]; [by rewrite H|]. destruct H as [b ->]. by eexists.
Qed.

Lemma build_layout_eq gic args :
  build_device_layout gic args =
    (let mmds := hd_mmds (da_mmds_size_cap args) in
     let? vs := devices_of mmds args in
     Ok (layout_of gic mmds args vs)).
Proof.
  unfold build_device_layout, build_devices. cbn zeta. set (mmds := hd_mmds _).
  unfold st_bind at 1. rewrite (build_pl011_ok gic (da_pl011_sink args)) by done.
  set (u := Pl011_new _ _ _).
  assert (H : adds (let! _ := build_rng in
     let! _ := opt_m (da_block args) build_block in
     let! _ := opt_m (da_net args) (build_net mmds) in
     let! _ := opt_m (if da_enable_console args then Some tt else None) (fun _ => build_console) in
     opt_m (da_vsock args) build_vsock) u []
     (let? vs := devices_of mmds args in Ok (vs, match da_vsock args with Some _ => Some (length vs) | None => None end))).
  2: { revert H. unfold adds. destruct (devices_of mmds args) as [vs|e]; [intros ->; done|intros [b ->]; done]. }
  refine (eq_rect _ (adds _ u []) _ _ _).
  - refine (adds_bind _ _ u [] _ _ (build_rng_adds u [] ltac:(cbn; lia)) _). intros ds1 a1 E1.
    assert (L1 : (length ds1 <= 1)%nat) by (destruct hd_entropy; cbn in E1; simplify_eq/=; lia).
    refine (adds_bind _ _ u _ _ _ (opt_m_adds _ _ _ _ _ (fun spec _ => build_block_adds spec u _ _)) _); [cbn; lia|].
    intros ds2 a2 E2.
    assert (L2 : (length ds2 <= 1)%nat).
    { destruct (da_block args) as [spec|]; [destruct (hd_open _ _)|]; cbn in E2; simplify_eq/=; lia. }
    refine (adds_bind _ _ u _ _ _ (opt_m_adds _ _ _ _ _ (fun spec _ => build_net_adds mmds spec u _ _)) _);
      [rewrite !length_app; cbn; lia|].
    intros ds3 a3 E3.
    assert (L3 : (length ds3 <= 1)%nat) by (destruct (da_net args); cbn in E3; simplify_eq/=; lia).
    refine (adds_bind _ _ u _ _ _ (opt_m_adds _ _ _ _ _ (fun _ _ => build_console_adds u _ _)) _);
      [rewrite !length_app; cbn; lia|].
    intros ds4 a4 E4.
    assert (L4 : (length ds4 <= 1)%nat) by (destruct (da_enable_console args); cbn in E4; simplify_eq/=; lia).
    refine (opt_m_adds _ _ _ _ _ (fun spec _ => build_vsock_adds spec u _ _)). rewrite !length_app. cbn. lia.
  - unfold devices_of. destruct hd_entropy; [|done]. destruct (da_block args) as [bs|]; [destruct (hd_open _ _); [|done]|];
      destruct (da_net args), (da_enable_console args), (da_vsock args) as [v|]; cbn [seq_adds map_err app]; try done;
      destruct (vsock_new _ _); done.
Qed.

Lemma devices_of_shape mmds args (vs : list V) :
  devices_of mmds args = Ok vs ->
  (length vs <= 5)%nat /\ (forall spec, da_vsock args = Some spec -> exists ws d, vs = ws ++ [VVsock d]).
Proof.
  unfold devices_of. destruct hd_entropy as [src|]; cbn; [|done]. intros H.
  apply let_ok_inv in H as (bl & Hbl & H). apply let_ok_inv in H as (vk & Hvk & [= <-]).
  assert (length bl <= 1)%nat.
  { destruct (da_block args); [|by simplify_eq/=; lia]. destruct (hd_open _ _); cbn in Hbl; simplify_eq/=; lia. }
  assert (length vk <= 1)%nat.
  { destruct (da_vsock args); [|by simplify_eq/=; lia]. destruct (vsock_new _ _); cbn in Hvk; simplify_eq/=; lia. }
  split.
  - cbn. rewrite !length_app. destruct (da_net args), (da_enable_console args); cbn; lia.
  - intros spec Ev. rewrite Ev in Hvk. destruct (vsock_new _ _) as [d|]; cbn in Hvk; [|done]. injection Hvk as <-.
    eexists _, d. rewrite !app_assoc, app_comm_cons. reflexivity.
Qed.

(** C26: The device manager never runs out of slots and never finds a bus conflict: for every
    configuration it fails only where the host does (entropy, the disk's file) or on a
    reserved vsock address, and otherwise gives the UART window and one window per device,
    in slot order from 0, each on the interrupt of its slot. *)
Theorem layout_exact (gic : G) args :
  match devices_of (hd_mmds (da_mmds_size_cap args)) args : result DeviceError (list V) with
  | Err e => build_device_layout (C := C) gic args = Err e /\
             (forall b, e <> DevBus b) /\ (forall x, e <> SlotExhausted x) /\ (forall x, e <> DevIntId x)
  | Ok vs =>
      exists l, build_device_layout (C := C) gic args = Ok l /\ (length vs <= 5)%nat /\
        dl_bus l = bus_of (length vs) /\
        dl_virtio_slots l = map (fun i => mkVirtioSlot (Z.of_nat i)) (seq 0 (length vs)) /\
        dl_devs l !! 0%nat = Some (MUart (Pl011_new (da_pl011_sink args) gic Gic.PL011)) /\
        (forall i, dl_devs l !! Datatypes.S i =
           (fun v => MVirtio (Transport_new v) (Gic.mkIntId (48 + Z.of_nat i)) 0) <$> vs !! i) /\
        (forall h, dl_vsock_device l = Some h ->
           exists i d t intid, h = Datatypes.S i /\ vs !! i = Some (VVsock d) /\ dl_devs l !! h = Some (MVirtio t intid 0))
  end.
Proof.
  rewrite build_layout_eq. cbn zeta. destruct (devices_of _ args) as [vs|e] eqn:Ed.
  - eexists. split; [reflexivity|]. pose proof (devices_of_shape _ _ _ Ed) as (Hlen & Hv).
    cbn [layout_of dl_bus dl_virtio_slots dl_devs dl_vsock_device]. split_and!; [done..| |].
    + intros i. transitivity (imap plugged vs !! i); [done|]. by rewrite list_lookup_imap.
    + destruct (da_vsock args) as [spec|]; [|done]. intros h [= <-]. destruct (Hv spec eq_refl) as (ws & d & ->).
      exists (length ws), d. eexists _, _. rewrite length_app, Nat.add_1_r. split_and!; [done|by apply list_lookup_middle|].
      etransitivity; [exact (list_lookup_imap plugged (ws ++ [VVsock d]) (length ws))|].
      by rewrite list_lookup_middle by done.
  - split; [done|]. revert Ed. unfold devices_of.
    destruct hd_entropy; cbn; [|by intros [= <-]].
    destruct (da_block args) as [bs|]; [destruct (hd_open _ _); cbn; [|by intros [= <-]]|];
      (destruct (da_vsock args) as [v|]; [destruct (vsock_new _ _); cbn|]; by intros [= <-]).
Qed.

(** The slots of a layout are those of the tree built for it. *)
Lemma layout_matches (gic : G) (args : DeviceBuildArgs S NB X) l fargs :
  build_device_layout (C := C) gic args = Ok l -> fa_virtio_devices fargs = dl_virtio_slots l ->
  exists n, (n <= 5)%nat /\ tree_slots fargs = map nth_slot (seq 0 n) /\ length (dl_devs l) = Datatypes.S n /\
    fa_virtio_devices fargs = map (fun i => mkVirtioSlot (Z.of_nat i)) (seq 0 n) /\
    forall i sl, tree_slots fargs !! i = Some sl ->
      (forall off, 0 <= off < 0x1000 -> resolve (dl_bus l) (Slots.sl_base sl + off) = Ok (off, Datatypes.S i)) /\
      exists v, dl_devs l !! Datatypes.S i = Some (MVirtio (Transport_new v) (Slots.sl_intid sl) 0).
Proof.
  intros Hb Hs. rewrite build_layout_eq in Hb. cbn zeta in Hb. apply let_ok_inv in Hb as (vs & Hd & [= <-]).
  apply devices_of_shape in Hd as [Hlen _]. cbn [layout_of dl_virtio_slots] in Hs. exists (length vs).
  assert (Hts : tree_slots fargs = map nth_slot (seq 0 (length vs))) by (unfold tree_slots; by rewrite Hs, map_map).
  split_and!; [done|done| |done|].
  - cbn [layout_of dl_devs length]. by rewrite length_imap.
  - intros i sl Hi. rewrite Hts, list_lookup_fmap in Hi.
    destruct (decide (i < length vs)%nat) as [Hlt|]; [|by rewrite lookup_seq_ge in Hi by lia].
    rewrite lookup_seq_lt in Hi by done. cbn in Hi. injection Hi as <-. split.
    + intros off Hoff. cbn [layout_of dl_bus]. apply resolve_bus_of; [lia|]. right. exists i. cbn. split_and!; [done|done|lia..].
    + destruct (lookup_lt_is_Some_2 vs i Hlt) as [v Hv]. exists v.
      etransitivity; [exact (list_lookup_imap plugged vs i)|]. by rewrite Hv.
Qed.

(** The device tree and the bus describe the same machine.  For the slots that the device
    manager hands to the tree builder, the builder accepts them; the tree has one node per
    virtio device on the bus; and every address of a node's window reaches, at the right
    offset, the transport whose interrupt is the one in the node. *)
Theorem fdt_matches_bus (gic : G) (args : DeviceBuildArgs S NB X) l fargs
    (Hb : build_device_layout (C := C) gic args = Ok l) (Hs : fa_virtio_devices fargs = dl_virtio_slots l)
    (Hn : fa_vcpu_count fargs <> 0) (Hnul : (0 ∉ to_string (fa_boot_args fargs))) :
  args_ok fargs /\
  length (dl_devs l) = Datatypes.S (length (tree_slots fargs)) /\
  forall i sl, tree_slots fargs !! i = Some sl ->
    (forall off, 0 <= off < 0x1000 -> resolve (dl_bus l) (Slots.sl_base sl + off) = Ok (off, Datatypes.S i)) /\
    exists v, dl_devs l !! Datatypes.S i = Some (MVirtio (Transport_new v) (Slots.sl_intid sl) 0).
Proof.
  destruct (layout_matches gic args l fargs Hb Hs) as (n & Hle & Hts & Hlen & Hdev & Hm). split_and!; [|by rewrite Hts, length_map, length_seq|done].
  unfold args_ok. rewrite Hdev. split_and!; [done|unfold zlen; rewrite length_map, length_seq; lia|done| |].
  - apply Forall_fmap, Forall_forall. intros i Hi%elem_of_seq. cbn. lia.
  - rewrite map_map. cbn. apply NoDup_fmap_2; [intros ???; lia|apply NoDup_seq].
Qed.
End layout.

(** ** Running the machine *)

Section activation.
Context {M G D : Type} `{!GuestMemory M} `{!Gic G} `{!VirtioDevice (World M G) D, !VirtioDeviceLaws (World M G) D}.
Local Abbreviation W := (World M G).
Local Abbreviation T := (VirtioMmioTransport D).
Local Abbreviation active t := (vd_is_activated (W := W) (t_device t)).

(** Only a write that leaves the driver-ok bit set can activate a device. *)
Lemma tstep_activates (t : T) (w : W) l t' w' :
  tstep t w l t' w' -> active t' = true ->
  active t = true \/ exists v, l = Some v /\ Z.land (t_status t') DRIVER_OK <> 0.
Proof.
  intros Hs Ha. inversion Hs as [v|i ? ? Hn|v Hv|f Hf| | |o bs Hc|]; subst; try (by left).
  - unfold set_status in *. destruct (v =? INIT).
    { left. revert Ha. unfold reset. cbn. by rewrite vd_activated_set, vd_activated_queues. }
    destruct (negb (Z.land v FAILED =? 0)); [by left|]. destruct (negb (is_valid_transition _ _)); [by left|].
    destruct (negb (Z.land v DRIVER_OK =? 0)) eqn:Ed; [|by left].
    right. exists v. split; [done|]. apply negb_true_iff, Z.eqb_neq in Ed.
    destruct (activate_device_status (with_status t v) w') as [-> | ->]; cbn [with_status t_status]; [done|].
    rewrite Z.land_lor_distr_l. change (Z.land DEVICE_NEEDS_RESET DRIVER_OK) with 0. by rewrite Z.lor_0_r.
  - left. unfold handle_queue_notify in Hn. destruct (_ =? 0); [by simplify_eq|].
    pose proof (vd_activated_process (t_device t) w i) as Hp. destruct (vd_process_queue _ _ _). simplify_eq/=. congruence.
  - left. revert Ha. unfold handle_driver_features_write. repeat case_match; cbn; rewrite ?vd_activated_set; done.
  - left. revert Ha. unfold update_queue_field. repeat case_match; cbn; rewrite ?vd_activated_queues; done.
  - left. revert Ha. cbn. by rewrite vd_activated_config.
Qed.
End activation.

Section run.
Context {M G S E B C I NB X : Type} `{!GuestMemory M, !GuestMemoryLaws M} `{!Gic G} `{!Pl011Sink S}.
Context `{!EntropySource E, !BlockBackend B, !HostWriter C, !FrameInterceptor I, !NetBackend NB, !VsockMuxer X}.
Local Abbreviation V := (VDev E B C I NB X).
Local Abbreviation D := (MDev S G V).
Local Abbreviation MC := (Machine M G D).
Local Abbreviation active t := (vd_is_activated (W := World M G) (t_device t)).
Implicit Types (mc : MC) (evs : list event).

Definition in_slot (i : nat) (addr : Z) : bool :=
  (br_base (slot_range i) <=? addr) && (addr <? br_base (slot_range i) + 0x1000).

(** A write of an event to the window of a slot, with its offset. *)
Definition slot_op (i : nat) (ev : event) : option (Z * list Z) :=
  match ev with
  | GuestWrite addr data => if in_slot i addr then Some (addr - br_base (slot_range i), data) else None
  | _ => None
  end.

(** The values the guest wrote to a slot's status register. *)
Definition status_history (i : nat) evs : list Z := omap status_value (omap (slot_op i) evs).

(** The driver of a slot has gone through the whole handshake since its last reset. *)
Definition shaken (i : nat) evs : Prop := [1; 3; 11; 15] `sublist_of` after_reset (status_history i evs).

(** It had, at some point. *)
Definition once_shaken (i : nat) evs : Prop := exists pre, pre `prefix_of` evs /\ shaken i pre.

Definition event_ok (ev : event) : Prop :=
  match ev with GuestRead _ data | GuestWrite _ data => bytes_ok data | VsockPump _ => True end.

Lemma status_history_snoc i evs ev :
  status_history i (evs ++ [ev]) =
    status_history i evs ++ match slot_op i ev with Some op => option_list (status_value op) | None => [] end.
Proof.
  unfold status_history. rewrite !omap_app. f_equal. cbn. destruct (slot_op i ev) as [op|]; [|done]. cbn.
  by destruct (status_value op).
Qed.

Lemma once_shaken_snoc i evs ev : once_shaken i evs -> once_shaken i (evs ++ [ev]).
Proof. intros (pre & Hp & Hs). exists pre. split; [by apply prefix_app_r|done]. Qed.

(** What holds of a device after a history of events. *)
Definition dev_inv (i : nat) evs (d : option D) : Prop :=
  exists t st, d = Some (MVirtio t (Gic.mkIntId (48 + Z.of_nat i)) st) /\
    init_inv (status_history i evs) t /\ (active t = true -> once_shaken i evs).

Record minv (n : nat) evs mc : Prop := mkMinv {
  mi_bus : mc_bus mc = bus_of n;
  mi_len : length (mc_devs mc) = Datatypes.S n;
  mi_uart : exists u, mc_devs mc !! 0%nat = Some (MUart u);
  mi_virtio : forall i, (i < n)%nat -> dev_inv i evs (mc_devs mc !! Datatypes.S i)
}.

Lemma dev_inv_skip i evs ev d : slot_op i ev = None -> dev_inv i evs d -> dev_inv i (evs ++ [ev]) d.
Proof.
  intros Hn (t & st & -> & Hi & Ha). exists t, st. split; [done|]. rewrite status_history_snoc, Hn, app_nil_r.
  split; [done|]. intros Hact. by apply once_shaken_snoc, Ha.
Qed.

Lemma minv_skip n evs ev mc :
  (forall i, (i < n)%nat -> slot_op i ev = None) -> minv n evs mc -> minv n (evs ++ [ev]) mc.
Proof. intros Hn [Hb Hl Hu Hv]. split; [done..|]. intros i Hi. apply dev_inv_skip; auto. Qed.

Lemma minv_uart n evs ev mc u m g :
  (forall i, (i < n)%nat -> slot_op i ev = None) -> minv n evs mc ->
  minv n (evs ++ [ev]) (mkMachine (mc_bus mc) (<[0%nat := MUart u]> (mc_devs mc)) m g).
Proof.
  intros Hn [Hb Hl Hu Hv]. split; cbn [mc_bus mc_devs]; [done|by rewrite length_insert| |].
  - exists u. apply list_lookup_insert_eq. lia.
  - intros i Hi. rewrite list_lookup_insert_ne by done. apply dev_inv_skip; auto.
Qed.

Lemma minv_slot n evs ev mc j d m g :
  (j < n)%nat -> (forall i, i <> j -> slot_op i ev = None) -> dev_inv j (evs ++ [ev]) (Some d) -> minv n evs mc ->
  minv n (evs ++ [ev]) (mkMachine (mc_bus mc) (<[Datatypes.S j := d]> (mc_devs mc)) m g).
Proof.
  intros Hj Hn Hd [Hb Hl Hu Hv]. split; cbn [mc_bus mc_devs]; [done|by rewrite length_insert| |].
  - destruct Hu as [u Hu]. exists u. by rewrite list_lookup_insert_ne by done.
  - intros i Hi. destruct (decide (i = j)) as [->|Hne].
    + rewrite list_lookup_insert_eq by lia. done.
    + rewrite list_lookup_insert_ne by congruence. apply dev_inv_skip; auto.
Qed.

Lemma slot_op_other n addr data off h i : (n <= 32)%nat -> (i < n)%nat ->
  resolve (bus_of n) addr = Ok (off, h) -> h <> Datatypes.S i -> slot_op i (GuestWrite addr data) = None.
Proof.
  intros Hn Hi Hr Hne. cbn [slot_op]. destruct (in_slot i addr) eqn:Ei; [|done]. exfalso.
  apply andb_true_iff in Ei as [E1%Z.leb_le E2%Z.ltb_lt].
  assert (Hr' : resolve (bus_of n) addr = Ok (addr - br_base (slot_range i), Datatypes.S i))
    by (apply resolve_bus_of; [done|]; right; by exists i).
  rewrite Hr in Hr'. by simplify_eq.
Qed.

Lemma in_slot_unique i j addr : in_slot i addr = true -> in_slot j addr = true -> i = j.
Proof. unfold in_slot. cbn. rewrite !andb_true_iff, !Z.leb_le, !Z.ltb_lt. lia. Qed.

(** Why an event may change guest memory. *)
Definition io_cause (n : nat) evs (ev : event) : Prop :=
  exists i, (i < n)%nat /\
    ((exists op, slot_op i ev = Some op /\ is_notify op = true /\ shaken i evs) \/
     (ev = VsockPump (Datatypes.S i) /\ once_shaken i evs)).

Lemma dev_inv_write i evs t intid st m g off data t' w' :
  dev_inv i evs (Some (MVirtio t intid st)) -> bytes_ok data ->
  slot_op i (GuestWrite (br_base (slot_range i) + off) data) = Some (off, data) ->
  transport_write t (mkWorld m (mkIrq g intid st)) off data = (t', w') ->
  dev_inv i (evs ++ [GuestWrite (br_base (slot_range i) + off) data])
    (Some (MVirtio t' intid (irq_status (w_irq w')))) /\
  (w_mem w' = m \/ (is_notify (off, data) = true /\ shaken i evs)).
Proof.
  intros (t0 & st0 & [= <- -> <-] & Hi & Ha) Hok Hop Hw. split.
  - pose proof (transport_write_step _ _ _ _ _ _ Hok Hw) as Hs.
    pose proof (init_inv_writes [(off, data)] _ t (mkWorld m (mkIrq g (Gic.mkIntId (48 + Z.of_nat i)) st))
      ltac:(by repeat constructor) Hi) as Hi'.
    cbn [transport_writes] in Hi'. rewrite Hw in Hi'. cbn [fst] in Hi'.
    assert (Hh : status_history i (evs ++ [GuestWrite (br_base (slot_range i) + off) data]) =
                 status_history i evs ++ omap status_value [(off, data)]).
    { rewrite status_history_snoc, Hop. cbn. by destruct (status_value (off, data)). }
    exists t', (irq_status (w_irq w')). split; [done|]. rewrite Hh. split; [exact Hi'|].
    intros Hact. destruct (tstep_activates _ _ _ _ _ Hs Hact) as [H0|(v & _ & Hd)]; [by apply once_shaken_snoc, Ha|].
    eexists. split; [reflexivity|]. unfold shaken. rewrite Hh. destruct Hi' as (a & Hst & Hsub & _).
    rewrite Hst in Hd. apply Z.eqb_neq, driver_ok_live in Hd. by rewrite Hd in Hsub.
  - destruct (decide (Z.land (t_status t) DRIVER_OK = 0)) as [Hz|Hz].
    { left. by apply (transport_write_quiet _ _ (off, data) _ _ Hw); left. }
    destruct (is_notify (off, data)) eqn:En; [|left; by apply (transport_write_quiet _ _ (off, data) _ _ Hw); right].
    right. split; [done|]. destruct Hi as (a & Hst & Hsub & _). rewrite Hst in Hz.
    apply Z.eqb_neq, driver_ok_live in Hz. unfold shaken. by rewrite Hz in Hsub.
Qed.

Lemma write_minv n evs mc addr data : (n <= 32)%nat -> minv n evs mc -> bytes_ok data ->
  minv n (evs ++ [GuestWrite addr data]) (machine_write mc addr data).1 /\
  (mc_mem (machine_write mc addr data).1 = mc_mem mc \/ io_cause n evs (GuestWrite addr data)).
Proof.
  intros Hn Hm Hok. unfold machine_write, handle in *. rewrite (mi_bus _ _ _ Hm).
  destruct (resolve (bus_of n) addr) as [[off h]|e] eqn:Er.
  2: { split; [|by left]. apply minv_skip; [|done]. intros i Hi. cbn. destruct (in_slot i addr) eqn:Ei; [|done].
       apply andb_true_iff in Ei as [E1%Z.leb_le E2%Z.ltb_lt].
       assert (Hr : resolve (bus_of n) addr = Ok (addr - br_base (slot_range i), Datatypes.S i))
         by (apply resolve_bus_of; [done|]; right; by exists i). congruence. }
  pose proof (proj1 (resolve_bus_of n addr off h Hn) Er) as [(-> & Ha & ->)|(j & -> & Hj & Ha & ->)].
  - destruct (mi_uart _ _ _ Hm) as [u Hu]. rewrite Hu. cbn [dev_write fst mc_mem]. split; [|by left].
    rewrite <- (mi_bus _ _ _ Hm). apply minv_uart; [|done]. intros i Hi. by eapply slot_op_other.
  - pose proof (mi_virtio _ _ _ Hm j Hj) as Hd. destruct Hd as (t & st & Hl & Hd). rewrite Hl. cbn [dev_write].
    destruct (transport_write _ _ _ _) as [t' w'] eqn:Hw. cbn [fst mc_mem].
    replace addr with (br_base (slot_range j) + (addr - br_base (slot_range j))) by lia.
    set (off := addr - br_base (slot_range j)) in *.
    assert (Hop : slot_op j (GuestWrite (br_base (slot_range j) + off) data) = Some (off, data)).
    { cbn [slot_op]. unfold in_slot. rewrite (proj2 (Z.leb_le _ _)), (proj2 (Z.ltb_lt _ _)) by (unfold off; lia).
      cbn [andb]. do 2 f_equal. lia. }
    destruct (dev_inv_write j evs t _ st _ _ off data t' w' ltac:(by exists t, st) Hok Hop Hw) as [Hd' Hmem].
    split.
    + rewrite <- (mi_bus _ _ _ Hm). apply minv_slot; [done| |done|done]. intros i Hne. cbn in Hop |- *.
      destruct (in_slot j _) eqn:Ej in Hop; [|done]. destruct (in_slot i _) eqn:Ei; [|done].
      by destruct (Hne (in_slot_unique _ _ _ Ei Ej)).
    + destruct Hmem as [->|[Hnt Hsh]]; [by left|right]. exists j. split; [done|]. left. by exists (off, data).
Qed.

Lemma read_minv n evs mc addr data : (n <= 32)%nat -> minv n evs mc ->
  minv n (evs ++ [GuestRead addr data]) (machine_read mc addr data).1.1 /\
  mc_mem (machine_read mc addr data).1.1 = mc_mem mc.
Proof.
  intros Hn Hm. unfold machine_read, handle in *. rewrite (mi_bus _ _ _ Hm).
  destruct (resolve (bus_of n) addr) as [[off h]|e] eqn:Er; [|split; [by apply minv_skip|done]].
  pose proof (proj1 (resolve_bus_of n addr off h Hn) Er) as [(-> & Ha & ->)|(j & -> & Hj & Ha & ->)].
  - destruct (mi_uart _ _ _ Hm) as [u Hu]. rewrite Hu. cbn [dev_read]. destruct (uart_read _ _ _) as [u' data']. cbn [fst mc_mem].
    split; [|done]. rewrite <- (mi_bus _ _ _ Hm). by apply minv_uart.
  - pose proof (mi_virtio _ _ _ Hm j Hj) as Hd. pose proof Hd as (t & st & Hl & _). rewrite Hl. cbn [dev_read fst mc_mem].
    split; [|done]. rewrite <- (mi_bus _ _ _ Hm). apply minv_slot; [done|done| |done].
    apply dev_inv_skip; [done|]. by rewrite <- Hl.
Qed.

Lemma pump_minv n evs mc h : (n <= 32)%nat -> minv n evs mc ->
  minv n (evs ++ [VsockPump h]) (vsock_pump mc h) /\
  (mc_mem (vsock_pump mc h) = mc_mem mc \/ io_cause n evs (VsockPump h)).
Proof.
  intros Hn Hm.
  assert (Hskip : minv n (evs ++ [VsockPump h]) mc) by by apply minv_skip.
  unfold vsock_pump, handle in *.
  destruct (mc_devs mc !! h) as [[u|t intid st]|] eqn:Hl; [by split; [|left]| |by split; [|left]].
  destruct (t_device t) as [| | | |d] eqn:Hd; try (by split; [|left]).
  destruct (vd_is_activated d) eqn:Hact; [|by split; [|left]].
  destruct h as [|j]; [destruct (mi_uart _ _ _ Hm) as [u Hu]; congruence|].
  assert (Hj : (j < n)%nat).
  { apply lookup_lt_Some in Hl. rewrite (mi_len _ _ _ Hm) in Hl. lia. }
  pose proof (mi_virtio _ _ _ Hm j Hj) as Hdi. rewrite Hl in Hdi. pose proof Hdi as (t0 & st0 & [= <- -> <-] & Hi & Ha).
  assert (Hon : once_shaken j evs) by (apply Ha; rewrite Hd; exact Hact).
  destruct (vd_process_queue d _ _) as [d' w'] eqn:Hp.
  split; [|right; exists j; split; [done|by right]].
  apply minv_slot; [done|done| |done].
  exists (with_device t (VVsock d')), (irq_status (w_irq w')). split; [done|]. rewrite status_history_snoc. cbn [slot_op].
  rewrite app_nil_r. split; [exact Hi|]. intros _. by apply once_shaken_snoc.
Qed.

Lemma step_minv n evs mc ev : (n <= 32)%nat -> minv n evs mc -> event_ok ev ->
  minv n (evs ++ [ev]) (machine_step mc ev) /\
  (mc_mem (machine_step mc ev) = mc_mem mc \/ io_cause n evs ev).
Proof.
  intros Hn Hm Hok. destruct ev as [addr data|addr data|h]; cbn [machine_step].
  - destruct (read_minv n evs mc addr data Hn Hm). auto.
  - by apply write_minv.
  - by apply pump_minv.
Qed.

Lemma run_minv n evs mc0 : (n <= 32)%nat -> minv n [] mc0 -> Forall event_ok evs ->
  minv n evs (machine_run mc0 evs) /\
  (mc_mem (machine_run mc0 evs) = mc_mem mc0 \/ exists pre ev post, evs = pre ++ ev :: post /\ io_cause n pre ev).
Proof.
  intros Hn H0. induction evs as [|ev evs IH] using rev_ind; intros Hok; [by split; [|left]|].
  apply Forall_app in Hok as [Hok Hev]. apply Forall_cons_iff in Hev as [Hev _].
  destruct (IH Hok) as [Hm Hc]. unfold machine_run in *. rewrite foldl_app. cbn [foldl].
  destruct (step_minv n evs _ ev Hn Hm Hev) as [Hm' Hc']. split; [exact Hm'|].
  destruct Hc' as [->|Hc']; [|right; by exists evs, ev, []].
  destruct Hc as [Hc|(pre & e & post & -> & Hc)]; [by left|right].
  exists pre, e, (post ++ [ev]). by rewrite <- app_assoc.
Qed.

Context `{!HostDevices E B I NB}.

Lemma devices_inactive mmds (args : DeviceBuildArgs S NB X) (vs : list V) :
  devices_of mmds args = Ok vs -> Forall (fun v => vd_is_activated (W := World M G) v = false) vs.
Proof.
  unfold devices_of. destruct hd_entropy as [src|]; cbn; [|done]. intros H.
  apply let_ok_inv in H as (bl & Hbl & H). apply let_ok_inv in H as (vk & Hvk & [= <-]).
  constructor; [done|]. rewrite !Forall_app. split_and!.
  - destruct (da_block args); [destruct (hd_open _ _)|]; cbn in Hbl; simplify_eq; by repeat constructor.
  - destruct (da_net args); by repeat constructor.
  - destruct (da_enable_console args); by repeat constructor.
  - destruct (da_vsock args) as [spec|]; [|by simplify_eq]. unfold vsock_new in Hvk.
    destruct (_ <? _); cbn in Hvk; simplify_eq; by repeat constructor.
Qed.

Lemma boot_minv (gic : G) args l m g :
  build_device_layout (C := C) gic args = Ok l ->
  exists n, (n <= 32)%nat /\ length (dl_virtio_slots l) = n /\ minv n [] (boot_machine l m g).
Proof.
  rewrite build_layout_eq. cbn zeta. intros (vs & Hd & [= <-])%let_ok_inv.
  pose proof (devices_inactive _ _ _ Hd) as Hin. apply devices_of_shape in Hd as [Hl _].
  exists (length vs). split; [lia|]. split; [cbn; by rewrite length_map, length_seq|].
  split; cbn [boot_machine layout_of dl_bus dl_devs mc_bus mc_devs]; [done|cbn; by rewrite length_imap|by eexists|].
  intros i Hi. destruct (lookup_lt_is_Some_2 vs i Hi) as [v Hv]. exists (Transport_new v), 0. split_and!.
  - etransitivity; [exact (list_lookup_imap plugged vs i)|]. by rewrite Hv.
  - by exists (mkDrv PReset false false).
  - pose proof (Forall_lookup_1 _ _ _ _ Hin Hv) as Hv0. intros Ha. cbn [t_device Transport_new] in Ha.
    exfalso. by rewrite Hv0 in Ha.
Qed.

End run.

(** ** A concrete machine *)

Record FixedEntropy := mkFixed { fx_byte : Z }.

#[export] Instance FixedEntropy_source : EntropySource FixedEntropy := fun s n => (s, replicate n (fx_byte s mod 256)).

#[export] Instance demo_host : HostDevices FixedEntropy SyncFileBackend NoopInterceptor LoopbackBackend := {
  hd_entropy := Ok (mkFixed 7);
  hd_open _ _ := Err (mkIoError 2);
  hd_mmds _ := mkNoop;
  hd_vmnet_mtu _ := None
}.

(** A machine with the entropy device and a vsock device that has a packet for the guest. *)
Definition demo_dev_args : DeviceBuildArgs CapturedSink LoopbackBackend InMemoryMuxer :=
  mkBuildArgs [] 51200 None None false (Some (mkVsockSpec [] 3 [] false (mkMuxer [] [ex_request] true))).

Definition demo_layout : DeviceLayout (G := pulse_log) (C := list Z) (E := FixedEntropy) (B := SyncFileBackend) (I := NoopInterceptor) :=
  match build_device_layout [] demo_dev_args with
  | Ok l => l
  | Err _ => mkLayout [] [] [] mkNoop None
  end.

Lemma demo_layout_ok : build_device_layout [] demo_dev_args = Ok demo_layout.
Proof. vm_compute. reflexivity. Qed.

Definition demo_memory : SliceGuestMemory := mkSlice 0 ex_vsock_bytes.

(** A register write to the vsock device, in slot 1. *)
Definition vsock_reg (off v : Z) : event := GuestWrite (0x0F001000 + off) (le_bytes 4 v).

Definition demo_handshake : list event := map (vsock_reg 0x70) [1; 3; 11; 15].

(** The receive queue of [ex_vrxq]. *)
Definition demo_rx_setup : list event :=
  [vsock_reg 0x30 0; vsock_reg 0x38 2; vsock_reg 0x80 128; vsock_reg 0x90 176; vsock_reg 0xA0 192; vsock_reg 0x44 1].

Definition demo_run evs := machine_run (boot_machine demo_layout demo_memory []) evs.


Lemma fdt_matches_bus_witness :
  args_ok (FdtBuildArgs_new 1 (MemoryRegion_dram 0x8000000) (lit "quiet") None (dl_virtio_slots demo_layout)) /\
  resolve (dl_bus demo_layout) 0x0F001050 = Ok (0x50, 2%nat).
Proof.
  destruct (fdt_matches_bus [] demo_dev_args demo_layout
              (FdtBuildArgs_new 1 (MemoryRegion_dram 0x8000000) (lit "quiet") None (dl_virtio_slots demo_layout))
              demo_layout_ok eq_refl) as (Hok & _ & Hr).
  - discriminate.
  - apply (bool_decide_unpack _). vm_compute. reflexivity.
  - split; [exact Hok|].
    destruct (Hr 1%nat (nth_slot 1) ltac:(vm_compute; reflexivity)) as [H _]. apply (H 0x50). lia.
Defined.

(** The pump looks at the activation flag, which survives a reset, and not at the status
    register: after a reset it serves a queue the guest is still setting up. *)
Example pump_ignores_reset :
  let mc := demo_run (demo_handshake ++ [vsock_reg 0x70 0] ++ demo_rx_setup) in
  match mc_devs mc !! 2%nat with Some (MVirtio t _ _) => t_status t = INIT | _ => False end /\
  mc_mem mc = demo_memory /\ mc_mem (vsock_pump mc 2%nat) <> demo_memory /\
  slice 320 44 (sg_bytes (mc_mem (vsock_pump mc 2%nat))) = packet_wire ex_request.
Proof. cbn zeta. split_and!; [vm_compute; reflexivity..|vm_compute; discriminate|vm_compute; reflexivity]. Qed.
