(* ===== verification/Start.v ===== *)
(** * Start: from the configuration to a guest ready to run

    Models the part of [start_microvm] in [src/crates/squib/src/vmm_loop.rs] that plans the
    boot, builds the devices and the final device tree, and the staging that
    [run_microvm_with_budget] of [src/crates/vmm/src/runner.rs] does before it creates the
    vCPU: the composition of [Loader], [Fdt], [Boot] and [Machine]. *)

From stdpp Require Import base numbers list option gmap strings.
From Stdlib Require Import ZArith Lia.
From S2P Require Import Prelude GuestMem Bus Virtqueue Arch Transport Drain Device Block Peripherals Pl011 Text Http MmdsTcp Mmds Net Vsock Loader Fdt Boot Machine.

Local Open Scope Z_scope.
Local Open Scope squib_scope.

(** What the operator configured, with the device inputs already resolved. *)
Record StartConfig (S NB X : Type) := mkStart {
  sc_kernel_path : list Z;
  sc_initrd_path : option (list Z);
  sc_boot_args : option (list Z);
  sc_vcpu_count : Z;
  sc_mem_size_mib : Z;
  sc_devices : DeviceBuildArgs S NB X
}.
Arguments mkStart {S NB X}.
Arguments sc_kernel_path {S NB X}.
Arguments sc_initrd_path {S NB X}.
Arguments sc_boot_args {S NB X}.
Arguments sc_vcpu_count {S NB X}.
Arguments sc_mem_size_mib {S NB X}.
Arguments sc_devices {S NB X}.

Inductive StartError :=
  | StartPlan (e : BootError)
  | StartNoVm
  | StartGicSizes (e : HypervisorError)
  | StartNoMemory
  | StartLayout (e : DeviceError)
  | StartFdt (e : FdtError)
  | StartInitrd (e : Text.IoError)
  | StartStage (e : StageError).

Section start.
Context {Fs R W N M G S E B C I NB X : Type}.
Context `{!HostFs Fs, !Decoders R, !FdtWriter W N, !GuestMemory M, !AppleVisor M} `{!Gic G} `{!Pl011Sink S}.
Context `{!EntropySource E, !BlockBackend B, !HostWriter C, !FrameInterceptor I, !NetBackend NB, !VsockMuxer X}.
Context `{!HostDevices E B I NB}.
Local Abbreviation L := (DeviceLayout (G := G) (S := S) (E := E) (B := B) (C := C) (I := I) (NB := NB) (X := X)).

Definition resources_of (cfg : StartConfig S NB X) : VmResources :=
  mkResources (sc_vcpu_count cfg) (sc_mem_size_mib cfg) (KernelPath (sc_kernel_path cfg))
    (InitrdPath <$> sc_initrd_path cfg) (default [] (sc_boot_args cfg)) None [].

(** The boot with the device tree rebuilt for the real slots. *)
Definition rebuild_fdt (cfg : StartConfig S NB X) (resources : VmResources) (boot : BootArtifacts M) (layout : L)
  : result FdtError (BootArtifacts M) :=
  let mem_bytes := wmul 64 (wmul 64 (sc_mem_size_mib cfg) 1024) 1024 in
  let effective_args := compose_boot_args (vr_boot_args resources) (vr_root_partuuid resources) in
  let? new_fdt := build (FdtBuildArgs_new (vr_vcpu_count resources) (MemoryRegion_dram mem_bytes) effective_args
                     (ba_initrd_range boot) (dl_virtio_slots layout)) in
  let ram_end := saturating_add 64 Layout.DRAM_BASE mem_bytes in
  let fdt_base := wrap 64 (ram_end - Layout.FDT_MAX_SIZE) in
  Ok (mkBoot (ba_kernel boot) (ba_kernel_load_addr boot) new_fdt fdt_base (ba_initrd_range boot)
        (BootRegs_new (ba_kernel_load_addr boot) fdt_base) (ba_effective_boot_args boot) None).

Definition read_initrd (fs : Fs) (resources : VmResources) : result Text.IoError (option (list Z)) :=
  match vr_initrd resources with
  | Some (InitrdPath p) => let? bytes := fs_read fs p in Ok (Some bytes)
  | None => Ok None
  end.

(** [start_microvm] up to the driver thread, and the driver's staging. *)
Definition start_guest (fs : Fs) (gic : G) (cfg : StartConfig S NB X)
  : option (result StartError (BootArtifacts M * L * HvfVm M)) :=
  let resources := resources_of cfg in
  planned ← build_microvm_for_boot fs resources;
  Some (
    let? boot := map_err StartPlan planned in
    match ba_hvf_vm boot with
    | None => Err StartNoVm
    | Some hvf_vm =>
        let? _ := map_err StartGicSizes (GicSizes_query (M := M)) in
        match hv_mappings hvf_vm with
        | [] => Err StartNoMemory
        | _ =>
            let? layout := map_err StartLayout (build_device_layout gic (sc_devices cfg)) in
            let? boot := map_err StartFdt (rebuild_fdt cfg resources boot layout) in
            let? initrd_bytes := map_err StartInitrd (read_initrd fs resources) in
            match write_kernel_to_guest boot initrd_bytes hvf_vm with
            | (_, Err e) => Err (StartStage e)
            | (vm, Ok _) => Ok (boot, layout, vm)
            end
        end
    end).
End start.

Section correct.
Context {Fs R W N M G S E B C I NB X : Type}.
Context `{!HostFs Fs, !HostFsLaws Fs, !Decoders R, !DecoderLaws R, !FdtWriter W N}.
Context `{!GuestMemory M, !GuestMemoryLaws M, !AppleVisor M} {AVL : AppleVisorLaws (M := M)} `{!Gic G} `{!Pl011Sink S}.
Context `{!EntropySource E, !BlockBackend B, !HostWriter C, !FrameInterceptor I, !NetBackend NB, !VsockMuxer X}.
Context `{!HostDevices E B I NB}.
Implicit Types (cfg : StartConfig S NB X).

(** What a successful start went through. *)
Lemma start_guest_inv (fs : Fs) (gic : G) cfg boot (layout : DeviceLayout (C := C)) vm :
  start_guest fs gic cfg = Some (Ok (boot, layout, vm)) ->
  exists boot0 m0 m ib,
    build_microvm_for_boot fs (resources_of cfg) = Some (Ok boot0) /\
    av_memory_create (mem_size_bytes (resources_of cfg)) = Ok m0 /\ av_memory_map m0 Layout.DRAM_BASE = Ok m /\
    build_device_layout gic (sc_devices cfg) = Ok layout /\
    rebuild_fdt cfg (resources_of cfg) boot0 layout = Ok boot /\
    read_initrd fs (resources_of cfg) = Ok ib /\
    write_kernel_to_guest boot ib (mkHvfVm [m] (sc_vcpu_count cfg)) = (vm, Ok tt).
Proof.
  unfold start_guest. cbn zeta.
  destruct (build_microvm_for_boot fs (resources_of cfg)) as [planned|] eqn:Hb; cbn [mbind option_bind]; [|done].
  intros [= H]. apply let_ok_inv in H as (boot0 & Hp & H). destruct planned as [b|]; [|done]. injection Hp as ->.
  destruct (build_vm _ _ _ Hb) as (m0 & m & Hc & Hm & Hvm). rewrite Hvm in H. cbn [hv_mappings] in H.
  apply let_ok_inv in H as (_ & _ & H). apply let_ok_inv in H as (l & Hl & H).
  apply let_ok_inv in H as (b1 & Hb1 & H). apply let_ok_inv in H as (ib & Hib & H).
  destruct (write_kernel_to_guest b1 ib _) as [v [[]|e]] eqn:Hw; [|done]. injection H as -> -> ->.
  apply map_err_ok in Hl, Hb1, Hib. by exists boot0, m0, m, ib.
Qed.

Lemma mem_bytes_eq cfg :
  0 <= sc_mem_size_mib cfg -> Layout.DRAM_BASE + mem_size_bytes (resources_of cfg) <= Layout.DRAM_MAX_END ->
  wmul 64 (wmul 64 (sc_mem_size_mib cfg) 1024) 1024 = mem_size_bytes (resources_of cfg).
Proof.
  unfold mem_size_bytes, saturating_mul, resources_of, Layout.DRAM_MAX_END, Layout.DRAM_BASE, wmul. cbn [vr_mem_size_mib].
  intros H0 H. rewrite (wrap_small 64 (sc_mem_size_mib cfg * 1024)) by (unfold in_u; lia).
  rewrite wrap_small by (unfold in_u; lia). lia.
Qed.

(** The rebuilt boot keeps the plan, and its device tree is that of the layout. *)
Lemma rebuild_plan_ok (fs : Fs) cfg (boot0 : BootArtifacts M)
    (layout : DeviceLayout (G := G) (E := E) (B := B) (C := C) (I := I)) (boot : BootArtifacts M) :
  0 <= sc_mem_size_mib cfg -> plan_ok fs (resources_of cfg) boot0 ->
  rebuild_fdt cfg (resources_of cfg) boot0 layout = Ok boot -> zlen (ba_fdt_bytes boot) <= MIB2 ->
  plan_ok fs (resources_of cfg) boot /\ ba_initrd_range boot = ba_initrd_range boot0 /\ ba_kernel boot = ba_kernel boot0 /\
  build (FdtBuildArgs_new (sc_vcpu_count cfg) (MemoryRegion_dram (mem_size_bytes (resources_of cfg)))
           (compose_boot_args (default [] (sc_boot_args cfg)) None) (ba_initrd_range boot0) (dl_virtio_slots layout))
    = Ok (ba_fdt_bytes boot).
Proof.
  intros Hm (Hk & Hb & Hmax & Hla & Hend & Hfb & Hlo & Hfl & Hi & Hr) H Hlen.
  unfold rebuild_fdt in H. cbn zeta in H. rewrite mem_bytes_eq in H by done.
  apply let_ok_inv in H as (fdt & Hf & [= <-]). cbn in Hlen.
  pose proof (mem_size_bytes_u64 (resources_of cfg) Hm).
  set (mem := mem_size_bytes (resources_of cfg)) in *.
  assert (Hbase : wrap 64 (saturating_add 64 Layout.DRAM_BASE mem - Layout.FDT_MAX_SIZE) = Layout.DRAM_BASE + mem - MIB2).
  { rewrite sat_add_small by (unfold Layout.DRAM_MAX_END, Layout.DRAM_BASE in *; lia).
    change Layout.FDT_MAX_SIZE with MIB2. apply wrap_small. unfold in_u, Layout.DRAM_MAX_END, Layout.DRAM_BASE, MIB2 in *. lia. }
  split_and!; [|done|done|exact Hf].
  unfold plan_ok. cbn. fold mem. rewrite Hbase, <- Hfb. split_and!; try done.
  rewrite Hla. unfold BootRegs_new, BOOT_PSTATE. done.
Qed.

Lemma initrd_read_planned (fs : Fs) cfg (boot : BootArtifacts M) ib :
  (forall p n bs, fs_len fs p = Ok n -> fs_read fs p = Ok bs -> zlen bs = n) ->
  plan_ok fs (resources_of cfg) boot -> read_initrd fs (resources_of cfg) = Ok ib ->
  initrd_as_planned (ba_initrd_range boot) ib.
Proof.
  intros Hst (_ & _ & _ & _ & _ & _ & _ & _ & Hi & _) Hr. unfold initrd_placed, read_initrd, initrd_as_planned in *.
  destruct (vr_initrd (resources_of cfg)) as [[path]|], (ba_initrd_range boot) as [r|]; try done.
  - apply let_ok_inv in Hr as (bs & Hbs & [= <-]). destruct Hi as [Hl _]. by eapply Hst.
  - by injection Hr as <-.
Qed.

Lemma no_initrd_planned (fs : Fs) cfg (boot : BootArtifacts M) :
  plan_ok fs (resources_of cfg) boot -> ba_initrd_range boot = None -> sc_initrd_path cfg = None.
Proof.
  intros (_ & _ & _ & _ & _ & _ & _ & _ & Hi & _) Hn. unfold initrd_placed in Hi. rewrite Hn in Hi. cbn in Hi.
  by destruct (sc_initrd_path cfg).
Qed.

(** A guest that starts is what was configured.  After a successful start, guest memory holds
    the kernel at the entry point in PC, the device tree at the address in X0 and the
    initrd at the range the tree announces; the tree is the writer's output for
    [microvm_tree] over the slots of the layout; and each of its nodes names the window
    and the interrupt of the transport that the bus reaches there. *)
Theorem start_guest_correct (fs : Fs) (gic : G) cfg (boot : BootArtifacts M) (layout : DeviceLayout (C := C)) vm
    (Hrun : start_guest fs gic cfg = Some (Ok (boot, layout, vm)))
    (Hvcpu : 0 <= sc_vcpu_count cfg) (Hmem : 0 <= sc_mem_size_mib cfg)
    (Hstable : forall p n bs, fs_len fs p = Ok n -> fs_read fs p = Ok bs -> zlen bs = n)
    (Hlen : zlen (lk_bytes (ba_kernel boot)) <= image_bytes (ba_kernel boot))
    (Hfdt : zlen (ba_fdt_bytes boot) <= MIB2)
    (Hno : sc_initrd_path cfg = None ->
       placed_at (ba_kernel boot) + zlen (lk_bytes (ba_kernel boot)) <= ba_fdt_base boot) :
  (exists m ib, hv_mappings vm = [m] /\ read_initrd fs (resources_of cfg) = Ok ib /\
     gm_read m (br_kernel_load_addr (ba_boot_regs boot)) (length (lk_bytes (ba_kernel boot))) = Ok (lk_bytes (ba_kernel boot)) /\
     gm_read m (br_fdt_addr (ba_boot_regs boot)) (length (ba_fdt_bytes boot)) = Ok (ba_fdt_bytes boot) /\
     Forall (fun i => gm_read m i.1 (length i.2) = Ok i.2) (images boot ib)) /\
  exists fargs, fa_virtio_devices fargs = dl_virtio_slots layout /\ fa_initrd fargs = ba_initrd_range boot /\
    (exists w w', fw_new = Ok w /\ write_node (microvm_tree fargs (tree_slots fargs)) w = (w', Ok tt) /\
       fw_finish w' = Ok (ba_fdt_bytes boot)) /\
    forall i sl, tree_slots fargs !! i = Some sl ->
      (forall off, 0 <= off < 0x1000 -> resolve (dl_bus layout) (Slots.sl_base sl + off) = Ok (off, Datatypes.S i)) /\
      exists v, dl_devs layout !! Datatypes.S i = Some (MVirtio (Transport_new v) (Slots.sl_intid sl) 0).
Proof.
  apply start_guest_inv in Hrun as (boot0 & m0 & m & ib & Hb & Hc & Hm & Hl & Hrb & Hib & Hw).
  destruct (build_plan_ok fs (resources_of cfg) boot0 Hvcpu Hmem Hb) as [Hv Hp0].
  destruct (rebuild_plan_ok fs cfg boot0 layout boot Hmem Hp0 Hrb Hfdt) as (Hp & Hir & Hk & Hbuild).
  split.
  - assert (Hst : stacked (Layout.DRAM_BASE + MIB2) (images boot ib) (Layout.DRAM_BASE + mem_size_bytes (resources_of cfg))).
    { apply (images_stacked fs _ _ _ Hp); [|done|].
      - by apply (initrd_read_planned fs cfg).
      - intros Hnone. apply Hno. by apply (no_initrd_planned fs cfg boot). }
    destruct Hp as (Hwf & _ & Hmax & Hla & _ & _ & _ & _ & _ & Hr).
    assert (Hcov : covers m (Layout.DRAM_BASE + MIB2) (Layout.DRAM_BASE + mem_size_bytes (resources_of cfg))).
    { intros a k Ha. apply (av_mapped_covers _ _ _ _ Hc Hm). unfold MIB2 in Ha. lia. }
    destruct (write_kernel_all boot ib m [] (sc_vcpu_count cfg) _ _ Hcov ltac:(unfold MIB2; lia)
                ltac:(unfold Layout.DRAM_MAX_END, Layout.DRAM_BASE in *; lia) Hla Hst) as (m' & Hw' & Hall).
    rewrite Hw' in Hw. injection Hw as <-. exists m', ib. split_and!; [done|done|..];
      pose proof (stage_all_reads _ _ _ _ _ Hst Hall) as Hrd; [..|done]; rewrite Hr; cbn [br_kernel_load_addr br_fdt_addr];
      unfold images in Hrd; rewrite !Forall_app in Hrd; destruct Hrd as (Hr1 & _ & Hr2);
      [by apply Forall_cons_iff in Hr1 as [? _]|by apply Forall_cons_iff in Hr2 as [? _]].
  - set (fargs := FdtBuildArgs_new _ _ _ _ _) in Hbuild. exists fargs.
    destruct (layout_matches gic (sc_devices cfg) layout fargs Hl eq_refl) as (n & Hle & _ & _ & Hdev & Hmatch).
    split; [done|]. split; [done|]. split; [|done].
    apply build_ok_inv in Hbuild as [_ Hwr]; [done|cbn in Hv |- *; lia|].
    rewrite Hdev. apply Forall_fmap, Forall_true. intros i. cbn. lia.
Qed.
End correct.

(** ** A concrete start *)

Definition demo_cfg : StartConfig CapturedSink LoopbackBackend InMemoryMuxer :=
  mkStart (lit "vmlinux") (Some (lit "initrd")) (Some (lit "quiet")) 2 512 demo_dev_args.

Definition demo_start
  : option (result StartError (BootArtifacts SparseMem *
      DeviceLayout (G := pulse_log) (E := FixedEntropy) (B := SyncFileBackend) (C := list Z) (I := NoopInterceptor) * HvfVm SparseMem)) :=
  start_guest (R := list Z) (W := nat * list Z) (N := nat) demo_fs [] demo_cfg.

Lemma demo_fs_stable p n bs : fs_len demo_fs p = Ok n -> fs_read demo_fs p = Ok bs -> zlen bs = n.
Proof.
  cbn [fs_len fs_read list_fs]. destruct (list_find _ demo_fs) as [[i f]|] eqn:Ef; [|done].
  intros [= <-] [= <-]. apply list_find_Some in Ef as (Hf & _ & _). unfold zlen. rewrite length_map.
  destruct i as [|[|i]]; cbn in Hf; [injection Hf as <-; vm_compute; reflexivity..|done].
Qed.

(** What the witness needs of the run, as one closed check. *)
Definition demo_checks : bool :=
  match demo_start with
  | Some (Ok (boot, _, _)) =>
      (zlen (lk_bytes (ba_kernel boot)) <=? image_bytes (ba_kernel boot)) && (zlen (ba_fdt_bytes boot) <=? MIB2) &&
      bool_decide (lk_bytes (ba_kernel boot) = image_of 0 0x200000)
  | _ => false
  end.

Lemma demo_checks_ok : demo_checks = true.
Proof. vm_compute. reflexivity. Qed.

Lemma start_guest_correct_witness :
  exists boot layout vm m, demo_start = Some (Ok (boot, layout, vm)) /\ hv_mappings vm = [m] /\
    gm_read m (br_kernel_load_addr (ba_boot_regs boot)) 64 = Ok (image_of 0 0x200000).
Proof.
  pose proof demo_checks_ok as Hc. unfold demo_checks in Hc.
  destruct demo_start as [[[[boot layout] vm]|]|] eqn:Hs; [|discriminate Hc..].
  apply andb_true_iff in Hc as [Hc Hb%bool_decide_eq_true]. apply andb_true_iff in Hc as [Hk%Z.leb_le Hf%Z.leb_le].
  unfold demo_start in Hs.
  destruct (start_guest_correct _ _ _ _ _ _ Hs ltac:(cbn; lia) ltac:(cbn; lia) demo_fs_stable Hk Hf
              ltac:(discriminate)) as [(m & ib & Hm & _ & Hr & _) _].
  exists boot, layout, vm, m. split; [reflexivity|]. split; [exact Hm|]. rewrite Hb in Hr. exact Hr.
Defined.
