(* ===== verification/Launch.v ===== *)
(** * Launch: from the gathered configuration to a running guest

    Models [start_microvm], [build_net_spec] and [build_vmnet_backend] of
    [src/crates/squib/src/vmm_loop.rs] and the socket paths of [vsock_muxer.rs]: the
    configuration the API or a file gathered becomes boot resources, host backends and
    devices.  Composes [Controller], [Replay], [NetHost], [Muxer] and [Start]; the main
    theorem goes from a configuration file to guest memory. *)

From stdpp Require Import base numbers list option gmap strings.
From Stdlib Require Import ZArith Lia.
From S2P Require Import Prelude GuestMem Bus Virtqueue Arch Transport Drain Device Block Peripherals Pl011 Text Http MmdsTcp Mmds Paths Net NetHost Vsock Muxer Loader Fdt Boot Machine Start.
From S2P Require Import Schemas Controller Api Replay.

Local Open Scope Z_scope.
Local Open Scope squib_scope.

(** ** Inputs *)

Record VmmLoopConfig := mkLoopConfig {
  lc_net_mode : NetMode;
  lc_gvproxy_path : option (list Z);
  lc_bridged_iface : option (list Z);
  lc_run_budget : Z;
  lc_mmds_size_cap : Z
}.

Inductive LaunchError :=
  | LaunchNoBootSource
  | LaunchNoMachine
  | LaunchPlan (e : BootError)
  | LaunchNoVm
  | LaunchGicSizes (e : HypervisorError)
  | LaunchNoMemory
  | LaunchHostDev (e : IdentifierError)
  | LaunchVmnet (e : IfaceError)
  | LaunchGvproxy (e : GvproxyError)
  | LaunchMuxer
  | LaunchLayout (e : DeviceError)
  | LaunchFdt (e : FdtError)
  | LaunchInitrd (path : list Z) (e : Text.IoError)
  | LaunchThread.

(** ** Socket paths *)

Definition derive_port_path (base : list Z) (port : Z) : list Z :=
  let name := from_option snd (lit "vsock.sock") (file_name base) in
  let dir := default [DOT] (parent base) in
  path_push dir (name ++ [95] ++ decimal port).

(** Binding Unix sockets, and starting the driver thread. *)
Class LaunchHost (O : Type) := {
  os_unlink : O -> list Z -> O;
  os_bind : O -> list Z -> O * bool;
  os_thread : O -> O * bool
}.

Section launch.
Context `{J : SerdeJson}.
Context {Fs R W N M G S E B C I V D O MN MT : Type}.
Context `{!HostFs Fs, !Decoders R, !FdtWriter W N, !GuestMemory M, !AppleVisor M} `{!Gic G} `{!Pl011Sink S}.
Context `{!EntropySource E, !BlockBackend B, !HostWriter C, !FrameInterceptor I}.
Context `{!Xpc D, !Vmnet V D} {U5 : Uuid5} `{!ProcessHost O, !LaunchHost O, !NotifyLib MN MT}.
Context `{!HostDevices E B I (NetHostBackend V)}.
Local Abbreviation L :=
  (DeviceLayout (G := G) (S := S) (E := E) (B := B) (C := C) (I := I) (NB := NetHostBackend V) (X := Sys MN MT)).
Local Abbreviation DevArgs := (DeviceBuildArgs S (NetHostBackend V) (Sys MN MT)).
Local Abbreviation Config := (StartConfig S (NetHostBackend V) (Sys MN MT)).

(** The host side that starting changes. *)
Record World := mkWorld { w_os : O; w_vmnet : V }.

Definition in_os {A X} (c : stm O X A) (f : X -> LaunchError) : stm World LaunchError A :=
  fun w => let (o, r) := c (w_os w) in (mkWorld o (w_vmnet w), map_err f r).

(** ** Host backends *)

Definition build_vmnet_backend (net : NetworkInterfaceConfig) (mode : VmnetMode) (cfg : VmmLoopConfig)
  : stm World LaunchError (NetHostBackend V) :=
  fun w =>
  let params := InterfaceParams_new (iface_id_str (n_iface_id net)) mode in
  let params :=
    match mode with
    | VmBridged =>
        mkInterfaceParams (ip_iface_id params) (ip_mode params) (lc_bridged_iface cfg) (ip_mtu params)
          (ip_start_timeout_ms params) (ip_enable_isolation params)
    | _ => params
    end in
  match VmnetIface_start (w_vmnet w) params with
  | (v, Ok iface) => (mkWorld (w_os w) v, Ok (NbVmnet (VmnetHostBackend_new v iface)))
  | (v, Err e) => (mkWorld (w_os w) v, Err (LaunchVmnet e))
  end.

Definition build_net_spec (net : NetworkInterfaceConfig) (cfg : VmmLoopConfig)
  : stm World LaunchError (NetSpec (NetHostBackend V)) :=
  let guest_mac := mac_bytes <$> n_guest_mac net in
  match HostDevName_new (host_dev_name_str (n_host_dev_name net)) with
  | Err e => st_fail (LaunchHostDev e)
  | Ok host_dev_name =>
      let! backend :=
        match lc_net_mode cfg with
        | NmVmnet mode => build_vmnet_backend net mode cfg
        | NmUserspace =>
            let binary := default (lit "/usr/local/libexec/squib/gvproxy") (lc_gvproxy_path cfg) in
            let! g := in_os (GvproxyBackend_start (GvproxyParams_new binary)) LaunchGvproxy in
            st_ret (NbGvproxy g)
        end in
      st_ret (mkNetSpec (iface_id_str (n_iface_id net)) (host_dev_name_str host_dev_name) guest_mac None backend)
  end.

(** Dropping a backend: the interface stops, the child is killed. *)
Definition drop_backend (w : World) (b : NetHostBackend V) : World :=
  match b with
  | NbVmnet b => mkWorld (w_os w) (iface_stop (vb_world b) (vb_iface b)).1.1
  | NbGvproxy g => mkWorld (Gvproxy_drop (w_os w) g).1 (w_vmnet w)
  | NbLoopback _ => w
  end.

(** What follows may fail; the network backend does not outlive that. *)
Definition holding {A} (net : option (NetSpec (NetHostBackend V))) (c : stm World LaunchError A) : stm World LaunchError A :=
  fun w =>
  match c w with
  | (w, Ok a) => (w, Ok a)
  | (w, Err e) => (from_option (fun s => drop_backend w (ns_backend s)) w net, Err e)
  end.

Definition host_ports : list Z := [5000; 5001; 5003].

Fixpoint bind_ports (base : list Z) (ports : list Z) : stm O unit unit :=
  match ports with
  | [] => st_ret tt
  | port :: ports' =>
      fun o =>
      let path := derive_port_path base port in
      match os_bind (os_unlink o path) path with
      | (o, true) => bind_ports base ports' o
      | (o, false) => (o, Err tt)
      end
  end.

Definition build_vsock_spec (v : VsockConfig) : stm World LaunchError (VsockSpec (Sys MN MT)) :=
  let! _ := in_os (bind_ports (uds_path_str (v_uds_path v)) host_ports) (fun _ => LaunchMuxer) in
  match Muxer.spawn (v_guest_cid v) host_ports (fun _ => true) with
  | Err _ => st_fail LaunchMuxer
  | Ok muxer =>
      st_ret (mkVsockSpec (from_option vsock_id_str [] (v_vsock_id v)) (v_guest_cid v) (uds_path_str (v_uds_path v)) (v_tsi v) muxer)
  end.

Definition st_option {A X} (f : A -> stm World LaunchError X) (o : option A) : stm World LaunchError (option X) :=
  match o with
  | Some a => let! x := f a in st_ret (Some x)
  | None => st_ret None
  end.

Definition lift {X A} (f : X -> LaunchError) (r : result X A) : stm World LaunchError A := fun w => (w, map_err f r).

(** ** [start_microvm] *)

Definition boot_resources (src : BootSourceConfig) (machine : MachineConfig) : VmResources :=
  mkResources (mc_vcpu_count machine) (mc_mem_size_mib machine) (KernelPath (safe_path (bsc_kernel_image_path src)))
    ((fun p => InitrdPath (safe_path p)) <$> bsc_initrd_path src) (default [] (bsc_boot_args src)) None [].

Definition block_spec (d : DriveConfig) : BlockConfigSpec :=
  mkBlockSpec (drive_id_str (d_drive_id d)) (safe_path (d_path_on_host d)) (d_is_read_only d).

(** The same configuration as [Start] takes it. *)
Definition start_config (src : BootSourceConfig) (machine : MachineConfig) (args : DevArgs) : Config :=
  mkStart (safe_path (bsc_kernel_image_path src)) (safe_path <$> bsc_initrd_path src) (bsc_boot_args src)
    (mc_vcpu_count machine) (mc_mem_size_mib machine) args.

Record Launched := mkLaunched {
  la_boot : BootArtifacts M;
  la_layout : L;
  la_vm : HvfVm M;
  la_initrd : option (list Z);
  la_run_budget : Z
}.

(** From the planned boot to the driver thread. *)
Definition launch_planned (fs : Fs) (gic : G) (sink : S) (state : BootState) (cfg : VmmLoopConfig)
    (src : BootSourceConfig) (machine : MachineConfig) (boot : BootArtifacts M) : stm World LaunchError Launched :=
  match ba_hvf_vm boot with
  | None => st_fail LaunchNoVm
  | Some hvf_vm =>
      let! _ := lift LaunchGicSizes (GicSizes_query (M := M)) in
      match hv_mappings hvf_vm with
      | [] => st_fail LaunchNoMemory
      | _ =>
          let block := block_spec <$> bs_drive state in
          let! net := st_option (fun n => build_net_spec n cfg) (bs_net state) in
          holding net (
            let! vsock := st_option build_vsock_spec (bs_vsock state) in
            let args := mkBuildArgs sink (lc_mmds_size_cap cfg) block net false vsock in
            let! layout := lift LaunchLayout (build_device_layout gic args) in
            let! boot := lift LaunchFdt (rebuild_fdt (start_config src machine args) (boot_resources src machine) boot layout) in
            let! initrd := lift (LaunchInitrd (from_option safe_path [] (bsc_initrd_path src)))
                             (read_initrd fs (boot_resources src machine)) in
            let! _ := in_os (fun o => let (o, ok) := os_thread o in (o, if ok then Ok tt else Err tt)) (fun _ => LaunchThread) in
            st_ret (mkLaunched boot layout hvf_vm initrd (lc_run_budget cfg)))
      end
  end.

(** [None]: planning panics. *)
Definition launch (fs : Fs) (gic : G) (sink : S) (w : World) (state : BootState) (cfg : VmmLoopConfig)
  : option (World * result LaunchError Launched) :=
  match bs_boot_source state, bs_machine_config state with
  | None, _ => Some (w, Err LaunchNoBootSource)
  | Some _, None => Some (w, Err LaunchNoMachine)
  | Some src, Some machine =>
      planned ← build_microvm_for_boot fs (boot_resources src machine);
      match planned with
      | Err e => Some (w, Err (LaunchPlan e))
      | Ok boot => Some (launch_planned fs gic sink state cfg src machine boot w)
      end
  end.

(** ** What a launch went through *)

Definition net_matches (n : NetworkInterfaceConfig) (s : NetSpec (NetHostBackend V)) : Prop :=
  ns_iface_id s = iface_id_str (n_iface_id n) /\ ns_host_dev_name s = host_dev_name_str (n_host_dev_name n) /\
  ns_guest_mac s = mac_bytes <$> n_guest_mac n.

Definition vsock_matches (v : VsockConfig) (s : VsockSpec (Sys MN MT)) : Prop :=
  vp_guest_cid s = v_guest_cid v /\ vp_uds_path s = uds_path_str (v_uds_path v) /\ vp_tsi s = v_tsi v /\
  Muxer.spawn (v_guest_cid v) host_ports (fun _ => true) = Ok (vp_muxer s).

(** The devices are those of the configuration. *)
Definition args_match (state : BootState) (args : DevArgs) : Prop :=
  da_block args = block_spec <$> bs_drive state /\
  option_Forall2 net_matches (bs_net state) (da_net args) /\
  option_Forall2 vsock_matches (bs_vsock state) (da_vsock args).

Lemma st_option_ok {A X} (f : A -> stm World LaunchError X) (P : A -> X -> Prop) o w w' x :
  (forall a w w' x, f a w = (w', Ok x) -> P a x) -> st_option f o w = (w', Ok x) -> option_Forall2 P o x.
Proof.
  intros Hf H. destruct o as [a|]; cbn in H; [|injection H as _ <-; constructor].
  apply st_bind_ok in H as (y & w1 & Hy & [= _ <-]). constructor. by eapply Hf.
Qed.

Lemma build_net_spec_ok n cfg w w' s : build_net_spec n cfg w = (w', Ok s) -> net_matches n s.
Proof.
  unfold build_net_spec. destruct (HostDevName_new _) as [d|e] eqn:Hd; [|done]. intros H.
  apply st_bind_ok in H as (b & w1 & _ & [= _ <-]). apply HostDevName_new_iff in Hd as [Hd _]. by rewrite <- Hd.
Qed.

Lemma build_vsock_spec_ok v w w' s : build_vsock_spec v w = (w', Ok s) -> vsock_matches v s.
Proof.
  intros H. apply st_bind_ok in H as ([] & w1 & _ & H). destruct (Muxer.spawn _ _ _) as [m|] eqn:Hm; [|done].
  injection H as _ <-. done.
Qed.

Lemma lift_ok {X A} (f : X -> LaunchError) (r : result X A) w w' a : lift f r w = (w', Ok a) -> r = Ok a.
Proof. intros [= _ H]. by apply map_err_ok in H. Qed.

Lemma resources_eq src machine args : resources_of (start_config src machine args) = boot_resources src machine.
Proof. unfold resources_of, boot_resources, start_config. cbn. by destruct (bsc_initrd_path src). Qed.

(** A launch is a start of [Start] whose device inputs are those of the configuration;
    what is left is the staging the driver thread does. *)
Lemma launch_start fs gic sink w state cfg w' l :
  launch fs gic sink w state cfg = Some (w', Ok l) ->
  exists src machine args,
    bs_boot_source state = Some src /\ bs_machine_config state = Some machine /\ args_match state args /\
    build_device_layout gic args = Ok (la_layout l) /\ la_run_budget l = lc_run_budget cfg /\
    forall vm', write_kernel_to_guest (la_boot l) (la_initrd l) (la_vm l) = (vm', Ok tt) ->
      start_guest fs gic (start_config src machine args) = Some (Ok (la_boot l, la_layout l, vm')).
Proof.
  unfold launch. destruct (bs_boot_source state) as [src|]; [|done]. destruct (bs_machine_config state) as [machine|]; [|done].
  destruct (build_microvm_for_boot fs (boot_resources src machine)) as [[boot0|e]|] eqn:Hb; cbn [mbind option_bind]; try done.
  intros [= H]. exists src, machine. unfold launch_planned in H.
  destruct (ba_hvf_vm boot0) as [vm|] eqn:Hvm; [|done].
  apply st_bind_ok in H as (sizes & w1 & Hg & H). apply lift_ok in Hg.
  destruct (hv_mappings vm) as [|m ms] eqn:Hm; [done|]. apply st_bind_ok in H as (net & w2 & Hnet & H).
  unfold holding in H. match type of H with match ?c ?x with _ => _ end = _ => destruct (c x) as [w3 [l'|e]] eqn:Hc; [|done] end.
  injection H as _ ->. apply st_bind_ok in Hc as (vs & w4 & Hvs & H).
  set (args := mkBuildArgs sink _ _ net false vs) in H. exists args.
  apply st_bind_ok in H as (layout & w5 & Hl & H). apply lift_ok in Hl.
  apply st_bind_ok in H as (boot & w6 & Hf & H). apply lift_ok in Hf.
  apply st_bind_ok in H as (ib & w7 & Hi & H). apply lift_ok in Hi. apply st_bind_ok in H as ([] & w8 & _ & [= _ <-]). cbn.
  split; [done|]. split; [done|]. split.
  { split; [done|]. split; [eapply st_option_ok, Hnet; intros n x1 x2 sp Hn; exact (build_net_spec_ok n cfg x1 x2 sp Hn)|].
    eapply st_option_ok, Hvs. intros v x1 x2 sp Hv. exact (build_vsock_spec_ok v x1 x2 sp Hv). }
  split; [done|]. split; [done|]. intros vm' Hw. unfold start_guest. rewrite resources_eq, Hb. cbn [mbind option_bind].
  cbn [map_err]. rewrite Hvm, Hg. cbn [map_err]. rewrite Hm.
  change (sc_devices (start_config src machine args)) with args. rewrite Hl. cbn [map_err]. rewrite Hf. cbn [map_err]. rewrite Hi.
  cbn [map_err]. by rewrite Hw.
Qed.

(** Booting through the event loop is launching: a boot the controller saw succeed is a
    launch that succeeded. *)
Definition boots_by_launch (h : Host) (fs : Fs) (gic : G) (sink : S) (w : World) (cfg : VmmLoopConfig) : Prop :=
  forall b vm, h_boot h b = Ok vm -> exists w' l, launch fs gic sink w b cfg = Some (w', Ok l).
End launch.

Section file_to_guest.
Context `{J : SerdeJson}.
Context {Fs R W N M G S E B C I V D O MN MT : Type}.
Context `{!HostFs Fs, !HostFsLaws Fs, !Decoders R, !DecoderLaws R, !FdtWriter W N}.
Context `{!GuestMemory M, !GuestMemoryLaws M, !AppleVisor M} {AVL : AppleVisorLaws (M := M)} `{!Gic G} `{!Pl011Sink S}.
Context `{!EntropySource E, !BlockBackend B, !HostWriter C, !FrameInterceptor I}.
Context `{!Xpc D, !Vmnet V D} {U5 : Uuid5} `{!ProcessHost O, !LaunchHost O, !NotifyLib MN MT}.
Context `{!HostDevices E B I (NetHostBackend V)}.

(** What the guest finds in memory when its first instruction runs. *)
Definition guest_staged (fs : Fs) (src : BootSourceConfig) (machine : MachineConfig) (boot : BootArtifacts M) (vm : HvfVm M) : Prop :=
  exists m ib, hv_mappings vm = [m] /\ read_initrd fs (boot_resources src machine) = Ok ib /\
    gm_read m (br_kernel_load_addr (ba_boot_regs boot)) (length (lk_bytes (ba_kernel boot))) = Ok (lk_bytes (ba_kernel boot)) /\
    gm_read m (br_fdt_addr (ba_boot_regs boot)) (length (ba_fdt_bytes boot)) = Ok (ba_fdt_bytes boot) /\
    Forall (fun i => gm_read m i.1 (length i.2) = Ok i.2) (images boot ib).

(** The device tree describes the devices the guest will reach. *)
Definition tree_describes (boot : BootArtifacts M)
    (layout : DeviceLayout (G := G) (S := S) (E := E) (B := B) (C := C) (I := I) (NB := NetHostBackend V) (X := Sys MN MT)) : Prop :=
  exists fargs, fa_virtio_devices fargs = dl_virtio_slots layout /\ fa_initrd fargs = ba_initrd_range boot /\
    (exists w w', fw_new = Ok w /\ write_node (microvm_tree fargs (tree_slots fargs)) w = (w', Ok tt) /\
       fw_finish w' = Ok (ba_fdt_bytes boot)) /\
    forall i sl, tree_slots fargs !! i = Some sl ->
      (forall off, 0 <= off < 0x1000 -> resolve (dl_bus layout) (Slots.sl_base sl + off) = Ok (off, Datatypes.S i)) /\
      exists v, dl_devs layout !! Datatypes.S i = Some (MVirtio (Transport_new v) (Slots.sl_intid sl) 0).

(** What the images leave to the planner: the kernel file is no longer than it declares,
    the tree fits its window, and a kernel without an initrd ends below it. *)
Definition images_fit (src : BootSourceConfig) (boot : BootArtifacts M) : Prop :=
  zlen (lk_bytes (ba_kernel boot)) <= image_bytes (ba_kernel boot) /\ zlen (ba_fdt_bytes boot) <= MIB2 /\
  (bsc_initrd_path src = None -> placed_at (ba_kernel boot) + zlen (lk_bytes (ba_kernel boot)) <= ba_fdt_base boot).

End file_to_guest.

(** ** No child process outlives a failed start *)

(** Which children live: only [os_spawn] makes one, only [os_kill] ends one. *)
Class ProcessLaws (O : Type) `{!ProcessHost O, !LaunchHost O} := {
  os_live : O -> list nat;
  live_socketpair o : os_live (os_socketpair o).1 = os_live o;
  live_dup o : os_live (os_dup o).1 = os_live o;
  live_nonblocking o : os_live (os_nonblocking o).1 = os_live o;
  live_register o : os_live (os_register o).1 = os_live o;
  live_unlink o path : os_live (os_unlink o path) = os_live o;
  live_bind o path : os_live (os_bind o path).1 = os_live o;
  live_thread o : os_live (os_thread o).1 = os_live o;
  live_spawn o path args :
    match os_spawn o path args with
    | (o', Ok pid) => (pid ∉ os_live o) /\ os_live o' = pid :: os_live o
    | (o', Err _) => os_live o' = os_live o
    end;
  live_kill o pid : os_live (os_kill o pid) = filter (fun p => (p <> pid)) (os_live o)
}.

Section orphans.
Context `{J : SerdeJson}.
Context {Fs R W N M G S E B C I V D O MN MT : Type}.
Context `{!HostFs Fs, !Decoders R, !FdtWriter W N, !GuestMemory M, !AppleVisor M} `{!Gic G} `{!Pl011Sink S}.
Context `{!EntropySource E, !BlockBackend B, !HostWriter C, !FrameInterceptor I}.
Context `{!Xpc D, !Vmnet V D} {U5 : Uuid5} `{!ProcessHost O, !LaunchHost O, !ProcessLaws O, !NotifyLib MN MT}.
Context `{!HostDevices E B I (NetHostBackend V)}.
Local Abbreviation Wd := (World (V := V) (O := O)).

Lemma filter_fresh (pid : nat) l : pid ∉ l -> filter (fun p => p <> pid) (pid :: l) = l.
Proof.
  intros Hn. rewrite filter_cons_False by (intros H; by apply H).
  induction l as [|x l IH]; [done|]. apply not_elem_of_cons in Hn as [Hx Hn].
  rewrite filter_cons_True by congruence. by rewrite IH.
Qed.

Lemma gvproxy_start_live params o :
  match GvproxyBackend_start params o with
  | (o', Ok g) => exists pid, gv_child g = Some pid /\ (pid ∉ os_live o) /\ os_live o' = pid :: os_live o
  | (o', Err _) => os_live o' = os_live o
  end.
Proof.
  unfold GvproxyBackend_start. destruct (validate_binary_path o _); [|done]. destruct (validate_extra_args _); [|done].
  pose proof (live_socketpair o) as H1. destruct (os_socketpair o) as [o1 [[]|e]]; [|done]. cbn in H1.
  pose proof (live_dup o1) as H2. destruct (os_dup o1) as [o2 [[]|e]]; cbn in H2; [|congruence].
  pose proof (live_spawn o2 (gp_binary_path params) (gp_extra_args params)) as H3.
  destruct (os_spawn o2 _ _) as [o3 [pid|e]]; [|congruence]. destruct H3 as [Hn H3].
  pose proof (live_nonblocking o3) as H4. destruct (os_nonblocking o3) as [o4 [[]|e]]; cbn in H4; cycle 1.
  { rewrite live_kill, H4, H3, filter_fresh by done. congruence. }
  pose proof (live_register o4) as H5. destruct (os_register o4) as [o5 [[]|e]]; cbn in H5; cycle 1.
  { rewrite live_kill, H5, H4, H3, filter_fresh by done. congruence. }
  exists pid. split; [done|]. rewrite <- H1, <- H2. split; [done|]. congruence.
Qed.

(** The child a network backend owns. *)
Definition child_of (b : NetHostBackend V) : list nat :=
  match b with NbGvproxy g => option_list (gv_child g) | _ => [] end.

(** [c] neither starts nor ends a child. *)
Definition keeps_children {A} (c : stm Wd LaunchError A) : Prop := forall w, os_live (w_os (c w).1) = os_live (w_os w).

Lemma keeps_bind {A A'} (c : stm Wd LaunchError A) (k : A -> stm Wd LaunchError A') :
  keeps_children c -> (forall a, keeps_children (k a)) -> keeps_children (st_bind c k).
Proof.
  intros Hc Hk w. unfold st_bind. specialize (Hc w). destruct (c w) as [w1 [a|e]]; [|done]. cbn in Hc. by rewrite Hk.
Qed.

Lemma keeps_lift {X A} (f : X -> LaunchError) (r : result X A) : keeps_children (lift f r).
Proof. done. Qed.

Lemma keeps_in_os {A X} (c : stm O X A) f : (forall o, os_live (c o).1 = os_live o) -> keeps_children (in_os c f).
Proof. intros H w. unfold in_os. specialize (H (w_os w)). by destruct (c (w_os w)) as [o r]. Qed.

Lemma bind_ports_live base ports : forall o, os_live (bind_ports base ports o).1 = os_live o.
Proof.
  induction ports as [|p ports IH]; intros o; [done|]. cbn [bind_ports].
  pose proof (live_bind (os_unlink o (derive_port_path base p)) (derive_port_path base p)) as H. rewrite live_unlink in H.
  destruct (os_bind _ _) as [o1 []]; cbn in H; [by rewrite IH|done].
Qed.

Lemma vsock_spec_keeps v : keeps_children (build_vsock_spec (MN := MN) (MT := MT) v).
Proof.
  apply keeps_bind; [apply keeps_in_os, bind_ports_live|]. intros _. by destruct (Muxer.spawn _ _ _).
Qed.

Lemma net_spec_live n cfg (w : Wd) :
  match build_net_spec n cfg w with
  | (w', Ok s) => os_live (w_os w') = child_of (ns_backend s) ++ os_live (w_os w) /\
      forall pid, pid ∈ child_of (ns_backend s) -> pid ∉ os_live (w_os w)
  | (w', Err _) => os_live (w_os w') = os_live (w_os w)
  end.
Proof.
  unfold build_net_spec. destruct (HostDevName_new _); [|done]. unfold st_bind. destruct (lc_net_mode cfg) as [mode|].
  - unfold build_vmnet_backend. destruct (VmnetIface_start _ _) as [v [i|e]]; cbn; [|done].
    split; [done|]. intros pid Hp. by apply not_elem_of_nil in Hp.
  - set (params := GvproxyParams_new _). unfold in_os. pose proof (gvproxy_start_live params (w_os w)) as H.
    destruct (GvproxyBackend_start params (w_os w)) as [o [g|e]]; cbn; [|done].
    destruct H as (pid & -> & Hn & ->). cbn. split; [done|]. by intros x ->%list_elem_of_singleton.
Qed.

(** Only userspace mode has a child. *)
Lemma net_spec_mode n cfg (w : Wd) :
  match build_net_spec n cfg w with
  | (_, Ok s) => child_of (ns_backend s) <> [] -> lc_net_mode cfg = NmUserspace
  | (_, Err _) => True
  end.
Proof.
  unfold build_net_spec. destruct (HostDevName_new _); [|done]. unfold st_bind. destruct (lc_net_mode cfg) as [mode|].
  - unfold build_vmnet_backend. destruct (VmnetIface_start _ _) as [v [i|e]]; cbn; [intros Hne; by destruct Hne|done].
  - unfold in_os. by destruct (GvproxyBackend_start _ _) as [o [g|e]].
Qed.

Lemma drop_backend_live (w : Wd) b live :
  os_live (w_os w) = child_of b ++ live -> (forall pid, pid ∈ child_of b -> pid ∉ live) ->
  os_live (w_os (drop_backend w b)) = live.
Proof.
  intros Hl Hn. destruct b as [b|g|b]; cbn in *; [done| |done]. unfold Gvproxy_drop.
  destruct (gv_child g) as [pid|]; cbn in *; [|done]. rewrite live_kill, Hl. apply filter_fresh, Hn. by left.
Qed.

(** What a step of a start may leave behind: nothing when it fails, at most one child
    allowed by [P] when it succeeds. *)
Definition no_orphans {A} (P : Prop) (c : stm Wd LaunchError A) : Prop := forall w,
  match c w with
  | (w', Err _) => os_live (w_os w') = os_live (w_os w)
  | (w', Ok _) => exists extra, os_live (w_os w') = extra ++ os_live (w_os w) /\ (length extra <= 1)%nat /\ (extra <> [] -> P)
  end.

Lemma no_orphans_keep {A A'} P (c : stm Wd LaunchError A) (k : A -> stm Wd LaunchError A') :
  keeps_children c -> (forall a, no_orphans P (k a)) -> no_orphans P (st_bind c k).
Proof.
  intros Hc Hk w. unfold st_bind. specialize (Hc w). destruct (c w) as [w1 [a|e]]; cbn in Hc; [|done].
  specialize (Hk a w1). by rewrite Hc in Hk.
Qed.

Lemma no_orphans_fail {A} P e : no_orphans P (st_fail e : stm Wd LaunchError A).
Proof. done. Qed.

Lemma no_orphans_net {A} o cfg (tail : option (NetSpec (NetHostBackend V)) -> stm Wd LaunchError A) :
  (forall net, keeps_children (tail net)) ->
  no_orphans (is_Some o /\ lc_net_mode cfg = NmUserspace)
    (st_bind (st_option (fun n : NetworkInterfaceConfig => build_net_spec n cfg) o) (fun net => holding net (tail net))).
Proof.
  intros Ht w. unfold st_bind at 1, holding. destruct o as [n|]; cbn [st_option].
  - unfold st_bind, st_ret. pose proof (net_spec_live n cfg w) as Hn. pose proof (net_spec_mode n cfg w) as Hmode.
    destruct (build_net_spec n cfg w) as [w1 [s|e]]; [|done]. destruct Hn as [Hl Hf]. specialize (Ht (Some s) w1).
    destruct (tail (Some s) w1) as [w2 [a|e]]; cbn in Ht |- *.
    + exists (child_of (ns_backend s)). rewrite Ht, Hl. split; [done|]. split.
      * destruct (ns_backend s) as [|g|]; cbn; [lia|destruct (gv_child g); cbn; lia|lia].
      * intros Hne. split; [by eexists|]. by apply Hmode.
    + apply drop_backend_live; [congruence|done].
  - specialize (Ht None w). cbn. destruct (tail None w) as [w2 [a|e]]; cbn in Ht; [|done].
    exists []. split; [done|]. split; [cbn; lia|done].
Qed.

(** C23: A start that fails, at whatever step, leaves no gvproxy child behind that
    was not there before; one that succeeds leaves at most one, and only with a network
    interface configured in userspace mode. *)
Theorem launch_no_orphans (fs : Fs) (gic : G) (sink : S) (w : Wd) state cfg w' (r : result LaunchError Launched)
    (Hlaunch : launch (MN := MN) (MT := MT) (C := C) fs gic sink w state cfg = Some (w', r)) :
  match r with
  | Err _ => os_live (w_os w') = os_live (w_os w)
  | Ok _ => exists extra, os_live (w_os w') = extra ++ os_live (w_os w) /\ (length extra <= 1)%nat /\
      (extra <> [] -> is_Some (bs_net state) /\ lc_net_mode cfg = NmUserspace)
  end.
Proof.
  unfold launch in Hlaunch. destruct (bs_boot_source state) as [src|]; [|by injection Hlaunch as <- <-].
  destruct (bs_machine_config state) as [machine|]; [|by injection Hlaunch as <- <-].
  destruct (build_microvm_for_boot fs _) as [[boot|e]|]; [|by injection Hlaunch as <- <-|done]. injection Hlaunch as H.
  assert (Hno : no_orphans (is_Some (bs_net state) /\ lc_net_mode cfg = NmUserspace)
    (launch_planned (MN := MN) (MT := MT) (C := C) fs gic sink state cfg src machine boot)); [|by specialize (Hno w); rewrite H in Hno].
  unfold launch_planned. destruct (ba_hvf_vm boot) as [vm|]; [|apply no_orphans_fail].
  apply no_orphans_keep; [apply keeps_lift|]. intros _. destruct (hv_mappings vm); [apply no_orphans_fail|].
  apply no_orphans_net. intros net. apply keeps_bind.
  { destruct (bs_vsock state) as [v|]; [|done]. by apply keeps_bind; [apply vsock_spec_keeps|]. }
  intros vs. do 3 (apply keeps_bind; [apply keeps_lift|]; intros ?). apply keeps_bind; [|done].
  apply keeps_in_os. intros o. pose proof (live_thread o) as Ho. by destruct (os_thread o).
Qed.
End orphans.

(** ** A concrete launch *)

#[local] Existing Instance unit_json.
#[local] Existing Instance demo_xpc.
#[local] Existing Instance demo_vmnet.
#[local] Existing Instance demo_uuid.

(** The children alive, the sockets bound, and whether the next socket registration
    and the driver thread succeed. *)
Record DemoOs := mkDemoOs { do_live : list nat; do_bound : list (list Z); do_register : bool; do_thread : bool }.

Definition next_pid (l : list nat) : nat := Datatypes.S (foldr Nat.max 0%nat l).

#[local] Instance demo_processes : ProcessHost DemoOs := {|
  os_is_file _ _ := Ok true;
  os_socketpair o := (o, Ok tt);
  os_dup o := (o, Ok tt);
  os_spawn o _ _ := (mkDemoOs (next_pid (do_live o) :: do_live o) (do_bound o) (do_register o) (do_thread o), Ok (next_pid (do_live o)));
  os_nonblocking o := (o, Ok tt);
  os_register o := (o, if do_register o then Ok tt else Err (mkIoError 24));
  os_kill o pid := mkDemoOs (filter (fun p => (p <> pid)) (do_live o)) (do_bound o) (do_register o) (do_thread o)
|}.

#[local] Instance demo_launch_host : LaunchHost DemoOs := {|
  os_unlink o _ := o;
  os_bind o path := (mkDemoOs (do_live o) (path :: do_bound o) (do_register o) (do_thread o), true);
  os_thread o := (o, do_thread o)
|}.

Lemma next_pid_fresh l : next_pid l ∉ l.
Proof.
  assert (Hle : forall x, x ∈ l -> (x <= foldr Nat.max 0 l)%nat).
  { induction l as [|y l IH]; intros x Hx; [by apply not_elem_of_nil in Hx|]. cbn.
    apply elem_of_cons in Hx as [->|Hx]; [lia|]. specialize (IH x Hx). lia. }
  intros Hin. apply Hle in Hin. unfold next_pid in Hin. lia.
Qed.

#[local] Instance demo_process_laws : ProcessLaws DemoOs.
Proof. refine {| os_live := do_live |}; try done. intros o p a. split; [apply next_pid_fresh|done]. Defined.

#[local] Instance demo_devices : HostDevices FixedEntropy SyncFileBackend NoopInterceptor (NetHostBackend DemoVmnet) := {
  hd_entropy := Ok (mkFixed 7);
  hd_open _ _ := Err (mkIoError 2);
  hd_mmds _ := mkNoop;
  hd_vmnet_mtu b := match b with NbVmnet b => Some (iface_mtu (vb_iface b)) | _ => None end
}.

Definition demo_launch (w : World (V := DemoVmnet) (O := DemoOs)) (state : BootState) (cfg : VmmLoopConfig)
  : option (World * result LaunchError (Launched (M := SparseMem) (G := pulse_log) (S := CapturedSink) (C := list Z) (MN := nat) (MT := nat))) :=
  launch (R := list Z) (W := nat * list Z) (N := nat) Boot.demo_fs [] [] w state cfg.

Definition demo_loop_cfg : VmmLoopConfig := mkLoopConfig NmUserspace None None 300 8192.

Definition demo_os (register thread : bool) : World (V := DemoVmnet) (O := DemoOs) :=
  mkWorld (mkDemoOs [41%nat] [] register thread) (mkDemoVmnet [] []).

Definition demo_state : BootState :=
  Controller.mkBoot (Some (mkBootSource (mkSafePath (lit "vmlinux")) (Some (mkSafePath (lit "initrd"))) None))
    (Some (mkMachineConfig 2 (mkMemSizeMib 512) false false None None)) None
    (Some (mkNetwork (mkIfaceId (lit "eth0")) (mkHostDevName (lit "vmnet0")) None None None)) None.

(** The driver thread cannot start: the gvproxy child started for the guest is killed, the
    one that was there before is not. *)
Lemma launch_no_orphans_witness :
  exists w', demo_launch (demo_os true false) demo_state demo_loop_cfg = Some (w', Err LaunchThread) /\
    do_live (w_os w') = [41%nat].
Proof.
  destruct (demo_launch (demo_os true false) demo_state demo_loop_cfg) as [[w' r]|] eqn:Hl.
  - assert (Hr : r = Err LaunchThread).
    { assert (He : option_map (fun p => match p.2 with Err LaunchThread => true | _ => false end)
        (demo_launch (demo_os true false) demo_state demo_loop_cfg) = Some true) by (vm_compute; reflexivity).
      rewrite Hl in He. cbn in He. destruct r as [l|[]]; try discriminate He. reflexivity. }
    subst r. exists w'. split; [reflexivity|]. unfold demo_launch in Hl.
    pose proof (launch_no_orphans Boot.demo_fs [] [] _ demo_state demo_loop_cfg w' _ Hl) as H. exact H.
  - exfalso.
    assert (He : bool_decide (is_Some (option_map fst (demo_launch (demo_os true false) demo_state demo_loop_cfg))) = true)
      by (vm_compute; reflexivity).
    rewrite Hl in He. discriminate He.
Defined.

Definition demo_boot_file : ConfigFile :=
  mkConfigFile (Some (mkRawBootSource (lit "vmlinux") (Some (lit "initrd")) None)) []
    (Some (mkRawMachineConfig 2 512 false false None None)) None
    [mkRawNetwork (lit "eth0") (lit "vmnet0") None None None] None None None None None None [] None None None
    (mkExtension None false None None).

Definition demo_boot_host : Host :=
  mkHost (fun _ => false)
    (fun b => match demo_launch (demo_os true true) b demo_loop_cfg with Some (_, Ok _) => Ok 7%nat | _ => Err [] end).

Definition demo_replay : option (System * result ReplayError unit) :=
  run_alone demo_boot_host 8 (sys_init (lit "demo") (lit "1.16.0") (lit "1.16.0") timeouts_from_spec (from_host_ram_mib 1024))
    (replay_config demo_boot_file true).

Lemma demo_replay_ok : exists s', demo_replay = Some (s', Ok tt).
Proof.
  assert (H : match demo_replay with Some (_, Ok _) => true | _ => false end = true) by (vm_compute; reflexivity).
  destruct demo_replay as [[s' [[]|e]]|]; [by exists s'|discriminate H..].
Qed.

Definition demo_plan : Plan :=
  match validate_file demo_boot_file with
  | Ok p => p
  | Err _ => mkPlan None None None [] [] None None None None None None [] None None None
  end.

(** What the witness needs of the launch, as one closed check. *)
Definition demo_staged : bool :=
  match demo_launch (demo_os true true) (plan_boot demo_plan) demo_loop_cfg with
  | Some (_, Ok l) =>
      (zlen (lk_bytes (ba_kernel (la_boot l))) <=? image_bytes (ba_kernel (la_boot l))) &&
      (zlen (ba_fdt_bytes (la_boot l)) <=? MIB2) &&
      match (write_kernel_to_guest (la_boot l) (la_initrd l) (la_vm l)).2 with Ok _ => true | Err _ => false end
  | _ => false
  end.

