(* ===== verification/Cli.v ===== *)
(** * Cli: the [squib] command

    Models [src/apps/squib-cli/src]: the flags and the network mode ([cli.rs]) and [main.rs]
    from the flags to the runtime of [Facade]: what is printed, which builder is spawned,
    and the loop that waits for the API server or a termination signal.  The argument
    parser fills the record; the text of a description and the log output are left out. *)

From stdpp Require Import base numbers list option gmap strings.
From Stdlib Require Import ZArith Lia.
From S2P Require Import Prelude Text Prog Paths Disk SnapError SnapState Envelope Snapshot.
From S2P Require Import Schemas Controller Api Net NetHost Loader Replay Facade.

Local Open Scope Z_scope.
Local Open Scope squib_scope.

Inductive NetworkMode := ModeShared | ModeBridged | ModeHost | ModeUserspace.

(** The flags [main] reads; the others only parse. *)
Record CliArgs := mkCliArgs {
  ca_api_sock : option (list Z);
  ca_id : list Z;
  ca_config_file : option (list Z);
  ca_no_api : bool;
  ca_http_api_max_payload_size : Z;
  ca_mmds_size_limit : option Z;
  ca_snapshot_version : bool;
  ca_describe_snapshot : option (list Z);
  ca_network : NetworkMode;
  ca_gvproxy_path : option (list Z);
  ca_bridged_iface : option (list Z)
}.

(** [bridged]: built with the cargo feature. *)
Definition to_net_mode (bridged : bool) (m : NetworkMode) : result (list Z) NetMode :=
  match m with
  | ModeShared => Ok (NmVmnet VmShared)
  | ModeHost => Ok (NmVmnet VmHost)
  | ModeUserspace => Ok NmUserspace
  | ModeBridged =>
      if bridged then Ok (NmVmnet VmBridged)
      else Err (lit "--network=bridged requires a binary built with `--features bridged` and signed with `com.apple.vm.networking`. See specs/30-networking.md " ++ [0xC2; 0xA7] ++ lit " 5.")
  end.

Section cli.
Context `{J : SerdeJson}.

Inductive CliError :=
  | CliBail (msg : list Z)
  | CliSquib (e : SquibError)
  | CliDescribe (e : SnapshotError).

(** What the flags ask for. *)
Inductive CliPlan := PlanVersion | PlanDescribe (path : list Z) | PlanRun (b : SquibBuilder).

Definition cli_builder (bridged : bool) (args : CliArgs) : result CliError SquibBuilder :=
  if ca_no_api args && negb (bool_decide (is_Some (ca_config_file args)))
  then Err (CliBail (lit "--no-api requires --config-file"))
  else
    let? net_mode := map_err CliBail (to_net_mode bridged (ca_network args)) in
    let? builder := map_err CliSquib (try_instance_id SquibBuilder_default (ca_id args)) in
    let builder := with_network_mode builder net_mode in
    let builder := with_start_microvm builder (ca_no_api args) in
    let builder := with_http_api_max_payload_size builder (ca_http_api_max_payload_size args) in
    let builder := with_run_budget builder 300 in
    let builder := with_mmds_size_limit builder (default DEFAULT_MMDS_SIZE_LIMIT (ca_mmds_size_limit args)) in
    let builder := from_option (with_config_file builder) builder (ca_config_file args) in
    let builder := from_option (with_gvproxy_path builder) builder (ca_gvproxy_path args) in
    let builder := from_option (with_bridged_iface builder) builder (ca_bridged_iface args) in
    if ca_no_api args then Ok builder
    else match ca_api_sock args with
         | Some socket_path => Ok (with_api_socket builder (Some socket_path))
         | None => Err (CliBail (lit "--api-sock must be a path"))
         end.

Definition cli_plan (bridged : bool) (args : CliArgs) : result CliError CliPlan :=
  if ca_snapshot_version args then Ok PlanVersion
  else match ca_describe_snapshot args with
       | Some path => Ok (PlanDescribe path)
       | None => let? b := cli_builder bridged args in Ok (PlanRun b)
       end.

(** The exit status of [--describe-snapshot]. *)
Definition cli_describe `{!Codec MicrovmState, !Crc} (path : list Z) : prog Disk CliError Z :=
  let* desc := p_map_err CliDescribe (describe path) in
  p_ret (if de_crc_ok desc then 0 else 2).

(** ** Waiting *)

Inductive CliEvent := Tick | Terminate | ServerEnds (r : result JoinError (result IoError unit)).

Definition api_server_finished (q : Squib) : bool :=
  match sq_api_task q with Some (ApiEnded _) => true | _ => false end.

(** How [main] leaves its loop: the server was joined, or a shutdown began (which runs on
    as [stop_step]). *)
Inductive CliLeave := LeftServer (r : result SquibError unit) | LeftShutdown (r : result SquibError StopAt).

(** A task that ended is polled at the top of the next round; without an API only a
    signal is waited for.  [None]: still waiting. *)
Fixpoint serve_loop (no_api : bool) (q : Squib) (es : list CliEvent) : option (Squib * CliLeave) :=
  if negb no_api && api_server_finished q
  then let (q, r) := join_api_server q (Ok (Ok tt)) in Some (q, LeftServer r)
  else match es with
       | [] => None
       | Tick :: es' => serve_loop no_api q es'
       | Terminate :: _ => let (q, r) := shutdown q None in Some (q, LeftShutdown r)
       | ServerEnds r :: es' =>
           serve_loop no_api
             (match sq_api_task q with
              | Some (ApiServing _) => mkSquib (sq_vmm_task q) (Some (ApiEnded r)) (sq_shutdown_sent q)
              | _ => q
              end) es'
       end.

(** ** From the flags to the runtime *)

(** The table of the command's modes. *)
Lemma cli_modes bridged args b :
  cli_plan bridged args = Ok (PlanRun b) ->
  ca_snapshot_version args = false /\ ca_describe_snapshot args = None /\
  sb_config_file b = ca_config_file args /\ ident_ok (sb_instance_id b) /\
  to_net_mode bridged (ca_network args) = Ok (sb_network_mode b) /\
  (0 < sb_channel_capacity b)%nat /\ sb_start_microvm b = ca_no_api args /\
  if ca_no_api args then is_Some (sb_config_file b) /\ sb_api_socket b = None
  else is_Some (sb_api_socket b) /\ sb_api_socket b = ca_api_sock args.
Proof.
  unfold cli_plan. destruct (ca_snapshot_version args); [done|]. destruct (ca_describe_snapshot args); [done|].
  unfold cli_builder. destruct (ca_no_api args && _) eqn:Hn; [done|]. destruct (to_net_mode bridged _) as [m|]; [|done].
  cbn [map_err]. unfold try_instance_id. destruct (InstanceId_new (ca_id args)) as [id|] eqn:Hid; [|done]. cbn [map_err].
  apply InstanceId_new_iff in Hid as [Hid Hok]. rewrite Hid in Hok. intros H.
  assert (Hcfg : ca_no_api args = true -> is_Some (ca_config_file args)).
  { intros Ha. rewrite Ha in Hn. cbn in Hn. by apply negb_false_iff, bool_decide_eq_true in Hn. }
  do 2 (split; [done|]).
  destruct (ca_no_api args) eqn:Ha; [specialize (Hcfg eq_refl)|destruct (ca_api_sock args); [|done]]; injection H as <-;
    destruct (ca_config_file args), (ca_gvproxy_path args), (ca_bridged_iface args); cbn;
    (split_and!; [done|exact Hok|done|unfold DEFAULT_VMM_CHANNEL_CAPACITY; lia|done|first [exact Hcfg|exact (mk_is_Some _ _ eq_refl)]|done]).
Qed.

(** A signal ends the command: after any number of idle rounds it leads to the shutdown of
    a handle that was just spawned, whose event loop [shutdown_completes] brings to its end. *)
Lemma terminate_leaves no_api q n es :
  sq_vmm_task q = true -> sq_shutdown_sent q = false -> api_server_finished q = false ->
  exists q', serve_loop no_api q (repeat Tick n ++ Terminate :: es) = Some (q', LeftShutdown (Ok AtSend)) /\
    sq_vmm_task q' = false /\ sq_shutdown_sent q' = true /\ sq_api_task q' = None.
Proof.
  intros Hv Hs Hf. induction n as [|n IH]; cbn; rewrite Hf, andb_false_r; [|exact IH].
  unfold shutdown, abort_api_server. unfold api_server_finished in Hf. destruct (sq_api_task q) as [[o|r]|] eqn:Ht; [|done|].
  - cbn. rewrite Hv, Hs. by eexists.
  - rewrite Hv, Hs. eexists. split; [done|]. cbn. by rewrite Ht.
Qed.

(** A server that ends by itself ends the command with its result. *)
Lemma server_end_leaves q r opts n es :
  sq_api_task q = Some (ApiServing opts) ->
  exists q', serve_loop false q (repeat Tick n ++ ServerEnds r :: es) =
    Some (q', LeftServer (match r with Err e => Err (SqJoin e) | Ok (Err e) => Err (SqIo e) | Ok (Ok _) => Ok tt end)) /\
    sq_vmm_task q' = sq_vmm_task q.
Proof.
  intros Ht. induction n as [|n IH]; cbn; unfold api_server_finished; rewrite Ht; cbn; [|exact IH].
  destruct es; cbn; unfold api_server_finished; cbn; by eexists.
Qed.
End cli.
