(* ===== verification/Jail.v ===== *)
(** * Jail: the jailer

    Models [src/apps/squib-jail/src]: the flags ([cli.rs]), resource limits ([resource.rs]),
    validation and staging of the binary ([env.rs]), the order in which privileges are
    given up ([sequence.rs], [sandbox.rs]), the errors and exit codes ([error.rs]) and
    [main.rs].  The host is the store of [Disk] with file modes, and the process that runs:
    its credentials, root, limits, standard streams and sandbox.  The script of [Disk]
    decides which system calls fail.  Symbolic links, the text of the sandbox profiles and
    the messages of the sandbox library are the class [JailHost]. *)

From stdpp Require Import base numbers list option gmap strings.
From Stdlib Require Import ZArith Lia.
From S2P Require Import Prelude Text Prog Paths Disk Schemas.

Local Open Scope Z_scope.
Local Open Scope squib_scope.

(** ** [error.rs] *)

Inductive JailerError :=
  | InvalidInstanceId (s : list Z)
  | InvalidResourceLimit (s : list Z)
  | UnsupportedResource (s : list Z)
  | SandboxInit (s : list Z)
  | Chroot (path : list Z) (source : IoError)
  | ChdirRoot (source : IoError)
  | Setgid (gid : Z) (source : IoError)
  | Setuid (uid : Z) (source : IoError)
  | Setrlimit (key : list Z) (source : IoError)
  | Setsid (source : IoError)
  | RedirectStdio (source : IoError)
  | OpenDevNull (source : IoError)
  | CreateChroot (path : list Z) (source : IoError)
  | StageExecFile (src dst : list Z) (source : IoError)
  | ExecFileNotRegular (path : list Z)
  | Canonicalize (path : list Z) (source : IoError)
  | PathContainsNul (path : list Z)
  | ExecFailed (path : list Z) (source : IoError).

Definition exit_code (e : JailerError) : Z :=
  match e with
  | InvalidInstanceId _ | InvalidResourceLimit _ | UnsupportedResource _ | PathContainsNul _
  | ExecFileNotRegular _ | Canonicalize _ _ => 1
  | Chroot _ _ | ChdirRoot _ | Setgid _ _ | Setuid _ _ | Setrlimit _ _ | Setsid _ | RedirectStdio _
  | OpenDevNull _ | SandboxInit _ | CreateChroot _ _ | StageExecFile _ _ _ => 2
  | ExecFailed _ _ => 3
  end.

(** ** [cli.rs] *)

Definition SHORT_FLAG_MAX_BYTES : Z := 256.
Definition PATH_FLAG_MAX_BYTES : Z := 1024.
Definition CHILD_ARG_MAX_BYTES : Z := 4096.
Definition CHILD_ARG_TOTAL_MAX_BYTES : Z := 16 * 1024.

Definition capped_string_parser (max_bytes : Z) (s : list Z) : result (list Z) (list Z) :=
  if max_bytes <? zlen s then
    Err (lit "value is " ++ decimal (zlen s) ++ lit " bytes; max " ++ decimal max_bytes)
  else if contains_nul s then Err (lit "value contains an interior NUL byte")
  else Ok s.

Definition capped_path_parser (s : list Z) : result (list Z) (list Z) :=
  if PATH_FLAG_MAX_BYTES <? zlen s then
    Err (lit "path is " ++ decimal (zlen s) ++ lit " bytes; max " ++ decimal PATH_FLAG_MAX_BYTES)
  else if contains_nul s then Err (lit "path contains an interior NUL byte")
  else Ok s.

Inductive SandboxProfile := ProfileDefault | ProfilePermissive.

Inductive LogLevel := LevelOff | LevelError | LevelWarning | LevelInfo | LevelDebug | LevelTrace.

(** The flags; strings are their UTF-8 bytes. *)
Record Args := mkArgs {
  a_id : list Z;
  a_exec_file : list Z;
  a_uid : Z;
  a_gid : Z;
  a_chroot_base_dir : list Z;
  a_daemonize : bool;
  a_new_pid_ns : bool;
  a_resource_limits : list (list Z);
  a_cgroups : list (list Z);
  a_parent_cgroup : option (list Z);
  a_cgroup_version : list Z;
  a_netns : option (list Z);
  a_macos_sandbox_profile : option SandboxProfile;
  a_level : LogLevel;
  a_passthrough_argv : list (list Z)
}.

Definition try_map {A B E} (f : A -> result E B) : list A -> result E (list B) :=
  fix go l :=
    match l with
    | [] => Ok []
    | a :: l' => let? b := f a in let? bs := go l' in Ok (b :: bs)
    end.

Definition try_option {A B E} (f : A -> result E B) (o : option A) : result E (option B) :=
  match o with Some a => let? b := f a in Ok (Some b) | None => Ok None end.

(** The value parsers on the values the command line gives for each flag, defaults
    filled in. *)
Definition parse_flags (raw : Args) : result (list Z) Args :=
  let? id := capped_string_parser SHORT_FLAG_MAX_BYTES (a_id raw) in
  let? exec_file := capped_path_parser (a_exec_file raw) in
  let? base := capped_path_parser (a_chroot_base_dir raw) in
  let? limits := try_map (capped_string_parser SHORT_FLAG_MAX_BYTES) (a_resource_limits raw) in
  let? cgroups := try_map (capped_string_parser SHORT_FLAG_MAX_BYTES) (a_cgroups raw) in
  let? parent_cgroup := try_option (capped_string_parser PATH_FLAG_MAX_BYTES) (a_parent_cgroup raw) in
  let? version := capped_string_parser SHORT_FLAG_MAX_BYTES (a_cgroup_version raw) in
  let? netns := try_option capped_path_parser (a_netns raw) in
  let? argv := try_map (capped_string_parser CHILD_ARG_MAX_BYTES) (a_passthrough_argv raw) in
  Ok (mkArgs id exec_file (a_uid raw) (a_gid raw) base (a_daemonize raw) (a_new_pid_ns raw) limits cgroups
        parent_cgroup version netns (a_macos_sandbox_profile raw) (a_level raw) argv).

Definition validate_passthrough_argv_total (args : Args) : result (list Z) unit :=
  let total := foldr Z.add 0 (map zlen (a_passthrough_argv args)) in
  if CHILD_ARG_TOTAL_MAX_BYTES <? total then
    Err (lit "passthrough argv totals " ++ decimal total ++ lit " bytes; max " ++ decimal CHILD_ARG_TOTAL_MAX_BYTES)
  else Ok tt.

(** ** [resource.rs] *)

Inductive ResourceKind := RLIMIT_FSIZE | RLIMIT_NOFILE.

Record ResourceLimit := mkLimit { l_key : list Z; l_resource : ResourceKind; l_value : Z }.

(** [str::split_once]. *)
Fixpoint split_once (c : Z) (s : list Z) : option (list Z * list Z) :=
  match s with
  | [] => None
  | x :: s' =>
      if x =? c then Some ([], s')
      else match split_once c s' with Some (a, b) => Some (x :: a, b) | None => None end
  end.

Definition ResourceLimit_parse (spec : list Z) : result JailerError ResourceLimit :=
  match split_once 61 (default [] (from_utf8 spec)) with
  | None => Err (InvalidResourceLimit spec)
  | Some (key_raw, value_raw) =>
      let key := trim key_raw in
      match parse_uint 64 (trim value_raw) with
      | None => Err (InvalidResourceLimit spec)
      | Some value =>
          if decide (key = lit "fsize") then Ok (mkLimit (lit "fsize") RLIMIT_FSIZE value)
          else if decide (key = lit "no-file") then Ok (mkLimit (lit "no-file") RLIMIT_NOFILE value)
          else Err (UnsupportedResource (to_string key))
      end
  end.

Definition parse_all (specs : list (list Z)) : result JailerError (list ResourceLimit) :=
  try_map ResourceLimit_parse specs.

(** ** The host *)

Record Credentials := mkCred {
  c_ruid : Z; c_euid : Z; c_suid : Z; c_rgid : Z; c_egid : Z; c_sgid : Z; c_groups : list Z
}.

Inductive Stream := Inherited | DevNull.

(** What [execve] was given. *)
Record Program := mkProgram { x_path : list Z; x_argv : list (list Z); x_env : list (list Z) }.

(** Soft and hard limit of each resource. *)
Record Limits := mkLimits { lim_fsize : option (Z * Z); lim_nofile : option (Z * Z) }.

Definition set_limit (r : ResourceKind) (v : Z * Z) (l : Limits) : Limits :=
  match r with
  | RLIMIT_FSIZE => mkLimits (Some v) (lim_nofile l)
  | RLIMIT_NOFILE => mkLimits (lim_fsize l) (Some v)
  end.

Record Process := mkProcess {
  p_cred : Credentials;
  p_root : option (list Z);
  p_cwd : list Z;
  p_limits : Limits;
  p_stdio : list (option Stream);
  p_group_leader : bool;
  p_session_leader : bool;
  p_sandbox : option (list Z);
  p_program : option Program;
  p_parents : list Z
}.

Record Kernel := mkKernel {
  k_modes : gmap nat Z;
  k_dir_modes : gmap (list Z) Z;
  k_umask : Z;
  k_process : Process
}.

Definition HostState : Type := Disk * Kernel.

Definition proc (h : HostState) : Process := k_process h.2.

Definition set_proc (p : Process) (h : HostState) : HostState :=
  (h.1, mkKernel (k_modes h.2) (k_dir_modes h.2) (k_umask h.2) p).

Definition EPERM : IoError := mkIoError 1.
Definition EACCES : IoError := mkIoError 13.
Definition EEXIST : IoError := mkIoError 17.
Definition ELOOP : IoError := mkIoError 62.
Definition OTHER : IoError := mkIoError (-4).

Definition S_IFMT : Z := 0xF000.
Definition S_IFREG : Z := 0x8000.
Definition S_IFDIR : Z := 0x4000.
Definition S_IFLNK : Z := 0xA000.

Class JailHost := {
  realpath : HostState -> list Z -> result IoError (list Z);
  link_target : HostState -> list Z -> result IoError (list Z);
  profile_text : SandboxProfile -> list Z;
  sandbox_error : IoError -> option (list Z)
}.

Section jail.
Context {JH : JailHost}.
Local Abbreviation os := (prog HostState IoError).

(** A system call: the script may fail it. *)
Definition call {A} (act : HostState -> HostState * result IoError A) : os A :=
  fun h =>
  let (d, o) := next_outcome h.1 in
  match o with
  | Fails e => Some ((d, h.2), Err e)
  | _ => Some (act (d, h.2))
  end.

(** A call on the process alone. *)
Definition on_process (act : Process -> result IoError Process) : os unit :=
  call (fun h => match act (proc h) with Ok p => (set_proc p h, Ok tt) | Err e => (h, Err e) end).

(** ** Files *)

Definition is_dir_name (d : Disk) (path : list Z) : bool := bool_decide (is_Some (dk_dirs d !! path)).

(** The entry's [st_mode]. *)
Definition st_mode (h : HostState) (path : list Z) : option Z :=
  if is_dir_name h.1 path then Some (Z.lor S_IFDIR (default 0 (k_dir_modes h.2 !! path)))
  else i ← im_dir (dk_now h.1) !! path; Some (default 0 (k_modes h.2 !! i)).

Definition has_type (t mode : Z) : bool := Z.land mode S_IFMT =? t.

Definition is_link (h : HostState) (path : list Z) : bool := from_option (has_type S_IFLNK) false (st_mode h path).

(** The name a path leads to when its last component may be a link. *)
Definition follow (h : HostState) (path : list Z) : result IoError (list Z) :=
  if is_link h path then link_target h path else Ok path.

Definition sys_stat (path : list Z) : os Z :=
  call (fun h => (h, let? p := follow h path in match st_mode h p with Some m => Ok m | None => Err ENOENT end)).

Definition sys_realpath (path : list Z) : os (list Z) := call (fun h => (h, realpath h path)).

Definition sys_mkdir (path : list Z) : os unit :=
  call (fun h =>
    let (d, k) := h in
    if is_dir_name d path || bool_decide (is_Some (im_dir (dk_now d) !! path)) then (h, Err EEXIST)
    else match dk_dirs d !! dir_of path with
         | None => (h, Err ENOENT)
         | Some up =>
             ((mkDisk (dk_now d) (dk_past d) (<[path := mkDirMeta (dm_dev up) 0]> (dk_dirs d)) (dk_fds d) (dk_script d),
               mkKernel (k_modes k) (<[path := Z.land 0x1FF (wnot 16 (k_umask k))]> (k_dir_modes k)) (k_umask k) (k_process k)),
              Ok tt)
         end).

Definition sys_chmod (path : list Z) (mode : Z) : os unit :=
  call (fun h =>
    match follow h path with
    | Err e => (h, Err e)
    | Ok path =>
        let (d, k) := h in
        if is_dir_name d path
        then ((d, mkKernel (k_modes k) (<[path := mode]> (k_dir_modes k)) (k_umask k) (k_process k)), Ok tt)
        else match im_dir (dk_now d) !! path with
             | None => (h, Err ENOENT)
             | Some i =>
                 let m := default 0 (k_modes k !! i) in
                 ((d, mkKernel (<[i := Z.lor (Z.land m S_IFMT) mode]> (k_modes k)) (k_dir_modes k) (k_umask k) (k_process k)),
                  Ok tt)
             end
    end).

(** An open file, or an open directory. *)
Inductive Opened := OpenDir (path : list Z) | OpenFile (fd : nat).

(** [open(path, O_RDONLY | O_NOFOLLOW | O_CLOEXEC)]. *)
Definition open_nofollow (path : list Z) : os Opened :=
  call (fun h =>
    if is_dir_name h.1 path then (h, Ok (OpenDir path))
    else if is_link h path then (h, Err ELOOP)
    else match im_dir (dk_now h.1) !! path with
         | None => (h, Err ENOENT)
         | Some i => ((set_fds (dk_fds h.1 ++ [mkFd i 0]) h.1, h.2), Ok (OpenFile (length (dk_fds h.1))))
         end).

Definition sys_fstat (o : Opened) : os Z :=
  call (fun h =>
    (h, match o with
        | OpenDir path => Ok (Z.lor S_IFDIR (default 0 (k_dir_modes h.2 !! path)))
        | OpenFile fd => match dk_fds h.1 !! fd with
                         | Some f => Ok (default 0 (k_modes h.2 !! fd_ino f))
                         | None => Err EBADF
                         end
        end)).

(** [File::create]: a new file gets mode [0o666] without the bits of the umask, an old
    one is emptied and keeps its mode. *)
Definition file_create (path : list Z) : os nat :=
  fun h =>
  match follow h path with
  | Err e => Some (h, Err e)
  | Ok path =>
      match open_truncate path h.1 with
      | None => None
      | Some (d, Err e) => Some ((d, h.2), Err e)
      | Some (d, Ok fd) =>
          let k := h.2 in
          let modes :=
            match im_dir (dk_now h.1) !! path, im_dir (dk_now d) !! path with
            | None, Some i => <[i := Z.lor S_IFREG (Z.land 0x1B6 (wnot 16 (k_umask k)))]> (k_modes k)
            | _, _ => k_modes k
            end in
          Some ((d, mkKernel modes (k_dir_modes k) (k_umask k) (k_process k)), Ok fd)
      end
  end.

(** [read(2)] into a buffer of [len] bytes. *)
Definition sys_read (fd : nat) (len : nat) : prog Disk IoError (list Z) :=
  fun d =>
    let (d, o) := next_outcome d in
    match o with
    | Fails e => Some (d, Err e)
    | _ =>
        let n := match o with Takes k => Nat.max 1 (Nat.min k len) | _ => len end in
        Some (on_fd fd (fun f file d =>
          let bs := take n (drop (Z.to_nat (fd_pos f)) (f_bytes file)) in
          (set_pos fd f (fd_pos f + zlen bs) d, Ok bs)) d)
    end.

(** One round of [io::copy] through its 8 KiB buffer. *)
Definition copy_round (src dst : nat) (copied : Z) : prog Disk IoError (Z + Z) :=
  fun d =>
  match sys_read src (Z.to_nat 8192) d with
  | None => None
  | Some (d, Err e) => if decide (e = EINTR) then Some (d, Ok (inl copied)) else Some (d, Err e)
  | Some (d, Ok []) => Some (d, Ok (inr copied))
  | Some (d, Ok bs) => (let* _ := write_all id (write dst) bs in p_ret (inl (copied + zlen bs))) d
  end.

(** Every round takes a byte of the source or uses up an entry of the script. *)
Definition io_copy (src dst : nat) : prog Disk IoError Z :=
  fun d =>
  let len := from_option (fun f => zlen (f_bytes f)) 0 (dk_fds d !! src ≫= fun f => im_inodes (dk_now d) !! fd_ino f) in
  p_loop (rounds (len + zlen (dk_script d) + 1)) (copy_round src dst) 0 d.

(** A [mkdir] that failed is forgiven when the directory is there. *)
Definition unless_dir (path : list Z) (e : IoError) : os unit :=
  fun h =>
  match sys_stat path h with
  | Some (h, Ok m) => Some (h, if has_type S_IFDIR m then Ok tt else Err e)
  | Some (h, Err _) => Some (h, Err e)
  | None => None
  end.

(** [fs::create_dir_all]; the parent of a path is shorter. *)
Fixpoint create_dir_all (fuel : nat) (path : list Z) : os unit :=
  match fuel with
  | O => fun _ => None
  | S fuel' =>
      if is_empty path then p_ret tt
      else fun h =>
        match sys_mkdir path h with
        | None => None
        | Some (h, Ok _) => Some (h, Ok tt)
        | Some (h, Err e) =>
            if decide (e = ENOENT) then
              (let* _ := match parent path with
                         | Some p => create_dir_all fuel' p
                         | None => p_fail OTHER
                         end in
               fun h => match sys_mkdir path h with
                        | Some (h, Err e) => unless_dir path e h
                        | other => other
                        end) h
            else unless_dir path e h
        end
  end.

(** ** How control leaves the jailer *)

Inductive Leave := Raise (e : JailerError) | Replaced.

Local Abbreviation jail := (prog HostState Leave).

Definition or_raise {A} (f : IoError -> JailerError) (c : os A) : jail A := p_map_err (fun e => Raise (f e)) c.

Definition j_lift {A} (r : result JailerError A) : jail A := p_lift (map_err Raise r).

(** ** [env.rs] *)

Definition MAX_ID_BYTES : Z := 64.

Record JailerEnv := mkEnv {
  e_exec_file_host : list Z;
  e_exec_file_basename : list Z;
  e_chroot_dir : list Z;
  e_uid : Z;
  e_gid : Z;
  e_resource_limits : list ResourceLimit;
  e_daemonize : bool;
  e_sandbox_profile : option SandboxProfile;
  e_child_argv : list (list Z)
}.

Definition validate_id (raw : list Z) : result JailerError (list Z) :=
  if is_empty raw then Err (InvalidInstanceId (lit "empty"))
  else if MAX_ID_BYTES <? zlen raw then
    Err (InvalidInstanceId (lit "id is " ++ decimal (zlen raw) ++ lit " bytes; max " ++ decimal MAX_ID_BYTES))
  else if negb (forallb (fun b => is_ascii_alphanumeric b || (b =? 95) || (b =? 45)) raw)
  then Err (InvalidInstanceId raw)
  else Ok raw.

Definition canonicalize_exec_file (path : list Z) : jail (list Z) :=
  let* canonical := or_raise (Canonicalize path) (sys_realpath path) in
  let* meta := or_raise (Canonicalize canonical) (sys_stat canonical) in
  if has_type S_IFREG meta then p_ret canonical else p_fail (Raise (ExecFileNotRegular canonical)).

Definition compose_chroot_dir (base id : list Z) : list Z :=
  path_push (path_push (path_push base (lit "firecracker")) id) (lit "root").

Definition from_args (args : Args) : jail JailerEnv :=
  let* id := j_lift (validate_id (a_id args)) in
  let* resource_limits := j_lift (parse_all (a_resource_limits args)) in
  let* exec_file_host := canonicalize_exec_file (a_exec_file args) in
  match file_name exec_file_host with
  | Some (_, n) =>
      match from_utf8 n with
      | Some _ =>
          p_ret (mkEnv exec_file_host n (compose_chroot_dir (a_chroot_base_dir args) id) (a_uid args) (a_gid args)
                   resource_limits (a_daemonize args) (a_macos_sandbox_profile args) (a_passthrough_argv args))
      | None => p_fail (Raise (ExecFileNotRegular exec_file_host))
      end
  | None => p_fail (Raise (ExecFileNotRegular exec_file_host))
  end.

Definition exec_file_in_chroot (env : JailerEnv) : list Z := path_push [SLASH] (e_exec_file_basename env).

(** [CString::new]. *)
Definition cstring (bytes : list Z) : result JailerError (list Z) :=
  if contains_nul bytes then Err (PathContainsNul bytes) else Ok bytes.

Definition build_argv (env : JailerEnv) : result JailerError (list (list Z)) :=
  let? argv0 := cstring (exec_file_in_chroot env) in
  let? rest := try_map cstring (e_child_argv env) in
  Ok (argv0 :: rest).

Definition copy_via_nofollow (src dst : list Z) : os Z :=
  if contains_nul src then p_fail INVALID_INPUT
  else
    let* owned := open_nofollow src in
    let* mode := sys_fstat owned in
    match owned with
    | OpenFile fd =>
        if has_type S_IFREG mode then let* dst_file := file_create dst in p_zoom (io_copy fd dst_file)
        else p_fail INVALID_INPUT
    | OpenDir _ => p_fail INVALID_INPUT
    end.

Definition staged_path (env : JailerEnv) : list Z := path_push (e_chroot_dir env) (e_exec_file_basename env).

Definition stage (env : JailerEnv) : jail unit :=
  let dir := e_chroot_dir env in
  let* _ := or_raise (CreateChroot dir) (create_dir_all (S (length dir)) dir) in
  let* _ := or_raise (CreateChroot dir) (sys_chmod dir 0x1ED) in
  let dst := staged_path env in
  let* _ := or_raise (StageExecFile (e_exec_file_host env) dst) (copy_via_nofollow (e_exec_file_host env) dst) in
  p_ret tt.

(** ** [sequence.rs] *)

Definition with_cred (c : Credentials) (p : Process) : Process :=
  mkProcess c (p_root p) (p_cwd p) (p_limits p) (p_stdio p) (p_group_leader p) (p_session_leader p) (p_sandbox p)
    (p_program p) (p_parents p).

Definition with_limits (l : Limits) (p : Process) : Process :=
  mkProcess (p_cred p) (p_root p) (p_cwd p) l (p_stdio p) (p_group_leader p) (p_session_leader p) (p_sandbox p)
    (p_program p) (p_parents p).

Definition with_stdio (s : list (option Stream)) (p : Process) : Process :=
  mkProcess (p_cred p) (p_root p) (p_cwd p) (p_limits p) s (p_group_leader p) (p_session_leader p) (p_sandbox p)
    (p_program p) (p_parents p).

Definition with_session (leader : bool) (parents : list Z) (p : Process) : Process :=
  mkProcess (p_cred p) (p_root p) (p_cwd p) (p_limits p) (p_stdio p) leader leader (p_sandbox p) (p_program p) parents.

Definition with_dirs (root : option (list Z)) (cwd : list Z) (p : Process) : Process :=
  mkProcess (p_cred p) root cwd (p_limits p) (p_stdio p) (p_group_leader p) (p_session_leader p) (p_sandbox p)
    (p_program p) (p_parents p).

Definition with_sandbox (s : list Z) (p : Process) : Process :=
  mkProcess (p_cred p) (p_root p) (p_cwd p) (p_limits p) (p_stdio p) (p_group_leader p) (p_session_leader p) (Some s)
    (p_program p) (p_parents p).

Definition with_program (x : Program) (p : Process) : Process :=
  mkProcess (p_cred p) (p_root p) (p_cwd p) (p_limits p) (p_stdio p) (p_group_leader p) (p_session_leader p) (p_sandbox p)
    (Some x) (p_parents p).

(** [ResourceLimit::apply]: one value as soft and hard limit. *)
Definition apply_limit (l : ResourceLimit) : jail unit :=
  or_raise (Setrlimit (l_key l))
    (on_process (fun p => Ok (with_limits (set_limit (l_resource l) (l_value l, l_value l) (p_limits p)) p))).

Fixpoint apply_resource_limits (ls : list ResourceLimit) : jail unit :=
  match ls with
  | [] => p_ret tt
  | l :: ls' => let* _ := apply_limit l in apply_resource_limits ls'
  end.

(** The parent exits with status 0; what goes on is the child, which leads neither its
    process group nor its session. *)
Definition fork_or_exit_parent : jail unit :=
  or_raise Setsid (on_process (fun p => Ok (with_session false (p_parents p ++ [0]) p))).

Definition setsid : jail unit :=
  or_raise Setsid (on_process (fun p => if p_group_leader p then Err EPERM else Ok (with_session true (p_parents p) p))).

(** The lowest free descriptor: a closed standard stream, or one above them. *)
Fixpoint lowest_free (fds : list (option Stream)) : nat :=
  match fds with
  | [] => 0
  | None :: _ => 0
  | Some _ :: fds' => S (lowest_free fds')
  end.

(** [open("/dev/null")]; the descriptor is the lowest free one. *)
Definition open_dev_null : os unit :=
  on_process (fun p => Ok (with_stdio (<[lowest_free (p_stdio p) := Some DevNull]> (p_stdio p)) p)).

Definition dup2 (target : nat) : os unit :=
  on_process (fun p => Ok (with_stdio (<[target := Some DevNull]> (p_stdio p)) p)).

Fixpoint dup_all (targets : list nat) : jail unit :=
  match targets with
  | [] => p_ret tt
  | t :: ts => let* _ := or_raise RedirectStdio (dup2 t) in dup_all ts
  end.

(** A descriptor above the standard streams is closed again, which [p_stdio] does not show. *)
Definition redirect_stdio_to_dev_null : jail unit :=
  let* _ := or_raise OpenDevNull open_dev_null in
  dup_all [0; 1; 2]%nat.

Definition daemonize : jail unit :=
  let* _ := fork_or_exit_parent in
  let* _ := setsid in
  let* _ := fork_or_exit_parent in
  redirect_stdio_to_dev_null.

(** [chroot(2)] is for the superuser. *)
Definition sys_chroot (path : list Z) : os unit :=
  call (fun h =>
    let p := proc h in
    if negb (c_euid (p_cred p) =? 0) then (h, Err EPERM)
    else match follow h path with
         | Err e => (h, Err e)
         | Ok dir => if is_dir_name h.1 dir then (set_proc (with_dirs (Some dir) (p_cwd p) p) h, Ok tt) else (h, Err ENOENT)
         end).

Definition chroot (path : list Z) : jail unit :=
  if negb (bool_decide (is_Some (from_utf8 path))) || contains_nul path then p_fail (Raise (PathContainsNul path))
  else
    let* _ := or_raise (Chroot path) (sys_chroot path) in
    or_raise ChdirRoot (on_process (fun p => Ok (with_dirs (p_root p) [SLASH] p))).

(** The superuser sets all three ids, others only the effective one to the real or the
    saved one. *)
Definition setgid (gid : Z) : jail unit :=
  or_raise (Setgid gid) (on_process (fun p =>
    let c := p_cred p in
    if c_euid c =? 0 then Ok (with_cred (mkCred (c_ruid c) (c_euid c) (c_suid c) gid gid gid (c_groups c)) p)
    else if (gid =? c_rgid c) || (gid =? c_sgid c)
    then Ok (with_cred (mkCred (c_ruid c) (c_euid c) (c_suid c) (c_rgid c) gid (c_sgid c) (c_groups c)) p)
    else Err EPERM)).

Definition setuid (uid : Z) : jail unit :=
  or_raise (Setuid uid) (on_process (fun p =>
    let c := p_cred p in
    if c_euid c =? 0 then Ok (with_cred (mkCred uid uid uid (c_rgid c) (c_egid c) (c_sgid c) (c_groups c)) p)
    else if (uid =? c_ruid c) || (uid =? c_suid c)
    then Ok (with_cred (mkCred (c_ruid c) uid (c_suid c) (c_rgid c) (c_egid c) (c_sgid c) (c_groups c)) p)
    else Err EPERM)).

(** [sandbox::apply_profile]: a message of the library is passed on. *)
Definition apply_profile (profile : SandboxProfile) : jail unit :=
  let body := profile_text profile in
  if contains_nul body then p_fail (Raise (SandboxInit (lit "profile body contains a NUL byte")))
  else or_raise (fun e => SandboxInit (default (lit "unknown sandbox_init error") (sandbox_error e)))
         (on_process (fun p => Ok (with_sandbox body p))).

Definition curated_envp : list (list Z) :=
  [lit "PATH=/usr/local/bin:/usr/bin:/bin:/usr/sbin:/sbin"; lit "LANG=C"; lit "LC_ALL=C"].

(** A name inside the root. *)
Definition rooted (root : option (list Z)) (path : list Z) : list Z :=
  match root with Some r => path_push r (drop 1 path) | None => path end.

(** [execve(2)]: a regular file with an execute bit.  Whether the bits that are set are
    the caller's is up to the script. *)
Definition execve (path : list Z) (argv envp : list (list Z)) : os unit :=
  call (fun h =>
    let p := proc h in
    match follow h (rooted (p_root p) path) with
    | Err e => (h, Err e)
    | Ok name =>
        match st_mode h name with
        | None => (h, Err ENOENT)
        | Some m =>
            if has_type S_IFREG m && negb (Z.land m 0x49 =? 0)
            then (set_proc (with_program (mkProgram path argv envp) p) h, Ok tt)
            else (h, Err EACCES)
        end
    end).

Definition exec (env : JailerEnv) (argv : list (list Z)) : jail unit :=
  match argv with
  | [] => p_fail (Raise (ExecFailed (exec_file_in_chroot env) OTHER))
  | argv0 :: _ =>
      let* _ := or_raise (ExecFailed (exec_file_in_chroot env)) (execve argv0 argv curated_envp) in
      p_fail Replaced
  end.

Definition run_sequence (env : JailerEnv) : jail unit :=
  let* _ := apply_resource_limits (e_resource_limits env) in
  let* _ := if e_daemonize env then daemonize else p_ret tt in
  let* _ := chroot (e_chroot_dir env) in
  let* _ := setgid (e_gid env) in
  let* _ := setuid (e_uid env) in
  let* _ := match e_sandbox_profile env with Some profile => apply_profile profile | None => p_ret tt end in
  let* argv := j_lift (build_argv env) in
  exec env argv.

(** ** [main.rs] *)

(** What other processes do to the files between validation and staging. *)
Definition interfere (others : HostState -> HostState) : jail unit :=
  fun h =>
  let h' := others h in
  Some ((h'.1, mkKernel (k_modes h'.2) (k_dir_modes h'.2) (k_umask h.2) (k_process h.2)), Ok tt).

Definition run_jail (others : HostState -> HostState) (args : Args) : jail unit :=
  let* env := from_args args in
  let* _ := interfere others in
  let* _ := stage env in
  run_sequence env.

Inductive Ended := Exit (code : Z) | Running.

(** The status the argument parser exits with. *)
Definition USAGE : Z := 2.

Definition jail_main (others : HostState -> HostState) (raw : Args) (h : HostState) : option (HostState * Ended) :=
  match parse_flags raw with
  | Err _ => Some (h, Exit USAGE)
  | Ok args =>
      match validate_passthrough_argv_total args with
      | Err _ => Some (h, Exit 1)
      | Ok _ =>
          match run_jail others args h with
          | None => None
          | Some (h, Ok _) => Some (h, Exit 0)
          | Some (h, Err (Raise e)) => Some (h, Exit (Z.max 1 (Z.min (exit_code e) 255)))
          | Some (h, Err Replaced) => Some (h, Running)
          end
      end
  end.

(** ** Calls *)

(** The same files and the same kernel; the script may be shorter. *)
Definition unmoved (h h' : HostState) : Prop := same_files h.1 h'.1 /\ h'.2 = h.2.

Lemma unmoved_refl h : unmoved h h.
Proof. done. Qed.

Lemma unmoved_trans a b c : unmoved a b -> unmoved b c -> unmoved a c.
Proof. intros [H1 H2] [K1 K2]. split; [by eapply same_files_trans|congruence]. Qed.

Lemma wp_call {A} (act : HostState -> HostState * result IoError A) Q h :
  (forall h1, unmoved h h1 -> (forall e, Q h1 (Err e)) /\ Q (act h1).1 (act h1).2) -> wp (call act) Q h.
Proof.
  intros H. unfold wp, call. destruct (next_outcome h.1) as [d1 o] eqn:Eo.
  assert (unmoved h (d1, h.2)) as Hs.
  { split; [|done]. unfold next_outcome in Eo. destruct (dk_script h.1); by injection Eo as <- <-. }
  destruct (H _ Hs) as [He Hok]. destruct o; [by destruct (act _)..|done].
Qed.

(** A call that only looks. *)
Lemma wp_look {A} (f : HostState -> result IoError A) h :
  wp (call (fun h => (h, f h))) (fun h' r => unmoved h h' /\ forall a, r = Ok a -> f h' = Ok a) h.
Proof. apply wp_call. intros h1 Hu. by split. Qed.

Lemma wp_process act Q h :
  (forall h1, unmoved h h1 -> (forall e, Q h1 (Err e)) /\ forall p, act (proc h) = Ok p -> Q (set_proc p h1) (Ok tt)) ->
  wp (on_process act) Q h.
Proof.
  intros H. apply wp_call. intros h1 Hu. destruct (H h1 Hu) as [He Hok]. split; [done|].
  unfold proc in *. rewrite (proj2 Hu). destruct (act (k_process h.2)); [by apply Hok|apply He].
Qed.

(** ** Validation *)

Definition id_ok (id : list Z) : Prop :=
  id <> [] /\ zlen id <= 64 /\ Forall (fun b => is_ascii_alphanumeric b = true \/ b = 95 \/ b = 45) id.

Lemma id_chars raw :
  forallb (fun b => is_ascii_alphanumeric b || (b =? 95) || (b =? 45)) raw = true <->
  Forall (fun b => is_ascii_alphanumeric b = true \/ b = 95 \/ b = 45) raw.
Proof.
  rewrite List.forallb_forall, List.Forall_forall. split; intros H x Hx; specialize (H x Hx).
  - apply orb_true_iff in H as [H|H]; [|apply Z.eqb_eq in H; by do 2 right].
    apply orb_true_iff in H as [H|H]; [by left|apply Z.eqb_eq in H; by right; left].
  - destruct H as [-> | [-> | ->]]; [done|by rewrite orb_true_r|by rewrite orb_true_r].
Qed.

Lemma validate_id_iff raw id : validate_id raw = Ok id <-> raw = id /\ id_ok raw.
Proof.
  unfold validate_id, id_ok. rewrite <- id_chars. destruct raw as [|c raw]; [split; [done|intros (_ & ? & _); done]|].
  cbn [is_empty]. change MAX_ID_BYTES with 64. destruct (Z.ltb_spec 64 (zlen (c :: raw))) as [Hl|Hl];
    [split; [done|]; intros (_ & _ & Hz & _); lia|].
  destruct (forallb _ (c :: raw)); cbn [negb].
  - split; [intros [= <-]; by split_and!|by intros [-> _]].
  - split; [done|by intros (_ & _ & _ & ?)].
Qed.

(** What the environment takes from the flags. *)
Record env_of (args : Args) (env : JailerEnv) : Prop := mkEnvOf {
  eo_id : id_ok (a_id args);
  eo_limits : parse_all (a_resource_limits args) = Ok (e_resource_limits env);
  eo_base : e_chroot_dir env = compose_chroot_dir (a_chroot_base_dir args) (a_id args);
  eo_name : exists before, file_name (e_exec_file_host env) = Some (before, e_exec_file_basename env);
  eo_ids : e_uid env = a_uid args /\ e_gid env = a_gid args;
  eo_rest : e_daemonize env = a_daemonize args /\ e_sandbox_profile env = a_macos_sandbox_profile args /\
    e_child_argv env = a_passthrough_argv args
}.

Lemma from_args_spec args h :
  wp (from_args args) (fun h' r => unmoved h h' /\
    match r with Ok env => env_of args env | Err Replaced => False | Err (Raise _) => True end) h.
Proof.
  unfold from_args. apply wp_bind, wp_lift. destruct (validate_id (a_id args)) as [id|e] eqn:Hid; [|done].
  apply validate_id_iff in Hid as [<- Hid]. cbn. apply wp_bind, wp_lift.
  destruct (parse_all _) as [ls|e] eqn:Hl; [|done]. cbn. apply wp_bind. unfold canonicalize_exec_file, or_raise.
  apply wp_bind, wp_map_err. eapply wp_mono; [apply (wp_look (fun h => realpath h _))|].
  intros h1 [c|e] [H1 _]; [|done]. cbn. apply wp_bind, wp_map_err. eapply wp_mono; [apply (wp_look (fun h => _))|].
  intros h2 [m|e] [H2 _]; [|split; [by eapply unmoved_trans|done]]. cbn.
  pose proof (unmoved_trans _ _ _ H1 H2) as H3. destruct (has_type S_IFREG m); [|by split].
  apply wp_ret. destruct (file_name c) as [[b n]|] eqn:Hn; [|by split]. destruct (from_utf8 n); [|by split].
  apply wp_ret. split; [done|]. split; cbn; [done|done|done|by exists b|done|done].
Qed.

(** ** Copying *)

(** Nothing but the inode [j] changed. *)
Record only_file (j : nat) (d d' : Disk) : Prop := mkOnlyFile {
  of_now : only_inode j (dk_now d) (dk_now d');
  of_dirs : dk_dirs d' = dk_dirs d
}.

Lemma only_file_refl j d : only_file j d d.
Proof. split; [apply only_inode_refl|done]. Qed.

Lemma only_file_trans j a b c : only_file j a b -> only_file j b c -> only_file j a c.
Proof. intros [H1 H2] [K1 K2]. split; [by eapply only_inode_trans|congruence]. Qed.

Lemma touches_only_file h j d d' : touches h j d d' -> only_file j d d'.
Proof. by intros []. Qed.

Lemma sys_read_spec {h i pos f d} len :
  (0 < len)%nat -> holds h i pos f d ->
  wp (sys_read h len) (fun d' r => (forall j, touches h j d d') /\
    match r with
    | Ok bs => (exists n, (0 < n)%nat /\ bs = take n (drop (Z.to_nat pos) (f_bytes f))) /\ holds h i (pos + zlen bs) f d'
    | Err _ => holds h i pos f d' /\ zlen (dk_script d') < zlen (dk_script d)
    end) d.
Proof.
  intros Hlen Hh. unfold wp, sys_read. destruct (next_outcome d) as [d1 o] eqn:Eo.
  pose proof (fun j => next_outcome_touches h j _ _ _ Eo) as Ht. pose proof (next_outcome_holds _ _ _ _ _ _ _ Eo Hh) as Hh1.
  destruct o as [|k|e]; [| |by split; [|split; [|eapply next_outcome_fails]]];
    rewrite (on_fd_holds _ _ _ _ _ _ Hh1); cbn [fd_pos];
    (split; [intros j; eapply touches_trans; [apply Ht|apply set_pos_touches]|]); (split; [eexists; split; [|done]; lia|by apply holds_set_pos]).
Qed.

(** The two descriptors of a copy under way. *)
Record copying (s i t j : nat) (c : list Z) (pos : nat) (d : Disk) : Prop := mkCopying {
  cy_pos : (pos <= length c)%nat;
  cy_src : contains s i (Z.of_nat pos) c d;
  cy_dst : contains t j (Z.of_nat pos) (take pos c) d
}.

Lemma contains_touches s i pos c h j d d' :
  s <> h -> i <> j -> touches h j d d' -> contains s i pos c d -> contains s i pos c d'.
Proof.
  intros Hs Hi [(_ & _ & Hj) _ _ [_ Hk] _] [b [Hf Hx]]. exists b. split; [by rewrite Hk|by rewrite Hj].
Qed.

Lemma take_length_take (l : list Z) n : take (length (take n l)) l = take n l.
Proof. revert n. induction l as [|x l IH]; intros [|n]; cbn; [done..|]. by rewrite IH. Qed.

Lemma take_next (c : list Z) pos n :
  take (pos + length (take n (drop pos c))) c = take pos c ++ take n (drop pos c).
Proof.
  revert pos. induction c as [|x c IH]; intros [|pos]; cbn [drop take plus app]; [|by rewrite !take_nil| |by rewrite IH];
    apply take_length_take.
Qed.

Lemma copy_round_distinct s i t j c pos d copied :
  s <> t -> i <> j -> copying s i t j c pos d ->
  wp (copy_round s t copied) (fun d' r => only_file j d d' /\
    match r with
    | Ok (inl _) => exists pos', copying s i t j c pos' d' /\
        zlen c - Z.of_nat pos' + zlen (dk_script d') < zlen c - Z.of_nat pos + zlen (dk_script d)
    | Ok (inr _) => copying s i t j c (length c) d'
    | Err _ => True
    end) d.
Proof.
  intros Hst Hij [Hp [b Hs] Hd]. unfold wp, copy_round.
  pose proof (sys_read_spec (Z.to_nat 8192) ltac:(lia) Hs) as Hr. unfold wp in Hr.
  destruct (sys_read s (Z.to_nat 8192) d) as [[d1 r]|]; [|done]. destruct Hr as [Ht Hr].
  pose proof (touches_only_file _ _ _ _ (Ht j)) as Ho.
  assert (contains t j (Z.of_nat pos) (take pos c) d1) as Hd1 by (eapply contains_touches, Hd; [done..|apply (Ht i)]).
  destruct r as [bs|e].
  - destruct Hr as [(n & Hn & Hbs) Hh]. cbn [f_bytes] in Hbs. rewrite Nat2Z.id in Hbs. destruct bs as [|x bs].
    + assert (pos = length c) as ->.
      { symmetry in Hbs. apply (f_equal length) in Hbs. rewrite length_take, length_drop in Hbs. cbn in Hbs. lia. }
      split; [done|]. unfold zlen in Hh. cbn in Hh. rewrite Z.add_0_r in Hh. split; [done|by exists b|done].
    + set (buf := x :: bs) in *. assert (Hl : (pos + length buf <= length c)%nat).
      { rewrite Hbs, length_take, length_drop. lia. }
      apply wp_bind. eapply wp_mono; [apply (write_all_fd_spec buf Hd1); lia|].
      intros d2 [[]|e] [Ht2 Hr2]; (split; [eapply only_file_trans, touches_only_file, Ht2; done|]); [|done].
      exists (pos + length buf)%nat. split.
      * split; [done| |].
        -- eapply contains_touches; [done..|exact Ht2|]. exists b. unfold zlen in Hh. by rewrite Nat2Z.inj_add.
        -- unfold zlen in Hr2. rewrite <- Nat2Z.inj_add, Nat2Z.id in Hr2.
           replace (patch (take pos c) pos buf) with (take (pos + length buf) c) in Hr2; [done|].
           pose proof (patch_end (take pos c) buf) as He. rewrite length_take, Nat.min_l in He by done. rewrite He, Hbs. apply take_next.
      * pose proof (to_script _ _ _ _ Ht2). pose proof (to_script _ _ _ _ (Ht j)). subst buf. cbn [length]. lia.
  - destruct Hr as [Hh Hsc]. destruct (decide (e = EINTR)); (split; [done|]); [|done].
    exists pos. split; [|lia]. split; [done|by exists b|done].
Qed.

(** [io::copy] returns; when it succeeds an empty file has become a copy of the source. *)
Lemma io_copy_distinct s i t j c d :
  s <> t -> i <> j -> copying s i t j c 0 d ->
  wp (io_copy s t) (fun d' r => only_file j d d' /\
    match r with Ok _ => copying s i t j c (length c) d' | Err _ => True end) d.
Proof.
  intros Hst Hij Hc. pose proof (cy_src _ _ _ _ _ _ _ Hc) as [b [Hf Hx]].
  change (wp (p_loop (rounds (from_option (fun f => zlen (f_bytes f)) 0 (dk_fds d !! s ≫= fun f => im_inodes (dk_now d) !! fd_ino f)
            + zlen (dk_script d) + 1)) (copy_round s t) 0)
    (fun d' r => only_file j d d' /\ match r with Ok _ => copying s i t j c (length c) d' | Err _ => True end) d).
  rewrite Hf. cbn [mbind option_bind fd_ino]. rewrite Hx. cbn [from_option f_bytes].
  apply (wp_loop (fun _ d' => only_file j d d' /\ exists pos, copying s i t j c pos d')
           (fun _ d' => from_option (fun f => zlen c - fd_pos f) 0 (dk_fds d' !! s) + zlen (dk_script d'))).
  - intros copied d1 (Ho & pos & Hc1). pose proof (cy_src _ _ _ _ _ _ _ Hc1) as [b1 [Hf1 _]]. rewrite Hf1. cbn [from_option fd_pos].
    pose proof (cy_pos _ _ _ _ _ _ _ Hc1). split; [unfold zlen in *; lia|].
    eapply wp_mono; [by apply (copy_round_distinct s i t j c pos)|].
    intros d2 [[n|n]|e] [Ho2 Hr]; [|by split; [eapply only_file_trans|]..].
    destruct Hr as (pos' & Hc2 & Hm). pose proof (cy_src _ _ _ _ _ _ _ Hc2) as [b2 [Hf2 _]]. rewrite Hf2.
    split; [|done]. split; [by eapply only_file_trans|by exists pos'].
  - split; [apply only_file_refl|by exists 0%nat].
  - rewrite Hf. cbn [from_option fd_pos].
    pose proof (rounds_spec (zlen c + zlen (dk_script d) + 1) ltac:(unfold zlen; lia)). lia.
Qed.

(** A file copied onto itself was emptied first. *)
Lemma io_copy_same s i t d :
  contains s i 0 [] d -> wp (io_copy s t) (fun d' r => only_file i d d' /\
    match r with Ok _ => contains s i 0 [] d' | Err _ => True end) d.
Proof.
  intros Hc. pose proof Hc as [b [Hf Hx]].
  change (wp (p_loop (rounds (from_option (fun f => zlen (f_bytes f)) 0 (dk_fds d !! s ≫= fun f => im_inodes (dk_now d) !! fd_ino f)
            + zlen (dk_script d) + 1)) (copy_round s t) 0)
    (fun d' r => only_file i d d' /\ match r with Ok _ => contains s i 0 [] d' | Err _ => True end) d).
  rewrite Hf. cbn [mbind option_bind fd_ino]. rewrite Hx. cbn [from_option f_bytes].
  apply (wp_loop (fun _ d' => only_file i d d' /\ contains s i 0 [] d') (fun _ d' => zlen (dk_script d'))).
  - intros copied d1 (Ho & b1 & H1). split; [unfold zlen; lia|]. unfold wp, copy_round.
    pose proof (sys_read_spec (Z.to_nat 8192) ltac:(lia) H1) as Hr. unfold wp in Hr.
    destruct (sys_read s (Z.to_nat 8192) d1) as [[d2 r]|]; [|done]. destruct Hr as [Ht Hr].
    pose proof (only_file_trans _ _ _ _ Ho (touches_only_file _ _ _ _ (Ht i))) as Ho2. destruct r as [bs|e].
    + destruct Hr as [(n & _ & ->) Hh]. cbn [f_bytes] in *. rewrite drop_nil, take_nil in *. split; [done|by exists b1].
    + destruct Hr as [Hh Hsc]. destruct (decide (e = EINTR)); [|done]. split; [split; [done|by exists b1]|done].
  - split; [apply only_file_refl|done].
  - pose proof (rounds_spec (zlen (@nil Z) + zlen (dk_script d) + 1) ltac:(unfold zlen; lia)). unfold zlen in *. cbn in *. lia.
Qed.

(** ** Directories and modes *)

(** Only directories whose names have at most [n] bytes were made. *)
Record dirs_only (n : nat) (h h' : HostState) : Prop := mkDirsOnly {
  do_now : dk_now h'.1 = dk_now h.1;
  do_dirs : forall p, (n < length p)%nat -> dk_dirs h'.1 !! p = dk_dirs h.1 !! p;
  do_modes : k_modes h'.2 = k_modes h.2;
  do_long : forall p, (n < length p)%nat -> k_dir_modes h'.2 !! p = k_dir_modes h.2 !! p;
  do_umask : k_umask h'.2 = k_umask h.2;
  do_proc : proc h' = proc h
}.

Lemma unmoved_dirs n h h' : unmoved h h' -> dirs_only n h h'.
Proof. intros [[Hn _ Hd _] Hk]. split; [done|intros; by rewrite Hd|by rewrite Hk|intros; by rewrite Hk|by rewrite Hk|unfold proc; by rewrite Hk]. Qed.

Lemma dirs_only_trans n a b c : dirs_only n a b -> dirs_only n b c -> dirs_only n a c.
Proof.
  intros [A1 A2 A3 A4 A5 A6] [B1 B2 B3 B4 B5 B6]. split; try congruence.
  - intros p Hp. by rewrite B2, A2.
  - intros p Hp. by rewrite B4, A4.
Qed.

Lemma dirs_only_mono n m h h' : (n <= m)%nat -> dirs_only n h h' -> dirs_only m h h'.
Proof. intros Hl [A1 A2 A3 A4 A5 A6]. split; try done; intros p Hp; [apply A2|apply A4]; lia. Qed.

Lemma dirs_only_mode n h h' p : dirs_only n h h' -> (n < length p)%nat -> st_mode h' p = st_mode h p.
Proof. intros [A1 A2 A3 A4 _ _] Hp. unfold st_mode, is_dir_name. by rewrite A1, A2, A3, A4. Qed.

Lemma mkdir_spec path h : wp (sys_mkdir path) (fun h' _ => dirs_only (length path) h h') h.
Proof.
  apply wp_call. intros h1 Hu. pose proof (unmoved_dirs (length path) _ _ Hu) as Hd. split; [done|].
  destruct h1 as [d k]. case_match; [done|]. case_match; [|done]. eapply dirs_only_trans; [exact Hd|].
  split; cbn; [done| |done| |done|done]; intros p Hp; rewrite lookup_insert_ne; [done| |done|]; intros <-; lia.
Qed.

Lemma stat_spec path h : wp (sys_stat path) (fun h' _ => unmoved h h') h.
Proof. eapply wp_mono; [apply wp_look|]. by intros h' r [? _]. Qed.

Lemma unless_dir_spec path e h : wp (unless_dir path e) (fun h' _ => dirs_only (length path) h h') h.
Proof.
  unfold wp, unless_dir. pose proof (stat_spec path h) as Hs. unfold wp in Hs.
  destruct (sys_stat path h) as [[h1 [m|e']]|]; [by apply unmoved_dirs..|done].
Qed.

Lemma create_dir_all_spec fuel path h :
  (length path < fuel)%nat -> wp (create_dir_all fuel path) (fun h' _ => dirs_only (length path) h h') h.
Proof.
  revert path h. induction fuel as [|fuel IH]; intros path h Hf; [lia|]. cbn [create_dir_all].
  destruct (is_empty path); [apply wp_ret, unmoved_dirs, unmoved_refl|].
  unfold wp at 1. pose proof (mkdir_spec path h) as Hm. unfold wp in Hm.
  destruct (sys_mkdir path h) as [[h1 [[]|e]]|]; [done| |done].
  assert (Hthen : forall e, wp (unless_dir path e) (fun h' _ => dirs_only (length path) h h') h1).
  { intros e'. eapply wp_mono; [apply unless_dir_spec|]. intros h2 r2 H2. by eapply dirs_only_trans. }
  destruct (decide (e = ENOENT)); [|apply Hthen].
  apply wp_bind. destruct (parent path) as [up|] eqn:Hp; [|done]. pose proof (parent_shorter _ _ Hp) as Hs.
  eapply wp_mono; [apply IH; lia|]. intros h2 r H2. apply (dirs_only_mono _ (length path)) in H2; [|lia].
  pose proof (dirs_only_trans _ _ _ _ Hm H2) as H3. destruct r as [[]|e']; [|done].
  unfold wp at 1. pose proof (mkdir_spec path h2) as Hm2. unfold wp in Hm2.
  destruct (sys_mkdir path h2) as [[h4 [[]|e']]|]; [by eapply dirs_only_trans| |done].
  pose proof (unless_dir_spec path e' h4) as Hd. unfold wp in Hd. destruct (unless_dir path e' h4) as [[h5 r5]|]; [|done].
  eapply dirs_only_trans; [exact H3|]. by eapply dirs_only_trans.
Qed.

Lemma dir_not_link x : has_type S_IFLNK (Z.lor S_IFDIR x) = false.
Proof.
  apply Z.eqb_neq. intros H. apply (f_equal (fun z => Z.testbit z 14)) in H.
  rewrite Z.land_spec, Z.lor_spec in H. done.
Qed.

Lemma same_files_link h d : same_files h.1 d -> forall p, is_link (d, h.2) p = is_link h p.
Proof. intros [Hn _ Hd _] p. unfold is_link, st_mode, is_dir_name. cbn. by rewrite Hn, Hd. Qed.

Lemma chmod_type t m : has_type t (Z.lor (Z.land m S_IFMT) 0x1ED) = has_type t m.
Proof.
  unfold has_type. rewrite Z.land_lor_distr_l. change (Z.land 0x1ED S_IFMT) with 0. rewrite Z.lor_0_r.
  by rewrite <- Z.land_assoc, Z.land_diag.
Qed.

(** Setting permissions keeps the type of every entry, and of a directory changes no file. *)
Lemma chmod_spec path h :
  wp (sys_chmod path 0x1ED) (fun h' _ => same_files h.1 h'.1 /\ proc h' = proc h /\ k_umask h'.2 = k_umask h.2 /\
    (forall p, is_link h' p = is_link h p) /\ (is_dir_name h.1 path = true -> k_modes h'.2 = k_modes h.2)) h.
Proof.
  apply wp_call. intros [d k] [Hf Hk]. cbn in Hf, Hk. subst k. destruct h as [d0 k]. cbn [fst snd] in *.
  pose proof (same_files_link (d0, k) d Hf) as Hl. cbn in Hl. unfold proc. cbn. split; [done|].
  destruct (follow (d, k) path) as [q|e] eqn:Hq; [|done].
  destruct (is_dir_name d q) eqn:Hd; [|destruct (im_dir (dk_now d) !! q) as [i|] eqn:Hi]; cbn; [| |done].
  - do 3 (split; [done|]). split; [|done]. intros p. rewrite <- Hl. unfold is_link, st_mode. cbn.
    destruct (is_dir_name d p); [|done]. cbn. by rewrite !dir_not_link.
  - do 3 (split; [done|]). split.
    + intros p. rewrite <- Hl. unfold is_link, st_mode. cbn. destruct (is_dir_name d p); [done|].
      destruct (im_dir (dk_now d) !! p) as [j|]; [|done]. cbn. destruct (decide (i = j)) as [->|Hj].
      * rewrite lookup_insert_eq. cbn. apply chmod_type.
      * by rewrite lookup_insert_ne.
    + intros Hp. unfold is_dir_name in Hp. rewrite <- (sf_dirs _ _ Hf) in Hp. fold (is_dir_name d path) in Hp.
      unfold follow, is_link, st_mode in Hq. cbn in Hq. rewrite Hp in Hq. cbn in Hq. rewrite dir_not_link in Hq. congruence.
Qed.

(** ** Staging *)

(** The same names, inodes and kernel; descriptors may have been added. *)
Definition files_kept (h h' : HostState) : Prop :=
  dk_now h'.1 = dk_now h.1 /\ dk_dirs h'.1 = dk_dirs h.1 /\ h'.2 = h.2.

Lemma open_nofollow_spec path h :
  names_wf (dk_now h.1) ->
  wp (open_nofollow path) (fun h' r => files_kept h h' /\
    match r with
    | Ok (OpenFile s) => exists i f, im_dir (dk_now h.1) !! path = Some i /\ holds s i 0 f h'.1 /\ (s < length (dk_fds h'.1))%nat
    | _ => True
    end) h.
Proof.
  intros Hw. apply wp_call. intros [d k] [[Hn _ Hd _] Hk]. unfold files_kept. cbn in *. split; [done|].
  destruct (is_dir_name d path); [done|]. destruct (is_link (d, k) path); [done|].
  destruct (im_dir (dk_now d) !! path) as [i|] eqn:Hi; [|done]. cbn. split; [done|]. rewrite Hn in Hi.
  destruct (lookup_lt_is_Some_2 _ _ (nw_range _ Hw _ _ Hi)) as [f Hf]. exists i, f. split; [done|]. split.
  - split; cbn; [by rewrite lookup_app_r, Nat.sub_diag by lia|by rewrite Hn].
  - rewrite length_app. cbn. lia.
Qed.

Definition new_mode (h : HostState) : Z := Z.lor S_IFREG (Z.land 0x1B6 (wnot 16 (k_umask h.2))).

Lemma open_truncate_inv t d d' r :
  open_truncate t d = Some (d', Ok r) ->
  is_Some (dk_dirs d !! dir_of t) /\ is_dir_name d t = false /\
  forall j, im_dir (dk_now d) !! t = Some j -> im_dir (dk_now d') !! t = Some j.
Proof.
  unfold open_truncate, sys. destruct (next_outcome d) as [d1 o] eqn:Eo.
  assert (dk_dirs d1 = dk_dirs d /\ dk_now d1 = dk_now d) as [Hd Hn]
    by (unfold next_outcome in Eo; destruct (dk_script d); by injection Eo as <- <-).
  unfold is_dir_name. rewrite <- Hd, <- Hn. intros H. destruct o; [| |done];
    (destruct (dir_like t || _) eqn:Ho; [done|]; apply orb_false_iff in Ho as [_ Ho];
     destruct (dk_dirs d1 !! dir_of t); [|done]; split; [by eexists|]; split; [exact Ho|]; intros j Hj;
     rewrite Hj in H; by injection H as <- _).
Qed.

(** Creating a file that no link hides. *)
Lemma file_create_spec path h :
  names_wf (dk_now h.1) -> is_link h path = false ->
  wp (file_create path) (fun h' r => names_wf (dk_now h'.1) /\ proc h' = proc h /\
    match r with
    | Ok t => is_Some (dk_dirs h.1 !! dir_of path) /\ is_dir_name h.1 path = false /\ dk_dirs h'.1 = dk_dirs h.1 /\
        t = length (dk_fds h.1) /\
        exists i, frame t i path h.1 h'.1 /\ opened t i path 0 [] h'.1 /\
          match im_dir (dk_now h.1) !! path with
          | Some j => i = j /\ k_modes h'.2 = k_modes h.2
          | None => (length (im_inodes (dk_now h.1)) <= i)%nat /\ k_modes h'.2 !! i = Some (new_mode h)
          end
    | Err _ => True
    end) h.
Proof.
  intros Hw Hl. unfold wp, file_create, follow. rewrite Hl.
  pose proof (open_truncate_spec path h.1 Hw) as Ho. unfold wp in Ho.
  destruct (open_truncate path h.1) as [[d [t|e]]|] eqn:Ht; [|by destruct Ho|done].
  destruct (open_truncate_inv _ _ _ _ Ht) as (Hdir & Hno & Hkeep). destruct Ho as [Hw' (-> & i & Hf & Hop & Hi)].
  cbn. do 4 (split; [done|]). split; [by destruct Hf|]. split; [done|]. exists i. split; [done|]. split; [done|].
  destruct (im_dir (dk_now h.1) !! path) as [j|] eqn:Hj; cbn.
  - split; [|done]. destruct Hop as [Hop _]. rewrite (Hkeep j eq_refl) in Hop. by injection Hop.
  - destruct Hi as [Hi|Hi]; [done|]. split; [done|]. rewrite (op_name _ _ _ _ _ _ Hop). by apply lookup_insert_eq.
Qed.

(** What a successful copy leaves under the destination. *)
Record copied (src dst : list Z) (h h' : HostState) : Prop := mkCopied {
  cp_wf : names_wf (dk_now h'.1);
  cp_proc : proc h' = proc h;
  cp_dirs : dk_dirs h'.1 = dk_dirs h.1 /\ is_Some (dk_dirs h.1 !! dir_of dst) /\ is_dir_name h.1 dst = false;
  cp_bytes : src <> dst -> exists f f', at_path (dk_now h.1) src = Some f /\ at_path (dk_now h'.1) dst = Some f' /\
    f_bytes f' = f_bytes f;
  cp_mode : st_mode h' dst = Some (default (new_mode h) (st_mode h dst))
}.

Lemma only_file_wf j d d' : only_file j d d' -> names_wf (dk_now d) -> names_wf (dk_now d').
Proof. intros [(Hd & Hl & _) _] [Hi Hr]. split; rewrite Hd; [done|by rewrite Hl]. Qed.

Lemma create_and_copy src dst s i f h :
  names_wf (dk_now h.1) -> is_link h dst = false ->
  im_dir (dk_now h.1) !! src = Some i -> holds s i 0 f h.1 -> (s < length (dk_fds h.1))%nat ->
  wp (let* dst_file := file_create dst in p_zoom (io_copy s dst_file)) (fun h' r =>
    proc h' = proc h /\ names_wf (dk_now h'.1) /\ match r with Ok _ => copied src dst h h' | Err _ => True end) h.
Proof.
  intros Hw Hl Hi Hs Hlt. apply wp_bind. eapply wp_mono; [by apply file_create_spec|].
  intros h1 [t|e] (Hw1 & Hp1 & Hr); [|done]. destruct Hr as (Hdir & Hno & Hdirs & -> & j & Hf & Hop & Hm).
  destruct Hop as [Hname Hdst]. destruct Hs as [Hfd Hino]. pose proof (nw_range _ Hw _ _ Hi) as Hir.
  assert (dk_fds h1.1 !! s = Some (mkFd i 0)) as Hfd1 by (rewrite (fr_fds _ _ _ _ _ Hf); [done|lia|done]).
  assert (Hmode : forall d, only_file j h1.1 d -> st_mode (d, h1.2) dst = Some (default (new_mode h) (st_mode h dst))).
  { intros d [(Hd & _) Hds]. unfold st_mode, is_dir_name in *. cbn. rewrite Hds, Hdirs, Hno, Hd, Hname. cbn.
    destruct (im_dir (dk_now h.1) !! dst) as [j'|]; cbn; [by destruct Hm as [-> ->]|by destruct Hm as [_ ->]]. }
  apply wp_zoom. destruct (decide (src = dst)) as [->|Hne].
  - rewrite Hi in Hm. destruct Hm as [-> Hm]. destruct Hdst as [b [_ Hx]].
    eapply wp_mono; [apply (io_copy_same s i); by exists b|]. intros d r [Ho _]. split; [done|].
    split; [by eapply only_file_wf|]. destruct r; [|done]. split; [by eapply only_file_wf|done| |done|by apply Hmode].
    split; [|done]. cbn. by rewrite (of_dirs _ _ _ Ho).
  - assert (i <> j) as Hij.
    { destruct (im_dir (dk_now h.1) !! dst) as [j'|] eqn:Hj; [destruct Hm as [-> _]|lia].
      intros ->. apply Hne. by eapply (nw_inj _ Hw). }
    eapply wp_mono; [apply (io_copy_distinct s i (length (dk_fds h.1)) j (f_bytes f)); [lia|done|]|].
    { split; [lia| |done]. exists (f_synced f). split; [done|]. destruct f. by rewrite (ag_inode _ _ _ _ (fr_now _ _ _ _ _ Hf)). }
    intros d r [Ho Hr]. split; [done|]. split; [by eapply only_file_wf|]. destruct r as [n|e]; [|done].
    split; [by eapply only_file_wf|done| | |by apply Hmode].
    + split; [|done]. cbn. by rewrite (of_dirs _ _ _ Ho).
    + intros _. pose proof (cy_dst _ _ _ _ _ _ _ Hr) as [b [_ Hx]]. exists f, (mkFile (f_bytes f) b).
      unfold at_path. rewrite Hi. cbn. destruct (of_now _ _ _ Ho) as (-> & _). rewrite Hname. cbn.
      rewrite Hx, firstn_all. by split_and!.
Qed.

Lemma files_kept_mode h h' p : files_kept h h' -> st_mode h' p = st_mode h p.
Proof. intros (Hn & Hd & Hk). unfold st_mode, is_dir_name. by rewrite Hn, Hd, Hk. Qed.

Lemma copied_from src dst h h1 h' : files_kept h h1 -> copied src dst h1 h' -> copied src dst h h'.
Proof.
  intros Hkept [Hw Hp (Hd & Hdir & Hno) Hb Hm]. pose proof (files_kept_mode _ _ dst Hkept) as Hmode.
  destruct Hkept as (Hn & Hds & Hk). split; [done| | | |].
  - rewrite Hp. unfold proc. by rewrite Hk.
  - unfold is_dir_name in *. by rewrite <- Hds.
  - intros Hne. rewrite <- Hn. by apply Hb.
  - rewrite Hm, Hmode. unfold new_mode. by rewrite Hk.
Qed.

Lemma copy_via_nofollow_spec src dst h :
  names_wf (dk_now h.1) -> is_link h dst = false ->
  wp (copy_via_nofollow src dst) (fun h' r =>
    proc h' = proc h /\ names_wf (dk_now h'.1) /\ match r with Ok _ => copied src dst h h' | Err _ => True end) h.
Proof.
  intros Hw Hl. unfold copy_via_nofollow. destruct (contains_nul src); [done|].
  apply wp_bind. eapply wp_mono; [by apply open_nofollow_spec|]. intros h1 r [Hk1 Hr].
  assert (proc h1 = proc h /\ names_wf (dk_now h1.1)) as [Hp1 Hw1].
  { unfold proc. destruct Hk1 as (-> & _ & ->). done. }
  destruct r as [o|e]; [|done]. apply wp_bind. eapply wp_mono; [apply (wp_look (fun h => _))|].
  intros h2 r [[[Hn _ Hd Hf] Hk] _].
  assert (files_kept h h2) as Hk2 by (destruct Hk1 as (A & B & C'); split_and!; congruence).
  assert (proc h2 = proc h /\ names_wf (dk_now h2.1)) as [Hp2 Hw2].
  { unfold proc. destruct Hk2 as (-> & _ & ->). done. }
  destruct r as [mode|e]; [|done]. destruct o as [p|s]; [done|]. destruct (has_type S_IFREG mode); [|done].
  destruct Hr as (i & f & Hi & Hh & Hlt).
  assert (is_link h2 dst = false) as Hl2 by (unfold is_link in *; by rewrite (files_kept_mode _ _ dst Hk2)).
  eapply wp_mono; [apply (create_and_copy src dst s i f); [done|done| | |]|].
  - by destruct Hk2 as (-> & _).
  - destruct Hh as [H1 H2]. split; [by rewrite Hf|by rewrite Hn].
  - by rewrite Hf.
  - intros h3 r (Hp3 & Hw3 & Hr3). split; [congruence|]. split; [done|]. destruct r; [|done]. by eapply copied_from.
Qed.

(** Where the jailer works: under its base directory, in a directory named after the
    instance. *)
Lemma id_names_file id : id_ok id -> names_file id.
Proof.
  intros (Hne & _ & Hc). split.
  - eapply Forall_impl; [exact Hc|]. intros c H ->. cbn in H. destruct H as [H|[H|H]]; discriminate H.
  - apply bool_decide_eq_false. intros [?| ->]; [done|]. inversion_clear Hc as [|? ? H]. cbn in H.
    destruct H as [H|[H|H]]; discriminate H.
Qed.

Lemma lit_names_file (s : string) :
  forallb (fun c => negb (c =? SLASH)) (lit s) && negb (skipped (lit s)) = true -> names_file (lit s).
Proof.
  intros [H1 H2]%andb_true_iff. split; [|by apply negb_true_iff in H2]. apply List.Forall_forall. intros c Hc.
  apply (proj1 (List.forallb_forall _ _) H1) in Hc. by apply negb_true_iff, Z.eqb_neq in Hc.
Qed.

Lemma compose_chroot_dir_shape base id : id_ok id -> exists d, compose_chroot_dir base id = d ++ SLASH :: lit "root".
Proof.
  intros Hid. apply id_names_file in Hid. unfold compose_chroot_dir.
  assert (exists x, path_push base (lit "firecracker") = x ++ lit "firecracker") as [x ->].
  { unfold path_push. cbn [has_root]. change (has_root (lit "firecracker")) with false. cbn iota.
    destruct (last base) as [c|]; [|by exists []]. destruct (c =? SLASH); [by eexists|].
    exists (base ++ [SLASH]). by rewrite <- app_assoc. }
  rewrite path_push_in by (done || by apply lit_names_file).
  change (SLASH :: id) with ([SLASH] ++ id). rewrite app_assoc.
  rewrite path_push_in by (done || by apply lit_names_file). by eexists.
Qed.

Lemma dir_of_pushed d name :
  names_file name -> let dir := d ++ SLASH :: lit "root" in
  path_push dir name = dir ++ SLASH :: name /\ dir_of (path_push dir name) = dir.
Proof.
  intros Hn dir. assert (path_push dir name = dir ++ SLASH :: name) as ->.
  { unfold dir. change (SLASH :: lit "root") with ([SLASH] ++ lit "root"). rewrite app_assoc.
    rewrite path_push_in by (done || by apply lit_names_file). done. }
  split; [done|]. unfold dir_of. rewrite parent_in by done. rewrite decide_False by (unfold dir; by destruct d).
  assert (trim_right dir = dir) as ->.
  { pose proof (next_piece_back_in d (lit "root") (proj1 (lit_names_file "root" eq_refl))) as Hp.
    eapply trim_right_stop; [|exact Hp|done]. pose proof (len_before_body_le dir). unfold dir in *.
    rewrite length_app. cbn [length]. change (length (lit "root")) with 4%nat. lia. }
  unfold dir. by destruct d.
Qed.

(** What staging leaves. *)
Record staged (env : JailerEnv) (h h' : HostState) : Prop := mkStaged {
  sg_dir : is_dir_name h'.1 (e_chroot_dir env) = true;
  sg_bytes : e_exec_file_host env <> staged_path env ->
    exists f f', at_path (dk_now h.1) (e_exec_file_host env) = Some f /\
      at_path (dk_now h'.1) (staged_path env) = Some f' /\ f_bytes f' = f_bytes f;
  sg_mode : st_mode h' (staged_path env) = Some (default (new_mode h) (st_mode h (staged_path env)))
}.

Lemma jail_stage_spec args env h :
  env_of args env -> names_wf (dk_now h.1) -> is_link h (staged_path env) = false ->
  wp (stage env) (fun h' r => proc h' = proc h /\ names_wf (dk_now h'.1) /\
    match r with Ok _ => staged env h h' | Err Replaced => False | Err (Raise _) => True end) h.
Proof.
  intros [Hid _ Hbase [before Hname] _ _] Hw Hl. apply file_name_names in Hname.
  destruct (compose_chroot_dir_shape (a_chroot_base_dir args) _ Hid) as [d Hd]. rewrite <- Hbase in Hd.
  destruct (dir_of_pushed d _ Hname) as [Hpush Hup]. cbn zeta in Hpush, Hup. rewrite <- Hd in Hpush, Hup.
  fold (staged_path env) in Hpush, Hup. unfold stage, or_raise. set (dir := e_chroot_dir env) in *. set (dst := staged_path env) in *.
  assert (length dir < length dst)%nat as Hlen by (rewrite Hpush, length_app; cbn; lia).
  apply wp_bind, wp_map_err. eapply wp_mono; [apply create_dir_all_spec; lia|]. intros h1 r H1.
  assert (names_wf (dk_now h1.1)) as Hw1 by (by rewrite (do_now _ _ _ H1)). pose proof (do_proc _ _ _ H1) as Hp1.
  pose proof (dirs_only_mode _ _ _ dst H1 Hlen) as Hm1.
  destruct r as [[]|e]; [|done]. cbn. apply wp_bind, wp_map_err. eapply wp_mono; [apply chmod_spec|].
  intros h2 r ([Hn2 _ Hd2 _] & Hp2 & Hu2 & Hl2 & Hk2).
  assert (names_wf (dk_now h2.1)) as Hw2 by (by rewrite Hn2).
  destruct r as [[]|e]; cbn; [|split; [congruence|done]]. apply wp_bind, wp_map_err.
  eapply wp_mono; [apply copy_via_nofollow_spec; [done|]|].
  { rewrite Hl2. unfold is_link in *. by rewrite Hm1. }
  intros h3 r (Hp3 & Hw3 & Hr). destruct r as [n|e]; cbn; [|split; [congruence|done]]. split; [congruence|].
  split; [done|]. destruct Hr as [_ _ (Hd3 & Hdir & Hno) Hb Hm]. rewrite Hup in Hdir.
  assert (is_dir_name h1.1 dir = true) as Hdir1 by (apply bool_decide_eq_true; by rewrite <- Hd2). split.
  - apply bool_decide_eq_true. by rewrite Hd3.
  - intros Hne. destruct (Hb Hne) as (f & f' & Hf & Hf'). exists f, f'. by rewrite <- (do_now _ _ _ H1), <- Hn2.
  - fold dst. rewrite Hm. f_equal. assert (st_mode h2 dst = st_mode h dst) as ->.
    { rewrite <- Hm1. unfold st_mode, is_dir_name in *. rewrite Hd2 in Hno |- *. rewrite Hno, Hn2, (Hk2 Hdir1). done. }
    f_equal. unfold new_mode. by rewrite Hu2, (do_umask _ _ _ H1).
Qed.

(** ** Giving up privileges *)

Definition limited (ls : list ResourceLimit) (l : Limits) : Limits :=
  foldl (fun l x => set_limit (l_resource x) (l_value x, l_value x) l) l ls.

(** The files and the kernel of [g]; the process may be another. *)
Record like (g h : HostState) : Prop := mkLike {
  lk_files : same_files g.1 h.1;
  lk_modes : k_modes h.2 = k_modes g.2;
  lk_dir_modes : k_dir_modes h.2 = k_dir_modes g.2
}.

Lemma like_refl g : like g g.
Proof. done. Qed.

Lemma like_unmoved g h h' : like g h -> unmoved h h' -> like g h'.
Proof. intros [A B D] [E F]. split; [by eapply same_files_trans|by rewrite F..]. Qed.

Lemma like_mode g h p : like g h -> st_mode h p = st_mode g p.
Proof. intros [[Hn _ Hd _] Hm Hk]. unfold st_mode, is_dir_name. by rewrite Hn, Hd, Hm, Hk. Qed.

(** A step of the sequence over the files of [g]: it fails without running a program, or
    makes of the process one that [P] relates to it. *)
Definition becomes (g : HostState) (c : jail unit) (P : Process -> Process -> Prop) : Prop :=
  forall h, like g h -> wp c (fun h' r => like g h' /\
    match r with
    | Ok _ => P (proc h) (proc h')
    | Err (Raise _) => p_program (proc h') = p_program (proc h)
    | Err Replaced => False
    end) h.

Section steps.
Context (g : HostState).

Lemma becomes_process f act (P : Process -> Process -> Prop) :
  (forall p p', act p = Ok p' -> P p p') -> becomes g (or_raise f (on_process act)) P.
Proof.
  intros H h Hg. apply wp_map_err, wp_process. intros h1 Hu. pose proof (like_unmoved _ _ _ Hg Hu) as H1. split.
  - intros e. split; [done|]. unfold proc. by rewrite (proj2 Hu).
  - intros p Hp. split; [by destruct H1|by apply H].
Qed.

Lemma becomes_set f F : becomes g (or_raise f (on_process (fun p => Ok (F p)))) (fun p q => q = F p).
Proof. apply becomes_process. by intros p p' [= <-]. Qed.

Lemma becomes_ret : becomes g (p_ret tt) eq.
Proof. intros h Hg. by apply wp_ret. Qed.

Lemma becomes_fail e P : becomes g (p_fail (Raise e)) P.
Proof. intros h Hg. by apply wp_fail. Qed.

Lemma becomes_mono c (P Q : Process -> Process -> Prop) :
  becomes g c P -> (forall p q, P p q -> Q p q) -> becomes g c Q.
Proof.
  intros H HPQ h Hg. eapply wp_mono; [by apply H|]. intros h' [[]|e] [Hl Hr]; (split; [done|]); [by apply HPQ|done].
Qed.

Lemma becomes_bind c d (P Q R : Process -> Process -> Prop) :
  becomes g c P -> becomes g d Q -> (forall p q, P p q -> p_program q = p_program p) ->
  (forall p q r, P p q -> Q q r -> R p r) -> becomes g (let* _ := c in d) R.
Proof.
  intros Hc Hd Hkeep HR h Hg. apply wp_bind. eapply wp_mono; [by apply Hc|]. intros h1 [[]|e] [Hl Hp]; [|done].
  eapply wp_mono; [by apply Hd|]. intros h2 r [Hl2 Hq]. split; [done|].
  destruct r as [[]|[e|]]; [by eapply HR|by rewrite Hq, (Hkeep _ _ Hp)|done].
Qed.

(** A step with one outcome comes first. *)
Lemma becomes_first c d F (Q : Process -> Process -> Prop) :
  becomes g c (fun p q => q = F p) -> (forall p, p_program (F p) = p_program p) -> becomes g d Q ->
  becomes g (let* _ := c in d) (fun p r => Q (F p) r).
Proof. intros Hc HF Hd. eapply becomes_bind; [exact Hc|exact Hd|by intros p q ->|by intros p q r ->]. Qed.

Lemma limits_step ls : becomes g (apply_resource_limits ls) (fun p q => q = with_limits (limited ls (p_limits p)) p).
Proof.
  induction ls as [|l ls IH]; cbn [apply_resource_limits].
  - eapply becomes_mono; [apply becomes_ret|]. intros p q <-. by destruct p.
  - eapply becomes_bind; [apply becomes_set|exact IH|by intros p q ->|by intros p q r -> ->].
Qed.

Lemma dup_step ts :
  becomes g (dup_all ts) (fun p q => q = with_stdio (foldl (fun s t => <[t := Some DevNull]> s) (p_stdio p) ts) p).
Proof.
  induction ts as [|t ts IH]; cbn [dup_all].
  - eapply becomes_mono; [apply becomes_ret|]. intros p q <-. by destruct p.
  - eapply becomes_bind; [apply becomes_set|exact IH|by intros p q ->|by intros p q r -> ->].
Qed.

(** The grandchild: no leader of its session, its streams on the null device, two
    parents gone with status 0. *)
Definition detached (p : Process) : Process :=
  with_stdio (replicate 3 (Some DevNull)) (with_session false (p_parents p ++ [0; 0]) p).

Lemma daemonize_step :
  becomes g daemonize (fun p q => p_program q = p_program p /\ (length (p_stdio p) = 3%nat -> q = detached p)).
Proof.
  eapply becomes_mono.
  { apply becomes_first; [apply becomes_set|done|]. apply (becomes_first _ _ (fun p => with_session true (p_parents p) p)); [|done|].
    - apply becomes_process. intros p p'. destruct (p_group_leader p); [done|by intros [= <-]].
    - apply becomes_first; [apply becomes_set|done|]. apply becomes_first; [apply becomes_set|done|apply dup_step]. }
  intros p q ->. split; [done|]. intros Hl. unfold detached. cbn.
  destruct (p_stdio p) as [|a [|b [|c [|? ?]]]]; try done. rewrite <- app_assoc. by destruct a, b, c.
Qed.

Lemma chroot_step dir :
  is_dir_name g.1 dir = true ->
  becomes g (chroot dir) (fun p q => c_euid (p_cred p) = 0 /\ q = with_dirs (Some dir) [SLASH] p).
Proof.
  intros Hd. unfold chroot. case_match; [apply becomes_fail|].
  eapply (becomes_bind _ _ (fun p q => c_euid (p_cred p) = 0 /\ q = with_dirs (Some dir) (p_cwd p) p));
    [|apply becomes_set|by intros p q [_ ->]|by intros p q r [? ->] ->].
  intros h Hg. apply wp_map_err, wp_call. intros h1 Hu. pose proof (like_unmoved _ _ _ Hg Hu) as H1.
  assert (proc h1 = proc h) as Hp by (unfold proc; by rewrite (proj2 Hu)). split; [intros e; split; [done|by rewrite Hp]|].
  cbn beta zeta. destruct (Z.eqb_spec (c_euid (p_cred (proc h1))) 0) as [He|]; cbn [negb]; [|cbn; split; [done|by rewrite Hp]].
  assert (is_dir_name h1.1 dir = true) as Hd1 by (unfold is_dir_name in *; by rewrite (sf_dirs _ _ (lk_files _ _ H1))).
  unfold follow, is_link, st_mode. rewrite Hd1. cbn [from_option]. rewrite dir_not_link, Hd1. rewrite <- Hp. by split; [destruct H1|].
Qed.

Lemma setgid_step gid :
  becomes g (setgid gid) (fun p q => p_program q = p_program p /\ (c_euid (p_cred p) = 0 ->
    q = with_cred (mkCred (c_ruid (p_cred p)) (c_euid (p_cred p)) (c_suid (p_cred p)) gid gid gid (c_groups (p_cred p))) p)).
Proof.
  apply becomes_process. intros p p' H. cbn zeta in H. destruct (Z.eqb_spec (c_euid (p_cred p)) 0); [by injection H as <-|].
  destruct (_ || _); [by injection H as <-|done].
Qed.

Lemma setuid_step uid :
  becomes g (setuid uid) (fun p q => p_program q = p_program p /\ (c_euid (p_cred p) = 0 ->
    q = with_cred (mkCred uid uid uid (c_rgid (p_cred p)) (c_egid (p_cred p)) (c_sgid (p_cred p)) (c_groups (p_cred p))) p)).
Proof.
  apply becomes_process. intros p p' H. cbn zeta in H. destruct (Z.eqb_spec (c_euid (p_cred p)) 0); [by injection H as <-|].
  destruct (_ || _); [by injection H as <-|done].
Qed.

Definition sandboxed (profile : option SandboxProfile) (p : Process) : Process :=
  match profile with Some s => with_sandbox (profile_text s) p | None => p end.

Lemma sandbox_step profile :
  becomes g (match profile with Some profile => apply_profile profile | None => p_ret tt end)
    (fun p q => q = sandboxed profile p).
Proof.
  destruct profile as [s|]; [|eapply becomes_mono; [apply becomes_ret|by intros p q <-]].
  unfold apply_profile. destruct (contains_nul _); [apply becomes_fail|]. apply becomes_set.
Qed.

(** A step, and what follows it. *)
Lemma becomes_wp c (P : Process -> Process -> Prop) (d : jail unit) Q h :
  becomes g c P -> like g h -> (forall h' e, p_program (proc h') = p_program (proc h) -> Q h' (Err (Raise e))) ->
  (forall h', like g h' -> P (proc h) (proc h') -> wp d Q h') -> wp (let* _ := c in d) Q h.
Proof.
  intros Hc Hg He Hd. apply wp_bind. eapply wp_mono; [by apply Hc|].
  intros h' [[]|[e|]] [Hl Hr]; [by apply Hd|by apply He|done].
Qed.

(** The process just before its program is replaced. *)
Definition dropped (env : JailerEnv) (p : Process) : Process :=
  let p := with_limits (limited (e_resource_limits env) (p_limits p)) p in
  let p := if e_daemonize env then detached p else p in
  let p := with_dirs (Some (e_chroot_dir env)) [SLASH] p in
  let p := with_cred (mkCred (e_uid env) (e_uid env) (e_uid env) (e_gid env) (e_gid env) (e_gid env) (c_groups (p_cred p))) p in
  sandboxed (e_sandbox_profile env) p.

Definition program_of (env : JailerEnv) : Program :=
  mkProgram (exec_file_in_chroot env) (exec_file_in_chroot env :: e_child_argv env) curated_envp.

Definition executable (m : Z) : Prop := Z.land m 0x49 <> 0.

Lemma exec_step env h :
  names_file (e_exec_file_basename env) -> is_link g (staged_path env) = false -> like g h ->
  p_root (proc h) = Some (e_chroot_dir env) ->
  wp (exec env (x_argv (program_of env))) (fun h' r =>
    match r with
    | Ok _ => False
    | Err (Raise _) => p_program (proc h') = p_program (proc h)
    | Err Replaced => dk_now h'.1 = dk_now g.1 /\ proc h' = with_program (program_of env) (proc h) /\
        exists m, st_mode g (staged_path env) = Some m /\ executable m
    end) h.
Proof.
  intros Hn Hl Hg Hroot. cbn [program_of x_argv exec]. apply wp_bind, wp_map_err, wp_call. intros h1 Hu.
  assert (proc h1 = proc h) as Hp by (unfold proc; by rewrite (proj2 Hu)). split; [intros e; cbn; by rewrite Hp|].
  pose proof (like_mode _ _ (staged_path env) (like_unmoved _ _ _ Hg Hu)) as Hm. cbn beta zeta. rewrite Hp, Hroot.
  assert (rooted (Some (e_chroot_dir env)) (exec_file_in_chroot env) = staged_path env) as ->.
  { unfold exec_file_in_chroot, path_push at 1. by rewrite names_file_relative. }
  unfold follow, is_link. rewrite Hm. change (from_option (has_type S_IFLNK) false (st_mode g (staged_path env)))
    with (is_link g (staged_path env)). rewrite Hl, Hm.
  destruct (st_mode g (staged_path env)) as [m|]; cbn; [|by rewrite Hp].
  destruct (has_type S_IFREG m); cbn; [|by rewrite Hp]. destruct (Z.eqb_spec (Z.land m 73) 0) as [He|He]; cbn; [by rewrite Hp|].
  split; [apply (like_unmoved _ _ _ Hg Hu)|]. split; [done|by exists m].
Qed.

Lemma build_argv_ok env argv : build_argv env = Ok argv -> argv = x_argv (program_of env).
Proof.
  unfold build_argv, program_of, cstring. cbn. destruct (contains_nul _); [done|].
  assert (forall l l', try_map (fun b => if contains_nul b then Err (PathContainsNul b) else Ok b) l = Ok l' -> l' = l) as Ht.
  { induction l as [|x l IH]; intros l' H; [by injection H as <-|]. cbn in H. destruct (contains_nul x); [done|].
    destruct (try_map _ l) eqn:E; [|done]. injection H as <-. by rewrite (IH _ eq_refl). }
  destruct (try_map _ _) eqn:E; [|done]. intros [= <-]. by rewrite (Ht _ _ E).
Qed.

Lemma run_sequence_spec env h :
  names_file (e_exec_file_basename env) -> is_dir_name g.1 (e_chroot_dir env) = true ->
  is_link g (staged_path env) = false -> like g h -> length (p_stdio (proc h)) = 3%nat ->
  wp (run_sequence env) (fun h' r =>
    match r with
    | Ok _ => False
    | Err (Raise _) => p_program (proc h') = p_program (proc h)
    | Err Replaced => dk_now h'.1 = dk_now g.1 /\ c_euid (p_cred (proc h)) = 0 /\ proc h' = with_program (program_of env) (dropped env (proc h)) /\
        exists m, st_mode g (staged_path env) = Some m /\ executable m
    end) h.
Proof.
  intros Hn Hd Hl Hg Hio. unfold run_sequence.
  eapply becomes_wp; [apply limits_step|done|done|]. intros h1 H1 P1.
  eapply (becomes_wp _ (fun p q => p_program q = p_program p /\
    (length (p_stdio p) = 3%nat -> q = if e_daemonize env then detached p else p))); [|done| |].
  { destruct (e_daemonize env); [apply daemonize_step|]. eapply becomes_mono; [apply becomes_ret|by intros p q <-]. }
  { intros h' e ->. by rewrite P1. }
  intros h2 H2 [E2 P2]. rewrite P1 in E2, P2. specialize (P2 Hio). cbn in E2.
  eapply becomes_wp; [by apply chroot_step|done|intros h' e ->; done|]. intros h3 H3 [Hroot P3].
  assert (c_euid (p_cred (proc h)) = 0) as He by (rewrite P2 in Hroot; by destruct (e_daemonize env)).
  assert (p_program (proc h3) = p_program (proc h)) as E3 by (rewrite P3; exact E2).
  eapply becomes_wp; [apply setgid_step|done|intros h' e ->; done|]. intros h4 H4 [E4 P4].
  assert (c_euid (p_cred (proc h3)) = 0) as He3 by (by rewrite P3). specialize (P4 He3).
  eapply becomes_wp; [apply setuid_step|done|intros h' e ->; congruence|]. intros h5 H5 [E5 P5].
  assert (c_euid (p_cred (proc h4)) = 0) as He4 by (by rewrite P4). specialize (P5 He4).
  eapply becomes_wp; [apply sandbox_step|done|intros h' e ->; congruence|]. intros h6 H6 P6.
  assert (proc h6 = dropped env (proc h)) as Hfin.
  { rewrite P6, P5, P4, P3, P2. unfold dropped. by destruct (e_daemonize env). }
  assert (p_program (proc h6) = p_program (proc h)) as E6.
  { rewrite P6. transitivity (p_program (proc h5)); [by destruct (e_sandbox_profile env)|congruence]. }
  apply wp_bind, wp_lift. destruct (build_argv env) as [argv|e] eqn:Hargv; [|done]. cbn.
  apply build_argv_ok in Hargv as ->. eapply wp_mono; [apply exec_step; [done..|]|].
  { rewrite P6. transitivity (p_root (proc h5)); [by destruct (e_sandbox_profile env)|]. by rewrite P5, P4, P3. }
  intros h7 [[]|[e|]] Hr; [done|by rewrite Hr|]. destruct Hr as (Hnow & Hp & Hx). by rewrite Hp, Hfin.
Qed.
End steps.

(** ** The whole jailer *)

Lemma capped_string_id max s s' : capped_string_parser max s = Ok s' -> s' = s.
Proof. unfold capped_string_parser. repeat case_match; by intros [= <-]. Qed.

Lemma capped_path_id s s' : capped_path_parser s = Ok s' -> s' = s.
Proof. unfold capped_path_parser. repeat case_match; by intros [= <-]. Qed.

Lemma try_map_id {A E} (f : A -> result E A) l l' : (forall x y, f x = Ok y -> y = x) -> try_map f l = Ok l' -> l' = l.
Proof.
  intros Hf. revert l'. induction l as [|x l IH]; intros l' H; [by injection H as <-|]. cbn in H.
  destruct (f x) eqn:Hx; [|done]. destruct (try_map f l); [|done]. injection H as <-. f_equal; [by apply Hf|by apply IH].
Qed.

Lemma try_option_id {A E} (f : A -> result E A) o o' : (forall x y, f x = Ok y -> y = x) -> try_option f o = Ok o' -> o' = o.
Proof.
  intros Hf H. destruct o as [x|]; cbn in H; [|by injection H as <-]. destruct (f x) eqn:Hx; [|done].
  injection H as <-. by rewrite (Hf _ _ Hx).
Qed.

(** The value parsers reject or pass their value on. *)
Lemma parse_flags_id raw args : parse_flags raw = Ok args -> args = raw.
Proof.
  unfold parse_flags. intros H.
  repeat match type of H with
  | match ?c with Ok _ => _ | Err _ => _ end = _ => let E := fresh "E" in destruct c eqn:E; [|done]
  end. injection H as <-.
  repeat match goal with
  | E : capped_string_parser _ _ = Ok _ |- _ => apply capped_string_id in E
  | E : capped_path_parser _ = Ok _ |- _ => apply capped_path_id in E
  | E : try_map _ _ = Ok _ |- _ => apply try_map_id in E; [|by apply capped_string_id]
  | E : try_option _ _ = Ok _ |- _ => apply try_option_id in E; [|by apply capped_string_id || apply capped_path_id]
  end. subst. by destruct raw.
Qed.

Definition instance_dir (args : Args) : list Z := compose_chroot_dir (a_chroot_base_dir args) (a_id args).

(** What other processes may do: keep every name on an inode of its own, and put no
    symbolic link into the instance's directory. *)
Record orderly (others : HostState -> HostState) (args : Args) : Prop := mkOrderly {
  or_wf : forall h, names_wf (dk_now h.1) -> names_wf (dk_now (others h).1);
  or_links : forall h name, names_file name -> is_link (others h) (path_push (instance_dir args) name) = false
}.

Lemma staged_not_link env h h' : is_link h (staged_path env) = false -> staged env h h' -> is_link h' (staged_path env) = false.
Proof.
  intros Hl Hs. unfold is_link in *. rewrite (sg_mode _ _ _ Hs). cbn. destruct (st_mode h _); [done|]. cbn.
  unfold has_type, new_mode. rewrite Z.land_lor_distr_l, (Z.land_comm 438), <- Z.land_assoc.
  change (Z.land 438 S_IFMT) with 0. by rewrite Z.land_0_r.
Qed.

(** A run of the jailer: it ends, and when the program was replaced it went through
    validation, staging and every step of the sequence. *)
Lemma run_jail_spec others args h :
  orderly others args -> names_wf (dk_now h.1) -> length (p_stdio (proc h)) = 3%nat ->
  wp (run_jail others args) (fun h' r =>
    match r with
    | Ok _ => False
    | Err (Raise _) => p_program (proc h') = p_program (proc h)
    | Err Replaced => exists env h0 g m, env_of args env /\ unmoved h h0 /\
        let h1 := ((others h0).1, mkKernel (k_modes (others h0).2) (k_dir_modes (others h0).2) (k_umask h.2) (proc h)) in
        staged env h1 g /\ dk_now h'.1 = dk_now g.1 /\ c_euid (p_cred (proc h)) = 0 /\
        proc h' = with_program (program_of env) (dropped env (proc h)) /\
        st_mode g (staged_path env) = Some m /\ executable m
    end) h.
Proof.
  intros [Howf Hlinks] Hw Hio. unfold run_jail. apply wp_bind. eapply wp_mono; [apply from_args_spec|].
  intros h0 r [Hu Hr]. assert (proc h0 = proc h) as Hp0 by (unfold proc; by rewrite (proj2 Hu)).
  destruct r as [env|[e|]]; [|by rewrite Hp0|done]. rename Hr into Henv. apply wp_bind. unfold wp at 1, interfere. cbn.
  set (h1 := ((others h0).1, _)).
  assert (Hw1 : names_wf (dk_now h1.1)) by (apply Howf; by rewrite (sf_now _ _ (proj1 Hu))).
  assert (Hl1 : is_link h1 (staged_path env) = false).
  { unfold staged_path. rewrite (eo_base _ _ Henv). destruct (eo_name _ _ Henv) as [b Hn]. by apply (Hlinks h0), (file_name_names _ b _ Hn). }
  apply wp_bind. eapply wp_mono; [by eapply jail_stage_spec|]. intros g r (Hp & Hwg & Hr). change (proc h1) with (proc h0) in Hp.
  destruct r as [[]|[e|]]; [|congruence|done]. rename Hr into Hs.
  pose proof (staged_not_link _ _ _ Hl1 Hs) as Hlg. destruct (eo_name _ _ Henv) as [b Hn].
  eapply wp_mono; [apply (run_sequence_spec g env g); [by eapply file_name_names|apply Hs|done|apply like_refl|congruence]|].
  rewrite Hp, Hp0. intros h' [[]|[e|]] Hr; [done|done|]. destruct Hr as (Hnow & He & Hfin & m & Hm & Hx).
  exists env, h0, g, m. split; [done|]. split; [done|]. cbn zeta.
  assert (h1 = ((others h0).1, mkKernel (k_modes (others h0).2) (k_dir_modes (others h0).2) (k_umask h.2) (proc h))) as <-.
  { unfold h1. by rewrite <- Hp0, <- (proj2 Hu). }
  done.
Qed.

Lemma exit_code_range e : 1 <= Z.max 1 (Z.min (exit_code e) 255) <= 3.
Proof. destruct e; cbn; lia. Qed.

(** Where and as whom the program runs, compared to the process the jailer was started as. *)
Record confined (args : Args) (name : list Z) (p p' : Process) : Prop := mkConfined {
  cf_superuser : c_euid (p_cred p) = 0;
  cf_ids : p_cred p' = mkCred (a_uid args) (a_uid args) (a_uid args) (a_gid args) (a_gid args) (a_gid args) (c_groups (p_cred p));
  cf_root : p_root p' = Some (instance_dir args) /\ p_cwd p' = [SLASH];
  cf_limits : exists ls, parse_all (a_resource_limits args) = Ok ls /\ p_limits p' = limited ls (p_limits p);
  cf_sandbox : p_sandbox p' = from_option (fun s => Some (profile_text s)) (p_sandbox p) (a_macos_sandbox_profile args);
  cf_program : p_program p' = Some (mkProgram (SLASH :: name) ((SLASH :: name) :: a_passthrough_argv args) curated_envp);
  cf_session :
    if a_daemonize args
    then p_stdio p' = replicate 3 (Some DevNull) /\ p_session_leader p' = false /\ p_parents p' = p_parents p ++ [0; 0]
    else p_stdio p' = p_stdio p /\ p_session_leader p' = p_session_leader p /\ p_parents p' = p_parents p
}.

Lemma dropped_confined args env p :
  env_of args env -> c_euid (p_cred p) = 0 ->
  confined args (e_exec_file_basename env) p (with_program (program_of env) (dropped env p)).
Proof.
  intros [_ Hls Hbase [b Hn] [Hu Hg] (Hd & Hs & Ha)] He. apply file_name_names, names_file_relative in Hn. unfold dropped.
  rewrite Hd, Hs, Hu, Hg. split; try done.
  - destruct (a_daemonize args), (a_macos_sandbox_profile args); done.
  - rewrite Hbase. destruct (a_daemonize args), (a_macos_sandbox_profile args); done.
  - exists (e_resource_limits env). split; [done|]. destruct (a_daemonize args), (a_macos_sandbox_profile args); done.
  - destruct (a_daemonize args), (a_macos_sandbox_profile args); done.
  - cbn. unfold program_of, exec_file_in_chroot, path_push. by rewrite Hn, Ha.
  - destruct (a_daemonize args), (a_macos_sandbox_profile args); done.
Qed.


(** A new file has no execute bit. *)
Lemma new_mode_not_executable h : ~ executable (new_mode h).
Proof.
  unfold executable, new_mode. rewrite Z.land_lor_distr_l, (Z.land_comm 438), <- Z.land_assoc.
  change (Z.land 438 73) with 0. rewrite Z.land_0_r. by intros [].
Qed.

(** C24: A fresh instance never runs.  When the instance's directory does not hold the binary
    yet, the copy is created without an execute bit, so the jailer ends with an error and
    runs nothing, whatever its flags and the binary. *)
Theorem fresh_instance_never_runs others raw h
    (Hothers : orderly others raw) (Hwf : names_wf (dk_now h.1)) (Hio : length (p_stdio (proc h)) = 3%nat)
    (Hfresh : forall h name, names_file name -> st_mode (others h) (path_push (instance_dir raw) name) = None) :
  exists h' code, jail_main others raw h = Some (h', Exit code) /\ 1 <= code <= 3 /\ p_program (proc h') = p_program (proc h).
Proof.
  unfold jail_main. destruct (parse_flags raw) as [args|e] eqn:Hp; [|exists h, USAGE; unfold USAGE; split_and!; done || lia].
  apply parse_flags_id in Hp as ->. destruct (validate_passthrough_argv_total raw); [|exists h, 1; split_and!; done || lia].
  pose proof (run_jail_spec others raw h Hothers Hwf Hio) as Hr. unfold wp in Hr.
  destruct (run_jail others raw h) as [[h' [[]|[e|]]]|]; [done| | |done].
  - eexists _, _. split; [done|]. split; [apply exit_code_range|done].
  - destruct Hr as (env & h0 & g & m & Henv & Hu & Hs & _ & _ & _ & Hm & Hx). exfalso.
    rewrite (sg_mode _ _ _ Hs) in Hm. set (h1 := ((others h0).1, _)) in Hm. injection Hm as Hm.
    assert (st_mode h1 (staged_path env) = None) as Hnone.
    { unfold staged_path. rewrite (eo_base _ _ Henv). destruct (eo_name _ _ Henv) as [b Hn]. by apply (Hfresh h0), (file_name_names _ b _ Hn). }
    rewrite Hnone in Hm. cbn in Hm. subst m. by eapply new_mode_not_executable.
Qed.
End jail.

(** ** A concrete host *)

#[local] Instance plain_host : JailHost := {
  realpath := fun _ p => Ok p;
  link_target := fun _ _ => Err ELOOP;
  profile_text := fun _ => lit "(version 1)(allow default)";
  sandbox_error := fun _ => None
}.

Definition ex_args : Args :=
  mkArgs (lit "vm-1") (lit "/usr/bin/squib") 501 20 (lit "/srv/jailer") true false [lit "no-file=1024"] [] None (lit "1") None
    (Some ProfileDefault) LevelInfo [lit "--no-api"].

Definition ex_process : Process :=
  mkProcess (mkCred 0 0 0 0 0 0 [0; 1]) None (lit "/") (mkLimits None None) (replicate 3 (Some Inherited)) true true None None [].

(** The binary on the host and, when [old] is given, a file of that mode where it is staged. *)
Definition ex_host (old : option Z) : HostState :=
  let dir := mkDirMeta 1 0 in
  let inst := lit "/srv/jailer/firecracker/vm-1/root" in
  let dirs : gmap (list Z) DirMeta := <[lit "/srv/jailer" := dir]> (<[lit "/usr/bin" := dir]> ∅) in
  let src : gmap (list Z) nat := {[ lit "/usr/bin/squib" := 0%nat ]} in
  match old with
  | Some mode =>
      (mkDisk (mkImage (<[inst ++ lit "/squib" := 1%nat]> src) [mkFile [1; 2; 3] true; mkFile [9] true]) []
         (<[inst := dir]> dirs) [] [],
       mkKernel (<[1%nat := mode]> {[0%nat := 0x81ED]}) ∅ 0x12 ex_process)
  | None =>
      (mkDisk (mkImage src [mkFile [1; 2; 3] true]) [] dirs [] [], mkKernel {[0%nat := 0x81ED]} ∅ 0x12 ex_process)
  end.

Lemma ex_host_wf old : names_wf (dk_now (ex_host old).1).
Proof.
  assert (names_wf (mkImage {[ lit "/usr/bin/squib" := 0%nat ]} [mkFile [1; 2; 3] true])) as Hw.
  { split; cbn; [|intros p i [_ <-]%lookup_singleton_Some; lia].
    intros p q i [<- _]%lookup_singleton_Some [<- _]%lookup_singleton_Some. done. }
  destruct old; [|exact Hw]. by apply (names_wf_new _ (mkFile [9] true) _ Hw).
Qed.

Lemma ex_host_links p : is_link (ex_host (Some 0x81ED)) p = false.
Proof.
  unfold is_link, st_mode. destruct (is_dir_name _ p); [apply dir_not_link|].
  destruct (im_dir _ !! p) as [i|]; [|done]. cbn. destruct (decide (i = 1%nat)) as [-> | H1]; [done|].
  rewrite lookup_insert_ne by congruence. destruct (decide (i = 0%nat)) as [-> | H0]; [done|].
  by rewrite lookup_singleton_ne by congruence.
Qed.

Lemma ex_orderly : orderly (fun _ => ex_host (Some 0x81ED)) ex_args.
Proof. split; [intros; apply ex_host_wf|intros; apply ex_host_links]. Qed.


(** No name of the host lies in the instance's directory. *)
Lemma ex_fresh_names {A} (m : gmap (list Z) A) name :
  map_Forall (fun k _ => take 34 k <> lit "/srv/jailer/firecracker/vm-1/root/") m ->
  m !! (lit "/srv/jailer/firecracker/vm-1/root" ++ SLASH :: name) = None.
Proof. intros H. destruct (m !! _) as [x|] eqn:Hx; [|done]. by apply H in Hx. Qed.

Lemma ex_fresh name : names_file name -> st_mode (ex_host None) (path_push (instance_dir ex_args) name) = None.
Proof.
  intros Hn. destruct (dir_of_pushed (lit "/srv/jailer/firecracker/vm-1") name Hn) as [Hp _].
  change (instance_dir ex_args) with (lit "/srv/jailer/firecracker/vm-1" ++ SLASH :: lit "root"). rewrite Hp.
  unfold st_mode, is_dir_name. cbn [ex_host fst snd dk_dirs dk_now im_dir].
  change ((lit "/srv/jailer/firecracker/vm-1" ++ SLASH :: lit "root") ++ SLASH :: name)
    with (lit "/srv/jailer/firecracker/vm-1/root" ++ SLASH :: name).
  rewrite !ex_fresh_names; [done|apply (bool_decide_unpack _); vm_compute; exact I..].
Qed.

Lemma fresh_instance_never_runs_witness :
  exists h' code, jail_main (fun _ => ex_host None) ex_args (ex_host None) = Some (h', Exit code) /\ code = 3.
Proof.
  pose proof (fresh_instance_never_runs (fun _ => ex_host None) ex_args (ex_host None)) as H.
  destruct H as (h' & code & Hm & _).
  - split; [intros; apply ex_host_wf|]. intros h name Hn. unfold is_link. by rewrite ex_fresh.
  - apply ex_host_wf.
  - reflexivity.
  - intros h name Hn. by apply ex_fresh.
  - exists h', code. split; [exact Hm|].
    assert (Hr : snd <$> jail_main (fun _ => ex_host None) ex_args (ex_host None) = Some (Exit 3)) by (vm_compute; reflexivity).
    rewrite Hm in Hr. by injection Hr.
Defined.

(** A daemon's launcher has exited with status 0 before the jailer fails. *)
Example daemon_failure_hidden :
  (fun r => (p_parents (proc r.1), r.2)) <$> jail_main (fun _ => ex_host None) ex_args (ex_host None) = Some ([0; 0], Exit 3).
Proof. vm_compute. reflexivity. Qed.

(** A binary that already lies at the staged path is emptied and run. *)
Example staged_onto_itself :
  let args := mkArgs (lit "vm-1") (lit "/srv/jailer/firecracker/vm-1/root/squib") 501 20 (lit "/srv/jailer") false false [] []
                None (lit "1") None None LevelInfo [] in
  (fun r => (f_bytes <$> at_path (dk_now r.1.1) (a_exec_file args), r.2)) <$>
    jail_main (fun _ => ex_host (Some 0x81ED)) args (ex_host (Some 0x81ED)) = Some (Some [], Running).
Proof. vm_compute. reflexivity. Qed.
